(* ===== verification/_CoqProject ===== *)
-Q . S2P
Prelude.v
QLock.v
ObServer.v
ObUpsManager.v
UpsManagerView.v
UpsLease.v
ObBitSet.v
ObNumber.v
ObNumberDiv.v
ObObject.v
StringSearch.v
Like.v
ObExprObj.v
Format.v
ObObjCast.v
ExprArith.v
ExprFunc.v
ObRowDesc.v
ObRow.v
ObBuffer.v
Serialization.v
SerializationLaws.v
ObObjectSerialize.v
ObRowDescSerialize.v
ObCompactCell.v
ObRowUtil.v
ObRowStore.v
RowStoreSpec.v
PhyOperator.v
RowKey.v
SetOperator.v
JoinSpec.v
MergeJoin.v
MergeJoinRun.v
MergeJoinRows.v
MergeJoinReopen.v
MergeUnion.v
MergePair.v
MergeIntersect.v
MergeExcept.v
SingleChild.v
Limit.v
MergeDistinct.v
InMemorySort.v
Sort.v
SortJoin.v
SortDistinct.v
SortSerialize.v
PostfixExpr.v
SqlExpr.v
RawExpr.v
RawEval.v
