(* ===== verification/Prelude.v ===== *)
(** * OceanBase 0.4: rows, wire formats, query operators, row locks and leases

    A model of parts of OceanBase under [src/oceanbase/src/]: the data of a row
    and its formats ([common/]), the operators of a query plan that work on
    sorted rows ([sql/]), the lock of a row of the update server ([common/qlock.h])
    and the root server's manager of the update servers ([rootserver/]).

    ** The parts and their files

    - [Prelude]: this file; return codes, integers of a width ([u8] .. [u64],
      [int8] .. [int64] wrap around), arrays ([zget], [zset]), comparison
      functions as orders ([CmpOrder]), results reached with enough fuel
      ([settles]).
    - [QLock] (common/qlock.h): every operation of the lock as its sequence of
      accesses to the two words; any number of threads interleave them.
    - [ObServer] (common/ob_server.h), [ObUpsManager] (rootserver/
      ob_ups_manager.cpp): the table of update servers, a definition per locked
      section.  [UpsManagerView]: what the sections do to the part the leases
      depend on.  [UpsLease] (ob_ups_check_runnable.cpp,
      ob_ups_heartbeat_runnable.cpp and the requests): the threads as a
      transition system over the sections.
    - [ObBitSet] (common/ob_bit_set.h), [ObNumber] and [ObNumberDiv]
      (common/ob_number.cpp: decimals, and their division), [ObObject]
      (common/ob_object.cpp: cells), [ObRowDesc] (common/ob_row_desc.cpp: columns of
      a row and their hash index), [ObRow] (common/ob_raw_row.cpp, ob_row.cpp).
    - [ObExprObj], [ExprArith], [ExprFunc] (common/ob_expr_obj.cpp: operands of
      expressions; comparison and logic, arithmetic and its static types, string
      functions), [ObObjCast] (common/ob_obj_cast.cpp: casts between types) with
      [Format] (the number formats of libc), [StringSearch] and [Like]
      (common/ob_string_search.cpp: searches and LIKE).
    - [ObBuffer] (common/ob_buffer_helper.h), [Serialization] and
      [SerializationLaws] (common/serialization.h), [ObObjectSerialize],
      [ObRowDescSerialize] (the serialize functions of cells and descriptions),
      [ObCompactCell] (common/ob_compact_cell_*.cpp), [ObRowUtil]
      (common/ob_row_util.cpp): bytes.
    - [ObRowStore] (common/ob_row_store.cpp): rows kept in a chain of blocks.
      [RowStoreSpec]: the list of rows it implements.
    - [PhyOperator] (sql/ob_phy_operator.h: the interface as a type class),
      [SetOperator], [MergeUnion], [MergePair], [MergeIntersect], [MergeExcept],
      [SingleChild], [Limit], [MergeDistinct] (the operators of these names under
      sql/).
    - [MergeJoin] (sql/ob_join.cpp, sql/ob_merge_join.cpp): the join, over the
      row store.  [JoinSpec]: joins of lists, in the order of the merge and in
      relational algebra.  [MergeJoinRun]: the states of the loop and the run.
      [MergeJoinRows]: the rows it gives.  [MergeJoinReopen]: what a second run
      gives.
    - [InMemorySort] (sql/ob_in_memory_sort.cpp): rows in a row store that keeps
      the sort columns beside them, and the sort of an array of them.  [Sort]
      (sql/ob_sort.cpp): the operator.  [SortSerialize]: both on the wire.
      [RowKey]: the cells of some columns of a row, which joins and sorts compare.
    - [SortJoin], [SortDistinct]: a merge join over two sorts and a DISTINCT over
      a sort, as the planner (sql/ob_transformer.cpp) puts them together.
    - [RawExpr] (sql/ob_raw_expr.cpp): the expression trees of the resolver and their
      translation to postfix form.  [SqlExpr] (sql/ob_sql_expression.cpp) and
      [PostfixExpr] (sql/ob_postfix_expression.cpp): that form, its operators and
      its calculation on a row.  [RawEval]: the value of a tree, and that the
      translation computes it.

    Rows are built of cells, described by a row description and written by the
    formats; operators pull rows from operators below them and compare them by
    the comparison of expression objects.  The lock and the manager stand on
    their own.

    ** Conventions

    A member function is a function on a record of its members; the return code
    is a [Z] and comes first.  [None] stands for an abort, for undefined
    behaviour (an access outside an array) or for running out of fuel.  Code that
    is not part of the repository is a parameter: the clock, the remote calls of
    the manager, the variables of a session, the pages of string buffers, and of libc
    the reading of floats, the calendar and [inet_aton].  So is the merge sort on disk; and the comparison of
    expressions takes the cast table as one.  [std::sort] is a class with the guarantees of the standard
    ([StdSort]).  Floats are their exact values where they are compared and their
    bits where they are written.

    ** What is shown

    - Formats: what is written is read back, cell by cell ([compact_row_roundtrip],
      [rowkey_row_roundtrip], [cell_wire_roundtrip], [rowdesc_wire_roundtrip]), a
      buffer that is too small is reported, the sizes given
      are those written ([serialize_size_exact]), reading ends on every input
      ([rowdesc_deserialize_terminates]).
    - Arithmetic and comparison: decimals are exact where they fit ([add_exact],
      [mul_exact], [compare_sign], [round_to_truncates]) and division truncates
      ([div_truncates]), cells are totally ordered ([compare_total_order]), logic is
      three-valued ([logic_is_kleene]), and the types told before evaluation are
      those of the results ([static_types_sound]).
    - Text: values cast to text and back are unchanged ([cast_roundtrip]), searches
      find the first occurrence ([search_finds_first]), LIKE matches what its pattern
      means where its loop does not overlap ([like_correct]), TRIM, SUBSTR and HEX do
      what SQL says ([trim_removes_copies], [substr_slices], [hex_roundtrip]).
    - Data structures: the bit set is a set, the row description a list of
      distinct columns with its index, the row an array, the row store a list of
      rows with a read position ([bitset_refines_set],
      [rowdesc_refines_column_list], [row_is_array], [row_store_refines_list]).
    - Operators: each gives the rows its SQL meaning says, for children that give
      sorted rows of the same typed, non-null columns and end ([union_distinct],
      [intersect_all], [except_distinct], [merge_distinct], [limit_rows] and the
      others); the proofs ask of the rows only that they are ordered ([RowOrder],
      [KeyOrder]).  The merge join gives the
      rows of the relational join, inner and outer ([merge_join_correct]).  The
      sort gives its child's rows in order ([sort_correct]).  Put together, joins
      and DISTINCT mean what SQL says whatever the order of the rows below
      ([sorted_join_correct], [select_distinct]).
    - Expressions: the postfix form of an expression computes the value of its tree
      or fails with its code, on every row and whatever earlier calculations of the
      thread have left ([compiled_expression_evaluates]).
    - Locks: a writer excludes everybody ([exclusive_excludes]), calls do not block
      one another for good ([qlock_deadlock_free]), a lock that nobody holds or asks
      for can be taken ([free_lock_obtained]), the words say who holds the lock when
      nobody is in a call ([quiescent_words]).
    - Leases: one server at most holds a running master lease
      ([one_master_lease]), a master is elected ([master_elected]), the table and
      the index of the master agree ([master_slot_unique]), the read shares add up
      ([read_percent_bounds]).  These are about runs with the conditions of
      [orderly]: requests as their senders make them ([orderly_request]), and a
      change of the master that is not disturbed between its two locked sections
      ([undisturbed]); [lapsed_master_doubled] is what happens otherwise.
    - Where the code falls short of its purpose: examples at the ends of their files
      ([division_faults], [like_faults], [cast_faults], [case_else_true_reads_above],
      [reopened_join_repeats_rows] and others) and the findings of the manifest.

    ** Bounds and fuel

    Loops over an array or a buffer recurse on its length.  Loops of operators
    over their children take fuel, and the theorems say that every amount from
    some number on gives the result ([settles], [gives]).  The loops of the lock
    are steps of a transition system.  [rowdesc_deserialize] has one unit of fuel
    more than a description can have columns, [sort_deserialize] one more than
    there are bytes; their theorems show that this is enough.  Searches and trims
    take at most one turn for a byte of the text, LIKE for a byte of the pattern, and a
    division two corrections for a word.  The calculation of an expression recurses on
    its cells; its stack has the 512 places of the code, and [need] is how many of them
    a tree takes.

    ** Not modelled, and why

    Grouping, filters and projections (a condition of the join is its value on a row), and
    of expressions their serialization and [is_simple_in_expr]; the merge sort on disk, which is file I/O and is reached only
    with a memory limit that no code sets; the serialization of row stores; the parser,
    which is generated, and the planner; memory tables, log replication, tablets,
    SSTables and the network protocols, which are I/O around structures of their
    own.  Printing for logs is left out everywhere. *)

From stdpp Require Export base tactics list option decidable numbers sets.
From Stdlib Require Export ZArith Lia.

#[global] Open Scope Z_scope.

(** ** Return codes of [src/oceanbase/src/common/ob_define.h] *)

Definition OB_SUCCESS : Z := 0.
Definition OB_ERROR : Z := 1.
Definition OB_OBJ_TYPE_ERROR : Z := -1.
Definition OB_INVALID_ARGUMENT : Z := -2.
Definition OB_INIT_TWICE : Z := -5.
Definition OB_NOT_INIT : Z := -6.
Definition OB_NOT_SUPPORTED : Z := -7.
Definition OB_ITER_END : Z := -8.
Definition OB_ALLOCATE_MEMORY_FAILED : Z := -13.
Definition OB_ERR_UNEXPECTED : Z := -16.
Definition OB_ENTRY_EXIST : Z := -17.
Definition OB_ENTRY_NOT_EXIST : Z := -18.
Definition OB_SIZE_OVERFLOW : Z := -19.
Definition OB_ITEM_NOT_SETTED : Z := -22.
Definition OB_BUF_NOT_ENOUGH : Z := -24.
Definition OB_NOT_IMPLEMENT : Z := -77.
Definition OB_DIVISION_BY_ZERO : Z := -78.
Definition OB_VALUE_OUT_OF_RANGE : Z := -79.
Definition OB_RESULT_UNKNOWN : Z := -81.
Definition OB_DUPLICATE_COLUMN : Z := -145.

(** ** Machine integers

    A value of a C++ integer type is kept as a [Z] in the range of the type.
    [wrapu w] is the conversion to the unsigned type of [w] bits and [wraps w]
    the conversion to the signed one, as gcc defines both. *)

Definition wrapu (w z : Z) : Z := z mod 2 ^ w.
Definition wraps (w z : Z) : Z := (z + 2 ^ (w - 1)) mod 2 ^ w - 2 ^ (w - 1).

Abbreviation u8 := (wrapu 8).
Abbreviation u16 := (wrapu 16).
Abbreviation u32 := (wrapu 32).
Abbreviation u64 := (wrapu 64).
Abbreviation int8 := (wraps 8).
Abbreviation int16 := (wraps 16).
Abbreviation int32 := (wraps 32).
Abbreviation int64 := (wraps 64).

(** [OB_ASSERT]: a failed assertion aborts the process. *)
Definition ob_assert (b : bool) : option unit := if b then Some tt else None.

Definition UINT32_MAX : Z := 2 ^ 32 - 1.
Definition UINT64_MAX : Z := 2 ^ 64 - 1.
Definition INT8_MAX : Z := 127.
Definition INT32_MAX : Z := 2 ^ 31 - 1.

(** [OB_INVALID_ID], the id of no table and no column. *)
Definition OB_INVALID_ID : Z := UINT64_MAX.
Definition OB_INVALID_INDEX : Z := -1.

Lemma pow2_double w : 1 <= w -> 2 ^ w = 2 * 2 ^ (w - 1).
Proof. intros. rewrite <- Z.pow_succ_r by lia. f_equal. lia. Qed.

Lemma wrapu_range w z : 0 <= w -> 0 <= wrapu w z < 2 ^ w.
Proof. intros. unfold wrapu. apply Z.mod_pos_bound. apply Z.pow_pos_nonneg; lia. Qed.

Lemma wrapu_small w z : 0 <= z < 2 ^ w -> wrapu w z = z.
Proof. apply Z.mod_small. Qed.

Lemma wraps_small w z : - 2 ^ (w - 1) <= z < 2 ^ (w - 1) -> 1 <= w -> wraps w z = z.
Proof.
  intros Hz Hw. unfold wraps. pose proof (pow2_double w Hw).
  rewrite Z.mod_small; lia.
Qed.

Lemma wraps_range w z : 1 <= w -> - 2 ^ (w - 1) <= wraps w z < 2 ^ (w - 1).
Proof.
  intros Hw. unfold wraps. pose proof (pow2_double w Hw).
  assert (0 < 2 ^ w) by (apply Z.pow_pos_nonneg; lia).
  pose proof (Z.mod_pos_bound (z + 2 ^ (w - 1)) (2 ^ w)). lia.
Qed.

Lemma wraps_congr w a b : a mod 2 ^ w = b mod 2 ^ w -> wraps w a = wraps w b.
Proof.
  intros H. unfold wraps. f_equal.
  by rewrite <- (Zplus_mod_idemp_l a), <- (Zplus_mod_idemp_l b), H.
Qed.

Lemma wraps_mod w z : wraps w (z mod 2 ^ w) = wraps w z.
Proof. apply wraps_congr. apply Zmod_mod. Qed.

Lemma mod_wraps w z : 1 <= w -> (wraps w z) mod 2 ^ w = z mod 2 ^ w.
Proof.
  intros Hw. unfold wraps. rewrite Zminus_mod_idemp_l. f_equal. lia.
Qed.

(** The signed reading undoes the unsigned one: what a narrow store followed
    by a narrow load of the same width gives back. *)
Lemma wraps_wrapu w z :
  1 <= w -> - 2 ^ (w - 1) <= z < 2 ^ (w - 1) -> wraps w (wrapu w z) = z.
Proof.
  intros Hw Hz. rewrite <- (wraps_small w z) at 2 by done.
  unfold wraps, wrapu. f_equal. rewrite Zplus_mod_idemp_l. done.
Qed.

Lemma testbit_above a k n : 0 <= a < 2 ^ k -> 0 <= k <= n -> Z.testbit a n = false.
Proof.
  intros Ha Hn. rewrite <- (Z.mod_small a (2 ^ k)) by done. by apply Z.mod_pow2_bits_high.
Qed.

(** Disjoint bits: [lor] adds a part above [k] bits to one below. *)
Lemma land_shiftl a b k : 0 <= k -> 0 <= a < 2 ^ k -> Z.land a (Z.shiftl b k) = 0.
Proof.
  intros Hk Ha. apply Z.bits_inj'. intros n Hn.
  rewrite Z.land_spec, Z.shiftl_spec, Z.bits_0 by lia.
  destruct (decide (n < k)).
  - by rewrite (Z.testbit_neg_r b), andb_false_r by lia.
  - by rewrite (testbit_above a k) by lia.
Qed.

Lemma lor_shiftl a b k : 0 <= k -> 0 <= a < 2 ^ k -> Z.lor a (Z.shiftl b k) = a + b * 2 ^ k.
Proof.
  intros Hk Ha. pose proof (land_shiftl a b k Hk Ha) as H.
  rewrite <- Z.shiftl_mul_pow2, (Z.add_nocarry_lxor _ _ H) by lia. symmetry. by apply Z.lxor_lor.
Qed.

(** A decidable fact about the numbers below a bound, by computation. *)
Lemma forall_below n (P : Z -> bool) :
  forallb P (seqZ 0 n) = true -> forall c, 0 <= c < n -> P c = true.
Proof.
  intros H c Hc. rewrite forallb_forall in H. apply H, list_elem_of_In, elem_of_seqZ. lia.
Qed.

(** ** Arrays indexed by an [int64_t]

    A read or a write outside the array has no defined meaning in C++; [zget]
    then gives the default and [zset] changes nothing, and every theorem that
    uses them keeps the index in range. *)

Definition zget {A} (d : A) (l : list A) (i : Z) : A := default d (l !! Z.to_nat i).
Definition zset {A} (l : list A) (i : Z) (x : A) : list A := <[Z.to_nat i := x]> l.

Section Arrays.
Context {A : Type}.
Implicit Types (l : list A) (x d : A).

Lemma zset_length l i x : length (zset l i x) = length l.
Proof. apply length_insert. Qed.

Lemma zget_zset_eq d l i x :
  0 <= i < Z.of_nat (length l) -> zget d (zset l i x) i = x.
Proof. intros. unfold zget, zset. rewrite list_lookup_insert_eq; [done | lia]. Qed.

Lemma zget_zset_ne d l i j x :
  0 <= i -> 0 <= j -> i <> j -> zget d (zset l i x) j = zget d l j.
Proof. intros. unfold zget, zset. rewrite list_lookup_insert_ne; [done | lia]. Qed.

Lemma zget_map {B} (f : A -> B) d l i : zget (f d) (map f l) i = f (zget d l i).
Proof.
  unfold zget. change (map f l) with (f <$> l). rewrite list_lookup_fmap.
  by destruct (l !! _).
Qed.

Lemma zget_in d l i :
  0 <= i < Z.of_nat (length l) -> zget d l i ∈ l.
Proof.
  intros Hi. unfold zget.
  destruct (lookup_lt_is_Some_2 l (Z.to_nat i)) as [y Hy]; [lia |].
  rewrite Hy. simpl. by apply list_elem_of_lookup_2 in Hy.
Qed.

Lemma zget_ext d l1 l2 :
  length l1 = length l2 ->
  (forall i, 0 <= i < Z.of_nat (length l1) -> zget d l1 i = zget d l2 i) ->
  l1 = l2.
Proof.
  intros Hlen H. apply list_eq_same_length with (length l1); [done | done |].
  intros i x y Hi Hx Hy. specialize (H (Z.of_nat i)). unfold zget in H.
  rewrite Nat2Z.id, Hx, Hy in H. simpl in H. apply H. lia.
Qed.
(** A loop that rewrites the elements at the distinct indexes [idx] in place. *)
Lemma fold_zset_length (f : A -> Z -> A) d idx l :
  length (fold_left (fun b i => zset b i (f (zget d b i) i)) idx l) = length l.
Proof.
  revert l. induction idx as [| i idx IH]; intros l; simpl; [done |].
  by rewrite IH, zset_length.
Qed.

Lemma zget_fold_zset (f : A -> Z -> A) d idx l j :
  NoDup idx -> Forall (fun i => 0 <= i < Z.of_nat (length l)) idx -> 0 <= j ->
  zget d (fold_left (fun b i => zset b i (f (zget d b i) i)) idx l) j =
  if decide (j ∈ idx) then f (zget d l j) j else zget d l j.
Proof.
  revert l. induction idx as [| i idx IH]; intros l Hnd Hr Hj; cbn [fold_left].
  { by rewrite decide_False by apply not_elem_of_nil. }
  apply NoDup_cons in Hnd as [Hi Hnd]. apply Forall_cons in Hr as [Hri Hr].
  rewrite IH by (try setoid_rewrite zset_length; done).
  destruct (decide (i = j)) as [<- | Hne].
  - rewrite decide_False, decide_True by (try done; by left). by rewrite zget_zset_eq.
  - rewrite zget_zset_ne by (try done; lia).
    destruct (decide (j ∈ idx)), (decide (j ∈ i :: idx)) as [He | He];
      rewrite elem_of_cons in He; [done | tauto | | done].
    destruct He; congruence.
Qed.
End Arrays.

Lemma bind_some {A B} (x : A) (f : A -> option B) : (Some x ≫= f) = f x.
Proof. done. Qed.

Create HintDb ob.
Create Rewrite HintDb ob.
#[export] Hint Rewrite @zset_length : ob.

(** ** Proof automation

    [cases] splits on the scrutinee of a [match] or [if] in the goal, keeping
    the equation, and [bools] turns boolean comparisons on [Z] into
    propositions. *)

(** Splits a conjunction but not the equivalences in it. *)
Ltac conjs := lazymatch goal with |- _ /\ _ => split; [| conjs] | |- _ => idtac end.

Ltac bools :=
  repeat match goal with
  | H : (_ && _)%bool = true |- _ => apply andb_true_iff in H; destruct H
  | H : (_ || _)%bool = false |- _ => apply orb_false_iff in H; destruct H
  | H : (_ || _)%bool = true |- _ => apply orb_true_iff in H
  | H : (_ && _)%bool = false |- _ => apply andb_false_iff in H
  | H : negb _ = true |- _ => apply negb_true_iff in H
  | H : negb _ = false |- _ => apply negb_false_iff in H
  | H : (_ =? _) = true |- _ => apply Z.eqb_eq in H
  | H : (_ =? _) = false |- _ => apply Z.eqb_neq in H
  | H : (_ <? _) = true |- _ => apply Z.ltb_lt in H
  | H : (_ <? _) = false |- _ => apply Z.ltb_ge in H
  | H : (_ <=? _) = true |- _ => apply Z.leb_le in H
  | H : (_ <=? _) = false |- _ => apply Z.leb_gt in H
  end.

Ltac cases :=
  repeat match goal with
  | |- context [if ?b then _ else _] => let E := fresh "E" in destruct b eqn:E
  end; bools.

(** ** Three-way comparisons

    The code compares with functions that return a negative, zero or positive
    int.  [CmpOrder D cmp]: on [D], [cmp] is a total preorder. *)

Class CmpOrder {A} (D : A -> Prop) (cmp : A -> A -> Z) : Prop := {
  cmp_opp : forall x y, D x -> D y -> Z.sgn (cmp y x) = - Z.sgn (cmp x y);
  cmp_trans : forall x y z, D x -> D y -> D z -> cmp x y <= 0 -> cmp y z <= 0 -> cmp x z <= 0
}.

Section CmpOrderLemmas.
Context {A : Type} (D : A -> Prop) (cmp : A -> A -> Z).

Lemma cmp_order_key (key : A -> Z) :
  (forall x y, D x -> D y -> Z.sgn (cmp x y) = Z.sgn (key x - key y)) -> CmpOrder D cmp.
Proof.
  intros H. split.
  - intros x y Hx Hy. rewrite !H by done. rewrite <- Z.sgn_opp. f_equal. lia.
  - intros x y z Hx Hy Hz H1 H2.
    pose proof (H x y Hx Hy). pose proof (H y z Hy Hz). pose proof (H x z Hx Hz). lia.
Qed.

(** Elements of different levels are ordered by level, those of a level by [sub]. *)
Lemma cmp_order_level (level : A -> Z) (sub : A -> A -> Z) :
  (forall l, CmpOrder (fun x => D x /\ level x = l) sub) ->
  (forall x y, D x -> D y ->
     Z.sgn (cmp x y) = if level x =? level y then Z.sgn (sub x y) else Z.sgn (level x - level y)) ->
  CmpOrder D cmp.
Proof.
  intros Hsub H. split.
  - intros x y Hx Hy. rewrite !H by done. rewrite (Z.eqb_sym (level y)).
    destruct (Z.eqb_spec (level x) (level y)) as [E | E].
    + destruct (Hsub (level y)) as [Ho _]. by apply Ho.
    + rewrite <- Z.sgn_opp. f_equal. lia.
  - intros x y z Hx Hy Hz H1 H2.
    pose proof (H x y Hx Hy) as Hxy. pose proof (H y z Hy Hz) as Hyz. pose proof (H x z Hx Hz) as Hxz.
    destruct (Z.eqb_spec (level x) (level y)) as [Exy | Exy],
      (Z.eqb_spec (level y) (level z)) as [Eyz | Eyz],
      (Z.eqb_spec (level x) (level z)) as [Exz | Exz]; try lia.
    destruct (Hsub (level z)) as [_ Ht]. pose proof (Ht x y z). intuition lia.
Qed.

(** Lexicographic comparison: by [c1], ties by [c2]. *)
Lemma cmp_order_lex (c1 c2 : A -> A -> Z) :
  CmpOrder D c1 -> CmpOrder D c2 ->
  (forall x y, D x -> D y -> cmp x y = if c1 x y =? 0 then c2 x y else c1 x y) -> CmpOrder D cmp.
Proof.
  intros [O1 T1] [O2 T2] H. split.
  - intros x y Hx Hy. rewrite !H by done. pose proof (O1 x y Hx Hy). pose proof (O2 x y Hx Hy).
    destruct (Z.eqb_spec (c1 x y) 0), (Z.eqb_spec (c1 y x) 0); lia.
  - intros x y z Hx Hy Hz. rewrite !H by done.
    pose proof (O1 x y Hx Hy). pose proof (O1 y z Hy Hz). pose proof (O1 x z Hx Hz).
    pose proof (T1 x y z Hx Hy Hz). pose proof (T1 y z x Hy Hz Hx). pose proof (T1 z x y Hz Hx Hy).
    pose proof (T2 x y z Hx Hy Hz).
    destruct (Z.eqb_spec (c1 x y) 0), (Z.eqb_spec (c1 y z) 0), (Z.eqb_spec (c1 x z) 0); lia.
Qed.

Lemma cmp_order_preimage {B} (D' : B -> Prop) (c : B -> B -> Z) (f : A -> B) :
  CmpOrder D' c -> (forall x, D x -> D' (f x)) -> CmpOrder D (fun x y => c (f x) (f y)).
Proof.
  intros [O T] Hf. split.
  - intros x y Hx Hy. apply O; auto.
  - intros x y z Hx Hy Hz. apply (T (f x) (f y) (f z)); auto.
Qed.

Context `{!CmpOrder D cmp}.

Lemma cmp_self x : D x -> cmp x x = 0.
Proof. intros Hx. pose proof (cmp_opp x x Hx Hx). lia. Qed.

Lemma cmp_neg x y : D x -> D y -> cmp x y < 0 <-> 0 < cmp y x.
Proof. intros Hx Hy. pose proof (cmp_opp x y Hx Hy). lia. Qed.

Lemma cmp_zero_sym x y : D x -> D y -> cmp x y = 0 <-> cmp y x = 0.
Proof. intros Hx Hy. pose proof (cmp_opp x y Hx Hy). lia. Qed.

Lemma cmp_lt_trans x y z : D x -> D y -> D z -> cmp x y < 0 -> cmp y z <= 0 -> cmp x z < 0.
Proof.
  intros Hx Hy Hz H1 H2.
  pose proof (cmp_opp x y Hx Hy). pose proof (cmp_opp x z Hx Hz). pose proof (cmp_opp y z Hy Hz).
  pose proof (cmp_trans x y z Hx Hy Hz). pose proof (cmp_trans y z x Hy Hz Hx). lia.
Qed.

Lemma cmp_le_lt_trans x y z : D x -> D y -> D z -> cmp x y <= 0 -> cmp y z < 0 -> cmp x z < 0.
Proof.
  intros Hx Hy Hz H1 H2.
  pose proof (cmp_opp x y Hx Hy). pose proof (cmp_opp x z Hx Hz). pose proof (cmp_opp y z Hy Hz).
  pose proof (cmp_trans x y z Hx Hy Hz). pose proof (cmp_trans z x y Hz Hx Hy). lia.
Qed.

(** Equal elements compare alike. *)
Lemma cmp_eq_l x y z : D x -> D y -> D z -> cmp x y = 0 -> Z.sgn (cmp x z) = Z.sgn (cmp y z).
Proof.
  intros Hx Hy Hz H.
  pose proof (cmp_opp x y Hx Hy). pose proof (cmp_opp x z Hx Hz). pose proof (cmp_opp y z Hy Hz).
  pose proof (cmp_trans x y z Hx Hy Hz). pose proof (cmp_trans y x z Hy Hx Hz).
  pose proof (cmp_trans z y x Hz Hy Hx). pose proof (cmp_trans z x y Hz Hx Hy). lia.
Qed.

Lemma cmp_eq_r x y z : D x -> D y -> D z -> cmp x y = 0 -> Z.sgn (cmp z x) = Z.sgn (cmp z y).
Proof.
  intros Hx Hy Hz H. pose proof (cmp_eq_l x y z Hx Hy Hz H).
  pose proof (cmp_opp x z Hx Hz). pose proof (cmp_opp y z Hy Hz). lia.
Qed.
End CmpOrderLemmas.

(** ** Bounded loops

    [settles f x]: the bounded computation [f] gives [x] for every bound that is
    large enough. *)

Definition settles {A} (f : nat -> option A) (x : A) : Prop :=
  exists n, forall m, (n <= m)%nat -> f m = Some x.

Lemma settles_ret {A} (x : A) : settles (fun _ => Some x) x.
Proof. by exists 0%nat. Qed.

Lemma settles_bind {A B} (f : nat -> option A) (g : nat -> A -> option B) x y :
  settles f x -> settles (fun m => g m x) y -> settles (fun m => f m ≫= g m) y.
Proof.
  intros [n1 H1] [n2 H2]. exists (n1 `max` n2)%nat. intros m Hm. rewrite H1 by lia. apply H2. lia.
Qed.

Lemma settles_eq {A} (f g : nat -> option A) x : (forall m, f m = g m) -> settles f x -> settles g x.
Proof. intros E [n H]. exists n. intros m Hm. rewrite <- E. by apply H. Qed.
