(* ===== verification/QLock.v ===== *)
(** * QLock: the row lock of the update server

    Models [common/qlock.h]: the reader/writer lock [QLock] with its two
    shared words [n_ref_] and [uid_], every locking operation as a sequence of
    atomic accesses to these words, and the guard [QLockGuard].

    An operation is a step function on its program counter: one step performs
    one access to a volatile word (a load, a store, a fetch-and-add or a
    compare-and-swap), and threads interleave between any two steps.  The
    accesses are taken in program order, as the [__sync] builtins (full
    barriers) and the volatile accesses between them give it.  A deadline or a
    cleared [wait_flag] is the boolean [gives_up], chosen afresh at each step. *)

From stdpp Require Import relations.
From S2P Require Import Prelude.

Local Open Scope Z_scope.

Definition OB_EAGAIN : Z := -23.
Definition OB_LOCK_NOT_MATCH : Z := -100.
Definition OB_DEAD_LOCK : Z := -101.

Definition EXCLUSIVE_BIT : Z := Z.shiftl 1 31.
Definition UID_MASK : Z := Z.lnot EXCLUSIVE_BIT.

Record QLock := mkQLock { n_ref_ : Z; uid_ : Z }.

Definition reset : QLock := mkQLock 0 0.

Definition set_uid (v : Z) (q : QLock) : QLock := mkQLock (n_ref_ q) v.

Definition is_timeout (end_time now : Z) : bool := (0 <? end_time) && (end_time <? now).

Definition add_shared_ref (q : QLock) : QLock := mkQLock (u32 (n_ref_ q + 1)) (uid_ q).
Definition del_shared_ref (q : QLock) : QLock := mkQLock (u32 (n_ref_ q - 1)) (uid_ q).

(** [__sync_bool_compare_and_swap (&uid_, old, new)] *)
Definition cas_uid (old new : Z) (q : QLock) : option QLock :=
  if uid_ q =? old then Some (set_uid new q) else None.

(** ** The operations

    A step either moves the program counter or returns from the operation. *)

Inductive progress (P : Type) :=
  | Goes (p : P) (q : QLock)
  | Returns (err : Z) (q : QLock).
Arguments Goes {P} p q.
Arguments Returns {P} err q.

Definition exclusive_bit (v : Z) : bool := negb (Z.land v EXCLUSIVE_BIT =? 0).
Definition invalid_uid (uid : Z) : bool := negb (Z.land uid (Z.lnot UID_MASK) =? 0).

Inductive try_shared_pc := TS_check | TS_add | TS_recheck | TS_del.

Definition try_shared_lock (p : try_shared_pc) (q : QLock) : progress try_shared_pc :=
  match p with
  | TS_check =>
      if exclusive_bit (uid_ q) then Returns OB_EAGAIN q else Goes TS_add q
  | TS_add => Goes TS_recheck (add_shared_ref q)
  | TS_recheck =>
      if exclusive_bit (uid_ q) then Goes TS_del q else Returns OB_SUCCESS q
  | TS_del => Returns OB_EAGAIN (del_shared_ref q)
  end.

Definition try_shared_unlock {P} (q : QLock) : progress P :=
  Returns OB_SUCCESS (del_shared_ref q).

Definition try_upgrade_lock {P} (uid : Z) (q : QLock) : progress P :=
  if invalid_uid uid then Returns OB_INVALID_ARGUMENT q
  else match cas_uid 0 uid q with
       | None => Returns OB_EAGAIN q
       | Some q' => Returns OB_SUCCESS q'
       end.

Inductive try_upgrade_unlock_pc := UU_check | UU_store.

Definition try_upgrade_unlock (uid : Z) (p : try_upgrade_unlock_pc) (q : QLock)
    : progress try_upgrade_unlock_pc :=
  match p with
  | UU_check => if uid =? uid_ q then Goes UU_store q else Returns OB_LOCK_NOT_MATCH q
  | UU_store => Returns OB_SUCCESS (set_uid 0 q)
  end.

Inductive try_exclusive_pc := TX_check | TX_cas | TX_recheck | TX_store.

Definition try_exclusive_lock (uid : Z) (p : try_exclusive_pc) (q : QLock)
    : progress try_exclusive_pc :=
  match p with
  | TX_check =>
      if invalid_uid uid then Returns OB_INVALID_ARGUMENT q
      else if n_ref_ q =? 0 then Goes TX_cas q else Returns OB_EAGAIN q
  | TX_cas =>
      match cas_uid 0 (Z.lor uid EXCLUSIVE_BIT) q with
      | None => Returns OB_EAGAIN q
      | Some q' => Goes TX_recheck q'
      end
  | TX_recheck => if n_ref_ q =? 0 then Returns OB_SUCCESS q else Goes TX_store q
  | TX_store => Returns OB_EAGAIN (set_uid 0 q)
  end.

Inductive try_wait_pc := TW_uid | TW_ref.

Definition try_wait_shared_lock_release (uid : Z) (p : try_wait_pc) (q : QLock)
    : progress try_wait_pc :=
  match p with
  | TW_uid =>
      if Z.land (uid_ q) UID_MASK =? uid then Goes TW_ref q
      else Returns OB_LOCK_NOT_MATCH q
  | TW_ref => Returns (if n_ref_ q =? 0 then OB_SUCCESS else OB_EAGAIN) q
  end.

Inductive try_exclusive_unlock_pc := TU_load | TU_store.

Definition try_exclusive_unlock (uid : Z) (p : try_exclusive_unlock_pc) (q : QLock)
    : progress try_exclusive_unlock_pc :=
  match p with
  | TU_load =>
      let cur_uid := uid_ q in
      if negb (exclusive_bit cur_uid) || negb (Z.land cur_uid UID_MASK =? uid)
      then Returns OB_LOCK_NOT_MATCH q
      else Goes TU_store q
  | TU_store => Returns OB_SUCCESS (set_uid 0 q)
  end.

(** [while (OB_EAGAIN == (err = f ()) && !gives_up) PAUSE ();] with [start] the
    first program counter of [f]. *)
Definition retry {P} (start : P) (gives_up : bool) (r : progress P) : progress P :=
  match r with
  | Returns err q =>
      if (err =? OB_EAGAIN) && negb gives_up then Goes start q else Returns err q
  | r => r
  end.

Definition shared_lock (gives_up : bool) (p : try_shared_pc) (q : QLock)
    : progress try_shared_pc :=
  retry TS_check gives_up (try_shared_lock p q).

Definition shared_unlock {P} (q : QLock) : progress P := try_shared_unlock q.

Definition is_exclusive_locked_by (uid : Z) (q : QLock) : bool :=
  exclusive_bit (uid_ q) && (uid =? Z.land (uid_ q) UID_MASK).

Definition get_uid (q : QLock) : Z := Z.land (uid_ q) UID_MASK.

Definition wait_shared_lock_release (uid : Z) (gives_up : bool) (p : try_wait_pc)
    (q : QLock) : progress try_wait_pc :=
  retry TW_uid gives_up (try_wait_shared_lock_release uid p q).

Inductive exclusive_pc :=
  | XL_cas
  | XL_wait (p : try_wait_pc)
  | XL_store (err : Z).

Definition exclusive_lock (uid : Z) (gives_up : bool) (p : exclusive_pc) (q : QLock)
    : progress exclusive_pc :=
  match p with
  | XL_cas =>
      if invalid_uid uid || (uid =? 0) then Returns OB_INVALID_ARGUMENT q
      else match cas_uid 0 (Z.lor uid EXCLUSIVE_BIT) q with
           | Some q' => Goes (XL_wait TW_uid) q'
           | None => if gives_up then Returns OB_EAGAIN q else Goes XL_cas q
           end
  | XL_wait p =>
      match wait_shared_lock_release uid gives_up p q with
      | Goes p' q' => Goes (XL_wait p') q'
      | Returns err q' =>
          if err =? OB_SUCCESS then Returns err q' else Goes (XL_store err) q'
      end
  | XL_store err => Returns err (set_uid 0 q)
  end.

Definition exclusive_unlock := try_exclusive_unlock.

Inductive share2exclusive_pc :=
  | SX_load
  | SX_cas (cur_uid : Z)
  | SX_unlock (cur_uid : Z)
  | SX_wait (cur_uid : Z) (p : try_wait_pc)
  | SX_add (cur_uid err : Z)
  | SX_store (cur_uid err : Z).

Definition share2exclusive_lock (uid : Z) (gives_up : bool) (p : share2exclusive_pc)
    (q : QLock) : progress share2exclusive_pc :=
  match p with
  | SX_load =>
      if invalid_uid uid || (uid =? 0) then Returns OB_INVALID_ARGUMENT q
      else
        let cur_uid := uid_ q in
        if negb (cur_uid =? 0) && negb (cur_uid =? uid) then Returns OB_DEAD_LOCK q
        else Goes (SX_cas cur_uid) q
  | SX_cas cur_uid =>
      match cas_uid cur_uid (Z.lor uid EXCLUSIVE_BIT) q with
      | Some q' => Goes (SX_unlock cur_uid) q'
      | None => if gives_up then Returns OB_EAGAIN q else Goes SX_load q
      end
  | SX_unlock cur_uid =>
      match shared_unlock q with
      | Goes p' q' => Goes p' q'
      | Returns err q' =>
          if err =? OB_SUCCESS then Goes (SX_wait cur_uid TW_uid) q' else Returns err q'
      end
  | SX_wait cur_uid p =>
      match wait_shared_lock_release uid gives_up p q with
      | Goes p' q' => Goes (SX_wait cur_uid p') q'
      | Returns err q' =>
          if err =? OB_SUCCESS then Returns err q' else Goes (SX_add cur_uid err) q'
      end
  | SX_add cur_uid err => Goes (SX_store cur_uid err) (add_shared_ref q)
  | SX_store cur_uid err => Returns err (set_uid cur_uid q)
  end.

Inductive exclusive2shared_pc :=
  | ES_add
  | ES_unlock (p : try_exclusive_unlock_pc)
  | ES_del (err : Z).

Definition exclusive2shared_lock (uid : Z) (p : exclusive2shared_pc) (q : QLock)
    : progress exclusive2shared_pc :=
  match p with
  | ES_add => Goes (ES_unlock TU_load) (add_shared_ref q)
  | ES_unlock p =>
      match exclusive_unlock uid p q with
      | Goes p' q' => Goes (ES_unlock p') q'
      | Returns err q' =>
          if err =? OB_SUCCESS then Returns err q' else Goes (ES_del err) q'
      end
  | ES_del err => Returns err (del_shared_ref q)
  end.

(** ** Threads

    What a thread's calls have given it so far is its [t_held] and
    [t_upgrade]; [t_call] is the operation it is inside of. *)

Inductive held := Free | Shared | Exclusive.

#[export] Instance held_eq_dec : EqDecision held.
Proof. solve_decision. Defined.

Inductive call :=
  | C_try_shared_lock (p : try_shared_pc)
  | C_shared_lock (p : try_shared_pc)
  | C_shared_unlock
  | C_try_upgrade_lock
  | C_try_upgrade_unlock (p : try_upgrade_unlock_pc)
  | C_try_exclusive_lock (p : try_exclusive_pc)
  | C_exclusive_lock (p : exclusive_pc)
  | C_exclusive_unlock (p : try_exclusive_unlock_pc)
  | C_share2exclusive_lock (p : share2exclusive_pc)
  | C_exclusive2shared_lock (p : exclusive2shared_pc).

Record Thread := mkThread { t_held : held; t_upgrade : bool; t_call : option call }.

Definition within {P} (f : P -> call) (r : progress P) : progress call :=
  match r with Goes p q => Goes (f p) q | Returns err q => Returns err q end.

Definition call_step (uid : Z) (gives_up : bool) (c : call) (q : QLock) : progress call :=
  match c with
  | C_try_shared_lock p => within C_try_shared_lock (try_shared_lock p q)
  | C_shared_lock p => within C_shared_lock (shared_lock gives_up p q)
  | C_shared_unlock => shared_unlock q
  | C_try_upgrade_lock => try_upgrade_lock uid q
  | C_try_upgrade_unlock p => within C_try_upgrade_unlock (try_upgrade_unlock uid p q)
  | C_try_exclusive_lock p => within C_try_exclusive_lock (try_exclusive_lock uid p q)
  | C_exclusive_lock p => within C_exclusive_lock (exclusive_lock uid gives_up p q)
  | C_exclusive_unlock p => within C_exclusive_unlock (exclusive_unlock uid p q)
  | C_share2exclusive_lock p =>
      within C_share2exclusive_lock (share2exclusive_lock uid gives_up p q)
  | C_exclusive2shared_lock p =>
      within C_exclusive2shared_lock (exclusive2shared_lock uid p q)
  end.

(** The use the lock is made for: a thread releases and converts only what it
    holds, and asks for the lock only when it does not hold it. *)
Definition may_call (t : Thread) (c : call) : bool :=
  match c, t_held t, t_upgrade t with
  | (C_try_shared_lock TS_check | C_shared_lock TS_check
    | C_try_exclusive_lock TX_check), Free, _ => true
  | C_exclusive_lock XL_cas, Free, false => true
  | (C_shared_unlock | C_share2exclusive_lock SX_load), Shared, _ => true
  | (C_exclusive_unlock TU_load | C_exclusive2shared_lock ES_add), Exclusive, _ => true
  | C_try_upgrade_lock, (Free | Shared), false => true
  | C_try_upgrade_unlock UU_check, (Free | Shared), true => true
  | _, _, _ => false
  end.

Definition finish (c : call) (err : Z) (t : Thread) : Thread :=
  if err =? OB_SUCCESS then
    match c with
    | C_try_shared_lock _ | C_shared_lock _ => mkThread Shared (t_upgrade t) None
    | C_shared_unlock => mkThread Free (t_upgrade t) None
    | C_try_upgrade_lock => mkThread (t_held t) true None
    | C_try_upgrade_unlock _ => mkThread (t_held t) false None
    | C_try_exclusive_lock _ | C_exclusive_lock _ => mkThread Exclusive false None
    | C_exclusive_unlock _ => mkThread Free false None
    | C_share2exclusive_lock _ => mkThread Exclusive false None
    | C_exclusive2shared_lock _ => mkThread Shared false None
    end
  else mkThread (t_held t) (t_upgrade t) None.

(** One access by the thread [t], inside of [c], with user id [uid]. *)
Definition thread_step (uid : Z) (gives_up : bool) (c : call) (t : Thread) (q : QLock)
    : Thread * QLock :=
  match call_step uid gives_up c q with
  | Goes c' q' => (mkThread (t_held t) (t_upgrade t) (Some c'), q')
  | Returns err q' => (finish c err t, q')
  end.

Record System := mkSystem { lock : QLock; threads : list Thread }.

Definition idle : Thread := mkThread Free false None.

Definition start (uids : list Z) : System :=
  mkSystem reset (replicate (length uids) idle).

Inductive step (uids : list Z) : System -> System -> Prop :=
  | step_call s i t c :
      threads s !! i = Some t -> t_call t = None -> may_call t c = true ->
      step uids s (mkSystem (lock s)
        (<[i := mkThread (t_held t) (t_upgrade t) (Some c)]> (threads s)))
  | step_run s i uid t c gives_up t' q' :
      uids !! i = Some uid -> threads s !! i = Some t -> t_call t = Some c ->
      thread_step uid gives_up c t (lock s) = (t', q') ->
      step uids s (mkSystem q' (<[i := t']> (threads s))).

Definition reachable (uids : list Z) (s : System) : Prop := rtc (step uids) (start uids) s.

(** ** The words of a user id *)

Definition valid_uid (uid : Z) : Prop := 0 < uid < 2 ^ 31.

Section Bits.
Variable uid : Z.
Hypothesis Huid : valid_uid uid.

Lemma uid_not_exclusive : Z.land uid EXCLUSIVE_BIT = 0.
Proof using Huid. unfold valid_uid in Huid. apply land_shiftl; lia. Qed.

Lemma exclusive_word : Z.lor uid EXCLUSIVE_BIT = uid + EXCLUSIVE_BIT.
Proof using Huid.
  pose proof uid_not_exclusive as H. by rewrite (Z.add_nocarry_lxor _ _ H), Z.lxor_lor.
Qed.

Lemma exclusive_bit_uid : exclusive_bit uid = false.
Proof using Huid. unfold exclusive_bit. by rewrite uid_not_exclusive. Qed.

Lemma exclusive_bit_word : exclusive_bit (Z.lor uid EXCLUSIVE_BIT) = true.
Proof using Huid.
  unfold exclusive_bit. by rewrite Z.land_lor_distr_l, uid_not_exclusive.
Qed.

Lemma uid_mask : Z.land uid UID_MASK = uid.
Proof using Huid.
  unfold UID_MASK. rewrite <- Z.ldiff_land. symmetry.
  rewrite <- (Z.lor_0_r (Z.ldiff _ _)), <- uid_not_exclusive. symmetry. apply Z.lor_ldiff_and.
Qed.

Lemma word_mask : Z.land (Z.lor uid EXCLUSIVE_BIT) UID_MASK = uid.
Proof using Huid.
  unfold UID_MASK. rewrite Z.land_lor_distr_l, Z.land_lnot_diag, Z.lor_0_r. apply uid_mask.
Qed.

Lemma valid_uid_accepted : invalid_uid uid = false.
Proof using Huid.
  unfold invalid_uid, UID_MASK. by rewrite Z.lnot_involutive, uid_not_exclusive.
Qed.
End Bits.

(** ** What a thread has put into the two words *)

(** The references of [n_ref_] that are the thread's. *)
Definition refs (t : Thread) : Z :=
  match t_call t with
  | Some (C_try_shared_lock (TS_recheck | TS_del))
  | Some (C_shared_lock (TS_recheck | TS_del))
  | Some (C_exclusive2shared_lock (ES_unlock _ | ES_del _)) => 1
  | Some (C_share2exclusive_lock (SX_wait _ _ | SX_add _ _)) => 0
  | _ => if t_held t is Shared then 1 else 0
  end.

(** The value [uid_] has because of the thread, 0 when it has put none. *)
Definition claim (uid : Z) (t : Thread) : Z :=
  match t_call t with
  | Some (C_try_exclusive_lock (TX_recheck | TX_store))
  | Some (C_exclusive_lock (XL_wait _ | XL_store _))
  | Some (C_share2exclusive_lock
            (SX_unlock _ | SX_wait _ _ | SX_add _ _ | SX_store _ _)) =>
      Z.lor uid EXCLUSIVE_BIT
  | _ =>
      if t_held t is Exclusive then Z.lor uid EXCLUSIVE_BIT
      else if t_upgrade t then uid else 0
  end.

(** The values of a thread's locals and of what it holds that go with its
    program counter. *)
Definition thread_ok (uid : Z) (t : Thread) : Prop :=
  match t_call t with
  | None => t_held t = Exclusive -> t_upgrade t = false
  | Some c =>
      match c with
      | C_try_shared_lock _ | C_shared_lock _ => t_held t = Free
      | C_shared_unlock => t_held t = Shared
      | C_try_upgrade_lock => t_held t <> Exclusive /\ t_upgrade t = false
      | C_try_upgrade_unlock _ => t_held t <> Exclusive /\ t_upgrade t = true
      | C_try_exclusive_lock (TX_check | TX_cas) => t_held t = Free
      | C_try_exclusive_lock (TX_recheck | TX_store)
      | C_exclusive_lock (XL_cas | XL_wait _) => t_held t = Free /\ t_upgrade t = false
      | C_exclusive_lock (XL_store err) =>
          t_held t = Free /\ t_upgrade t = false /\ err <> OB_SUCCESS
      | C_exclusive_unlock _
      | C_exclusive2shared_lock (ES_add | ES_unlock _) =>
          t_held t = Exclusive /\ t_upgrade t = false
      | C_exclusive2shared_lock (ES_del err) =>
          t_held t = Exclusive /\ t_upgrade t = false /\ err <> OB_SUCCESS
      | C_share2exclusive_lock SX_load => t_held t = Shared
      | C_share2exclusive_lock (SX_cas cur_uid) =>
          t_held t = Shared /\ (cur_uid = 0 \/ cur_uid = uid)
      | C_share2exclusive_lock (SX_unlock cur_uid | SX_wait cur_uid _) =>
          t_held t = Shared /\ cur_uid = (if t_upgrade t then uid else 0)
      | C_share2exclusive_lock (SX_add cur_uid err | SX_store cur_uid err) =>
          t_held t = Shared /\ cur_uid = (if t_upgrade t then uid else 0) /\ err <> OB_SUCCESS
      end
  end.

(** The effect of one access of one thread, in terms of the above. *)
Record effect (uid : Z) (t t' : Thread) (q q' : QLock) : Prop := {
  effect_ok : thread_ok uid t';
  effect_refs : n_ref_ q' = u32 (n_ref_ q + (refs t' - refs t));
  effect_claim :
    uid_ q' = uid_ q /\ claim uid t' = claim uid t \/
    uid_ q = claim uid t /\ uid_ q' = claim uid t';
  effect_exclusive :
    t_held t' = Exclusive ->
    t_held t = Exclusive \/ n_ref_ q = 0 /\ claim uid t' = Z.lor uid EXCLUSIVE_BIT;
  effect_shared :
    t_held t' = Shared -> t_held t <> Free \/ exclusive_bit (uid_ q) = false
}.

(** Runs one access through its definition and splits on its conditions. *)
Ltac run_access :=
  unfold thread_step, call_step, exclusive_lock, share2exclusive_lock,
    exclusive2shared_lock, shared_lock, wait_shared_lock_release, exclusive_unlock,
    try_exclusive_lock, try_exclusive_unlock, try_upgrade_lock, shared_unlock,
    try_shared_unlock, retry, cas_uid, finish in *;
  simpl in *; repeat case_match; simplify_eq/=.

Ltac effect_field :=
  intros; simpl in *; bools;
  first
    [ done
    | congruence
    | conjs; first [done | congruence | lia]
    | left; conjs; first [done | congruence | lia]
    | right; conjs; first [done | congruence | lia]
    | f_equal; lia
    | rewrite wrapu_small by lia; lia ].

Section Effect.
Variables (uid : Z) (gives_up : bool) (q : QLock).
Hypothesis Huid : valid_uid uid.
Hypothesis Hn : 0 <= n_ref_ q < 2 ^ 32.

Local Lemma word_nonzero : Z.lor uid EXCLUSIVE_BIT <> 0.
Proof using Huid.
  intros H. pose proof (exclusive_bit_word uid Huid) as Hb. by rewrite H in Hb.
Qed.

(** What is known of a thread before its next access. *)
Definition owns (t : Thread) : Prop :=
  thread_ok uid t /\
  (claim uid t <> 0 -> uid_ q = claim uid t) /\
  (uid_ q = uid -> claim uid t = uid).

Definition call_effect (c : call) : Prop :=
  forall h up t' q',
  owns (mkThread h up (Some c)) ->
  thread_step uid gives_up c (mkThread h up (Some c)) q = (t', q') ->
  effect uid (mkThread h up (Some c)) t' q q'.

Ltac effect_of_call :=
  intros h up t' q' (Hok & Hclaim & Hback) Hs;
  pose proof word_nonzero; pose proof Huid as [Hpos _];
  pose proof (exclusive_bit_uid uid Huid);
  destruct q as [n v], up; unfold thread_ok, claim in Hok, Hclaim, Hback; simpl in *;
  destruct_and?; subst; try done;
  run_access; split; unfold thread_ok, claim, refs; solve [effect_field].

Lemma shared_effect p : call_effect (C_shared_lock p).
Proof using All. destruct p; effect_of_call. Qed.

Lemma try_shared_effect p : call_effect (C_try_shared_lock p).
Proof using All. destruct p; effect_of_call. Qed.

Lemma shared_unlock_effect : call_effect C_shared_unlock.
Proof using All. effect_of_call. Qed.

Lemma try_exclusive_effect p : call_effect (C_try_exclusive_lock p).
Proof using All. destruct p; effect_of_call. Qed.

Lemma exclusive_effect p : call_effect (C_exclusive_lock p).
Proof using All. destruct p as [|[]|]; effect_of_call. Qed.

Lemma exclusive_unlock_effect p : call_effect (C_exclusive_unlock p).
Proof using All. destruct p; effect_of_call. Qed.

Lemma exclusive2shared_effect p : call_effect (C_exclusive2shared_lock p).
Proof using All. destruct p as [|[]|]; effect_of_call. Qed.

Lemma try_upgrade_effect : call_effect C_try_upgrade_lock.
Proof using All. effect_of_call. Qed.

Lemma try_upgrade_unlock_effect p : call_effect (C_try_upgrade_unlock p).
Proof using All. destruct p; effect_of_call. Qed.

Lemma share2exclusive_effect p : call_effect (C_share2exclusive_lock p).
Proof using All. destruct p as [| | |? []| |]; effect_of_call. Qed.

Lemma thread_step_effect c : call_effect c.
Proof using All.
  destruct c; eauto using shared_effect, try_shared_effect, shared_unlock_effect,
    try_exclusive_effect, exclusive_effect, exclusive_unlock_effect,
    exclusive2shared_effect, try_upgrade_effect, try_upgrade_unlock_effect,
    share2exclusive_effect.
Qed.
End Effect.

(** ** The invariant of all interleavings *)

Definition total (l : list Thread) : Z := foldr (fun t n => refs t + n) 0 l.

Lemma refs_range t : 0 <= refs t <= 1.
Proof. destruct t as [h up c]. unfold refs. simpl. repeat case_match; lia. Qed.

Lemma total_range l : 0 <= total l <= Z.of_nat (length l).
Proof. induction l as [|t l]; simpl; [lia |]. pose proof (refs_range t). lia. Qed.

Lemma total_idle n : total (replicate n idle) = 0.
Proof. by induction n. Qed.

Lemma total_insert l i t t' :
  l !! i = Some t -> total (<[i := t']> l) = total l + (refs t' - refs t).
Proof.
  revert i. induction l as [|x l IH]; intros [|i] Hi; simplify_eq/=; [lia |].
  rewrite (IH i Hi). lia.
Qed.

Lemma total_zero l i t : total l = 0 -> l !! i = Some t -> refs t = 0.
Proof.
  revert i. induction l as [|x l IH]; intros [|i] Ht Hi; simplify_eq/=;
    pose proof (total_range l); [pose proof (refs_range t) | pose proof (refs_range x)];
    [lia | eapply IH; [lia | done]].
Qed.

Lemma claim_cases uid t :
  claim uid t = 0 \/ claim uid t = uid \/ claim uid t = Z.lor uid EXCLUSIVE_BIT.
Proof. destruct t as [h up c]. unfold claim. simpl. repeat case_match; auto. Qed.

(** A thread that holds the exclusive lock, or that gave up its reference for
    it, has set the exclusive bit. *)
Lemma claim_exclusive uid t :
  t_held t = Exclusive -> claim uid t = Z.lor uid EXCLUSIVE_BIT.
Proof. destruct t as [h up c]. unfold claim. simpl. intros ->. repeat case_match; auto. Qed.

Lemma claim_shared uid t :
  t_held t = Shared -> refs t = 0 -> claim uid t = Z.lor uid EXCLUSIVE_BIT.
Proof.
  destruct t as [h up c]. unfold claim, refs. simpl. intros ->.
  repeat case_match; auto; lia.
Qed.

Lemma claim_uid_mask uid t :
  valid_uid uid -> claim uid t <> 0 -> Z.land (claim uid t) UID_MASK = uid.
Proof.
  intros Hu H. destruct (claim_cases uid t) as [? | [-> | ->]]; [done | |].
  - by apply uid_mask.
  - by apply word_mask.
Qed.

Section Invariant.
Variable uids : list Z.
Hypothesis Hvalid : Forall valid_uid uids.
Hypothesis Hdup : NoDup uids.
Hypothesis Hmany : Z.of_nat (length uids) < 2 ^ 32.

(** [t] is the thread at place [i], with the user id [uid]. *)
Definition thread_at (s : System) (i : nat) (uid : Z) (t : Thread) : Prop :=
  uids !! i = Some uid /\ threads s !! i = Some t.

Record inv (s : System) : Prop := {
  inv_length : length (threads s) = length uids;
  inv_refs : n_ref_ (lock s) = total (threads s);
  inv_ok i uid t : thread_at s i uid t -> thread_ok uid t;
  inv_claim i uid t :
    thread_at s i uid t -> claim uid t <> 0 -> uid_ (lock s) = claim uid t;
  inv_claimed :
    uid_ (lock s) = 0 \/
    exists i uid t, thread_at s i uid t /\ claim uid t = uid_ (lock s);
  inv_exclusive i j uid uid' t t' :
    thread_at s i uid t -> thread_at s j uid' t' -> i <> j ->
    t_held t = Exclusive -> t_held t' = Free
}.

Lemma thread_at_fun s i uid uid' t t' :
  thread_at s i uid t -> thread_at s i uid' t' -> uid = uid' /\ t = t'.
Proof. intros [] []. naive_solver. Qed.

Lemma thread_at_valid s i uid t : thread_at s i uid t -> valid_uid uid.
Proof using Hvalid. intros [Hi _]. by eapply Forall_lookup_1 in Hi. Qed.

Lemma thread_at_uid s i j uid t t' :
  thread_at s i uid t -> thread_at s j uid t' -> i = j.
Proof using Hdup. intros [Hi _] [Hj _]. by eapply NoDup_lookup. Qed.

Lemma thread_at_insert s q i t' j uid t :
  thread_at (mkSystem q (<[i := t']> (threads s))) j uid t ->
  j = i /\ t = t' \/ j <> i /\ thread_at s j uid t.
Proof.
  intros [Hj Ht]. simpl in Ht.
  apply list_lookup_insert_Some in Ht as [(-> & -> & _) | [? Ht]]; [by left |].
  right. by split; [| split].
Qed.

Lemma thread_at_inserted s q i t t' uid :
  thread_at s i uid t -> thread_at (mkSystem q (<[i := t']> (threads s))) i uid t'.
Proof.
  intros [Hi Ht]. split; [done |]. simpl. apply list_lookup_insert_eq.
  by eapply lookup_lt_Some.
Qed.

Lemma thread_at_other s q i t' j uid t :
  i <> j -> thread_at s j uid t ->
  thread_at (mkSystem q (<[i := t']> (threads s))) j uid t.
Proof. intros Hij []. split; [done |]. simpl. by rewrite list_lookup_insert_ne. Qed.

Lemma inv_thread_at s i t :
  inv s -> threads s !! i = Some t -> exists uid, thread_at s i uid t.
Proof.
  intros Hinv Ht. destruct (lookup_lt_is_Some_2 uids i) as [uid Hu].
  { rewrite <- (inv_length s Hinv). by eapply lookup_lt_Some. }
  by exists uid.
Qed.

(** No two threads claim [uid_]. *)
Lemma claim_unique s i j uid uid' t t' :
  inv s -> thread_at s i uid t -> thread_at s j uid' t' ->
  claim uid t <> 0 -> claim uid' t' <> 0 -> i = j.
Proof using Hvalid Hdup.
  intros Hinv Hi Hj Hc Hc'.
  pose proof (inv_claim s Hinv i uid t Hi Hc) as H.
  rewrite (inv_claim s Hinv j uid' t' Hj Hc') in H.
  assert (uid = uid') as <-.
  { rewrite <- (claim_uid_mask uid t), <- (claim_uid_mask uid' t')
      by eauto using thread_at_valid. by rewrite H. }
  eauto using thread_at_uid.
Qed.

Lemma inv_owns s i uid t : inv s -> thread_at s i uid t -> owns uid (lock s) t.
Proof using Hvalid Hdup.
  intros Hinv Hi. split; [by eapply inv_ok |]. split; [by eapply inv_claim |].
  intros Hu. pose proof (thread_at_valid _ _ _ _ Hi) as Hv.
  destruct (inv_claimed s Hinv) as [H | (k & uid' & t' & Hk & H)]; [unfold valid_uid in Hv; lia |].
  rewrite Hu in H. assert (uid = uid') as <-.
  { rewrite <- (claim_uid_mask uid' t'), H, uid_mask; [done | done | |].
    - by eapply thread_at_valid.
    - unfold valid_uid in Hv. lia. }
  pose proof (thread_at_uid _ _ _ _ _ _ Hi Hk) as <-.
  by destruct (thread_at_fun _ _ _ _ _ _ Hi Hk) as [_ <-].
Qed.

Lemma inv_ref_range s : inv s -> 0 <= n_ref_ (lock s) < 2 ^ 32.
Proof using Hmany.
  intros Hinv. rewrite (inv_refs s Hinv). pose proof (total_range (threads s)) as H.
  rewrite (inv_length s Hinv) in H. lia.
Qed.

Lemma claim_exclusive_nonzero s i uid t :
  thread_at s i uid t -> t_held t = Exclusive -> claim uid t <> 0.
Proof using Hvalid.
  intros Hi Ht. rewrite claim_exclusive by done. by apply word_nonzero, (thread_at_valid s i uid t).
Qed.

(** Another thread's claim survives a change of [i]'s. *)
Lemma effect_keeps_claim s i j uid uid' t t' t'' q' :
  inv s -> thread_at s i uid t -> effect uid t t' (lock s) q' ->
  thread_at s j uid' t'' -> j <> i -> claim uid' t'' <> 0 ->
  uid_ q' = uid_ (lock s) /\ claim uid t' = claim uid t.
Proof using Hvalid Hdup.
  intros Hinv Hi He Hj Hji Hc.
  destruct (effect_claim _ _ _ _ _ He) as [? | [H1 H2]]; [done |].
  rewrite (inv_claim s Hinv j uid' t'' Hj Hc) in H1.
  destruct Hji. eapply (claim_unique s); eauto. by rewrite <- H1.
Qed.

Lemma effect_exclusive_inv s i uid t t' q' j j' uj uj' tj tj' :
  inv s -> thread_at s i uid t -> effect uid t t' (lock s) q' ->
  let s' := mkSystem q' (<[i := t']> (threads s)) in
  thread_at s' j uj tj -> thread_at s' j' uj' tj' -> j <> j' ->
  t_held tj = Exclusive -> t_held tj' = Free.
Proof using Hvalid Hdup.
  intros Hinv Hi He s' Hj Hj' Hne Hx.
  apply thread_at_insert in Hj as [[-> ->] | [Hji Hj]];
    apply thread_at_insert in Hj' as [[-> ->] | [Hji' Hj']]; [done | | |].
  - (* the thread that moved is the exclusive one *)
    destruct (effect_exclusive _ _ _ _ _ He Hx) as [Hx0 | [Hn Hc]].
    { by eapply (inv_exclusive s Hinv i j'). }
    assert (Hr : refs tj' = 0).
    { eapply total_zero; [| apply Hj']. by rewrite <- (inv_refs s Hinv). }
    assert (Hcj : claim uj' tj' = 0).
    { destruct (decide (claim uj' tj' = 0)) as [|Hcj]; [done | exfalso].
      destruct (effect_keeps_claim s i j' uid uj' t t' tj' q') as [_ Hk]; try done.
      apply Hne. eapply (claim_unique s); eauto.
      rewrite <- Hk, Hc. by apply word_nonzero, (thread_at_valid s i uid t). }
    pose proof (thread_at_valid _ _ _ _ Hj') as Hv. apply word_nonzero in Hv.
    destruct (t_held tj') eqn:Hh; [done | |]; exfalso.
    + rewrite (claim_shared uj' tj') in Hcj by done. done.
    + rewrite (claim_exclusive uj' tj') in Hcj by done. done.
  - (* another thread is, and the one that moved must stay free *)
    pose proof (claim_exclusive_nonzero _ _ _ _ Hj Hx) as Hc.
    destruct (t_held t') eqn:Hh; [done | |]; exfalso.
    + destruct (effect_shared _ _ _ _ _ He Hh) as [Hf | Hb].
      { apply Hf. by eapply (inv_exclusive s Hinv j i). }
      rewrite (inv_claim s Hinv j uj tj Hj Hc), claim_exclusive, exclusive_bit_word in Hb;
        eauto using thread_at_valid. done.
    + destruct (effect_exclusive _ _ _ _ _ He Hh) as [Hx0 | [_ Hc']].
      { by rewrite (inv_exclusive s Hinv j i uj uid tj t) in Hx0. }
      destruct (effect_keeps_claim s i j uid uj t t' tj q') as [_ Hk]; try done.
      apply Hji. eapply (claim_unique s); eauto.
      rewrite <- Hk, Hc'. by apply word_nonzero, (thread_at_valid s i uid t).
  - by eapply (inv_exclusive s Hinv j j').
Qed.

Lemma effect_inv s i uid t t' q' :
  inv s -> thread_at s i uid t -> effect uid t t' (lock s) q' ->
  inv (mkSystem q' (<[i := t']> (threads s))).
Proof using Hvalid Hdup Hmany.
  intros Hinv Hi He. pose proof Hi as [_ Hti]. split; simpl.
  - rewrite length_insert. apply Hinv.
  - rewrite (effect_refs _ _ _ _ _ He), (total_insert _ _ _ _ Hti), <- (inv_refs s Hinv).
    apply wrapu_small. rewrite (inv_refs s Hinv), <- (total_insert _ _ _ _ Hti).
    pose proof (total_range (<[i := t']> (threads s))) as H.
    rewrite length_insert, (inv_length s Hinv) in H. lia.
  - intros j uj tj Hj. pose proof Hj as [Huj _].
    apply thread_at_insert in Hj as [[-> ->] | [_ Hj]]; [| by eapply inv_ok].
    destruct Hi as [Hui _]. simplify_eq. apply He.
  - intros j uj tj Hj Hc. pose proof Hj as [Huj _].
    apply thread_at_insert in Hj as [[-> ->] | [Hji Hj]].
    + destruct Hi as [Hui _]. simplify_eq.
      destruct (effect_claim _ _ _ _ _ He) as [[-> Hcc] | [_ ?]]; [| done].
      rewrite Hcc in *. by eapply inv_claim.
    + destruct (effect_keeps_claim s i j uid uj t t' tj q') as [-> _]; try done.
      by eapply inv_claim.
  - destruct (effect_claim _ _ _ _ _ He) as [[-> Hcc] | [_ ->]].
    + destruct (inv_claimed s Hinv) as [H | (k & uk & tk & Hk & H)]; [by left | right].
      destruct (decide (k = i)) as [-> | Hki].
      * destruct (thread_at_fun _ _ _ _ _ _ Hi Hk) as [<- <-].
        exists i, uid, t'. split; [by eapply thread_at_inserted | by rewrite Hcc].
      * exists k, uk, tk. split; [by apply thread_at_other | done].
    + right. exists i, uid, t'. split; [by eapply thread_at_inserted | done].
  - intros j j' uj uj' tj tj'. by eapply effect_exclusive_inv.
Qed.

Lemma invoke_effect uid t c q :
  t_call t = None -> may_call t c = true -> thread_ok uid t -> 0 <= n_ref_ q < 2 ^ 32 ->
  effect uid t (mkThread (t_held t) (t_upgrade t) (Some c)) q q.
Proof.
  intros Hc Hm Hok Hn. destruct t as [h up ?]. simpl in Hc. subst.
  unfold may_call in Hm. simpl in Hm. repeat case_match; try discriminate;
    subst; split; unfold thread_ok, claim, refs in *; simpl in *;
    intros; try done; try (by left); try (rewrite wrapu_small; lia); auto.
Qed.

Lemma start_inv : inv (start uids).
Proof.
  assert (Hidle : forall i uid t, thread_at (start uids) i uid t -> t = idle).
  { intros i uid t [_ Ht]. simpl in Ht. by apply lookup_replicate in Ht as [-> _]. }
  split; simpl.
  - apply length_replicate.
  - symmetry. apply total_idle.
  - intros i uid t ->%Hidle. done.
  - intros i uid t ->%Hidle. done.
  - by left.
  - by intros i j uid uid' t t' ->%Hidle _ _ [=].
Qed.

Lemma step_inv s s' : step uids s s' -> inv s -> inv s'.
Proof using Hvalid Hdup Hmany.
  intros Hs Hinv. destruct Hs as [s i t c Ht Hc Hm | s i uid t c gives_up t' q' Hu Ht Hc Hs].
  - destruct (inv_thread_at s i t Hinv Ht) as [uid Hi].
    eapply effect_inv; [done | done |].
    apply invoke_effect; eauto using inv_ok, inv_ref_range.
  - assert (Hi : thread_at s i uid t) by (by split).
    eapply effect_inv; [done | done |]. destruct t as [h up ?]. simpl in Hc. subst.
    eapply thread_step_effect; eauto using thread_at_valid, inv_owns, inv_ref_range.
Qed.

Lemma reachable_inv s : reachable uids s -> inv s.
Proof using Hvalid Hdup Hmany.
  apply rtc_ind_r; [apply start_inv |]. intros. by eapply step_inv.
Qed.
End Invariant.

(** ** Progress

    Runs in which no deadline passes and no new call is made. *)

Inductive run_step (uids : list Z) : System -> System -> Prop :=
  | run_step_intro s i uid t c t' q' :
      uids !! i = Some uid -> threads s !! i = Some t -> t_call t = Some c ->
      thread_step uid false c t (lock s) = (t', q') ->
      run_step uids s (mkSystem q' (<[i := t']> (threads s))).

(** One thread running alone until it is in a state of the class [stop]. *)
Inductive gets (uid : Z) (stop : Thread -> QLock -> Prop) : Thread -> QLock -> Prop :=
  | gets_here t q : stop t q -> gets uid stop t q
  | gets_step t q c :
      t_call t = Some c ->
      gets uid stop (thread_step uid false c t q).1 (thread_step uid false c t q).2 ->
      gets uid stop t q.

Definition waiting (t : Thread) : bool :=
  match t_call t with
  | Some (C_exclusive_lock (XL_wait _)) | Some (C_share2exclusive_lock (SX_wait _ _)) => true
  | _ => false
  end.

Definition settled (t : Thread) (q : QLock) : Prop := t_call t = None \/ waiting t = true.

Lemma finish_returns c err t : t_call (finish c err t) = None.
Proof. unfold finish. by repeat case_match. Qed.

Ltac use_conditions :=
  repeat match goal with
  | H : _ = true |- _ => rewrite H
  | H : _ = false |- _ => rewrite H
  | H : Z.land _ _ = _ |- _ => rewrite H
  | |- context [?n =? ?n] => rewrite (Z.eqb_refl n)
  | |- context [?n =? 0] => is_var n; destruct (n =? 0)
  end.

Ltac run_alone :=
  repeat first
    [ apply gets_here; first [done | by left | by right | by left; apply finish_returns]
    | eapply gets_step; [reflexivity |];
      unfold thread_step, call_step, exclusive_lock, share2exclusive_lock,
        exclusive2shared_lock, shared_lock, wait_shared_lock_release, exclusive_unlock,
        try_exclusive_lock, try_exclusive_unlock, try_upgrade_lock, try_upgrade_unlock, retry, cas_uid,
        set_uid; cbn [uid_ n_ref_ add_shared_ref del_shared_ref];
      use_conditions; simpl; use_conditions; simpl ].

(** A thread whose way is free returns, or has set the exclusive bit and
    waits for the readers. *)
Lemma gets_settled uid t q :
  valid_uid uid -> owns uid q t -> uid_ q = 0 \/ claim uid t = uid_ q ->
  gets uid settled t q.
Proof.
  intros Hu (Hok & Hclaim & Hback) Hfree.
  pose proof (word_nonzero uid Hu) as Hw. pose proof Hu as [Hpos _].
  pose proof (exclusive_bit_uid uid Hu) as Hb. pose proof (word_mask uid Hu) as Hm.
  pose proof (exclusive_bit_word uid Hu) as Hbw. pose proof (valid_uid_accepted uid Hu) as Hacc.
  assert (H0 : (uid =? 0) = false) by lia.
  destruct t as [h up [c|]], q as [n v]; [| run_alone].
  unfold thread_ok, claim in Hok, Hclaim, Hback, Hfree; simpl in *.
  destruct c as [p|p| | |p|p|p|p|p|p]; try destruct p as [| | |]; try destruct p as [|[]|];
    try destruct p as [| | |? []| |]; try destruct p; simpl in *; destruct_and?; subst.
  all: assert (H0' : (0 =? uid) = false) by lia.
  all: try (destruct up); try destruct h; destruct_or?; subst; try done.
  all: try (exfalso; lia); run_alone.
Qed.

(** A thread with a reference meets the exclusive bit of another one: its call
    returns, or it takes the reference back. *)
Lemma gets_drained uid t q :
  valid_uid uid -> owns uid q t -> t_call t <> None -> refs t = 1 -> claim uid t = 0 ->
  exclusive_bit (uid_ q) = true ->
  gets uid (fun t' _ => t_call t' = None \/ refs t' = 0) t q.
Proof.
  intros Hu (Hok & _ & _) Hcall Hr Hc Hx.
  pose proof (word_nonzero uid Hu) as Hw. pose proof Hu as [Hpos _].
  pose proof (exclusive_bit_uid uid Hu) as Hb. pose proof (valid_uid_accepted uid Hu) as Hacc.
  assert (H0 : (uid =? 0) = false) by lia.
  destruct t as [h up [c|]], q as [n v]; [| done].
  assert (Hv : (v =? 0) = false) by (apply Z.eqb_neq; intros ->; done).
  assert (Hvu : (v =? uid) = false) by (apply Z.eqb_neq; intros ->; simpl in Hx; congruence).
  unfold thread_ok, claim, refs in Hok, Hc, Hr; simpl in *.
  destruct c as [p|p| | |p|p|p|p|p|p]; try destruct p as [| | |]; try destruct p as [|[]|];
    try destruct p as [| | |? []| |]; try destruct p; simpl in *; destruct_and?; subst;
    try done.
  all: destruct_or?; subst; try (destruct up); try destruct h; try done; try (exfalso; lia).
  all: run_alone.
Qed.

(** The readers being gone, the thread that waits for them gets the lock. *)
Lemma gets_exclusive uid t q :
  valid_uid uid -> owns uid q t -> waiting t = true -> n_ref_ q = 0 ->
  gets uid (fun t' _ => t_call t' = None) t q.
Proof.
  intros Hu (Hok & Hc & _) Hwait Hn.
  pose proof (word_nonzero uid Hu) as Hw. pose proof (word_mask uid Hu) as Hm.
  destruct t as [h up [c|]], q as [n v]; [| done]. simpl in Hn. subst n.
  unfold thread_ok, claim, waiting in Hok, Hc, Hwait; simpl in *.
  destruct c as [p|p| | |p|p|p|p|p|p]; try done; destruct p as [|p|] || destruct p as [| | |? p| |];
    try done; destruct p; rewrite (Hc Hw).
  all: run_alone.
Qed.

Section Progress.
Variable uids : list Z.
Hypothesis Hvalid : Forall valid_uid uids.
Hypothesis Hdup : NoDup uids.
Hypothesis Hmany : Z.of_nat (length uids) < 2 ^ 32.

Lemma gets_run stop s i uid t :
  thread_at uids s i uid t -> gets uid stop t (lock s) ->
  exists t' q', stop t' q' /\
    rtc (run_step uids) s (mkSystem q' (<[i := t']> (threads s))).
Proof.
  intros Hi Hg. remember (lock s) as q eqn:Hq. revert s Hi Hq.
  induction Hg as [t q Hstop | t q c Hc Hg IH]; intros s Hi ->.
  - exists t, (lock s). split; [done |]. rewrite list_insert_id by apply Hi.
    by destruct s.
  - destruct (thread_step uid false c t (lock s)) as [t1 q1] eqn:Hs. simpl in *.
    destruct (IH (mkSystem q1 (<[i := t1]> (threads s)))) as (t' & q' & Hstop & Hr);
      [by eapply thread_at_inserted | done |].
    exists t', q'. split; [done |]. simpl in Hr. rewrite list_insert_insert_eq in Hr.
    eapply rtc_l; [| done]. destruct Hi. by eapply run_step_intro.
Qed.

Lemma run_inv s s' : rtc (run_step uids) s s' -> inv uids s -> inv uids s'.
Proof using Hvalid Hdup Hmany.
  induction 1 as [|s s1 s' Hs _ IH]; [done |]. intros Hinv. apply IH.
  destruct Hs. eapply step_inv; eauto. by eapply step_run.
Qed.

(** Some call that is under way in [s] can return. *)
Definition returns (s : System) : Prop :=
  exists s' i t t',
  rtc (run_step uids) s s' /\
  threads s !! i = Some t /\ t_call t <> None /\
  threads s' !! i = Some t' /\ t_call t' = None.

(** Whoever is not inside of a call holds nothing. *)
Definition idle_free (s : System) : Prop :=
  forall i t, threads s !! i = Some t -> t_call t = None ->
  t_held t = Free /\ t_upgrade t = false.

Lemma returns_run s i t t' q' :
  threads s !! i = Some t -> t_call t <> None ->
  rtc (run_step uids) s (mkSystem q' (<[i := t']> (threads s))) ->
  t_call t' = None \/ returns (mkSystem q' (<[i := t']> (threads s))) ->
  returns s.
Proof.
  intros Ht Hc Hr [Hn | (s' & j & tj & tj' & Hr' & Htj & Hcj & Htj' & Hcj')].
  - exists (mkSystem q' (<[i := t']> (threads s))), i, t, t'. conjs; try done.
    simpl. apply list_lookup_insert_eq. by eapply lookup_lt_Some.
  - simpl in Htj. destruct (decide (j = i)) as [-> | Hji].
    + exists s', i, t, tj'. conjs; try done. by etrans.
    + rewrite list_lookup_insert_ne in Htj by done.
      exists s', j, tj, tj'. conjs; try done. by etrans.
Qed.

Lemma idle_free_insert s i t' q' :
  idle_free s -> t_call t' <> None -> idle_free (mkSystem q' (<[i := t']> (threads s))).
Proof.
  intros Hf Hc j t Ht Hn. simpl in Ht.
  apply list_lookup_insert_Some in Ht as [(_ & -> & _) | [_ Ht]]; [done | by eapply Hf].
Qed.

Lemma idle_free_refs s i uid t :
  idle_free s -> thread_at uids s i uid t -> refs t <> 0 \/ claim uid t <> 0 ->
  t_call t <> None.
Proof.
  intros Hf [_ Ht] H Hc. destruct (Hf i t Ht Hc) as [Hh Hu].
  destruct t as [h up ?]. simpl in *. subst. unfold refs, claim in H. simpl in H. lia.
Qed.

Lemma waiting_owner uid t :
  thread_ok uid t -> waiting t = true ->
  refs t = 0 /\ claim uid t = Z.lor uid EXCLUSIVE_BIT.
Proof.
  destruct t as [h up [c|]]; [| done]. unfold thread_ok, waiting, refs, claim. simpl.
  destruct c as [| | | | | |p| |p|]; try done; destruct p; intros; destruct_and?; subst; done.
Qed.
Lemma total_positive l : 0 < total l -> exists i t, l !! i = Some t /\ refs t = 1.
Proof.
  induction l as [|t l IH]; simpl; [lia |]. intros H. pose proof (refs_range t).
  destruct (decide (refs t = 1)); [by exists 0%nat, t |].
  destruct IH as (i & t' & ? & ?); [lia |]. by exists (S i), t'.
Qed.

(** The thread that waits for the readers, and the readers, let one another
    proceed. *)
Lemma drain_returns n s k uid t :
  inv uids s -> idle_free s -> thread_at uids s k uid t -> waiting t = true ->
  total (threads s) <= Z.of_nat n -> returns s.
Proof using Hvalid Hdup Hmany.
  revert s. induction n as [|n IH]; intros s Hinv Hfree Hk Hwait Hn;
    pose proof (thread_at_valid uids Hvalid _ _ _ _ Hk) as Hu;
    destruct (waiting_owner uid t (inv_ok uids s Hinv k uid t Hk) Hwait) as [Hr Hc];
    pose proof (word_nonzero uid Hu) as Hw;
    assert (Hcall : t_call t <> None)
      by (eapply (idle_free_refs s); [done | done | right; by rewrite Hc]).
  - destruct (gets_run (fun t' _ => t_call t' = None) s k uid t) as (t' & q' & Ht' & Hrun);
      [done | | by eapply returns_run; [apply Hk | done | done | by left]].
    apply gets_exclusive; eauto using inv_owns.
    rewrite (inv_refs uids s Hinv). pose proof (total_range (threads s)). lia.
  - destruct (decide (total (threads s) <= Z.of_nat n)) as [|Hmore]; [by eapply IH |].
    destruct (total_positive (threads s)) as (j & tj & Htj & Hrj); [lia |].
    destruct (inv_thread_at uids s j tj Hinv Htj) as [uj Hj].
    assert (Hjk : j <> k).
    { intros ->. destruct (thread_at_fun uids _ _ _ _ _ _ Hk Hj) as [_ <-]. lia. }
    assert (Hcj : claim uj tj = 0).
    { destruct (decide (claim uj tj = 0)); [done | exfalso]. apply Hjk.
      eapply (claim_unique uids); eauto. by rewrite Hc. }
    assert (Hcallj : t_call tj <> None)
      by (eapply (idle_free_refs s); [done | done | left; lia]).
    destruct (gets_run (fun t' _ => t_call t' = None \/ refs t' = 0) s j uj tj)
      as (tj' & q' & Hstop & Hrun); [done | |].
    { apply gets_drained; eauto using inv_owns, thread_at_valid.
      rewrite (inv_claim uids s Hinv k uid t Hk), Hc; [by apply exclusive_bit_word | by rewrite Hc]. }
    eapply returns_run; [done | done | done |].
    destruct (decide (t_call tj' = None)) as [|Hcj']; [by left | right].
    destruct Hstop as [? | Hr0]; [done |].
    eapply IH; eauto using run_inv, idle_free_insert, thread_at_other.
    simpl. rewrite (total_insert _ _ tj) by done. lia.
Qed.

Lemma settled_returns s i uid t :
  inv uids s -> idle_free s -> thread_at uids s i uid t -> t_call t <> None ->
  uid_ (lock s) = 0 \/ claim uid t = uid_ (lock s) -> returns s.
Proof using Hvalid Hdup Hmany.
  intros Hinv Hfree Hi Hc Hway.
  destruct (gets_run settled s i uid t) as (t' & q' & Hstop & Hrun); [done | |].
  { apply gets_settled; eauto using inv_owns, thread_at_valid. }
  eapply returns_run; [apply Hi | done | done |].
  destruct (decide (t_call t' = None)) as [|Hc']; [by left | right].
  destruct Hstop as [? | Hwait]; [done |].
  eapply (drain_returns (Z.to_nat (total (<[i := t']> (threads s)))));
    eauto using run_inv, idle_free_insert, thread_at_inserted.
  simpl. pose proof (total_range (<[i := t']> (threads s))). lia.
Qed.

Lemma inv_returns s :
  inv uids s -> idle_free s -> (exists i t, threads s !! i = Some t /\ t_call t <> None) ->
  returns s.
Proof using Hvalid Hdup Hmany.
  intros Hinv Hfree (i & t & Ht & Hc).
  destruct (decide (uid_ (lock s) = 0)) as [H0 | H0].
  - destruct (inv_thread_at uids s i t Hinv Ht) as [uid Hi].
    eapply (settled_returns s i); eauto.
  - destruct (inv_claimed uids s Hinv) as [? | (k & uk & tk & Hk & Hck)]; [done |].
    eapply (settled_returns s k); eauto. eapply idle_free_refs; eauto. right. by rewrite Hck.
Qed.
End Progress.

(** ** Schedules

    An executable form of [step], for concrete interleavings. *)

Inductive event := Call (c : call) | Run (gives_up : bool).

Definition exec (uids : list Z) (s : System) (e : nat * event) : option System :=
  let '(i, e) := e in
  uid ← uids !! i; t ← threads s !! i;
  match e, t_call t with
  | Call c, None =>
      if may_call t c then
        Some (mkSystem (lock s) (<[i := mkThread (t_held t) (t_upgrade t) (Some c)]> (threads s)))
      else None
  | Run gives_up, Some c =>
      let '(t', q') := thread_step uid gives_up c t (lock s) in
      Some (mkSystem q' (<[i := t']> (threads s)))
  | _, _ => None
  end.

Fixpoint schedule (uids : list Z) (s : System) (es : list (nat * event)) : option System :=
  match es with
  | [] => Some s
  | e :: es => s' ← exec uids s e; schedule uids s' es
  end.

Lemma exec_step uids s e s' : exec uids s e = Some s' -> step uids s s'.
Proof.
  destruct e as [i e]. unfold exec. intros H.
  apply bind_Some in H as (uid & Hu & H). apply bind_Some in H as (t & Ht & H).
  destruct e as [c | gives_up], (t_call t) eqn:Hc; try done.
  - destruct (may_call t c) eqn:Hm; simplify_eq. by apply step_call.
  - destruct (thread_step _ _ _ _ _) eqn:Hs; simplify_eq. by eapply step_run.
Qed.

Lemma schedule_reachable uids es s :
  schedule uids (start uids) es = Some s -> reachable uids s.
Proof.
  unfold reachable. generalize (start uids). induction es as [|e es IH]; simpl; intros s0 H.
  - by simplify_eq.
  - apply bind_Some in H as (s1 & He & H). eapply rtc_l; eauto using exec_step.
Qed.

(** ** The guard

    [QLockGuard] has a member [QLock qlock_], not a reference: it locks and
    unlocks a copy of the lock it is given. *)

Record QLockGuard := mkGuard { locked_ : bool; qlock_ : QLock; guard_uid_ : Z }.

(** [exclusive_lock (uid)] without a deadline on a lock no other thread uses;
    [None] when [fuel] accesses are not enough. *)
Fixpoint exclusive_lock_alone (fuel : nat) (uid : Z) (p : exclusive_pc) (q : QLock)
    : option (Z * QLock) :=
  match fuel with
  | O => None
  | S fuel =>
      match exclusive_lock uid false p q with
      | Goes p' q' => exclusive_lock_alone fuel uid p' q'
      | Returns err q' => Some (err, q')
      end
  end.

Definition QLockGuard_new (fuel : nat) (qlock : QLock) (uid : Z) : option QLockGuard :=
  let copy := qlock in
  if negb (is_exclusive_locked_by uid copy) then
    '(err, copy) ← exclusive_lock_alone fuel uid XL_cas copy;
    Some (mkGuard (err =? OB_SUCCESS) copy uid)
  else Some (mkGuard false copy uid).

(** ** Properties *)

(** User ids of the threads that share a lock: each thread has its own. *)
Definition client_ids (uids : list Z) : Prop :=
  Forall valid_uid uids /\ NoDup uids /\ Z.of_nat (length uids) < 2 ^ 32.

(** C3: in every interleaving, while one thread holds the lock exclusively no
    other thread holds it, shared or exclusively. *)
Theorem exclusive_excludes uids s i j ti tj :
  client_ids uids -> reachable uids s -> i <> j ->
  threads s !! i = Some ti -> threads s !! j = Some tj ->
  t_held ti = Exclusive -> t_held tj = Free.
Proof.
  intros (Hv & Hd & Hm) Hr Hij Hi Hj Hx.
  pose proof (reachable_inv uids Hv Hd Hm s Hr) as Hinv.
  destruct (inv_thread_at uids s i ti Hinv Hi) as [ui Hui].
  destruct (inv_thread_at uids s j tj Hinv Hj) as [uj Huj].
  by apply (inv_exclusive uids s Hinv i j ui uj ti tj).
Qed.

Lemma total_quiescent l :
  (forall i t, l !! i = Some t -> t_call t = None) ->
  total l = Z.of_nat (length (filter (fun t => t_held t = Shared) l)).
Proof.
  induction l as [|t l IH]; intros Hq; [done |]. simpl.
  rewrite IH by (intros i; apply (Hq (S i))).
  pose proof (Hq 0%nat t eq_refl) as Hc. unfold refs. rewrite Hc, filter_cons.
  by destruct (t_held t), (decide _); simpl; try lia.
Qed.

Lemma two_clients : client_ids [1; 2].
Proof.
  split; [by repeat constructor |]. split; [| done].
  apply NoDup_cons_2; [by intros [=]%list_elem_of_singleton |]. apply NoDup_singleton.
Qed.

(** The state after a schedule, with its reachability. *)
Ltac after es :=
  destruct (schedule [1; 2] (start [1; 2]) es) as [s |] eqn:Hs; [| by vm_compute in Hs];
  exists s; pose proof (schedule_reachable _ _ _ Hs) as Hr; split; [done |];
  vm_compute in Hs; injection Hs as <-.

(** Thread 0 takes the lock exclusively while thread 1 is between its check of
    the exclusive bit and its reference. *)
Definition contended : list (nat * event) :=
  [(1, Call (C_shared_lock TS_check)); (1, Run false);
   (0, Call (C_exclusive_lock XL_cas)); (0, Run false); (0, Run false); (0, Run false);
   (1, Run false)]%nat.

Lemma exclusive_excludes_witness :
  exists s, schedule [1; 2] (start [1; 2]) contended = Some s /\
  t_held <$> threads s !! 0%nat = Some Exclusive /\ n_ref_ (lock s) = 1 /\
  forall t, threads s !! 1%nat = Some t -> t_held t = Free.
Proof.
  after contended. split; [done |]. split; [done |]. intros t Ht.
  by apply (exclusive_excludes [1; 2] _ 0 1 _ t two_clients Hr (Nat.neq_0_succ 0) eq_refl Ht).
Defined.

(** The owner the lock names is the thread that has set the exclusive bit. *)
Lemma locked_by_claim uids s i uid t :
  Forall valid_uid uids -> NoDup uids -> inv uids s -> thread_at uids s i uid t ->
  is_exclusive_locked_by uid (lock s) = true <-> claim uid t = Z.lor uid EXCLUSIVE_BIT.
Proof.
  intros Hv Hd Hinv Hi. pose proof (thread_at_valid uids Hv _ _ _ _ Hi) as Hu.
  unfold is_exclusive_locked_by. rewrite andb_true_iff, Z.eqb_eq. split.
  - intros [Hb Hm]. destruct (inv_claimed uids s Hinv) as [H | (k & uk & tk & Hk & Hck)].
    { by rewrite H in Hb. }
    pose proof (thread_at_valid uids Hv _ _ _ _ Hk) as Huk.
    rewrite <- Hck in Hb, Hm. destruct (claim_cases uk tk) as [H | [H | H]].
    + by rewrite H in Hb.
    + by rewrite H, exclusive_bit_uid in Hb.
    + rewrite H, word_mask in Hm by done. subst uk.
      pose proof (thread_at_uid uids Hd _ _ _ _ _ _ Hi Hk) as <-.
      by destruct (thread_at_fun uids _ _ _ _ _ _ Hi Hk) as [_ <-].
  - intros Hc. rewrite (inv_claim uids s Hinv i uid t Hi), Hc
      by (rewrite Hc; by apply word_nonzero).
    by rewrite exclusive_bit_word, word_mask.
Qed.

Lemma claim_quiescent uid t :
  valid_uid uid -> t_call t = None ->
  (claim uid t = Z.lor uid EXCLUSIVE_BIT <-> t_held t = Exclusive) /\
  (claim uid t = 0 <-> t_held t <> Exclusive /\ t_upgrade t = false).
Proof.
  intros Hu Hc. pose proof (word_nonzero uid Hu). pose proof Hu as [? _].
  assert (uid <> Z.lor uid EXCLUSIVE_BIT).
  { intros H'. pose proof (exclusive_bit_uid uid Hu) as Hb.
    by rewrite H', exclusive_bit_word in Hb. }
  unfold claim. rewrite Hc. destruct (t_held t), (t_upgrade t); intuition (congruence || lia).
Qed.

(** When no call is under way, however the earlier calls ended (also those
    that timed out or found a deadlock), [n_ref_] is the number of threads
    that hold the lock shared, the lock names as its exclusive owner exactly
    the thread that holds it exclusively, and [uid_] is 0 unless some thread
    holds the lock exclusively or with the upgrade intention. *)
Theorem quiescent_words uids s :
  client_ids uids -> reachable uids s ->
  (forall i t, threads s !! i = Some t -> t_call t = None) ->
  n_ref_ (lock s) = Z.of_nat (length (filter (fun t => t_held t = Shared) (threads s))) /\
  (forall i uid t, uids !! i = Some uid -> threads s !! i = Some t ->
     is_exclusive_locked_by uid (lock s) = true <-> t_held t = Exclusive) /\
  (uid_ (lock s) = 0 <->
     forall i t, threads s !! i = Some t -> t_held t <> Exclusive /\ t_upgrade t = false).
Proof.
  intros (Hv & Hd & Hm) Hr Hq. pose proof (reachable_inv uids Hv Hd Hm s Hr) as Hinv.
  split; [| split].
  - rewrite (inv_refs uids s Hinv). by apply total_quiescent.
  - intros i uid t Hu Ht. assert (Hi : thread_at uids s i uid t) by done.
    rewrite (locked_by_claim uids s i uid t) by done.
    apply claim_quiescent; eauto using thread_at_valid.
  - split.
    + intros H0 i t Ht. destruct (inv_thread_at uids s i t Hinv Ht) as [uid Hi].
      apply (claim_quiescent uid); eauto using thread_at_valid.
      destruct (decide (claim uid t = 0)) as [|Hc]; [done |].
      by rewrite <- (inv_claim uids s Hinv i uid t).
    + intros Hfree. destruct (inv_claimed uids s Hinv) as [? | (k & uk & tk & Hk & Hck)]; [done |].
      rewrite <- Hck. pose proof Hk as [_ Htk].
      apply claim_quiescent; eauto using thread_at_valid.
Qed.

(** Thread 0 waits for the reader, times out and gives the lock back. *)
Definition timed_out : list (nat * event) :=
  [(1, Call (C_shared_lock TS_check)); (1, Run false); (1, Run false); (1, Run false);
   (0, Call (C_exclusive_lock XL_cas)); (0, Run false); (0, Run false); (0, Run true);
   (0, Run false)]%nat.

Lemma quiescent_words_witness :
  exists s, schedule [1; 2] (start [1; 2]) timed_out = Some s /\
  n_ref_ (lock s) = 1 /\ is_exclusive_locked_by 1 (lock s) = false.
Proof.
  after timed_out. destruct (quiescent_words _ _ two_clients Hr) as (H1 & H2 & _).
  - intros [|[|i]] t Ht; simpl in Ht; by simplify_eq.
  - split; [exact H1 |]. apply not_true_iff_false. by rewrite (H2 0%nat _ _ eq_refl eq_refl).
Defined.

(** A thread takes one call through [n] accesses, [gives_up] in each as it
    comes. *)
Definition alone (i : nat) (c : call) (bs : list bool) : list (nat * event) :=
  (i, Call c) :: ((fun b => (i, Run b)) <$> bs).

Lemma quiescent_not_exclusive uids s :
  client_ids uids -> reachable uids s ->
  (forall i t, threads s !! i = Some t -> t_call t = None /\ t_held t <> Exclusive) ->
  exclusive_bit (uid_ (lock s)) = false.
Proof.
  intros (Hv & Hd & Hm) Hr Hq. pose proof (reachable_inv uids Hv Hd Hm s Hr) as Hinv.
  destruct (inv_claimed uids s Hinv) as [-> | (k & uk & tk & Hk & <-)]; [done |].
  pose proof (thread_at_valid uids Hv _ _ _ _ Hk) as Hu. destruct (Hq k tk (proj2 Hk)) as [Hc Hh].
  destruct (claim_cases uk tk) as [-> | [-> | H]]; [done | by apply exclusive_bit_uid |].
  by apply (claim_quiescent uk tk Hu Hc) in H.
Qed.

Lemma idle_words uids s :
  client_ids uids -> reachable uids s -> (forall i t, threads s !! i = Some t -> t = idle) ->
  n_ref_ (lock s) = 0 /\ uid_ (lock s) = 0.
Proof.
  intros (Hv & Hd & Hm) Hr Hq. pose proof (reachable_inv uids Hv Hd Hm s Hr) as Hinv. split.
  - rewrite (inv_refs uids s Hinv). generalize (threads s), Hq. clear.
    induction l as [|t l IH]; intros Hq; [done |]. simpl.
    rewrite (Hq 0%nat t eq_refl), IH; [done |]. intros i. apply (Hq (S i)).
  - destruct (inv_claimed uids s Hinv) as [? | (k & uk & tk & [_ Hk] & <-)]; [done |].
    by rewrite (Hq k tk Hk).
Qed.

Lemma exec_alone uids uid s i t c b t' q' :
  uids !! i = Some uid -> threads s !! i = Some t -> t_call t = Some c ->
  thread_step uid b c t (lock s) = (t', q') ->
  exec uids s (i, Run b) = Some (mkSystem q' (<[i := t']> (threads s))).
Proof. intros Hu Ht Hc Hs. unfold exec. rewrite Hu; simpl. rewrite Ht; simpl. by rewrite Hc, Hs. Qed.

Lemma exec_call uids uid s i t c :
  uids !! i = Some uid -> threads s !! i = Some t -> t_call t = None -> may_call t c = true ->
  exec uids s (i, Call c) =
    Some (mkSystem (lock s) (<[i := mkThread (t_held t) (t_upgrade t) (Some c)]> (threads s))).
Proof. intros Hu Ht Hc Hm. unfold exec. rewrite Hu; simpl. rewrite Ht; simpl. by rewrite Hc, Hm. Qed.

Lemma schedule_alone uids uid s i t c1 c2 c3 b1 b2 b3 q1 q2 err q3 :
  uids !! i = Some uid -> threads s !! i = Some t -> t_call t = None -> may_call t c1 = true ->
  call_step uid b1 c1 (lock s) = Goes c2 q1 -> call_step uid b2 c2 q1 = Goes c3 q2 ->
  call_step uid b3 c3 q2 = Returns err q3 ->
  schedule uids s (alone i c1 [b1; b2; b3]) =
    Some (mkSystem q3 (<[i := finish c3 err (mkThread (t_held t) (t_upgrade t) (Some c3))]> (threads s))).
Proof.
  intros Hu Ht Hc Hm H1 H2 H3. unfold alone. cbn [fmap list_fmap schedule].
  rewrite (exec_call uids uid s i t c1), bind_some by done.
  assert (Hl : (i < length (threads s))%nat) by (by eapply lookup_lt_Some).
  assert (Hi : forall x, <[i := x]> (threads s) !! i = Some x) by (intros x; by apply list_lookup_insert_eq).
  erewrite exec_alone; [| done | apply Hi | done | by unfold thread_step; cbn [lock]; rewrite H1].
  rewrite bind_some. cbn [threads]. rewrite list_insert_insert_eq.
  erewrite exec_alone; [| done | apply Hi | done | by unfold thread_step; cbn [lock]; rewrite H2].
  rewrite bind_some. cbn [threads]. rewrite list_insert_insert_eq.
  erewrite exec_alone; [| done | apply Hi | done | by unfold thread_step; cbn [lock]; rewrite H3].
  rewrite bind_some. cbn [threads]. by rewrite list_insert_insert_eq.
Qed.

(** C18: the lock is never left behind: in every reachable state in which no call
    is under way, however the earlier calls ended, a thread that does not hold
    the lock obtains it shared within three accesses when no thread holds it
    exclusively, and exclusively within three accesses when no thread holds it or
    an upgrade intention, whether it asks with or without waiting and whatever
    the deadline. *)
Theorem free_lock_obtained uids s i t b1 b2 b3 :
  client_ids uids -> reachable uids s -> threads s !! i = Some t -> t_held t = Free ->
  (forall j tj, threads s !! j = Some tj -> t_call tj = None /\ t_held tj <> Exclusive) ->
  (forall c, c = C_shared_lock TS_check \/ c = C_try_shared_lock TS_check -> exists s',
     schedule uids s (alone i c [b1; b2; b3]) = Some s' /\
     threads s' = <[i := mkThread Shared (t_upgrade t) None]> (threads s)) /\
  ((forall j tj, threads s !! j = Some tj -> tj = idle) ->
   forall c, c = C_exclusive_lock XL_cas \/ c = C_try_exclusive_lock TX_check -> exists s',
     schedule uids s (alone i c [b1; b2; b3]) = Some s' /\
     threads s' = <[i := mkThread Exclusive false None]> (threads s)).
Proof.
  intros Hids Hr Ht Hfree Hq. pose proof Hids as (Hv & Hd & Hm).
  pose proof (reachable_inv uids Hv Hd Hm s Hr) as Hinv.
  destruct (inv_thread_at uids s i t Hinv Ht) as [uid [Hu _]].
  assert (Hvu : valid_uid uid) by (by eapply thread_at_valid; [| split]).
  destruct (Hq i t Ht) as [Hc _]. pose proof (quiescent_not_exclusive uids s Hids Hr Hq) as Hx.
  split.
  - intros c [-> | ->]; (eexists; split;
      [eapply schedule_alone; try done;
        [by unfold may_call; rewrite Hfree
        | by simpl; unfold shared_lock, try_shared_lock; rewrite Hx; simpl
        | reflexivity | by simpl; unfold shared_lock, try_shared_lock; simpl; rewrite Hx; simpl] | done]).
  - intros Hidle. assert (t = idle) as -> by eauto.
    destruct (idle_words uids s Hids Hr Hidle) as [Hn H0].
    assert (Hz : (uid =? 0) = false) by (destruct Hvu; lia).
    intros c [-> | ->]; eexists.
    + split; [eapply (schedule_alone uids uid s i idle); try done |]; simpl.
      * unfold exclusive_lock, cas_uid. by rewrite valid_uid_accepted, Hz, H0 by done.
      * simpl. unfold wait_shared_lock_release. simpl. by rewrite word_mask, Z.eqb_refl by done.
      * simpl. unfold wait_shared_lock_release. simpl. by rewrite Hn.
      * done.
    + split; [eapply (schedule_alone uids uid s i idle); try done |]; simpl.
      * unfold try_exclusive_lock. by rewrite valid_uid_accepted, Hn by done.
      * simpl. unfold cas_uid. by rewrite H0.
      * simpl. by rewrite Hn.
      * done.
Qed.

Lemma free_lock_obtained_witness :
  exists s, schedule [1; 2] (start [1; 2]) (timed_out ++ alone 1 C_shared_unlock [false]) = Some s /\
  exists s', schedule [1; 2] s (alone 0 (C_exclusive_lock XL_cas) [true; true; true]) = Some s' /\
    threads s' = [mkThread Exclusive false None; idle].
Proof.
  after (timed_out ++ alone 1 C_shared_unlock [false]).
  destruct (free_lock_obtained _ _ 0 idle true true true two_clients Hr eq_refl eq_refl) as [_ H].
  - intros [|[|i]] t Ht; simpl in Ht; by simplify_eq.
  - destruct (H ltac:(intros [|[|i]] t Ht; simpl in Ht; by simplify_eq) _ (or_introl eq_refl)) as (s' & Hs' & Ht').
    exists s'. split; [exact Hs' | exact Ht'].
Defined.

(** C17: no deadlock: in every reachable state in which some call is under way
    and no thread outside of a call holds the lock, there is a continuation,
    without timeouts and without new calls, in which one of the calls returns,
    with success or with an error code.  In particular two readers that both
    upgrade do not wait for each other. *)
Theorem qlock_deadlock_free uids s :
  client_ids uids -> reachable uids s -> idle_free s ->
  (exists i t, threads s !! i = Some t /\ t_call t <> None) ->
  returns uids s.
Proof. intros (Hv & Hd & Hm) Hr. apply inv_returns; try done. by apply reachable_inv. Qed.

(** Two readers, both past their checks, both upgrading. *)
Definition both_upgrade : list (nat * event) :=
  [(0, Call (C_shared_lock TS_check)); (0, Run false); (0, Run false); (0, Run false);
   (1, Call (C_shared_lock TS_check)); (1, Run false); (1, Run false); (1, Run false);
   (0, Call (C_share2exclusive_lock SX_load)); (0, Run false);
   (1, Call (C_share2exclusive_lock SX_load)); (1, Run false);
   (0, Run false); (1, Run false); (0, Run false)]%nat.

Lemma qlock_deadlock_free_witness :
  exists s, schedule [1; 2] (start [1; 2]) both_upgrade = Some s /\
  t_call <$> threads s !! 0%nat = Some (Some (C_share2exclusive_lock (SX_wait 0 TW_uid))) /\
  t_call <$> threads s !! 1%nat = Some (Some (C_share2exclusive_lock SX_load)) /\
  returns [1; 2] s.
Proof.
  after both_upgrade. split; [done |]. split; [done |].
  apply (qlock_deadlock_free _ _ two_clients Hr).
  - intros [|[|i]] t Ht; simpl in Ht; by simplify_eq.
  - eexists 0%nat, _. by split.
Defined.

(** C38: the exclusion needs distinct user ids: with one user id in two threads,
    a [try_upgrade_unlock] that has passed its check resets the word of the
    exclusive owner, and both threads come to hold the lock exclusively. *)
Theorem same_uid_breaks_exclusion :
  exists s, reachable [1; 1] s /\
  t_held <$> threads s !! 0%nat = Some Exclusive /\
  t_held <$> threads s !! 1%nat = Some Exclusive.
Proof.
  set (es := [(0, Call C_try_upgrade_lock); (0, Run false);
    (0, Call (C_try_upgrade_unlock UU_check)); (0, Run false);
    (1, Call (C_shared_lock TS_check)); (1, Run false); (1, Run false); (1, Run false);
    (1, Call (C_share2exclusive_lock SX_load)); (1, Run false); (1, Run false);
    (1, Run false); (1, Run false); (1, Run false);
    (0, Run false);
    (0, Call (C_exclusive_lock XL_cas)); (0, Run false); (0, Run false); (0, Run false)]%nat).
  eexists. split; [apply (schedule_reachable _ es); by vm_compute |]. done.
Qed.

Lemma locked_elsewhere_spins fuel uid q :
  valid_uid uid -> uid_ q <> 0 -> exclusive_lock_alone fuel uid XL_cas q = None.
Proof.
  intros Hu Hq. induction fuel as [|fuel IH]; [done |]. simpl.
  rewrite valid_uid_accepted by done. pose proof Hu as [? _].
  unfold cas_uid. by destruct (Z.eqb_spec uid 0), (Z.eqb_spec (uid_ q) 0); simpl; try lia.
Qed.

(** the guard works on a copy of the lock: on a free lock any number of
    guards succeed at once, and on a lock another user holds the constructor
    never returns, since nobody can release the copy. *)
Theorem guard_locks_copy uid uid' :
  valid_uid uid -> valid_uid uid' -> uid <> uid' ->
  (forall fuel, (3 <= fuel)%nat ->
     QLockGuard_new fuel reset uid =
       Some (mkGuard true (mkQLock 0 (Z.lor uid EXCLUSIVE_BIT)) uid)) /\
  (forall fuel n, QLockGuard_new fuel (mkQLock n (Z.lor uid' EXCLUSIVE_BIT)) uid = None).
Proof.
  intros Hu Hu' Hne. pose proof Hu as [? _]. split.
  - intros fuel Hf. do 3 (destruct fuel as [|fuel]; [lia |]).
    unfold QLockGuard_new. simpl. unfold exclusive_lock. rewrite valid_uid_accepted by done.
    destruct (Z.eqb_spec uid 0); [lia |]. simpl. unfold wait_shared_lock_release. simpl.
    by rewrite word_mask, Z.eqb_refl.
  - intros fuel n. unfold QLockGuard_new, is_exclusive_locked_by. simpl.
    rewrite exclusive_bit_word, word_mask by done.
    destruct (Z.eqb_spec uid uid'); [done |]. simpl.
    by rewrite locked_elsewhere_spins by (done || apply word_nonzero, Hu').
Qed.

Lemma guard_locks_copy_witness : QLockGuard_new 5 (mkQLock 0 (Z.lor 2 EXCLUSIVE_BIT)) 1 = None.
Proof. by apply (guard_locks_copy 1 2). Defined.
