(* ===== verification/ObServer.v ===== *)
(** * Server addresses

    [common::ObServer] of [src/oceanbase/src/common/ob_server.h] and [.cpp]: the
    address, its reset and its equality, which is coarser than equality of the
    fields (the unused half of the address is not compared). *)

From S2P Require Import Prelude.

Abbreviation IPV4 := 4 (only parsing).
Abbreviation IPV6 := 6 (only parsing).

Record ObServer := mkServer { version_ : Z; port_ : Z; v4_ : Z; v6_ : list Z }.

Definition ObServer_new : ObServer := mkServer IPV4 0 0 (replicate 4 0xA6A6A6A6).

Definition server_reset (s : ObServer) : ObServer := mkServer (version_ s) 0 0 (replicate 4 0).

Definition server_eqb (s rv : ObServer) : bool :=
  if negb (version_ s =? version_ rv) then false
  else if negb (port_ s =? port_ rv) then false
  else if version_ s =? IPV4 then v4_ s =? v4_ rv
  else if version_ s =? IPV6 then bool_decide (v6_ s = v6_ rv)
  else true.

(** The relation [==] decides. *)
Definition same_server (s rv : ObServer) : Prop := server_eqb s rv = true.

#[export] Instance same_server_decision s rv : Decision (same_server s rv).
Proof. unfold same_server. apply _. Defined.

(** What [==] compares. *)
Definition server_key (s : ObServer) : Z * Z * (Z + list Z + unit) :=
  (version_ s, port_ s,
   if version_ s =? IPV4 then inl (inl (v4_ s))
   else if version_ s =? IPV6 then inl (inr (v6_ s)) else inr tt).

Lemma server_eqb_key s rv : server_eqb s rv = true <-> server_key s = server_key rv.
Proof.
  unfold server_eqb, server_key.
  destruct (Z.eqb_spec (version_ s) (version_ rv)) as [Hv|Hv]; cbn [negb];
    [|split; [discriminate|congruence]].
  destruct (Z.eqb_spec (port_ s) (port_ rv)) as [Hp|Hp]; cbn [negb];
    [|split; [discriminate|congruence]].
  rewrite <- Hv, <- Hp.
  destruct (version_ s =? 4); [rewrite Z.eqb_eq; split; congruence|].
  destruct (version_ s =? 6); [rewrite bool_decide_eq_true; split; congruence|done].
Qed.

#[export] Instance same_server_equivalence : Equivalence same_server.
Proof.
  unfold same_server. split.
  - intros s. by apply server_eqb_key.
  - intros s t. rewrite !server_eqb_key. done.
  - intros s t u. rewrite !server_eqb_key. congruence.
Qed.

#[export] Instance server_eqb_proper : Proper (same_server ==> same_server ==> eq) server_eqb.
Proof.
  intros s s' Hs t t' Ht. apply eq_true_iff_eq.
  unfold same_server in *. rewrite !server_eqb_key in *. split; congruence.
Qed.
