(* ===== verification/ObUpsManager.v ===== *)
(** * The update server manager

    [rootserver::ObUpsManager] of [src/oceanbase/src/rootserver/ob_ups_manager.h]
    and [.cpp]: the root server's table of update servers, the leases it grants
    them, the choice of the master and the shares of the reads.  Every locked
    section of a call is one definition on the manager; the clock
    ([CTimeUtil::getTime]) and the answers of the remote calls are arguments.
    Times and durations are microseconds in [Z]: their sums stay far from the
    bounds of int64_t.  [queue_] holds the tasks handed to the queue ([None]: no
    queue); what its push returns is only logged. *)

From S2P Require Import Prelude ObServer.
From stdpp Require Import strings.
#[local] Open Scope Z_scope.

Abbreviation OB_RESPONSE_TIME_OUT := (-12) (only parsing).
Abbreviation OB_CONFLICT_VALUE := (-21) (only parsing).
Abbreviation OB_NOT_REGISTERED := (-48) (only parsing).
Abbreviation OB_ALREADY_REGISTERED := (-51) (only parsing).
Abbreviation OB_UPS_MASTER_EXISTS := (-115) (only parsing).
Abbreviation OB_SERVER_VERSION_LENGTH := 64%nat (only parsing).
Abbreviation OB_MAX_UPS_LEASE_DURATION_US := (2 ^ 63 - 1) (only parsing).
Abbreviation MAX_CLOCK_SKEW_US := 200000 (only parsing).
Abbreviation MAX_UPS_COUNT := 17%nat (only parsing).
Abbreviation LIST_MAX_UPS_COUNT := 8%nat (only parsing).

(** ** Data *)

Inductive ObUpsStatus := UPS_STAT_OFFLINE | UPS_STAT_NOTSYNC | UPS_STAT_SYNC | UPS_STAT_MASTER.

#[export] Instance ObUpsStatus_eq_dec : EqDecision ObUpsStatus.
Proof. solve_decision. Defined.

Inductive Role := ROLE_MASTER | ROLE_SLAVE | ROLE_INIT.

#[export] Instance Role_eq_dec : EqDecision Role.
Proof. solve_decision. Defined.

Record ObUps := mkUps {
  addr_ : ObServer; inner_port_ : Z; stat_ : ObUpsStatus; obi_role_ : Role;
  log_seq_num_ : Z; lease_ : Z; ms_read_percentage_ : Z; cs_read_percentage_ : Z;
  did_renew_received_ : bool }.

Definition ObUps_new : ObUps :=
  mkUps ObServer_new 0 UPS_STAT_OFFLINE ROLE_INIT 0 0 0 0 false.

Definition ups_reset (u : ObUps) : ObUps :=
  mkUps (server_reset (addr_ u)) 0 UPS_STAT_OFFLINE (obi_role_ u) 0 0 0 0 false.

Inductive ObTaskType := SERVER_OFFLINE | SERVER_ONLINE | ROLE_CHANGE.

Record ObSeqTask := mkTask {
  task_type_ : ObTaskType; task_server_ : ObServer; task_inner_port_ : Z;
  server_status_ : Z; server_version_ : string }.

Record ObMsgUpsHeartbeat := mkHeartbeat {
  ups_master_ : ObServer; self_lease_ : Z; hb_obi_role_ : Role;
  schema_version_ : Z; config_version_ : Z }.

Record ObUpsManager := mkManager {
  queue_ : option (list ObSeqTask);
  mgr_obi_role_ : Role;
  ups_array_ : list ObUps;
  lease_duration_us_ : Z;
  lease_reserved_us_ : Z;
  ups_master_idx_ : Z;
  waiting_ups_register_duration_ : Z;
  waiting_ups_finish_time_ : Z;
  mgr_schema_version_ : Z;
  mgr_config_version_ : Z;
  master_master_ups_read_percentage_ : Z;
  slave_master_ups_read_percentage_ : Z;
  is_flow_control_by_ip_ : bool }.

Definition ObUpsManager_new (lease_duration lease_reserved_us waiting_ups_register_duration : Z)
    (obi_role : Role) (schema_version config_version : Z) : ObUpsManager :=
  mkManager None obi_role (replicate MAX_UPS_COUNT ObUps_new) lease_duration lease_reserved_us
    (-1) waiting_ups_register_duration 0 schema_version config_version (-1) (-1) false.

(** Assignments to one member. *)
Definition with_queue (m : ObUpsManager) q : ObUpsManager :=
  mkManager q (mgr_obi_role_ m) (ups_array_ m) (lease_duration_us_ m) (lease_reserved_us_ m)
    (ups_master_idx_ m) (waiting_ups_register_duration_ m) (waiting_ups_finish_time_ m)
    (mgr_schema_version_ m) (mgr_config_version_ m) (master_master_ups_read_percentage_ m)
    (slave_master_ups_read_percentage_ m) (is_flow_control_by_ip_ m).
Definition with_array (m : ObUpsManager) a : ObUpsManager :=
  mkManager (queue_ m) (mgr_obi_role_ m) a (lease_duration_us_ m) (lease_reserved_us_ m)
    (ups_master_idx_ m) (waiting_ups_register_duration_ m) (waiting_ups_finish_time_ m)
    (mgr_schema_version_ m) (mgr_config_version_ m) (master_master_ups_read_percentage_ m)
    (slave_master_ups_read_percentage_ m) (is_flow_control_by_ip_ m).
Definition with_master (m : ObUpsManager) i : ObUpsManager :=
  mkManager (queue_ m) (mgr_obi_role_ m) (ups_array_ m) (lease_duration_us_ m) (lease_reserved_us_ m)
    i (waiting_ups_register_duration_ m) (waiting_ups_finish_time_ m)
    (mgr_schema_version_ m) (mgr_config_version_ m) (master_master_ups_read_percentage_ m)
    (slave_master_ups_read_percentage_ m) (is_flow_control_by_ip_ m).
Definition with_waiting (m : ObUpsManager) t : ObUpsManager :=
  mkManager (queue_ m) (mgr_obi_role_ m) (ups_array_ m) (lease_duration_us_ m) (lease_reserved_us_ m)
    (ups_master_idx_ m) (waiting_ups_register_duration_ m) t
    (mgr_schema_version_ m) (mgr_config_version_ m) (master_master_ups_read_percentage_ m)
    (slave_master_ups_read_percentage_ m) (is_flow_control_by_ip_ m).
Definition with_percentages (m : ObUpsManager) mm sm : ObUpsManager :=
  mkManager (queue_ m) (mgr_obi_role_ m) (ups_array_ m) (lease_duration_us_ m) (lease_reserved_us_ m)
    (ups_master_idx_ m) (waiting_ups_register_duration_ m) (waiting_ups_finish_time_ m)
    (mgr_schema_version_ m) (mgr_config_version_ m) mm sm (is_flow_control_by_ip_ m).
Definition with_flow (m : ObUpsManager) b : ObUpsManager :=
  mkManager (queue_ m) (mgr_obi_role_ m) (ups_array_ m) (lease_duration_us_ m) (lease_reserved_us_ m)
    (ups_master_idx_ m) (waiting_ups_register_duration_ m) (waiting_ups_finish_time_ m)
    (mgr_schema_version_ m) (mgr_config_version_ m) (master_master_ups_read_percentage_ m)
    (slave_master_ups_read_percentage_ m) b.
Definition with_role (m : ObUpsManager) r : ObUpsManager :=
  mkManager (queue_ m) r (ups_array_ m) (lease_duration_us_ m) (lease_reserved_us_ m)
    (ups_master_idx_ m) (waiting_ups_register_duration_ m) (waiting_ups_finish_time_ m)
    (mgr_schema_version_ m) (mgr_config_version_ m) (master_master_ups_read_percentage_ m)
    (slave_master_ups_read_percentage_ m) (is_flow_control_by_ip_ m).

Definition with_stat (u : ObUps) s : ObUps :=
  mkUps (addr_ u) (inner_port_ u) s (obi_role_ u) (log_seq_num_ u) (lease_ u)
    (ms_read_percentage_ u) (cs_read_percentage_ u) (did_renew_received_ u).
Definition with_lease (u : ObUps) l renewed : ObUps :=
  mkUps (addr_ u) (inner_port_ u) (stat_ u) (obi_role_ u) (log_seq_num_ u) l
    (ms_read_percentage_ u) (cs_read_percentage_ u) renewed.
Definition with_percent (u : ObUps) ms cs : ObUps :=
  mkUps (addr_ u) (inner_port_ u) (stat_ u) (obi_role_ u) (log_seq_num_ u) (lease_ u)
    ms cs (did_renew_received_ u).
Definition with_lsn (u : ObUps) lsn : ObUps :=
  mkUps (addr_ u) (inner_port_ u) (stat_ u) (obi_role_ u) lsn (lease_ u)
    (ms_read_percentage_ u) (cs_read_percentage_ u) (did_renew_received_ u).
Definition with_obi_role (u : ObUps) r : ObUps :=
  mkUps (addr_ u) (inner_port_ u) (stat_ u) r (log_seq_num_ u) (lease_ u)
    (ms_read_percentage_ u) (cs_read_percentage_ u) (did_renew_received_ u).

(** [ups_array_[i]] and an assignment to it. *)
Definition slot (m : ObUpsManager) (i : Z) : ObUps := zget ObUps_new (ups_array_ m) i.
Definition with_slot (m : ObUpsManager) (i : Z) (u : ObUps) : ObUpsManager :=
  with_array m (zset (ups_array_ m) i u).

Definition offline (u : ObUps) : bool := bool_decide (stat_ u = UPS_STAT_OFFLINE).
Definition has_stat (s : ObUpsStatus) (u : ObUps) : bool := bool_decide (stat_ u = s).

(** ** Lookups *)

Fixpoint find_from (addr : ObServer) (i : Z) (l : list ObUps) : Z :=
  match l with
  | [] => -1
  | u :: l => if server_eqb (addr_ u) addr && negb (offline u) then i else find_from addr (i + 1) l
  end.

Definition find_ups_index (addr : ObServer) (m : ObUpsManager) : Z :=
  find_from addr 0 (ups_array_ m).

Definition did_ups_exist (addr : ObServer) (m : ObUpsManager) : bool :=
  negb (-1 =? find_ups_index addr m).

Definition is_ups_master (addr : ObServer) (m : ObUpsManager) : bool :=
  let i := find_ups_index addr m in
  if negb (-1 =? i) then has_stat UPS_STAT_MASTER (slot m i) else false.

Definition is_idx_valid (ups_idx : Z) : bool := (0 <=? ups_idx) && (ups_idx <? Z.of_nat MAX_UPS_COUNT).

Definition has_master (m : ObUpsManager) : bool :=
  (ups_master_idx_ m <? Z.of_nat MAX_UPS_COUNT) && (0 <=? ups_master_idx_ m).

Definition is_master_lease_valid (now : Z) (m : ObUpsManager) : bool :=
  if has_master m then now <? lease_ (slot m (ups_master_idx_ m)) else false.

Definition count (p : ObUps -> bool) (m : ObUpsManager) : Z :=
  Z.of_nat (length (List.filter p (ups_array_ m))).

Definition get_active_ups_count : ObUpsManager -> Z :=
  count (fun u => negb (offline u) && negb (has_stat UPS_STAT_NOTSYNC u)).

Definition get_ups_count : ObUpsManager -> Z := count (fun u => negb (offline u)).

Definition get_ups_master (m : ObUpsManager) : Z * option ObUps :=
  if has_master m then (OB_SUCCESS, Some (slot m (ups_master_idx_ m)))
  else (OB_ENTRY_NOT_EXIST, None).

(** ** Changes *)

Definition change_ups_stat (index : Z) (new_stat : ObUpsStatus) (m : ObUpsManager) : ObUpsManager :=
  with_slot m index (with_stat (slot m index) new_stat).

Definition refresh_inner_table (type : ObTaskType) (ups : ObUps) (server_version : string)
    (m : ObUpsManager) : ObUpsManager :=
  match queue_ m with
  | None => m
  | Some tasks =>
      let version :=
        if (String.length server_version <? OB_SERVER_VERSION_LENGTH)%nat then server_version
        else String.substring 0 (OB_SERVER_VERSION_LENGTH - 1) server_version in
      let status := if has_stat UPS_STAT_MASTER ups then 1 else 2 in
      with_queue m (Some (tasks ++ [mkTask type (addr_ ups) (inner_port_ ups) status version]))
  end.

(** The percentages of the master and of a slave in sync. *)
Definition read_percents (m : ObUpsManager) : Z * Z :=
  let ups_count := get_active_ups_count m in
  let master_read_percent := 100 in
  let slave_read_percent := 0 in
  if ups_count <? 1 then (master_read_percent, slave_read_percent)
  else if ups_count =? 1 then (100, 100)
  else
    let master_role := bool_decide (mgr_obi_role_ m = ROLE_MASTER) in
    if (-1 =? ups_master_idx_ m)
       || (master_role && (-1 =? master_master_ups_read_percentage_ m))
       || (negb master_role && (-1 =? slave_master_ups_read_percentage_ m))
    then (Z.quot 100 ups_count, Z.quot 100 ups_count)
    else
      let master_read_percent :=
        if master_role then master_master_ups_read_percentage_ m
        else slave_master_ups_read_percentage_ m in
      (master_read_percent, Z.quot (100 - master_read_percent) (ups_count - 1)).

Definition share (master_read_percent slave_read_percent : Z) (u : ObUps) : ObUps :=
  match stat_ u with
  | UPS_STAT_SYNC => with_percent u slave_read_percent slave_read_percent
  | UPS_STAT_MASTER => with_percent u master_read_percent master_read_percent
  | UPS_STAT_OFFLINE | UPS_STAT_NOTSYNC => with_percent u 0 0
  end.

Definition reset_ups_read_percent (m : ObUpsManager) : ObUpsManager :=
  let '(master_read_percent, slave_read_percent) := read_percents m in
  with_flow (with_array m (share master_read_percent slave_read_percent <$> ups_array_ m)) false.

(** The first slot that is offline. *)
Fixpoint free_from (i : Z) (l : list ObUps) : option Z :=
  match l with
  | [] => None
  | u :: l => if offline u then Some i else free_from (i + 1) l
  end.

Definition register_ups (addr : ObServer) (inner_port log_seq_num lease : Z)
    (server_version : string) (now : Z) (m : ObUpsManager) : Z * ObUpsManager :=
  if did_ups_exist addr m then (OB_ALREADY_REGISTERED, m)
  else match free_from 0 (ups_array_ m) with
  | None => (OB_SIZE_OVERFLOW, m)
  | Some i =>
      let m := if 0 =? waiting_ups_finish_time_ m
               then with_waiting m (now + waiting_ups_register_duration_ m) else m in
      let u := slot m i in
      let m := with_slot m i (mkUps addr inner_port (stat_ u) (obi_role_ u) log_seq_num
                                (now + lease_duration_us_ m) 0 0 true) in
      let m := refresh_inner_table SERVER_ONLINE (slot m i) server_version m in
      let '(ret, m) :=
        if now <? lease then
          if has_master m then (OB_CONFLICT_VALUE, m)
          else
            let m := with_master (change_ups_stat i UPS_STAT_MASTER m) i in
            let m := refresh_inner_table ROLE_CHANGE (slot m (ups_master_idx_ m)) "null" m in
            (OB_SUCCESS, with_waiting m (-1))
        else (OB_SUCCESS, change_ups_stat i UPS_STAT_NOTSYNC m) in
      (ret, reset_ups_read_percent m)
  end.

Definition slave_stat (s : ObUpsStatus) : bool :=
  bool_decide (s = UPS_STAT_SYNC) || bool_decide (s = UPS_STAT_NOTSYNC).

Definition renew_lease (addr : ObServer) (stat : ObUpsStatus) (obi_role : Role)
    (m : ObUpsManager) : Z * ObUpsManager :=
  let i := find_ups_index addr m in
  if -1 =? i then (OB_SUCCESS, m)
  else
    let m := with_slot m i (with_lease (slot m i) (lease_ (slot m i)) true) in
    let m :=
      if slave_stat stat && slave_stat (stat_ (slot m i)) && negb (has_stat stat (slot m i)) then
        let m := change_ups_stat i stat m in
        if is_flow_control_by_ip_ m then m else reset_ups_read_percent m
      else m in
    let m := if bool_decide (obi_role = ROLE_INIT) then m
             else with_slot m i (with_obi_role (slot m i) obi_role) in
    (OB_SUCCESS, m).

Definition slave_failure (addr slave_addr : ObServer) (m : ObUpsManager) : Z * ObUpsManager :=
  if negb (is_ups_master addr m) then (OB_NOT_REGISTERED, m)
  else
    let i := find_ups_index slave_addr m in
    if -1 =? i then (OB_ENTRY_NOT_EXIST, m)
    else
      let m := change_ups_stat i UPS_STAT_OFFLINE m in
      let ups := slot m i in
      (OB_SUCCESS, refresh_inner_table SERVER_OFFLINE ups "null" (reset_ups_read_percent m)).

(** ** Leases *)

Definition need_grant (m : ObUpsManager) (now : Z) (ups : ObUps) : bool :=
  did_renew_received_ ups && (lease_ ups - lease_reserved_us_ m <? now) && (now <? lease_ ups).

Definition granting_msg (m : ObUpsManager) (self_lease : Z) : ObMsgUpsHeartbeat :=
  mkHeartbeat (if has_master m then addr_ (slot m (ups_master_idx_ m)) else ObServer_new)
    self_lease (mgr_obi_role_ m) (mgr_schema_version_ m) (mgr_config_version_ m).

Definition grants (did_force : bool) (now : Z) (m : ObUpsManager) (u : ObUps) : bool :=
  negb (offline u) && (need_grant m now u || did_force).

(** The messages sent, with their receivers; what the sending returns is only
    logged. *)
Definition grant_lease (did_force : bool) (now : Z) (m : ObUpsManager)
    : ObUpsManager * list (ObServer * ObMsgUpsHeartbeat) :=
  let lease := now + lease_duration_us_ m in
  (with_array m ((fun u => if grants did_force now m u then with_lease u lease false else u)
                   <$> ups_array_ m),
   (fun u => (addr_ u, granting_msg m lease)) <$> List.filter (grants did_force now m) (ups_array_ m)).

Definition grant_eternal_lease (m : ObUpsManager) : list (ObServer * ObMsgUpsHeartbeat) :=
  (fun u => (addr_ u, granting_msg m OB_MAX_UPS_LEASE_DURATION_US))
    <$> List.filter (fun u => negb (offline u)) (ups_array_ m).

(** ** The choice of a master *)

(** The loop over the slots from [i] on: the highest log sequence number of a
    server that is not offline and its slot. *)
Fixpoint highest_from (i : Z) (l : list ObUps) (highest_lsn master_idx : Z) : Z * Z :=
  match l with
  | [] => (highest_lsn, master_idx)
  | u :: l =>
      if negb (offline u) && (highest_lsn <? log_seq_num_ u)
      then highest_from (i + 1) l (log_seq_num_ u) i
      else highest_from (i + 1) l highest_lsn master_idx
  end.

Definition select_ups_master_with_highest_lsn (m : ObUpsManager) : Z * ObUpsManager :=
  if negb (-1 =? ups_master_idx_ m) then (OB_UPS_MASTER_EXISTS, m)
  else
    let '(_, master_idx) := highest_from 0 (ups_array_ m) (-1) (-1) in
    if -1 =? master_idx then (OB_ERROR, m)
    else
      let m := with_master (change_ups_stat master_idx UPS_STAT_MASTER m) master_idx in
      let m := refresh_inner_table ROLE_CHANGE (slot m (ups_master_idx_ m)) "null" m in
      (OB_SUCCESS, reset_ups_read_percent m).

(** [max_log_seq] is what [get_ups_max_log_seq] answers for each server, [None]
    for a failed call. *)
Definition update_ups_lsn (max_log_seq : ObServer -> option Z) (m : ObUpsManager) : ObUpsManager :=
  with_array m
    ((fun u => if offline u then u
               else match max_log_seq (addr_ u) with
                    | None => u
                    | Some lsn => with_lsn u (int64 lsn)
                    end) <$> ups_array_ m).

Definition select_new_ups_master (max_log_seq : ObServer -> option Z) (now : Z) (m : ObUpsManager)
    : Z * ObUpsManager :=
  if (-1 =? ups_master_idx_ m) && negb (is_master_lease_valid now m)
  then select_ups_master_with_highest_lsn (update_ups_lsn max_log_seq m)
  else (OB_ERROR, m).

Definition check_all_ups_offline (m : ObUpsManager) : ObUpsManager :=
  if forallb offline (ups_array_ m) then with_waiting m 0 else m.

Definition check_ups_master_exist (max_log_seq : ObServer -> option Z) (now : Z) (m : ObUpsManager)
    : Z * ObUpsManager :=
  if 0 <? waiting_ups_finish_time_ m then
    if waiting_ups_finish_time_ m <? now then
      let '(ret, m) := select_ups_master_with_highest_lsn m in
      if ret =? OB_SUCCESS then (ret, with_waiting m (-1))
      else if ret =? OB_UPS_MASTER_EXISTS then (ret, with_waiting m (-1))
      else (ret, m)
    else (OB_SUCCESS, m)
  else if waiting_ups_finish_time_ m <? 0 then select_new_ups_master max_log_seq now m
  else (OB_SUCCESS, m).

(** One round of the loop of [check_lease], which locks for each slot. *)
Definition check_lease_slot (i now : Z) (m : ObUpsManager) (did_select_new_master : bool)
    : ObUpsManager * bool :=
  if negb (offline (slot m i)) && (lease_ (slot m i) + MAX_CLOCK_SKEW_US <? now) then
    let '(m, did_select_new_master) :=
      if has_stat UPS_STAT_MASTER (slot m i) then (with_master m (-1), true)
      else (m, did_select_new_master) in
    let m := change_ups_stat i UPS_STAT_OFFLINE (reset_ups_read_percent m) in
    let ups := slot m i in
    let m := check_all_ups_offline (with_slot m i (ups_reset (slot m i))) in
    (refresh_inner_table SERVER_OFFLINE ups "null" m, did_select_new_master)
  else (m, did_select_new_master).

(** [revoked] is what [revoke_ups_lease] answers, [now2] the time after it. *)
Definition revoke_master_lease (now revoked now2 : Z) (m : ObUpsManager) : Z * ObUpsManager :=
  if has_master m then
    let idx := ups_master_idx_ m in
    let '(waiting_lease_us, m) :=
      if is_master_lease_valid now m then
        let master_lease := lease_ (slot m idx) in
        if negb (revoked =? OB_SUCCESS) && (now2 <? master_lease)
        then (master_lease - now2, with_waiting m 0)
        else (0, m)
      else (0, m) in
    let m := change_ups_stat idx UPS_STAT_SYNC m in
    let m := refresh_inner_table ROLE_CHANGE (slot m idx) "null" m in
    (waiting_lease_us, with_master m (-1))
  else (0, m).

Definition is_ups_with_highest_lsn (max_log_seq : ObServer -> option Z) (ups_idx : Z)
    (m : ObUpsManager) : bool * ObUpsManager :=
  if is_idx_valid ups_idx then
    let m := update_ups_lsn max_log_seq m in
    let '(highest_lsn, _) := highest_from 0 (ups_array_ m) (-1) (-1) in
    (highest_lsn =? log_seq_num_ (slot m ups_idx), m)
  else (false, m).

(** The first locked section of [set_ups_master]: the code, the slot, the time
    to wait. *)
Definition set_ups_master_revoke (max_log_seq : ObServer -> option Z) (now revoked now2 : Z)
    (master : ObServer) (did_force : bool) (m : ObUpsManager) : Z * Z * Z * ObUpsManager :=
  let i := find_ups_index master m in
  if negb (is_idx_valid i) then (OB_NOT_REGISTERED, i, 0, m)
  else if has_stat UPS_STAT_MASTER (slot m i) then (OB_INVALID_ARGUMENT, i, 0, m)
  else
    let '(behind, m) :=
      if negb (has_stat UPS_STAT_SYNC (slot m i)) then (true, m)
      else let '(highest, m) := is_ups_with_highest_lsn max_log_seq i m in (negb highest, m) in
    if behind && negb did_force then (OB_INVALID_ARGUMENT, i, 0, m)
    else let '(waiting_lease_us, m) := revoke_master_lease now revoked now2 m in
         (OB_SUCCESS, i, waiting_lease_us, m).

(** The second one, after the wait; a new master is notified by
    [grant_lease true] after it. *)
Definition set_ups_master_select (max_log_seq : ObServer -> option Z) (now : Z) (i : Z)
    (master : ObServer) (did_force : bool) (m : ObUpsManager) : Z * bool * ObUpsManager :=
  let '(ready, m) :=
    if has_stat UPS_STAT_SYNC (slot m i)
    then is_ups_with_highest_lsn max_log_seq i m else (false, m) in
  if (ready || did_force) && server_eqb master (addr_ (slot m i))
     && negb (is_master_lease_valid now m) then
    let m := with_master (change_ups_stat i UPS_STAT_MASTER m) i in
    let m := refresh_inner_table ROLE_CHANGE (slot m (ups_master_idx_ m)) "null" m in
    (OB_SUCCESS, true, reset_ups_read_percent (with_waiting m (-1)))
  else (OB_CONFLICT_VALUE, false, with_waiting m (-1)).

(** ** Configuration and lists *)

Definition bad_percentage (p : Z) : bool := negb (-1 =? p) && ((p <? 0) || (100 <? p)).

(** The two members are set before the lock is taken. *)
Definition set_ups_config (master_master slave_master : Z) (m : ObUpsManager) : Z * ObUpsManager :=
  if bad_percentage master_master then (OB_INVALID_ARGUMENT, m)
  else if bad_percentage slave_master then (OB_INVALID_ARGUMENT, m)
  else (OB_SUCCESS, reset_ups_read_percent (with_percentages m master_master slave_master)).

Definition get_master_ups_config (m : ObUpsManager) : Z * Z :=
  (master_master_ups_read_percentage_ m, slave_master_ups_read_percentage_ m).

Definition set_ups_config_by_addr (addr : ObServer) (ms_read_percentage cs_read_percentage : Z)
    (m : ObUpsManager) : Z * ObUpsManager :=
  if (ms_read_percentage <? 0) || (100 <? ms_read_percentage) then (OB_INVALID_ARGUMENT, m)
  else if (cs_read_percentage <? 0) || (100 <? cs_read_percentage) then (OB_INVALID_ARGUMENT, m)
  else
    let m := with_flow m true in
    let i := find_ups_index addr m in
    if -1 =? i then (OB_ENTRY_NOT_EXIST, m)
    else (OB_SUCCESS, with_slot m i (with_percent (slot m i) ms_read_percentage cs_read_percentage)).

Record ObUpsInfo := mkUpsInfo {
  info_addr_ : ObServer; info_inner_port_ : Z; info_master_ : bool;
  info_ms_read_percentage_ : Z; info_cs_read_percentage_ : Z }.

Definition convert_to (u : ObUps) : ObUpsInfo :=
  mkUpsInfo (addr_ u) (inner_port_ u) (has_stat UPS_STAT_MASTER u)
    (int8 (ms_read_percentage_ u)) (int8 (cs_read_percentage_ u)).

Definition get_ups_list (m : ObUpsManager) : list ObUpsInfo :=
  take LIST_MAX_UPS_COUNT
    (convert_to <$> List.filter
       (fun u => negb (offline u)
                 && (is_flow_control_by_ip_ m || negb (has_stat UPS_STAT_NOTSYNC u)))
       (ups_array_ m)).

(** One turn of the loop of [send_obi_role] in its lock: the result it breaks
    with, [None] to go on. *)
Definition send_obi_role_poll (m : ObUpsManager) : option Z :=
  if has_master m then
    if bool_decide (mgr_obi_role_ m = obi_role_ (slot m (ups_master_idx_ m)))
    then Some OB_SUCCESS else None
  else Some OB_SUCCESS.

(** ** The shares of the reads *)

Definition total (share_of : ObUps -> Z) (m : ObUpsManager) : Z :=
  foldr (fun u acc => share_of u + acc) 0 (ups_array_ m).

Lemma filter_stat s u l :
  Z.of_nat (length (List.filter (has_stat s) (u :: l)))
  = (if decide (stat_ u = s) then 1 else 0) + Z.of_nat (length (List.filter (has_stat s) l)).
Proof.
  cbn [List.filter]. change (has_stat s u) with (bool_decide (stat_ u = s)).
  case_bool_decide; case_decide; try done; cbn [length]; lia.
Qed.

Lemma shares_total p q l :
  foldr (fun u acc => ms_read_percentage_ u + acc) 0 (share p q <$> l)
  = p * Z.of_nat (length (List.filter (has_stat UPS_STAT_MASTER) l))
    + q * Z.of_nat (length (List.filter (has_stat UPS_STAT_SYNC) l)).
Proof.
  induction l as [|u l IH]; [cbn; lia|]. rewrite fmap_cons, !filter_stat. cbn [foldr].
  rewrite IH. unfold share.
  destruct (stat_ u); repeat case_decide; simplify_eq; cbn [ms_read_percentage_ with_percent]; lia.
Qed.

Lemma active_split l :
  Z.of_nat (length (List.filter (fun u => negb (offline u) && negb (has_stat UPS_STAT_NOTSYNC u)) l))
  = Z.of_nat (length (List.filter (has_stat UPS_STAT_MASTER) l))
    + Z.of_nat (length (List.filter (has_stat UPS_STAT_SYNC) l)).
Proof.
  induction l as [|u l IH]; [done|]. rewrite !filter_stat. cbn [List.filter].
  change (offline u) with (bool_decide (stat_ u = UPS_STAT_OFFLINE)).
  change (has_stat UPS_STAT_NOTSYNC u) with (bool_decide (stat_ u = UPS_STAT_NOTSYNC)).
  destruct (stat_ u); repeat case_bool_decide; repeat case_decide; simplify_eq; cbn [length andb negb]; lia.
Qed.

Lemma quot_share a n : 0 <= a -> 1 <= n -> a - n < n * Z.quot a n <= a /\ 0 <= Z.quot a n <= a.
Proof.
  intros Ha Hn. rewrite Z.quot_div_nonneg by lia.
  pose proof (Z.div_mod a n). pose proof (Z.mod_pos_bound a n).
  assert (0 <= a / n) by (apply Z.div_pos; lia).
  assert (a / n <= a) by (apply Z.div_le_upper_bound; nia). lia.
Qed.

Lemma percentage_range p : bad_percentage p = false -> p = -1 \/ 0 <= p <= 100.
Proof. unfold bad_percentage. lia. Qed.

(** The two shares add up to at most 100 over the servers that are read, and to
    less than one percent of each below it. *)
Lemma read_percents_spec m k n :
  bad_percentage (master_master_ups_read_percentage_ m) = false ->
  bad_percentage (slave_master_ups_read_percentage_ m) = false ->
  get_active_ups_count m = k + n -> 0 <= n -> 1 <= k + n ->
  (ups_master_idx_ m = -1 -> k = 0) -> (ups_master_idx_ m <> -1 -> k = 1) ->
  let '(p, q) := read_percents m in
  100 - (k + n) < p * k + q * n <= 100 /\ 0 <= p <= 100 /\ 0 <= q <= 100.
Proof.
  intros Hmm%percentage_range Hsm%percentage_range Hc Hn Hpos Hno Hone.
  unfold read_percents. rewrite Hc. replace (k + n <? 1) with false by lia.
  destruct (Z.eqb_spec (k + n) 1) as [E1|E1]; [lia|].
  assert (100 - (k + n) < Z.quot 100 (k + n) * k + Z.quot 100 (k + n) * n <= 100 /\
    0 <= Z.quot 100 (k + n) <= 100) as Hq.
  { rewrite <- Z.mul_add_distr_l, Z.mul_comm. apply quot_share; lia. }
  destruct (Z.eqb_spec (-1) (ups_master_idx_ m)) as [E|E]; cbn [orb]; [lia|].
  assert (k = 1) as -> by (apply Hone; lia).
  assert (forall p, 0 <= p <= 100 -> 100 - (1 + n) < p * 1 + Z.quot (100 - p) (1 + n - 1) * n <= 100 /\
    0 <= p <= 100 /\ 0 <= Z.quot (100 - p) (1 + n - 1) <= 100) as Hp.
  { intros p Hp. replace (1 + n - 1) with n by lia. pose proof (quot_share (100 - p) n). lia. }
  case_bool_decide; cbn [andb negb orb].
  - destruct (Z.eqb_spec (-1) (master_master_ups_read_percentage_ m)); cbn [orb]; [lia|]. apply Hp. lia.
  - destruct (Z.eqb_spec (-1) (slave_master_ups_read_percentage_ m)); cbn [orb]; [lia|]. apply Hp. lia.
Qed.

(** C33: The shares of the reads.  After [reset_ups_read_percent] of a table whose
    index of the master is right, with percentages [set_ups_config] accepts, the
    shares of the servers that can be read add up to at most 100 percent and to
    less than one percent per server below that; servers that are offline or
    behind get nothing. *)
Theorem read_percent_bounds m :
  bad_percentage (master_master_ups_read_percentage_ m) = false ->
  bad_percentage (slave_master_ups_read_percentage_ m) = false ->
  count (has_stat UPS_STAT_MASTER) m = (if ups_master_idx_ m =? -1 then 0 else 1) ->
  1 <= get_active_ups_count m ->
  let m' := reset_ups_read_percent m in
  100 - get_active_ups_count m < total ms_read_percentage_ m' <= 100 /\
  forall u, u ∈ ups_array_ m' ->
    0 <= ms_read_percentage_ u <= 100 /\ cs_read_percentage_ u = ms_read_percentage_ u /\
    (stat_ u = UPS_STAT_OFFLINE \/ stat_ u = UPS_STAT_NOTSYNC -> ms_read_percentage_ u = 0).
Proof.
  intros Hmm Hsm Hmaster Hact. cbv zeta.
  assert (get_active_ups_count m
    = count (has_stat UPS_STAT_MASTER) m + count (has_stat UPS_STAT_SYNC) m) as Hsplit
    by (unfold get_active_ups_count, count; rewrite active_split; lia).
  pose proof (read_percents_spec m _ _ Hmm Hsm Hsplit) as H. unfold reset_ups_read_percent.
  destruct (read_percents m) as [p q]. destruct H as (Hsum & Hp & Hq);
    [unfold count; lia|lia|destruct (Z.eqb_spec (ups_master_idx_ m) (-1)); lia
    |destruct (Z.eqb_spec (ups_master_idx_ m) (-1)); lia|].
  split.
  - unfold total. cbn [ups_array_ with_flow with_array]. rewrite shares_total.
    fold (count (has_stat UPS_STAT_MASTER) m). fold (count (has_stat UPS_STAT_SYNC) m). lia.
  - intros u Hu. apply list_elem_of_fmap in Hu as (w & -> & _). unfold share.
    destruct (stat_ w) eqn:E; cbn; rewrite ?E; (split; [lia|]); (split; [done|]); intros [|]; done.
Qed.

Lemma read_percent_bounds_witness :
  let u n s := mkUps (mkServer 4 2700 n []) 2701 s ROLE_MASTER 10 9 0 0 true in
  let m := with_master (with_array (ObUpsManager_new 9 8 9 ROLE_MASTER 1 1)
             [u 1 UPS_STAT_SYNC; u 2 UPS_STAT_MASTER; u 3 UPS_STAT_SYNC; u 4 UPS_STAT_NOTSYNC]) 1 in
  total ms_read_percentage_ (reset_ups_read_percent m) = 99 /\
  100 - get_active_ups_count m < total ms_read_percentage_ (reset_ups_read_percent m) <= 100.
Proof.
  cbv zeta. split; [vm_compute; reflexivity|].
  refine (proj1 (read_percent_bounds _ _ _ _ _)); [reflexivity|reflexivity|reflexivity|].
  vm_compute. discriminate.
Defined.

(** [check_lease] computes the shares before it takes the server off: those of
    the others are the shares with it. *)
Example check_lease_stale_percent :
  let u n s l := mkUps (mkServer 4 2700 n []) 2701 s ROLE_MASTER 10 l 0 0 true in
  let m := with_master (with_array (ObUpsManager_new 9 8 9 ROLE_MASTER 1 1)
             [u 1 UPS_STAT_MASTER 900000; u 2 UPS_STAT_SYNC 9]) 0 in
  total ms_read_percentage_ (check_lease_slot 1 300000 m false).1 = 50.
Proof. vm_compute. reflexivity. Qed.

(** A master that reports itself as failed goes offline and stays the master of
    the index: no other is elected. *)
Example self_report_blocks_election :
  let u n s := mkUps (mkServer 4 2700 n []) 2701 s ROLE_MASTER 10 9 0 0 true in
  let m := with_waiting (with_master (with_array (ObUpsManager_new 9 8 9 ROLE_MASTER 1 1)
             [u 1 UPS_STAT_MASTER; u 2 UPS_STAT_SYNC]) 0) (-1) in
  let m' := (slave_failure (mkServer 4 2700 1 []) (mkServer 4 2700 1 []) m).2 in
  has_master m' = true /\ count (has_stat UPS_STAT_MASTER) m' = 0 /\
  forall f now, check_ups_master_exist f now m' = (OB_ERROR, m').
Proof.
  cbv zeta. split; [vm_compute; reflexivity|]. split; [vm_compute; reflexivity|].
  intros f now. vm_compute. reflexivity.
Qed.
