(* ===== verification/UpsManagerView.v ===== *)
(** * What the leases depend on

    The part of an [ObUpsManager] that the choice of the master and the leases
    depend on, and what each locked section of the manager does to it.  The
    percentages, log sequence numbers, queue and flags are left out: the
    sections that change only these leave the view alone. *)

From S2P Require Import Prelude ObServer ObUpsManager.
From stdpp Require Import strings.
#[local] Open Scope Z_scope.

Record slot_view := mkSlot { s_addr : ObServer; s_stat : ObUpsStatus; s_lease : Z }.

Record View := mkView {
  v_duration : Z; v_register_duration : Z; v_master : Z; v_finish : Z; v_slots : list slot_view }.

Definition slot_of (u : ObUps) : slot_view := mkSlot (addr_ u) (stat_ u) (lease_ u).

Definition view (m : ObUpsManager) : View :=
  mkView (lease_duration_us_ m) (waiting_ups_register_duration_ m) (ups_master_idx_ m)
    (waiting_ups_finish_time_ m) (slot_of <$> ups_array_ m).

(** Assignments to one part of a view. *)
Definition v_with_master (v : View) (i : Z) : View :=
  mkView (v_duration v) (v_register_duration v) i (v_finish v) (v_slots v).
Definition v_with_finish (v : View) (t : Z) : View :=
  mkView (v_duration v) (v_register_duration v) (v_master v) t (v_slots v).
Definition v_with_slots (v : View) (l : list slot_view) : View :=
  mkView (v_duration v) (v_register_duration v) (v_master v) (v_finish v) l.
Definition v_with_slot (v : View) (i : nat) (s : slot_view) : View :=
  v_with_slots v (<[i := s]> (v_slots v)).

Definition online (s : slot_view) : Prop := s_stat s <> UPS_STAT_OFFLINE.

#[export] Instance online_decision s : Decision (online s).
Proof. unfold online. apply _. Defined.

Lemma offline_spec u : offline u = negb (bool_decide (online (slot_of u))).
Proof. unfold offline, online. cbn. case_bool_decide; case_bool_decide; naive_solver. Qed.

(** ** Sections that leave the view alone, and assignments *)

Create Rewrite HintDb view.

Lemma view_refresh_inner_table t u s m : view (refresh_inner_table t u s m) = view m.
Proof. unfold refresh_inner_table. by destruct (queue_ m). Qed.

Lemma view_reset_ups_read_percent m : view (reset_ups_read_percent m) = view m.
Proof.
  unfold reset_ups_read_percent. destruct (read_percents m) as [p q]. unfold view. cbn. f_equal.
  rewrite <- list_fmap_compose. apply list_fmap_ext. intros _ u _. unfold share. cbn.
  by destruct u as [? ? [] ? ? ? ? ? ?].
Qed.

Lemma view_update_ups_lsn f m : view (update_ups_lsn f m) = view m.
Proof.
  unfold update_ups_lsn, view. cbn. f_equal.
  rewrite <- list_fmap_compose. apply list_fmap_ext. intros _ u _. cbn.
  destruct (offline u); [done|]. by destruct (f (addr_ u)).
Qed.

Lemma view_with_waiting m t : view (with_waiting m t) = v_with_finish (view m) t.
Proof. done. Qed.

Lemma view_with_master m i : view (with_master m i) = v_with_master (view m) i.
Proof. done. Qed.

Lemma view_with_slot m i u : 0 <= i ->
  view (with_slot m i u) = v_with_slot (view m) (Z.to_nat i) (slot_of u).
Proof.
  intros Hi. unfold with_slot, v_with_slot, view, zset, v_with_slots. cbn. f_equal.
  by rewrite list_fmap_insert.
Qed.

Lemma slot_lookup m i : slot m (Z.of_nat i) = default ObUps_new (ups_array_ m !! i).
Proof. unfold slot, zget. by rewrite Nat2Z.id. Qed.

Lemma view_slot m i s : v_slots (view m) !! i = Some s -> slot_of (slot m (Z.of_nat i)) = s.
Proof.
  rewrite slot_lookup. unfold view. cbn. rewrite list_lookup_fmap.
  destruct (ups_array_ m !! i); cbn; congruence.
Qed.

Lemma view_change_ups_stat m i s stat : v_slots (view m) !! i = Some s ->
  view (change_ups_stat (Z.of_nat i) stat m)
  = v_with_slot (view m) i (mkSlot (s_addr s) stat (s_lease s)).
Proof.
  intros Hs%view_slot. unfold change_ups_stat. rewrite view_with_slot by lia.
  rewrite Nat2Z.id. by subst s.
Qed.

Lemma view_slots_lookup m i s : v_slots (view m) !! i = Some s <->
  exists u, ups_array_ m !! i = Some u /\ s = slot_of u.
Proof.
  unfold view. cbn. rewrite list_lookup_fmap. destruct (ups_array_ m !! i) as [u|]; cbn.
  - split; [intros [= <-]; eauto|]. intros (? & [= <-] & ->). done.
  - split; [done|]. by intros (? & ? & ?).
Qed.

(** ** Searches *)

Lemma find_from_spec addr l k :
  (find_from addr k l = -1 /\
   forall j u, l !! j = Some u -> online (slot_of u) -> ~ same_server (addr_ u) addr) \/
  (exists j u, find_from addr k l = k + Z.of_nat j /\ l !! j = Some u /\
     online (slot_of u) /\ same_server (addr_ u) addr).
Proof.
  revert k. induction l as [|u l IH]; intros k; cbn [find_from].
  - left. split; [done|]. intros j ? Hj. by rewrite lookup_nil in Hj.
  - rewrite offline_spec, negb_involutive.
    destruct (server_eqb (addr_ u) addr) eqn:Ea; cbn [andb].
    + case_bool_decide as Ho.
      * right. exists 0%nat, u. repeat split; [lia|done|done].
      * destruct (IH (k + 1)) as [[-> H]|(j & w & -> & H)].
        -- left. split; [done|]. intros [|j] w Hj; [|by apply H with j].
           cbn in Hj. by simplify_eq.
        -- right. exists (S j), w. split; [lia|done].
    + destruct (IH (k + 1)) as [[-> H]|(j & w & -> & H)].
      * left. split; [done|]. intros [|j] w Hj; [|by apply H with j].
        cbn in Hj. simplify_eq. intros _ Hs. unfold same_server in Hs. congruence.
      * right. exists (S j), w. split; [lia|done].
Qed.

Definition unregistered (addr : ObServer) (v : View) : Prop :=
  forall j s, v_slots v !! j = Some s -> online s -> ~ same_server (s_addr s) addr.

Lemma find_ups_index_spec addr m :
  (find_ups_index addr m = -1 /\ unregistered addr (view m)) \/
  (exists j s, find_ups_index addr m = Z.of_nat j /\ v_slots (view m) !! j = Some s /\
     online s /\ same_server (s_addr s) addr).
Proof.
  unfold find_ups_index.
  destruct (find_from_spec addr (ups_array_ m) 0) as [[-> H]|(j & u & -> & Hj & H)].
  - left. split; [done|]. intros j s (u & Hu & ->)%view_slots_lookup. by apply H with j.
  - right. exists j, (slot_of u). split; [lia|]. rewrite view_slots_lookup. eauto.
Qed.

Lemma did_ups_exist_false addr m : did_ups_exist addr m = false -> unregistered addr (view m).
Proof.
  unfold did_ups_exist.
  destruct (find_ups_index_spec addr m) as [[-> H]|(j & s & -> & H)]; [done|].
  destruct (Z.eqb_spec (-1) (Z.of_nat j)); [lia|done].
Qed.

Lemma is_ups_master_spec addr m : is_ups_master addr m = true ->
  exists j s, v_slots (view m) !! j = Some s /\ s_stat s = UPS_STAT_MASTER /\
    same_server (s_addr s) addr.
Proof.
  unfold is_ups_master.
  destruct (find_ups_index_spec addr m) as [[-> H]|(j & s & -> & Hj & Ho & Ha)]; [done|].
  destruct (Z.eqb_spec (-1) (Z.of_nat j)); [lia|]. cbn [negb]. unfold has_stat.
  rewrite bool_decide_eq_true. intros Hm. exists j, s. split; [done|]. split; [|done].
  by rewrite <- (view_slot _ _ _ Hj).
Qed.

Lemma free_from_spec l k i : free_from k l = Some i ->
  exists j u, i = k + Z.of_nat j /\ l !! j = Some u /\ stat_ u = UPS_STAT_OFFLINE.
Proof.
  revert k. induction l as [|u l IH]; intros k; cbn [free_from]; [done|].
  unfold offline. case_bool_decide as Ho.
  - intros [= <-]. exists 0%nat, u. repeat split; [lia|done].
  - intros (j & w & -> & H)%IH. exists (S j), w. split; [lia|done].
Qed.

Lemma highest_from_spec i l h k h' k' : highest_from i l h k = (h', k') ->
  (forall u, In u l -> online (slot_of u) -> log_seq_num_ u <= h') /\
  (h' = h /\ k' = k \/
   exists j u, l !! j = Some u /\ online (slot_of u) /\ h < log_seq_num_ u /\
     h' = log_seq_num_ u /\ k' = i + Z.of_nat j).
Proof.
  revert i h k. induction l as [|u l IH]; intros i h k; cbn [highest_from].
  { intros [= <- <-]. split; [done|by left]. }
  rewrite offline_spec, negb_involutive. case_bool_decide as Ho; cbn [andb].
  - destruct (Z.ltb_spec h (log_seq_num_ u)) as [Hl|Hl];
      intros [Hall [[-> ->]|(j & w & Hj & Hw & Hlt & -> & ->)]]%IH.
    + split; [intros w [<-|Hw] Hon; [lia|by apply Hall]|].
      right. exists 0%nat, u. repeat split; [done|done|lia].
    + split; [intros v [<-|Hv] Hon; [lia|by apply Hall]|].
      right. exists (S j), w. repeat split; [done|done|lia|lia].
    + split; [intros w [<-|Hw] Hon; [lia|by apply Hall]|by left].
    + split; [intros v [<-|Hv] Hon; [lia|by apply Hall]|].
      right. exists (S j), w. repeat split; [done|done|lia|lia].
  - intros [Hall [[-> ->]|(j & w & Hj & Hw & Hlt & -> & ->)]]%IH.
    + split; [intros w [<-|Hw] Hon; [done|by apply Hall]|by left].
    + split; [intros v [<-|Hv] Hon; [done|by apply Hall]|].
      right. exists (S j), w. repeat split; [done|done|lia|lia].
Qed.

(** ** What the sections do *)

Definition v_has_master (v : View) : bool :=
  (v_master v <? Z.of_nat MAX_UPS_COUNT) && (0 <=? v_master v).

Lemma has_master_view m : has_master m = v_has_master (view m).
Proof. done. Qed.

Lemma v_with_slot_twice v i s s' : v_with_slot (v_with_slot v i s) i s' = v_with_slot v i s'.
Proof. unfold v_with_slot, v_with_slots. cbn. by rewrite list_insert_insert_eq. Qed.

Lemma v_with_slot_lookup v i s s' :
  v_slots v !! i = Some s -> v_slots (v_with_slot v i s') !! i = Some s'.
Proof. intros Hs. cbn. apply list_lookup_insert_eq. by apply lookup_lt_Some in Hs. Qed.

#[export] Hint Rewrite view_refresh_inner_table view_reset_ups_read_percent view_update_ups_lsn
  view_with_waiting view_with_master : view.

(** The end of the wait for the first servers, set by the first of them. *)
Definition finish_after (now : Z) (v : View) : Z :=
  if 0 =? v_finish v then now + v_register_duration v else v_finish v.

Lemma register_ups_view addr port lsn lease version now m ret m' :
  register_ups addr port lsn lease version now m = (ret, m') ->
  view m' = view m \/
  exists i s, unregistered addr (view m) /\ v_slots (view m) !! i = Some s /\ ~ online s /\
    let put stat := v_with_slot (view m) i (mkSlot addr stat (now + v_duration (view m))) in
    (now < lease /\ has_master m = true /\
     view m' = v_with_finish (put UPS_STAT_OFFLINE) (finish_after now (view m))) \/
    (now < lease /\ has_master m = false /\
     view m' = v_with_finish (v_with_master (put UPS_STAT_MASTER) (Z.of_nat i)) (-1)) \/
    (lease <= now /\
     view m' = v_with_finish (put UPS_STAT_NOTSYNC) (finish_after now (view m))).
Proof.
  unfold register_ups. destruct (did_ups_exist addr m) eqn:Hx; [intros [= <- <-]; by left|].
  apply did_ups_exist_false in Hx.
  destruct (free_from 0 (ups_array_ m)) as [i|] eqn:Hf; [|intros [= <- <-]; by left].
  apply free_from_spec in Hf as (j & u & -> & Hu & Hoff). rewrite Z.add_0_l.
  set (m1 := if 0 =? _ then _ else _).
  assert (view m1 = v_with_finish (view m) (finish_after now (view m))) as E1.
  { unfold m1, finish_after. cbn [v_finish view].
    destruct (0 =? waiting_ups_finish_time_ m); [apply view_with_waiting|by destruct m]. }
  cbv zeta. set (new := mkUps addr _ _ _ _ _ _ _ _).
  assert (slot_of new = mkSlot addr UPS_STAT_OFFLINE (now + v_duration (view m))) as Enew.
  { unfold new, slot_of. cbn. f_equal.
    - rewrite slot_lookup. unfold m1. destruct (0 =? _); cbn; rewrite Hu; done.
    - unfold m1. by destruct (0 =? _). }
  clearbody new. set (m2 := refresh_inner_table _ _ _ _).
  assert (view m2 = v_with_finish (v_with_slot (view m) j (slot_of new)) (finish_after now (view m)))
    as E2.
  { unfold m2. rewrite view_refresh_inner_table, view_with_slot, E1, Nat2Z.id by lia. done. }
  clearbody m2. intros Hret. right. exists j, (slot_of u).
  assert (v_slots (view m) !! j = Some (slot_of u)) as Hv by (apply view_slots_lookup; eauto).
  split; [done|]. split; [done|]. split; [intros Ho; by apply Ho|]. cbv zeta.
  assert (v_slots (view m2) !! j = Some (slot_of new)) as Hj2
    by (rewrite E2; by apply (v_with_slot_lookup (view m) j (slot_of u))).
  assert (has_master m2 = has_master m) as Eh by (rewrite !has_master_view, E2; done).
  destruct (Z.ltb_spec now lease) as [Hl|Hl].
  - rewrite Eh in Hret. destruct (has_master m); injection Hret as <- <-;
      autorewrite with view.
    + left. rewrite E2, Enew. done.
    + right. left. split; [done|]. split; [done|].
      rewrite (view_change_ups_stat _ _ _ _ Hj2), E2, Enew. cbn.
      unfold v_with_slot, v_with_slots, v_with_finish, v_with_master. cbn.
      by rewrite list_insert_insert_eq.
  - injection Hret as <- <-. autorewrite with view. right. right. split; [done|].
    rewrite (view_change_ups_stat _ _ _ _ Hj2), E2, Enew. cbn.
    unfold v_with_slot, v_with_slots, v_with_finish. cbn. by rewrite list_insert_insert_eq.
Qed.

Lemma v_with_slot_same v i s : v_slots v !! i = Some s -> v_with_slot v i s = v.
Proof.
  intros Hs. unfold v_with_slot, v_with_slots. rewrite list_insert_id by done. by destruct v.
Qed.

Lemma slave_stat_spec s : slave_stat s = true <-> s = UPS_STAT_SYNC \/ s = UPS_STAT_NOTSYNC.
Proof. unfold slave_stat. rewrite orb_true_iff, !bool_decide_eq_true. done. Qed.

(** An update of a slot that keeps its address, status and lease. *)
Lemma view_touch m i u : 0 <= i -> slot_of u = slot_of (slot m i) ->
  (Z.to_nat i < length (ups_array_ m))%nat -> view (with_slot m i u) = view m.
Proof.
  intros Hi Hu Hl. rewrite view_with_slot, Hu by done. apply v_with_slot_same.
  apply view_slots_lookup. destruct (lookup_lt_is_Some_2 _ _ Hl) as [w Hw].
  exists w. split; [done|]. f_equal. unfold slot, zget. by rewrite Hw.
Qed.

Lemma view_length m i s : v_slots (view m) !! i = Some s -> (i < length (ups_array_ m))%nat.
Proof. intros (u & Hu & _)%view_slots_lookup. by apply lookup_lt_Some in Hu. Qed.

Lemma renew_lease_view addr stat role m ret m' : renew_lease addr stat role m = (ret, m') ->
  view m' = view m \/
  exists i s, v_slots (view m) !! i = Some s /\ slave_stat (s_stat s) = true /\
    slave_stat stat = true /\ view m' = v_with_slot (view m) i (mkSlot (s_addr s) stat (s_lease s)).
Proof.
  unfold renew_lease.
  destruct (find_ups_index_spec addr m) as [[-> _]|(j & s & -> & Hj & _ & _)];
    [intros [= <- <-]; by left|].
  destruct (Z.eqb_spec (-1) (Z.of_nat j)); [lia|]. cbv zeta.
  set (m1 := with_slot m (Z.of_nat j) _).
  assert (view m1 = view m) as E1.
  { apply view_touch; [lia|done|]. rewrite Nat2Z.id. by apply view_length in Hj. }
  clearbody m1.
  assert (forall x, view x = view m \/ (slave_stat (s_stat s) = true /\ slave_stat stat = true /\
      view x = v_with_slot (view m) j (mkSlot (s_addr s) stat (s_lease s))) ->
    (OB_SUCCESS, if bool_decide (role = ROLE_INIT) then x
                 else with_slot x (Z.of_nat j) (with_obi_role (slot x (Z.of_nat j)) role)) = (ret, m') ->
    view m' = view m \/ (slave_stat (s_stat s) = true /\ slave_stat stat = true /\
      view m' = v_with_slot (view m) j (mkSlot (s_addr s) stat (s_lease s)))) as Hrole.
  { intros x Hx [= _ <-]. case_bool_decide; [done|].
    rewrite view_touch; [done|lia|done|]. rewrite Nat2Z.id.
    assert (is_Some (v_slots (view x) !! j)) as [w Hw].
    { destruct Hx as [->|(_ & _ & ->)]; [eauto|]. erewrite v_with_slot_lookup; eauto. }
    by apply view_length in Hw. }
  intros H. apply Hrole in H; [destruct H as [->|(? & ? & ?)]; [by left|right; by exists j, s]|].
  assert (v_slots (view m1) !! j = Some s) as Hj1 by (by rewrite E1).
  destruct (slave_stat stat) eqn:Es; [|by left].
  replace (slave_stat (stat_ (slot m1 (Z.of_nat j)))) with (slave_stat (s_stat s))
    by (rewrite <- (view_slot _ _ _ Hj1); done).
  destruct (slave_stat (s_stat s)) eqn:Ess; [|by left].
  destruct (has_stat stat _); [by left|]. cbn [andb negb].
  right. split; [done|]. split; [done|].
  destruct (is_flow_control_by_ip_ _); autorewrite with view;
    by rewrite (view_change_ups_stat _ _ _ _ Hj1), E1.
Qed.

Lemma slave_failure_view addr slave_addr m ret m' : slave_failure addr slave_addr m = (ret, m') ->
  view m' = view m \/
  exists k sk i s, v_slots (view m) !! k = Some sk /\ s_stat sk = UPS_STAT_MASTER /\
    same_server (s_addr sk) addr /\
    v_slots (view m) !! i = Some s /\ online s /\ same_server (s_addr s) slave_addr /\
    view m' = v_with_slot (view m) i (mkSlot (s_addr s) UPS_STAT_OFFLINE (s_lease s)).
Proof.
  unfold slave_failure. destruct (is_ups_master addr m) eqn:Hm; cbn [negb];
    [|intros [= <- <-]; by left].
  apply is_ups_master_spec in Hm as (k & sk & Hk).
  destruct (find_ups_index_spec slave_addr m) as [[-> _]|(j & s & -> & Hj & Ho & Ha)];
    [intros [= <- <-]; by left|].
  destruct (Z.eqb_spec (-1) (Z.of_nat j)); [lia|]. cbv zeta. intros [= <- <-].
  right. exists k, sk, j, s. destruct Hk as (? & ? & ?). conjs; try done.
  autorewrite with view. by apply view_change_ups_stat.
Qed.

(** A grant sets the lease of the servers it is sent to. *)
Lemma grant_lease_view force now m m' msgs : grant_lease force now m = (m', msgs) ->
  view m' = v_with_slots (view m) (slot_of <$> ups_array_ m') /\
  length (ups_array_ m') = length (ups_array_ m) /\
  forall i u, ups_array_ m !! i = Some u ->
    exists u', ups_array_ m' !! i = Some u' /\ addr_ u' = addr_ u /\ stat_ u' = stat_ u /\
      lease_ u' = if grants force now m u then now + lease_duration_us_ m else lease_ u.
Proof.
  unfold grant_lease. intros [= <- _]. split; [done|]. cbn. rewrite length_fmap. split; [done|].
  intros i u Hu. rewrite list_lookup_fmap, Hu. cbn. eexists. split; [done|].
  destruct (grants force now m u); done.
Qed.

(** A server that is not offline becomes the master where there is none. *)
Definition elects (v v' : View) : Prop :=
  v_master v = -1 /\ exists i s, v_slots v !! i = Some s /\ online s /\
    v' = v_with_master (v_with_slot v i (mkSlot (s_addr s) UPS_STAT_MASTER (s_lease s))) (Z.of_nat i).

Lemma select_view m ret m' : select_ups_master_with_highest_lsn m = (ret, m') ->
  (ret = OB_UPS_MASTER_EXISTS /\ v_master (view m) <> -1 /\ m' = m) \/
  (ret = OB_ERROR /\ m' = m) \/
  (ret = OB_SUCCESS /\ elects (view m) (view m')).
Proof.
  unfold select_ups_master_with_highest_lsn. destruct (Z.eqb_spec (-1) (ups_master_idx_ m)) as [E|E];
    cbn [negb]; [|intros [= <- <-]; left; done].
  destruct (highest_from 0 (ups_array_ m) (-1) (-1)) as [h k] eqn:Hh.
  apply highest_from_spec in Hh as [_ [[-> ->]|(j & u & Hj & Ho & _ & _ & ->)]].
  { intros [= <- <-]. right. by left. }
  destruct (Z.eqb_spec (-1) (0 + Z.of_nat j)); [lia|]. intros [= <- <-]. right. right.
  split; [done|]. split; [done|]. exists j, (slot_of u).
  assert (v_slots (view m) !! j = Some (slot_of u)) as Hv by (apply view_slots_lookup; eauto).
  split; [done|]. split; [done|]. autorewrite with view. rewrite Z.add_0_l.
  by rewrite (view_change_ups_stat _ _ _ _ Hv).
Qed.

Lemma select_new_view f now m ret m' : select_new_ups_master f now m = (ret, m') ->
  view m' = view m \/ elects (view m) (view m').
Proof.
  unfold select_new_ups_master. destruct (_ && _); [|intros [= <- <-]; by left].
  intros [(_ & _ & ->)|[[_ ->]|[_ H]]]%select_view; rewrite ?view_update_ups_lsn in *; auto.
Qed.

Lemma check_ups_master_exist_view f now m ret m' : check_ups_master_exist f now m = (ret, m') ->
  view m' = view m \/
  (0 < v_finish (view m) < now /\
   (v_master (view m) <> -1 /\ view m' = v_with_finish (view m) (-1) \/
    exists v, elects (view m) v /\ view m' = v_with_finish v (-1))) \/
  (v_finish (view m) < 0 /\ elects (view m) (view m')).
Proof.
  unfold check_ups_master_exist. change (v_finish (view m)) with (waiting_ups_finish_time_ m).
  destruct (Z.ltb_spec 0 (waiting_ups_finish_time_ m)) as [Hp|Hp].
  - destruct (Z.ltb_spec (waiting_ups_finish_time_ m) now) as [Hn|Hn]; [|intros [= <- <-]; by left].
    destruct (select_ups_master_with_highest_lsn m) as [r x] eqn:Hs.
    apply select_view in Hs as [(-> & Hm & ->)|[[-> ->]|[-> He]]]; cbn;
      intros [= <- <-]; [|by left|]; autorewrite with view; right; left; (split; [lia|]).
    + by left.
    + right. eauto.
  - destruct (Z.ltb_spec (waiting_ups_finish_time_ m) 0) as [Hn|Hn]; [|intros [= <- <-]; by left].
    intros [->|H]%select_new_view; [by left|]. right. right. done.
Qed.

Definition all_offline (v : View) : Prop := forall i s, v_slots v !! i = Some s -> ~ online s.

(** The wait is over when every server is offline. *)
Definition settle (v : View) (f : Z) : Prop := f = v_finish v /\ ~ all_offline v \/ f = 0 /\ all_offline v.

Lemma check_all_ups_offline_view m :
  exists f, settle (view m) f /\ view (check_all_ups_offline m) = v_with_finish (view m) f.
Proof.
  unfold check_all_ups_offline.
  destruct (forallb offline (ups_array_ m)) eqn:Ha.
  - exists 0. split; [|apply view_with_waiting]. right. split; [done|].
    intros i s (u & Hu & ->)%view_slots_lookup Ho. rewrite forallb_forall in Ha.
    assert (offline u = true) as Hf by (apply Ha, list_elem_of_In; by apply list_elem_of_lookup_2 with i).
    unfold offline in Hf. apply bool_decide_eq_true in Hf. done.
  - exists (v_finish (view m)). split; [|by destruct (view m)]. left. split; [done|].
    intros H. apply not_true_iff_false in Ha. apply Ha, forallb_forall. intros u Hu.
    apply list_elem_of_In, list_elem_of_lookup in Hu as [i Hi]. unfold offline.
    apply bool_decide_eq_true. specialize (H i (slot_of u)). rewrite view_slots_lookup in H.
    destruct (decide (stat_ u = UPS_STAT_OFFLINE)) as [E|E]; [done|]. exfalso. apply H; eauto.
Qed.

Lemma check_lease_slot_view i now m flag m' flag' :
  check_lease_slot (Z.of_nat i) now m flag = (m', flag') ->
  view m' = view m /\ flag' = flag \/
  exists s f, v_slots (view m) !! i = Some s /\ online s /\ s_lease s + MAX_CLOCK_SKEW_US < now /\
    let gone := v_with_slot (view m) i (mkSlot (server_reset (s_addr s)) UPS_STAT_OFFLINE 0) in
    settle gone f /\
    (s_stat s = UPS_STAT_MASTER /\ flag' = true /\
     view m' = v_with_finish (v_with_master gone (-1)) f \/
     s_stat s <> UPS_STAT_MASTER /\ flag' = flag /\ view m' = v_with_finish gone f).
Proof.
  unfold check_lease_slot. destruct (offline (slot m (Z.of_nat i))) eqn:Ho; cbn [negb andb];
    [intros [= <- <-]; by left|].
  destruct (Z.ltb_spec (lease_ (slot m (Z.of_nat i)) + 200000) now) as [Hl|Hl]; cbn [andb];
    [|intros [= <- <-]; by left].
  destruct (ups_array_ m !! i) as [u|] eqn:Hu; [|by rewrite slot_lookup, Hu in Ho].
  assert (v_slots (view m) !! i = Some (slot_of u)) as Hv by (apply view_slots_lookup; eauto).
  assert (slot m (Z.of_nat i) = u) as Es by (rewrite slot_lookup, Hu; done).
  rewrite Es in Ho, Hl |- *.
  intros H. right. exists (slot_of u). unfold has_stat in H.
  set (d := (if bool_decide _ then _ else _) : ObUpsManager * bool) in H.
  assert (view d.1 = v_with_master (view m) (if bool_decide (stat_ u = UPS_STAT_MASTER) then -1
                                             else v_master (view m))) as Ed.
  { unfold d. case_bool_decide; [done|]. cbn [fst]. by destruct (view m). }
  assert (d.2 = if bool_decide (stat_ u = UPS_STAT_MASTER) then true else flag) as Ef
    by (unfold d; by case_bool_decide).
  destruct d as [x fl]. cbn [fst snd] in *. injection H as <- <-.
  set (y := change_ups_stat _ _ _).
  assert (v_slots (view (reset_ups_read_percent x)) !! i = Some (slot_of u)) as Hx
    by (by rewrite view_reset_ups_read_percent, Ed).
  assert (view y = v_with_slot (view x) i (mkSlot (addr_ u) UPS_STAT_OFFLINE (lease_ u))) as Ey
    by (unfold y; rewrite (view_change_ups_stat _ _ _ _ Hx); by rewrite view_reset_ups_read_percent).
  clearbody y.
  assert (v_slots (view y) !! i = Some (mkSlot (addr_ u) UPS_STAT_OFFLINE (lease_ u))) as Hy
    by (rewrite Ey; rewrite view_reset_ups_read_percent in Hx; by apply (v_with_slot_lookup _ _ _ _ Hx)).
  apply view_slot in Hy.
  destruct (check_all_ups_offline_view (with_slot y (Z.of_nat i) (ups_reset (slot y (Z.of_nat i)))))
    as (f & Hf & E).
  rewrite view_with_slot, Nat2Z.id, Ey, v_with_slot_twice, Ed in Hf, E by lia.
  exists f. split; [done|]. split; [unfold online; cbn; apply bool_decide_eq_false in Ho; done|].
  split; [done|]. cbv zeta. rewrite view_refresh_inner_table, E, Ef.
  assert (slot_of (ups_reset (slot y (Z.of_nat i))) = mkSlot (server_reset (addr_ u)) UPS_STAT_OFFLINE 0)
    as Er by (unfold slot_of in Hy |- *; cbn in *; by simplify_eq/=; f_equal; congruence).
  rewrite Er in *. split; [exact Hf|]. unfold slot_of; cbn [s_addr s_stat].
  case_bool_decide; [left|right]; (split; [done|]); (split; [done|]); [done|].
  by destruct (view m).
Qed.

Lemma v_has_master_spec v : v_has_master v = true <-> 0 <= v_master v < Z.of_nat MAX_UPS_COUNT.
Proof. unfold v_has_master. rewrite andb_true_iff, Z.ltb_lt, Z.leb_le. lia. Qed.

Definition v_lease_valid (now : Z) (v : View) : bool :=
  v_has_master v && (now <? s_lease (zget (slot_of ObUps_new) (v_slots v) (v_master v))).

Lemma is_master_lease_valid_view now m : is_master_lease_valid now m = v_lease_valid now (view m).
Proof.
  unfold is_master_lease_valid, v_lease_valid. rewrite has_master_view.
  destruct (v_has_master (view m)); [|done]. cbn [andb]. f_equal. unfold slot.
  change (v_slots (view m)) with (map slot_of (ups_array_ m)). by rewrite zget_map.
Qed.

Lemma v_lease_valid_spec now v j s :
  v_master v = Z.of_nat j -> v_slots v !! j = Some s -> (j < MAX_UPS_COUNT)%nat ->
  v_lease_valid now v = (now <? s_lease s).
Proof.
  intros Hm Hs Hj. unfold v_lease_valid.
  replace (v_has_master v) with true by (symmetry; apply v_has_master_spec; lia).
  unfold zget. by rewrite Hm, Nat2Z.id, Hs.
Qed.

(** The master becomes a slave; the time to wait covers its lease, unless it
    has run out or been given back. *)
Lemma revoke_master_lease_view now revoked now2 m waiting m' :
  length (ups_array_ m) = MAX_UPS_COUNT ->
  revoke_master_lease now revoked now2 m = (waiting, m') ->
  (has_master m = false /\ waiting = 0 /\ m' = m) \/
  exists j s f, v_master (view m) = Z.of_nat j /\ v_slots (view m) !! j = Some s /\
    view m' = v_with_finish
      (v_with_master (v_with_slot (view m) j (mkSlot (s_addr s) UPS_STAT_SYNC (s_lease s))) (-1)) f /\
    ((now < s_lease s /\ now2 < s_lease s /\ waiting = s_lease s - now2 /\ f = 0) \/
     (waiting = 0 /\ f = v_finish (view m) /\
      (s_lease s <= now \/ s_lease s <= now2 \/ now < s_lease s /\ revoked = OB_SUCCESS))).
Proof.
  intros Hlen. unfold revoke_master_lease. destruct (has_master m) eqn:Hm;
    [|intros [= <- <-]; by left].
  rewrite has_master_view, v_has_master_spec in Hm. cbv zeta.
  destruct (Z_of_nat_complete (ups_master_idx_ m)) as [j Hj]; [apply Hm|].
  assert ((j < length (ups_array_ m))%nat) as Hlt by (cbn in Hm; lia).
  destruct (lookup_lt_is_Some_2 _ _ Hlt) as [u Hu].
  assert (v_slots (view m) !! j = Some (slot_of u)) as Hv by (apply view_slots_lookup; eauto).
  rewrite is_master_lease_valid_view, (v_lease_valid_spec now _ j (slot_of u)) by (done || lia).
  rewrite Hj.
  assert (slot m (Z.of_nat j) = u) as Es by (rewrite slot_lookup, Hu; done). rewrite Es.
  intros H. right. exists j, (slot_of u).
  assert (forall x f, view x = v_with_finish (view m) f ->
    view (with_master (refresh_inner_table ROLE_CHANGE
            (slot (change_ups_stat (Z.of_nat j) UPS_STAT_SYNC x) (Z.of_nat j)) "null"
            (change_ups_stat (Z.of_nat j) UPS_STAT_SYNC x)) (-1))
    = v_with_finish (v_with_master (v_with_slot (view m) j
        (mkSlot (addr_ u) UPS_STAT_SYNC (lease_ u))) (-1)) f) as Hx.
  { intros x f Ex. autorewrite with view.
    rewrite (view_change_ups_stat x j (slot_of u)) by (by rewrite Ex). by rewrite Ex. }
  destruct (Z.ltb_spec now (s_lease (slot_of u))) as [Hl|Hl].
  - destruct (Z.eqb_spec revoked OB_SUCCESS) as [Hr|Hr]; cbn [negb andb] in H.
    + injection H as <- <-. exists (v_finish (view m)). split; [done|]. split; [done|].
      split; [apply Hx; by destruct (view m)|]. right. split; [done|]. split; [done|]. auto.
    + destruct (Z.ltb_spec now2 (lease_ u)) as [H2|H2]; injection H as <- <-.
      * exists 0. split; [done|]. split; [done|]. split; [by apply Hx|]. left. done.
      * exists (v_finish (view m)). split; [done|]. split; [done|].
        split; [apply Hx; by destruct (view m)|]. right. cbn. auto.
  - injection H as <- <-. exists (v_finish (view m)). split; [done|]. split; [done|].
    split; [apply Hx; by destruct (view m)|]. right. auto.
Qed.

Lemma is_ups_with_highest_lsn_view f i m b m' :
  is_ups_with_highest_lsn f i m = (b, m') ->
  view m' = view m /\ length (ups_array_ m') = length (ups_array_ m).
Proof.
  unfold is_ups_with_highest_lsn. destruct (is_idx_valid i); [|by intros [= <- <-]].
  destruct (highest_from _ _ _ _) as [h k]. intros [= <- <-].
  split; [apply view_update_ups_lsn|]. cbn. by rewrite length_fmap.
Qed.

Lemma is_idx_valid_nat j : (j < MAX_UPS_COUNT)%nat -> is_idx_valid (Z.of_nat j) = true.
Proof. intros. unfold is_idx_valid. rewrite andb_true_iff, Z.ltb_lt, Z.leb_le. lia. Qed.

Lemma set_ups_master_revoke_view f now revoked now2 master force m ret i waiting m' :
  length (ups_array_ m) = MAX_UPS_COUNT ->
  set_ups_master_revoke f now revoked now2 master force m = (ret, i, waiting, m') ->
  (ret <> OB_SUCCESS /\ waiting = 0 /\ view m' = view m) \/
  (ret = OB_SUCCESS /\ exists j s m1, i = Z.of_nat j /\ v_slots (view m) !! j = Some s /\ online s /\
     same_server (s_addr s) master /\
     view m1 = view m /\ length (ups_array_ m1) = length (ups_array_ m) /\
     revoke_master_lease now revoked now2 m1 = (waiting, m')).
Proof.
  intros Hlen. unfold set_ups_master_revoke.
  destruct (find_ups_index_spec master m) as [[-> _]|(j & s & -> & Hj & Ho & Ha)];
    [intros [= <- <- <- <-]; by left|].
  rewrite is_idx_valid_nat by (apply view_length in Hj; lia). cbn [negb].
  destruct (has_stat UPS_STAT_MASTER (slot m (Z.of_nat j))); [intros [= <- <- <- <-]; by left|].
  set (d := (if negb _ then _ else _) : bool * ObUpsManager).
  assert (view d.2 = view m /\ length (ups_array_ d.2) = length (ups_array_ m)) as [Ev El].
  { unfold d. destruct (negb _); [done|].
    destruct (is_ups_with_highest_lsn _ _ _) as [b x] eqn:Hx.
    by apply is_ups_with_highest_lsn_view in Hx. }
  destruct d as [behind x]. cbn in Ev, El.
  destruct (behind && negb force); [intros [= <- <- <- <-]; by left|].
  destruct (revoke_master_lease now revoked now2 x) as [w y] eqn:Hr.
  intros [= <- <- <- <-]. right. split; [done|]. exists j, s, x. done.
Qed.

Lemma set_ups_master_select_view f now j master force m ret b m' s :
  v_slots (view m) !! j = Some s ->
  set_ups_master_select f now (Z.of_nat j) master force m = (ret, b, m') ->
  (b = false /\ view m' = v_with_finish (view m) (-1)) \/
  (b = true /\ (force = true \/ s_stat s = UPS_STAT_SYNC) /\ same_server master (s_addr s) /\
   is_master_lease_valid now m = false /\
   view m' = v_with_finish
     (v_with_master (v_with_slot (view m) j (mkSlot (s_addr s) UPS_STAT_MASTER (s_lease s)))
        (Z.of_nat j)) (-1)).
Proof.
  intros Hs. unfold set_ups_master_select.
  set (d := (if has_stat _ _ then _ else _) : bool * ObUpsManager).
  assert (view d.2 = view m /\ (d.1 = true -> s_stat s = UPS_STAT_SYNC)) as [Ev Hr].
  { unfold d, has_stat. rewrite <- (view_slot _ _ _ Hs). case_bool_decide as E; [|done].
    destruct (is_ups_with_highest_lsn _ _ _) as [r x] eqn:Hx.
    apply is_ups_with_highest_lsn_view in Hx as [Hx _]. split; [exact Hx|]. intros _. exact E. }
  destruct d as [ready x]. cbn in Ev, Hr.
  rewrite !is_master_lease_valid_view, Ev.
  assert (v_slots (view x) !! j = Some s) as Hs' by (by rewrite Ev).
  replace (addr_ (slot x (Z.of_nat j))) with (s_addr s) by (by rewrite <- (view_slot _ _ _ Hs')).
  destruct (ready || force) eqn:E1; cbn [andb]; [|intros [= _ <- <-]; left; by rewrite view_with_waiting, Ev].
  destruct (server_eqb master (s_addr s)) eqn:E2; cbn [andb];
    [|intros [= _ <- <-]; left; by rewrite view_with_waiting, Ev].
  destruct (v_lease_valid now (view m)) eqn:E3; cbn [negb];
    [intros [= _ <- <-]; left; by rewrite view_with_waiting, Ev|].
  intros [= _ <- <-]. right. split; [done|]. split; [|split; [done|split; [done|]]].
  - apply orb_true_iff in E1 as [E1|E1]; [right; by apply Hr|by left].
  - autorewrite with view. rewrite (view_change_ups_stat _ _ _ _ Hs'). by rewrite Ev.
Qed.
