(* ===== verification/UpsLease.v ===== *)
(** * Leases of the update servers

    The threads of the root server that run the operations of [ObUpsManager]
    ([ob_ups_heartbeat_runnable.cpp], [ob_ups_check_runnable.cpp] and the request
    handlers) as a transition system whose steps are the locked sections, in any
    order, and the master leases that the messages sent so far grant.

    [leases] holds the leases of the messages that name their receiver as the
    master.  A server gives its leases back when it acknowledges their revocation
    ([ObUpdateServer::ups_revoke_lease] acknowledges only the lease it holds). *)

From S2P Require Import Prelude ObServer ObUpsManager UpsManagerView.
From stdpp Require Import strings.
#[local] Open Scope Z_scope.

(** ** Threads *)

(** Where the check thread is in [check_ups_master_exist] and [check_lease]. *)
Inductive check_pc :=
| CK_exist
| CK_slot (i : nat) (did_select_new_master : bool)
| CK_select
| CK_test
| CK_grant.

(** Requests that have given up the lock: [set_ups_master] before its second
    section and before its [grant_lease], [send_obi_role] in its loop and after
    it. *)
Inductive call :=
| C_select (master : ObServer) (did_force : bool) (i wake : Z)
| C_notify
| C_poll (total_sleep_us wake : Z)
| C_reset (wake : Z).

Record System := mkSystem {
  mgr : ObUpsManager; clock : Z; checker : check_pc; calls : list call;
  leases : list (ObServer * Z) }.

Inductive event :=
| E_register_ups (addr : ObServer) (inner_port log_seq_num lease : Z) (server_version : string)
| E_renew_lease (addr : ObServer) (stat : ObUpsStatus) (obi_role : Role)
| E_slave_failure (addr slave_addr : ObServer)
| E_heartbeat
| E_heartbeat_stop
| E_check (max_log_seq : ObServer -> option Z)
| E_set_ups_master (max_log_seq : ObServer -> option Z) (revoked now2 : Z) (master : ObServer)
    (did_force : bool)
| E_send_obi_role
| E_call (k : nat) (max_log_seq : ObServer -> option Z)
| E_set_obi_role (role : Role)
| E_set_ups_config (master_master slave_master : Z)
| E_set_ups_config_by_addr (addr : ObServer) (ms cs : Z).

(** The master leases of a list of messages. *)
Definition granted (msgs : list (ObServer * ObMsgUpsHeartbeat)) : list (ObServer * Z) :=
  omap (fun '(a, msg) => if server_eqb a (ups_master_ msg) then Some (a, self_lease_ msg) else None)
    msgs.

Definition grant (did_force : bool) (now : Z) (s : System) : System :=
  let '(m, msgs) := grant_lease did_force now (mgr s) in
  mkSystem m (clock s) (checker s) (calls s) (granted msgs ++ leases s).

Definition on_mgr (s : System) (m : ObUpsManager) : System :=
  mkSystem m (clock s) (checker s) (calls s) (leases s).
Definition on_checker (s : System) (c : check_pc) : System :=
  mkSystem (mgr s) (clock s) c (calls s) (leases s).
Definition on_calls (s : System) (cs : list call) : System :=
  mkSystem (mgr s) (clock s) (checker s) cs (leases s).
Definition on_leases (s : System) (ls : list (ObServer * Z)) : System :=
  mkSystem (mgr s) (clock s) (checker s) (calls s) ls.
Definition at_time (now : Z) (s : System) : System :=
  mkSystem (mgr s) now (checker s) (calls s) (leases s).

(** ** Steps *)

Definition check_step (max_log_seq : ObServer -> option Z) (now : Z) (s : System) : System :=
  match checker s with
  | CK_exist =>
      on_checker (on_mgr s (check_ups_master_exist max_log_seq now (mgr s)).2) (CK_slot 0 false)
  | CK_slot i did =>
      let '(m, did) := check_lease_slot (Z.of_nat i) now (mgr s) did in
      on_checker (on_mgr s m)
        (if (S i <? MAX_UPS_COUNT)%nat then CK_slot (S i) did
         else if (did : bool) then CK_select else CK_exist)
  | CK_select => on_checker (on_mgr s (select_new_ups_master max_log_seq now (mgr s)).2) CK_test
  | CK_test => on_checker s (if has_master (mgr s) then CK_grant else CK_exist)
  | CK_grant => on_checker (grant true now s) CK_exist
  end.

(** The leases the acknowledged revocation gives back. *)
Definition given_back (now : Z) (m : ObUpsManager) (ls : list (ObServer * Z)) : list (ObServer * Z) :=
  if is_master_lease_valid now m then
    List.filter (fun '(a, _) => negb (server_eqb a (addr_ (slot m (ups_master_idx_ m))))) ls
  else ls.

Definition set_ups_master_step (max_log_seq : ObServer -> option Z) (now revoked now2 : Z)
    (master : ObServer) (did_force : bool) (s : System) : System :=
  let '(ret, i, waiting_lease_us, m) :=
    set_ups_master_revoke max_log_seq now revoked now2 master did_force (mgr s) in
  let s' := at_time now2 (on_mgr s m) in
  if ret =? OB_SUCCESS then
    on_leases
      (on_calls s' (C_select master did_force i (now2 + u32 waiting_lease_us) :: calls s))
      (if revoked =? OB_SUCCESS then given_back now (mgr s) (leases s) else leases s)
  else s'.

Definition call_step (k : nat) (max_log_seq : ObServer -> option Z) (now : Z) (s : System)
    : option System :=
  match calls s !! k with
  | None => None
  | Some (C_select master did_force i wake) =>
      if now <? wake then None
      else
        let '(_, selected, m) :=
          set_ups_master_select max_log_seq now i master did_force (mgr s) in
        Some (on_calls (on_mgr s m)
                (if (selected : bool) then <[k := C_notify]> (calls s) else delete k (calls s)))
  | Some C_notify => Some (on_calls (grant true now s) (delete k (calls s)))
  | Some (C_poll total wake) =>
      if now <? wake then None
      else match send_obi_role_poll (mgr s) with
           | Some _ => Some (on_calls s (<[k := C_reset now]> (calls s)))
           | None =>
               let total := total + 111000 in
               Some (on_calls s (<[k := if total <? lease_duration_us_ (mgr s)
                                        then C_poll total (now + 111000)
                                        else C_reset (now + 111000)]> (calls s)))
           end
  | Some (C_reset wake) =>
      if now <? wake then None
      else Some (on_calls (on_mgr s (reset_ups_read_percent (mgr s))) (delete k (calls s)))
  end.

(** The heartbeat thread: a round of its loop, or, once it is told to stop, the
    leases it sends on its way out. *)
Definition heartbeat_step (stop : bool) (now : Z) (s : System) : System :=
  if negb stop then grant false now s
  else on_leases s (granted (grant_eternal_lease (mgr s)) ++ leases s).

Definition fire (now : Z) (e : event) (s : System) : option System :=
  if now <? clock s then None
  else
    let s := at_time now s in
    match e with
    | E_register_ups addr port lsn lease version =>
        Some (on_mgr s (register_ups addr port lsn lease version now (mgr s)).2)
    | E_renew_lease addr stat role => Some (on_mgr s (renew_lease addr stat role (mgr s)).2)
    | E_slave_failure addr slave_addr => Some (on_mgr s (slave_failure addr slave_addr (mgr s)).2)
    | E_heartbeat => Some (heartbeat_step false now s)
    | E_heartbeat_stop => Some (heartbeat_step true now s)
    | E_check f => Some (check_step f now s)
    | E_set_ups_master f revoked now2 master force =>
        if now2 <? now then None else Some (set_ups_master_step f now revoked now2 master force s)
    | E_send_obi_role => let s := grant true now s in Some (on_calls s (C_poll 0 now :: calls s))
    | E_call k f => call_step k f now s
    | E_set_obi_role role => Some (on_mgr s (with_role (mgr s) role))
    | E_set_ups_config mm sm => Some (on_mgr s (set_ups_config mm sm (mgr s)).2)
    | E_set_ups_config_by_addr addr ms cs =>
        Some (on_mgr s (set_ups_config_by_addr addr ms cs (mgr s)).2)
    end.

Fixpoint run (es : list (Z * event)) (s : System) : option System :=
  match es with
  | [] => Some s
  | (now, e) :: es => s' ← fire now e s; run es s'
  end.

(** ** What the leases need of a run *)

Definition selecting (c : call) : bool := match c with C_select _ _ _ _ => true | _ => false end.

(** The check thread has taken the master off and not yet chosen another. *)
Definition replacing (c : check_pc) : bool :=
  match c with CK_slot _ did => did | CK_select => true | _ => false end.

(** What the senders of requests keep to: a server has an address and claims
    only a lease it was granted, a server does not report itself as its failed
    slave, and an administrator changes the master one change at a time, not while
    the check thread replaces it and not while the servers of a root server that
    has just started are waited for. *)
Definition orderly_request (now : Z) (e : event) (s : System) : Prop :=
  match e with
  | E_register_ups addr _ _ lease _ =>
      ~ same_server addr ObServer_new /\
      (now < lease -> exists a, (a, lease) ∈ leases s /\ same_server a addr)
  | E_slave_failure addr slave_addr => ~ same_server addr slave_addr
  | E_set_ups_master _ _ _ _ _ =>
      forallb (fun c => negb (selecting c)) (calls s) = true /\ replacing (checker s) = false /\
      (has_master (mgr s) = true \/ waiting_ups_finish_time_ (mgr s) < 0)
  | _ => True
  end.

(** What the root server itself must not run into, because the code does not
    guard against it: when [set_ups_master] takes the lock for its second section,
    the server it waited for is not offline, and no other master has come
    meanwhile and let its lease run out ([lapsed_master_doubled]). *)
Definition undisturbed (now : Z) (e : event) (s : System) : Prop :=
  match e with
  | E_call k _ =>
      match calls s !! k with
      | Some (C_select _ _ i _) =>
          offline (slot (mgr s) i) = false /\
          (ups_master_idx_ (mgr s) = -1 \/ ups_master_idx_ (mgr s) = i \/
           is_master_lease_valid now (mgr s) = true)
      | _ => True
      end
  | _ => True
  end.

(** The heartbeat thread is still running. *)
Definition in_service (e : event) : Prop :=
  match e with E_heartbeat_stop => False | _ => True end.

Definition orderly (now : Z) (e : event) (s : System) : Prop :=
  orderly_request now e s /\ undisturbed now e s /\ in_service e.

Inductive reachable (s0 : System) : System -> Prop :=
| reach_start : reachable s0 s0
| reach_step s now e s' : reachable s0 s -> orderly now e s -> fire now e s = Some s' ->
    reachable s0 s'.

(** A root server that starts at time [t] with the queue [q]; [ls] are the
    leases its predecessor granted. *)
Definition boot (q : option (list ObSeqTask)) (dur reserved register_dur : Z) (role : Role)
    (schema config t : Z) (ls : list (ObServer * Z)) : System :=
  mkSystem (with_queue (ObUpsManager_new dur reserved register_dur role schema config) q)
    t CK_exist [] ls.

(** Leases of [ls] that have not run out at [t] are of one server. *)
Definition one_holder (t : Z) (ls : list (ObServer * Z)) : Prop :=
  forall a l a' l', (a, l) ∈ ls -> (a', l') ∈ ls -> t < l -> t < l' -> same_server a a'.

(** The durations are those of a sound configuration: a lease is shorter than
    the wait for the first servers and than the longest sleep. *)
Definition configured (dur register_dur t : Z) (ls : list (ObServer * Z)) : Prop :=
  0 <= dur < 2 ^ 32 /\ dur <= register_dur /\ 0 < t /\ one_holder t ls /\
  forall a l, (a, l) ∈ ls -> l <= t + dur.

(** ** The invariant *)

Record table_ok (v : View) : Prop := {
  table_length : length (v_slots v) = MAX_UPS_COUNT;
  table_master : v_master v = -1 \/ exists j s, v_master v = Z.of_nat j /\ v_slots v !! j = Some s;
  table_stats : forall i s, v_slots v !! i = Some s ->
    s_stat s = UPS_STAT_MASTER <-> v_master v = Z.of_nat i;
  table_addrs : forall i j s s', v_slots v !! i = Some s -> v_slots v !! j = Some s' ->
    online s -> online s' -> same_server (s_addr s) (s_addr s') -> i = j;
  table_named : forall i s, v_slots v !! i = Some s -> online s -> ~ same_server (s_addr s) ObServer_new }.

(** Every lease of [ls] that has not run out at [t] satisfies [P]. *)
Definition running (t : Z) (ls : list (ObServer * Z)) (P : ObServer -> Z -> Prop) : Prop :=
  forall a l, (a, l) ∈ ls -> t < l -> P a l.

Record leases_ok (v : View) (t : Z) (ck : check_pc) (cs : list call) (ls : list (ObServer * Z))
    : Prop := {
  ok_time : 0 < t;
  ok_duration : 0 <= v_duration v < 2 ^ 32 /\ v_duration v <= v_register_duration v;
  ok_bound : running t ls (fun _ l => l <= t + v_duration v);
  ok_slots : forall i s, v_slots v !! i = Some s -> s_lease s <= t + v_duration v;
  ok_one : one_holder t ls;
  ok_held : forall j s, v_master v = Z.of_nat j -> v_slots v !! j = Some s ->
    running t ls (fun a l => same_server a (s_addr s) /\ l <= s_lease s);
  ok_free : v_master v = -1 ->
    running t ls (fun _ l => v_finish v = 0 \/ 0 < v_finish v /\ l <= v_finish v);
  ok_select : forall master force i wake, C_select master force i wake ∈ cs ->
    (exists j s, i = Z.of_nat j /\ v_slots v !! j = Some s) /\
    (v_master v = -1 -> running t ls (fun _ l => l <= wake));
  ok_replace : replacing ck = true -> v_master v = -1 -> running t ls (fun _ _ => False);
  ok_idle : v_finish v = 0 -> v_master v = -1 /\
    (all_offline v \/ replacing ck = false /\ exists c, c ∈ cs /\ selecting c = true) }.

Definition inv (s : System) : Prop :=
  table_ok (view (mgr s)) /\ leases_ok (view (mgr s)) (clock s) (checker s) (calls s) (leases s).

Lemma running_mono t t' ls (P Q : ObServer -> Z -> Prop) :
  t <= t' -> (forall a l, t' < l -> P a l -> Q a l) -> running t ls P -> running t' ls Q.
Proof. intros Ht HPQ H a l Hin Hl. apply HPQ; [done|]. apply H; [done|lia]. Qed.

Lemma insert_cases {A} (l : list A) i x j y :
  <[i := x]> l !! j = Some y -> i = j /\ x = y \/ i <> j /\ l !! j = Some y.
Proof. intros [(? & ? & _)|?]%list_lookup_insert_Some; auto. Qed.

(** *** The table *)

(** A slot changes and perhaps the master with it. *)
Lemma table_insert v i s s' mu f :
  table_ok v -> v_slots v !! i = Some s ->
  (mu = -1 \/ exists j s, mu = Z.of_nat j /\ v_slots v !! j = Some s) ->
  (s_stat s' = UPS_STAT_MASTER <-> mu = Z.of_nat i) ->
  (forall j w, j <> i -> v_slots v !! j = Some w ->
     s_stat w = UPS_STAT_MASTER <-> mu = Z.of_nat j) ->
  (online s' -> ~ same_server (s_addr s') ObServer_new /\
     forall j w, j <> i -> v_slots v !! j = Some w -> online w ->
       ~ same_server (s_addr w) (s_addr s')) ->
  table_ok (v_with_finish (v_with_master (v_with_slot v i s') mu) f).
Proof.
  intros [Hlen Hm Hst Had Hnm] Hs Hmu Hs' Hothers Hon. split; cbn.
  - by rewrite length_insert.
  - destruct Hmu as [->|(j & w & -> & Hj)]; [by left|right].
    exists j. destruct (decide (j = i)) as [->|Hne].
    + exists s'. split; [done|]. by apply (v_with_slot_lookup v i s).
    + exists w. split; [done|]. by rewrite list_lookup_insert_ne.
  - intros j w [[<- <-]|[Hne Hj]]%insert_cases; [done|]. by apply Hothers.
  - intros j k w w' [[<- <-]|[Hne Hj]]%insert_cases [[<- <-]|[Hne' Hk]]%insert_cases Ho Ho' Hsame.
    + done.
    + exfalso. destruct (Hon Ho) as [_ H]. apply (H k w'); [congruence|done|done|]. by symmetry.
    + exfalso. destruct (Hon Ho') as [_ H]. by apply (H j w); [congruence| | |].
    + by apply (Had j k w w').
  - intros j w [[<- <-]|[Hne Hj]]%insert_cases Ho; [by apply Hon|by apply (Hnm j w)].
Qed.

Lemma v_eta v : v_with_master v (v_master v) = v.
Proof. by destruct v. Qed.

Lemma v_eta_finish v : v_with_finish v (v_finish v) = v.
Proof. by destruct v. Qed.

(** A slot keeps its server and changes between the states of a slave, or goes
    offline. *)
Lemma table_slave v i s stat f :
  table_ok v -> v_slots v !! i = Some s -> online s -> s_stat s <> UPS_STAT_MASTER ->
  stat <> UPS_STAT_MASTER ->
  table_ok (v_with_finish (v_with_slot v i (mkSlot (s_addr s) stat (s_lease s))) f).
Proof.
  intros Hok Hs Ho Hns Hstat. pose proof Hok as [Hlen Hm Hst Had Hnm].
  rewrite <- (v_eta (v_with_slot _ _ _)). apply table_insert with s; try done; cbn.
  - split; [done|]. intros E. destruct Hns. by apply (Hst i).
  - intros j w _ Hj. by apply Hst.
  - intros _. split; [by apply (Hnm i)|]. intros j w Hne Hj Hw Hsame. apply Hne.
    by apply (Had j i w s).
Qed.

(** The new master was a server of the table. *)
Lemma table_elect v i s f :
  table_ok v -> v_slots v !! i = Some s -> online s ->
  v_master v = -1 \/ v_master v = Z.of_nat i ->
  table_ok (v_with_finish
    (v_with_master (v_with_slot v i (mkSlot (s_addr s) UPS_STAT_MASTER (s_lease s))) (Z.of_nat i)) f).
Proof.
  intros Hok Hs Ho Hmu. pose proof Hok as [Hlen Hm Hst Had Hnm].
  apply table_insert with s; try done; cbn.
  - right. eauto.
  - intros j w Hne Hj. rewrite (Hst j w Hj). split; [|lia]. intros E. destruct Hmu; lia.
  - intros _. split; [by apply (Hnm i)|]. intros j w Hne Hj Hw Hsame. apply Hne.
    by apply (Had j i w s).
Qed.

Lemma table_finish v f : table_ok v -> table_ok (v_with_finish v f).
Proof. by intros []. Qed.

(** *** The leases *)

Lemma leases_time v t t' ck cs ls :
  t <= t' -> leases_ok v t ck cs ls -> leases_ok v t' ck cs ls.
Proof.
  intros Ht []. split; try done; try lia.
  - eapply running_mono; [exact Ht| |done]. cbn. lia.
  - intros i s Hs. specialize (ok_slots0 i s Hs). lia.
  - intros a l a' l' Ha Ha' Hl Hl'. apply (ok_one0 a l a' l'); [done|done|lia|lia].
  - intros j s Hj Hs. eapply running_mono; [exact Ht| |exact (ok_held0 j s Hj Hs)]. done.
  - intros Hm. eapply running_mono; [exact Ht| |exact (ok_free0 Hm)]. done.
  - intros master force i wake Hin. destruct (ok_select0 _ _ _ _ Hin) as [Hi Hw].
    split; [done|]. intros Hm. eapply running_mono; [exact Ht| |exact (Hw Hm)]. done.
  - intros Hr Hm. eapply running_mono; [exact Ht| |exact (ok_replace0 Hr Hm)]. done.
Qed.

Lemma leases_checker v t ck ck' cs ls :
  (replacing ck' = true -> replacing ck = true) ->
  leases_ok v t ck cs ls -> leases_ok v t ck' cs ls.
Proof.
  intros Hck []. split; try done; [intros Hr; apply ok_replace0; auto|].
  intros Hf. destruct (ok_idle0 Hf) as [Hm [Ha|[Hr Hc]]]; [auto|].
  split; [done|right]. split; [|done]. apply not_true_iff_false. intros H%Hck. congruence.
Qed.

(** Calls that are not waiting to select come and go. *)
Lemma leases_calls v t ck cs cs' ls :
  (forall c, selecting c = true -> c ∈ cs' -> c ∈ cs) ->
  (v_finish v = 0 -> forall c, selecting c = true -> c ∈ cs -> c ∈ cs') ->
  leases_ok v t ck cs ls -> leases_ok v t ck cs' ls.
Proof.
  intros Hin Hout []. split; try done.
  - intros master force i wake H. apply (ok_select0 master force i wake). by apply Hin.
  - intros Hf. destruct (ok_idle0 Hf) as [Hm [Ha|(Hr & c & Hc & Hs)]]; [auto|].
    split; [done|right]. split; [done|]. exists c. auto.
Qed.

(** With no lease running only the bookkeeping is left. *)
Lemma leases_none v t ck cs ls :
  0 < t -> 0 <= v_duration v < 2 ^ 32 /\ v_duration v <= v_register_duration v ->
  running t ls (fun _ _ => False) ->
  (forall i s, v_slots v !! i = Some s -> s_lease s <= t + v_duration v) ->
  (forall master force i wake, C_select master force i wake ∈ cs ->
     exists j s, i = Z.of_nat j /\ v_slots v !! j = Some s) ->
  (v_finish v = 0 -> v_master v = -1 /\
    (all_offline v \/ replacing ck = false /\ exists c, c ∈ cs /\ selecting c = true)) ->
  leases_ok v t ck cs ls.
Proof.
  intros Ht Hd Hnone Hslots Hsel Hidle.
  assert (forall P, running t ls P) as H by (intros P a l Hin Hl; by destruct (Hnone a l Hin Hl)).
  split; try done.
  - intros a l a' l' Ha _ Hl. by destruct (Hnone a l Ha Hl).
  - intros master force i wake Hin. split; [by eapply Hsel|done].
Qed.

Lemma leases_slot v t ck cs ls i s s' :
  v_slots v !! i = Some s -> v_master v <> Z.of_nat i -> s_lease s' <= t + v_duration v ->
  (v_finish v = 0 -> all_offline v -> all_offline (v_with_slot v i s')) ->
  leases_ok v t ck cs ls -> leases_ok (v_with_slot v i s') t ck cs ls.
Proof.
  intros Hs Hm Hle Hoff []. split; try done; cbn.
  - intros j w [[<- <-]|[_ Hw]]%insert_cases; [done|by apply (ok_slots0 j)].
  - intros j w Hj [[<- <-]|[Hne Hw]]%insert_cases; [congruence|by apply (ok_held0 j)].
  - intros master force k wake Hin. destruct (ok_select0 _ _ _ _ Hin) as [(j & w & -> & Hw) H].
    split; [|done]. exists j. destruct (decide (i = j)) as [<-|Hne].
    + exists s'. split; [done|]. by apply (v_with_slot_lookup v i s).
    + exists w. split; [done|]. by rewrite list_lookup_insert_ne.
  - intros Hf. destruct (ok_idle0 Hf) as [Hmu [Ha|Hc]]; [|auto]. split; [done|]. left. by apply Hoff.
Qed.

Lemma leases_finish v t ck cs ls f :
  (v_master v = -1 -> running t ls (fun _ l => f = 0 \/ 0 < f /\ l <= f)) ->
  (f = 0 -> v_master v = -1 /\
    (all_offline v \/ replacing ck = false /\ exists c, c ∈ cs /\ selecting c = true)) ->
  leases_ok v t ck cs ls -> leases_ok (v_with_finish v f) t ck cs ls.
Proof. intros Hf Hi []. by split. Qed.

(** The existence of the slots calls wait for depends on the length only. *)
Lemma slots_exist v v' t ck cs ls :
  leases_ok v t ck cs ls -> length (v_slots v') = length (v_slots v) ->
  forall master force i wake, C_select master force i wake ∈ cs ->
    exists j s, i = Z.of_nat j /\ v_slots v' !! j = Some s.
Proof.
  intros H Hl master force i wake Hin.
  destruct (ok_select _ _ _ _ _ H _ _ _ _ Hin) as [(j & s & -> & Hs) _].
  apply lookup_lt_Some in Hs. rewrite <- Hl in Hs.
  destruct (lookup_lt_is_Some_2 _ _ Hs) as [w Hw]. by exists j, w.
Qed.

Lemma leases_elect v t ck cs ls i s f :
  leases_ok v t ck cs ls -> v_slots v !! i = Some s -> running t ls (fun _ _ => False) -> f <> 0 ->
  leases_ok (v_with_finish
    (v_with_master (v_with_slot v i (mkSlot (s_addr s) UPS_STAT_MASTER (s_lease s))) (Z.of_nat i)) f)
    t ck cs ls.
Proof.
  intros H Hs Hn Hf. pose proof (ok_slots _ _ _ _ _ H) as Hslots.
  apply leases_none; try done; [by destruct H|by destruct H| |].
  { intros j w [[<- <-]|[_ Hw]]%insert_cases; [exact (Hslots i s Hs)|exact (Hslots j w Hw)]. }
  apply (slots_exist v _ t ck cs ls H). cbn. by rewrite length_insert.
Qed.

(** *** The sections *)

Lemma table_no_master v : table_ok v -> v_has_master v = false -> v_master v = -1.
Proof.
  intros [Hlen [H|(j & s & Hj & Hs)] _ _ _] Hm; [done|]. exfalso.
  apply not_true_iff_false in Hm. apply Hm, v_has_master_spec. apply lookup_lt_Some in Hs. lia.
Qed.

Lemma table_offline_not_master v i s :
  table_ok v -> v_slots v !! i = Some s -> ~ online s -> v_master v <> Z.of_nat i.
Proof. intros [_ _ Hst _ _] Hs Ho E. apply Ho. unfold online. by rewrite (proj2 (Hst i s Hs) E). Qed.

Lemma register_ok v v' now ck cs ls addr lease i s :
  table_ok v -> leases_ok v now ck cs ls ->
  ~ same_server addr ObServer_new ->
  (now < lease -> exists a, (a, lease) ∈ ls /\ same_server a addr) ->
  unregistered addr v -> v_slots v !! i = Some s -> ~ online s ->
  (let put stat := v_with_slot v i (mkSlot addr stat (now + v_duration v)) in
    (now < lease /\ v_has_master v = true /\
     v' = v_with_finish (put UPS_STAT_OFFLINE) (finish_after now v)) \/
    (now < lease /\ v_has_master v = false /\
     v' = v_with_finish (v_with_master (put UPS_STAT_MASTER) (Z.of_nat i)) (-1)) \/
    (lease <= now /\ v' = v_with_finish (put UPS_STAT_NOTSYNC) (finish_after now v))) ->
  table_ok v' /\ leases_ok v' now ck cs ls.
Proof.
  intros Ht Hl Hnull Hclaim Hunreg Hs Ho Hv.
  pose proof (table_offline_not_master v i s Ht Hs Ho) as Hi.
  pose proof Ht as [Hlen Hm Hst Had Hnm].
  assert (0 < now + v_register_duration v /\ running now ls (fun _ l => l <= now + v_register_duration v))
    as [Hpos Hreg].
  { pose proof Hl as []. split; [lia|]. eapply running_mono; [reflexivity| |done]. cbn. lia. }
  assert (leases_ok (v_with_finish v (finish_after now v)) now ck cs ls) as Hfin.
  { unfold finish_after. destruct (Z.eqb_spec 0 (v_finish v)) as [E|E]; [|by rewrite v_eta_finish].
    apply leases_finish; [|lia|done]. intros _. eapply running_mono; [reflexivity| |exact Hreg].
    cbn. lia. }
  assert (finish_after now v <> 0) as Hf0
    by (unfold finish_after; destruct (Z.eqb_spec 0 (v_finish v)); lia).
  assert (forall j w, j <> i -> v_slots v !! j = Some w -> online w -> ~ same_server (s_addr w) addr)
    as Hother by (intros j w _ Hj Hw; by apply (Hunreg j)).
  assert (forall stat, stat <> UPS_STAT_MASTER -> table_ok
    (v_with_finish (v_with_slot v i (mkSlot addr stat (now + v_duration v))) (finish_after now v))) as Hput.
  { intros stat Hstat. rewrite <- (v_eta (v_with_slot _ _ _)). apply table_insert with s; try done; cbn.
    intros j w _ Hj. by apply Hst. }
  destruct Hv as [(_ & _ & ->)|[(Hlt & Hno & ->)|(_ & ->)]].
  - split; [by apply Hput|]. by apply (leases_slot (v_with_finish v _) _ _ _ _ i s).
  - apply table_no_master in Hno; [|done]. split.
    + apply table_insert with s; try done; cbn; [right; eauto|].
      intros j w Hne Hj. rewrite (Hst j w Hj). lia.
    + destruct (Hclaim Hlt) as (a & Ha & Hsame). pose proof Hl as []. split; try done; try lia; cbn.
      * intros j w [[<- <-]|[_ Hw]]%insert_cases; [done|by apply (ok_slots0 j)].
      * intros j w E%Nat2Z.inj Hw. subst j. rewrite list_lookup_insert_eq in Hw by
          (by apply lookup_lt_Some in Hs). injection Hw as <-. cbn. intros a' l' Ha' Hl'.
        split; [|by apply (ok_bound0 a')]. etrans; [|exact Hsame]. by apply (ok_one0 a' l' a lease).
      * lia.
      * intros master force k wake Hin. split; [|lia].
        eapply (slots_exist v (v_with_slot v i _)); [done|cbn; by rewrite length_insert|exact Hin].
      * lia.
  - split; [by apply Hput|]. by apply (leases_slot (v_with_finish v _) _ _ _ _ i s).
Qed.

Lemma slave_change_ok v now ck cs ls i s stat :
  table_ok v -> leases_ok v now ck cs ls -> v_slots v !! i = Some s -> online s ->
  s_stat s <> UPS_STAT_MASTER -> stat <> UPS_STAT_MASTER ->
  let v' := v_with_slot v i (mkSlot (s_addr s) stat (s_lease s)) in
  table_ok v' /\ leases_ok v' now ck cs ls.
Proof.
  intros Ht Hl Hs Ho Hns Hstat. cbv zeta. split.
  - rewrite <- (v_eta_finish (v_with_slot _ _ _)). by apply table_slave.
  - apply leases_slot with s; try done; [|exact (ok_slots _ _ _ _ _ Hl i s Hs)|].
    + intros E. apply Hns. by apply (table_stats v Ht i s Hs).
    + intros _ Hall. by destruct (Hall i s Hs).
Qed.

(** Messages with one lease to some of the servers that are not offline. *)
Lemma granted_messages (p : ObUps -> bool) m lease a l :
  (forall u, p u = true -> offline u = false) ->
  (a, l) ∈ granted ((fun u => (addr_ u, granting_msg m lease)) <$> List.filter p (ups_array_ m)) ->
  exists i u, ups_array_ m !! i = Some u /\ online (slot_of u) /\ p u = true /\ a = addr_ u /\ l = lease /\
    same_server a (if has_master m then addr_ (slot m (ups_master_idx_ m)) else ObServer_new).
Proof.
  intros Hp. unfold granted. rewrite list_elem_of_omap.
  intros ([b msg] & Hin & Hb). apply list_elem_of_fmap in Hin as (u & [= -> ->] & Hu).
  cbn in Hb. destruct (server_eqb (addr_ u) _) eqn:E; [|done]. injection Hb as <- <-.
  apply list_elem_of_In, filter_In in Hu as [Hu Hg].
  apply list_elem_of_In, list_elem_of_lookup in Hu as [i Hi].
  exists i, u. split; [done|]. split; [|done].
  apply Hp in Hg. by rewrite offline_spec, negb_false_iff, bool_decide_eq_true in Hg.
Qed.

Lemma granted_spec force now m m' msgs a l :
  grant_lease force now m = (m', msgs) -> (a, l) ∈ granted msgs ->
  exists i u, ups_array_ m !! i = Some u /\ online (slot_of u) /\ grants force now m u = true /\
    a = addr_ u /\ l = now + lease_duration_us_ m /\
    same_server a (if has_master m then addr_ (slot m (ups_master_idx_ m)) else ObServer_new).
Proof.
  unfold grant_lease. intros [= _ <-]. apply granted_messages. intros u Hg.
  unfold grants in Hg. apply andb_true_iff in Hg as [Ho _]. by apply negb_true_iff.
Qed.

Lemma grant_table force now m m' msgs :
  grant_lease force now m = (m', msgs) -> table_ok (view m) -> table_ok (view m').
Proof.
  intros (Ev & El & Hu)%grant_lease_view [Hlen Hm Hst Had Hnm].
  assert (forall i s', v_slots (view m') !! i = Some s' -> exists s, v_slots (view m) !! i = Some s /\
    s_addr s' = s_addr s /\ s_stat s' = s_stat s) as Hback.
  { intros i s' (u' & Hi & ->)%view_slots_lookup.
    destruct (ups_array_ m !! i) as [u|] eqn:E.
    - destruct (Hu i u E) as (w & Hw & ? & ? & _). rewrite Hi in Hw. injection Hw as <-.
      exists (slot_of u). rewrite view_slots_lookup. eauto.
    - apply lookup_lt_Some in Hi. apply lookup_ge_None in E. lia. }
  assert (v_master (view m') = v_master (view m)) as Emu by (by rewrite Ev).
  split.
  - cbn in *. rewrite !length_fmap in *. congruence.
  - rewrite Emu. destruct Hm as [Hm|(j & s & Hj & (u & Hju & ->)%view_slots_lookup)]; [by left|right].
    destruct (Hu j u Hju) as (w & Hw & _). exists j, (slot_of w). split; [done|].
    apply view_slots_lookup. eauto.
  - intros i s' (s & Hs & Ha & Hstat)%Hback. rewrite Hstat, Emu. by apply Hst.
  - intros i j w w' (s & Hs & Ha & Hstat)%Hback (s' & Hs' & Ha' & Hstat')%Hback. unfold online.
    rewrite Hstat, Hstat', Ha, Ha'. by apply Had.
  - intros i w (s & Hs & Ha & Hstat)%Hback. unfold online. rewrite Hstat, Ha. by apply (Hnm i).
Qed.

(** A server that is told to be the master is the master. *)
Lemma told_master m i u :
  table_ok (view m) -> ups_array_ m !! i = Some u -> online (slot_of u) ->
  same_server (addr_ u) (if has_master m then addr_ (slot m (ups_master_idx_ m)) else ObServer_new) ->
  v_master (view m) = Z.of_nat i.
Proof.
  intros [Hlen Hm Hst Had Hnm] Hi Ho Hsame.
  assert (v_slots (view m) !! i = Some (slot_of u)) as Hv by (apply view_slots_lookup; eauto).
  destruct Hm as [E|(j & s & Hj & Hs)].
  - exfalso. replace (has_master m) with false in Hsame
      by (symmetry; rewrite has_master_view; unfold v_has_master; rewrite E; done).
    by apply (Hnm i (slot_of u)).
  - replace (has_master m) with true in Hsame
      by (symmetry; rewrite has_master_view; apply v_has_master_spec; apply lookup_lt_Some in Hs; lia).
    change (ups_master_idx_ m) with (v_master (view m)) in Hsame. rewrite Hj in Hsame |- *.
    change (addr_ (slot m (Z.of_nat j))) with (s_addr (slot_of (slot m (Z.of_nat j)))) in Hsame.
    rewrite (view_slot _ _ _ Hs) in Hsame. f_equal. symmetry. apply (Had i j (slot_of u) s); try done.
    unfold online. by rewrite (proj2 (Hst j s Hs) Hj).
Qed.

(** Without a master nobody is told to be one. *)
Lemma granted_none force now m m' msgs :
  grant_lease force now m = (m', msgs) -> table_ok (view m) -> v_master (view m) = -1 ->
  granted msgs = [].
Proof.
  intros Hg Ht E. destruct (granted msgs) as [|[a l] g] eqn:Eg; [done|exfalso].
  destruct (granted_spec _ _ _ _ _ a l Hg) as (i & u & Hi & Ho & _ & -> & _ & Hsame);
    [rewrite Eg; apply list_elem_of_here|].
  apply told_master with (i := i) in Hsame; try done. lia.
Qed.

(** Only the master is told to be the master, with its new lease. *)
Lemma granted_master force now m m' msgs j s a l :
  grant_lease force now m = (m', msgs) -> table_ok (view m) ->
  v_master (view m) = Z.of_nat j -> v_slots (view m) !! j = Some s -> (a, l) ∈ granted msgs ->
  same_server a (s_addr s) /\ l = now + v_duration (view m) /\
  forall u, ups_array_ m !! j = Some u -> grants force now m u = true.
Proof.
  intros Hg Ht Hj Hs Hin.
  destruct (granted_spec _ _ _ _ _ a l Hg Hin) as (i & u & Hi & Ho & Hgr & -> & -> & Hsame).
  apply told_master with (i := i) in Hsame; try done. assert (i = j) as -> by lia.
  apply view_slots_lookup in Hs as (u' & Hu' & ->). rewrite Hi in Hu'. injection Hu' as <-.
  split; [done|]. split; [done|]. intros w Hw. rewrite Hi in Hw. by injection Hw as <-.
Qed.

(** The leases the heartbeat thread sends when it stops are the master's. *)
Lemma stop_one_holder now s : clock s = now -> inv s -> one_holder now (leases (heartbeat_step true now s)).
Proof.
  intros Hc [Ht Hl]. rewrite Hc in Hl. cbn.
  assert (forall a l, (a, l) ∈ granted (grant_eternal_lease (mgr s)) -> exists j sj,
    v_master (view (mgr s)) = Z.of_nat j /\ v_slots (view (mgr s)) !! j = Some sj /\ a = s_addr sj) as Hnew.
  { intros a l Hin. apply (granted_messages (fun u => negb (offline u))) in Hin
      as (i & u & Hi & Ho & _ & -> & _ & Hsame); [|intros u; apply negb_true_iff].
    exists i, (slot_of u). apply told_master with (i := i) in Hsame; try done.
    split; [done|]. split; [apply view_slots_lookup; eauto|done]. }
  pose proof (ok_held _ _ _ _ _ Hl) as Hheld.
  intros a l a' l' [Ha|Ha]%elem_of_app [Ha'|Ha']%elem_of_app Hlt Hlt'.
  - apply Hnew in Ha as (j & sj & Hj & Hsj & ->), Ha' as (k & sk & Hk & Hsk & ->).
    assert (k = j) as -> by lia. rewrite Hsj in Hsk. by injection Hsk as ->.
  - apply Hnew in Ha as (j & sj & Hj & Hsj & ->). symmetry. by apply (Hheld j sj Hj Hsj a' l').
  - apply Hnew in Ha' as (j & sj & Hj & Hsj & ->). by apply (Hheld j sj Hj Hsj a l).
  - by apply (ok_one _ _ _ _ _ Hl a l a' l').
Qed.

Lemma grant_all_offline force now m m' msgs :
  grant_lease force now m = (m', msgs) -> all_offline (view m) -> all_offline (view m').
Proof.
  intros (_ & El & Hu)%grant_lease_view Ha i s' (w & Hw & ->)%view_slots_lookup.
  destruct (ups_array_ m !! i) as [u|] eqn:Eu.
  - destruct (Hu i u Eu) as (w' & Hw' & _ & Hstat & _). rewrite Hw in Hw'. injection Hw' as <-.
    specialize (Ha i (slot_of u)). rewrite view_slots_lookup in Ha. unfold online in *. cbn in *.
    rewrite Hstat. apply Ha. eauto.
  - apply lookup_lt_Some in Hw. apply lookup_ge_None in Eu. lia.
Qed.

Lemma grant_leases force now m m' msgs ck cs ls :
  grant_lease force now m = (m', msgs) -> table_ok (view m) ->
  leases_ok (view m) now ck cs ls -> leases_ok (view m') now ck cs (granted msgs ++ ls).
Proof.
  intros Hg Ht Hl. pose proof (grant_lease_view _ _ _ _ _ Hg) as (Ev & El & Hu).
  pose proof Ht as [Hlen Hm Hst Had Hnm].
  assert (v_master (view m') = v_master (view m)) as Emu by (by rewrite Ev).
  pose proof (granted_none _ _ _ _ _ Hg Ht) as Hnone.
  pose proof (fun j s a l => granted_master _ _ _ _ _ j s a l Hg Ht) as Hnew.
  destruct Hl. split; try done; rewrite ?Emu.
  - by rewrite Ev.
  - intros a l [Hin|Hin]%elem_of_app Hlt; rewrite Ev; cbn; [|by apply (ok_bound0 a)].
    destruct (granted_spec _ _ _ _ _ a l Hg Hin) as (_ & _ & _ & _ & _ & _ & -> & _). done.
  - intros i s' (u' & Hu' & ->)%view_slots_lookup. rewrite Ev. cbn.
    destruct (ups_array_ m !! i) as [u|] eqn:Eu;
      [|apply lookup_lt_Some in Hu'; apply lookup_ge_None in Eu; lia].
    destruct (Hu i u Eu) as (w & Hw & _ & _ & Hle). rewrite Hu' in Hw. injection Hw as <-.
    rewrite Hle. destruct (grants _ _ _ _); [done|]. apply (ok_slots0 i (slot_of u)), view_slots_lookup. eauto.
  - destruct Hm as [Hm|(j & s & Hj & Hs)]; [by rewrite (Hnone Hm)|].
    assert (forall a l, (a, l) ∈ granted msgs ++ ls -> now < l -> same_server a (s_addr s)) as H.
    { intros a l [Hin|Hin]%elem_of_app Hlt; [by apply (Hnew j s a l Hj Hs)|].
      by apply (ok_held0 j s Hj Hs a l). }
    intros a l a' l' Ha Ha' Hlt Hlt'. etrans; [by apply (H a l)|]. symmetry. by apply (H a' l').
  - intros j s' Hj (u' & Hu' & ->)%view_slots_lookup a l Hin Hlt.
    destruct Hm as [Hm|(j' & s & Hj' & Hs)]; [lia|].
    assert (j' = j) as -> by lia. apply view_slots_lookup in Hs as Hs2.
    destruct Hs2 as (u & Hju & ->). destruct (Hu j u Hju) as (w & Hw & Ha & _ & Hle).
    rewrite Hu' in Hw. injection Hw as <-. cbn [slot_of s_addr s_lease]. rewrite Ha, Hle.
    apply elem_of_app in Hin as [Hin|Hin].
    + destruct (Hnew j _ a l Hj Hs Hin) as (Hsame & -> & Hgr). rewrite (Hgr u Hju). done.
    + destruct (ok_held0 j _ Hj Hs a l Hin Hlt) as [Hsame Hb]. split; [done|].
      destruct (grants force now m u); [by apply (ok_bound0 a)|done].
  - intros E. rewrite (Hnone E). rewrite Ev. by apply ok_free0.
  - intros master f i wake Hin. destruct (ok_select0 _ _ _ _ Hin) as [(j & s & -> & Hs) Hw]. split.
    + exists j. apply view_slots_lookup in Hs as (u & Hju & ->).
      destruct (Hu j u Hju) as (w & Hww & _). exists (slot_of w). split; [done|].
      apply view_slots_lookup. eauto.
    + intros E. rewrite (Hnone E). by apply Hw.
  - intros Hr E. rewrite (Hnone E). by apply ok_replace0.
  - replace (v_finish (view m')) with (v_finish (view m)) by (by rewrite Ev).
    intros Hf. destruct (ok_idle0 Hf) as [E [Ha|Hc]]; (split; [done|]); [left|by right].
    by apply (grant_all_offline _ _ _ _ _ Hg).
Qed.

Lemma elects_ok v v' f t ck cs ls :
  table_ok v -> leases_ok v t ck cs ls -> elects v v' -> running t ls (fun _ _ => False) -> f <> 0 ->
  table_ok (v_with_finish v' f) /\ leases_ok (v_with_finish v' f) t ck cs ls.
Proof.
  intros Ht Hl (Hm & i & s & Hs & Ho & ->) Hn Hf. split; [|by apply leases_elect].
  apply table_elect; auto.
Qed.

Lemma check_exist_ok f now m ret m' ck cs ls :
  check_ups_master_exist f now m = (ret, m') ->
  table_ok (view m) -> leases_ok (view m) now ck cs ls ->
  table_ok (view m') /\ leases_ok (view m') now ck cs ls.
Proof.
  intros H Ht Hl.
  apply check_ups_master_exist_view in H as [->|[[Hf [[Hm ->]|(v & He & ->)]]|[Hf He]]]; [done| | |].
  - split; [by apply table_finish|]. by apply leases_finish.
  - apply (elects_ok (view m)); try done. eapply running_mono; [reflexivity| |].
    2: apply (ok_free _ _ _ _ _ Hl), He. cbv beta. lia.
  - rewrite <- (v_eta_finish (view m')). apply (elects_ok (view m)); try done.
    + eapply running_mono; [reflexivity| |apply (ok_free _ _ _ _ _ Hl), He]. cbv beta. lia.
    + destruct He as (_ & i & s & _ & _ & E). rewrite E. cbn in Hf |- *. lia.
Qed.

Lemma check_select_ok f now m ret m' cs ls :
  select_new_ups_master f now m = (ret, m') ->
  table_ok (view m) -> leases_ok (view m) now CK_select cs ls ->
  table_ok (view m') /\ leases_ok (view m') now CK_test cs ls.
Proof.
  intros H Ht Hl. enough (table_ok (view m') /\ leases_ok (view m') now CK_select cs ls) as [? Hl'].
  { split; [done|]. by apply (leases_checker _ _ CK_select). }
  apply select_new_view in H as [->|He]; [done|].
  rewrite <- (v_eta_finish (view m')). apply (elects_ok (view m)); try done.
  - apply (ok_replace _ _ _ _ _ Hl); [done|apply He].
  - destruct He as (_ & i & s & Hs & Ho & E). rewrite E. cbn.
    intros [_ [Ha|[? _]]]%(ok_idle _ _ _ _ _ Hl); [|done]. by apply (Ha i s).
Qed.

Lemma check_slot_ok i now m did m' did' ck ck' cs ls :
  check_lease_slot (Z.of_nat i) now m did = (m', did') -> replacing ck = did ->
  (replacing ck' = true -> did' = true) ->
  table_ok (view m) -> leases_ok (view m) now ck cs ls ->
  table_ok (view m') /\ leases_ok (view m') now ck' cs ls.
Proof.
  intros H Hck Hck' Ht Hl. pose proof Ht as [Hlen Hm Hst Had Hnm].
  apply check_lease_slot_view in H as [[-> ->]|(s & f & Hs & Ho & Hle & Hset & Hcase)].
  { split; [done|]. apply (leases_checker _ _ ck); [|done].
    intros E. by rewrite Hck, Hck'. }
  set (gone := v_with_slot _ _ _) in *.
  assert (all_offline (view m) -> all_offline gone) as Hoff by (intros Ha; by destruct (Ha i s Hs)).
  assert (0 <= now + v_duration (view m)) as H0.
  { destruct Hl. lia. }
  destruct Hcase as [(Hmst & -> & ->)|(Hmst & -> & ->)].
  - assert (v_master (view m) = Z.of_nat i) as E by (by apply (Hst i s)).
    assert (v_finish (view m) <> 0) as Hf0 by (intros [E' _]%(ok_idle _ _ _ _ _ Hl); lia).
    split.
    + apply table_insert with s; try done; [by left|cbn; split; [done|lia]|].
      intros j w Hne Hj. rewrite (Hst j w Hj). lia.
    + apply leases_none; try (by destruct Hl).
      * eapply running_mono; [reflexivity| |exact (ok_held _ _ _ _ _ Hl i s E Hs)]. cbn. lia.
      * intros j w [[<- <-]|[_ Hw]]%insert_cases; [done|]. exact (ok_slots _ _ _ _ _ Hl j w Hw).
      * apply (slots_exist (view m) _ _ _ _ _ Hl). cbn. by rewrite length_insert.
      * cbn. intros ->. split; [done|left]. by destruct Hset as [[E' _]|[_ Ha]].
  - assert (v_master (view m) <> Z.of_nat i) as Hne by (intros E; apply Hmst; by apply (Hst i)).
    assert (leases_ok gone now ck' cs ls) as Hg.
    { apply leases_slot with s; try done. apply (leases_checker _ _ ck); [|done].
      intros E. by rewrite Hck, Hck'. }
    split.
    + rewrite <- (v_eta gone). apply table_insert with s; try done; cbn.
      intros j w _ Hj. by apply Hst.
    + destruct Hset as [[-> _]|[-> Ha]]; [by rewrite v_eta_finish|].
      apply leases_finish; [by left| |done]. intros _. split; [|by left].
      destruct Hm as [Hm|(j & w & Hj & Hw)]; [done|exfalso].
      apply (Ha j w); [cbn; rewrite list_lookup_insert_ne; [done|congruence]|].
      unfold online. by rewrite (proj2 (Hst j w Hw) Hj).
Qed.

Lemma given_back_spec now m ls a l j s :
  v_master (view m) = Z.of_nat j -> v_slots (view m) !! j = Some s -> (j < MAX_UPS_COUNT)%nat ->
  now < s_lease s -> (a, l) ∈ given_back now m ls -> (a, l) ∈ ls /\ ~ same_server a (s_addr s).
Proof.
  intros Hm Hs Hj Hl. unfold given_back.
  rewrite is_master_lease_valid_view, (v_lease_valid_spec now _ j s) by done.
  replace (now <? s_lease s) with true by lia.
  change (ups_master_idx_ m) with (v_master (view m)). rewrite Hm.
  change (addr_ ?u) with (s_addr (slot_of u)). rewrite (view_slot _ _ _ Hs).
  rewrite list_elem_of_In, filter_In, negb_true_iff, <- list_elem_of_In.
  intros [Hin Hne]. split; [done|]. unfold same_server. congruence.
Qed.

Lemma given_back_subset now m ls a l : (a, l) ∈ given_back now m ls -> (a, l) ∈ ls.
Proof.
  unfold given_back. destruct (is_master_lease_valid now m); [|done].
  rewrite !list_elem_of_In, filter_In. by intros [].
Qed.

(** The first section of [set_ups_master], when it goes on to the second: the
    call for slot [k] joins the calls, which do not select. *)
Section revoke.
Context (v : View) (now now2 : Z) (ck : check_pc) (cs : list call) (ls ls' : list (ObServer * Z)).
Context (master : ObServer) (force : bool) (k : nat) (sk : slot_view) (waiting : Z).
Context (Hnow : now <= now2) (Ht : table_ok v) (Hl : leases_ok v now ck cs ls).
Context (Hck : replacing ck = false) (Hcs : forall c, c ∈ cs -> selecting c = false).
Context (Hsub : forall a l, (a, l) ∈ ls' -> (a, l) ∈ ls) (Hk : v_slots v !! k = Some sk).

Let c := C_select master force (Z.of_nat k) (now2 + u32 waiting).

Lemma revoke_running (P Q : ObServer -> Z -> Prop) :
  (forall a l, now2 < l -> (a, l) ∈ ls' -> P a l -> Q a l) -> running now ls P -> running now2 ls' Q.
Proof. intros HPQ HP a l Hin Hlt. apply HPQ; [done|done|]. apply HP; [by apply Hsub|lia]. Qed.

Lemma revoke_call_slot i s' ma fo idx wake :
  C_select ma fo idx wake ∈ c :: cs ->
  idx = Z.of_nat k /\ wake = now2 + u32 waiting /\ is_Some (<[i := s']> (v_slots v) !! k).
Proof.
  intros [Heq|Hin]%elem_of_cons; [|by specialize (Hcs _ Hin)].
  injection Heq as -> -> -> ->. split; [done|]. split; [done|].
  apply lookup_lt_is_Some_2. rewrite length_insert. by apply lookup_lt_Some in Hk.
Qed.

Lemma revoke_slots i s' : s_lease s' <= now + v_duration v ->
  forall j w, <[i := s']> (v_slots v) !! j = Some w -> s_lease w <= now2 + v_duration v.
Proof.
  intros Hs' j w [[<- <-]|[_ Hw]]%insert_cases; [lia|].
  pose proof (ok_slots _ _ _ _ _ Hl j w Hw). lia.
Qed.

(** No lease is running any more. *)
Lemma revoke_none i s' mu :
  v_finish v <> 0 -> running now2 ls' (fun _ _ => False) -> s_lease s' <= now + v_duration v ->
  leases_ok (v_with_master (v_with_slot v i s') mu) now2 ck (c :: cs) ls'.
Proof.
  intros Hf Hn Hs'. pose proof Hl as []. apply leases_none; cbn; try done; try lia.
  - by apply revoke_slots.
  - intros ma fo idx wake Hin. apply (revoke_call_slot i s') in Hin as (-> & _ & [w Hw]). eauto.
Qed.

Lemma revoke_table j s f :
  v_master v = Z.of_nat j -> v_slots v !! j = Some s ->
  table_ok (v_with_finish
    (v_with_master (v_with_slot v j (mkSlot (s_addr s) UPS_STAT_SYNC (s_lease s))) (-1)) f).
Proof.
  intros Hj Hs. pose proof Ht as [Hlen Hm Hst Had Hnm].
  apply table_insert with s; try done; [by left|cbn; split; [done|lia]| |].
  - intros i w Hne Hi. rewrite (Hst i w Hi). lia.
  - intros _. cbn. assert (online s) by (unfold online; by rewrite (proj2 (Hst j s Hs) Hj)).
    split; [by apply (Hnm j)|]. intros i w Hne Hi Hw Hsame. apply Hne. by apply (Had i j w s).
Qed.

(** The wait covers the lease of the old master. *)
Lemma revoke_wait j s :
  v_master v = Z.of_nat j -> v_slots v !! j = Some s -> now2 < s_lease s ->
  waiting = s_lease s - now2 ->
  leases_ok (v_with_finish
    (v_with_master (v_with_slot v j (mkSlot (s_addr s) UPS_STAT_SYNC (s_lease s))) (-1)) 0)
    now2 ck (c :: cs) ls'.
Proof.
  intros Hj Hs Hlt Hw. pose proof Hl as []. pose proof (ok_held0 j s Hj Hs) as Hheld.
  pose proof (ok_slots0 j s Hs) as Hsl. split; cbn; try done; try lia.
  - eapply revoke_running; [|exact ok_bound0]. cbn. lia.
  - by apply revoke_slots.
  - intros a l a' l' Ha Ha' Hx Hx'. apply (ok_one0 a l a' l'); auto; lia.
  - intros _. by left.
  - intros ma fo idx wake Hin.
    apply (revoke_call_slot j (mkSlot (s_addr s) UPS_STAT_SYNC (s_lease s))) in Hin
      as (-> & -> & [w Hw']).
    split; [eauto|]. intros _. eapply revoke_running; [|exact Hheld]. cbn.
    intros a l Hx _ [_ Hy]. rewrite wrapu_small by lia. lia.
  - by rewrite Hck.
  - intros _. split; [done|right]. split; [done|]. exists c. split; [apply elem_of_cons; by left|done].
Qed.

Lemma revoke_ok revoked m m' :
  view m = v -> revoke_master_lease now revoked now2 m = (waiting, m') ->
  v_has_master v = true \/ v_finish v < 0 ->
  (revoked = OB_SUCCESS -> forall j s, v_master v = Z.of_nat j -> v_slots v !! j = Some s ->
     now < s_lease s -> forall a l, (a, l) ∈ ls' -> ~ same_server a (s_addr s)) ->
  table_ok (view m') /\ leases_ok (view m') now2 ck (c :: cs) ls'.
Proof.
  intros Ev H Hor Hgone. pose proof Ht as [Hlen _ _ _ _].
  apply revoke_master_lease_view in H; [|by rewrite <- Hlen, <- Ev, <- (length_fmap slot_of)].
  rewrite Ev in H. destruct H as [(Hno & _ & ->)|(j & s & f & Hj & Hs & -> & Hcase)].
  - rewrite has_master_view, Ev in Hno. destruct Hor as [Hor|Hor]; [congruence|].
    apply table_no_master in Hno; [|done]. rewrite Ev. split; [done|].
    rewrite <- (v_eta v), <- (v_with_slot_same v k sk Hk) at 1.
    apply revoke_none; [lia| |exact (ok_slots _ _ _ _ _ Hl k sk Hk)].
    eapply revoke_running; [|exact (ok_free _ _ _ _ _ Hl Hno)]. cbv beta. lia.
  - split; [by apply revoke_table|].
    assert (v_finish v <> 0) as Hf0 by (intros [E _]%(ok_idle _ _ _ _ _ Hl); lia).
    pose proof (ok_held _ _ _ _ _ Hl j s Hj Hs) as Hheld.
    destruct Hcase as [(_ & Hlt & Hw & ->)|(_ & -> & Hend)]; [by apply revoke_wait|].
    rewrite <- (v_eta_finish (v_with_master _ _)).
    change (v_finish (v_with_master _ _)) with (v_finish v).
    apply revoke_none; [done| |exact (ok_slots _ _ _ _ _ Hl j s Hs)].
    eapply revoke_running; [|exact Hheld]. cbn. intros a l Hx Hin [Hsame Hle].
    destruct Hend as [Hend|[Hend|[Hlt Hack]]]; [lia|lia|].
    by apply (Hgone Hack j s Hj Hs Hlt a l Hin).
Qed.
End revoke.

(** The second section, when the slot it waited for is still in the table. *)
Lemma select_ok f now j master force m ret b m' ck cs ls k wake :
  set_ups_master_select f now (Z.of_nat j) master force m = (ret, b, m') ->
  table_ok (view m) -> leases_ok (view m) now ck cs ls ->
  cs !! k = Some (C_select master force (Z.of_nat j) wake) -> wake <= now ->
  offline (slot m (Z.of_nat j)) = false ->
  v_master (view m) = -1 \/ v_master (view m) = Z.of_nat j \/ is_master_lease_valid now m = true ->
  table_ok (view m') /\
  leases_ok (view m') now ck (if b then <[k := C_notify]> cs else delete k cs) ls.
Proof.
  intros H Ht Hl Hc Hwake Hoff Hor.
  assert (C_select master force (Z.of_nat j) wake ∈ cs) as Hin by (by apply list_elem_of_lookup_2 with k).
  destruct (ok_select _ _ _ _ _ Hl _ _ _ _ Hin) as [(j' & s & E%Nat2Z.inj & Hs) Hw]. subst j'.
  assert (online s) as Ho.
  { rewrite offline_spec, (view_slot _ _ _ Hs) in Hoff.
    apply negb_false_iff, bool_decide_eq_true in Hoff. done. }
  assert (forall v, v_finish v = -1 -> leases_ok v now ck cs ls ->
    leases_ok v now ck (if b then <[k := C_notify]> cs else delete k cs) ls) as Hcalls.
  { intros v Hf Hv. eapply leases_calls; [|rewrite Hf; lia|exact Hv]. intros c Hsel Hc'.
    destruct b; [|by apply (list_subseteq_delete k)].
    apply list_elem_of_lookup in Hc' as [i [[_ <-]|[_ Hi]]%insert_cases]; [done|].
    by apply list_elem_of_lookup_2 with i. }
  destruct (set_ups_master_select_view _ _ _ _ _ _ _ _ _ _ Hs H)
    as [[-> ->]|(-> & _ & _ & Hinv & ->)].
  - split; [by apply table_finish|]. apply Hcalls; [done|].
    apply leases_finish; [|lia|done]. intros Hm.
    eapply running_mono; [reflexivity| |exact (Hw Hm)]. cbn. lia.
  - rewrite Hinv in Hor. destruct Hor as [Hm|[Hm|?]]; [| |done].
    + split; [by apply table_elect; auto|]. apply Hcalls; [done|]. apply leases_elect; try done.
      eapply running_mono; [reflexivity| |exact (Hw Hm)]. cbn. lia.
    + split; [by apply table_elect; auto|]. apply Hcalls; [done|]. apply leases_elect; try done.
      rewrite is_master_lease_valid_view, (v_lease_valid_spec now _ j s) in Hinv; try done;
        [|rewrite <- (table_length _ Ht); by apply lookup_lt_Some in Hs].
      eapply running_mono; [reflexivity| |exact (ok_held _ _ _ _ _ Hl j s Hm Hs)]. cbn. lia.
Qed.

(** *** Every step keeps the invariant *)

Lemma inv_view s s' :
  view (mgr s') = view (mgr s) -> clock s' = clock s -> checker s' = checker s ->
  calls s' = calls s -> leases s' = leases s -> inv s -> inv s'.
Proof. unfold inv. by intros -> -> -> -> ->. Qed.

Lemma grant_inv force now s : clock s = now -> inv s -> inv (grant force now s).
Proof.
  intros <- [Ht Hl]. unfold grant. destruct (grant_lease force (clock s) (mgr s)) as [m msgs] eqn:E.
  split; cbn; [by eapply grant_table|by eapply grant_leases].
Qed.

Lemma checker_inv s ck : (replacing ck = true -> replacing (checker s) = true) ->
  inv s -> inv (on_checker s ck).
Proof. intros H [Ht Hl]. split; [done|]. cbn. by apply (leases_checker _ _ (checker s)). Qed.

(** A call that does not select ends or becomes another such call, or a new one
    comes. *)
Lemma calls_inv s cs' :
  (forall c, selecting c = true -> c ∈ cs' <-> c ∈ calls s) -> inv s -> inv (on_calls s cs').
Proof.
  intros H [Ht Hl]. split; [done|]. cbn. apply (leases_calls _ _ _ (calls s)); [| |done].
  - intros c Hc. by apply H.
  - intros _ c Hc. by apply H.
Qed.

Lemma selecting_delete (cs : list call) k c c' :
  cs !! k = Some c' -> selecting c' = false -> selecting c = true -> c ∈ delete k cs <-> c ∈ cs.
Proof.
  intros Hk Hc' Hc. split; [apply (list_subseteq_delete k)|]. intros Hin.
  rewrite (delete_Permutation _ _ _ Hk) in Hin. apply elem_of_cons in Hin as [->|]; [congruence|done].
Qed.

Lemma selecting_insert (cs : list call) k c c' new :
  cs !! k = Some c' -> selecting c' = false -> selecting new = false -> selecting c = true ->
  c ∈ <[k := new]> cs <-> c ∈ cs.
Proof.
  intros Hk Hc' Hnew Hc. rewrite !list_elem_of_lookup. split; intros [i Hi].
  - apply insert_cases in Hi as [[_ ->]|[_ Hi]]; [congruence|eauto].
  - exists i. rewrite list_lookup_insert_ne; [done|]. intros ->. congruence.
Qed.

Lemma check_inv f now s : clock s = now -> inv s -> inv (check_step f now s).
Proof.
  intros E Hi. pose proof Hi as [Ht Hl]. rewrite E in Hl. unfold check_step.
  destruct (checker s) as [|i did| | |] eqn:Ec.
  - destruct (check_ups_master_exist f now (mgr s)) as [ret m] eqn:H.
    destruct (check_exist_ok _ _ _ _ _ _ _ _ H Ht Hl) as [Ht' Hl'].
    split; [done|]. cbn. rewrite E. by apply (leases_checker _ _ CK_exist).
  - destruct (check_lease_slot (Z.of_nat i) now (mgr s) did) as [m did'] eqn:H.
    unfold inv. cbn [mgr clock checker calls leases on_checker on_mgr]. rewrite E.
    apply (check_slot_ok _ _ _ _ _ _ (CK_slot i did) _ _ _ H); try done.
    destruct (S i <? 17)%nat; [done|]. by destruct did'.
  - destruct (select_new_ups_master f now (mgr s)) as [ret m] eqn:H.
    split; cbn; rewrite ?E; by destruct (check_select_ok _ _ _ _ _ _ _ H Ht Hl).
  - apply checker_inv; [by destruct (has_master (mgr s))|done].
  - apply checker_inv; [done|]. by apply grant_inv.
Qed.

Lemma set_ups_master_inv f now revoked now2 master force s :
  clock s = now -> now <= now2 ->
  orderly_request now (E_set_ups_master f revoked now2 master force) s -> inv s ->
  inv (set_ups_master_step f now revoked now2 master force s).
Proof.
  intros E Hnow (Hcs & Hck & Hor) [Ht Hl]. rewrite E in Hl. unfold set_ups_master_step.
  destruct (set_ups_master_revoke f now revoked now2 master force (mgr s)) as [[[ret i] w] m'] eqn:H.
  pose proof (table_length _ Ht) as Hlen. cbn in Hlen. rewrite length_fmap in Hlen.
  apply set_ups_master_revoke_view in H; [|done].
  destruct H as [(Hret & _ & Ev)|(-> & j & sj & m1 & -> & Hj & _ & _ & Ev & _ & Hr)].
  - destruct (Z.eqb_spec ret OB_SUCCESS); [done|].
    split; cbn; rewrite Ev; [done|]. by apply (leases_time _ now).
  - cbn [Z.eqb OB_SUCCESS]. unfold inv. cbn [mgr clock checker calls leases on_leases on_calls at_time on_mgr].
    eapply (revoke_ok _ now now2 _ _ (leases s) _ master force j sj w Hnow Ht Hl Hck); try done.
    + intros c Hc. rewrite forallb_forall in Hcs. apply list_elem_of_In, Hcs in Hc.
      by apply negb_true_iff.
    + intros a l. destruct (revoked =? OB_SUCCESS); [apply given_back_subset|done].
    + intros -> k s' Hk Hs' Hlt a l Hin. cbn in Hin.
      apply (given_back_spec _ _ _ _ _ k s') in Hin; [by apply Hin|done|done| |done].
      apply lookup_lt_Some in Hs'. rewrite (table_length _ Ht) in Hs'. done.
Qed.

Lemma call_inv k f now s s' :
  clock s = now -> undisturbed now (E_call k f) s -> inv s -> call_step k f now s = Some s' -> inv s'.
Proof.
  intros E Hord Hi. pose proof Hi as [Ht Hl]. rewrite E in Hl. unfold call_step, undisturbed in *.
  destruct (calls s !! k) as [[master force i wake| |total wake|wake]|] eqn:Hk; [| | | |done].
  - destruct (Z.ltb_spec now wake) as [|Hw]; [done|].
    assert (C_select master force i wake ∈ calls s) as Hin by (by apply list_elem_of_lookup_2 with k).
    destruct (ok_select _ _ _ _ _ Hl _ _ _ _ Hin) as [(j & sj & -> & _) _].
    destruct (set_ups_master_select f now _ master force (mgr s)) as [[ret b] m] eqn:H.
    intros [= <-]. unfold inv. cbn. rewrite E. destruct Hord as [Ho Hor]. by eapply select_ok.
  - intros [= <-]. apply calls_inv; [|by apply grant_inv]. intros c Hc.
    unfold grant. destruct (grant_lease _ _ _). by eapply selecting_delete.
  - destruct (now <? wake); [done|].
    destruct (send_obi_role_poll (mgr s)); intros [= <-]; (apply calls_inv; [|done]); intros c Hc;
      (eapply selecting_insert; try done). by destruct (_ <? _).
  - destruct (now <? wake); [done|]. intros [= <-]. apply calls_inv.
    + intros c Hc. by eapply selecting_delete.
    + apply (inv_view s); try done. apply view_reset_ups_read_percent.
Qed.

Lemma register_inv addr port lsn lease version now s :
  clock s = now -> orderly_request now (E_register_ups addr port lsn lease version) s -> inv s ->
  inv (on_mgr s (register_ups addr port lsn lease version now (mgr s)).2).
Proof.
  intros Hc [Hnull Hclaim] Hi. pose proof Hi as [Ht Hl]. rewrite Hc in Hl.
  destruct (register_ups addr port lsn lease version now (mgr s)) as [ret m] eqn:E.
  apply register_ups_view in E as [E|(i & sl & Hu & Hs & Ho & E)]; [by apply (inv_view s)|].
  unfold inv. cbn. rewrite Hc. by eapply (register_ok (view (mgr s))).
Qed.

Lemma renew_inv addr stat role s : inv s -> inv (on_mgr s (renew_lease addr stat role (mgr s)).2).
Proof.
  intros Hi. pose proof Hi as [Ht Hl].
  destruct (renew_lease addr stat role (mgr s)) as [ret m] eqn:E.
  apply renew_lease_view in E as [E|(i & sl & Hs & Hold & Hnew & E)]; [by apply (inv_view s)|].
  apply slave_stat_spec in Hold, Hnew. unfold inv. cbn. rewrite E.
  apply slave_change_ok; try done; [unfold online|..]; destruct Hold, Hnew; congruence.
Qed.

Lemma slave_failure_inv addr slave s : ~ same_server addr slave -> inv s ->
  inv (on_mgr s (slave_failure addr slave (mgr s)).2).
Proof.
  intros Hne Hi. pose proof Hi as [Ht Hl].
  destruct (slave_failure addr slave (mgr s)) as [ret m] eqn:E.
  apply slave_failure_view in E as [E|(k & sk & i & sl & Hk & Hkm & Hka & Hs & Ho & Ha & E)];
    [by apply (inv_view s)|].
  unfold inv. cbn. rewrite E. apply slave_change_ok; try done. intros Hm. apply Hne.
  apply (table_stats _ Ht) with (i := i) in Hm; [|done].
  apply (table_stats _ Ht) with (i := k) in Hkm; [|done].
  assert (i = k) as -> by lia. rewrite Hs in Hk. injection Hk as ->. etrans; [by symmetry|done].
Qed.

Lemma set_ups_config_view mm sm m : view (set_ups_config mm sm m).2 = view m.
Proof.
  unfold set_ups_config. destruct (bad_percentage mm); [done|].
  destruct (bad_percentage sm); [done|]. cbn [snd]. by rewrite view_reset_ups_read_percent.
Qed.

Lemma set_ups_config_by_addr_view addr ms cs m :
  view (set_ups_config_by_addr addr ms cs m).2 = view m.
Proof.
  unfold set_ups_config_by_addr. destruct (_ || _); [done|]. destruct (_ || _); [done|]. cbv zeta.
  destruct (find_ups_index_spec addr (with_flow m true)) as [[-> _]|(j & sj & -> & Hj & _)]; [done|].
  destruct (Z.eqb_spec (-1) (Z.of_nat j)); [lia|]. cbn [snd].
  rewrite view_touch; [done|lia|done|]. rewrite Nat2Z.id. by apply view_length in Hj.
Qed.

Lemma fire_inv now e s s' : orderly now e s -> fire now e s = Some s' -> inv s -> inv s'.
Proof.
  intros Hord H Hi. unfold fire in H. destruct (Z.ltb_spec now (clock s)) as [|Hnow]; [done|].
  assert (inv (at_time now s)) as Hi'.
  { destruct Hi as [Ht Hl]. split; [done|]. cbn. by apply (leases_time _ (clock s)). }
  clear Hi. assert (orderly now e (at_time now s)) as Hord' by (by destruct e).
  clear Hord. revert H Hi' Hord'. generalize (eq_refl : clock (at_time now s) = now).
  generalize (at_time now s). clear s Hnow.
  intros s Hc H Hi (Hreq & Hdis & Hserv). destruct e.
  - injection H as <-. by apply register_inv.
  - injection H as <-. by apply renew_inv.
  - injection H as <-. by apply slave_failure_inv.
  - injection H as <-. by apply grant_inv.
  - done.
  - injection H as <-. by apply check_inv.
  - destruct (Z.ltb_spec now2 now); [done|]. injection H as <-. by apply set_ups_master_inv.
  - injection H as <-. apply calls_inv; [|by apply grant_inv]. intros c Hs.
    rewrite elem_of_cons. split; [|by right]. intros [->|]; done.
  - by eapply call_inv.
  - injection H as <-. by apply (inv_view s).
  - injection H as <-. apply (inv_view s); try done. apply set_ups_config_view.
  - injection H as <-. apply (inv_view s); try done. apply set_ups_config_by_addr_view.
Qed.

Lemma boot_inv q dur reserved register_dur role schema config t ls :
  configured dur register_dur t ls ->
  inv (boot q dur reserved register_dur role schema config t ls).
Proof.
  intros (Hd & Hr & Ht & Hone & Hb).
  assert (forall i s, v_slots (view (mgr (boot q dur reserved register_dur role schema config t ls)))
    !! i = Some s -> s = slot_of ObUps_new) as Hs.
  { intros i s (u & Hu & ->)%view_slots_lookup. by apply lookup_replicate in Hu as [-> _]. }
  split.
  - split; [done|by left| | |].
    + intros i s ->%Hs. cbn. split; [done|lia].
    + intros i j s s' ->%Hs _ Ho. by destruct Ho.
    + intros i s ->%Hs Ho. by destruct Ho.
  - split; try done; cbn [clock boot].
    + intros a l Hin _. by apply (Hb a).
    + intros i s ->%Hs. cbn. lia.
    + intros j s E. cbn in E. lia.
    + intros _ a l _ _. by left.
    + intros ma fo i wake Hin. cbn in Hin. by apply not_elem_of_nil in Hin.
    + intros _. split; [done|]. left. intros i s ->%Hs Ho. by destruct Ho.
Qed.

Lemma reachable_lease_inv s0 s : reachable s0 s -> inv s0 -> inv s.
Proof. induction 1 as [|s now e s' _ IH Ho Hf]; [done|]. intros H0. by eapply fire_inv, IH. Qed.

(** ** The master leases *)


(** C32: The table of update servers and the index of the master agree.  In every
    state that a run with the conditions of [orderly] leads to, the slot of the index is the one slot in
    the state of a master, and no two servers that are not offline have the same
    address. *)
Theorem master_slot_unique q dur reserved register_dur role schema config t ls s :
  configured dur register_dur t ls ->
  reachable (boot q dur reserved register_dur role schema config t ls) s ->
  length (ups_array_ (mgr s)) = MAX_UPS_COUNT /\
  (forall i u, ups_array_ (mgr s) !! i = Some u ->
     stat_ u = UPS_STAT_MASTER <-> ups_master_idx_ (mgr s) = Z.of_nat i) /\
  (has_master (mgr s) = true <-> exists u, u ∈ ups_array_ (mgr s) /\ stat_ u = UPS_STAT_MASTER) /\
  (forall i j u w, ups_array_ (mgr s) !! i = Some u -> ups_array_ (mgr s) !! j = Some w ->
     offline u = false -> offline w = false -> same_server (addr_ u) (addr_ w) -> i = j).
Proof.
  intros Hc Hr. destruct (reachable_lease_inv _ _ Hr) as [[Hlen Hm Hst Had _] _]; [by apply boot_inv|].
  assert (forall i u, ups_array_ (mgr s) !! i = Some u -> v_slots (view (mgr s)) !! i = Some (slot_of u))
    as Hv by (intros i u Hu; apply view_slots_lookup; eauto).
  cbn in Hlen. rewrite length_fmap in Hlen. split; [done|]. split; [|split].
  - intros i u Hu. by apply (Hst i (slot_of u) (Hv i u Hu)).
  - rewrite has_master_view, v_has_master_spec. split.
    + intros Hx. destruct Hm as [Hm|(j & w & Hj & Hw)]; [lia|].
      pose proof (proj2 (Hst j w Hw) Hj) as Hstat. apply view_slots_lookup in Hw as (u & Hu & ->).
      exists u. split; [by apply list_elem_of_lookup_2 with j|done].
    + intros (u & Hu & Hstat). apply list_elem_of_lookup in Hu as [i Hi].
      apply (Hst i (slot_of u) (Hv i u Hi)) in Hstat. apply lookup_lt_Some in Hi. lia.
  - intros i j u w Hu Hw Hou How. rewrite offline_spec in Hou, How.
    apply negb_false_iff, bool_decide_eq_true in Hou, How.
    by apply (Had i j (slot_of u) (slot_of w) (Hv i u Hu) (Hv j w Hw)).
Qed.

(** *** An election *)

Lemma select_elects m :
  ups_master_idx_ m = -1 ->
  (exists u, u ∈ ups_array_ m /\ online (slot_of u) /\ 0 <= log_seq_num_ u) ->
  exists j u, ups_array_ m !! j = Some u /\ online (slot_of u) /\
    (forall w, w ∈ ups_array_ m -> online (slot_of w) -> log_seq_num_ w <= log_seq_num_ u) /\
    let m' := (select_ups_master_with_highest_lsn m).2 in
    (select_ups_master_with_highest_lsn m).1 = OB_SUCCESS /\ ups_master_idx_ m' = Z.of_nat j /\
    view m' = v_with_master
      (v_with_slot (view m) j (mkSlot (addr_ u) UPS_STAT_MASTER (lease_ u))) (Z.of_nat j).
Proof.
  intros E (u0 & Hin & Ho & Hlsn). unfold select_ups_master_with_highest_lsn. rewrite E.
  change (-1 =? -1) with true. cbn [negb].
  destruct (highest_from 0 (ups_array_ m) (-1) (-1)) as [h k] eqn:Hh.
  apply highest_from_spec in Hh as [Hall [[-> ->]|(j & u & Hj & Hu & _ & -> & ->)]].
  - specialize (Hall u0). rewrite <- list_elem_of_In in Hall. specialize (Hall Hin Ho). lia.
  - rewrite Z.add_0_l. destruct (Z.eqb_spec (-1) (Z.of_nat j)); [lia|].
    exists j, u. split; [done|]. split; [done|]. split.
    { intros w Hw. apply Hall. by apply list_elem_of_In. }
    assert (v_slots (view m) !! j = Some (slot_of u)) as Hv by (apply view_slots_lookup; eauto).
    assert (forall x, view (reset_ups_read_percent x) = view x) as Hres by apply view_reset_ups_read_percent.
    cbv zeta. cbn [fst snd]. split; [done|].
    match goal with |- ups_master_idx_ ?x = _ /\ _ => change (ups_master_idx_ x) with (v_master (view x)) end.
    autorewrite with view. rewrite (view_change_ups_stat _ _ _ _ Hv). done.
Qed.

Lemma update_ups_lsn_online f m u :
  (forall a lsn, f a = Some lsn -> 0 <= lsn < 2 ^ 63) ->
  u ∈ ups_array_ m -> online (slot_of u) -> 0 <= log_seq_num_ u ->
  exists w, w ∈ ups_array_ (update_ups_lsn f m) /\ online (slot_of w) /\ 0 <= log_seq_num_ w.
Proof.
  intros Hf Hin Ho Hlsn. eexists. split; [apply list_elem_of_fmap; eauto|].
  destruct (offline u); [done|]. destruct (f (addr_ u)) as [lsn|] eqn:E; [|done].
  split; [done|]. cbn. specialize (Hf _ _ E). rewrite wraps_small; lia.
Qed.

(** The table the choice looks at. *)
Definition candidates (f : ObServer -> option Z) (m : ObUpsManager) : ObUpsManager :=
  if waiting_ups_finish_time_ m <? 0 then update_ups_lsn f m else m.

Lemma check_exist_elects f now m :
  ups_master_idx_ m = -1 -> waiting_ups_finish_time_ m <> 0 -> waiting_ups_finish_time_ m < now ->
  (exists u, u ∈ ups_array_ (candidates f m) /\ online (slot_of u) /\ 0 <= log_seq_num_ u) ->
  exists j u, ups_array_ (candidates f m) !! j = Some u /\ online (slot_of u) /\
    (forall w, w ∈ ups_array_ (candidates f m) -> online (slot_of w) ->
       log_seq_num_ w <= log_seq_num_ u) /\
    ups_master_idx_ (check_ups_master_exist f now m).2 = Z.of_nat j.
Proof.
  intros E H0 Hnow Hc. unfold candidates, check_ups_master_exist in *.
  destruct (Z.ltb_spec (waiting_ups_finish_time_ m) 0) as [Hneg|Hneg].
  - replace (0 <? waiting_ups_finish_time_ m) with false by lia. unfold select_new_ups_master.
    unfold is_master_lease_valid, has_master. rewrite E. cbn [Z.eqb Z.ltb Z.leb andb negb].
    destruct (select_elects (update_ups_lsn f m)) as (j & u & Hj & Ho & Hmax & _ & Hm & _); [done|done|].
    exists j, u. done.
  - replace (0 <? waiting_ups_finish_time_ m) with true by lia.
    replace (waiting_ups_finish_time_ m <? now) with true by lia.
    destruct (select_elects m E Hc) as (j & u & Hj & Ho & Hmax & Hret & Hm & _).
    exists j, u. split; [done|]. split; [done|]. split; [done|].
    destruct (select_ups_master_with_highest_lsn m) as [ret m']. cbn in Hret, Hm. by rewrite Hret.
Qed.

(** C19: A master is elected.  In every state that a run with the conditions of
    [orderly] leads to, in which no [set_ups_master] is between its two sections and
    some server that is not offline has a log sequence number that is not
    negative, and when the servers that answer give such numbers, the check that the thread runs in each round after the wait for
    the first servers leaves a master; where there was none, it is a server with
    the highest log sequence number. *)
Theorem master_elected q dur reserved register_dur role schema config t ls s f now :
  configured dur register_dur t ls ->
  reachable (boot q dur reserved register_dur role schema config t ls) s ->
  (forall c, c ∈ calls s -> selecting c = false) ->
  (exists u, u ∈ ups_array_ (mgr s) /\ offline u = false /\ 0 <= log_seq_num_ u) ->
  (forall a lsn, f a = Some lsn -> 0 <= lsn < 2 ^ 63) ->
  waiting_ups_finish_time_ (mgr s) < now ->
  let m' := (check_ups_master_exist f now (mgr s)).2 in
  has_master m' = true /\
  (has_master (mgr s) = false ->
   exists j u, ups_array_ (candidates f (mgr s)) !! j = Some u /\ offline u = false /\
     (forall w, w ∈ ups_array_ (candidates f (mgr s)) -> offline w = false ->
        log_seq_num_ w <= log_seq_num_ u) /\ ups_master_idx_ m' = Z.of_nat j).
Proof.
  intros Hc Hr Hsel (u0 & Hin & Hon & Hlsn) Hf Hnow. cbv zeta.
  destruct (reachable_lease_inv _ _ Hr) as [Ht Hl]; [by apply boot_inv|].
  assert (forall u, offline u = false <-> online (slot_of u)) as Hoff
    by (intros u; rewrite offline_spec, negb_false_iff, bool_decide_eq_true; done).
  apply Hoff in Hon. destruct (has_master (mgr s)) eqn:Hm.
  - split; [|done]. destruct (check_ups_master_exist f now (mgr s)) as [ret m'] eqn:E. cbn [snd].
    rewrite has_master_view in *. apply check_ups_master_exist_view in E as
      [->|[[_ [[_ ->]|(v & [E _] & _)]]|[_ [E _]]]]; [done|done| |];
      rewrite v_has_master_spec in Hm; lia.
  - rewrite has_master_view in Hm. apply table_no_master in Hm; [|done].
    assert (waiting_ups_finish_time_ (mgr s) <> 0) as H0.
    { intros [_ [Ha|(_ & c & Hc' & Hs)]]%(ok_idle _ _ _ _ _ Hl).
      - apply list_elem_of_lookup in Hin as [i Hi]. apply (Ha i (slot_of u0)); [|done].
        apply view_slots_lookup. eauto.
      - specialize (Hsel c Hc'). congruence. }
    destruct (check_exist_elects f now (mgr s)) as (j & u & Hj & Ho & Hmax & Hidx); try done.
    { unfold candidates. destruct (_ <? 0); [by apply (update_ups_lsn_online f _ u0)|eauto]. }
    split.
    + unfold has_master. rewrite Hidx. apply lookup_lt_Some in Hj.
      assert (length (ups_array_ (candidates f (mgr s))) = 17%nat) as Hlen.
      { pose proof (table_length _ Ht) as Hlen. cbn in Hlen. rewrite length_fmap in Hlen.
        unfold candidates. destruct (_ <? 0); [|done]. cbn. by rewrite length_fmap. }
      rewrite andb_true_iff, Z.ltb_lt, Z.leb_le. lia.
    + intros _. exists j, u. rewrite Hoff. split; [done|]. split; [done|]. split; [|done].
      intros w Hw. rewrite Hoff. by apply Hmax.
Qed.

(** *** Runs *)

Definition server (n : Z) : ObServer := mkServer IPV4 2700 n (replicate 4 0).
Definition no_answer (_ : ObServer) : option Z := None.

Definition start : System := boot (Some []) 9000000 8500000 9000000 ROLE_MASTER 1 1 1 [].

Lemma start_configured : configured 9000000 9000000 1 [].
Proof.
  repeat split; try lia; [|by intros a l H%not_elem_of_nil].
  by intros a l a' l' H%not_elem_of_nil.
Qed.

Lemma server_named n : ~ same_server (server n) ObServer_new.
Proof. done. Qed.

Definition after (now : Z) (e : event) (s : System) : System := default s (fire now e s).

(** One server registers, is elected and gets a lease. *)
Definition registration : event := E_register_ups (server 1) 2701 10 0 "0.4.2".
Definition registered : System := after 2 registration start.
Definition chosen : System := after 9000010 (E_check no_answer) registered.
Definition elected : System := after 9000020 E_send_obi_role chosen.

Lemma registered_reachable : reachable start registered.
Proof.
  apply (reach_step start start 2 registration registered); [apply reach_start| |vm_compute; reflexivity].
  split; [|done]. split; [apply server_named|]. intros H. lia.
Qed.

Lemma elected_reachable : reachable start elected.
Proof.
  apply (reach_step start chosen 9000020 E_send_obi_role elected); [|done|vm_compute; reflexivity].
  apply (reach_step start registered 9000010 (E_check no_answer) chosen);
    [apply registered_reachable|done|vm_compute; reflexivity].
Qed.


Lemma master_slot_unique_witness :
  has_master (mgr elected) = true <->
  exists u, u ∈ ups_array_ (mgr elected) /\ stat_ u = UPS_STAT_MASTER.
Proof.
  exact (proj1 (proj2 (proj2 (master_slot_unique (Some []) 9000000 8500000 9000000 ROLE_MASTER 1 1 1 []
    elected start_configured elected_reachable)))).
Defined.

Lemma master_elected_witness :
  has_master (mgr registered) = false /\
  has_master (check_ups_master_exist no_answer 9000010 (mgr registered)).2 = true.
Proof.
  split; [vm_compute; reflexivity|].
  refine (proj1 (master_elected (Some []) 9000000 8500000 9000000 ROLE_MASTER 1 1 1 []
    registered no_answer 9000010 start_configured registered_reachable _ _ _ _)).
  - intros c Hc. vm_compute in Hc. inversion Hc.
  - eexists. split; [left|]. split; [vm_compute; reflexivity|]. vm_compute. discriminate.
  - done.
  - vm_compute. reflexivity.
Defined.

(** *** A master whose lease has run out *)

Lemma select_goes_on f now i master force m u :
  ups_array_ m !! i = Some u -> same_server master (addr_ u) -> is_master_lease_valid now m = false ->
  force = true \/ stat_ u = UPS_STAT_SYNC /\ (is_ups_with_highest_lsn f (Z.of_nat i) m).1 = true ->
  (set_ups_master_select f now (Z.of_nat i) master force m).1.2 = true.
Proof.
  intros Hu Hma Hv Hready. unfold set_ups_master_select.
  set (d := (if has_stat _ _ then _ else _) : bool * ObUpsManager).
  assert (view d.2 = view m /\ (d.1 || force) = true) as [Ev Hd].
  { unfold d, has_stat. rewrite slot_lookup, Hu. cbn [default].
    destruct Hready as [->|[Hs Hh]].
    - split; [|apply orb_true_r]. case_bool_decide; [|done].
      destruct (is_ups_with_highest_lsn _ _ _) as [r x] eqn:Hx.
      by apply is_ups_with_highest_lsn_view in Hx as [Hx _].
    - rewrite bool_decide_true by exact Hs. destruct (is_ups_with_highest_lsn _ _ _) as [r x] eqn:Hx.
      cbn in Hh. subst r. by apply is_ups_with_highest_lsn_view in Hx as [Hx _]. }
  destruct d as [ready x]. cbn [fst snd] in Ev, Hd. rewrite Hd.
  rewrite is_master_lease_valid_view, Ev, <- is_master_lease_valid_view, Hv.
  assert (v_slots (view x) !! i = Some (slot_of u)) as Hs by (rewrite Ev; apply view_slots_lookup; eauto).
  replace (addr_ (slot x (Z.of_nat i))) with (addr_ u)
    by (change (addr_ u) with (s_addr (slot_of u)); by rewrite <- (view_slot _ _ _ Hs)).
  unfold same_server in Hma. rewrite Hma. done.
Qed.

Lemma lapsed_taken_off m j w later :
  ups_array_ m !! j = Some w -> stat_ w = UPS_STAT_MASTER -> lease_ w + MAX_CLOCK_SKEW_US < later ->
  exists m', check_lease_slot (Z.of_nat j) later m false = (m', true) /\ ups_master_idx_ m' = -1 /\
    forall i, i <> j -> v_slots (view m') !! i = v_slots (view m) !! i.
Proof.
  intros Hw Hst Hl. destruct (check_lease_slot (Z.of_nat j) later m false) as [m' did] eqn:E.
  assert (did = true) as ->.
  { assert (slot m (Z.of_nat j) = w) as Es by (rewrite slot_lookup, Hw; done).
    unfold check_lease_slot, offline, has_stat in E. rewrite Es, Hst in E.
    rewrite (proj2 (Z.ltb_lt _ _) Hl) in E. by injection E as _ <-. }
  apply check_lease_slot_view in E as [[_ ?]|(sw & fin & Hs & _ & _ & _ & [(_ & _ & Ev)|(Hne & ? & _)])];
    [done| |done].
  exists m'. split; [done|]. split; [change (v_master (view m') = -1); by rewrite Ev|].
  intros i Hi. rewrite Ev. cbn. by rewrite list_lookup_insert_ne.
Qed.

(** C40: What [undisturbed] excludes.  When the second section of [set_ups_master]
    finds its server ready (or is forced) and another slot still in the state of a
    master whose lease is no longer valid, it makes its server the master and
    leaves the other one: two slots are masters.  And when the check thread then
    takes the other one off, it clears the index of the new master, whose slot
    and lease stay as they are, and asks for an election. *)
Theorem lapsed_master_doubled k f now s master force i wake j u w :
  calls s !! k = Some (C_select master force (Z.of_nat i) wake) -> clock s <= now -> wake <= now ->
  ups_array_ (mgr s) !! i = Some u -> ups_array_ (mgr s) !! j = Some w -> i <> j ->
  same_server master (addr_ u) ->
  force = true \/ stat_ u = UPS_STAT_SYNC /\ (is_ups_with_highest_lsn f (Z.of_nat i) (mgr s)).1 = true ->
  stat_ w = UPS_STAT_MASTER -> is_master_lease_valid now (mgr s) = false ->
  exists s' u' w', fire now (E_call k f) s = Some s' /\ ups_master_idx_ (mgr s') = Z.of_nat i /\
    ups_array_ (mgr s') !! i = Some u' /\ stat_ u' = UPS_STAT_MASTER /\ lease_ u' = lease_ u /\
    ups_array_ (mgr s') !! j = Some w' /\ stat_ w' = UPS_STAT_MASTER /\ lease_ w' = lease_ w /\
    forall later, lease_ w + MAX_CLOCK_SKEW_US < later ->
      exists m u'', check_lease_slot (Z.of_nat j) later (mgr s') false = (m, true) /\
        ups_master_idx_ m = -1 /\ ups_array_ m !! i = Some u'' /\ stat_ u'' = UPS_STAT_MASTER /\
        lease_ u'' = lease_ u.
Proof.
  intros Hk Hc Hwake Hu Hw Hne Hma Hready Hst Hv.
  assert (v_slots (view (mgr s)) !! i = Some (slot_of u)) as Hvu by (apply view_slots_lookup; eauto).
  assert (v_slots (view (mgr s)) !! j = Some (slot_of w)) as Hvw by (apply view_slots_lookup; eauto).
  pose proof (select_goes_on f now i master force (mgr s) u Hu Hma Hv Hready) as Hb.
  unfold fire, call_step. cbn [calls mgr at_time]. rewrite Hk.
  replace (now <? clock s) with false by lia. replace (now <? wake) with false by lia.
  destruct (set_ups_master_select f now (Z.of_nat i) master force (mgr s)) as [[ret b] m] eqn:E.
  cbn in Hb. subst b. apply (set_ups_master_select_view _ _ _ _ _ _ _ _ _ _ Hvu) in E
    as [[? _]|(_ & _ & _ & _ & Ev)]; [done|].
  assert (v_slots (view m) !! i = Some (mkSlot (addr_ u) UPS_STAT_MASTER (lease_ u))) as Hi
    by (rewrite Ev; by apply (v_with_slot_lookup (view (mgr s)) i (slot_of u))).
  assert (v_slots (view m) !! j = Some (slot_of w)) as Hj by (rewrite Ev; cbn; by rewrite list_lookup_insert_ne).
  pose proof Hi as (u' & Hu' & Eu')%view_slots_lookup. pose proof Hj as (w' & Hw' & Ew')%view_slots_lookup.
  injection Eu' as Ea Es El. injection Ew' as Ea' Es' El'.
  eexists _, u', w'. split; [reflexivity|]. cbn [mgr on_calls on_mgr].
  split; [change (v_master (view m) = Z.of_nat i); by rewrite Ev|]. repeat (split; [congruence|]).
  intros later Hl. destruct (lapsed_taken_off m j w' later) as (m' & Hm' & Hidx & Hrest); [done|congruence|congruence|].
  rewrite <- Hrest in Hi by done. apply view_slots_lookup in Hi as (u'' & Hu'' & Eu'').
  injection Eu'' as _ ? ?. exists m', u''. repeat (split; [congruence|]). congruence.
Qed.

(** Three servers; the first is the master and stops answering.  An
    administrator moves the master to the third while the lease of the first has
    run out and the table still lists it: between the two sections of
    [set_ups_master] the check thread elects the first again, whose lease is not
    valid, so that the second section goes on. *)

Definition checks (now : Z) (n : nat) : list (Z * event) := replicate n (now, E_check no_answer).

Definition lapse : list (Z * event) :=
  [(2, E_register_ups (server 1) 2701 10 0 "0.4.2"); (2, E_register_ups (server 2) 2701 10 0 "0.4.2");
   (2, E_register_ups (server 3) 2701 10 0 "0.4.2")]
  ++ checks 9000010 18
  ++ [(9000020, E_send_obi_role); (9000030, E_renew_lease (server 3) UPS_STAT_SYNC ROLE_MASTER);
      (9000030, E_renew_lease (server 2) UPS_STAT_SYNC ROLE_MASTER); (17000000, E_heartbeat);
      (18000030, E_set_ups_master no_answer OB_SUCCESS 18000030 (server 3) false);
      (18000040, E_check no_answer)].

Definition aftermath : list (Z * event) :=
  [(18000050, E_call 0 no_answer); (18000060, E_call 0 no_answer);
   (18000070, E_renew_lease (server 3) UPS_STAT_SYNC ROLE_MASTER);
   (18000070, E_renew_lease (server 2) UPS_STAT_SYNC ROLE_MASTER); (26000000, E_heartbeat)]
  ++ checks 27300000 20.

(** The run up to the second section. *)
Definition lapsed : System := default start (run lapse start).

Lemma lapsed_master_doubled_witness :
  run lapse start = Some lapsed /\
  exists s' u' w', fire 18000050 (E_call 0 no_answer) lapsed = Some s' /\
    ups_array_ (mgr s') !! 2%nat = Some u' /\ stat_ u' = UPS_STAT_MASTER /\
    ups_array_ (mgr s') !! 0%nat = Some w' /\ stat_ w' = UPS_STAT_MASTER.
Proof.
  split; [vm_compute; reflexivity|].
  destruct (lapsed_master_doubled 0 no_answer 18000050 lapsed (server 3) false 2 18000030 0
    (slot (mgr lapsed) 2) (slot (mgr lapsed) 0)) as (s' & u' & w' & Hf & _ & Hu & Su & _ & Hw & Sw & _);
    try (vm_compute; congruence).
  - right. split; vm_compute; reflexivity.
  - exists s', u', w'. exact (conj Hf (conj Hu (conj Su (conj Hw Sw)))).
Defined.

(** When the first server goes offline the check thread elects the second while
    the lease of the third is running. *)
Lemma lapsed_two_leases :
  exists s', run aftermath lapsed = Some s' /\
    (server 3, 35000000) ∈ leases s' /\ (server 2, 36300000) ∈ leases s' /\
    clock s' < 35000000 /\ ~ same_server (server 3) (server 2).
Proof.
  assert (exists s', run aftermath lapsed = Some s') as [s' Hs'] by (eexists; vm_compute; reflexivity).
  exists s'. vm_compute in Hs'. injection Hs' as <-.
  conjs; try (vm_compute; reflexivity); cbn [leases].
  - right. left.
  - left.
  - done.
Qed.
