(* ===== verification/ObBitSet.v ===== *)
(** * ObBitSet: the fixed-capacity bit set of common/ob_bit_set.h

    [ObBitSet<N>] is an array of [(N-1)/32+1] 32-bit words.  The template
    parameter is the first argument of every operation, the object is its
    word array.  The set of members it stands for is [members], and
    [bitset_refines_set] shows that every operation but [num_members] computes
    the corresponding operation on finite sets; [num_members] does not count
    the members, which [num_members_not_cardinality] shows. *)

From S2P Require Import Prelude.
From stdpp Require Import gmap.
Local Open Scope Z_scope.

Definition ObBitSet := list Z.

Definition PER_BITMAPWORD_BITS : Z := 32.
Definition MAX_BITMAPWORD (N : Z) : Z := (N - 1) / PER_BITMAPWORD_BITS + 1.

(** The constructor's loop leaves every word zero. *)
Definition ObBitSet_new (N : Z) : ObBitSet := replicate (Z.to_nat (MAX_BITMAPWORD N)) 0.

Definition get_bitset_word (N : Z) (bs : ObBitSet) (index : Z) : Z :=
  if (index <? 0) || (MAX_BITMAPWORD N <=? index) then 0 else zget 0 bs index.

Definition has_member (N : Z) (bs : ObBitSet) (index : Z) : bool :=
  if index <? 0 then false
  else if MAX_BITMAPWORD N * PER_BITMAPWORD_BITS <=? index then false
  else negb (Z.land (zget 0 bs (index / PER_BITMAPWORD_BITS))
                    (Z.shiftl 1 (index mod PER_BITMAPWORD_BITS)) =? 0).

Definition compare_bit (N : Z) (bs other : ObBitSet) (bit : Z) : Z :=
  if Bool.eqb (has_member N bs bit) (has_member N other bit) then 0
  else if negb (has_member N bs bit) then -1
  else 1.

Definition add_member (N : Z) (bs : ObBitSet) (index : Z) : bool * ObBitSet :=
  if index <? 0 then (false, bs)
  else if MAX_BITMAPWORD N * PER_BITMAPWORD_BITS <=? index then (false, bs)
  else (true, zset bs (index / PER_BITMAPWORD_BITS)
                (Z.lor (zget 0 bs (index / PER_BITMAPWORD_BITS))
                       (Z.shiftl 1 (index mod PER_BITMAPWORD_BITS)))).

(** [~] on a [BitSetWord] (uint32_t) is the complement in 32 bits. *)
Definition compl32 (w : Z) : Z := Z.lxor w UINT32_MAX.

Definition del_member (N : Z) (bs : ObBitSet) (index : Z) : bool * ObBitSet :=
  if index <? 0 then (false, bs)
  else if MAX_BITMAPWORD N * PER_BITMAPWORD_BITS <=? index then (true, bs)
  else (true, zset bs (index / PER_BITMAPWORD_BITS)
                (Z.land (zget 0 bs (index / PER_BITMAPWORD_BITS))
                        (compl32 (Z.shiftl 1 (index mod PER_BITMAPWORD_BITS))))).

(** [for (int32_t i = 0; i < MAX_BITMAPWORD; i++)] *)
Definition word_indexes (N : Z) : list Z := seqZ 0 (MAX_BITMAPWORD N).

Definition add_members (N : Z) (bs other : ObBitSet) : ObBitSet :=
  fold_left (fun b i => zset b i (Z.lor (zget 0 b i) (get_bitset_word N other i)))
            (word_indexes N) bs.

Definition is_empty (N : Z) (bs : ObBitSet) : bool :=
  forallb (fun i => zget 0 bs i =? 0) (word_indexes N).

Definition is_superset (N : Z) (bs other : ObBitSet) : bool :=
  if is_empty N other then true
  else if is_empty N bs then false
  else forallb (fun i => Z.land (get_bitset_word N other i) (compl32 (zget 0 bs i)) =? 0)
               (word_indexes N).

Definition is_subset (N : Z) (bs other : ObBitSet) : bool :=
  if is_empty N bs then true
  else if is_empty N other then false
  else forallb (fun i => Z.land (zget 0 bs i) (compl32 (get_bitset_word N other i)) =? 0)
               (word_indexes N).

Definition overlap (N : Z) (bs other : ObBitSet) : bool :=
  existsb (fun i => negb (Z.land (zget 0 bs i) (get_bitset_word N other i) =? 0))
          (word_indexes N).

Definition clear (N : Z) (bs : ObBitSet) : ObBitSet := replicate (length bs) 0.

(** One of the five folding steps of [num_members]; each of them shifts by 1. *)
Definition fold_bits (mask word : Z) : Z :=
  wrapu 32 (Z.land word mask + Z.land (Z.shiftr word 1) mask).

Fixpoint num_members_loop (N : Z) (bs : ObBitSet) (idx : list Z) (num : Z) : Z :=
  match idx with
  | [] => num
  | i :: idx' =>
      let word := get_bitset_word N bs i in
      if word =? 0 then num
      else
        let word := fold_bits 0x55555555 word in
        let word := fold_bits 0x33333333 word in
        let word := fold_bits 0x0f0f0f0f word in
        let word := fold_bits 0x00ff00ff word in
        let word := fold_bits 0x0000ffff word in
        num_members_loop N bs idx' (wraps 32 (num + wraps 32 word))
  end.

Definition num_members (N : Z) (bs : ObBitSet) : Z :=
  num_members_loop N bs (word_indexes N) 0.

(** [operator=]; the copy constructor is the same loop on a fresh array. *)
Definition assign (N : Z) (bs other : ObBitSet) : ObBitSet :=
  fold_left (fun b i => zset b i (get_bitset_word N other i)) (word_indexes N) bs.

(** [operator==], which [equal] calls. *)
Definition equal (N : Z) (bs other : ObBitSet) : bool :=
  if negb (num_members N bs =? num_members N other) then false
  else forallb (fun i => zget 0 bs i =? get_bitset_word N other i) (word_indexes N).

(** A well-formed object: as many words as the class declares, each in the
    range of uint32_t. *)
Definition bitset_wf (N : Z) (bs : ObBitSet) : Prop :=
  length bs = Z.to_nat (MAX_BITMAPWORD N) /\ Forall (fun w => 0 <= w < 2 ^ 32) bs.

(** The set of indexes an object stands for. *)
Definition members (N : Z) (bs : ObBitSet) : gset Z :=
  list_to_set (filter (fun i => has_member N bs i = true)
                      (seqZ 0 (MAX_BITMAPWORD N * PER_BITMAPWORD_BITS))).

(** ** Bits and words *)

Lemma land_single_bit w k : 0 <= k -> negb (Z.land w (Z.shiftl 1 k) =? 0) = Z.testbit w k.
Proof.
  intros Hk. destruct (Z.testbit w k) eqn:E.
  - apply negb_true_iff, Z.eqb_neq. intros H0.
    apply (f_equal (fun z => Z.testbit z k)) in H0.
    rewrite Z.land_spec, Z.shiftl_spec, Z.sub_diag, E, Z.bits_0 in H0 by lia. done.
  - apply negb_false_iff, Z.eqb_eq. apply Z.bits_inj'. intros n Hn.
    rewrite Z.land_spec, Z.shiftl_spec, Z.bits_0 by lia.
    destruct (decide (n = k)) as [-> | Hne]; [by rewrite E |].
    destruct (decide (n < k)); [by rewrite (Z.testbit_neg_r 1), andb_false_r by lia |].
    rewrite (Z.bits_above_log2 1), andb_false_r by (simpl; lia). done.
Qed.

Lemma testbit_shiftl_1 k n : 0 <= k -> 0 <= n -> Z.testbit (Z.shiftl 1 k) n = (n =? k).
Proof.
  intros. rewrite Z.shiftl_1_l. rewrite Z.pow2_bits_eqb by lia. apply Z.eqb_sym.
Qed.

Lemma compl32_spec w n : 0 <= n < 32 -> Z.testbit (compl32 w) n = negb (Z.testbit w n).
Proof.
  intros. unfold compl32, UINT32_MAX. rewrite Z.lxor_spec.
  change (2 ^ 32 - 1) with (Z.ones 32). rewrite Z.ones_spec_low by lia. apply xorb_true_r.
Qed.

Lemma word_bits_above w n : 0 <= w < 2 ^ 32 -> 32 <= n -> Z.testbit w n = false.
Proof.
  intros Hw Hn. destruct (decide (w = 0)) as [-> | ?]; [apply Z.bits_0 |].
  apply Z.bits_above_log2; [lia |]. apply Z.log2_lt_pow2; [lia |].
  apply Z.lt_le_trans with (2 ^ 32); [lia |]. apply Z.pow_le_mono_r; lia.
Qed.

(** Two words are equal when their 32 bits are. *)
Lemma word_ext w1 w2 :
  0 <= w1 < 2 ^ 32 -> 0 <= w2 < 2 ^ 32 ->
  (forall n, 0 <= n < 32 -> Z.testbit w1 n = Z.testbit w2 n) -> w1 = w2.
Proof.
  intros H1 H2 H. apply Z.bits_inj'. intros n Hn.
  destruct (decide (n < 32)); [by apply H |].
  by rewrite !word_bits_above by lia.
Qed.

Lemma word_range_bits w :
  (forall n, 32 <= n -> Z.testbit w n = false) -> 0 <= w -> 0 <= w < 2 ^ 32.
Proof.
  intros H Hw. split; [done |]. destruct (decide (w = 0)) as [-> |]; [lia |].
  apply Z.log2_lt_pow2; [lia |]. destruct (decide (Z.log2 w < 32)); [done |].
  pose proof (Z.bit_log2 w). rewrite H in H0 by lia. lia.
Qed.

Section Laws.
Context (N : Z) (HN : 1 <= N).

Lemma MAX_BITMAPWORD_pos : 1 <= MAX_BITMAPWORD N.
Proof.
  unfold MAX_BITMAPWORD, PER_BITMAPWORD_BITS.
  pose proof (Z.div_pos (N - 1) 32). lia.
Qed.

Definition in_range (i : Z) : Prop := 0 <= i < MAX_BITMAPWORD N * PER_BITMAPWORD_BITS.

Lemma has_member_spec bs i :
  has_member N bs i = true <->
  in_range i /\ Z.testbit (zget 0 bs (i / 32)) (i mod 32) = true.
Proof.
  unfold has_member, in_range, PER_BITMAPWORD_BITS.
  pose proof (Z.mod_pos_bound i 32).
  rewrite land_single_bit by lia. cases; intuition (try done; lia).
Qed.

Lemma elem_of_members bs i : i ∈ members N bs <-> has_member N bs i = true.
Proof.
  unfold members. rewrite elem_of_list_to_set, list_elem_of_filter, elem_of_seqZ.
  split; [tauto |]. intros H. split; [done |].
  apply has_member_spec in H as [[? ?] _]. lia.
Qed.

Lemma word_index i : in_range i -> 0 <= i / 32 < MAX_BITMAPWORD N.
Proof.
  unfold in_range, PER_BITMAPWORD_BITS. intros. split; [apply Z.div_pos; lia |].
  apply Z.div_lt_upper_bound; lia.
Qed.

Lemma elem_of_word_indexes i : i ∈ word_indexes N <-> 0 <= i < MAX_BITMAPWORD N.
Proof. unfold word_indexes. rewrite elem_of_seqZ. lia. Qed.

(** Bits of words and members are the same thing. *)
Lemma bit_in_range w b :
  0 <= w < MAX_BITMAPWORD N -> 0 <= b < 32 ->
  in_range (32 * w + b) /\ (32 * w + b) / 32 = w /\ (32 * w + b) mod 32 = b.
Proof.
  intros Hw Hb. unfold in_range, PER_BITMAPWORD_BITS.
  rewrite (Z.mul_comm 32 w), Z.div_add_l, Z.div_small by lia.
  rewrite Z.add_comm, Z.mod_add, Z.mod_small by lia. nia.
Qed.

Lemma member_of_bit bs w b :
  0 <= w < MAX_BITMAPWORD N -> 0 <= b < 32 ->
  (32 * w + b) ∈ members N bs <-> Z.testbit (zget 0 bs w) b = true.
Proof.
  intros Hw Hb. destruct (bit_in_range w b Hw Hb) as (Hr & Hd & Hm).
  rewrite elem_of_members, has_member_spec, Hd, Hm. tauto.
Qed.

Lemma members_by_words bs (P : Z -> Prop) :
  (forall i, i ∈ members N bs -> P i) <->
  (forall w b, 0 <= w < MAX_BITMAPWORD N -> 0 <= b < 32 ->
               Z.testbit (zget 0 bs w) b = true -> P (32 * w + b)).
Proof.
  split; intros H.
  - intros w b Hw Hb Ht. by apply H, member_of_bit.
  - intros i Hi. apply elem_of_members, has_member_spec in Hi as [Hr Ht].
    rewrite (Z.div_mod i 32) by lia.
    apply H; [by apply word_index | by apply Z.mod_pos_bound | done].
Qed.

Lemma get_bitset_word_in bs w :
  0 <= w < MAX_BITMAPWORD N -> get_bitset_word N bs w = zget 0 bs w.
Proof. intros. unfold get_bitset_word. cases; [lia | done]. Qed.

Lemma wf_length bs : bitset_wf N bs -> Z.of_nat (length bs) = MAX_BITMAPWORD N.
Proof. intros [H _]. pose proof MAX_BITMAPWORD_pos. lia. Qed.

Lemma wf_word bs w : bitset_wf N bs -> 0 <= w < MAX_BITMAPWORD N -> 0 <= zget 0 bs w < 2 ^ 32.
Proof.
  intros Hwf Hw. destruct (Hwf) as [_ Hall]. rewrite Forall_forall in Hall.
  apply Hall, zget_in. rewrite wf_length by done. done.
Qed.

(** ** Well-formedness *)

Lemma wf_intro bs :
  length bs = Z.to_nat (MAX_BITMAPWORD N) ->
  (forall w, 0 <= w < MAX_BITMAPWORD N -> 0 <= zget 0 bs w < 2 ^ 32) -> bitset_wf N bs.
Proof.
  intros Hl H. split; [done |]. apply Forall_lookup. intros i x Hx.
  specialize (H (Z.of_nat i)). unfold zget in H. rewrite Nat2Z.id, Hx in H. apply H.
  apply lookup_lt_Some in Hx. lia.
Qed.

Lemma word_indexes_in bs :
  bitset_wf N bs -> Forall (fun i => 0 <= i < Z.of_nat (length bs)) (word_indexes N).
Proof.
  intros Hwf. apply Forall_forall. intros i Hi.
  rewrite (wf_length bs Hwf). by apply elem_of_word_indexes.
Qed.

Lemma zget_word_loop (f : Z -> Z -> Z) bs w :
  bitset_wf N bs -> 0 <= w < MAX_BITMAPWORD N ->
  zget 0 (fold_left (fun b i => zset b i (f (zget 0 b i) i)) (word_indexes N) bs) w
  = f (zget 0 bs w) w.
Proof.
  intros Hwf Hw. rewrite zget_fold_zset by (lia || apply NoDup_seqZ || by apply word_indexes_in).
  rewrite decide_True; [done |]. by apply elem_of_word_indexes.
Qed.

Lemma word_loop_wf (f : Z -> Z -> Z) bs :
  bitset_wf N bs ->
  (forall w, 0 <= w < MAX_BITMAPWORD N -> 0 <= f (zget 0 bs w) w < 2 ^ 32) ->
  bitset_wf N (fold_left (fun b i => zset b i (f (zget 0 b i) i)) (word_indexes N) bs).
Proof.
  intros Hwf Hf. apply wf_intro.
  - rewrite fold_zset_length. apply Hwf.
  - intros w Hw. rewrite zget_word_loop by done. by apply Hf.
Qed.

Lemma zset_wf bs w x :
  bitset_wf N bs -> 0 <= x < 2 ^ 32 -> bitset_wf N (zset bs w x).
Proof.
  intros [Hl Hall] Hx. split; [by rewrite zset_length |]. by apply Forall_insert.
Qed.

Lemma lor_word a b : 0 <= a < 2 ^ 32 -> 0 <= b < 2 ^ 32 -> 0 <= Z.lor a b < 2 ^ 32.
Proof.
  intros Ha Hb. apply word_range_bits; [| apply Z.lor_nonneg; lia].
  intros n Hn. by rewrite Z.lor_spec, !word_bits_above.
Qed.

Lemma land_word a b : 0 <= a < 2 ^ 32 -> 0 <= Z.land a b < 2 ^ 32.
Proof.
  intros Ha. apply word_range_bits; [| apply Z.land_nonneg; lia].
  intros n Hn. by rewrite Z.land_spec, word_bits_above.
Qed.

Lemma shiftl_word k : 0 <= k < 32 -> 0 <= Z.shiftl 1 k < 2 ^ 32.
Proof.
  intros. rewrite Z.shiftl_1_l. split; [apply Z.pow_nonneg; lia |].
  apply Z.pow_lt_mono_r; lia.
Qed.

(** ** Members after an operation *)

Lemma members_ext bs1 bs2 (P : Z -> bool -> bool) :
  (forall w b, 0 <= w < MAX_BITMAPWORD N -> 0 <= b < 32 ->
     Z.testbit (zget 0 bs2 w) b = P (32 * w + b) (Z.testbit (zget 0 bs1 w) b)) ->
  forall i, in_range i -> (i ∈ members N bs2 <-> P i (has_member N bs1 i) = true).
Proof.
  intros H i Hi. rewrite elem_of_members.
  assert (E : has_member N bs2 i = P i (has_member N bs1 i)); [| by rewrite E].
  pose proof (word_index i Hi) as Hw. pose proof (Z.mod_pos_bound i 32 ltac:(lia)) as Hb.
  specialize (H _ _ Hw Hb). rewrite <- (Z.div_mod i 32) in H by lia.
  pose proof (has_member_spec bs1 i) as S1. pose proof (has_member_spec bs2 i) as S2.
  assert (has_member N bs1 i = Z.testbit (zget 0 bs1 (i / 32)) (i mod 32)) as ->
    by (apply eq_iff_eq_true; tauto).
  rewrite <- H. apply eq_iff_eq_true; tauto.
Qed.

Lemma members_in_range bs i : i ∈ members N bs -> in_range i.
Proof. rewrite elem_of_members, has_member_spec. tauto. Qed.

(** Writing one word changes only the bits of that word. *)
Lemma testbit_zset_word bs w x w' b :
  bitset_wf N bs -> 0 <= w < MAX_BITMAPWORD N -> 0 <= w' ->
  Z.testbit (zget 0 (zset bs w x) w') b =
  if w' =? w then Z.testbit x b else Z.testbit (zget 0 bs w') b.
Proof.
  intros Hwf Hw Hw'. destruct (Z.eqb_spec w' w) as [-> |].
  - by rewrite zget_zset_eq by (rewrite wf_length by done; lia).
  - by rewrite zget_zset_ne by lia.
Qed.

Lemma bit_index_eqb w b i :
  0 <= b < 32 -> (32 * w + b =? i) = (w =? i / 32) && (b =? i mod 32).
Proof.
  intros Hb. pose proof (Z.div_mod i 32 ltac:(lia)). pose proof (Z.mod_pos_bound i 32 ltac:(lia)).
  destruct (Z.eqb_spec w (i / 32)), (Z.eqb_spec b (i mod 32)); simpl;
    [apply Z.eqb_eq | apply Z.eqb_neq ..]; lia.
Qed.

Lemma add_member_members bs i :
  bitset_wf N bs -> in_range i ->
  members N (add_member N bs i).2 = {[ i ]} ∪ members N bs.
Proof.
  intros Hwf Hi. pose proof (word_index i Hi) as Hw.
  pose proof (Z.mod_pos_bound i 32 ltac:(lia)) as Hm.
  apply set_eq. intros j. rewrite elem_of_union, elem_of_singleton.
  destruct (decide (in_range j)) as [Hj | Hj].
  2: { split; [by intros ?%members_in_range | intros [-> | ?%members_in_range]; done]. }
  rewrite (members_ext bs _ (fun k h => (k =? i) || h)); [| | done].
  { rewrite orb_true_iff, Z.eqb_eq, elem_of_members. done. }
  intros w b Hw' Hb. unfold add_member, in_range, PER_BITMAPWORD_BITS in *. cases; [lia | lia |].
  cbn [snd]. rewrite testbit_zset_word by lia || done. rewrite bit_index_eqb by done.
  destruct (Z.eqb_spec w (i / 32)) as [-> |]; simpl; [| done].
  rewrite Z.lor_spec, testbit_shiftl_1 by lia. apply orb_comm.
Qed.

Lemma del_member_members bs i :
  bitset_wf N bs -> 0 <= i ->
  members N (del_member N bs i).2 = members N bs ∖ {[ i ]}.
Proof.
  intros Hwf Hi0. apply set_eq. intros j. rewrite elem_of_difference, elem_of_singleton.
  destruct (decide (in_range i)) as [Hi | Hi].
  2: { unfold del_member, in_range in *. cases; simpl; try lia.
       split; [| tauto]. intros Hj. split; [done |]. intros ->.
       apply members_in_range in Hj. unfold in_range in Hj. lia. }
  pose proof (word_index i Hi) as Hw. pose proof (Z.mod_pos_bound i 32 ltac:(lia)) as Hm.
  destruct (decide (in_range j)) as [Hj | Hj].
  2: { split; [by intros ?%members_in_range | intros [?%members_in_range ?]; done]. }
  rewrite (members_ext bs _ (fun k h => negb (k =? i) && h)); [| | done].
  { rewrite andb_true_iff, negb_true_iff, Z.eqb_neq, elem_of_members. tauto. }
  intros w b Hw' Hb. unfold del_member, in_range, PER_BITMAPWORD_BITS in *. cases; [lia | lia |].
  cbn [snd]. rewrite testbit_zset_word by lia || done. rewrite bit_index_eqb by done.
  destruct (Z.eqb_spec w (i / 32)) as [-> |]; simpl; [| done].
  rewrite Z.land_spec, compl32_spec, testbit_shiftl_1 by lia. apply andb_comm.
Qed.

Lemma add_members_members bs other :
  bitset_wf N bs -> members N (add_members N bs other) = members N bs ∪ members N other.
Proof.
  intros Hwf. apply set_eq. intros j. rewrite elem_of_union.
  destruct (decide (in_range j)) as [Hj | Hj].
  2: { split; [by intros ?%members_in_range | by intros [?%members_in_range | ?%members_in_range]]. }
  rewrite (members_ext bs _ (fun k h => h || has_member N other k)); [| | done].
  { rewrite orb_true_iff, !elem_of_members. done. }
  intros w b Hw Hb. unfold add_members.
  rewrite (zget_word_loop (fun x i => Z.lor x (get_bitset_word N other i))) by done.
  rewrite Z.lor_spec, get_bitset_word_in by done. f_equal.
  apply eq_iff_eq_true. rewrite <- elem_of_members. by rewrite member_of_bit.
Qed.

Lemma assign_members bs other :
  bitset_wf N bs -> bitset_wf N other -> assign N bs other = other.
Proof.
  intros Hwf Ho. pose proof (wf_length bs Hwf). pose proof (wf_length other Ho).
  assert (Hl : length (assign N bs other) = length bs)
    by apply (fold_zset_length (fun _ i => get_bitset_word N other i) 0).
  apply (zget_ext 0); [lia |].
  intros w Hw. rewrite Hl in Hw. unfold assign.
  rewrite (zget_word_loop (fun _ i => get_bitset_word N other i)) by (done || lia).
  apply get_bitset_word_in. lia.
Qed.

(** A test that runs over the words is a statement about every bit. *)
Lemma forallb_words (p : Z -> bool) :
  forallb p (word_indexes N) = true <-> forall w, 0 <= w < MAX_BITMAPWORD N -> p w = true.
Proof.
  rewrite forallb_forall. split; intros H w Hw.
  - apply H. by apply list_elem_of_In, elem_of_word_indexes.
  - apply H. by apply elem_of_word_indexes, list_elem_of_In.
Qed.

Lemma word_zero w :
  0 <= w < 2 ^ 32 -> (w =? 0) = true <-> forall b, 0 <= b < 32 -> Z.testbit w b = false.
Proof.
  intros Hw. rewrite Z.eqb_eq. split.
  - intros -> b _. apply Z.bits_0.
  - intros H. apply word_ext; [done | lia |]. intros b Hb. rewrite Z.bits_0. by apply H.
Qed.

Lemma is_empty_spec bs : bitset_wf N bs -> is_empty N bs = true <-> members N bs = ∅.
Proof.
  intros Hwf. unfold is_empty. rewrite forallb_words, elem_of_equiv_empty_L.
  unfold not. rewrite (members_by_words bs (fun _ => False)). split; intros H w.
  - intros b Hw Hb Ht. specialize (H w Hw).
    rewrite word_zero in H by (by apply wf_word). rewrite H in Ht by done. done.
  - intros Hw. rewrite word_zero by (by apply wf_word). intros b Hb.
    apply not_true_iff_false. intros Ht. by apply (H w b).
Qed.

Lemma words_subset bs other :
  bitset_wf N bs -> bitset_wf N other ->
  forallb (fun i => Z.land (zget 0 bs i) (compl32 (get_bitset_word N other i)) =? 0)
          (word_indexes N) = true <->
  members N bs ⊆ members N other.
Proof.
  intros Hwf Ho. rewrite forallb_words. unfold subseteq, set_subseteq_instance.
  rewrite (members_by_words bs (fun i => i ∈ members N other)).
  split; intros H w.
  - intros b Hw Hb Ht. rewrite member_of_bit by done. specialize (H w Hw).
    rewrite word_zero in H by (by apply land_word, wf_word). specialize (H b Hb).
    rewrite Z.land_spec, Ht, compl32_spec, get_bitset_word_in in H by done.
    by apply negb_false_iff in H.
  - intros Hw. rewrite word_zero by (by apply land_word, wf_word). intros b Hb.
    rewrite Z.land_spec, compl32_spec, get_bitset_word_in by done.
    destruct (Z.testbit (zget 0 bs w) b) eqn:Ht; [| done].
    specialize (H w b Hw Hb Ht). rewrite member_of_bit in H by done. by rewrite H.
Qed.

Lemma is_subset_spec bs other :
  bitset_wf N bs -> bitset_wf N other ->
  is_subset N bs other = true <-> members N bs ⊆ members N other.
Proof.
  intros Hwf Ho. unfold is_subset. destruct (is_empty N bs) eqn:E.
  { apply is_empty_spec in E; [| done]. rewrite E. set_solver. }
  destruct (is_empty N other) eqn:E2; [| by apply words_subset].
  split; [done |]. intros Hs. apply is_empty_spec in E2; [| done].
  rewrite <- E. apply is_empty_spec; [done |]. set_solver.
Qed.

Lemma is_superset_is_subset bs other :
  is_superset N bs other = is_subset N other bs.
Proof.
  unfold is_superset, is_subset. cases; [done | done |].
  apply eq_iff_eq_true. rewrite !forallb_words.
  split; intros H w Hw; specialize (H w Hw); by rewrite ?get_bitset_word_in in * by done.
Qed.

Lemma overlap_spec bs other :
  bitset_wf N bs -> bitset_wf N other ->
  overlap N bs other = true <-> ~ members N bs ## members N other.
Proof.
  intros Hwf Ho. unfold overlap. rewrite existsb_exists. split.
  - intros (w & Hw & Hnz) Hd. apply list_elem_of_In, elem_of_word_indexes in Hw.
    rewrite get_bitset_word_in in Hnz by done. apply negb_true_iff in Hnz.
    rewrite <- not_true_iff_false, word_zero in Hnz by (by apply land_word, wf_word).
    apply Hnz. intros b Hb. rewrite Z.land_spec. apply not_true_iff_false.
    intros [H1 H2]%andb_true_iff. apply (Hd (32 * w + b)); by apply member_of_bit.
  - intros Hd.
    destruct (decide (Exists (fun w => Z.land (zget 0 bs w) (get_bitset_word N other w) <> 0)
                             (word_indexes N))) as [He | He].
    { apply Exists_exists in He as (w & Hw & Hnz). exists w.
      split; [by apply list_elem_of_In |]. by apply negb_true_iff, Z.eqb_neq. }
    exfalso. apply Hd. intros i H1 H2. apply He, Exists_exists.
    apply elem_of_members, has_member_spec in H1 as [Hr H1].
    apply elem_of_members, has_member_spec in H2 as [_ H2].
    exists (i / 32). split; [by apply elem_of_word_indexes, word_index |].
    rewrite get_bitset_word_in by (by apply word_index). intros H0.
    apply (f_equal (fun z => Z.testbit z (i mod 32))) in H0.
    by rewrite Z.land_spec, H1, H2, Z.bits_0 in H0.
Qed.

Lemma members_inj bs other :
  bitset_wf N bs -> bitset_wf N other -> members N bs = members N other -> bs = other.
Proof.
  intros Hwf Ho H. pose proof (wf_length bs Hwf). pose proof (wf_length other Ho).
  apply (zget_ext 0); [lia |]. intros w Hw.
  apply word_ext; [apply wf_word; auto; lia .. |]. intros b Hb.
  apply eq_iff_eq_true. rewrite <- !member_of_bit by lia. by rewrite H.
Qed.

Lemma equal_spec bs other :
  bitset_wf N bs -> bitset_wf N other ->
  equal N bs other = true <-> members N bs = members N other.
Proof.
  intros Hwf Ho. unfold equal. split.
  - destruct (negb _); [done |]. rewrite forallb_words. intros H. f_equal.
    pose proof (wf_length bs Hwf). pose proof (wf_length other Ho).
    apply (zget_ext 0); [lia |]. intros w Hw. specialize (H w ltac:(lia)).
    rewrite get_bitset_word_in in H by lia. by apply Z.eqb_eq.
  - intros H%members_inj; [| done | done]. subst other. rewrite Z.eqb_refl. simpl.
    rewrite forallb_words. intros w Hw. rewrite get_bitset_word_in by done. apply Z.eqb_refl.
Qed.

Lemma new_wf : bitset_wf N (ObBitSet_new N).
Proof. split; [apply length_replicate |]. apply Forall_replicate. lia. Qed.

Lemma zero_members bs : (forall w, zget 0 bs w = 0) -> members N bs = ∅.
Proof.
  intros H. apply elem_of_equiv_empty_L. intros i Hi.
  apply elem_of_members, has_member_spec in Hi as [_ Hi]. by rewrite H, Z.bits_0 in Hi.
Qed.

Lemma zget_replicate n w : zget 0 (replicate n 0) w = 0.
Proof.
  unfold zget. destruct (_ !! _) eqn:E; [| done]. by apply lookup_replicate in E as [-> _].
Qed.
End Laws.

Lemma add_member_wf (N : Z) (HN : 1 <= N) bs i : bitset_wf N bs -> bitset_wf N (add_member N bs i).2.
Proof.
  intros Hbs. pose proof (Z.mod_pos_bound i 32 ltac:(lia)) as Hm.
  unfold add_member. cases; [done | done |].
  apply zset_wf; [done |]. apply lor_word; [| by apply shiftl_word].
  assert (in_range N i) by (unfold in_range; lia). apply (wf_word N); auto using word_index.
Qed.

Lemma clear_wf (N : Z) bs : bitset_wf N bs -> clear N bs = ObBitSet_new N.
Proof. intros [Hlen _]. unfold clear. by rewrite Hlen. Qed.

(** ** Theorems *)

(** Every operation of [ObBitSet] keeps the object well formed. *)
Theorem bitset_operations_wf (N : Z) (HN : 1 <= N) (bs other : ObBitSet) (i : Z)
    (Hbs : bitset_wf N bs) (Hother : bitset_wf N other) :
  bitset_wf N (ObBitSet_new N) /\
  bitset_wf N (add_member N bs i).2 /\
  bitset_wf N (del_member N bs i).2 /\
  bitset_wf N (add_members N bs other) /\
  bitset_wf N (assign N bs other) /\
  bitset_wf N (clear N bs).
Proof.
  pose proof (Z.mod_pos_bound i 32 ltac:(lia)) as Hm.
  assert (Hw : in_range N i -> 0 <= zget 0 bs (i / 32) < 2 ^ 32)
    by (intros; apply (wf_word N); auto using word_index).
  repeat split_and; [apply new_wf | by apply add_member_wf | | | rewrite assign_members; done |].
  - unfold del_member, in_range in *. cases; [done | done |].
    apply zset_wf; [done |]. apply land_word, Hw. lia.
  - apply (word_loop_wf N HN (fun x j => Z.lor x (get_bitset_word N other j))); [done |].
    intros w Hr. rewrite get_bitset_word_in by done. apply lor_word; by apply (wf_word N).
  - rewrite clear_wf by done. apply new_wf.
Qed.

(** The hypotheses of [bitset_operations_wf] hold of two concrete sets. *)
Lemma bitset_operations_wf_witness :
  bitset_wf 40 (add_member 40 [5; 1] 33).2.
Proof.
  assert (H : forall l, length l = 2%nat -> Forall (fun w => 0 <= w < 2 ^ 32) l -> bitset_wf 40 l)
    by (intros; split; done).
  apply (bitset_operations_wf 40 ltac:(lia) [5; 1] [0; 2] 33); apply H;
    first [done | repeat (constructor; [lia |]); constructor].
Defined.

(** C21: [ObBitSet] refines finite sets of indexes.  Through [members], adding,
    deleting, clearing, uniting, copying and the tests on well-formed objects
    are the set operations; an index out of the capacity is refused by
    [add_member] and not a member, and [operator==] holds exactly of objects
    with the same members. *)
Theorem bitset_refines_set (N : Z) (HN : 1 <= N) (bs other : ObBitSet) (i : Z)
    (Hbs : bitset_wf N bs) (Hother : bitset_wf N other) :
  members N (ObBitSet_new N) = ∅ /\
  members N (clear N bs) = ∅ /\
  (has_member N bs i = true <-> i ∈ members N bs) /\
  (add_member N bs i).1 = bool_decide (0 <= i < MAX_BITMAPWORD N * PER_BITMAPWORD_BITS) /\
  members N (add_member N bs i).2 =
    (if (add_member N bs i).1 then {[ i ]} else ∅) ∪ members N bs /\
  (del_member N bs i).1 = bool_decide (0 <= i) /\
  members N (del_member N bs i).2 = members N bs ∖ {[ i ]} /\
  members N (add_members N bs other) = members N bs ∪ members N other /\
  members N (assign N bs other) = members N other /\
  (is_empty N bs = true <-> members N bs = ∅) /\
  (is_subset N bs other = true <-> members N bs ⊆ members N other) /\
  (is_superset N bs other = true <-> members N other ⊆ members N bs) /\
  (overlap N bs other = true <-> ~ members N bs ## members N other) /\
  (equal N bs other = true <-> members N bs = members N other) /\
  (compare_bit N bs other i = 0 <-> (i ∈ members N bs <-> i ∈ members N other)).
Proof.
  assert (Hadd : (add_member N bs i).1
                 = bool_decide (0 <= i < MAX_BITMAPWORD N * PER_BITMAPWORD_BITS)).
  { unfold add_member. cases; symmetry; [apply bool_decide_eq_false .. | apply bool_decide_eq_true];
      lia. }
  conjs; try exact Hadd; try apply zero_members, zget_replicate;
    try solve [auto using is_empty_spec, is_subset_spec, overlap_spec, equal_spec,
                 add_members_members].
  - by rewrite elem_of_members.
  - rewrite Hadd. case_bool_decide; [by apply add_member_members |].
    rewrite (left_id_L ∅ (∪)). f_equal. unfold add_member. cases; [done | done | lia].
  - unfold del_member. cases; symmetry; [apply bool_decide_eq_false | apply bool_decide_eq_true ..]; lia.
  - destruct (decide (0 <= i)); [by apply del_member_members |].
    unfold del_member. cases; [| lia | lia]. apply set_eq. intros j. simpl.
    rewrite elem_of_difference, elem_of_singleton. split; [| tauto].
    intros Hj. split; [done |]. intros ->. apply members_in_range in Hj. destruct Hj. lia.
  - by rewrite assign_members.
  - rewrite is_superset_is_subset. by apply is_subset_spec.
  - rewrite !elem_of_members. unfold compare_bit.
    destruct (has_member N bs i), (has_member N other i); simpl; intuition (congruence || lia).
Qed.

(** Two sets of capacity 40 satisfy the hypotheses of [bitset_refines_set]. *)
Lemma bitset_refines_set_witness :
  members 40 (add_members 40 [5; 1] [0; 2]) = members 40 [5; 1] ∪ members 40 [0; 2].
Proof.
  assert (H : forall l, length l = 2%nat -> Forall (fun w => 0 <= w < 2 ^ 32) l -> bitset_wf 40 l)
    by (intros; split; done).
  apply (bitset_refines_set 40 ltac:(lia) [5; 1] [0; 2] 33); apply H;
    first [done | repeat (constructor; [lia |]); constructor].
Defined.

(** [num_members] is not the cardinality.  The set {0, 1} of a capacity-64
    object gives 9, and a set whose first word is zero gives 0 whatever its
    other words hold: the loop stops at the first zero word, and its folding
    steps all shift by one bit. *)
Theorem num_members_not_cardinality :
  members 64 [3; 0] = {[ 0; 1 ]} /\ num_members 64 [3; 0] = 9 /\
  (forall N ws, 1 <= N -> num_members N (0 :: ws) = 0).
Proof.
  split_and!; [by vm_compute | by vm_compute |]. intros N ws HN.
  pose proof (MAX_BITMAPWORD_pos N HN). unfold num_members, word_indexes.
  rewrite seqZ_cons by lia. simpl. unfold get_bitset_word. cases; (done || lia).
Qed.
