(* ===== verification/ObNumber.v ===== *)
(** * ObNumber: the DECIMAL arithmetic of common/ob_number.{h,cpp}

    A number is an array of at most nine 32-bit words, least significant
    first, read in two's complement, and a decimal scale: it stands for
    [sval words / 10 ^ vscale].  The class keeps a count [nwords_] beside a
    fixed array; the model keeps the [nwords_] words in use as a list, because
    no operation reads a word at or above the count before writing it.
    An [OB_ASSERT] that fails aborts the process: such operations return
    [None].  int8_t, int64_t and uint32_t stores are written as conversions. *)

From S2P Require Import Prelude.
Local Open Scope Z_scope.

Record ObNumber := mkNumber { vscale_ : Z; words_ : list Z }.

Definition nwords_ (n : ObNumber) : Z := Z.of_nat (length (words_ n)).

Definition MAX_NWORDS : Z := 9.
Definition SIGN_MASK : Z := 0x80000000.
Definition BASE : Z := 2 ^ 32.
Definition SINGLE_PRECISION_NDIGITS : Z := 38.
Definition DOUBLE_PRECISION_NDIGITS : Z := 2 * SINGLE_PRECISION_NDIGITS.
Definition MAX_PRINTABLE_SIZE : nat := 128.

Definition POWER10 : list Z :=
  [1; 10; 100; 1000; 10000; 100000; 1000000; 10000000; 100000000; 1000000000].

(** [OB_ASSERT(0 < nwords)] and [OB_ASSERT(nwords <= MAX_NWORDS)] *)
Definition assert_nwords (ws : list Z) : option unit :=
  ob_assert ((0 <? Z.of_nat (length ws)) && (Z.of_nat (length ws) <=? MAX_NWORDS)).

Definition ObNumber_new : ObNumber := mkNumber 0 [0].

Definition set_zero (n : ObNumber) : ObNumber := mkNumber (vscale_ n) [0].

Definition words_is_zero (ws : list Z) : bool :=
  match ws with [w] => w =? 0 | _ => false end.
Definition is_zero (n : ObNumber) : bool := words_is_zero (words_ n).

Definition sign_bit (w : Z) : bool := negb (Z.land w SIGN_MASK =? 0).

Definition words_is_negative (ws : list Z) : bool :=
  match last ws with Some w => sign_bit w | None => false end.
Definition is_negative (n : ObNumber) : bool := words_is_negative (words_ n).

(** [from(vscale, nwords, words)] *)
Definition from_words (vscale : Z) (words : list Z) : option ObNumber :=
  ob_assert ((0 <=? vscale) && (Z.of_nat (length words) <=? MAX_NWORDS)) ;;
  Some (mkNumber vscale words).

(** ** Word loops *)

Fixpoint mul_uint32_loop (multiplier carry : Z) (ws : list Z) : list Z * Z :=
  match ws with
  | [] => ([], carry)
  | w :: ws' =>
      let carry := int64 (carry + int64 (multiplier * w)) in
      if BASE <=? carry then
        let new_carry := carry / BASE in
        let '(r, c) := mul_uint32_loop multiplier new_carry ws' in
        (u32 (carry - new_carry * BASE) :: r, c)
      else
        let '(r, c) := mul_uint32_loop multiplier 0 ws' in (u32 carry :: r, c)
  end.

Definition mul_uint32 (ws : list Z) (multiplier : Z) (did_carry : bool) : option (Z * list Z) :=
  assert_nwords ws ;;
  let '(r, carry) := mul_uint32_loop multiplier 0 ws in
  Some (if did_carry && (0 <? carry) then
          if Z.of_nat (length r) <? MAX_NWORDS - 1 then (OB_SUCCESS, r ++ [u32 carry])
          else (OB_VALUE_OUT_OF_RANGE, r)
        else (OB_SUCCESS, r)).

(** The second loop of [negate]: add one and ignore the final carry. *)
Fixpoint add_one_loop (carry : Z) (ws : list Z) : list Z :=
  match ws with
  | [] => []
  | w :: ws' =>
      let carry := carry + w in
      if BASE <=? carry then u32 (carry - BASE) :: add_one_loop 1 ws'
      else u32 carry :: add_one_loop 0 ws'
  end.

Definition negate_words (ws : list Z) : option (list Z) :=
  assert_nwords ws ;;
  Some (add_one_loop 1 (map (fun w => Z.lxor w UINT32_MAX) ws)).

(** The static [negate(n, res)], which also copies the scale. *)
Definition negate (n : ObNumber) : option ObNumber :=
  ws ← negate_words (words_ n) ; Some (mkNumber (vscale_ n) ws).

(** [add_uint32(n1, n2, res)] where [res] is [n1], as in its only call: the
    loop breaks at the first word without a carry and leaves the others. *)
Fixpoint add_uint32_loop (carry : Z) (ws : list Z) : list Z * Z :=
  match ws with
  | [] => ([], carry)
  | w :: ws' =>
      let carry := carry + w in
      if BASE <=? carry then
        let '(r, c) := add_uint32_loop 1 ws' in (u32 (carry - BASE) :: r, c)
      else (u32 carry :: ws', 0)
  end.

Definition add_uint32 (ws : list Z) (n2 : Z) : option (Z * list Z) :=
  assert_nwords ws ;;
  let '(r, carry) := add_uint32_loop n2 ws in
  Some (if 0 <? carry then
          if Z.of_nat (length r) <? MAX_NWORDS - 1 then (OB_SUCCESS, r ++ [u32 carry])
          else (OB_VALUE_OUT_OF_RANGE, r)
        else (OB_SUCCESS, r)).

Fixpoint remove_leading_zeroes_rev (rws : list Z) : list Z :=
  match rws with
  | w :: ((w' :: _) as rest) =>
      if UINT32_MAX =? w then
        if sign_bit w' then remove_leading_zeroes_rev rest else rws
      else if 0 =? w then
        if negb (sign_bit w') then remove_leading_zeroes_rev rest else rws
      else rws
  | _ => rws
  end.

Definition remove_leading_zeroes (ws : list Z) : list Z :=
  rev (remove_leading_zeroes_rev (rev ws)).

(** The loop of [div_uint32] runs from the most significant word down; int64
    division truncates. *)
Fixpoint div_uint32_loop (divisor carry : Z) (rws : list Z) : list Z * Z :=
  match rws with
  | [] => ([], carry)
  | w :: rws' =>
      let carry := int64 (int64 (carry * BASE) + w) in
      let '(q, c) := div_uint32_loop divisor (Z.rem carry divisor) rws' in
      (u32 (Z.quot carry divisor) :: q, c)
  end.

Definition div_uint32 (ws : list Z) (divisor : Z) : option (list Z * list Z) :=
  assert_nwords ws ;;
  ob_assert (0 <? divisor) ;;
  let '(q, carry) := div_uint32_loop divisor 0 (rev ws) in
  Some (remove_leading_zeroes (rev q), if carry =? 0 then [0] else [u32 carry]).

(** ** Shifts by powers of ten *)

(** [while (9 < i)] of [left_shift], then the last factor. *)
Fixpoint left_shift_loop (fuel : nat) (i : Z) (did_carry : bool) (ws : list Z)
    : option (Z * list Z) :=
  match fuel with
  | O => None
  | S fuel' =>
      if 9 <? i then
        '(ret, ws') ← mul_uint32 ws (zget 0 POWER10 9) did_carry ;
        if negb (ret =? OB_SUCCESS) then Some (ret, ws')
        else left_shift_loop fuel' (int8 (i - 9)) did_carry ws'
      else mul_uint32 ws (zget 0 POWER10 i) did_carry
  end.

Definition left_shift (n : ObNumber) (i : Z) (did_carry : bool) : option (Z * ObNumber) :=
  ob_assert ((0 <? i) && (i <? DOUBLE_PRECISION_NDIGITS)) ;;
  '(ret, ws) ← left_shift_loop 15 i did_carry (words_ n) ;
  Some (ret, mkNumber (int8 (vscale_ n + i)) ws).

Fixpoint right_shift_loop (fuel : nat) (i : Z) (ws : list Z) : option (list Z) :=
  match fuel with
  | O => None
  | S fuel' =>
      if 9 <? i then
        '(q, _) ← div_uint32 ws (zget 0 POWER10 9) ; right_shift_loop fuel' (int8 (i - 9)) q
      else '(q, _) ← div_uint32 ws (zget 0 POWER10 i) ; Some q
  end.

Definition right_shift (n : ObNumber) (i : Z) : option ObNumber :=
  ob_assert ((0 <? i) && (i <=? vscale_ n)) ;;
  ws ← right_shift_loop 15 i (words_ n) ;
  Some (mkNumber (int8 (vscale_ n - i)) ws).

(** ** Conversions *)

(** [while(i64)] of [from(int64_t)]; int64 division truncates. *)
Fixpoint from_int64_loop (fuel : nat) (i64 : Z) : option (list Z) :=
  if i64 =? 0 then Some [] else
  match fuel with
  | O => None
  | S fuel' =>
      let new_i64 := Z.quot i64 BASE in
      ws ← from_int64_loop fuel' new_i64 ;
      Some (u32 (i64 - BASE * new_i64) :: ws)
  end.

(** [from(int64_t)] *)
Definition from_int64 (i64 : Z) : option ObNumber :=
  let is_neg := i64 <? 0 in
  let i64 := if is_neg then int64 (- i64) else i64 in
  ws ← from_int64_loop 2 i64 ;
  let n := mkNumber 0 (match ws with [] => [0] | _ => ws end) in
  if is_neg then negate n else Some n.

Definition can_convert_to_int64 (n : ObNumber) : bool :=
  (vscale_ n =? 0) && (0 <=? nwords_ n) && (nwords_ n <=? 2).

(** The result is the return code and, on success, the integer. *)
Definition to_int64 (n : ObNumber) : option (Z * Z) :=
  if negb (can_convert_to_int64 n) then Some (OB_VALUE_OUT_OF_RANGE, 0)
  else
    let is_neg := is_negative n in
    ws ← (if is_neg then negate_words (words_ n) else Some (words_ n)) ;
    let i64 := foldr (fun w acc => int64 (int64 (acc * BASE) + w)) 0 ws in
    Some (OB_SUCCESS, if is_neg then int64 (- i64) else i64).

(** One decimal digit as [to_string] and [cast_to_int64] read it off. *)
Definition take_digit (ws : list Z) : option (list Z * Z) :=
  '(q, remainder) ← div_uint32 ws 10 ;
  if words_is_zero remainder then Some (q, 0)
  else
    ob_assert (Z.of_nat (length remainder) =? 1) ;;
    let d := zget 0 remainder 0 in
    ob_assert ((d <? 10) && (0 <? d)) ;;
    Some (q, d).

(** The digit loop of [to_string]: [i] is the free space of [inner_buf]; the
    digits come out most significant first. *)
Fixpoint to_string_loop (i : nat) (ws : list Z) (digits : list Z) : option (list Z) :=
  if words_is_zero ws then Some digits else
  match i with
  | O => None
  | S i' =>
      '(q, d) ← take_digit ws ;
      ob_assert (0 <? Z.of_nat i') ;;
      to_string_loop i' q ((48 + d) :: digits)
  end.

(** [databuff_printf] of a literal: [out] is what the buffer holds so far. *)
Definition databuff_printf (buf_len : Z) (out s : list Z) : list Z :=
  let room := buf_len - Z.of_nat (length out) in
  if Z.of_nat (length s) <? room then out ++ s
  else if 0 <? room then out ++ firstn (Z.to_nat (room - 1)) s ++ [0]
  else out.

(** [if (n < buf_len - pos) { memcpy ... }] *)
Definition put_if_room (buf_len need : Z) (out s : list Z) : list Z :=
  if need <? buf_len - Z.of_nat (length out) then out ++ s else out.

(** The text of the digits, with the sign and the point (48 is '0', 45 is '-',
    46 is '.'). *)
Definition print_digits (buf_len : Z) (is_neg : bool) (vs : Z) (digits : list Z) : list Z :=
  let num := Z.of_nat (length digits) in
  if num =? 0 then databuff_printf buf_len [] [48]
  else
    let out := if is_neg then databuff_printf buf_len [] [45] else [] in
    if num <=? vs then
      let out := databuff_printf buf_len out [48; 46] in
      let out := Nat.iter (Z.to_nat (vs - num)) (fun o => databuff_printf buf_len o [48]) out in
      put_if_room buf_len num out digits
    else
      let out := put_if_room buf_len (num - vs) out (firstn (Z.to_nat (num - vs)) digits) in
      if 0 <? vs then
        put_if_room buf_len (1 + vs) out (46 :: skipn (Z.to_nat (num - vs)) digits)
      else out.

(** [to_string] into a buffer of [buf_len] bytes: the [pos] bytes written. *)
Definition to_string (n : ObNumber) (buf_len : Z) : option (list Z) :=
  assert_nwords (words_ n) ;;
  let is_neg := is_negative n in
  ws ← (if is_neg then negate_words (words_ n) else Some (words_ n)) ;
  digits ← to_string_loop MAX_PRINTABLE_SIZE ws [] ;
  let out := print_digits buf_len is_neg (vscale_ n) digits in
  ob_assert (Z.of_nat (length out) <=? buf_len) ;;
  Some out.

(** The character loop of [from(str, len)]: state is the words, the sign seen
    and the scale (-1 before a point). *)
Fixpoint from_string_loop (str : list Z) (ws : list Z) (is_neg : bool) (vscale : Z)
    : option (Z * list Z * bool * Z) :=
  match str with
  | [] => Some (OB_SUCCESS, ws, is_neg, vscale)
  | c :: str' =>
      if (48 <=? c) && (c <=? 57) then
        '(ret, ws) ← mul_uint32 ws 10 true ;
        if negb (ret =? OB_SUCCESS) then Some (ret, ws, is_neg, vscale)
        else
          '(ret, ws) ← add_uint32 ws (c - 48) ;
          if negb (ret =? OB_SUCCESS) then Some (ret, ws, is_neg, vscale)
          else from_string_loop str' ws is_neg
                 (if 0 <=? vscale then int8 (vscale + 1) else vscale)
      else if c =? 45 then from_string_loop str' ws true vscale
      else if c =? 46 then from_string_loop str' ws is_neg 0
      else Some (OB_ERR_UNEXPECTED, ws, is_neg, vscale)
  end.

(** [from(str, len)] *)
Definition from_string (str : list Z) : option (Z * ObNumber) :=
  match from_string_loop str [0; 0; 0; 0] false (-1) with
  | None => None
  | Some (ret, ws, is_neg, vscale) =>
      if SINGLE_PRECISION_NDIGITS <? vscale then Some (OB_VALUE_OUT_OF_RANGE, mkNumber 0 [0])
      else if ret =? OB_SUCCESS then
        let vs := if 0 <? vscale then vscale else 0 in
        ws ← (if is_neg then negate_words ws else Some ws) ;
        Some (OB_SUCCESS, mkNumber vs (remove_leading_zeroes ws))
      else Some (ret, mkNumber 0 [0])
  end.

(** The digit loop of [cast_to_int64]: the first [vscale] digits are dropped,
    the others stored from the end of an array of [room] places. *)
Fixpoint cast_digits (fuel : nat) (ws : list Z) (vscale : Z) (room : nat) (digits : list Z)
    : option (list Z) :=
  if words_is_zero ws then Some digits else
  match fuel with
  | O => None
  | S fuel' =>
      if 0 <? vscale then
        '(q, _) ← div_uint32 ws 10 ; cast_digits fuel' q (vscale - 1) room digits
      else
        match room with
        | O => None
        | S room' =>
            '(q, d) ← take_digit ws ; cast_digits fuel' q vscale room' (d :: digits)
        end
  end.

(** The loop divides until the words are zero; nine words have fewer than 100
    decimal digits. *)
Definition CAST_FUEL : nat := 100.

(** The truncated value; the return code is always success. *)
Definition cast_to_int64 (n : ObNumber) : option Z :=
  let is_neg := is_negative n in
  ws ← (if is_neg then negate_words (words_ n) else Some (words_ n)) ;
  digits ← cast_digits CAST_FUEL ws (vscale_ n) (Z.to_nat DOUBLE_PRECISION_NDIGITS) [] ;
  let i64 := fold_left (fun acc d => int64 (int64 (acc * 10) + d)) digits 0 in
  Some (if is_neg then int64 (- i64) else i64).

(** ** Scale adjustment and arithmetic *)

Definition extend_words (ws : list Z) (nwords : Z) : option (list Z) :=
  ob_assert ((Z.of_nat (length ws) <? nwords) && (nwords <=? MAX_NWORDS)) ;;
  let fill := if words_is_negative ws then UINT32_MAX else 0 in
  Some (ws ++ replicate (Z.to_nat (nwords - Z.of_nat (length ws))) fill).

Definition round_fraction_part (n : ObNumber) (scale : Z) : option ObNumber :=
  let is_neg := is_negative n in
  clone ← (if is_neg then negate n else Some n) ;
  clone ← (if scale <? vscale_ n then right_shift clone (int8 (vscale_ n - scale)) else Some clone) ;
  res ← (if is_neg then negate clone else Some clone) ;
  Some (mkNumber (vscale_ res) (remove_leading_zeroes (words_ res))).

Definition round_if_over (n : ObNumber) (scale : Z) : option ObNumber :=
  if scale <? vscale_ n then round_fraction_part n scale else Some n.

Fixpoint add_words_loop (carry : Z) (ws1 ws2 : list Z) : list Z :=
  match ws1, ws2 with
  | w1 :: r1, w2 :: r2 =>
      let carry := carry + (w1 + w2) in
      if BASE <=? carry then u32 (carry - BASE) :: add_words_loop 1 r1 r2
      else u32 carry :: add_words_loop 0 r1 r2
  | _, _ => []
  end.

Definition add_words (n1 n2 : ObNumber) : option ObNumber :=
  assert_nwords (words_ n1) ;;
  ob_assert (nwords_ n1 =? nwords_ n2) ;;
  ob_assert (vscale_ n1 =? vscale_ n2) ;;
  Some (mkNumber (vscale_ n1) (add_words_loop 0 (words_ n1) (words_ n2))).

Definition add (n1 n2 res : ObNumber) : option (Z * ObNumber) :=
  let res := set_zero res in
  n1 ← round_if_over n1 SINGLE_PRECISION_NDIGITS ;
  n2 ← round_if_over n2 SINGLE_PRECISION_NDIGITS ;
  let res_nwords := int8 (Z.max (nwords_ n1) (nwords_ n2) + 1) in
  '(ret, n1, n2) ←
    (if MAX_NWORDS <? res_nwords then Some (OB_VALUE_OUT_OF_RANGE, n1, n2)
     else
       ws1 ← extend_words (words_ n1) res_nwords ;
       ws2 ← extend_words (words_ n2) res_nwords ;
       Some (OB_SUCCESS, mkNumber (vscale_ n1) ws1, mkNumber (vscale_ n2) ws2)) ;
  '(ret, n1, n2) ←
    (if vscale_ n2 <? vscale_ n1 then
       '(ret, n2) ← left_shift n2 (int8 (vscale_ n1 - vscale_ n2)) false ; Some (ret, n1, n2)
     else if vscale_ n1 <? vscale_ n2 then
       '(ret, n1) ← left_shift n1 (int8 (vscale_ n2 - vscale_ n1)) false ; Some (ret, n1, n2)
     else Some (ret, n1, n2)) ;
  if ret =? OB_SUCCESS then
    sum ← add_words n1 n2 ;
    Some (OB_SUCCESS, mkNumber (vscale_ sum) (remove_leading_zeroes (words_ sum)))
  else Some (ret, res).

Definition sub (n1 other res : ObNumber) : option (Z * ObNumber) :=
  if MAX_NWORDS <=? nwords_ other then Some (OB_VALUE_OUT_OF_RANGE, res)
  else
    ws ← extend_words (words_ other) (int8 (nwords_ other + 1)) ;
    ws ← negate_words ws ;
    add n1 (mkNumber (vscale_ other) (remove_leading_zeroes ws)) res.

(** [compare] returns 0 when [sub] fails. *)
Definition compare (n1 other : ObNumber) : option Z :=
  '(ret, res) ← sub n1 other ObNumber_new ;
  Some (if negb (ret =? OB_SUCCESS) then 0
        else if is_negative res then -1
        else if negb (is_zero res) then 1
        else 0).

(** The public [negate(res)]. *)
Definition negate_checked (n res : ObNumber) : option (Z * ObNumber) :=
  if MAX_NWORDS <=? nwords_ n then Some (OB_VALUE_OUT_OF_RANGE, res)
  else
    ws ← extend_words (words_ n) (int8 (nwords_ n + 1)) ;
    ws ← negate_words ws ;
    Some (OB_SUCCESS, mkNumber (vscale_ n) (remove_leading_zeroes ws)).

(** The inner loop of [mul_words] for one word [m] of the multiplier; [acc] is
    the result from the position of that word on. *)
Fixpoint mul_words_inner (m carry : Z) (ws1 acc : list Z) : list Z :=
  match ws1, acc with
  | w :: ws1', a :: acc' =>
      let carry := u64 (carry + u64 (w * m)) in
      let carry := u64 (carry + a) in
      if BASE <=? carry then
        let new_carry := carry / BASE in
        u32 (u64 (carry - u64 (new_carry * BASE))) :: mul_words_inner m new_carry ws1' acc'
      else u32 carry :: mul_words_inner m 0 ws1' acc'
  | [], a :: acc' => (if 0 <? carry then u32 carry else a) :: acc'
  | _, [] => []
  end.

Fixpoint mul_words_outer (ws1 ws2 acc : list Z) : list Z :=
  match ws2 with
  | [] => acc
  | m :: ws2' =>
      match mul_words_inner m 0 ws1 acc with
      | [] => []
      | a :: acc' => a :: mul_words_outer ws1 ws2' acc'
      end
  end.

(** [None] when the product needs more than [MAX_NWORDS] words: the class then
    sets the count above the array's size and [mul] goes on to read words
    beyond it, which C++ leaves undefined. *)
Definition mul_words (ws1 ws2 : list Z) : option (list Z) :=
  ob_assert ((0 <? Z.of_nat (length ws1)) && (0 <? Z.of_nat (length ws2))) ;;
  let n := int8 (Z.of_nat (length ws1) + Z.of_nat (length ws2) + 1) in
  if MAX_NWORDS <? n then None
  else Some (mul_words_outer ws1 ws2 (replicate (Z.to_nat n) 0)).

Definition mul (n1 other res : ObNumber) : option (Z * ObNumber) :=
  let res := set_zero res in
  if negb (is_zero n1) && negb (is_zero other) then
    let neg1 := is_negative n1 in
    let neg2 := is_negative other in
    multiplicand ← (if neg1 then negate n1 else Some n1) ;
    multiplier ← (if neg2 then negate other else Some other) ;
    multiplicand ← round_if_over multiplicand SINGLE_PRECISION_NDIGITS ;
    multiplier ← round_if_over multiplier SINGLE_PRECISION_NDIGITS ;
    let vs := int8 (vscale_ multiplicand + vscale_ multiplier) in
    ws ← mul_words (words_ multiplicand) (words_ multiplier) ;
    let ws := remove_leading_zeroes ws in
    ws ← (if xorb neg1 neg2 then negate_words ws else Some ws) ;
    Some (OB_SUCCESS, mkNumber vs ws)
  else Some (OB_SUCCESS, res).

(** The digit count of [round_to]: [vprec] is an int8_t. *)
Fixpoint count_digits (fuel : nat) (ws : list Z) (vprec : Z) : option Z :=
  if words_is_zero ws then Some vprec else
  match fuel with
  | O => None
  | S fuel' =>
      '(q, _) ← div_uint32 ws 10 ;
      count_digits fuel' (remove_leading_zeroes q) (int8 (vprec + 1))
  end.

(** [round_to]: the scale, count and words are stored only on success. *)
Definition round_to (n : ObNumber) (precision scale : Z) : option (Z * option ObNumber) :=
  ob_assert ((scale <=? precision) && (0 <=? scale)) ;;
  let is_neg := is_negative n in
  clone ← (if is_neg then negate n else Some n) ;
  clone ← (if scale <? vscale_ clone then
             c ← right_shift clone (int8 (vscale_ clone - scale)) ;
             Some (mkNumber (vscale_ c) (remove_leading_zeroes (words_ c)))
           else Some clone) ;
  vprec ← count_digits CAST_FUEL (words_ clone) 0 ;
  if precision <? vprec then Some (OB_VALUE_OUT_OF_RANGE, None)
  else
    res ← (if is_neg then negate clone else Some clone) ;
    Some (OB_SUCCESS, Some res).

(** ** The value of a number *)

(** The words as an unsigned number, and in two's complement. *)
Fixpoint uval (ws : list Z) : Z :=
  match ws with [] => 0 | w :: ws' => w + BASE * uval ws' end.

Definition modulus (ws : list Z) : Z := BASE ^ Z.of_nat (length ws).

Definition sval (ws : list Z) : Z :=
  if words_is_negative ws then uval ws - modulus ws else uval ws.

Definition words_wf (ws : list Z) : Prop := Forall (fun w => 0 <= w < BASE) ws.

Definition number_wf (n : ObNumber) : Prop :=
  words_wf (words_ n) /\ 1 <= nwords_ n <= MAX_NWORDS /\ 0 <= vscale_ n <= INT8_MAX.

(** ** Words *)

Lemma BASE_pos : 0 < BASE.
Proof. reflexivity. Qed.

Lemma modulus_pos ws : 0 < modulus ws.
Proof. apply Z.pow_pos_nonneg; [reflexivity | lia]. Qed.

Lemma modulus_cons w ws : modulus (w :: ws) = BASE * modulus ws.
Proof.
  unfold modulus. cbn [length]. rewrite Nat2Z.inj_succ, Z.pow_succ_r by lia. done.
Qed.

Lemma modulus_length ws1 ws2 : length ws1 = length ws2 -> modulus ws1 = modulus ws2.
Proof. unfold modulus. by intros ->. Qed.

Lemma modulus_app ws1 ws2 : modulus (ws1 ++ ws2) = modulus ws1 * modulus ws2.
Proof.
  unfold modulus. rewrite length_app, Nat2Z.inj_add, Z.pow_add_r by lia. done.
Qed.

Lemma uval_app ws1 ws2 : uval (ws1 ++ ws2) = uval ws1 + modulus ws1 * uval ws2.
Proof.
  induction ws1 as [| w ws1 IH]; simpl; [unfold modulus; simpl; lia |].
  rewrite IH, modulus_cons. lia.
Qed.

Lemma uval_bounds ws : words_wf ws -> 0 <= uval ws < modulus ws.
Proof.
  induction 1 as [| w ws Hw _ IH]; [done |]. rewrite modulus_cons. simpl.
  pose proof BASE_pos. nia.
Qed.

Lemma uval_replicate_0 n : uval (replicate n 0) = 0.
Proof. induction n; simpl; lia. Qed.

Lemma u32_small w : 0 <= w < BASE -> u32 w = w.
Proof. apply wrapu_small. Qed.

Lemma u32_range w : 0 <= u32 w < BASE.
Proof. by apply wrapu_range. Qed.

Lemma sign_bit_spec w : 0 <= w < BASE -> sign_bit w = (BASE / 2 <=? w).
Proof.
  intros Hw. unfold sign_bit, SIGN_MASK.
  change 0x80000000 with (2 ^ 31).
  assert (E : Z.land w (2 ^ 31) = if 2 ^ 31 <=? w then 2 ^ 31 else 0).
  { apply Z.bits_inj'. intros k Hk. rewrite Z.land_spec, Z.pow2_bits_eqb by lia.
    destruct (Z.eqb_spec 31 k) as [<- | Hne]; rewrite ?andb_true_r, ?andb_false_r.
    - rewrite Z.testbit_eqb by lia. unfold BASE in Hw.
      destruct (Z.leb_spec (2 ^ 31) w); [| by rewrite Z.div_small by lia].
      rewrite Z.pow2_bits_true by lia.
      assert (w / 2 ^ 31 = 1) as -> by (symmetry; apply Z.div_unique with (w - 2 ^ 31); lia). done.
    - destruct (_ <=? _); [by rewrite Z.pow2_bits_false by lia | by rewrite Z.bits_0]. }
  rewrite E. by destruct (_ <=? _).
Qed.

Lemma words_is_negative_snoc ws w : words_is_negative (ws ++ [w]) = sign_bit w.
Proof. unfold words_is_negative. by rewrite last_snoc. Qed.

(** The sign is that of the two's complement reading. *)
Lemma words_is_negative_spec ws :
  words_wf ws -> ws <> [] -> words_is_negative ws = (modulus ws / 2 <=? uval ws).
Proof.
  intros Hwf Hne. destruct (exists_last Hne) as (ws' & w & ->). clear Hne. rename ws' into ws.
  apply Forall_app in Hwf as [Hwf Hw]. rewrite Forall_singleton in Hw.
  rewrite words_is_negative_snoc, sign_bit_spec by done.
  rewrite uval_app, modulus_app. change (modulus [w]) with (2 ^ 32).
  cbn [uval]. rewrite Z.mul_0_r, Z.add_0_r. change (BASE / 2) with (2 ^ 31).
  pose proof (uval_bounds ws Hwf). pose proof (modulus_pos ws). unfold BASE in Hw.
  assert (modulus ws * 2 ^ 32 / 2 = modulus ws * 2 ^ 31) as ->.
  { change (2 ^ 32) with (2 ^ 31 * 2). rewrite Z.mul_assoc. by rewrite Z.div_mul by lia. }
  destruct (Z.leb_spec (2 ^ 31) w),
    (Z.leb_spec (modulus ws * 2 ^ 31) (uval ws + modulus ws * w)); try done; exfalso; nia.
Qed.

Lemma modulus_pow2 ws : modulus ws = 2 ^ (32 * Z.of_nat (length ws)).
Proof. unfold modulus, BASE. rewrite <- Z.pow_mul_r by lia. done. Qed.

Lemma modulus_even ws : ws <> [] -> modulus ws = 2 * (modulus ws / 2).
Proof.
  intros Hne. rewrite modulus_pow2, pow2_double; [| destruct ws; [done | simpl length; lia]].
  by rewrite (Z.mul_comm 2 (2 ^ _)), Z.div_mul, Z.mul_comm by lia.
Qed.

(** The value is the unsigned one brought into the signed range. *)
Lemma sval_wraps ws :
  words_wf ws -> ws <> [] -> sval ws = wraps (32 * Z.of_nat (length ws)) (uval ws).
Proof.
  intros Hwf Hne. pose proof (uval_bounds ws Hwf) as Hu.
  unfold sval. rewrite words_is_negative_spec by done.
  rewrite modulus_pow2 in *. set (k := 32 * Z.of_nat (length ws)) in *.
  assert (Hk : 32 <= k) by (destruct ws; [done | simpl in k; lia]).
  pose proof (pow2_double k ltac:(lia)) as E.
  assert (2 ^ k / 2 = 2 ^ (k - 1)) as -> by (rewrite E, Z.mul_comm; by rewrite Z.div_mul).
  unfold wraps. destruct (Z.leb_spec (2 ^ (k - 1)) (uval ws)).
  - rewrite <- (Z.mod_unique (uval ws + 2 ^ (k - 1)) (2 ^ k) 1 (uval ws - 2 ^ (k - 1))); lia.
  - rewrite Z.mod_small; lia.
Qed.

Lemma ne_length {A} (l : list A) : l <> [] -> (1 <= length l)%nat.
Proof. destruct l; simpl; [done | lia]. Qed.

(** ** The word loops compute on values *)

Lemma lxor_ones w : 0 <= w < BASE -> Z.lxor w UINT32_MAX = BASE - 1 - w.
Proof.
  intros Hw. unfold UINT32_MAX, BASE in *. change (2 ^ 32 - 1) with (Z.ones 32).
  assert (E : Z.lxor w (Z.ones 32) = Z.lnot w mod 2 ^ 32).
  { apply Z.bits_inj'. intros k Hk. rewrite Z.lxor_spec.
    destruct (decide (k < 32)).
    - rewrite Z.ones_spec_low, Z.mod_pow2_bits_low, Z.lnot_spec by lia. apply xorb_true_r.
    - rewrite Z.ones_spec_high, Z.mod_pow2_bits_high, xorb_false_r by lia.
      rewrite <- (Z.mod_small w (2 ^ 32)) by done. by rewrite Z.mod_pow2_bits_high by lia. }
  rewrite E. unfold Z.lnot. symmetry. change (Z.ones 32) with (2 ^ 32 - 1).
  apply Z.mod_unique with (-1); lia.
Qed.

Lemma inverse_words ws :
  words_wf ws ->
  words_wf (map (fun w => Z.lxor w UINT32_MAX) ws) /\
  uval (map (fun w => Z.lxor w UINT32_MAX) ws) = modulus ws - 1 - uval ws.
Proof.
  induction 1 as [| w ws Hw _ [IH1 IH2]]; [split; [constructor | done] |].
  rewrite modulus_cons. cbn [map uval]. rewrite IH2, lxor_ones by done. split; [| lia].
  constructor; [lia | done].
Qed.

Lemma add_one_loop_spec ws c :
  words_wf ws -> 0 <= c <= 1 ->
  words_wf (add_one_loop c ws) /\ length (add_one_loop c ws) = length ws /\
  uval (add_one_loop c ws) = (uval ws + c) mod modulus ws.
Proof.
  intros Hwf Hc.
  enough (H : words_wf (add_one_loop c ws) /\ length (add_one_loop c ws) = length ws /\
              exists k, uval (add_one_loop c ws) + modulus ws * k = uval ws + c).
  { destruct H as (H1 & H2 & k & Hk). split; [done |]. split; [done |].
    pose proof (uval_bounds _ H1) as Hb. rewrite (modulus_length _ _ H2) in Hb.
    apply Z.mod_unique with k; lia. }
  revert c Hc. induction Hwf as [| w ws Hw _ IH]; intros c Hc.
  { split; [constructor |]. split; [done |]. exists c. unfold modulus. simpl. lia. }
  cbn [add_one_loop uval]. rewrite modulus_cons. unfold words_wf.
  destruct (Z.leb_spec BASE (c + w)).
  - destruct (IH 1 ltac:(lia)) as (H1 & H2 & k & Hk).
    split; [constructor; [apply u32_range | done] |]. split; [simpl; lia |].
    exists k. cbn [uval]. rewrite u32_small by lia. nia.
  - destruct (IH 0 ltac:(lia)) as (H1 & H2 & k & Hk).
    split; [constructor; [apply u32_range | done] |]. split; [simpl; lia |].
    exists k. cbn [uval]. rewrite u32_small by lia. nia.
Qed.

Definition nwords_ok (ws : list Z) : Prop := 1 <= Z.of_nat (length ws) <= MAX_NWORDS.

Lemma assert_nwords_ok ws : nwords_ok ws -> assert_nwords ws = Some tt.
Proof. intros [? ?]. unfold assert_nwords, ob_assert. cases; [done | lia]. Qed.

Lemma nwords_ok_ne ws : nwords_ok ws -> ws <> [].
Proof. intros [? ?] ->. simpl in *. lia. Qed.

Lemma negate_words_spec ws :
  words_wf ws -> nwords_ok ws ->
  exists r, negate_words ws = Some r /\ words_wf r /\ length r = length ws /\
    uval r = (- uval ws) mod modulus ws.
Proof.
  intros Hwf Hn. unfold negate_words. rewrite assert_nwords_ok by done. simpl.
  destruct (inverse_words ws Hwf) as [H1 H2].
  destruct (add_one_loop_spec _ 1 H1 ltac:(lia)) as (H3 & H4 & H5).
  eexists. split; [done |]. split; [done |].
  rewrite length_map in H4. split; [done |].
  assert (Hl : modulus (map (fun w => Z.lxor w UINT32_MAX) ws) = modulus ws)
    by (apply modulus_length, length_map).
  rewrite H5, H2, Hl. pose proof (modulus_pos ws).
  replace (modulus ws - 1 - uval ws + 1) with (- uval ws + 1 * modulus ws) by lia.
  by rewrite Z_mod_plus_full.
Qed.

(** Negation of the signed value wraps only at the least number. *)
Lemma negate_words_sval ws r :
  words_wf ws -> nwords_ok ws -> negate_words ws = Some r ->
  words_wf r /\ length r = length ws /\ sval r = wraps (32 * Z.of_nat (length ws)) (- sval ws).
Proof.
  intros Hwf Hn Hr. destruct (negate_words_spec ws Hwf Hn) as (r' & E & H1 & H2 & H3).
  simplify_eq. pose proof (nwords_ok_ne ws Hn) as Hne.
  split; [done |]. split; [done |].
  assert (r <> []) by (destruct r, ws; done).
  rewrite sval_wraps, H2, H3, modulus_pow2, wraps_mod by done.
  apply wraps_congr. rewrite (sval_wraps ws) by done.
  rewrite <- (Z.sub_0_l (uval ws)), <- (Z.sub_0_l (wraps _ _)).
  rewrite <- (Zminus_mod_idemp_r 0 (wraps _ _)), mod_wraps, Zminus_mod_idemp_r; [done |].
  destruct Hn; lia.
Qed.

Lemma mul_uint32_loop_spec m ws c :
  words_wf ws -> 0 <= m <= 2 ^ 31 -> 0 <= c <= Z.max 0 (m - 1) ->
  words_wf (mul_uint32_loop m c ws).1 /\
  length (mul_uint32_loop m c ws).1 = length ws /\
  0 <= (mul_uint32_loop m c ws).2 <= Z.max 0 (m - 1) /\
  uval (mul_uint32_loop m c ws).1 + modulus ws * (mul_uint32_loop m c ws).2
    = m * uval ws + c.
Proof.
  intros Hwf Hm. revert c. induction Hwf as [| w ws Hw _ IH]; intros c Hc.
  { split; [constructor |]. split; [done |]. split; [done |]. unfold modulus. simpl. lia. }
  cbn [mul_uint32_loop uval]. rewrite modulus_cons.
  assert (Hmw : 0 <= m * w <= m * (BASE - 1)) by nia.
  assert (Hb : c + m * w < 2 ^ 63) by (unfold BASE in *; lia).
  rewrite (wraps_small 64 (m * w)), (wraps_small 64 (c + m * w)) by (simpl; lia).
  destruct (Z.leb_spec BASE (c + m * w)) as [Hc1 | Hc1].
  - set (nc := (c + m * w) / BASE).
    assert (Hnc : 0 <= c + m * w - nc * BASE < BASE).
    { unfold nc. pose proof (Z.div_mod (c + m * w) BASE ltac:(done)).
      pose proof (Z.mod_pos_bound (c + m * w) BASE BASE_pos). lia. }
    assert (0 <= nc <= Z.max 0 (m - 1)) by (clear - Hnc Hc Hc1 Hmw Hm; unfold BASE in *; lia).
    destruct (IH nc ltac:(lia)) as (H1 & H2 & H3 & H4).
    destruct (mul_uint32_loop m nc ws) as [r k]. cbn [fst snd] in *.
    cbn [uval]. rewrite u32_small by lia. split; [constructor; [lia | done] |].
    split; [simpl; lia |]. split; [done |]. nia.
  - destruct (IH 0 ltac:(lia)) as (H1 & H2 & H3 & H4).
    destruct (mul_uint32_loop m 0 ws) as [r k]. cbn [fst snd] in *.
    cbn [uval]. rewrite u32_small by lia. split; [constructor; [lia | done] |].
    split; [simpl; lia |]. split; [done |]. nia.
Qed.

(** Without a carry word the product is taken modulo the size of the number. *)
Lemma mul_uint32_nocarry m ws :
  words_wf ws -> nwords_ok ws -> 0 <= m <= 2 ^ 31 ->
  exists r, mul_uint32 ws m false = Some (OB_SUCCESS, r) /\ words_wf r /\
    length r = length ws /\ uval r = (m * uval ws) mod modulus ws.
Proof.
  intros Hwf Hn Hm. unfold mul_uint32. rewrite assert_nwords_ok by done. simpl.
  destruct (mul_uint32_loop_spec m ws 0 Hwf Hm ltac:(lia)) as (H1 & H2 & H3 & H4).
  destruct (mul_uint32_loop m 0 ws) as [r k]. cbn [fst snd] in *.
  exists r. split; [done |]. split; [done |]. split; [done |].
  pose proof (uval_bounds r H1) as Hb. rewrite (modulus_length r ws H2) in Hb.
  apply Z.mod_unique with k; lia.
Qed.

(** With one, it is exact, or out of range when no word is left. *)
Lemma mul_uint32_carry m ws :
  words_wf ws -> nwords_ok ws -> 0 <= m <= 2 ^ 31 ->
  m * uval ws < BASE ^ (MAX_NWORDS - 1) -> Z.of_nat (length ws) <= MAX_NWORDS - 1 ->
  exists r, mul_uint32 ws m true = Some (OB_SUCCESS, r) /\ words_wf r /\
    (length ws <= length r)%nat /\ Z.of_nat (length r) <= MAX_NWORDS - 1 /\
    uval r = m * uval ws.
Proof.
  intros Hwf Hn Hm Hfit Hlen. unfold mul_uint32. rewrite assert_nwords_ok by done. simpl.
  destruct (mul_uint32_loop_spec m ws 0 Hwf Hm ltac:(lia)) as (H1 & H2 & H3 & H4).
  destruct (mul_uint32_loop m 0 ws) as [r k]. cbn [fst snd] in *.
  pose proof (uval_bounds r H1) as Hb. rewrite (modulus_length r ws H2) in Hb.
  destruct (Z.ltb_spec 0 k) as [Hk | Hk].
  2: { exists r. split; [done |]. split; [done |]. split; [lia |]. split; [lia |]. nia. }
  rewrite H2. destruct (Z.ltb_spec (Z.of_nat (length ws)) (MAX_NWORDS - 1)) as [Hl | Hl].
  - exists (r ++ [u32 k]). rewrite u32_small by (unfold BASE; lia). split; [done |].
    split; [apply Forall_app; split; [done | constructor; [unfold BASE; lia | constructor]] |].
    rewrite length_app, H2. simpl. split; [lia |]. split; [unfold MAX_NWORDS in *; lia |].
    rewrite uval_app, (modulus_length r ws H2). simpl. lia.
  - exfalso. unfold MAX_NWORDS in *. assert (E : Z.of_nat (length ws) = 8) by lia.
    unfold modulus in *. rewrite E in *. change (9 - 1) with 8 in Hfit. nia.
Qed.

Lemma power10 i : 0 <= i <= 9 -> zget 0 POWER10 i = 10 ^ i.
Proof.
  intros Hi. assert (i = 0 \/ i = 1 \/ i = 2 \/ i = 3 \/ i = 4 \/ i = 5 \/ i = 6 \/ i = 7 \/ i = 8 \/ i = 9)
    as E by lia.
  by repeat destruct E as [-> | E]; [.. | subst].
Qed.

Lemma power10_bound i : 0 <= i <= 9 -> 0 < 10 ^ i < 2 ^ 31.
Proof.
  intros. split; [apply Z.pow_pos_nonneg; lia |].
  apply Z.le_lt_trans with (10 ^ 9); [apply Z.pow_le_mono_r; lia | lia].
Qed.

Lemma left_shift_loop_spec fuel i ws :
  words_wf ws -> nwords_ok ws -> 0 <= i <= 127 -> i <= 9 * Z.of_nat fuel -> (0 < fuel)%nat ->
  exists r, left_shift_loop fuel i false ws = Some (OB_SUCCESS, r) /\ words_wf r /\
    length r = length ws /\ uval r = (10 ^ i * uval ws) mod modulus ws.
Proof.
  revert i ws. induction fuel as [| fuel IH]; intros i ws Hwf Hn Hi Hf H0; [lia |].
  cbn [left_shift_loop]. destruct (Z.ltb_spec 9 i) as [Hi9 | Hi9].
  2: { rewrite power10 by lia. apply mul_uint32_nocarry; [done | done |].
       pose proof (power10_bound i). lia. }
  rewrite power10 by lia.
  destruct (mul_uint32_nocarry (10 ^ 9) ws Hwf Hn ltac:(lia)) as (r & -> & H1 & H2 & H3).
  cbn. rewrite wraps_small by (simpl; lia).
  assert (Hn' : nwords_ok r) by (unfold nwords_ok in *; lia).
  destruct (IH (i - 9) r H1 Hn' ltac:(lia) ltac:(lia) ltac:(lia)) as (r' & -> & H4 & H5 & H6).
  exists r'. split; [done |]. split; [done |]. split; [lia |].
  rewrite H6, (modulus_length r ws H2), H3, Zmult_mod_idemp_r. f_equal.
  rewrite Z.mul_assoc, <- Z.pow_add_r by lia. do 2 f_equal. lia.
Qed.

Lemma add_words_loop_spec ws1 ws2 c :
  words_wf ws1 -> words_wf ws2 -> length ws1 = length ws2 -> 0 <= c <= 1 ->
  words_wf (add_words_loop c ws1 ws2) /\ length (add_words_loop c ws1 ws2) = length ws1 /\
  exists k, uval (add_words_loop c ws1 ws2) + modulus ws1 * k = uval ws1 + uval ws2 + c.
Proof.
  intros Hwf. revert ws2 c.
  induction Hwf as [| w ws1 Hw _ IH]; intros ws2 c Hwf2 Hl Hc.
  { destruct ws2; [| done]. split; [constructor |]. split; [done |].
    exists c. unfold modulus. simpl. lia. }
  destruct Hwf2 as [| w2 ws2 Hw2 Hwf2]; [done |].
  cbn [add_words_loop uval]. rewrite modulus_cons.
  destruct (Z.leb_spec BASE (c + (w + w2))).
  - destruct (IH ws2 1 Hwf2 ltac:(by simplify_eq/=) ltac:(lia)) as (H1 & H2 & k & Hk).
    split; [constructor; [apply u32_range | done] |]. split; [simpl; lia |].
    exists k. cbn [uval]. rewrite u32_small by lia. nia.
  - destruct (IH ws2 0 Hwf2 ltac:(by simplify_eq/=) ltac:(lia)) as (H1 & H2 & k & Hk).
    split; [constructor; [apply u32_range | done] |]. split; [simpl; lia |].
    exists k. cbn [uval]. rewrite u32_small by lia. nia.
Qed.

(** The signed sum, modulo the size. *)
Lemma add_words_loop_sval ws1 ws2 :
  words_wf ws1 -> words_wf ws2 -> length ws1 = length ws2 -> ws1 <> [] ->
  words_wf (add_words_loop 0 ws1 ws2) /\ length (add_words_loop 0 ws1 ws2) = length ws1 /\
  sval (add_words_loop 0 ws1 ws2) = wraps (32 * Z.of_nat (length ws1)) (sval ws1 + sval ws2).
Proof.
  intros Hw1 Hw2 Hl Hne.
  destruct (add_words_loop_spec ws1 ws2 0 Hw1 Hw2 Hl ltac:(lia)) as (H1 & H2 & k & Hk).
  split; [done |]. split; [done |].
  assert (ws2 <> []) by (destruct ws1, ws2; done).
  assert (add_words_loop 0 ws1 ws2 <> [])
    by (destruct (add_words_loop 0 ws1 ws2), ws1; done).
  assert (1 <= 32 * Z.of_nat (length ws1)) by (destruct ws1; [done | simpl length; lia]).
  rewrite sval_wraps, H2 by done. apply wraps_congr.
  rewrite (sval_wraps ws1), (sval_wraps ws2), <- Hl by done.
  rewrite Zplus_mod, !mod_wraps, <- Zplus_mod by done.
  rewrite Z.add_0_r in Hk. rewrite <- Hk, <- modulus_pow2.
  rewrite (Z.mul_comm _ k). by rewrite Z_mod_plus_full.
Qed.

(** ** Sign extension and canonical form *)

Lemma sval_snoc_fill ws w :
  w = (if words_is_negative ws then UINT32_MAX else 0) ->
  sval (ws ++ [w]) = sval ws /\ words_is_negative (ws ++ [w]) = words_is_negative ws.
Proof.
  intros ->. unfold sval at 1. rewrite words_is_negative_snoc, uval_app, modulus_app.
  change (modulus [_]) with BASE. cbn [uval].
  destruct (words_is_negative ws) eqn:E; unfold sval; rewrite E.
  - change (sign_bit UINT32_MAX) with true. split; [unfold UINT32_MAX, BASE; lia | done].
  - change (sign_bit 0) with false. split; [lia | done].
Qed.

Lemma sval_fill ws k :
  let fill := if words_is_negative ws then UINT32_MAX else 0 in
  sval (ws ++ replicate k fill) = sval ws /\
  words_is_negative (ws ++ replicate k fill) = words_is_negative ws.
Proof.
  intros fill. induction k as [| k [IH1 IH2]]; [by rewrite app_nil_r |].
  rewrite replicate_S_end, app_assoc.
  destruct (sval_snoc_fill (ws ++ replicate k fill) fill) as [H1 H2]; [by rewrite IH2 |].
  by rewrite H1, H2.
Qed.

Lemma extend_words_spec ws n :
  words_wf ws -> Z.of_nat (length ws) < n <= MAX_NWORDS ->
  exists r, extend_words ws n = Some r /\ words_wf r /\ Z.of_nat (length r) = n /\
    sval r = sval ws.
Proof.
  intros Hwf Hn. unfold extend_words, ob_assert.
  destruct (Z.ltb_spec (Z.of_nat (length ws)) n), (Z.leb_spec n MAX_NWORDS); try lia.
  eexists. split; [done |]. split.
  { apply Forall_app. split; [done |]. apply Forall_replicate. by destruct (words_is_negative ws). }
  split; [rewrite length_app, length_replicate; lia |]. apply sval_fill.
Qed.

Definition canonical (ws : list Z) : Prop := remove_leading_zeroes ws = ws.

Lemma remove_leading_zeroes_snoc ws w w' :
  remove_leading_zeroes ((ws ++ [w']) ++ [w]) =
  if bool_decide (w = if words_is_negative (ws ++ [w']) then UINT32_MAX else 0)
  then remove_leading_zeroes (ws ++ [w']) else (ws ++ [w']) ++ [w].
Proof.
  unfold remove_leading_zeroes. rewrite words_is_negative_snoc.
  rewrite (rev_app_distr (ws ++ [w']) [w]), (rev_app_distr ws [w']). cbn [rev app].
  cbn [remove_leading_zeroes_rev].
  assert (Hrest : rev (w :: w' :: rev ws) = (ws ++ [w']) ++ [w])
    by (simpl; by rewrite rev_involutive).
  unfold UINT32_MAX. destruct (sign_bit w'); cbn [negb];
    destruct (Z.eqb_spec (2 ^ 32 - 1) w), (Z.eqb_spec 0 w); subst;
    case_bool_decide; try done; try lia.
Qed.

Lemma remove_leading_zeroes_single w : remove_leading_zeroes [w] = [w].
Proof. done. Qed.

Lemma words_snoc_ind (P : list Z -> Prop) :
  (forall w, P [w]) -> (forall ws w w', P (ws ++ [w']) -> P ((ws ++ [w']) ++ [w])) ->
  forall ws, ws <> [] -> P ws.
Proof.
  intros H1 H2 ws. induction ws as [| w ws IH] using rev_ind; [done |]. intros _.
  destruct ws as [| w' ws _] using rev_ind; [apply H1 | apply H2, IH].
  by destruct ws.
Qed.

Lemma remove_leading_zeroes_spec ws :
  words_wf ws -> ws <> [] ->
  words_wf (remove_leading_zeroes ws) /\ remove_leading_zeroes ws <> [] /\
  (length (remove_leading_zeroes ws) <= length ws)%nat /\
  sval (remove_leading_zeroes ws) = sval ws /\ canonical (remove_leading_zeroes ws).
Proof.
  intros Hwf Hne. revert Hwf. pattern ws. revert ws Hne. apply words_snoc_ind.
  { intros w Hwf. by rewrite remove_leading_zeroes_single. }
  intros ws w w' IH Hwf. unfold canonical. rewrite remove_leading_zeroes_snoc.
  case_bool_decide as Hb.
  - apply Forall_app in Hwf as [Hwf _]. destruct (IH Hwf) as (H1 & H2 & H3 & H4 & H5).
    split_and!; [done | done | rewrite length_app; lia | | done].
    rewrite H4. symmetry. by apply sval_snoc_fill.
  - split_and!; [done | by destruct ws | done | done |].
    by rewrite remove_leading_zeroes_snoc, bool_decide_false.
Qed.

(** The range a canonical number of more than one word cannot be in. *)
Lemma canonical_range ws w :
  words_wf (ws ++ [w]) -> ws <> [] -> canonical (ws ++ [w]) ->
  sval (ws ++ [w]) < - (modulus ws / 2) \/ modulus ws / 2 <= sval (ws ++ [w]).
Proof.
  intros Hwf Hne Hc. destruct (exists_last Hne) as (ws' & w' & ->).
  unfold canonical in Hc. rewrite remove_leading_zeroes_snoc in Hc.
  case_bool_decide as Hb.
  { exfalso. destruct (remove_leading_zeroes_spec (ws' ++ [w'])) as (_ & _ & Hl & _); [| done |].
    - by apply Forall_app in Hwf as [? _].
    - rewrite Hc in Hl. rewrite !length_app in Hl. simpl in Hl. lia. }
  set (ws := ws' ++ [w']) in *. apply Forall_app in Hwf as [Hwf Hw].
  rewrite Forall_singleton in Hw. pose proof (uval_bounds ws Hwf) as Hu.
  rewrite words_is_negative_spec in Hb by done.
  unfold sval. rewrite words_is_negative_snoc, sign_bit_spec, uval_app, modulus_app by done.
  change (modulus [w]) with BASE. cbn [uval].
  pose proof (modulus_even ws Hne) as Hm.
  unfold UINT32_MAX, BASE in *.
  destruct (Z.leb_spec (modulus ws / 2) (uval ws)), (Z.leb_spec (2 ^ 32 / 2) w);
    change (2 ^ 32 / 2) with (2 ^ 31) in *; nia.
Qed.

Lemma sval_bounds ws :
  words_wf ws -> ws <> [] -> - (modulus ws / 2) <= sval ws < modulus ws / 2.
Proof.
  intros Hwf Hne. pose proof (uval_bounds ws Hwf). pose proof (modulus_even ws Hne).
  unfold sval. rewrite words_is_negative_spec by done.
  destruct (Z.leb_spec (modulus ws / 2) (uval ws)); lia.
Qed.

(** Words whose unsigned value is [z] modulo their size have the signed value
    [z] brought into range. *)
Lemma sval_of_mod r z :
  words_wf r -> r <> [] -> uval r = z mod modulus r ->
  sval r = wraps (32 * Z.of_nat (length r)) z.
Proof. intros Hwf Hne Hu. by rewrite sval_wraps, Hu, modulus_pow2, wraps_mod. Qed.

Lemma uval_mod_sval ws : words_wf ws -> ws <> [] -> (sval ws) mod modulus ws = uval ws.
Proof.
  intros Hwf Hne. unfold sval. pose proof (uval_bounds ws Hwf). pose proof (modulus_pos ws).
  destruct (words_is_negative ws); [| by apply Z.mod_small].
  symmetry. apply Z.mod_unique with (-1); lia.
Qed.

Lemma uval_inj ws1 ws2 :
  words_wf ws1 -> words_wf ws2 -> length ws1 = length ws2 -> uval ws1 = uval ws2 -> ws1 = ws2.
Proof.
  intros Hwf. revert ws2. induction Hwf as [| w ws1 Hw _ IH]; intros ws2 Hwf2 Hl Hu.
  { by destruct ws2. }
  destruct Hwf2 as [| w2 ws2 Hw2 Hwf2]; [done |]. cbn [uval] in Hu. simplify_eq/=.
  unfold BASE in *. assert (w = w2) as -> by lia. f_equal. apply IH; [done | done | lia].
Qed.

(** Canonical words are determined by the value. *)
Lemma canonical_length ws1 ws2 :
  words_wf ws1 -> words_wf ws2 -> ws1 <> [] -> ws2 <> [] -> canonical ws1 ->
  sval ws1 = sval ws2 -> (length ws1 <= length ws2)%nat.
Proof.
  intros H1 H2 N1 N2 Hc Hs. destruct (decide (length ws1 <= length ws2)%nat) as [|Hl]; [done |].
  exfalso. destruct (exists_last N1) as (ws & w & ->). rewrite length_app in Hl. simpl in Hl.
  assert (Hne : ws <> []) by (intros ->; destruct ws2; simpl in *; [done | lia]).
  pose proof (canonical_range ws w H1 Hne Hc) as Hr. rewrite Hs in Hr.
  pose proof (sval_bounds ws2 H2 N2) as Hb.
  assert (modulus ws2 / 2 <= modulus ws / 2); [| lia].
  apply Z.div_le_mono; [lia |]. unfold modulus. apply Z.pow_le_mono_r; [done | lia].
Qed.

Lemma canonical_unique ws1 ws2 :
  words_wf ws1 -> words_wf ws2 -> ws1 <> [] -> ws2 <> [] -> canonical ws1 -> canonical ws2 ->
  sval ws1 = sval ws2 -> ws1 = ws2.
Proof.
  intros H1 H2 N1 N2 C1 C2 Hs.
  assert (Hl : length ws1 = length ws2).
  { apply Nat.le_antisymm; by apply canonical_length. }
  apply uval_inj; [done .. |].
  rewrite <- (uval_mod_sval ws1), <- (uval_mod_sval ws2) by done.
  by rewrite Hs, (modulus_length ws1 ws2).
Qed.

Lemma canonical_is_zero ws :
  words_wf ws -> ws <> [] -> canonical ws -> words_is_zero ws = (sval ws =? 0).
Proof.
  intros Hwf Hne Hc. destruct (Z.eqb_spec (sval ws) 0) as [H0 | H0].
  - rewrite (canonical_unique ws [0]); try done. by repeat constructor.
  - destruct ws as [| w [|]]; [done | | done]. simpl.
    destruct (Z.eqb_spec w 0) as [-> |]; [done | done].
Qed.

Lemma is_negative_sval ws :
  words_wf ws -> ws <> [] -> words_is_negative ws = (sval ws <? 0).
Proof.
  intros Hwf Hne. pose proof (uval_bounds ws Hwf). unfold sval.
  destruct (words_is_negative ws); symmetry; [apply Z.ltb_lt | apply Z.ltb_ge]; lia.
Qed.

(** ** Addition, subtraction and comparison *)

#[local] Arguments left_shift_loop : simpl never.

Lemma left_shift_spec n i :
  words_wf (words_ n) -> nwords_ok (words_ n) -> 0 < i < DOUBLE_PRECISION_NDIGITS ->
  0 <= vscale_ n -> vscale_ n + i <= INT8_MAX ->
  exists r, left_shift n i false = Some (OB_SUCCESS, mkNumber (vscale_ n + i) r) /\
    words_wf r /\ length r = length (words_ n) /\
    sval r = wraps (32 * Z.of_nat (length r)) (sval (words_ n) * 10 ^ i).
Proof.
  intros Hwf Hn Hi Hv1 Hv2. unfold left_shift, ob_assert.
  unfold DOUBLE_PRECISION_NDIGITS, SINGLE_PRECISION_NDIGITS, INT8_MAX in *.
  destruct (Z.ltb_spec 0 i), (Z.ltb_spec i (2 * 38)); try lia. simpl.
  destruct (left_shift_loop_spec 15 i (words_ n) Hwf Hn ltac:(lia) ltac:(lia) ltac:(lia))
    as (r & -> & H1 & H2 & H3).
  simpl. rewrite wraps_small by (simpl; lia). exists r. split; [done |]. split; [done |].
  split; [done |]. pose proof (nwords_ok_ne _ Hn) as Hne.
  apply sval_of_mod; [done | by destruct r, (words_ n) |].
  rewrite (modulus_length r (words_ n) H2), H3, Z.mul_comm.
  rewrite <- (Zmult_mod_idemp_l (sval _)). by rewrite uval_mod_sval.
Qed.

(** The scale both operands are brought to. *)
Definition common_scale (n1 n2 : ObNumber) : Z := Z.max (vscale_ n1) (vscale_ n2).

(** The value of [n] in units of [10 ^ -s]. *)
Definition scaled (n : ObNumber) (s : Z) : Z := sval (words_ n) * 10 ^ (s - vscale_ n).

(** The number of words [add] works with. *)
Definition sum_nwords (n1 n2 : ObNumber) : Z := Z.max (nwords_ n1) (nwords_ n2) + 1.

Lemma wraps_add_congr w a b a' b' :
  1 <= w -> a = wraps w a' -> b = wraps w b' -> wraps w (a + b) = wraps w (a' + b').
Proof.
  intros Hw -> ->. apply wraps_congr. by rewrite Zplus_mod, !mod_wraps, <- Zplus_mod.
Qed.

Lemma wraps_idem w z : 1 <= w -> wraps w (wraps w z) = wraps w z.
Proof. intros Hw. apply wraps_congr. by apply mod_wraps. Qed.

Lemma sval_wraps_self ws :
  words_wf ws -> ws <> [] -> sval ws = wraps (32 * Z.of_nat (length ws)) (sval ws).
Proof.
  intros Hwf Hne. rewrite sval_wraps by done. rewrite wraps_idem; [done |].
  destruct ws; [done | simpl length; lia].
Qed.

(** Both operands at the common scale and size, each with its value modulo the
    size: what [add] has when it calls [add_words]. *)
Lemma align_spec (n1 n2 : ObNumber) (ws1 ws2 : list Z) (k : Z) :
  words_wf ws1 -> words_wf ws2 -> Z.of_nat (length ws1) = k -> Z.of_nat (length ws2) = k ->
  1 <= k <= MAX_NWORDS ->
  0 <= vscale_ n1 <= SINGLE_PRECISION_NDIGITS -> 0 <= vscale_ n2 <= SINGLE_PRECISION_NDIGITS ->
  exists r1 r2,
    (if vscale_ n2 <? vscale_ n1 then
       '(ret, m2) ← left_shift (mkNumber (vscale_ n2) ws2) (int8 (vscale_ n1 - vscale_ n2)) false ;
       Some (ret, mkNumber (vscale_ n1) ws1, m2)
     else if vscale_ n1 <? vscale_ n2 then
       '(ret, m1) ← left_shift (mkNumber (vscale_ n1) ws1) (int8 (vscale_ n2 - vscale_ n1)) false ;
       Some (ret, m1, mkNumber (vscale_ n2) ws2)
     else Some (OB_SUCCESS, mkNumber (vscale_ n1) ws1, mkNumber (vscale_ n2) ws2))
    = Some (OB_SUCCESS, mkNumber (common_scale n1 n2) r1, mkNumber (common_scale n1 n2) r2) /\
    words_wf r1 /\ words_wf r2 /\ length r1 = length ws1 /\ length r2 = length ws1 /\
    sval r1 = wraps (32 * k) (sval ws1 * 10 ^ (common_scale n1 n2 - vscale_ n1)) /\
    sval r2 = wraps (32 * k) (sval ws2 * 10 ^ (common_scale n1 n2 - vscale_ n2)).
Proof.
  intros H1 H2 L1 L2 Hk V1 V2. unfold common_scale.
  assert (N1 : nwords_ok ws1) by (unfold nwords_ok; lia).
  assert (N2 : nwords_ok ws2) by (unfold nwords_ok; lia).
  assert (E : forall ws, words_wf ws -> nwords_ok ws -> Z.of_nat (length ws) = k ->
                sval ws = wraps (32 * k) (sval ws * 10 ^ 0)).
  { intros ws ? ? <-. rewrite Z.pow_0_r, Z.mul_1_r. by apply sval_wraps_self, nwords_ok_ne. }
  unfold SINGLE_PRECISION_NDIGITS in *.
  destruct (Z.ltb_spec (vscale_ n2) (vscale_ n1)) as [Hlt | Hge].
  { rewrite (wraps_small 8) by (simpl; lia).
    destruct (left_shift_spec (mkNumber (vscale_ n2) ws2) (vscale_ n1 - vscale_ n2))
      as (r & -> & R1 & R2 & R3); try done;
      try (unfold DOUBLE_PRECISION_NDIGITS, SINGLE_PRECISION_NDIGITS, INT8_MAX; cbn; lia).
    cbn in *. exists ws1, r. rewrite Z.max_l by lia. split; [do 3 f_equal; lia |].
    rewrite Z.sub_diag. split_and!; try done; [lia | by apply E |]. by rewrite R3, R2, L2. }
  destruct (Z.ltb_spec (vscale_ n1) (vscale_ n2)) as [Hlt | Hge'].
  - rewrite (wraps_small 8) by (simpl; lia).
    destruct (left_shift_spec (mkNumber (vscale_ n1) ws1) (vscale_ n2 - vscale_ n1))
      as (r & -> & R1 & R2 & R3); try done;
      try (unfold DOUBLE_PRECISION_NDIGITS, SINGLE_PRECISION_NDIGITS, INT8_MAX; cbn; lia).
    cbn in *. exists r, ws2. rewrite Z.max_r by lia. split; [do 4 f_equal; lia |].
    rewrite Z.sub_diag. split_and!; try done; [lia | by rewrite R3, R2, L1 | by apply E].
  - exists ws1, ws2. rewrite Z.max_l by lia.
    replace (vscale_ n2) with (vscale_ n1) by lia. rewrite Z.sub_diag.
    split_and!; try done; [lia | by apply E | by apply E].
Qed.

Lemma add_spec n1 n2 res :
  number_wf n1 -> number_wf n2 ->
  vscale_ n1 <= SINGLE_PRECISION_NDIGITS -> vscale_ n2 <= SINGLE_PRECISION_NDIGITS ->
  sum_nwords n1 n2 <= MAX_NWORDS ->
  exists ws, add n1 n2 res = Some (OB_SUCCESS, mkNumber (common_scale n1 n2) ws) /\
    words_wf ws /\ nwords_ok ws /\ canonical ws /\
    Z.of_nat (length ws) <= sum_nwords n1 n2 /\
    sval ws = wraps (32 * sum_nwords n1 n2)
                (scaled n1 (common_scale n1 n2) + scaled n2 (common_scale n1 n2)).
Proof.
  intros (W1 & L1 & V1) (W2 & L2 & V2) S1 S2 HN. unfold add, round_if_over.
  unfold sum_nwords, nwords_, MAX_NWORDS in *.
  destruct (Z.ltb_spec SINGLE_PRECISION_NDIGITS (vscale_ n1)); [lia |].
  destruct (Z.ltb_spec SINGLE_PRECISION_NDIGITS (vscale_ n2)); [lia |]. cbn [mbind option_bind].
  set (N := Z.max (Z.of_nat (length (words_ n1))) (Z.of_nat (length (words_ n2))) + 1) in *.
  rewrite (wraps_small 8) by (simpl; lia).
  destruct (Z.ltb_spec 9 N); [lia |].
  destruct (extend_words_spec (words_ n1) N W1) as (x1 & -> & X1 & XL1 & XS1);
    [unfold MAX_NWORDS; lia |].
  destruct (extend_words_spec (words_ n2) N W2) as (x2 & -> & X2 & XL2 & XS2);
    [unfold MAX_NWORDS; lia |].
  cbn [mbind option_bind vscale_].
  destruct (align_spec n1 n2 x1 x2 N X1 X2 XL1 XL2) as (r1 & r2 & -> & R1 & R2 & RL1 & RL2 & RS1 & RS2);
    [unfold MAX_NWORDS; lia | lia | lia |].
  cbn [mbind option_bind]. rewrite Z.eqb_refl.
  assert (Hok : nwords_ok r1) by (unfold nwords_ok, MAX_NWORDS; lia).
  unfold add_words. cbn [words_ vscale_]. rewrite assert_nwords_ok by done.
  unfold nwords_. cbn [words_]. rewrite RL1, RL2, !Z.eqb_refl.
  unfold ob_assert. cbn [mbind option_bind vscale_ words_].
  destruct (add_words_loop_sval r1 r2 R1 R2) as (A1 & A2 & A3); [lia | by apply nwords_ok_ne |].
  destruct (remove_leading_zeroes_spec (add_words_loop 0 r1 r2)) as (B1 & B2 & B3 & B4 & B5);
    [done | intros E; rewrite E in A2; apply nwords_ok_ne in Hok; by destruct r1 |].
  eexists. split; [done |]. split; [done |].
  pose proof (ne_length _ B2).
  split; [unfold nwords_ok, MAX_NWORDS in *; lia |]. split; [done |]. split; [lia |].
  rewrite B4, A3, RL1, XL1. unfold scaled. rewrite <- XS1, <- XS2.
  apply wraps_add_congr; [lia | done | done].
Qed.

(** Extending by one word makes negation exact. *)
Lemma negate_extended ws :
  words_wf ws -> 1 <= Z.of_nat (length ws) < MAX_NWORDS ->
  exists x r, extend_words ws (int8 (Z.of_nat (length ws) + 1)) = Some x /\
    negate_words x = Some r /\
    words_wf (remove_leading_zeroes r) /\ canonical (remove_leading_zeroes r) /\
    1 <= Z.of_nat (length (remove_leading_zeroes r)) <= Z.of_nat (length ws) + 1 /\
    sval (remove_leading_zeroes r) = - sval ws.
Proof.
  intros Hwf Hl. unfold MAX_NWORDS in Hl. rewrite wraps_small by (simpl; lia).
  destruct (extend_words_spec ws (Z.of_nat (length ws) + 1) Hwf) as (x & -> & X1 & X2 & X3);
    [unfold MAX_NWORDS; lia |].
  assert (Hx : nwords_ok x) by (unfold nwords_ok, MAX_NWORDS; lia).
  destruct (negate_words_spec x X1 Hx) as (r & E & _).
  destruct (negate_words_sval x r X1 Hx E) as (R1 & R2 & R3).
  assert (Hr : r <> []) by (apply nwords_ok_ne in Hx; by destruct r, x).
  destruct (remove_leading_zeroes_spec r R1 Hr) as (C1 & C2 & C3 & C4 & C5).
  exists x, r. split_and!; try done; [pose proof (ne_length _ C2); lia | lia |].
  rewrite C4, R3, X3. apply wraps_small; [| lia].
  assert (Hne : ws <> []) by (by intros ->; simpl in Hl; lia).
  pose proof (sval_bounds ws Hwf Hne) as Hb. pose proof (modulus_even ws Hne) as He.
  rewrite modulus_pow2 in *. rewrite X2.
  replace (32 * (Z.of_nat (length ws) + 1) - 1) with (32 * Z.of_nat (length ws) + 31) by lia.
  rewrite Z.pow_add_r by lia. nia.
Qed.

Lemma sval_within ws k :
  words_wf ws -> 1 <= Z.of_nat (length ws) -> Z.of_nat (length ws) + 1 <= k ->
  - 2 ^ (32 * k - 33) <= sval ws < 2 ^ (32 * k - 33).
Proof.
  intros Hwf Hl Hk. assert (Hne : ws <> []) by (by intros ->).
  pose proof (sval_bounds ws Hwf Hne) as Hb.
  rewrite modulus_pow2, pow2_double, (Z.mul_comm 2), Z.div_mul in Hb by lia.
  pose proof (Z.pow_le_mono_r 2 (32 * Z.of_nat (length ws) - 1) (32 * k - 33)). lia.
Qed.

Lemma sub_spec n1 n2 res :
  number_wf n1 -> number_wf n2 ->
  vscale_ n1 <= SINGLE_PRECISION_NDIGITS -> vscale_ n2 <= SINGLE_PRECISION_NDIGITS ->
  nwords_ n1 < MAX_NWORDS -> nwords_ n2 + 1 < MAX_NWORDS ->
  exists ws k, sub n1 n2 res = Some (OB_SUCCESS, mkNumber (common_scale n1 n2) ws) /\
    words_wf ws /\ nwords_ok ws /\ canonical ws /\ nwords_ n1 + 1 <= k /\
    - 2 ^ (32 * k - 33) <= sval (words_ n1) < 2 ^ (32 * k - 33) /\
    - 2 ^ (32 * k - 33) <= - sval (words_ n2) < 2 ^ (32 * k - 33) /\
    sval ws = wraps (32 * k)
                (scaled n1 (common_scale n1 n2) - scaled n2 (common_scale n1 n2)).
Proof.
  intros Hn1 Hn2 S1 S2 L1 L2. destruct (Hn2) as (W2 & N2 & V2). unfold nwords_ in *.
  unfold sub, nwords_. destruct (Z.leb_spec MAX_NWORDS (Z.of_nat (length (words_ n2)))); [lia |].
  destruct (negate_extended (words_ n2) W2) as (x & r & -> & E & R1 & R2 & R3 & R4); [lia |].
  cbn [mbind option_bind]. rewrite E. cbn [mbind option_bind].
  set (m := mkNumber (vscale_ n2) (remove_leading_zeroes r)).
  assert (Hm : number_wf m) by (split_and!; cbn; [done | unfold nwords_; cbn; lia ..]).
  destruct (add_spec n1 m res Hn1 Hm S1 S2) as (ws & -> & A1 & A2 & A3 & _ & A4).
  { unfold sum_nwords, nwords_, MAX_NWORDS in *. cbn. lia. }
  assert (Hc : common_scale n1 m = common_scale n1 n2) by done.
  assert (Hs : scaled m (common_scale n1 n2) = - scaled n2 (common_scale n1 n2))
    by (unfold scaled; cbn; rewrite R4; lia).
  exists ws, (sum_nwords n1 m). rewrite Hc, Hs in A4. destruct Hn1 as (W1 & N1 & V1).
  unfold nwords_ in N1. split; [done |]. split; [done |]. split; [done |]. split; [done |].
  split; [unfold sum_nwords, nwords_; lia |]. rewrite <- R4.
  split; [| split; [| done]]; apply sval_within; try done; try lia;
    unfold sum_nwords, nwords_; cbn; lia.
Qed.

(** The sum of two numbers of at most [k - 1] words fits in [k] words. *)
Lemma sum_fits k a b :
  2 <= k -> - 2 ^ (32 * k - 33) <= a < 2 ^ (32 * k - 33) ->
  - 2 ^ (32 * k - 33) <= b < 2 ^ (32 * k - 33) ->
  - 2 ^ (32 * k - 1) <= a + b < 2 ^ (32 * k - 1).
Proof.
  intros Hk Ha Hb. rewrite (pow2_double (32 * k - 1)) by lia.
  pose proof (Z.pow_le_mono_r 2 (32 * k - 33) (32 * k - 1 - 1)). lia.
Qed.

Lemma scaled_same n s : vscale_ n = s -> scaled n s = sval (words_ n).
Proof. intros <-. unfold scaled. rewrite Z.sub_diag. lia. Qed.

Lemma compare_spec n1 n2 :
  number_wf n1 -> number_wf n2 ->
  vscale_ n1 <= SINGLE_PRECISION_NDIGITS -> vscale_ n2 <= SINGLE_PRECISION_NDIGITS ->
  nwords_ n1 < MAX_NWORDS -> nwords_ n2 + 1 < MAX_NWORDS ->
  vscale_ n1 = vscale_ n2 \/
  - 2 ^ (32 * (nwords_ n1 + 1) - 1)
    <= scaled n1 (common_scale n1 n2) - scaled n2 (common_scale n1 n2)
    < 2 ^ (32 * (nwords_ n1 + 1) - 1) ->
  compare n1 n2 = Some (Z.sgn (scaled n1 (common_scale n1 n2) - scaled n2 (common_scale n1 n2))).
Proof.
  intros Hn1 Hn2 S1 S2 L1 L2 Hfit. unfold compare.
  destruct (sub_spec n1 n2 ObNumber_new Hn1 Hn2 S1 S2 L1 L2)
    as (ws & k & -> & W & N & C & Hk & B1 & B2 & E).
  set (d := scaled n1 _ - scaled n2 _) in *.
  assert (Hd : sval ws = d).
  { rewrite E. destruct Hn1 as (_ & ? & _). apply wraps_small; [| lia].
    destruct Hfit as [Hv | Hfit].
    - unfold d, common_scale. rewrite !scaled_same by lia. apply sum_fits; [lia | done | done].
    - pose proof (Z.pow_le_mono_r 2 (32 * (nwords_ n1 + 1) - 1) (32 * k - 1)). lia. }
  cbn [mbind option_bind]. unfold is_negative, is_zero. cbn [words_].
  rewrite is_negative_sval, canonical_is_zero, Hd by (done || by apply nwords_ok_ne).
  f_equal. simpl. destruct (Z.ltb_spec d 0); [by rewrite Z.sgn_neg |].
  destruct (Z.eqb_spec d 0) as [-> |]; [done |]. simpl. rewrite Z.sgn_pos; lia.
Qed.

(** ** Division by a small number *)

Lemma div_uint32_loop_spec d rws c0 :
  words_wf rws -> 0 < d <= 2 ^ 31 -> 0 <= c0 < d ->
  let '(q, c) := div_uint32_loop d c0 rws in
  words_wf q /\ length q = length rws /\ 0 <= c < d /\
  uval (rev q) * d + c = c0 * modulus rws + uval (rev rws).
Proof.
  intros Hwf Hd. revert c0. induction Hwf as [| w rws Hw _ IH]; intros c0 Hc0.
  { simpl. split_and!; [constructor | done | lia | lia | unfold modulus; simpl; lia]. }
  cbn [div_uint32_loop rev]. assert (Hcb : c0 * BASE + w < 2 ^ 63) by (unfold BASE in *; nia).
  assert (0 <= c0 * BASE) by (unfold BASE; lia).
  rewrite (wraps_small 64 (c0 * BASE)), (wraps_small 64) by (simpl; lia).
  set (k := c0 * BASE + w) in *.
  rewrite Z.quot_div_nonneg, Z.rem_mod_nonneg by lia.
  pose proof (Z.div_mod k d ltac:(lia)) as Hdm. pose proof (Z.mod_pos_bound k d ltac:(lia)) as Hm.
  specialize (IH (k mod d) Hm). destruct (div_uint32_loop d (k mod d) rws) as [q c].
  destruct IH as (H1 & H2 & H3 & H4).
  assert (Hq : 0 <= k / d < BASE)
    by (split; [apply Z.div_pos; lia | apply Z.div_lt_upper_bound; unfold k, BASE in *; nia]).
  cbn [rev]. rewrite !uval_app, u32_small, modulus_cons by done. cbn [uval].
  split; [by constructor |]. split; [simpl; lia |]. split; [done |].
  rewrite (modulus_length (rev q) rws), (modulus_length (rev rws) rws)
    by (rewrite length_rev; done).
  unfold k in *. nia.
Qed.

Lemma uval_nonneg_sval ws : words_wf ws -> ws <> [] -> 0 <= sval ws -> sval ws = uval ws.
Proof.
  intros Hwf Hne. rewrite <- Z.ltb_ge, <- is_negative_sval by done. unfold sval. by intros ->.
Qed.

Lemma small_is_positive ws :
  words_wf ws -> ws <> [] -> 2 * uval ws < modulus ws -> sval ws = uval ws.
Proof.
  intros Hwf Hne Hu. unfold sval. rewrite words_is_negative_spec by done.
  pose proof (modulus_even ws Hne). destruct (Z.leb_spec (modulus ws / 2) (uval ws)); lia.
Qed.

Lemma div_uint32_spec ws d :
  words_wf ws -> nwords_ok ws -> 2 <= d <= 2 ^ 31 ->
  exists q, div_uint32 ws d = Some (q, [uval ws mod d]) /\ words_wf q /\ nwords_ok q /\
    canonical q /\ uval q = uval ws / d /\ sval q = uval q.
Proof.
  intros Hwf Hn Hd. unfold div_uint32. rewrite assert_nwords_ok by done.
  unfold ob_assert. destruct (Z.ltb_spec 0 d); [| lia]. cbn [mbind option_bind].
  pose proof (div_uint32_loop_spec d (rev ws) 0 (Forall_rev Hwf) ltac:(lia) ltac:(lia)) as H1.
  destruct (div_uint32_loop d 0 (rev ws)) as [q c]. destruct H1 as (Q1 & Q2 & Q3 & Q4).
  rewrite rev_involutive, length_rev in *. rewrite Z.mul_0_l, Z.add_0_l in Q4.
  assert (Hq : uval (rev q) = uval ws / d) by (apply Z.div_unique with c; lia).
  assert (Hc : c = uval ws mod d) by (apply Z.mod_unique with (uval (rev q)); lia).
  pose proof (Forall_rev Q1) as Q1'. assert (Hl : length (rev q) = length ws)
    by (rewrite length_rev; done).
  assert (Hne : rev q <> []) by (apply nwords_ok_ne in Hn; destruct (rev q), ws; done).
  assert (Hs : sval (rev q) = uval (rev q)).
  { apply small_is_positive; [done | done |]. rewrite (modulus_length _ _ Hl), Hq.
    pose proof (uval_bounds ws Hwf). pose proof (Z.mul_div_le (uval ws) d). nia. }
  destruct (remove_leading_zeroes_spec (rev q) Q1' Hne) as (R1 & R2 & R3 & R4 & R5).
  assert (Hu : sval (remove_leading_zeroes (rev q)) = uval (remove_leading_zeroes (rev q))).
  { apply uval_nonneg_sval; [done | done |]. rewrite R4, Hs. by apply uval_bounds. }
  exists (remove_leading_zeroes (rev q)). split.
  { destruct (Z.eqb_spec c 0) as [E | E]; [by rewrite <- Hc, E |].
    rewrite u32_small by (unfold BASE; lia). by rewrite <- Hc. }
  pose proof (ne_length _ R2). unfold nwords_ok in *.
  split_and!; [done | lia | lia | done | lia | done].
Qed.

Lemma right_shift_loop_spec fuel i ws :
  words_wf ws -> nwords_ok ws -> 1 <= i <= 127 -> i <= 9 * Z.of_nat fuel ->
  exists q, right_shift_loop fuel i ws = Some q /\ words_wf q /\ nwords_ok q /\ canonical q /\
    uval q = uval ws / 10 ^ i /\ sval q = uval q.
Proof.
  revert i ws. induction fuel as [| fuel IH]; intros i ws Hwf Hn Hi Hf; [lia |].
  cbn [right_shift_loop]. destruct (Z.ltb_spec 9 i) as [Hi9 | Hi9].
  2: { rewrite power10 by lia. pose proof (power10_bound i ltac:(lia)).
       assert (10 ^ 1 <= 10 ^ i) by (apply Z.pow_le_mono_r; lia).
       destruct (div_uint32_spec ws (10 ^ i) Hwf Hn ltac:(lia)) as (q & -> & H').
       exists q. split; [done |]. tauto. }
  rewrite power10 by lia.
  destruct (div_uint32_spec ws (10 ^ 9) Hwf Hn ltac:(lia)) as (q & -> & Q1 & Q2 & Q3 & Q4 & Q5).
  cbn [mbind option_bind]. rewrite wraps_small by (simpl; lia).
  destruct (IH (i - 9) q Q1 Q2 ltac:(lia) ltac:(lia)) as (r & -> & R1 & R2 & R3 & R4 & R5).
  exists r. split_and!; try done; try apply R2.
  rewrite R4, Q4, Z.div_div by (try apply Z.pow_pos_nonneg; lia).
  f_equal. rewrite <- Z.pow_add_r by lia. f_equal. lia.
Qed.

#[local] Arguments right_shift_loop : simpl never.

(** The magnitude of a number: its words, negated when it is negative. *)
Lemma magnitude_spec ws :
  words_wf ws -> nwords_ok ws ->
  exists r, (if words_is_negative ws then negate_words ws else Some ws) = Some r /\
    words_wf r /\ length r = length ws /\ uval r = Z.abs (sval ws).
Proof.
  intros Hwf Hn. pose proof (nwords_ok_ne ws Hn) as Hne. pose proof (uval_bounds ws Hwf).
  destruct (words_is_negative ws) eqn:E.
  - destruct (negate_words_spec ws Hwf Hn) as (r & -> & R1 & R2 & R3). exists r.
    split_and!; try done. rewrite R3. unfold sval. rewrite E.
    rewrite words_is_negative_spec in E by done. apply Z.leb_le in E.
    pose proof (modulus_even ws Hne). symmetry. apply Z.mod_unique with (-1); lia.
  - exists ws. split_and!; try done. unfold sval. rewrite E. lia.
Qed.

(** Negating a magnitude gives back the sign. *)
Lemma negate_positive ws :
  words_wf ws -> nwords_ok ws -> sval ws = uval ws ->
  exists r, negate_words ws = Some r /\ words_wf r /\ length r = length ws /\ sval r = - uval ws.
Proof.
  intros Hwf Hn Hs. destruct (negate_words_spec ws Hwf Hn) as (r & E & _).
  destruct (negate_words_sval ws r Hwf Hn E) as (R1 & R2 & R3). exists r.
  split_and!; try done. rewrite R3, Hs. pose proof (nwords_ok_ne ws Hn) as Hne.
  pose proof (sval_bounds ws Hwf Hne) as Hb. pose proof (uval_bounds ws Hwf).
  destruct Hn as [Hl _].
  rewrite modulus_pow2, pow2_double, (Z.mul_comm 2), Z.div_mul in Hb by lia.
  apply wraps_small; lia.
Qed.

(** ** Decimal digits *)

Definition is_digit (c : Z) : Prop := 48 <= c <= 57.

(** The number a run of digit characters denotes, after the value [acc]. *)
Definition digits_value (acc : Z) (ds : list Z) : Z :=
  fold_left (fun a c => a * 10 + (c - 48)) ds acc.

Lemma digits_value_app acc ds1 ds2 :
  digits_value acc (ds1 ++ ds2) = digits_value (digits_value acc ds1) ds2.
Proof. apply fold_left_app. Qed.

Lemma digits_value_acc acc ds :
  digits_value acc ds = acc * 10 ^ Z.of_nat (length ds) + digits_value 0 ds.
Proof.
  revert acc. induction ds as [| d ds IH]; intros acc; [simpl; lia |].
  cbn [digits_value fold_left] in *. unfold digits_value in IH.
  rewrite (IH (acc * 10 + (d - 48))), (IH (0 * 10 + (d - 48))).
  cbn [length]. rewrite Nat2Z.inj_succ, Z.pow_succ_r by lia. lia.
Qed.

Lemma digits_value_bounds ds :
  Forall is_digit ds -> 0 <= digits_value 0 ds < 10 ^ Z.of_nat (length ds).
Proof.
  intros H. induction ds as [| d ds IH] using rev_ind; [done |].
  apply Forall_app in H as [H Hd]. rewrite Forall_singleton in Hd. unfold is_digit in Hd.
  specialize (IH H). rewrite digits_value_app, length_app. simpl.
  rewrite Nat2Z.inj_add, Z.pow_add_r by lia. simpl. lia.
Qed.

Lemma take_digit_spec ws :
  words_wf ws -> nwords_ok ws ->
  exists q, take_digit ws = Some (q, uval ws mod 10) /\ words_wf q /\ nwords_ok q /\
    canonical q /\ uval q = uval ws / 10 /\ sval q = uval q.
Proof.
  intros Hwf Hn. unfold take_digit.
  destruct (div_uint32_spec ws 10 Hwf Hn ltac:(lia)) as (q & -> & H). exists q.
  split; [| done]. cbn [mbind option_bind words_is_zero].
  pose proof (Z.mod_pos_bound (uval ws) 10 ltac:(lia)).
  destruct (Z.eqb_spec (uval ws mod 10) 0) as [-> | Hne]; [done |].
  change (zget 0 [uval ws mod 10] 0) with (uval ws mod 10).
  destruct (Z.ltb_spec (uval ws mod 10) 10); [| lia].
  destruct (Z.ltb_spec 0 (uval ws mod 10)); [done | lia].
Qed.

(** The loop test of the digit loops: the words are the single word zero
    exactly when the value is zero. *)
Definition zero_test_ok (ws : list Z) : Prop := words_is_zero ws = (uval ws =? 0).

Lemma canonical_zero_test ws :
  words_wf ws -> nwords_ok ws -> canonical ws -> sval ws = uval ws -> zero_test_ok ws.
Proof.
  intros Hwf Hn Hc Hs. unfold zero_test_ok. rewrite <- Hs.
  apply canonical_is_zero; [done | by apply nwords_ok_ne | done].
Qed.

Lemma to_string_loop_spec i ws acc :
  words_wf ws -> nwords_ok ws -> zero_test_ok ws -> uval ws < 10 ^ (Z.of_nat i - 1) ->
  exists ds, to_string_loop i ws acc = Some (ds ++ acc) /\ Forall is_digit ds /\
    digits_value 0 ds = uval ws /\ (uval ws = 0 -> ds = []) /\
    (uval ws <> 0 -> 10 ^ (Z.of_nat (length ds) - 1) <= uval ws).
Proof.
  revert ws acc. induction i as [| i IH]; intros ws acc Hwf Hn Hz Hb.
  { pose proof (uval_bounds ws Hwf). simpl in Hb. lia. }
  cbn [to_string_loop]. rewrite Hz. pose proof (uval_bounds ws Hwf) as Hu.
  destruct (Z.eqb_spec (uval ws) 0) as [E0 | E0].
  { exists []. split_and!; try done. }
  destruct (take_digit_spec ws Hwf Hn) as (q & -> & Q1 & Q2 & Q3 & Q4 & Q5).
  cbn [mbind option_bind]. unfold ob_assert.
  assert (Hi : 0 < Z.of_nat i).
  { destruct (Z.ltb_spec 0 (Z.of_nat i)); [done |].
    replace (Z.of_nat (S i) - 1) with 0 in Hb by lia. simpl in Hb. lia. }
  destruct (Z.ltb_spec 0 (Z.of_nat i)); [| lia]. cbn [mbind option_bind].
  pose proof (Z.mod_pos_bound (uval ws) 10 ltac:(lia)) as Hm.
  pose proof (Z.div_mod (uval ws) 10 ltac:(lia)) as Hdm.
  destruct (IH q ((48 + uval ws mod 10) :: acc)) as (ds & -> & D1 & D2 & D3 & D4);
    [done | done | by apply canonical_zero_test | |].
  { rewrite Q4. apply Z.div_lt_upper_bound; [lia |]. rewrite <- Z.pow_succ_r by lia.
    by replace (Z.succ (Z.of_nat i - 1)) with (Z.of_nat (S i) - 1) by lia. }
  exists (ds ++ [48 + uval ws mod 10]). rewrite <- app_assoc. split; [done |].
  split; [apply Forall_app; split; [done | constructor; [unfold is_digit; lia | constructor]] |].
  split; [rewrite digits_value_app, D2, Q4; simpl; lia |]. split; [done |]. intros _.
  rewrite length_app, Nat2Z.inj_add. simpl length.
  destruct (decide (uval q = 0)) as [Eq | Eq].
  - rewrite D3 by done. simpl. lia.
  - specialize (D4 Eq). replace (Z.of_nat (length ds) + Z.of_nat 1 - 1)
      with (Z.succ (Z.of_nat (length ds) - 1)) by lia.
    destruct ds as [| d ds]; [by simpl in D2 |].
    rewrite Z.pow_succ_r by (simpl length; lia). lia.
Qed.

#[local] Arguments to_string_loop : simpl never.

(** ** Parsing *)

(** A product or a sum that needs no further word. *)
Lemma mul_uint32_fits m ws :
  words_wf ws -> nwords_ok ws -> 0 <= m <= 2 ^ 31 -> m * uval ws < modulus ws ->
  exists r, mul_uint32 ws m true = Some (OB_SUCCESS, r) /\ words_wf r /\
    length r = length ws /\ uval r = m * uval ws.
Proof.
  intros Hwf Hn Hm Hfit. unfold mul_uint32. rewrite assert_nwords_ok by done.
  cbn [mbind option_bind].
  destruct (mul_uint32_loop_spec m ws 0 Hwf Hm ltac:(lia)) as (H1 & H2 & H3 & H4).
  destruct (mul_uint32_loop m 0 ws) as [r k]. cbn [fst snd] in *.
  pose proof (uval_bounds r H1). pose proof (modulus_pos ws).
  assert (k = 0) as -> by nia. exists r. split_and!; try done. lia.
Qed.

Lemma add_uint32_loop_spec ws c :
  words_wf ws -> 0 <= c < BASE ->
  let '(r, k) := add_uint32_loop c ws in
  words_wf r /\ length r = length ws /\ 0 <= k /\ uval r + modulus ws * k = uval ws + c.
Proof.
  intros Hwf. revert c. induction Hwf as [| w ws Hw Hwf IH]; intros c Hc.
  { simpl. split_and!; [constructor | done | lia | unfold modulus; simpl; lia]. }
  cbn [add_uint32_loop uval]. rewrite modulus_cons.
  destruct (Z.leb_spec BASE (c + w)).
  - specialize (IH 1 ltac:(unfold BASE; lia)). destruct (add_uint32_loop 1 ws) as [r k].
    destruct IH as (H1 & H2 & H3 & H4). cbn [uval]. rewrite u32_small by lia.
    split; [constructor; [lia | done] |]. split; [simpl; lia |]. split; [done |]. nia.
  - cbn [uval]. rewrite u32_small by lia.
    split; [constructor; [lia | done] |]. split; [done |]. split; [done |]. lia.
Qed.

Lemma add_uint32_fits ws c :
  words_wf ws -> nwords_ok ws -> 0 <= c < BASE -> uval ws + c < modulus ws ->
  exists r, add_uint32 ws c = Some (OB_SUCCESS, r) /\ words_wf r /\
    length r = length ws /\ uval r = uval ws + c.
Proof.
  intros Hwf Hn Hc Hfit. unfold add_uint32. rewrite assert_nwords_ok by done.
  cbn [mbind option_bind]. pose proof (add_uint32_loop_spec ws c Hwf Hc) as H.
  destruct (add_uint32_loop c ws) as [r k]. destruct H as (H1 & H2 & H3 & H4).
  pose proof (uval_bounds r H1). pose proof (modulus_pos ws).
  assert (k = 0) as -> by nia. exists r. split_and!; try done. lia.
Qed.

(** A run of digits extends the words by its value and counts in the scale. *)
Lemma from_string_digits ds rest ws neg vs :
  words_wf ws -> nwords_ok ws -> Forall is_digit ds -> digits_value (uval ws) ds < modulus ws ->
  (0 <= vs -> vs + Z.of_nat (length ds) <= INT8_MAX) ->
  exists r, words_wf r /\ length r = length ws /\ uval r = digits_value (uval ws) ds /\
    from_string_loop (ds ++ rest) ws neg vs =
    from_string_loop rest r neg (if 0 <=? vs then vs + Z.of_nat (length ds) else vs).
Proof.
  intros Hwf Hn Hds. revert ws vs Hwf Hn.
  induction Hds as [| d ds Hd Hds IH]; intros ws vs Hwf Hn Hfit Hvs.
  { exists ws. split_and!; try done. simpl. destruct (0 <=? vs); f_equal; lia. }
  cbn [app from_string_loop]. unfold is_digit in Hd.
  destruct (Z.leb_spec 48 d), (Z.leb_spec d 57); try lia. cbn [andb].
  pose proof (uval_bounds ws Hwf). change (digits_value (uval ws) (d :: ds))
    with (digits_value (uval ws * 10 + (d - 48)) ds) in *.
  assert (Hone : uval ws * 10 + (d - 48) < modulus ws).
  { rewrite digits_value_acc in Hfit. pose proof (digits_value_bounds ds Hds).
    assert (0 < 10 ^ Z.of_nat (length ds)) by (apply Z.pow_pos_nonneg; lia). nia. }
  destruct (mul_uint32_fits 10 ws Hwf Hn ltac:(lia)) as (r1 & -> & R1 & R2 & R3); [lia |].
  cbn [mbind option_bind]. rewrite Z.eqb_refl. cbn [negb].
  assert (Hn1 : nwords_ok r1) by (unfold nwords_ok in *; lia).
  destruct (add_uint32_fits r1 (d - 48) R1 Hn1) as (r2 & -> & S1 & S2 & S3);
    [unfold BASE; lia | rewrite (modulus_length r1 ws R2); lia |].
  cbn [mbind option_bind]. rewrite Z.eqb_refl. cbn [negb].
  destruct (IH r2 (if 0 <=? vs then int8 (vs + 1) else vs)) as (r & T1 & T2 & T3 & ->).
  - done.
  - unfold nwords_ok in *; lia.
  - rewrite S3, R3, (modulus_length r2 ws) by lia. by rewrite (Z.mul_comm 10).
  - unfold INT8_MAX in *. cbn [length] in Hvs. cases; [rewrite wraps_small by (simpl; lia) |]; lia.
  - exists r. split_and!; [done | lia | by rewrite T3, S3, R3, (Z.mul_comm 10) |].
    unfold INT8_MAX in *. cbn [length] in *. f_equal.
    destruct (Z.leb_spec 0 vs); [rewrite wraps_small by (simpl; lia) |]; cases; lia.
Qed.

(** ** Printing into a buffer with room *)

Lemma databuff_printf_room buf_len out s :
  Z.of_nat (length out) + Z.of_nat (length s) < buf_len -> databuff_printf buf_len out s = out ++ s.
Proof. intros. unfold databuff_printf. cases; [done | lia ..]. Qed.

Lemma put_if_room_room buf_len need out s :
  Z.of_nat (length out) + need < buf_len -> put_if_room buf_len need out s = out ++ s.
Proof. intros. unfold put_if_room. cases; [done | lia]. Qed.

Lemma iter_zeroes buf_len k out :
  Z.of_nat (length out) + Z.of_nat k < buf_len ->
  Nat.iter k (fun o => databuff_printf buf_len o [48]) out = out ++ replicate k 48.
Proof.
  induction k as [| k IH]; intros Hk; simpl; [by rewrite app_nil_r |].
  rewrite IH by lia. rewrite databuff_printf_room.
  - rewrite <- app_assoc. f_equal. symmetry. apply (replicate_S_end k).
  - rewrite length_app, length_replicate. simpl. lia.
Qed.

(** The text [to_string] prints for the digits [ds] of the magnitude. *)
Definition number_text (neg : bool) (vs : Z) (ds : list Z) : list Z :=
  let num := Z.of_nat (length ds) in
  if num =? 0 then [48]
  else (if neg then [45] else []) ++
       if num <=? vs then [48; 46] ++ replicate (Z.to_nat (vs - num)) 48 ++ ds
       else firstn (Z.to_nat (num - vs)) ds ++
            if 0 <? vs then 46 :: skipn (Z.to_nat (num - vs)) ds else [].

Lemma print_digits_text neg vs ds :
  0 <= vs <= 38 -> (length ds <= 39)%nat ->
  print_digits (Z.of_nat MAX_PRINTABLE_SIZE) neg vs ds = number_text neg vs ds.
Proof.
  intros Hv Hlen. unfold print_digits, number_text. change (Z.of_nat MAX_PRINTABLE_SIZE) with 128.
  remember (Z.of_nat (length ds)) as num eqn:Hnum. destruct (num =? 0); [by apply databuff_printf_room |].
  assert (Hsign : (if neg then databuff_printf 128 [] [45] else []) = (if neg then [45] else []))
    by (by destruct neg).
  rewrite Hsign. set (sgn := if neg then [45] else []).
  assert (Hsl : (length sgn <= 1)%nat) by (unfold sgn; destruct neg; simpl; lia).
  destruct (Z.leb_spec num vs).
  - rewrite databuff_printf_room by (simpl; lia).
    rewrite iter_zeroes by (rewrite length_app; simpl; lia).
    rewrite put_if_room_room by (rewrite !length_app, length_replicate; simpl; lia).
    by rewrite <- !app_assoc.
  - rewrite (put_if_room_room 128 (num - vs) sgn) by lia. destruct (Z.ltb_spec 0 vs); [| by rewrite app_nil_r].
    rewrite put_if_room_room by (rewrite length_app, length_take; lia).
    by rewrite <- app_assoc.
Qed.

Lemma number_text_length neg vs ds :
  0 <= vs <= 38 -> (length ds <= 39)%nat -> (length (number_text neg vs ds) <= 128)%nat.
Proof.
  intros Hv Hlen. unfold number_text.
  cases; repeat (cbn [length app]; rewrite ?length_app, ?length_replicate, ?length_take, ?length_drop);
    lia.
Qed.

Lemma magnitude_zero_test ws r :
  words_wf ws -> nwords_ok ws -> canonical ws -> length r = length ws ->
  (if words_is_negative ws then negate_words ws else Some ws) = Some r ->
  uval r = Z.abs (sval ws) -> zero_test_ok r.
Proof.
  intros W N Hc Hl E R. pose proof (nwords_ok_ne _ N) as Hne.
  unfold zero_test_ok. rewrite R. destruct (words_is_negative ws) eqn:En.
  - rewrite is_negative_sval in En by done. apply Z.ltb_lt in En.
    replace (Z.abs (sval ws) =? 0) with false by (symmetry; apply Z.eqb_neq; lia).
    destruct r as [| w [|]]; [done | | done]. cbn [words_is_zero].
    apply Z.eqb_neq. cbn [uval] in R. lia.
  - simplify_eq. rewrite canonical_is_zero by done.
    destruct (Z.eqb_spec (sval r) 0), (Z.eqb_spec (Z.abs (sval r)) 0); lia.
Qed.

Lemma to_string_spec n :
  number_wf n -> canonical (words_ n) -> vscale_ n <= SINGLE_PRECISION_NDIGITS ->
  Z.abs (sval (words_ n)) < 2 ^ 127 ->
  exists ds, to_string n (Z.of_nat MAX_PRINTABLE_SIZE)
             = Some (number_text (is_negative n) (vscale_ n) ds) /\
    Forall is_digit ds /\ digits_value 0 ds = Z.abs (sval (words_ n)) /\
    (sval (words_ n) = 0 <-> ds = []) /\ (length ds <= 39)%nat.
Proof.
  intros (W & N & V) Hc Hv Hb. unfold to_string. change (nwords_ok (words_ n)) in N.
  rewrite assert_nwords_ok by done. cbn [mbind option_bind].
  destruct (magnitude_spec (words_ n) W N) as (r & E & R1 & R2 & R3).
  unfold is_negative. rewrite E. cbn [mbind option_bind].
  pose proof (magnitude_zero_test _ _ W N Hc R2 E R3) as Hz.
  destruct (to_string_loop_spec MAX_PRINTABLE_SIZE r [] R1) as (ds & -> & D1 & D2 & D3 & D4);
    [unfold nwords_ok in *; lia | done | |].
  { rewrite R3. apply Z.lt_trans with (2 ^ 127); [done | by vm_compute]. }
  rewrite app_nil_r. cbn [mbind option_bind]. rewrite R3 in *.
  assert (Hlen : (length ds <= 39)%nat).
  { destruct (decide (Z.abs (sval (words_ n)) = 0)) as [E0 | E0]; [rewrite D3 by done; simpl; lia |].
    specialize (D4 E0). destruct (decide (length ds <= 39)%nat); [done |].
    assert (10 ^ 39 <= 10 ^ (Z.of_nat (length ds) - 1)) by (apply Z.pow_le_mono_r; lia).
    assert (2 ^ 127 < 10 ^ 39) by (by vm_compute). lia. }
  unfold SINGLE_PRECISION_NDIGITS in Hv. rewrite print_digits_text by lia.
  exists ds. conjs; [| done | done | split | done].
  - pose proof (number_text_length (words_is_negative (words_ n)) (vscale_ n) ds).
    unfold ob_assert. cases; [done | change (Z.of_nat MAX_PRINTABLE_SIZE) with 128 in *; lia].
  - intros E0. apply D3. lia.
  - intros ->. simpl in D2. lia.
Qed.

Lemma modulus_4 ws : length ws = 4%nat -> modulus ws = 2 ^ 128.
Proof. intros H. rewrite modulus_pow2, H. done. Qed.

Lemma from_string_minus rest ws neg vs :
  from_string_loop (45 :: rest) ws neg vs = from_string_loop rest ws true vs.
Proof. done. Qed.

Lemma from_string_point rest ws neg vs :
  from_string_loop (46 :: rest) ws neg vs = from_string_loop rest ws neg 0.
Proof. done. Qed.

(** A digit run on four words below [2 ^ 127]. *)
Lemma from_string_digits4 ds rest ws neg vs :
  words_wf ws -> length ws = 4%nat -> Forall is_digit ds ->
  digits_value (uval ws) ds < 2 ^ 127 -> -1 <= vs -> vs + Z.of_nat (length ds) <= INT8_MAX ->
  exists r, words_wf r /\ length r = 4%nat /\ uval r = digits_value (uval ws) ds /\
    from_string_loop (ds ++ rest) ws neg vs =
    from_string_loop rest r neg (if 0 <=? vs then vs + Z.of_nat (length ds) else vs).
Proof.
  intros W L D V H1 H2.
  destruct (from_string_digits ds rest ws neg vs W) as (r & R1 & R2 & R3 & R4);
    [unfold nwords_ok, MAX_NWORDS; lia | done | | lia |].
  - rewrite modulus_4 by done. lia.
  - exists r. split_and!; [done | lia | done | done].
Qed.

Lemma digits_value_zeroes k acc : digits_value acc (replicate k 48) = acc * 10 ^ Z.of_nat k.
Proof.
  revert acc. induction k as [| k IH]; intros acc; [simpl; lia |].
  cbn [replicate]. change (digits_value acc (48 :: replicate k 48))
    with (digits_value (acc * 10 + (48 - 48)) (replicate k 48)).
  rewrite IH, Nat2Z.inj_succ, Z.pow_succ_r by lia. lia.
Qed.

Lemma zero4_wf : words_wf [0; 0; 0; 0].
Proof. by apply (Forall_replicate _ 4 0). Qed.

Lemma parse_fraction ds vs neg :
  Forall is_digit ds -> digits_value 0 ds < 2 ^ 127 -> Z.of_nat (length ds) <= vs <= 38 ->
  exists r, words_wf r /\ length r = 4%nat /\ uval r = digits_value 0 ds /\
    from_string_loop ([48; 46] ++ replicate (Z.to_nat (vs - Z.of_nat (length ds))) 48 ++ ds)
      [0; 0; 0; 0] neg (-1) = Some (OB_SUCCESS, r, neg, vs).
Proof.
  intros D V Hvs. set (k := Z.to_nat (vs - Z.of_nat (length ds))).
  pose proof zero4_wf as Hz.
  destruct (from_string_digits4 [48] (46 :: replicate k 48 ++ ds) [0; 0; 0; 0] neg (-1) Hz)
    as (r & R1 & R2 & R3 & R4); [done | by repeat constructor | by vm_compute | lia | by vm_compute |].
  cbn in R3. change ([48; 46] ++ replicate k 48 ++ ds) with ([48] ++ 46 :: replicate k 48 ++ ds).
  rewrite R4, from_string_point.
  assert (Hv : digits_value (uval r) (replicate k 48 ++ ds) = digits_value 0 ds)
    by (by rewrite digits_value_app, digits_value_zeroes, R3).
  destruct (from_string_digits4 (replicate k 48 ++ ds) [] r neg 0) as (r' & S1 & S2 & S3 & S4);
    [done | done | | lia | lia | |].
  - apply Forall_app. split; [| done]. apply Forall_replicate. by unfold is_digit.
  - rewrite length_app, length_replicate. unfold INT8_MAX. lia.
  - exists r'. rewrite app_nil_r in S4. rewrite S4. cbn [from_string_loop].
    split_and!; [done | done | lia |]. do 2 f_equal.
    rewrite length_app, length_replicate. cbn. lia.
Qed.

Lemma parse_integer ds vs neg :
  Forall is_digit ds -> digits_value 0 ds < 2 ^ 127 -> (length ds <= 39)%nat ->
  0 <= vs < Z.of_nat (length ds) ->
  exists r, words_wf r /\ length r = 4%nat /\ uval r = digits_value 0 ds /\
    from_string_loop
      (firstn (Z.to_nat (Z.of_nat (length ds) - vs)) ds ++
       if 0 <? vs then 46 :: skipn (Z.to_nat (Z.of_nat (length ds) - vs)) ds else [])
      [0; 0; 0; 0] neg (-1) = Some (OB_SUCCESS, r, neg, if 0 <? vs then vs else -1).
Proof.
  intros D V L Hvs. set (k := Z.to_nat (Z.of_nat (length ds) - vs)).
  pose proof zero4_wf as Hz.
  assert (E : ds = firstn k ds ++ skipn k ds) by (by rewrite take_drop).
  assert (D' := D). rewrite E in D'. apply Forall_app in D' as [D1 D2].
  assert (Hv : digits_value 0 ds = digits_value (digits_value 0 (firstn k ds)) (skipn k ds))
    by (by rewrite <- digits_value_app, take_drop).
  assert (Hle : digits_value 0 (firstn k ds) <= digits_value 0 ds).
  { rewrite Hv, (digits_value_acc _ (skipn k ds)).
    pose proof (digits_value_bounds _ D1). pose proof (digits_value_bounds _ D2).
    assert (0 < 10 ^ Z.of_nat (length (skipn k ds))) by (apply Z.pow_pos_nonneg; lia). nia. }
  assert (L1 : (length (firstn k ds) <= 39)%nat) by (rewrite length_take; lia).
  destruct (from_string_digits4 (firstn k ds)
              (if 0 <? vs then 46 :: skipn k ds else []) [0; 0; 0; 0] neg (-1) Hz)
    as (r & R1 & R2 & R3 & ->); [done | done | change (uval _) with 0; lia | lia | unfold INT8_MAX; lia |].
  change (uval [0; 0; 0; 0]) with 0 in R3. destruct (Z.ltb_spec 0 vs) as [Hpos | Hpos].
  - rewrite from_string_point, <- (app_nil_r (skipn k ds)).
    assert (L2 : Z.of_nat (length (skipn k ds)) = vs) by (rewrite length_drop; lia).
    destruct (from_string_digits4 (skipn k ds) [] r neg 0) as (r' & S1 & S2 & S3 & ->);
      [done | done | done | rewrite R3; lia | lia | unfold INT8_MAX; lia |].
    exists r'. cbn [from_string_loop]. rewrite L2. split_and!; [done | done | | done].
    by rewrite S3, R3, <- Hv.
  - exists r. cbn [from_string_loop]. split_and!; [done | done | | done].
    rewrite R3, firstn_all2; [done | lia].
Qed.

Lemma parse_text neg vs ds :
  Forall is_digit ds -> digits_value 0 ds < 2 ^ 127 -> (length ds <= 39)%nat ->
  0 <= vs <= 38 -> ds <> [] ->
  exists r, words_wf r /\ length r = 4%nat /\ uval r = digits_value 0 ds /\
    from_string_loop (number_text neg vs ds) [0; 0; 0; 0] false (-1)
    = Some (OB_SUCCESS, r, neg, if 0 <? vs then vs else -1).
Proof.
  intros D V L Hvs Hne. unfold number_text. pose proof (ne_length ds Hne).
  destruct (Z.eqb_spec (Z.of_nat (length ds)) 0); [lia |].
  assert (Hs : forall body, from_string_loop ((if neg then [45] else []) ++ body) [0; 0; 0; 0] false (-1)
                            = from_string_loop body [0; 0; 0; 0] neg (-1)) by (by destruct neg).
  rewrite Hs. destruct (Z.leb_spec (Z.of_nat (length ds)) vs).
  - destruct (Z.ltb_spec 0 vs); [| lia]. apply parse_fraction; [done | done | lia].
  - apply parse_integer; [done | done | done | lia].
Qed.

Lemma from_text (neg : bool) vs ds ws :
  Forall is_digit ds -> digits_value 0 ds < 2 ^ 127 -> (length ds <= 39)%nat ->
  0 <= vs <= 38 -> ds <> [] ->
  words_wf ws -> ws <> [] -> canonical ws ->
  sval ws = (if neg then - digits_value 0 ds else digits_value 0 ds) ->
  from_string (number_text neg vs ds) = Some (OB_SUCCESS, mkNumber vs ws).
Proof.
  intros D V L Hvs Hne W N C Hs. unfold from_string.
  destruct (parse_text neg vs ds D V L Hvs Hne) as (r & R1 & R2 & R3 & ->).
  unfold SINGLE_PRECISION_NDIGITS.
  replace (38 <? (if 0 <? vs then vs else -1)) with false
    by (symmetry; cases; apply Z.ltb_ge; lia).
  rewrite Z.eqb_refl.
  replace (if 0 <? (if 0 <? vs then vs else -1) then (if 0 <? vs then vs else -1) else 0) with vs
    by (destruct (Z.ltb_spec 0 vs); [rewrite (proj2 (Z.ltb_lt 0 vs)) by done; done | simpl; lia]).
  assert (Hn : nwords_ok r) by (unfold nwords_ok, MAX_NWORDS; lia).
  pose proof (nwords_ok_ne r Hn) as Hrne.
  assert (Hrs : sval r = uval r).
  { apply small_is_positive; [done | done |]. rewrite modulus_4 by done. lia. }
  assert (Hx : exists x, (if neg then negate_words r else Some r) = Some x /\ words_wf x /\ x <> [] /\
                         sval x = sval ws).
  { destruct neg.
    - destruct (negate_positive r R1 Hn Hrs) as (x & E & X1 & X2 & X3).
      exists x. rewrite Hs, X3, R3. split_and!; try done. by destruct x, r.
    - exists r. rewrite Hs. split_and!; try done. lia. }
  destruct Hx as (x & -> & X1 & X2 & X3). cbn [mbind option_bind].
  destruct (remove_leading_zeroes_spec x X1 X2) as (Y1 & Y2 & _ & Y4 & Y5).
  do 3 f_equal. apply canonical_unique; try done. lia.
Qed.

(** ** int64 conversions *)

Lemma from_int64_loop_spec v :
  0 <= v < 2 ^ 63 ->
  exists ws, from_int64_loop 2 v = Some ws /\ words_wf ws /\ uval ws = v /\
    (v = 0 /\ ws = [] \/ 0 < v < BASE /\ length ws = 1%nat \/ BASE <= v /\ length ws = 2%nat).
Proof.
  intros Hv. cbn [from_int64_loop]. unfold BASE.
  destruct (Z.eqb_spec v 0) as [-> | Hv0].
  { exists []. split; [done |]. split; [apply Forall_nil_2 |]. split; [done |]. by left. }
  rewrite Z.quot_div_nonneg by lia.
  pose proof (Z.div_mod v (2 ^ 32) ltac:(lia)). pose proof (Z.mod_pos_bound v (2 ^ 32) ltac:(lia)).
  assert (0 <= v / 2 ^ 32 < 2 ^ 31)
    by (split; [apply Z.div_pos; lia | apply Z.div_lt_upper_bound; lia]).
  destruct (Z.eqb_spec (v / 2 ^ 32) 0) as [E | E].
  { cbn [mbind option_bind]. rewrite E, Z.mul_0_r, Z.sub_0_r. exists [u32 v].
    rewrite u32_small by (unfold BASE; lia). split_and!; try done.
    - constructor; [unfold BASE; lia | constructor].
    - simpl. lia.
    - right. left. simpl. lia. }
  rewrite Z.quot_div_nonneg, (Z.div_small (v / 2 ^ 32)) by lia. cbn [mbind option_bind Z.eqb].
  rewrite Z.mul_0_r, Z.sub_0_r. exists [u32 (v - 2 ^ 32 * (v / 2 ^ 32)); u32 (v / 2 ^ 32)].
  rewrite !u32_small by (unfold BASE; lia). split_and!; try done.
  - repeat (constructor; [unfold BASE; lia |]); constructor.
  - cbn [uval]. unfold BASE. lia.
  - right. right. simpl. lia.
Qed.

(** The words of [from(int64_t)] are those of the integer modulo their size: one
    word for magnitudes below [BASE], two above. *)
Lemma from_int64_spec i :
  - 2 ^ 63 <= i < 2 ^ 63 ->
  exists ws, from_int64 i = Some (mkNumber 0 ws) /\ words_wf ws /\
    length ws = (if Z.abs i <? BASE then 1%nat else 2%nat) /\ uval ws = i mod modulus ws.
Proof.
  intros Hi. destruct (decide (i = - 2 ^ 63)) as [-> | Hmin].
  { exists [0; 2 ^ 31]. split; [by vm_compute |]. split; [| split; by vm_compute].
    repeat (constructor; [unfold BASE; lia |]); constructor. }
  unfold from_int64.
  assert (Habs : (if i <? 0 then int64 (- i) else i) = Z.abs i).
  { destruct (Z.ltb_spec i 0); [| lia]. rewrite wraps_small by (simpl; lia). lia. }
  rewrite Habs. destruct (from_int64_loop_spec (Z.abs i) ltac:(lia)) as (ws & -> & W & U & Hc).
  cbn [mbind option_bind]. set (m := match ws with [] => [0] | _ => ws end).
  assert (Hm : words_wf m /\ uval m = Z.abs i /\ length m = (if Z.abs i <? BASE then 1%nat else 2%nat)).
  { unfold m, BASE in *. destruct Hc as [[E ->] | [[E L] | [E L]]]; cbn [length] in *.
    - rewrite E. split_and!; [by apply Forall_singleton | done | done].
    - rewrite (proj2 (Z.ltb_lt _ _)) by lia. by destruct ws as [| w [|]].
    - rewrite (proj2 (Z.ltb_ge _ _)) by lia. by destruct ws as [| w [| ? [|]]]. }
  destruct Hm as (M1 & M2 & M3).
  assert (Hn : nwords_ok m)
    by (unfold nwords_ok, MAX_NWORDS; rewrite M3; destruct (Z.abs i <? BASE); lia).
  destruct (Z.ltb_spec i 0).
  - unfold negate. cbn [words_ vscale_].
    destruct (negate_words_spec m M1 Hn) as (r & -> & R1 & R2 & R3). cbn [mbind option_bind].
    exists r. split_and!; [done | done | lia |].
    rewrite R3, M2, (modulus_length r m R2). f_equal. lia.
  - exists m. split_and!; [done | done | done |]. rewrite M2.
    rewrite Z.mod_small; [lia |]. pose proof (uval_bounds m M1). lia.
Qed.

Lemma to_int64_loop ws :
  words_wf ws -> (length ws <= 2)%nat ->
  int64 (foldr (fun w acc => int64 (int64 (acc * BASE) + w)) 0 ws) = int64 (uval ws).
Proof.
  intros W L.
  assert (H : forall a w, int64 (int64 (a * BASE) + w) = int64 (w + BASE * a)).
  { intros a w. apply wraps_congr. rewrite Zplus_mod, mod_wraps, <- Zplus_mod by lia.
    f_equal. lia. }
  destruct ws as [| w0 [| w1 [|]]]; cbn [foldr uval length] in *; [done | | | lia].
  - rewrite H, wraps_idem by lia. f_equal.
  - rewrite H, wraps_idem by lia. apply wraps_congr.
    rewrite (H 0 w1), Zplus_mod, (Zmult_mod BASE), mod_wraps by lia.
    rewrite <- Zmult_mod, <- Zplus_mod. f_equal.
Qed.

(** ** Truncation *)

Lemma remove_leading_zeroes_canonical ws : canonical ws -> remove_leading_zeroes ws = ws.
Proof. done. Qed.

Lemma count_digits_spec fuel ws k :
  words_wf ws -> nwords_ok ws -> zero_test_ok ws -> uval ws < 10 ^ Z.of_nat fuel ->
  0 <= k -> k + Z.of_nat fuel <= INT8_MAX ->
  exists d, count_digits fuel ws k = Some (k + d) /\ 0 <= d <= Z.of_nat fuel /\ uval ws < 10 ^ d /\
    (uval ws = 0 -> d = 0) /\ (uval ws <> 0 -> 10 ^ (d - 1) <= uval ws).
Proof.
  revert ws k. induction fuel as [| fuel IH]; intros ws k W N Hz Hb Hk Hk2.
  { exists 0. cbn [count_digits]. rewrite Hz. pose proof (uval_bounds ws W). simpl in Hb.
    rewrite (proj2 (Z.eqb_eq (uval ws) 0)) by lia. 
    split; [f_equal; lia |]. split; [lia |]. split; [simpl; lia |]. split; [done | lia]. }
  cbn [count_digits]. rewrite Hz. pose proof (uval_bounds ws W) as Hu.
  destruct (Z.eqb_spec (uval ws) 0) as [E0 | E0].
  { exists 0. split; [f_equal; lia |]. split; [lia |]. split; [simpl; lia |]. split; [done | lia]. }
  destruct (div_uint32_spec ws 10 W N ltac:(lia)) as (q & -> & Q1 & Q2 & Q3 & Q4 & Q5).
  cbn [mbind option_bind]. rewrite remove_leading_zeroes_canonical by done.
  pose proof (Z.div_mod (uval ws) 10 ltac:(lia)). pose proof (Z.mod_pos_bound (uval ws) 10 ltac:(lia)).
  unfold INT8_MAX in *. rewrite wraps_small by (simpl; lia).
  destruct (IH q (k + 1) Q1 Q2) as (d & -> & D1 & D2 & D3 & D4);
    [by apply canonical_zero_test | | lia | lia |].
  { rewrite Q4. apply Z.div_lt_upper_bound; [lia |]. rewrite <- Z.pow_succ_r by lia.
    by replace (Z.succ (Z.of_nat fuel)) with (Z.of_nat (S fuel)) by lia. }
  exists (d + 1). split; [f_equal; lia |]. split; [lia |].
  rewrite Z.pow_add_r by lia. split; [lia |]. split; [done |]. intros _.
  replace (d + 1 - 1) with d by lia. destruct (decide (uval q = 0)) as [Eq | Eq].
  - rewrite D3 by done. simpl. lia.
  - specialize (D4 Eq). destruct (decide (d = 0)) as [-> |]; [simpl in *; lia |].
    replace d with (Z.succ (d - 1)) by lia. rewrite Z.pow_succ_r by lia. lia.
Qed.

Lemma right_shift_spec n i :
  words_wf (words_ n) -> nwords_ok (words_ n) -> 0 < i <= vscale_ n -> vscale_ n <= INT8_MAX ->
  exists q, right_shift n i = Some (mkNumber (vscale_ n - i) q) /\ words_wf q /\ nwords_ok q /\
    canonical q /\ uval q = uval (words_ n) / 10 ^ i /\ sval q = uval q.
Proof.
  intros W N Hi Hv. unfold right_shift, ob_assert, INT8_MAX in *.
  destruct (Z.ltb_spec 0 i), (Z.leb_spec i (vscale_ n)); try lia. cbn [andb mbind option_bind].
  destruct (right_shift_loop_spec 15 i (words_ n) W N ltac:(lia) ltac:(lia)) as (q & -> & Q).
  cbn [mbind option_bind]. rewrite wraps_small by (simpl; lia). by exists q.
Qed.

(** Negation turns a magnitude of at most half the modulus into a negative
    number, also at the half. *)
Lemma negate_magnitude ws :
  words_wf ws -> nwords_ok ws -> 2 * uval ws <= modulus ws ->
  exists r, negate_words ws = Some r /\ words_wf r /\ length r = length ws /\ sval r = - uval ws.
Proof.
  intros W N H. destruct (negate_words_spec ws W N) as (r & E & R1 & R2 & R3). exists r.
  pose proof (nwords_ok_ne ws N) as Hne. assert (Hr : r <> []) by (by destruct r, ws).
  split_and!; try done. rewrite (sval_of_mod r (- uval ws)) by (rewrite ?(modulus_length r ws); done).
  pose proof (uval_bounds ws W). destruct N as [N _].
  rewrite modulus_pow2, pow2_double in H by lia. rewrite R2. apply wraps_small; lia.
Qed.

Lemma magnitude_half ws r :
  words_wf ws -> ws <> [] -> length r = length ws -> uval r = Z.abs (sval ws) ->
  2 * uval r <= modulus r.
Proof.
  intros W N L U. rewrite (modulus_length r ws L). pose proof (sval_bounds ws W N).
  pose proof (modulus_even ws N). lia.
Qed.

Lemma positive_half ws :
  words_wf ws -> ws <> [] -> sval ws = uval ws -> 2 * uval ws <= modulus ws.
Proof.
  intros W N S. pose proof (sval_bounds ws W N). pose proof (modulus_even ws N). lia.
Qed.

Lemma uval_max_digits ws : words_wf ws -> nwords_ok ws -> uval ws < 10 ^ Z.of_nat CAST_FUEL.
Proof.
  intros W [N1 N2]. pose proof (uval_bounds ws W) as Hu. unfold MAX_NWORDS in N2.
  assert (modulus ws <= BASE ^ 9) by (unfold modulus; apply Z.pow_le_mono_r; [done | lia]).
  assert (BASE ^ 9 < 10 ^ Z.of_nat CAST_FUEL) by (by vm_compute). lia.
Qed.

(** What [round_to] keeps of the value at scale [scale]. *)
Definition truncated (n : ObNumber) (scale : Z) : Z :=
  if scale <? vscale_ n then Z.quot (sval (words_ n)) (10 ^ (vscale_ n - scale))
  else sval (words_ n).

Lemma quot_abs_sign a b :
  0 < b -> Z.quot a b = (if a <? 0 then - (Z.abs a / b) else Z.abs a / b).
Proof.
  intros Hb. destruct (Z.ltb_spec a 0).
  - rewrite <- Z.quot_div_nonneg, Z.abs_neq, Z.quot_opp_l by lia. lia.
  - rewrite Z.abs_eq by done. by apply Z.quot_div_nonneg.
Qed.

(** The magnitude after the shift of [round_to], with its scale. *)
Lemma round_to_clone n scale c :
  number_wf n -> canonical (words_ n) -> 0 <= scale ->
  words_wf (words_ c) -> length (words_ c) = length (words_ n) -> vscale_ c = vscale_ n ->
  uval (words_ c) = Z.abs (sval (words_ n)) -> zero_test_ok (words_ c) ->
  exists ws, (if scale <? vscale_ c then
                c' ← right_shift c (int8 (vscale_ c - scale)) ;
                Some (mkNumber (vscale_ c') (remove_leading_zeroes (words_ c')))
              else Some c) = Some (mkNumber (Z.min (vscale_ n) scale) ws) /\
    words_wf ws /\ nwords_ok ws /\ zero_test_ok ws /\ 2 * uval ws <= modulus ws /\
    (words_is_negative (words_ n) = false -> sval ws = uval ws) /\
    truncated n scale = (if words_is_negative (words_ n) then - uval ws else uval ws).
Proof.
  intros (W & N & V) Hc Hs Wc Lc Vc Uc Zc. change (nwords_ok (words_ n)) in N.
  pose proof (nwords_ok_ne _ N) as Hne.
  assert (Nc : nwords_ok (words_ c)) by (unfold nwords_ok in *; lia).
  unfold truncated. rewrite Vc, is_negative_sval by done.
  destruct (Z.ltb_spec scale (vscale_ n)) as [Hlt | Hge].
  - unfold INT8_MAX in V. rewrite wraps_small by (simpl; lia).
    destruct (right_shift_spec c (vscale_ n - scale)) as (q & -> & Q1 & Q2 & Q3 & Q4 & Q5);
      [done | done | lia | unfold INT8_MAX; lia |].
    cbn [mbind option_bind words_ vscale_]. rewrite remove_leading_zeroes_canonical by done.
    exists q. split; [do 2 f_equal; lia |]. pose proof (nwords_ok_ne q Q2).
    split_and!; try done; try apply Q2; [by apply canonical_zero_test | by apply positive_half |].
    rewrite quot_abs_sign, Q4, Uc by (apply Z.pow_pos_nonneg; lia). done.
  - exists (words_ c). rewrite Z.min_l by lia. destruct c as [cv cw]. cbn in *.
    split; [congruence |]. split_and!; try done; try apply Nc.
    + by apply (magnitude_half (words_ n)).
    + intros Hpos. apply Z.ltb_ge in Hpos. apply small_is_positive; [done | by apply nwords_ok_ne |].
      rewrite (modulus_length cw (words_ n)) by done.
      pose proof (sval_bounds (words_ n) W Hne). pose proof (modulus_even (words_ n) Hne). lia.
    + rewrite Uc. destruct (Z.ltb_spec (sval (words_ n)) 0); lia.
Qed.

Definition raw_digits_value (acc : Z) (ds : list Z) : Z := fold_left (fun a d => a * 10 + d) ds acc.

Lemma cast_digits_spec fuel ws vs room acc :
  words_wf ws -> nwords_ok ws -> zero_test_ok ws -> uval ws < 10 ^ Z.of_nat fuel -> 0 <= vs ->
  uval ws / 10 ^ vs < 10 ^ Z.of_nat room ->
  exists ds, cast_digits fuel ws vs room acc = Some (ds ++ acc) /\
    raw_digits_value 0 ds = uval ws / 10 ^ vs.
Proof.
  revert ws vs room acc. induction fuel as [| fuel IH]; intros ws vs room acc W N Hz Hb Hv Hr.
  { exists []. cbn [cast_digits]. rewrite Hz. pose proof (uval_bounds ws W). simpl in Hb.
    rewrite (proj2 (Z.eqb_eq (uval ws) 0)) by lia. split; [done |].
    replace (uval ws) with 0 by lia. done. }
  cbn [cast_digits]. rewrite Hz. pose proof (uval_bounds ws W) as Hu.
  destruct (Z.eqb_spec (uval ws) 0) as [E0 | E0]; [exists []; by rewrite E0 |].
  pose proof (Z.div_mod (uval ws) 10 ltac:(lia)). pose proof (Z.mod_pos_bound (uval ws) 10 ltac:(lia)).
  assert (Hq : uval ws / 10 < 10 ^ Z.of_nat fuel).
  { apply Z.div_lt_upper_bound; [lia |]. rewrite <- Z.pow_succ_r by lia.
    by replace (Z.succ (Z.of_nat fuel)) with (Z.of_nat (S fuel)) by lia. }
  destruct (Z.ltb_spec 0 vs) as [Hv0 | Hv0].
  - destruct (div_uint32_spec ws 10 W N ltac:(lia)) as (q & -> & Q1 & Q2 & Q3 & Q4 & Q5).
    cbn [mbind option_bind].
    assert (Hqv : uval q / 10 ^ (vs - 1) = uval ws / 10 ^ vs).
    { rewrite Q4, Z.div_div by (try apply Z.pow_pos_nonneg; lia). f_equal.
      rewrite <- Z.pow_succ_r by lia. f_equal. lia. }
    destruct (IH q (vs - 1) room acc Q1 Q2) as (ds & -> & D);
      [by apply canonical_zero_test | lia | lia | lia |].
    exists ds. by rewrite D.
  - assert (vs = 0) as -> by lia. rewrite Z.pow_0_r, Z.div_1_r in *.
    destruct room as [| room]; [simpl in Hr; lia |].
    destruct (take_digit_spec ws W N) as (q & -> & Q1 & Q2 & Q3 & Q4 & Q5). cbn [mbind option_bind].
    destruct (IH q 0 room ((uval ws mod 10) :: acc) Q1 Q2) as (ds & -> & D);
      [by apply canonical_zero_test | lia | lia | |].
    { rewrite Z.pow_0_r, Z.div_1_r, Q4. apply Z.div_lt_upper_bound; [lia |].
      rewrite <- Z.pow_succ_r by lia.
      by replace (Z.succ (Z.of_nat room)) with (Z.of_nat (S room)) by lia. }
    exists (ds ++ [uval ws mod 10]). rewrite <- app_assoc. split; [done |].
    unfold raw_digits_value in *. rewrite fold_left_app, D, Z.pow_0_r, Z.div_1_r, Q4. simpl. lia.
Qed.

Lemma int64_digits ds a b :
  int64 a = int64 b -> - 2 ^ 63 <= a < 2 ^ 63 ->
  fold_left (fun acc d => int64 (int64 (acc * 10) + d)) ds a = int64 (raw_digits_value b ds).
Proof.
  unfold raw_digits_value. revert a b.
  induction ds as [| d ds IH]; intros a b E H; cbn [fold_left].
  { by rewrite <- E, wraps_small by (simpl; lia). }
  apply IH; [| apply (wraps_range 64); lia].
  rewrite wraps_idem by lia. apply wraps_congr.
  assert (E' : a mod 2 ^ 64 = b mod 2 ^ 64) by (by rewrite <- mod_wraps, E, mod_wraps by lia).
  rewrite Zplus_mod, mod_wraps, <- Zplus_mod by lia.
  rewrite Zplus_mod, Zmult_mod, E', <- Zmult_mod, <- Zplus_mod. done.
Qed.

(** ** Multiplication *)

Lemma u64_small z : 0 <= z < BASE * BASE -> u64 z = z.
Proof. intros. by apply wrapu_small. Qed.

Lemma mul_words_inner_spec m c ws1 acc :
  0 <= m < BASE -> 0 <= c < BASE -> words_wf ws1 -> words_wf acc ->
  acc !! length ws1 = Some 0 ->
  words_wf (mul_words_inner m c ws1 acc) /\
  length (mul_words_inner m c ws1 acc) = length acc /\
  uval (mul_words_inner m c ws1 acc) = uval acc + m * uval ws1 + c /\
  skipn (S (length ws1)) (mul_words_inner m c ws1 acc) = skipn (S (length ws1)) acc.
Proof.
  intros Hm. revert c acc. induction ws1 as [| w ws1 IH]; intros c acc Hc W1 Wa Hz.
  { destruct acc as [| a acc]; [done |]. simplify_eq/=. apply Forall_cons in Wa as [Ha Wa].
    replace (if 0 <? c then u32 c else 0) with c
      by (destruct (Z.ltb_spec 0 c); [by rewrite u32_small | lia]).
    split_and!; [by apply Forall_cons | done | lia | done]. }
  destruct acc as [| a acc]; [done |]. cbn [length lookup list_lookup] in Hz.
  apply Forall_cons in Wa as [Ha Wa]. apply Forall_cons in W1 as [Hw W1].
  cbn [mul_words_inner length uval]. unfold BASE in *.
  assert (Hp : 0 <= w * m <= (2 ^ 32 - 1) * (2 ^ 32 - 1)) by nia.
  rewrite (u64_small (w * m)), (u64_small (c + w * m)), (u64_small (c + w * m + a)) by (unfold BASE; lia).
  set (k := c + w * m + a) in *.
  pose proof (Z.div_mod k (2 ^ 32) ltac:(lia)) as Hdm.
  pose proof (Z.mod_pos_bound k (2 ^ 32) ltac:(lia)) as Hmb.
  destruct (Z.leb_spec (2 ^ 32) k) as [Hge | Hlt].
  - assert (Hk : 0 <= k / 2 ^ 32 < 2 ^ 32)
      by (split; [apply Z.div_pos; lia | apply Z.div_lt_upper_bound; unfold k; lia]).
    destruct (IH (k / 2 ^ 32) acc Hk W1 Wa Hz) as (I1 & I2 & I3 & I4).
    rewrite (u64_small (k / 2 ^ 32 * 2 ^ 32)), (u64_small (k - _)), u32_small by (unfold BASE, k in *; lia).
    split_and!; [apply Forall_cons; split; [unfold BASE; lia | done] | simpl; lia | | done].
    cbn [uval]. rewrite I3. unfold BASE, k in *. nia.
  - destruct (IH 0 acc ltac:(lia) W1 Wa Hz) as (I1 & I2 & I3 & I4).
    rewrite u32_small by (unfold BASE, k in *; lia).
    split_and!; [apply Forall_cons; split; [unfold BASE, k in *; lia | done] | simpl; lia | | done].
    cbn [uval]. rewrite I3. unfold BASE, k in *. nia.
Qed.

Lemma mul_words_outer_spec ws1 ws2 acc :
  words_wf ws1 -> words_wf ws2 -> words_wf acc ->
  (length ws1 + length ws2 < length acc)%nat ->
  Forall (eq 0) (skipn (length ws1) acc) ->
  words_wf (mul_words_outer ws1 ws2 acc) /\
  length (mul_words_outer ws1 ws2 acc) = length acc /\
  uval (mul_words_outer ws1 ws2 acc) = uval acc + uval ws1 * uval ws2.
Proof.
  intros W1 W2. revert acc. induction W2 as [| m ws2 Hm W2 IH]; intros acc Wa L Z0.
  { split_and!; try done. simpl. lia. }
  cbn [mul_words_outer length uval] in *.
  assert (Hz : acc !! length ws1 = Some 0).
  { destruct (lookup_lt_is_Some_2 acc (length ws1)) as [x Hx]; [lia |]. rewrite Hx. f_equal.
    rewrite Forall_lookup in Z0. symmetry. apply (Z0 O). by rewrite lookup_drop, Nat.add_0_r. }
  destruct (mul_words_inner_spec m 0 ws1 acc Hm ltac:(unfold BASE; lia) W1 Wa Hz)
    as (I1 & I2 & I3 & I4).
  destruct (mul_words_inner m 0 ws1 acc) as [| a r]; [simpl in *; lia |].
  apply Forall_cons in I1 as [Ha I1]. cbn [length uval] in *. cbn [skipn] in I4.
  destruct (IH r I1 ltac:(lia)) as (J1 & J2 & J3).
  { rewrite I4. rewrite <- (Nat.add_1_r (length ws1)), <- drop_drop.
    by apply Forall_drop. }
  split_and!; [by apply Forall_cons | lia |]. rewrite J3. lia.
Qed.

Lemma mul_words_spec ws1 ws2 :
  words_wf ws1 -> words_wf ws2 -> ws1 <> [] -> ws2 <> [] ->
  Z.of_nat (length ws1) + Z.of_nat (length ws2) + 1 <= MAX_NWORDS ->
  exists r, mul_words ws1 ws2 = Some r /\ words_wf r /\ nwords_ok r /\
    uval r = uval ws1 * uval ws2 /\ sval r = uval r.
Proof.
  intros W1 W2 N1 N2 L. unfold mul_words, ob_assert, MAX_NWORDS in *.
  pose proof (ne_length _ N1). pose proof (ne_length _ N2).
  destruct (Z.ltb_spec 0 (Z.of_nat (length ws1))), (Z.ltb_spec 0 (Z.of_nat (length ws2))); try lia.
  cbn [andb mbind option_bind]. rewrite wraps_small by (simpl; lia).
  set (n := Z.of_nat (length ws1) + Z.of_nat (length ws2) + 1) in *.
  destruct (Z.ltb_spec 9 n); [lia |].
  destruct (mul_words_outer_spec ws1 ws2 (replicate (Z.to_nat n) 0)) as (R1 & R2 & R3);
    [done | done | by apply Forall_replicate | rewrite length_replicate; lia
    | by apply Forall_drop, Forall_replicate |].
  rewrite length_replicate in R2. rewrite uval_replicate_0 in R3.
  eexists. split; [done |]. split; [done |]. split; [unfold nwords_ok, MAX_NWORDS; lia |].
  split; [lia |]. apply small_is_positive; [done | intros E; rewrite E in R2; simpl in R2; lia |].
  rewrite R3. unfold modulus. rewrite R2, Z2Nat.id by lia.
  pose proof (uval_bounds ws1 W1). pose proof (uval_bounds ws2 W2).
  assert (E : BASE ^ n = BASE * (modulus ws1 * modulus ws2)).
  { unfold n, modulus. rewrite !Z.pow_add_r by lia. lia. }
  rewrite E. unfold BASE. nia.
Qed.

Lemma is_zero_sval n : is_zero n = true -> sval (words_ n) = 0.
Proof.
  destruct n as [v ws]. unfold is_zero. destruct ws as [| w [|]]; try done. cbn. by intros ->%Z.eqb_eq.
Qed.

Lemma magnitude_number n m :
  (if words_is_negative (words_ n) then negate_words (words_ n) else Some (words_ n)) = Some m ->
  (if is_negative n then negate n else Some n) = Some (mkNumber (vscale_ n) m).
Proof.
  destruct n as [v ws]. unfold is_negative, negate. cbn.
  destruct (words_is_negative ws); [by intros -> | by intros [= ->]].
Qed.

(** ** Theorems *)

(** C9: addition.  For operands of at most 38 fractional digits and eight
    words, [add] succeeds, the result is well formed, in canonical form and at
    the larger of the scales, and its value is the exact sum, provided the
    scales agree or the sum at the common scale fits in one word more than the
    longer operand. *)
Theorem add_exact (n1 n2 res : ObNumber) (H1 : number_wf n1) (H2 : number_wf n2)
    (S1 : vscale_ n1 <= SINGLE_PRECISION_NDIGITS) (S2 : vscale_ n2 <= SINGLE_PRECISION_NDIGITS)
    (HN : sum_nwords n1 n2 <= MAX_NWORDS)
    (Hfit : vscale_ n1 = vscale_ n2 \/
            - 2 ^ (32 * sum_nwords n1 n2 - 1)
              <= scaled n1 (common_scale n1 n2) + scaled n2 (common_scale n1 n2)
              < 2 ^ (32 * sum_nwords n1 n2 - 1)) :
  exists r, add n1 n2 res = Some (OB_SUCCESS, r) /\ number_wf r /\ canonical (words_ r) /\
    vscale_ r = common_scale n1 n2 /\
    sval (words_ r) = scaled n1 (vscale_ r) + scaled n2 (vscale_ r).
Proof.
  destruct (add_spec n1 n2 res H1 H2 S1 S2 HN) as (ws & -> & A1 & A2 & A3 & A4 & A5).
  eexists. split; [done |]. destruct H1 as (W1 & N1 & V1), H2 as (W2 & N2 & V2).
  split; [split_and!; cbn; [done | apply A2 | apply A2 | |]; unfold common_scale; lia |].
  split; [done |]. split; [done |]. cbn [words_ vscale_]. rewrite A5.
  apply wraps_small; [| unfold sum_nwords, nwords_ in *; lia].
  destruct Hfit as [Hv | Hfit]; [| done]. unfold common_scale. rewrite !scaled_same by lia.
  apply sum_fits; [unfold sum_nwords, nwords_ in *; lia | |];
    apply sval_within; try done; unfold sum_nwords, nwords_ in *; lia.
Qed.

(** 1.50 + 2.25 at scale 2. *)
Lemma add_exact_witness :
  add (mkNumber 2 [150]) (mkNumber 2 [225]) ObNumber_new = Some (OB_SUCCESS, mkNumber 2 [375]) /\
  exists r, add (mkNumber 2 [150]) (mkNumber 2 [225]) ObNumber_new = Some (OB_SUCCESS, r) /\
    sval (words_ r) = 375.
Proof.
  split; [by vm_compute |].
  destruct (add_exact (mkNumber 2 [150]) (mkNumber 2 [225]) ObNumber_new) as (r & E & _ & _ & V & S).
  - split_and!; [by apply Forall_singleton | by vm_compute ..].
  - split_and!; [by apply Forall_singleton | by vm_compute ..].
  - by vm_compute.
  - by vm_compute.
  - by vm_compute.
  - by left.
  - exists r. split; [done |]. rewrite S, V. by vm_compute.
Defined.

(** Comparison: for operands of at most 38 fractional digits, eight and
    seven words, [compare] is the sign of the exact difference, provided the
    scales agree or the difference at the common scale fits in one word more
    than the first operand has. *)
Theorem compare_sign (n1 n2 : ObNumber) (H1 : number_wf n1) (H2 : number_wf n2)
    (S1 : vscale_ n1 <= SINGLE_PRECISION_NDIGITS) (S2 : vscale_ n2 <= SINGLE_PRECISION_NDIGITS)
    (N1 : nwords_ n1 < MAX_NWORDS) (N2 : nwords_ n2 + 1 < MAX_NWORDS)
    (Hfit : vscale_ n1 = vscale_ n2 \/
            - 2 ^ (32 * (nwords_ n1 + 1) - 1)
              <= scaled n1 (common_scale n1 n2) - scaled n2 (common_scale n1 n2)
              < 2 ^ (32 * (nwords_ n1 + 1) - 1)) :
  compare n1 n2
  = Some (Z.sgn (scaled n1 (common_scale n1 n2) - scaled n2 (common_scale n1 n2))).
Proof. by apply compare_spec. Qed.

(** 1.5 against 1.25. *)
Lemma compare_sign_witness : compare (mkNumber 1 [15]) (mkNumber 2 [125]) = Some 1.
Proof.
  apply (compare_sign (mkNumber 1 [15]) (mkNumber 2 [125]));
    [split_and!; [by apply Forall_singleton | by vm_compute ..] ..
    | by vm_compute | by vm_compute | by vm_compute | by vm_compute | right; by vm_compute].
Defined.

(** bringing operands of different scales together drops the carry.  The
    numbers 1 and 0.0000000000000000001 compare the wrong way round, and one
    plus 0.00000000000000000001 is not the sum. *)
Theorem scale_alignment_overflow :
  compare (mkNumber 0 [1]) (mkNumber 19 [1]) = Some (-1) /\
  exists r, add (mkNumber 0 [1]) (mkNumber 20 [1]) ObNumber_new = Some (OB_SUCCESS, r) /\
    vscale_ r = 20 /\ sval (words_ r) <> 10 ^ 20 + 1.
Proof.
  split; [by vm_compute |].
  exists (mkNumber 20 [1661992961; 1808227885]). by vm_compute.
Qed.

(** printing and parsing.  A well-formed canonical number below [2 ^ 127]
    (38 digits always are) with at most 38 fractional digits, printed into a
    buffer of [MAX_PRINTABLE_SIZE] bytes and parsed, is the same number; a zero
    keeps its value and loses its scale. *)
Theorem string_roundtrip (n : ObNumber) (Hn : number_wf n) (Hc : canonical (words_ n))
    (Hv : vscale_ n <= SINGLE_PRECISION_NDIGITS) (Hb : Z.abs (sval (words_ n)) < 2 ^ 127) :
  exists s, to_string n (Z.of_nat MAX_PRINTABLE_SIZE) = Some s /\
    from_string s = Some (OB_SUCCESS,
                          mkNumber (if sval (words_ n) =? 0 then 0 else vscale_ n) (words_ n)).
Proof.
  destruct (to_string_spec n Hn Hc Hv Hb) as (ds & -> & D1 & D2 & D3 & D4).
  destruct Hn as (W & N & V). change (nwords_ok (words_ n)) in N.
  pose proof (nwords_ok_ne _ N) as Hne. eexists. split; [done |].
  destruct (Z.eqb_spec (sval (words_ n)) 0) as [E0 | E0].
  - rewrite (proj1 D3) by done. change (number_text _ _ []) with [48].
    rewrite (canonical_unique (words_ n) [0]); try done. by apply Forall_singleton.
  - apply from_text; try done; [rewrite D2; lia | unfold SINGLE_PRECISION_NDIGITS in *; lia
      | tauto |].
    unfold is_negative. rewrite is_negative_sval, D2 by done.
    destruct (Z.ltb_spec (sval (words_ n)) 0); lia.
Qed.

(** -123.45 *)
Lemma string_roundtrip_witness :
  exists s, to_string (mkNumber 2 [4294954951]) (Z.of_nat MAX_PRINTABLE_SIZE) = Some s /\
    from_string s = Some (OB_SUCCESS, mkNumber 2 [4294954951]).
Proof.
  apply (string_roundtrip (mkNumber 2 [4294954951]));
    [split_and!; [by apply Forall_singleton | by vm_compute ..] | by vm_compute ..].
Defined.

(** C27: multiplication.  For operands whose words together leave one spare and
    whose scales are at most 38, [mul] succeeds with the exact product at the
    sum of the scales, zero operands included. *)
Theorem mul_exact (n1 n2 res : ObNumber) (H1 : number_wf n1) (H2 : number_wf n2)
    (S1 : vscale_ n1 <= SINGLE_PRECISION_NDIGITS) (S2 : vscale_ n2 <= SINGLE_PRECISION_NDIGITS)
    (HN : nwords_ n1 + nwords_ n2 + 1 <= MAX_NWORDS) :
  exists r, mul n1 n2 res = Some (OB_SUCCESS, r) /\ words_wf (words_ r) /\
    sval (words_ r) = sval (words_ n1) * sval (words_ n2) /\
    (is_zero n1 = false -> is_zero n2 = false -> vscale_ r = vscale_ n1 + vscale_ n2).
Proof.
  destruct H1 as (W1 & N1 & V1), H2 as (W2 & N2 & V2).
  change (nwords_ok (words_ n1)) in N1. change (nwords_ok (words_ n2)) in N2.
  unfold mul. destruct (is_zero n1) eqn:Z1; cbn [negb andb].
  { eexists. split; [done |]. rewrite (is_zero_sval n1 Z1). split; [by apply Forall_singleton | done]. }
  destruct (is_zero n2) eqn:Z2; cbn [negb].
  { eexists. split; [done |]. rewrite (is_zero_sval n2 Z2), Z.mul_0_r. split; [by apply Forall_singleton | done]. }
  destruct (magnitude_spec (words_ n1) W1 N1) as (m1 & E1 & M1 & L1 & U1).
  destruct (magnitude_spec (words_ n2) W2 N2) as (m2 & E2 & M2 & L2 & U2).
  rewrite (magnitude_number n1 m1 E1), (magnitude_number n2 m2 E2). cbn [mbind option_bind].
  unfold round_if_over. cbn [vscale_].
  destruct (Z.ltb_spec SINGLE_PRECISION_NDIGITS (vscale_ n1)); [lia |].
  destruct (Z.ltb_spec SINGLE_PRECISION_NDIGITS (vscale_ n2)); [lia |]. cbn [mbind option_bind words_ vscale_].
  unfold nwords_ in HN.
  destruct (mul_words_spec m1 m2 M1 M2) as (r & -> & R1 & R2 & R3 & R4);
    [by apply nwords_ok_ne; unfold nwords_ok in *; lia .. | lia |].
  cbn [mbind option_bind]. pose proof (nwords_ok_ne r R2) as Hrne.
  destruct (remove_leading_zeroes_spec r R1 Hrne) as (C1 & C2 & C3 & C4 & C5).
  assert (Cn : nwords_ok (remove_leading_zeroes r))
    by (pose proof (ne_length _ C2); unfold nwords_ok in *; lia).
  assert (Cs : sval (remove_leading_zeroes r) = uval (remove_leading_zeroes r)).
  { apply uval_nonneg_sval; [done | done |]. rewrite C4, R4. by apply uval_bounds. }
  assert (Cv : uval (remove_leading_zeroes r) = Z.abs (sval (words_ n1)) * Z.abs (sval (words_ n2)))
    by (rewrite <- Cs, C4, R4, R3, U1, U2; done).
  unfold is_negative. rewrite !is_negative_sval by (done || by apply nwords_ok_ne).
  unfold SINGLE_PRECISION_NDIGITS in *. rewrite (wraps_small 8) by (simpl; lia).
  destruct (negate_positive (remove_leading_zeroes r) C1 Cn Cs) as (x & -> & X1 & X2 & X3).
  destruct (Z.ltb_spec (sval (words_ n1)) 0), (Z.ltb_spec (sval (words_ n2)) 0);
    cbn [xorb mbind option_bind]; eexists; (split; [done |]); cbn [words_ vscale_];
    (split; [done |]); (split; [| done]); rewrite ?X3, ?Cs, Cv; nia.
Qed.

(** -1.5 times 0.5 *)
Lemma mul_exact_witness :
  exists r, mul (mkNumber 1 [4294967281]) (mkNumber 1 [5]) ObNumber_new = Some (OB_SUCCESS, r) /\
    sval (words_ r) = -75.
Proof.
  destruct (mul_exact (mkNumber 1 [4294967281]) (mkNumber 1 [5]) ObNumber_new) as (r & E & _ & S & _);
    [split_and!; [by apply Forall_singleton | by vm_compute ..] .. | by vm_compute | by vm_compute
    | by vm_compute |].
  exists r. split; [done |]. rewrite S. by vm_compute.
Defined.

(** Rounding for storage.  On a canonical number, [round_to] truncates
    toward zero to the asked scale (it never rounds up) and refuses exactly
    the values with more digits than the precision. *)
Theorem round_to_truncates (n : ObNumber) (precision scale : Z) (Hn : number_wf n)
    (Hc : canonical (words_ n)) (Hs : 0 <= scale <= precision) :
  exists ws, words_wf ws /\ sval ws = truncated n scale /\
    round_to n precision scale =
    Some (if 10 ^ precision <=? Z.abs (truncated n scale) then (OB_VALUE_OUT_OF_RANGE, None)
          else (OB_SUCCESS, Some (mkNumber (Z.min (vscale_ n) scale) ws))).
Proof.
  destruct (Hn) as (W & N & V). change (nwords_ok (words_ n)) in N.
  destruct (magnitude_spec (words_ n) W N) as (m & E & M1 & M2 & M3).
  unfold round_to, ob_assert.
  destruct (Z.leb_spec scale precision), (Z.leb_spec 0 scale); try lia. cbn [andb mbind option_bind].
  rewrite (magnitude_number n m E). cbn [mbind option_bind].
  destruct (round_to_clone n scale (mkNumber (vscale_ n) m) Hn Hc) as
    (ws & -> & R1 & R2 & R3 & R4 & R5 & R6); [lia | done | done | done | done |
    by apply (magnitude_zero_test (words_ n)) |].
  cbn [mbind option_bind words_].
  destruct (count_digits_spec CAST_FUEL ws 0 R1 R2 R3) as (d & -> & D1 & D2 & D3 & D4);
    [by apply uval_max_digits | lia | by vm_compute |].
  cbn [mbind option_bind]. rewrite Z.add_0_l.
  assert (Habs : Z.abs (truncated n scale) = uval ws)
    by (pose proof (uval_bounds ws R1); rewrite R6; destruct (words_is_negative _); lia).
  assert (Hdig : (precision <? d) = (10 ^ precision <=? uval ws)).
  { destruct (Z.ltb_spec precision d), (Z.leb_spec (10 ^ precision) (uval ws)); try done; exfalso.
    - assert (uval ws <> 0) by (intros ?; lia). specialize (D4 ltac:(done)).
      assert (10 ^ precision <= 10 ^ (d - 1)) by (apply Z.pow_le_mono_r; lia). lia.
    - assert (10 ^ d <= 10 ^ precision) by (apply Z.pow_le_mono_r; lia). lia. }
  rewrite Habs, Hdig, R6. unfold is_negative. destruct (words_is_negative (words_ n)).
  - destruct (negate_magnitude ws R1 R2 R4) as (x & X & X1 & X2 & X3). exists x.
    split; [done |]. split; [done |]. unfold negate. cbn [words_ vscale_]. rewrite X.
    by destruct (10 ^ precision <=? uval ws).
  - exists ws. split; [done |]. split; [by apply R5 |]. by destruct (10 ^ precision <=? uval ws).
Qed.

(** -1.29 to one fractional digit is -1.2. *)
Lemma round_to_truncates_witness :
  truncated (mkNumber 2 [4294967167]) 1 = -12 /\
  exists ws, round_to (mkNumber 2 [4294967167]) 10 1 = Some (OB_SUCCESS, Some (mkNumber 1 ws)) /\
    sval ws = -12.
Proof.
  split; [by vm_compute |].
  destruct (round_to_truncates (mkNumber 2 [4294967167]) 10 1) as (ws & _ & S & E);
    [split_and!; [by apply Forall_singleton | by vm_compute ..] | by vm_compute | lia |].
  exists ws. rewrite E, S. by vm_compute.
Defined.

(** integer conversion.  [from(int64_t)] gives the integer's value except
    for magnitudes from [2 ^ 31] to [2 ^ 32 - 1], which get a single word with
    its sign bit set and so lose or gain [2 ^ 32] (3000000000 becomes
    -1294967296); every other integer comes back from [to_int64]. *)
Theorem from_int64_value (i : Z) (Hi : - 2 ^ 63 <= i < 2 ^ 63) :
  exists n, from_int64 i = Some n /\ number_wf n /\ vscale_ n = 0 /\
    sval (words_ n) = (if Z.abs i <? BASE then int32 i else i) /\
    to_int64 n = Some (OB_SUCCESS, if Z.abs i <? BASE then int32 i else i).
Proof.
  destruct (from_int64_spec i Hi) as (ws & -> & W & L & U). exists (mkNumber 0 ws).
  assert (Hl : nwords_ok ws /\ (length ws <= 2)%nat)
    by (unfold nwords_ok, MAX_NWORDS; rewrite L; destruct (Z.abs i <? BASE); lia).
  destruct Hl as [N L2]. pose proof (nwords_ok_ne ws N) as Hne.
  assert (S : sval ws = (if Z.abs i <? BASE then int32 i else i)).
  { rewrite (sval_of_mod ws i W Hne U), L. destruct (Z.abs i <? BASE); [done |].
    apply wraps_small; simpl; lia. }
  split; [done |]. split; [split_and!; cbn; [done | apply N | apply N | lia | by vm_compute] |].
  split; [done |]. split; [done |]. rewrite <- S.
  unfold to_int64, can_convert_to_int64, nwords_. cbn [vscale_ words_].
  rewrite (proj2 (Z.leb_le 0 _)), (proj2 (Z.leb_le _ 2)) by lia. cbn [Z.eqb andb negb].
  unfold is_negative. cbn [words_].
  destruct (magnitude_spec ws W N) as (m & -> & M1 & M2 & M3). cbn [mbind option_bind].
  set (f := foldr _ 0 m). assert (Hf : int64 f = int64 (Z.abs (sval ws)))
    by (unfold f; rewrite to_int64_loop, M3 by (done || lia); done).
  assert (Hr : - 2 ^ 63 <= f < 2 ^ 63).
  { unfold f. destruct m; [simpl; lia |]. cbn [foldr]. apply (wraps_range 64). lia. }
  assert (Hs : - 2 ^ 63 <= sval ws < 2 ^ 63).
  { rewrite S. destruct (Z.abs i <? BASE); [| done]. pose proof (wraps_range 32 i). lia. }
  do 2 f_equal. rewrite is_negative_sval by done. destruct (Z.ltb_spec (sval ws) 0).
  - transitivity (int64 (sval ws)); [| apply wraps_small; simpl; lia]. apply wraps_congr.
    rewrite <- (Z.sub_0_l f), <- (Zminus_mod_idemp_r 0 f), <- (mod_wraps 64 f), Hf by lia.
    rewrite mod_wraps, Zminus_mod_idemp_r by lia. f_equal. lia.
  - rewrite wraps_small in Hf by (simpl; lia). rewrite wraps_small in Hf by (simpl; lia). lia.
Qed.

Lemma from_int64_value_witness :
  exists n, from_int64 3000000000 = Some n /\ sval (words_ n) = -1294967296.
Proof.
  destruct (from_int64_value 3000000000 ltac:(lia)) as (n & E & _ & _ & S & _).
  exists n. split; [done |]. rewrite S. by vm_compute.
Defined.

(** the cast to int64 truncates toward zero and then keeps the low 64
    bits, for a canonical number whose integer part has at most 76 digits. *)
Theorem cast_to_int64_truncates (n : ObNumber) (Hn : number_wf n) (Hc : canonical (words_ n))
    (Hb : Z.abs (sval (words_ n)) / 10 ^ vscale_ n < 10 ^ DOUBLE_PRECISION_NDIGITS) :
  cast_to_int64 n = Some (int64 (Z.quot (sval (words_ n)) (10 ^ vscale_ n))).
Proof.
  destruct Hn as (W & N & V). change (nwords_ok (words_ n)) in N.
  unfold cast_to_int64, is_negative.
  destruct (magnitude_spec (words_ n) W N) as (m & E & M1 & M2 & M3). rewrite E. rewrite bind_some.
  assert (Nm : nwords_ok m) by (unfold nwords_ok in *; lia).
  destruct (cast_digits_spec CAST_FUEL m (vscale_ n) (Z.to_nat DOUBLE_PRECISION_NDIGITS) [] M1 Nm)
    as (ds & -> & D);
    [by apply (magnitude_zero_test (words_ n)) | by apply uval_max_digits | lia | rewrite M3, Z2Nat.id; [exact Hb | by vm_compute] |].
  rewrite app_nil_r. rewrite bind_some.
  rewrite (int64_digits ds 0 0) by (done || lia). rewrite D, M3.
  rewrite quot_abs_sign by (apply Z.pow_pos_nonneg; lia).
  rewrite is_negative_sval by (done || by apply nwords_ok_ne).
  destruct (Z.ltb_spec (sval (words_ n)) 0); [| done]. f_equal. apply wraps_congr.
  rewrite <- (Z.sub_0_l (int64 _)), <- Zminus_mod_idemp_r, mod_wraps, Zminus_mod_idemp_r by lia.
  f_equal.
Qed.

(** -123.45 gives -123. *)
Lemma cast_to_int64_truncates_witness : cast_to_int64 (mkNumber 2 [4294954951]) = Some (-123).
Proof.
  rewrite (cast_to_int64_truncates (mkNumber 2 [4294954951]));
    [by vm_compute | split_and!; [by apply Forall_singleton | by vm_compute ..] | by vm_compute ..].
Defined.

(** the overflow code of [add] is overwritten by the scale alignment:
    nine-word operands of one scale are refused, but with different scales the
    call succeeds with a sum that has wrapped. *)
Theorem add_overflow_code_lost :
  let big := replicate 8 0 ++ [2 ^ 30] in
  add (mkNumber 0 big) (mkNumber 0 big) ObNumber_new
    = Some (OB_VALUE_OUT_OF_RANGE, mkNumber 0 [0]) /\
  exists r, add (mkNumber 0 big) (mkNumber 1 big) ObNumber_new = Some (OB_SUCCESS, r) /\
    sval (words_ r) <> sval big * 10 + sval big.
Proof.
  split; [by vm_compute |].
  exists (mkNumber 1 (replicate 8 0 ++ [11 * 2 ^ 30 - 2 * 2 ^ 32])). by vm_compute.
Qed.
