(* ===== verification/ObNumberDiv.v ===== *)
(** * ObNumberDiv: division of decimals

    [div], [div_words], [knuth_div_unsigned] and their helpers
    ([common/ob_number.cpp]): long division by Knuth's algorithm (The Art of
    Computer Programming, volume 2, section 4.3.1) on words of 32 bits.  The words
    of dividend and divisor are read as unsigned numbers. *)

From S2P Require Import Prelude ObNumber.
Local Open Scope Z_scope.

Definition HALF_BASE : Z := BASE / 2.
Definition QUOTIENT_SCALE : Z := 38.

(** ** Unsigned words *)

(** The loop over the positions [i - 1], .., 0. *)
Fixpoint compare_unsigned_loop (i : nat) (ws1 ws2 : list Z) : Z :=
  match i with
  | O => 0
  | S i' =>
      let w1 := zget 0 ws1 (Z.of_nat i') in
      let w2 := zget 0 ws2 (Z.of_nat i') in
      if (i' <? length ws1)%nat && (length ws2 <=? i')%nat then
        if 0 <? w1 then 1 else compare_unsigned_loop i' ws1 ws2
      else if (i' <? length ws2)%nat && (length ws1 <=? i')%nat then
        if 0 <? w2 then -1 else compare_unsigned_loop i' ws1 ws2
      else if w2 <? w1 then 1
      else if w1 <? w2 then -1
      else compare_unsigned_loop i' ws1 ws2
  end.

Definition compare_words_unsigned (ws1 ws2 : list Z) : option Z :=
  ob_assert ((Z.of_nat (length ws1) <=? MAX_NWORDS) && (Z.of_nat (length ws2) <=? MAX_NWORDS)) ;;
  Some (compare_unsigned_loop (length ws1 `max` length ws2) ws1 ws2).

(** One word of the result, then the words after it with the borrow. *)
Definition sub_step (borrow : Z) (rest : Z -> list Z) : list Z :=
  if borrow <? 0 then u32 (borrow + BASE) :: rest (-1) else u32 borrow :: rest 0.

Fixpoint sub_unsigned_loop (borrow : Z) (ws1 ws2 : list Z) {struct ws1} : list Z :=
  match ws1 with
  | [] =>
      (fix only2 (borrow : Z) (ws2 : list Z) : list Z :=
         match ws2 with
         | [] => []
         | w2 :: ws2' => sub_step (borrow - w2) (fun b => only2 b ws2')
         end) borrow ws2
  | w1 :: ws1' =>
      match ws2 with
      | [] => sub_step (borrow + w1) (fun b => sub_unsigned_loop b ws1' [])
      | w2 :: ws2' => sub_step (borrow + w1 - w2) (fun b => sub_unsigned_loop b ws1' ws2')
      end
  end.

Definition sub_words_unsigned (ws1 ws2 : list Z) : option (list Z) :=
  ob_assert ((Z.of_nat (length ws1) <=? MAX_NWORDS) && (Z.of_nat (length ws2) <=? MAX_NWORDS)) ;;
  Some (sub_unsigned_loop 0 ws1 ws2).

Fixpoint remove_zeroes_unsigned_rev (rws : list Z) : list Z :=
  match rws with
  | w :: (_ :: _) as rest => if 0 =? w then remove_zeroes_unsigned_rev rest else rws
  | _ => rws
  end.

Definition remove_leading_zeroes_unsigned (ws : list Z) : list Z := rev (remove_zeroes_unsigned_rev (rev ws)).

(** ** One digit *)

(** The corrections of the estimated digit [q]; [Q] is the digit as a number, [T]
    the digit times the divisor. *)
Fixpoint correct_digit (i : nat) (cdividend divisor : list Z) (q : Z) (Q T : list Z) : option (list Z * list Z) :=
  match i with
  | O => Some (Q, T)
  | S i' =>
      cmp ← compare_words_unsigned T cdividend ;
      if 0 <? cmp then
        Q ← from_int64 (int64 (q - 1)) ;
        T ← sub_words_unsigned T divisor ;
        correct_digit i' cdividend divisor (q - 1) (words_ Q) T
      else Some (Q, T)
  end.

(** The words of [dividend] from the pointer on; the quotient and the remainder.
    The recursion is at most one deep, [fuel] bounds it. *)
Fixpoint knuth_div_unsigned (fuel : nat) (dividend divisor quotient : list Z) (qidx : Z) : option (list Z * list Z) :=
  match fuel with
  | O => None
  | S fuel' =>
      let n := length divisor in
      ob_assert (HALF_BASE <=? zget 0 divisor (Z.of_nat n - 1)) ;;
      ob_assert ((0 <=? qidx) && (qidx <? MAX_NWORDS)) ;;
      if (length dividend <? n + 1)%nat then None
      else
        let cdividend := take (n + 1) dividend in
        base ← from_int64 BASE ;
        p ← mul_words (words_ base) divisor ;
        let p := remove_leading_zeroes_unsigned p in
        cmp ← compare_words_unsigned cdividend p ;
        if 0 <=? cmp then
          cdividend ← sub_words_unsigned cdividend p ;
          '(quotient, remainder) ← knuth_div_unsigned fuel' cdividend divisor quotient qidx ;
          Some (zset quotient (qidx + 1) 1, remainder)
        else
          let q := u64 (u64 (BASE * zget 0 dividend (Z.of_nat n)) + zget 0 dividend (Z.of_nat n - 1)) /
                   zget 0 divisor (Z.of_nat n - 1) in
          let q := if BASE <=? q then BASE - 1 else q in
          Q ← from_int64 q ;
          T ← mul_words (words_ Q) divisor ;
          '(Q, T) ← correct_digit 2 cdividend divisor q (words_ Q) (remove_leading_zeroes_unsigned T) ;
          digit ← (if Z.of_nat (length Q) =? 1 then Some (zget 0 Q 0) else ob_assert (words_is_zero Q) ;; Some 0) ;
          remainder ← sub_words_unsigned cdividend T ;
          Some (zset quotient qidx digit, remainder)
  end.

(** ** Division *)

(** The loop of [div_words] over the positions [k - 1], .., 0: the remainder
    replaces the words it was taken from. *)
Fixpoint div_words_loop (k : nat) (cdividend cdivisor quotient remainder : list Z) : option (list Z * list Z) :=
  match k with
  | O => Some (quotient, remainder)
  | S i =>
      '(quotient, remainder) ← knuth_div_unsigned 2 (drop i cdividend) cdivisor quotient (Z.of_nat i) ;
      let n := length cdivisor in
      div_words_loop i (take i cdividend ++ take n remainder ++ drop (i + n) cdividend) cdivisor quotient remainder
  end.

(** Both results are positive. *)
Definition as_positive (ws : list Z) : list Z :=
  if HALF_BASE <=? zget 0 ws (Z.of_nat (length ws) - 1) then ws ++ [0] else ws.

(** The code of [mul_uint32] is not looked at. *)
Definition normalize (dividend divisor : list Z) : option (list Z * list Z) :=
  let top := zget 0 divisor (Z.of_nat (length divisor) - 1) in
  if top <? HALF_BASE then
    let factor := u32 (BASE / (top + 1)) in
    '(_, cdivisor) ← mul_uint32 divisor factor true ;
    '(_, cdividend) ← mul_uint32 dividend factor true ;
    ob_assert (HALF_BASE <=? zget 0 cdivisor (Z.of_nat (length cdivisor) - 1)) ;;
    Some (cdividend, cdivisor)
  else Some (dividend, divisor).

(** [quotient.words_] is all zero before the loop. *)
Definition div_words_knuth (dividend divisor : list Z) : option (list Z * list Z) :=
  '(cdividend, cdivisor) ← normalize dividend divisor ;
  let m := length cdividend in
  let n := length cdivisor in
  if (m <? n)%nat then Some ([0], dividend)
  else if (m =? n)%nat then
    cmp ← compare_words_unsigned cdividend cdivisor ;
    if cmp <? 0 then Some ([0], dividend)
    else remainder ← sub_words_unsigned cdividend cdivisor ; Some ([1], remainder)
  else div_words_loop (m - n) cdividend cdivisor (replicate (m - n + 1) 0) [].

Definition div_words (dividend divisor : list Z) : option (list Z * list Z) :=
  ob_assert (negb (words_is_zero dividend)) ;;
  ob_assert (negb (words_is_zero divisor)) ;;
  assert_nwords dividend ;;
  assert_nwords divisor ;;
  '(quotient, remainder) ←
    (if (length divisor =? 1)%nat then div_uint32 dividend (zget 0 divisor 0) else div_words_knuth dividend divisor) ;
  Some (as_positive quotient, as_positive remainder).

Definition div (n1 other res : ObNumber) : option (Z * ObNumber) :=
  let res := set_zero res in
  if is_zero other then Some (OB_DIVISION_BY_ZERO, res)
  else if is_zero n1 then Some (OB_SUCCESS, res)
  else
    let neg1 := is_negative n1 in
    dividend ← (if neg1 then negate n1 else Some n1) ;
    dividend ← round_if_over dividend DOUBLE_PRECISION_NDIGITS ;
    divisor ← round_if_over other SINGLE_PRECISION_NDIGITS ;
    '(ret, dividend) ←
      (if (vscale_ dividend <? vscale_ divisor) || (vscale_ dividend - vscale_ divisor <? QUOTIENT_SCALE)
       then left_shift dividend (int8 (QUOTIENT_SCALE + vscale_ divisor - vscale_ dividend)) true
       else Some (OB_SUCCESS, dividend)) ;
    if ret =? OB_SUCCESS then
      let neg2 := is_negative divisor in
      divisor ← (if neg2 then negate divisor else Some divisor) ;
      '(quotient, _) ← div_words (words_ dividend) (remove_leading_zeroes_unsigned (words_ divisor)) ;
      ws ← (if xorb neg1 neg2 then negate_words quotient else Some quotient) ;
      Some (ret, mkNumber QUOTIENT_SCALE (remove_leading_zeroes ws))
    else Some (ret, mkNumber QUOTIENT_SCALE (words_ res)).

(** ** Unsigned arithmetic *)

Lemma zget_nat (ws : list Z) (i : nat) : zget 0 ws (Z.of_nat i) = default 0 (ws !! i).
Proof. unfold zget. by rewrite Nat2Z.id. Qed.

Lemma zget_wf ws i : words_wf ws -> 0 <= zget 0 ws i < BASE.
Proof.
  intros W. unfold zget.
  destruct (ws !! Z.to_nat i) eqn:E; [| done]. exact (Forall_lookup_1 _ _ _ _ W E).
Qed.

Lemma uval_take_S i ws :
  uval (take (S i) ws) = uval (take i ws) + BASE ^ Z.of_nat i * zget 0 ws (Z.of_nat i).
Proof.
  rewrite zget_nat. destruct (ws !! i) as [w |] eqn:E; simpl.
  - rewrite (take_S_r _ _ _ E), uval_app. unfold modulus. apply lookup_lt_Some in E.
    rewrite length_take_le by lia. simpl. lia.
  - apply lookup_ge_None in E. rewrite !take_ge by lia. lia.
Qed.

Lemma uval_take_bounds i ws : words_wf ws -> 0 <= uval (take i ws) < BASE ^ Z.of_nat i.
Proof.
  intros W. pose proof (uval_bounds (take i ws) ltac:(by apply Forall_take)) as Hb. split; [lia |].
  eapply Z.lt_le_trans; [apply Hb |]. apply Z.pow_le_mono_r; [done |].
  rewrite length_take. lia.
Qed.

Lemma uval_take_drop i ws : (i <= length ws)%nat ->
  uval ws = uval (take i ws) + BASE ^ Z.of_nat i * uval (drop i ws).
Proof.
  intros L. rewrite <- (take_drop i ws) at 1. rewrite uval_app. unfold modulus.
  by rewrite length_take_le.
Qed.

Lemma uval_take_small i ws : words_wf ws -> (i <= length ws)%nat -> uval ws < BASE ^ Z.of_nat i ->
  uval (take i ws) = uval ws.
Proof.
  intros W L Hs. pose proof (uval_take_drop i ws L). pose proof (uval_take_bounds i ws W).
  pose proof (uval_bounds (drop i ws) ltac:(by apply Forall_drop)).
  assert (uval (drop i ws) < 1) by nia. nia.
Qed.

(** The comparison is that of the values, whatever the numbers of words. *)
Lemma compare_unsigned_loop_spec i ws1 ws2 :
  words_wf ws1 -> words_wf ws2 ->
  compare_unsigned_loop i ws1 ws2 = Z.sgn (uval (take i ws1) - uval (take i ws2)).
Proof.
  intros W1 W2. induction i as [| i IH]; [done |]. cbn [compare_unsigned_loop].
  rewrite !uval_take_S, IH. pose proof (uval_take_bounds i ws1 W1). pose proof (uval_take_bounds i ws2 W2).
  pose proof (zget_wf ws1 (Z.of_nat i) W1). pose proof (zget_wf ws2 (Z.of_nat i) W2).
  assert ((length ws1 <= i)%nat -> zget 0 ws1 (Z.of_nat i) = 0)
    by (intros L; by rewrite zget_nat, lookup_ge_None_2).
  assert ((length ws2 <= i)%nat -> zget 0 ws2 (Z.of_nat i) = 0)
    by (intros L; by rewrite zget_nat, lookup_ge_None_2).
  set (w1 := zget 0 ws1 _) in *. set (w2 := zget 0 ws2 _) in *. set (P := BASE ^ _) in *.
  assert (w2 < w1 -> P * w2 + P <= P * w1) by nia.
  assert (w1 < w2 -> P * w1 + P <= P * w2) by nia.
  assert (w1 = w2 -> P * w1 = P * w2) by (by intros ->).
  destruct (Nat.ltb_spec i (length ws1)), (Nat.leb_spec (length ws2) i), (Nat.ltb_spec i (length ws2)),
    (Nat.leb_spec (length ws1) i); try lia; cbn [andb];
    repeat (case_match; rewrite ?Z.ltb_lt, ?Z.ltb_ge, ?Z.eqb_eq, ?Z.eqb_neq in *); lia.
Qed.

Lemma compare_words_unsigned_spec ws1 ws2 :
  words_wf ws1 -> words_wf ws2 ->
  Z.of_nat (length ws1) <= MAX_NWORDS -> Z.of_nat (length ws2) <= MAX_NWORDS ->
  compare_words_unsigned ws1 ws2 = Some (Z.sgn (uval ws1 - uval ws2)).
Proof.
  intros W1 W2 L1 L2. unfold compare_words_unsigned, ob_assert.
  rewrite (proj2 (Z.leb_le _ _) L1), (proj2 (Z.leb_le _ _) L2). cbn [andb mbind option_bind].
  by rewrite compare_unsigned_loop_spec, !take_ge by (done || lia).
Qed.

Lemma sub_step_spec b0 b n rest :
  - BASE <= b < BASE ->
  (forall c, -1 <= c <= 0 -> words_wf (rest c) /\ length (rest c) = n /\
     exists k, -1 <= k <= 0 /\ uval (rest c) + k * BASE ^ Z.of_nat n = b0 + c) ->
  words_wf (sub_step b rest) /\ length (sub_step b rest) = S n /\
  exists k, -1 <= k <= 0 /\ uval (sub_step b rest) + k * BASE ^ Z.of_nat (S n) = BASE * b0 + b.
Proof.
  intros Hb Hr. unfold sub_step. rewrite Nat2Z.inj_succ, Z.pow_succ_r by lia.
  destruct (Z.ltb_spec b 0); [destruct (Hr (-1)) as (R1 & R2 & k & R3 & R4)
                             |destruct (Hr 0) as (R1 & R2 & k & R3 & R4)]; try lia;
    rewrite u32_small by lia; (split; [by constructor; [lia |] |]); (split; [by rewrite <- R2 |]);
    exists k; (split; [done |]); cbn [uval]; nia.
Qed.

Lemma sub_unsigned_loop_spec ws1 ws2 b :
  words_wf ws1 -> words_wf ws2 -> -1 <= b <= 0 ->
  let r := sub_unsigned_loop b ws1 ws2 in
  words_wf r /\ length r = (length ws1 `max` length ws2)%nat /\
  exists k, -1 <= k <= 0 /\ uval r + k * BASE ^ Z.of_nat (length ws1 `max` length ws2) = uval ws1 - uval ws2 + b.
Proof.
  intros W1. revert ws2 b. induction W1 as [| w1 ws1 H1 W1 IH]; intros ws2 b W2.
  - revert b. induction W2 as [| w2 ws2 H2 W2 IH]; intros b Hb.
    { split_and!; [constructor | done |]. exists b. split; [done |]. simpl. lia. }
    cbn [sub_unsigned_loop length uval] in *. rewrite !Nat.max_0_l in *.
    replace (0 - (w2 + BASE * uval ws2) + b) with (BASE * (0 - uval ws2) + (b - w2)) by ring.
    apply sub_step_spec; [lia |]. intros c Hc. by apply IH.
  - intros Hb. destruct W2 as [| w2 ws2 H2 W2]; cbn [sub_unsigned_loop length uval] in *.
    + replace (w1 + BASE * uval ws1 - 0 + b) with (BASE * (uval ws1 - uval []) + (b + w1)) by (simpl; ring).
      rewrite Nat.max_0_r. apply sub_step_spec; [unfold BASE in *; lia |]. intros c Hc.
      specialize (IH [] c (Forall_nil_2 _) Hc). by rewrite Nat.max_0_r in IH.
    + replace (w1 + BASE * uval ws1 - (w2 + BASE * uval ws2) + b)
        with (BASE * (uval ws1 - uval ws2) + (b + w1 - w2)) by ring.
      rewrite <- Nat.succ_max_distr. apply sub_step_spec; [lia |]. intros c Hc. by apply IH.
Qed.

Lemma sub_words_unsigned_spec ws1 ws2 :
  words_wf ws1 -> words_wf ws2 ->
  Z.of_nat (length ws1) <= MAX_NWORDS -> Z.of_nat (length ws2) <= MAX_NWORDS ->
  uval ws2 <= uval ws1 ->
  exists r, sub_words_unsigned ws1 ws2 = Some r /\ words_wf r /\
    length r = (length ws1 `max` length ws2)%nat /\ uval r = uval ws1 - uval ws2.
Proof.
  intros W1 W2 L1 L2 Hle. unfold sub_words_unsigned, ob_assert.
  rewrite (proj2 (Z.leb_le _ _) L1), (proj2 (Z.leb_le _ _) L2). cbn [andb mbind option_bind].
  destruct (sub_unsigned_loop_spec ws1 ws2 0 W1 W2 ltac:(lia)) as (R1 & R2 & k & R3 & R4).
  eexists. split_and!; [done | done | done |].
  pose proof (uval_bounds _ R1) as Hb. unfold modulus in Hb. rewrite R2 in Hb.
  assert (k = -1 \/ k = 0) as [-> | ->] by lia; lia.
Qed.

Lemma remove_zeroes_unsigned_snoc ws w w' :
  remove_leading_zeroes_unsigned ((ws ++ [w']) ++ [w]) =
  if 0 =? w then remove_leading_zeroes_unsigned (ws ++ [w']) else (ws ++ [w']) ++ [w].
Proof.
  unfold remove_leading_zeroes_unsigned. rewrite (rev_app_distr (ws ++ [w']) [w]), (rev_app_distr ws [w']).
  cbn [rev app remove_zeroes_unsigned_rev]. destruct (0 =? w); [done |]. simpl. by rewrite rev_involutive.
Qed.

Definition top_word (ws : list Z) : Z := zget 0 ws (Z.of_nat (length ws) - 1).

Lemma top_word_snoc ws w : top_word (ws ++ [w]) = w.
Proof.
  unfold top_word. rewrite length_app. replace (_ - 1) with (Z.of_nat (length ws)) by (simpl; lia).
  by rewrite zget_nat, lookup_app_r, Nat.sub_diag by lia.
Qed.

Lemma remove_leading_zeroes_unsigned_spec ws :
  words_wf ws -> ws <> [] ->
  let r := remove_leading_zeroes_unsigned ws in
  words_wf r /\ r <> [] /\ (length r <= length ws)%nat /\ uval r = uval ws /\
  (length r = 1%nat \/ 0 < top_word r).
Proof.
  intros Hwf Hne. revert Hwf. pattern ws. revert ws Hne. apply words_snoc_ind.
  { intros w Hwf. split_and!; [done | done | done | done | by left]. }
  intros ws w w' IH Hwf. cbv zeta in *. rewrite remove_zeroes_unsigned_snoc.
  apply Forall_app in Hwf as Hwf'. destruct Hwf' as [Hwf1 Hw]. apply Forall_cons in Hw as [Hw _].
  destruct (Z.eqb_spec 0 w) as [<- | Hz].
  - destruct (IH Hwf1) as (H1 & H2 & H3 & H4 & H5).
    split_and!; [done | done | rewrite length_app; lia | | done].
    rewrite H4, (uval_app _ [0]). simpl. lia.
  - split_and!; [done | by destruct ws | done | done |]. right. rewrite top_word_snoc. lia.
Qed.

(** A number as its top word and the rest. *)
Lemma uval_top ws : words_wf ws -> ws <> [] ->
  uval ws = uval (take (length ws - 1) ws) + BASE ^ (Z.of_nat (length ws) - 1) * top_word ws.
Proof.
  intros W Hne. pose proof (ne_length _ Hne). unfold top_word.
  replace (Z.of_nat (length ws) - 1) with (Z.of_nat (length ws - 1)) by lia.
  rewrite <- uval_take_S, take_ge by lia. done.
Qed.

Lemma uval_top_bounds ws : words_wf ws -> ws <> [] ->
  BASE ^ (Z.of_nat (length ws) - 1) * top_word ws <= uval ws <
  BASE ^ (Z.of_nat (length ws) - 1) * (top_word ws + 1).
Proof.
  intros W Hne. rewrite (uval_top ws W Hne). pose proof (ne_length _ Hne).
  pose proof (uval_take_bounds (length ws - 1) ws W) as Hb.
  replace (Z.of_nat (length ws - 1)) with (Z.of_nat (length ws) - 1) in Hb by lia.
  rewrite Z.mul_add_distr_l, Z.mul_1_r. lia.
Qed.

(** ** One digit of the quotient *)

(** Theorem B of section 4.3.1: for a divisor [v] whose leading digit [v1] is
    at least half the base, the estimate from the leading digits is never too
    small and at most two too large.  [P] is the weight of [v1]. *)
Lemma digit_estimate B P u v u1 v1 :
  0 < P -> 2 <= B -> B <= 2 * v1 -> v1 < B ->
  v1 * P <= v < (v1 + 1) * P -> u1 * P <= u < (u1 + 1) * P -> 0 <= u < B * v ->
  let q := Z.min (u1 / v1) (B - 1) in
  u / v <= q <= u / v + 2.
Proof.
  intros HP HB Hv1 Hv1' Hv Hu Hlt q. assert (Hvp : 0 < v) by nia.
  assert (Hq1 : u / v < B) by (apply Z.div_lt_upper_bound; lia).
  assert (Hq0 : 0 <= u / v) by (apply Z.div_pos; lia).
  pose proof (Z.div_mod u v ltac:(lia)) as Hd. pose proof (Z.mod_pos_bound u v Hvp) as Hm.
  set (d := u / v) in *. split.
  - apply Z.min_glb; [| lia]. apply Z.div_le_lower_bound; [lia |].
    assert (v1 * d * P <= u) by nia. assert (v1 * d < u1 + 1) by nia. lia.
  - assert (Hqv : q * v1 <= u1).
    { pose proof (Z.mul_div_le u1 v1 ltac:(lia)). assert (q <= u1 / v1) by apply Z.le_min_l. nia. }
    assert (HqB : q <= B - 1) by apply Z.le_min_r.
    destruct (Z.le_gt_cases q (d + 2)) as [| Hgt]; [done | exfalso].
    assert (q * v1 * P <= u) by nia. assert (q * (v - P) <= q * v1 * P) by nia.
    assert (2 * v < q * P) by nia. nia.
Qed.

(** The factor of the normalisation brings the leading digit over half the base. *)
Lemma normal_factor B t : 0 < B -> 1 <= t -> 2 * t < 2 * B -> t < B ->
  let f := 2 * B / (t + 1) in B <= f * t /\ f * (t + 1) <= 2 * B /\ 2 <= f <= B.
Proof.
  intros HB Ht H2 Hlt f. pose proof (Z.div_mod (2 * B) (t + 1) ltac:(lia)) as Hd.
  pose proof (Z.mod_pos_bound (2 * B) (t + 1) ltac:(lia)) as Hm.
  change (2 * B / (t + 1)) with f in Hd. set (x := t + 1) in *.
  assert (Hx : 2 <= x <= B) by lia. replace t with (x - 1) by lia.
  assert (Hf : 2 * B - x + 1 <= f * x) by lia.
  split_and!; [| lia | |].
  - destruct (Z.le_gt_cases B (f * (x - 1))) as [| Hgt]; [done | exfalso].
    assert ((x - 2) * (B - x) >= 0) by nia.
    assert (x * (f * (x - 1)) <= x * (B - 1)) by nia.
    assert ((x - 1) * (2 * B - x + 1) <= (x - 1) * (f * x)) by nia. nia.
  - apply Z.div_le_lower_bound; lia.
  - apply Z.div_le_upper_bound; nia.
Qed.

Lemma from_int64_small i : 0 <= i < BASE -> from_int64 i = Some (mkNumber 0 [i]).
Proof.
  intros Hi. destruct (from_int64_spec i) as (ws & -> & W & L & U); [unfold BASE in *; lia |].
  rewrite (proj2 (Z.ltb_lt _ _)) in L by lia. destruct ws as [| w [|]]; try done.
  unfold modulus in U. cbn [length] in U. change (BASE ^ Z.of_nat 1) with BASE in U.
  rewrite Z.mod_small in U by done. cbn [uval] in U. do 3 f_equal. lia.
Qed.

Lemma uval_insert (ws : list Z) (i : nat) x : (i < length ws)%nat ->
  uval (<[i := x]> ws) = uval ws + BASE ^ Z.of_nat i * (x - zget 0 ws (Z.of_nat i)).
Proof.
  rewrite zget_nat. revert i. induction ws as [| w ws IH]; intros [| i] L; cbn [length] in L; [lia | lia | simpl; lia |].
  change (<[S i := x]> (w :: ws)) with (w :: <[i := x]> ws). cbn [uval]. rewrite IH by lia.
  rewrite Nat2Z.inj_succ, Z.pow_succ_r by lia. change ((w :: ws) !! S i) with (ws !! i). lia.
Qed.

Lemma words_wf_insert (ws : list Z) (i : nat) x : words_wf ws -> 0 <= x < BASE -> words_wf (<[i := x]> ws).
Proof. intros W Hx. by apply Forall_insert. Qed.

(** At most [i] corrections reach the digit. *)
Lemma correct_digit_spec i cdividend divisor q T :
  words_wf cdividend -> words_wf divisor -> words_wf T -> 0 < uval divisor ->
  Z.of_nat (length cdividend) <= MAX_NWORDS -> Z.of_nat (length T) <= MAX_NWORDS ->
  Z.of_nat (length divisor) <= MAX_NWORDS ->
  0 <= q < BASE -> uval T = q * uval divisor ->
  let d := uval cdividend / uval divisor in
  d <= q <= d + Z.of_nat i ->
  exists T', correct_digit i cdividend divisor q [q] T = Some ([d], T') /\ words_wf T' /\
    Z.of_nat (length T') <= MAX_NWORDS /\ uval T' = d * uval divisor.
Proof.
  intros Wc Wd WT Hd Lc LT Ld. revert q T WT LT. induction i as [| i IH]; intros q T WT LT Hq HT d Hi.
  { assert (q = d) as -> by lia. by exists T. }
  cbn [correct_digit]. rewrite compare_words_unsigned_spec by done. cbn [mbind option_bind].
  pose proof (uval_bounds cdividend Wc) as Hu.
  pose proof (Z.div_mod (uval cdividend) (uval divisor) ltac:(lia)) as Hdm.
  pose proof (Z.mod_pos_bound (uval cdividend) (uval divisor) Hd) as Hm. fold d in Hdm.
  assert (Hd0 : 0 <= d) by (apply Z.div_pos; lia).
  destruct (Z.ltb_spec 0 (Z.sgn (uval T - uval cdividend))) as [Hgt | Hle].
  2: { assert (q = d) as -> by nia. by exists T. }
  assert (Hqd : d < q) by nia. rewrite wraps_small by (unfold BASE in *; simpl; lia).
  rewrite from_int64_small by lia. cbn [mbind option_bind words_].
  destruct (sub_words_unsigned_spec T divisor WT Wd LT Ld) as (T1 & -> & W1 & L1 & U1); [nia |].
  cbn [mbind option_bind]. apply IH; [done | lia | lia | lia | fold d; lia].
Qed.

Section Digit.
Context (divisor : list Z) (Wd : words_wf divisor).
Context (Hn : (1 <= length divisor <= 6)%nat) (Htop : HALF_BASE <= top_word divisor).

Let n := length divisor.
Let v := uval divisor.

Lemma divisor_range : HALF_BASE * BASE ^ (Z.of_nat n - 1) <= v < BASE ^ Z.of_nat n.
Proof.
  assert (Hne : divisor <> []) by (destruct divisor; [simpl in Hn; lia | done]).
  pose proof (uval_top_bounds divisor Wd Hne) as Hb. pose proof (uval_bounds divisor Wd) as Hm.
  unfold modulus in Hm. fold n v in Hb, Hm. split; [| lia].
  assert (0 < BASE ^ (Z.of_nat n - 1)) by (apply Z.pow_pos_nonneg; [done | lia]). nia.
Qed.

Lemma divisor_pos : 0 < v.
Proof.
  pose proof divisor_range. assert (0 < BASE ^ (Z.of_nat n - 1)) by (apply Z.pow_pos_nonneg; [done | lia]).
  assert (0 < HALF_BASE) by done. nia.
Qed.

Lemma divisor_double : BASE ^ Z.of_nat n <= 2 * v.
Proof.
  pose proof divisor_range. replace (Z.of_nat n) with (Z.succ (Z.of_nat n - 1)) at 1 by lia.
  rewrite Z.pow_succ_r by lia. change BASE with (2 * HALF_BASE) at 1. lia.
Qed.

(** The estimate of the code is at most two too large. *)
Lemma estimate_spec dividend :
  words_wf dividend -> uval (take (n + 1) dividend) < BASE * v ->
  let u1 := BASE * zget 0 dividend (Z.of_nat n) + zget 0 dividend (Z.of_nat n - 1) in
  let q := u64 (u64 (BASE * zget 0 dividend (Z.of_nat n)) + zget 0 dividend (Z.of_nat n - 1)) / top_word divisor in
  let q := if BASE <=? q then BASE - 1 else q in
  let d := uval (take (n + 1) dividend) / v in
  0 <= q < BASE /\ d <= q <= d + 2.
Proof.
  intros W Hlt u1. pose proof (zget_wf dividend (Z.of_nat n) W). pose proof (zget_wf dividend (Z.of_nat n - 1) W).
  rewrite (u64_small (BASE * _)), u64_small by (unfold BASE in *; lia). fold u1. cbv zeta.
  pose proof (zget_wf divisor (Z.of_nat (length divisor) - 1) Wd) as Ht. fold (top_word divisor) in Ht.
  set (t := top_word divisor) in *. set (d := uval _ / v). set (P := BASE ^ (Z.of_nat n - 1)).
  assert (HP : 0 < P) by (apply Z.pow_pos_nonneg; [done | lia]).
  assert (Hu : uval (take (n + 1) dividend) = uval (take (n - 1) dividend) + P * u1).
  { replace (n + 1)%nat with (S n) by lia. rewrite uval_take_S.
    replace n with (S (n - 1)) at 1 by lia. rewrite uval_take_S.
    replace (Z.of_nat (n - 1)) with (Z.of_nat n - 1) by lia. fold P. unfold u1.
    replace (BASE ^ Z.of_nat n) with (BASE * P); [ring |].
    unfold P. rewrite <- Z.pow_succ_r by lia. f_equal. lia. }
  pose proof (uval_take_bounds (n - 1) dividend W) as Hlow.
  replace (Z.of_nat (n - 1)) with (Z.of_nat n - 1) in Hlow by lia. fold P in Hlow.
  assert (Hne : divisor <> []) by (destruct divisor; [simpl in Hn; lia | done]).
  pose proof (uval_top_bounds divisor Wd Hne) as Hv. fold n v t P in Hv.
  pose proof (uval_bounds (take (n + 1) dividend) ltac:(by apply Forall_take)).
  destruct (digit_estimate BASE P (uval (take (n + 1) dividend)) v u1 t) as [E1 E2];
    [done | done | change BASE with (2 * HALF_BASE); lia | lia | lia | lia | lia |].
  fold d in E1, E2. assert (0 < HALF_BASE) by done.
  assert (0 <= u1) by (unfold u1; pose proof BASE_pos; nia).
  assert (0 <= u1 / t) by (apply Z.div_pos; lia).
  destruct (Z.leb_spec BASE (u1 / t)).
  - rewrite Z.min_r in E1, E2 by lia. assert (0 < BASE) by done. lia.
  - rewrite Z.min_l in E1, E2 by lia. lia.
Qed.

(** The guard of [knuth_div_unsigned] compares with the divisor times the base. *)
Lemma base_multiple :
  exists p, mul_words [0; 1] divisor = Some p /\
    let p := remove_leading_zeroes_unsigned p in
    words_wf p /\ Z.of_nat (length p) <= MAX_NWORDS /\ uval p = BASE * v.
Proof.
  assert (Hne : divisor <> []) by (destruct divisor; [simpl in Hn; lia | done]).
  destruct (mul_words_spec [0; 1] divisor) as (p & -> & P1 & P2 & P3 & _);
    [by repeat constructor | done | done | done | unfold MAX_NWORDS; simpl; lia |].
  exists p. split; [done |]. pose proof (nwords_ok_ne p P2).
  destruct (remove_leading_zeroes_unsigned_spec p P1) as (R1 & _ & R3 & R4 & _); [done |].
  unfold nwords_ok in P2. cbv zeta in *. split_and!; [done | lia |]. rewrite R4, P3. fold v. cbn [uval]. lia.
Qed.

(** What the call leaves: the quotient digit at [qidx] and the remainder. *)
Definition digit_result (quotient : list Z) (i : nat) (u : Z) (res : option (list Z * list Z)) : Prop :=
  exists q' r, res = Some (q', r) /\ words_wf q' /\ length q' = length quotient /\
    uval q' = uval quotient + BASE ^ Z.of_nat i * (u / v) /\
    (forall j, (j < i)%nat -> q' !! j = quotient !! j) /\
    (BASE * v <= u \/ q' = <[i := u / v]> quotient) /\
    words_wf r /\ (n <= length r)%nat /\ uval r = u mod v.

Lemma digit_assertions (i : nat) {A} (k : option A) :
  Z.of_nat i < MAX_NWORDS ->
  (ob_assert (HALF_BASE <=? zget 0 divisor (Z.of_nat n - 1)) ;;
   ob_assert ((0 <=? Z.of_nat i) && (Z.of_nat i <? MAX_NWORDS)) ;; k) = k.
Proof.
  intros Hi. change (zget 0 divisor _) with (top_word divisor).
  rewrite (proj2 (Z.leb_le _ _) Htop), (proj2 (Z.leb_le 0 _)), (proj2 (Z.ltb_lt _ _) Hi) by lia. done.
Qed.

Lemma knuth_digit fuel dividend quotient i :
  words_wf dividend -> (n + 1 <= length dividend)%nat ->
  words_wf quotient -> (i < length quotient)%nat -> quotient !! i = Some 0 -> Z.of_nat i < MAX_NWORDS ->
  uval (take (n + 1) dividend) < BASE * v ->
  digit_result quotient i (uval (take (n + 1) dividend))
    (knuth_div_unsigned (S fuel) dividend divisor quotient (Z.of_nat i)).
Proof.
  intros W L Wq Lq Hz Hi Hlt. cbn [knuth_div_unsigned]. fold n. rewrite digit_assertions by done.
  destruct (Nat.ltb_spec (length dividend) (n + 1)); [lia |].
  change (from_int64 BASE) with (Some (mkNumber 0 [0; 1])). cbn [mbind option_bind words_].
  destruct base_multiple as (p & -> & P1 & P2 & P3). cbn [mbind option_bind].
  set (cd := take (n + 1) dividend) in *. assert (Wc : words_wf cd) by (by apply Forall_take).
  assert (Lc : length cd = (n + 1)%nat) by (apply length_take_le; lia).
  assert (HL : Z.of_nat (length cd) <= MAX_NWORDS) by (unfold MAX_NWORDS; lia).
  rewrite compare_words_unsigned_spec by done. cbn [mbind option_bind]. rewrite P3.
  destruct (Z.leb_spec 0 (Z.sgn (uval cd - BASE * v))); [lia |].
  change (zget 0 divisor (Z.of_nat n - 1)) with (top_word divisor).
  destruct (estimate_spec dividend W Hlt) as [Hq He]. set (q := if BASE <=? _ then _ else _) in *.
  rewrite from_int64_small by done. cbn [mbind option_bind words_].
  assert (Hne : divisor <> []) by (destruct divisor; [simpl in Hn; lia | done]).
  destruct (mul_words_spec [q] divisor) as (T & -> & T1 & T2 & T3 & _);
    [by apply Forall_singleton | done | done | done | unfold MAX_NWORDS; simpl; lia |].
  cbn [mbind option_bind]. pose proof (nwords_ok_ne T T2) as HTne.
  destruct (remove_leading_zeroes_unsigned_spec T T1 HTne) as (R1 & _ & R3 & R4 & _).
  destruct (correct_digit_spec 2 cd divisor q (remove_leading_zeroes_unsigned T)) as (T' & -> & U1 & U2 & U3);
    [done | done | done | apply divisor_pos | done | unfold nwords_ok in T2; lia | unfold MAX_NWORDS; lia | done
    | rewrite R4, T3; cbn [uval]; lia | fold cd v in He; fold v; lia |].
  cbn [mbind option_bind length]. change (zget 0 [?x] 0) with x. fold v in U3 |- *. pose proof divisor_pos.
  pose proof (Z.mul_div_le (uval cd) v ltac:(lia)).
  destruct (sub_words_unsigned_spec cd T' Wc U1 HL U2) as (r & -> & S1 & S2 & S3); [lia |].
  cbn [mbind option_bind]. unfold zset. rewrite Nat2Z.id. fold cd v in He.
  assert (0 <= uval cd / v) by (apply Z.div_pos; [by apply uval_bounds | lia]).
  exists (<[i := uval cd / v]> quotient), r. split_and!; [done | apply words_wf_insert; [done | lia]
  | by rewrite length_insert | | | by right | done | lia |].
  - rewrite uval_insert, zget_nat, Hz by done. cbn. lia.
  - intros j Hj. apply list_lookup_insert_ne. lia.
  - rewrite S3, U3, Z.mod_eq by lia. lia.
Qed.

(** A window whose quotient does not fit in one word: the next word becomes 1. *)
Lemma knuth_window fuel dividend quotient i :
  words_wf dividend -> (n + 1 <= length dividend)%nat ->
  words_wf quotient -> (i < length quotient)%nat -> quotient !! i = Some 0 -> Z.of_nat i < MAX_NWORDS ->
  (BASE * v <= uval (take (n + 1) dividend) -> quotient !! S i = Some 0) ->
  digit_result quotient i (uval (take (n + 1) dividend))
    (knuth_div_unsigned (S (S fuel)) dividend divisor quotient (Z.of_nat i)).
Proof.
  intros W L Wq Lq Hz Hi Hover.
  destruct (Z.le_gt_cases (BASE * v) (uval (take (n + 1) dividend))) as [Hge | Hlt];
    [| by apply knuth_digit].
  specialize (Hover Hge). pose proof divisor_double as Hdv. pose proof divisor_pos.
  pose proof (uval_take_bounds (n + 1) dividend W) as Hb. pose proof Hb as Hb0.
  replace (Z.of_nat (n + 1)) with (Z.succ (Z.of_nat n)) in Hb by lia. rewrite Z.pow_succ_r in Hb by lia.
  remember (S fuel) as f eqn:Hf. cbn [knuth_div_unsigned]. fold n. rewrite digit_assertions by done.
  destruct (Nat.ltb_spec (length dividend) (n + 1)); [lia |].
  change (from_int64 BASE) with (Some (mkNumber 0 [0; 1])). cbn [mbind option_bind words_].
  destruct base_multiple as (p & -> & P1 & P2 & P3). cbn [mbind option_bind].
  set (cd := take (n + 1) dividend) in *. assert (Wc : words_wf cd) by (by apply Forall_take).
  assert (Lc : length cd = (n + 1)%nat) by (apply length_take_le; lia).
  assert (HL : Z.of_nat (length cd) <= MAX_NWORDS) by (unfold MAX_NWORDS; lia).
  rewrite compare_words_unsigned_spec by done. cbn [mbind option_bind]. rewrite P3.
  rewrite (proj2 (Z.leb_le 0 (Z.sgn _))) by (apply Z.sgn_nonneg; lia).
  destruct (sub_words_unsigned_spec cd _ Wc P1 HL P2) as (c & -> & C1 & C2 & C3); [by rewrite P3 |].
  cbn [mbind option_bind]. subst f. rewrite P3 in C3.
  assert (Hc : uval (take (n + 1) c) = uval cd - BASE * v).
  { rewrite uval_take_small; [done | done | lia |]. pose proof BASE_pos. nia. }
  destruct (knuth_digit fuel c quotient i) as (q' & r & -> & Q1 & Q2 & Q3 & Q4 & Q5 & Q6 & Q7 & Q8);
    [done | lia | done | done | done | done | pose proof BASE_pos; nia |].
  cbn [mbind option_bind]. rewrite Hc in *. unfold zset.
  replace (Z.to_nat (Z.of_nat i + 1)) with (S i) by lia.
  assert (E : uval cd = (uval cd - BASE * v) + BASE * v) by lia.
  destruct Q5 as [Q5 | Q5]; [pose proof BASE_pos; nia |].
  assert (HS : (S i < length q')%nat) by (rewrite Q2; by apply lookup_lt_Some in Hover).
  exists (<[S i := 1]> q'), r. split_and!; [done | by apply words_wf_insert | by rewrite length_insert | | | by left
  | done | done |].
  - rewrite uval_insert, Q3, zget_nat, Q5, list_lookup_insert_ne, Hover by (done || lia). cbn [default].
    rewrite Nat2Z.inj_succ, Z.pow_succ_r by lia. rewrite E at 2. rewrite Z.div_add by lia. cbn. ring.
  - intros j Hj. rewrite list_lookup_insert_ne by lia. by apply Q4.
  - rewrite Q8. rewrite E at 2. by rewrite Z.mod_add by lia.
Qed.

(** One turn of the loop of [div_words]. *)
Lemma div_words_turn i cdividend quotient remainder :
  words_wf cdividend -> (S i + n <= length cdividend)%nat ->
  words_wf quotient -> Z.of_nat i < MAX_NWORDS ->
  (forall j, (j < S i)%nat -> quotient !! j = Some 0) ->
  (BASE * v <= uval (take (n + 1) (drop i cdividend)) -> quotient !! S i = Some 0) ->
  exists cdividend' quotient' remainder',
    div_words_loop (S i) cdividend divisor quotient remainder =
    div_words_loop i cdividend' divisor quotient' remainder' /\
    words_wf cdividend' /\ length cdividend' = length cdividend /\
    uval (take n (drop i cdividend')) < v /\
    words_wf quotient' /\ length quotient' = length quotient /\
    (forall j, (j < i)%nat -> quotient' !! j = Some 0) /\
    uval quotient' + uval (take (i + n) cdividend') / v =
    uval quotient + uval (take (S i + n) cdividend) / v.
Proof.
  intros W L Wq Hi Hz Hover. pose proof divisor_pos as Hv. pose proof (lookup_lt_Some _ _ _ (Hz i ltac:(lia))) as Hiq.
  assert (Wd' : words_wf (drop i cdividend)) by (by apply Forall_drop).
  destruct (knuth_window 0 (drop i cdividend) quotient i) as (q' & r & Ek & Q1 & Q2 & Q3 & Q4 & _ & R1 & R2 & R3);
    [done | rewrite length_drop; lia | done | done | apply Hz; lia | done | done |].
  cbn [div_words_loop]. rewrite Ek. cbn [mbind option_bind]. fold n.
  set (u := uval (take (n + 1) (drop i cdividend))) in *.
  pose proof (Z.mod_pos_bound u v Hv) as Hm.
  assert (Hr : uval (take n r) = u mod v).
  { pose proof divisor_range. rewrite uval_take_small by (done || lia). done. }
  assert (Ln : length (take n r) = n) by (by apply length_take_le).
  assert (Li : length (take i cdividend) = i) by (apply length_take_le; lia).
  exists (take i cdividend ++ take n r ++ drop (i + n) cdividend), q', r.
  split_and!; [done | by repeat first [apply Forall_app; split | apply Forall_take | apply Forall_drop] | | | done
  | done | intros j Hj; rewrite Q4 by done; apply Hz; lia |].
  - rewrite !length_app, Li, Ln, length_drop. lia.
  - rewrite drop_app_length' by lia. rewrite take_app_length' by lia. lia.
  - rewrite app_assoc, take_app_length' by (rewrite length_app; lia). rewrite uval_app, Hr, Q3. unfold modulus.
    rewrite Li. set (P := BASE ^ Z.of_nat i).
    assert (Ht : uval (take (S i + n) cdividend) = uval (take i cdividend) + P * u).
    { rewrite (uval_take_drop i (take _ _)) by (rewrite length_take; lia).
      rewrite take_take, Nat.min_l by lia. rewrite skipn_firstn_comm. unfold u, P. do 4 f_equal. lia. }
    rewrite Ht. pose proof (Z.div_mod u v ltac:(lia)) as Hd. rewrite Hd at 3.
    replace (_ + P * (_ + _)) with (uval (take i cdividend) + P * (u mod v) + P * (u / v) * v) by ring.
    rewrite Z.div_add by lia. lia.
Qed.

(** The turns after the first: the words above position [k] are a remainder. *)
Lemma div_words_loop_spec k cdividend quotient remainder :
  words_wf cdividend -> (k + n <= length cdividend)%nat ->
  words_wf quotient -> Z.of_nat k <= MAX_NWORDS ->
  (forall j, (j < k)%nat -> quotient !! j = Some 0) ->
  uval (take n (drop k cdividend)) < v ->
  exists quotient' remainder', div_words_loop k cdividend divisor quotient remainder = Some (quotient', remainder') /\
    words_wf quotient' /\ length quotient' = length quotient /\
    uval quotient' = uval quotient + uval (take (k + n) cdividend) / v.
Proof.
  revert cdividend quotient remainder.
  induction k as [| i IH]; intros cdividend quotient remainder W L Wq Hk Hz Hr.
  { exists quotient, remainder. split_and!; try done. rewrite Z.div_small; [lia |].
    split; [by apply uval_take_bounds | done]. }
  destruct (div_words_turn i cdividend quotient remainder) as (c & q & r & -> & C1 & C2 & C3 & Q1 & Q2 & Q3 & Q4);
    [done | lia | done | lia | done | |].
  - intros Hge. exfalso. destruct (lookup_lt_is_Some_2 cdividend i) as [w Hw]; [lia |].
    rewrite (drop_S _ w i Hw), Nat.add_1_r in Hge. cbn [take uval] in Hge.
    pose proof (Forall_lookup_1 _ _ _ _ W Hw). simpl in *. nia.
  - destruct (IH c q r) as (q' & r' & -> & I1 & I2 & I3); [done | lia | done | lia | done | done |].
    exists q', r'. split_and!; [done | done | lia | lia].
Qed.

Lemma div_words_loop_top cdividend :
  words_wf cdividend -> (n < length cdividend)%nat -> Z.of_nat (length cdividend) <= MAX_NWORDS ->
  let k := (length cdividend - n)%nat in
  exists quotient remainder, div_words_loop k cdividend divisor (replicate (k + 1) 0) [] = Some (quotient, remainder) /\
    words_wf quotient /\ length quotient = (k + 1)%nat /\ uval quotient = uval cdividend / v.
Proof.
  intros W L HL k. assert (Hk : k = S (k - 1)) by lia. revert Hk. generalize (k - 1)%nat. intros i Hk.
  rewrite Hk. unfold MAX_NWORDS in *.
  destruct (div_words_turn i cdividend (replicate (S i + 1) 0) [])
    as (c & q & r & -> & C1 & C2 & C3 & Q1 & Q2 & Q3 & Q4);
    [done | lia | by apply Forall_replicate | unfold MAX_NWORDS; lia
    | intros j Hj; apply lookup_replicate_2; lia | intros _; apply lookup_replicate_2; lia |].
  destruct (div_words_loop_spec i c q r) as (q' & r' & -> & I1 & I2 & I3);
    [done | lia | done | unfold MAX_NWORDS; lia | done | done |].
  exists q', r'. rewrite uval_replicate_0, (take_ge cdividend) in Q4 by lia. rewrite length_replicate in Q2.
  split_and!; [done | done | lia | lia].
Qed.

End Digit.

(** ** Division *)

Lemma as_positive_spec ws :
  words_wf ws -> ws <> [] ->
  words_wf (as_positive ws) /\ uval (as_positive ws) = uval ws /\ sval (as_positive ws) = uval ws /\
  (length ws <= length (as_positive ws) <= S (length ws))%nat /\ (sval ws = uval ws -> as_positive ws = ws).
Proof.
  intros W Hne. unfold as_positive. fold (top_word ws).
  destruct ws as [| w ws _] using rev_ind; [done |]. rewrite top_word_snoc.
  apply Forall_app in W as W'. destruct W' as [_ Hw%Forall_cons_1]. destruct Hw as [Hw _].
  assert (Hs : words_is_negative (ws ++ [w]) = (HALF_BASE <=? w))
    by (rewrite words_is_negative_snoc; by apply sign_bit_spec).
  unfold sval at 2. rewrite Hs. pose proof (modulus_pos (ws ++ [w])).
  destruct (HALF_BASE <=? w) eqn:E.
  - assert (U : uval ((ws ++ [w]) ++ [0]) = uval (ws ++ [w])) by (rewrite (uval_app _ [0]); simpl; lia).
    split_and!; [by apply Forall_app; split; [| by apply Forall_singleton] | done | | rewrite (length_app _ [0]); simpl; lia
    | rewrite (length_app _ [0]); simpl; lia | lia].
    unfold sval. by rewrite words_is_negative_snoc.
  - split_and!; try done; [| lia ..]. unfold sval. by rewrite Hs.
Qed.

(** Scaling by the factor keeps the quotient and the number of words of the divisor. *)
Lemma normalize_spec dividend divisor :
  words_wf dividend -> nwords_ok dividend -> Z.of_nat (length dividend) <= MAX_NWORDS - 1 ->
  words_wf divisor -> nwords_ok divisor -> 0 < top_word divisor ->
  uval dividend * 2 ^ 31 < BASE ^ (MAX_NWORDS - 1) ->
  exists f cdividend cdivisor, normalize dividend divisor = Some (cdividend, cdivisor) /\ 0 < f /\
    words_wf cdividend /\ (1 <= length cdividend)%nat /\ Z.of_nat (length cdividend) <= MAX_NWORDS - 1 /\
    words_wf cdivisor /\ length cdivisor = length divisor /\ HALF_BASE <= top_word cdivisor /\
    uval cdividend = f * uval dividend /\ uval cdivisor = f * uval divisor.
Proof.
  intros W N L Wd Nd Ht Hfit. unfold normalize. fold (top_word divisor). set (t := top_word divisor) in *.
  destruct (Z.ltb_spec t HALF_BASE) as [Hlt | Hge].
  2: { exists 1, dividend, divisor. unfold nwords_ok in *. split_and!; (done || lia). }
  destruct (normal_factor HALF_BASE t) as (F1 & F2 & F3); [done | lia | lia | done |].
  change (2 * HALF_BASE) with BASE in *. set (f := BASE / (t + 1)) in *.
  assert (Hf : 0 <= f <= 2 ^ 31) by (change HALF_BASE with (2 ^ 31) in F3; lia).
  rewrite u32_small by (unfold BASE; lia).
  pose proof (nwords_ok_ne divisor Nd) as Hne. pose proof (uval_top_bounds divisor Wd Hne) as Hb. fold t in Hb.
  set (P := BASE ^ (Z.of_nat (length divisor) - 1)) in *.
  assert (HP : 0 < P) by (apply Z.pow_pos_nonneg; [done | unfold nwords_ok in Nd; lia]).
  assert (HM : modulus divisor = BASE * P).
  { unfold modulus, P. rewrite <- Z.pow_succ_r by (unfold nwords_ok in Nd; lia). f_equal. lia. }
  destruct (mul_uint32_fits f divisor) as (cv & -> & V1 & V2 & V3); [done | done | lia | nia |].
  pose proof (uval_bounds dividend W).
  destruct (mul_uint32_carry f dividend) as (cd & -> & D1 & D2 & D3 & D4); [done | done | lia | nia | lia |].
  cbn [mbind option_bind]. fold (top_word cv).
  assert (Hcv : cv <> []) by (by destruct cv, divisor).
  pose proof (uval_top_bounds cv V1 Hcv) as Hc. rewrite V2 in Hc. fold P in Hc.
  assert (HALF_BASE <= top_word cv) by nia. rewrite (proj2 (Z.leb_le _ _)) by done.
  exists f, cd, cv. unfold nwords_ok in N. split_and!; (done || lia).
Qed.

Lemma div_words_knuth_spec dividend divisor :
  words_wf dividend -> nwords_ok dividend -> Z.of_nat (length dividend) <= MAX_NWORDS - 1 ->
  words_wf divisor -> (1 <= length divisor <= 6)%nat -> 0 < top_word divisor ->
  uval dividend * 2 ^ 31 < BASE ^ (MAX_NWORDS - 1) ->
  exists q r, div_words_knuth dividend divisor = Some (q, r) /\ words_wf q /\
    (1 <= length q <= 8)%nat /\ uval q = uval dividend / uval divisor.
Proof.
  intros W N L Wd Ld Ht Hfit. unfold div_words_knuth, MAX_NWORDS in *.
  destruct (normalize_spec dividend divisor) as (f & cd & cv & -> & F & D1 & D2 & D3 & V1 & V2 & V3 & E1 & E2);
    [done | done | done | done | unfold nwords_ok, MAX_NWORDS; lia | done | done |]. unfold MAX_NWORDS in *.
  cbn [mbind option_bind]. assert (Lv : (1 <= length cv <= 6)%nat) by lia.
  pose proof (divisor_pos cv V1 Lv V3) as Hv. pose proof (divisor_range cv V1 Lv V3) as Hr.
  assert (Hd : uval dividend / uval divisor = uval cd / uval cv).
  { rewrite E1, E2. rewrite Z.div_mul_cancel_l; [done | nia | lia]. }
  rewrite Hd. pose proof (uval_bounds cd D1) as Hb.
  destruct (Nat.ltb_spec (length cd) (length cv)) as [Hlt | Hge].
  { exists [0], dividend. split_and!; [done | by apply Forall_singleton | simpl; lia | simpl; lia |].
    rewrite Z.div_small; [done |]. split; [lia |]. unfold modulus in Hb.
    assert (BASE ^ Z.of_nat (length cd) <= BASE ^ (Z.of_nat (length cv) - 1)) by (apply Z.pow_le_mono_r; [done | lia]).
    assert (1 <= HALF_BASE) by done. nia. }
  destruct (Nat.eqb_spec (length cd) (length cv)) as [Heq | Hne].
  2: { destruct (div_words_loop_top cv V1 Lv V3 cd) as (q & r & -> & Q1 & Q2 & Q3); [done | lia | unfold MAX_NWORDS; lia |].
       exists q, r. split_and!; [done | done | lia | lia | done]. }
  rewrite compare_words_unsigned_spec by (done || unfold MAX_NWORDS; lia). cbn [mbind option_bind].
  destruct (Z.ltb_spec (Z.sgn (uval cd - uval cv)) 0) as [Hs | Hs].
  - exists [0], dividend. split_and!; [done | by apply Forall_singleton | simpl; lia | simpl; lia |].
    rewrite Z.div_small; [done |]. lia.
  - destruct (sub_words_unsigned_spec cd cv D1 V1) as (r & -> & _); [unfold MAX_NWORDS; lia .. | lia |].
    exists [1], r. split_and!; [done | by apply Forall_singleton | simpl; lia | simpl; lia |].
    pose proof (divisor_double cv V1 Lv V3). unfold modulus in Hb. rewrite Heq in Hb.
    apply Z.div_unique with (uval cd - uval cv); simpl; lia.
Qed.

Lemma positive_not_zero ws : 0 < uval ws -> words_is_zero ws = false.
Proof. destruct ws as [| w [|]]; try done. simpl. intros Hw. apply Z.eqb_neq. lia. Qed.

(** The divisors the code handles: one word up to half the base (not 1), or two
    to six words with a leading word that is not zero. *)
Definition divisor_ok (ws : list Z) : Prop :=
  length ws = 1%nat /\ 2 <= uval ws <= 2 ^ 31 \/ (2 <= length ws <= 6)%nat /\ 0 < top_word ws.

Lemma div_words_spec dividend divisor :
  words_wf dividend -> nwords_ok dividend -> Z.of_nat (length dividend) <= MAX_NWORDS - 1 ->
  0 < uval dividend -> words_wf divisor -> divisor_ok divisor ->
  uval dividend * 2 ^ 31 < BASE ^ (MAX_NWORDS - 1) ->
  exists q r, div_words dividend divisor = Some (q, r) /\ words_wf q /\ nwords_ok q /\
    uval q = uval dividend / uval divisor /\ sval q = uval q.
Proof.
  intros W N L Hpos Wd Hok Hfit. unfold div_words, ob_assert.
  assert (Hl : (1 <= length divisor <= 6)%nat) by (destruct Hok; lia).
  assert (Hd : 0 < uval divisor).
  { destruct Hok as [? | [? Ht]]; [lia |]. assert (Hne : divisor <> []) by (destruct divisor; [simpl in *; lia | done]).
    pose proof (uval_top_bounds divisor Wd Hne).
    assert (0 < BASE ^ (Z.of_nat (length divisor) - 1)) by (apply Z.pow_pos_nonneg; [done | lia]). nia. }
  rewrite !positive_not_zero by done. cbn [negb mbind option_bind].
  rewrite !assert_nwords_ok by (done || unfold nwords_ok, MAX_NWORDS; lia). cbn [mbind option_bind].
  destruct Hok as [[L1 R1] | [L2 Ht]].
  - destruct divisor as [| d [|]]; try done. cbn [length Nat.eqb uval] in *. change (zget 0 [d] 0) with d.
    rewrite Z.mul_0_r, Z.add_0_r in *.
    destruct (div_uint32_spec dividend d W N R1) as (q & -> & Q1 & Q2 & _ & Q4 & Q5). cbn [mbind option_bind].
    destruct (as_positive_spec q Q1 (nwords_ok_ne q Q2)) as (_ & _ & _ & _ & E). rewrite (E Q5).
    eexists _, _. split_and!; done.
  - rewrite (proj2 (Nat.eqb_neq _ _)) by lia.
    destruct (div_words_knuth_spec dividend divisor) as (q & r & -> & Q1 & Q2 & Q3); [done .. |].
    cbn [mbind option_bind]. assert (Hq : q <> []) by (destruct q; [simpl in *; lia | done]).
    destruct (as_positive_spec q Q1 Hq) as (P1 & P2 & P3 & P4 & _). eexists _, _.
    split_and!; [done | done | unfold nwords_ok, MAX_NWORDS; lia | lia | lia].
Qed.

Lemma left_shift_loop_carry fuel i ws :
  words_wf ws -> nwords_ok ws -> Z.of_nat (length ws) <= MAX_NWORDS - 1 ->
  0 <= i <= 127 -> i <= 9 * Z.of_nat fuel -> (0 < fuel)%nat ->
  10 ^ i * uval ws < BASE ^ (MAX_NWORDS - 1) ->
  exists r, left_shift_loop fuel i true ws = Some (OB_SUCCESS, r) /\ words_wf r /\
    (length ws <= length r)%nat /\ Z.of_nat (length r) <= MAX_NWORDS - 1 /\ uval r = 10 ^ i * uval ws.
Proof.
  revert i ws. induction fuel as [| fuel IH]; intros i ws Hwf Hn Hl Hi Hf H0 Hfit; [lia |].
  cbn [left_shift_loop]. destruct (Z.ltb_spec 9 i) as [Hi9 | Hi9].
  2: { rewrite power10 by lia. pose proof (power10_bound i). apply mul_uint32_carry; (done || lia). }
  rewrite power10 by lia. pose proof (uval_bounds ws Hwf).
  assert (E : 10 ^ i = 10 ^ (i - 9) * 10 ^ 9) by (rewrite <- Z.pow_add_r by lia; f_equal; lia).
  assert (1 <= 10 ^ (i - 9)) by (apply (Z.pow_le_mono_r 10 0); lia).
  destruct (mul_uint32_carry (10 ^ 9) ws Hwf Hn ltac:(lia)) as (r & -> & R1 & R2 & R3 & R4); [nia | done |].
  cbn. rewrite wraps_small by (simpl; lia).
  destruct (IH (i - 9) r R1) as (r' & -> & S1 & S2 & S3 & S4);
    [unfold nwords_ok, MAX_NWORDS in *; lia | done | lia | lia | lia | rewrite R4; nia |].
  exists r'. split_and!; [done | done | lia | done |]. rewrite S4, R4, E. lia.
Qed.

(** The digits the dividend is shifted by, so that the quotient has 38 of them. *)
Definition quotient_shift (n1 n2 : ObNumber) : Z := QUOTIENT_SCALE + vscale_ n2 - vscale_ n1.

Lemma shift_dividend n1 n2 m :
  words_wf m -> nwords_ok m -> Z.of_nat (length m) <= MAX_NWORDS - 1 ->
  0 <= vscale_ n1 <= INT8_MAX -> 0 <= vscale_ n2 <= SINGLE_PRECISION_NDIGITS ->
  0 <= quotient_shift n1 n2 < DOUBLE_PRECISION_NDIGITS ->
  10 ^ quotient_shift n1 n2 * uval m < BASE ^ (MAX_NWORDS - 1) ->
  exists vs r,
    (if (vscale_ n1 <? vscale_ n2) || (vscale_ n1 - vscale_ n2 <? QUOTIENT_SCALE)
     then left_shift (mkNumber (vscale_ n1) m) (int8 (QUOTIENT_SCALE + vscale_ n2 - vscale_ n1)) true
     else Some (OB_SUCCESS, mkNumber (vscale_ n1) m)) = Some (OB_SUCCESS, mkNumber vs r) /\
    words_wf r /\ nwords_ok r /\ Z.of_nat (length r) <= MAX_NWORDS - 1 /\
    uval r = 10 ^ quotient_shift n1 n2 * uval m.
Proof.
  intros W N L V1 V2 Hs Hfit. unfold quotient_shift in *. set (s := QUOTIENT_SCALE + _ - _) in *.
  assert (Hsc : (vscale_ n1 <? vscale_ n2) || (vscale_ n1 - vscale_ n2 <? QUOTIENT_SCALE) = (0 <? s)).
  { apply eq_true_iff_eq. rewrite orb_true_iff, !Z.ltb_lt. unfold s, QUOTIENT_SCALE. lia. }
  rewrite Hsc. destruct (Z.ltb_spec 0 s).
  2: { replace s with 0 in * by lia. rewrite Z.mul_1_l in *. eexists _, m. split_and!; done. }
  change DOUBLE_PRECISION_NDIGITS with 76 in *.
  rewrite (wraps_small 8 s) by (simpl; lia). unfold left_shift, ob_assert. cbn [words_ vscale_].
  rewrite (proj2 (Z.ltb_lt 0 s)), (proj2 (Z.ltb_lt s _)) by (done || apply Hs).
  cbn [andb mbind option_bind].
  destruct (left_shift_loop_carry 15 s m W N L ltac:(lia) ltac:(lia) ltac:(lia) Hfit) as (r & -> & R1 & R2 & R3 & R4).
  cbn [mbind option_bind]. eexists _, r. unfold nwords_ok, MAX_NWORDS in *. split_and!; (done || lia).
Qed.

Lemma divisor_words_ok m :
  words_wf m -> m <> [] -> 2 <= uval m <= 2 ^ 31 \/ BASE <= uval m -> uval m < BASE ^ 6 ->
  let r := remove_leading_zeroes_unsigned m in words_wf r /\ divisor_ok r /\ uval r = uval m.
Proof.
  intros W Hne Hr Hlt. destruct (remove_leading_zeroes_unsigned_spec m W Hne) as (R1 & R2 & R3 & R4 & R5).
  cbv zeta in *. set (r := remove_leading_zeroes_unsigned m) in *. split_and!; [done | | done].
  pose proof (ne_length r R2). pose proof (uval_bounds r R1) as Hb. unfold modulus in Hb.
  destruct (decide (length r = 1%nat)) as [E | E].
  - left. split; [done |]. rewrite E in Hb. change (BASE ^ Z.of_nat 1) with BASE in Hb. lia.
  - right. assert (Ht : 0 < top_word r) by (destruct R5; done). split; [| done]. split; [lia |].
    pose proof (uval_top_bounds r R1 R2) as Hu. destruct (le_gt_dec (length r) 6) as [| Hgt]; [done | exfalso].
    assert (BASE ^ 6 <= BASE ^ (Z.of_nat (length r) - 1)) by (apply Z.pow_le_mono_r; [done | lia]). nia.
Qed.

(** Restoring the sign of the quotient of the magnitudes. *)
Lemma signed_quotient x y q neg :
  y <> 0 -> words_wf q -> nwords_ok q -> sval q = uval q -> uval q = Z.abs x / Z.abs y ->
  neg = xorb (x <? 0) (y <? 0) ->
  exists r, (if neg then negate_words q else Some q) = Some r /\
    words_wf (remove_leading_zeroes r) /\ canonical (remove_leading_zeroes r) /\
    sval (remove_leading_zeroes r) = Z.quot x y.
Proof.
  intros Hy W N Hs Hq ->. rewrite Z.quot_div by done. rewrite <- Hq.
  assert (H0 : x = 0 -> uval q = 0) by (intros ->; rewrite Hq; by apply Z.div_0_l; lia).
  destruct (xorb (x <? 0) (y <? 0)) eqn:E.
  - destruct (negate_positive q W N Hs) as (r & -> & R1 & R2 & R3).
    assert (Hr : r <> []) by (apply nwords_ok_ne in N; by destruct r, q).
    destruct (remove_leading_zeroes_spec r R1 Hr) as (C1 & _ & _ & C4 & C5).
    exists r. split_and!; [done | done | done |]. rewrite C4, R3.
    destruct (Z.ltb_spec x 0), (Z.ltb_spec y 0); try done; nia.
  - destruct (remove_leading_zeroes_spec q W (nwords_ok_ne q N)) as (C1 & _ & _ & C4 & C5).
    exists q. split_and!; [done | done | done |]. rewrite C4, Hs.
    destruct (Z.ltb_spec x 0), (Z.ltb_spec y 0); try done; nia.
Qed.

(** ** Theorems *)

(** C28: division.  When the dividend shifted to 38 digits more than the divisor
    leaves room for the normalisation (a factor up to 2^31 within eight words),
    and the divisor is a magnitude of 2 to 2^31 or of two to six words, [div]
    succeeds with the exact quotient truncated toward zero, at scale 38, in
    canonical form.  A zero divisor is [OB_DIVISION_BY_ZERO]. *)
Theorem div_truncates (n1 n2 res : ObNumber) (H1 : number_wf n1) (C1 : canonical (words_ n1)) (H2 : number_wf n2)
    (N1 : nwords_ n1 <= MAX_NWORDS - 1) (S2 : vscale_ n2 <= SINGLE_PRECISION_NDIGITS)
    (S1 : vscale_ n1 <= DOUBLE_PRECISION_NDIGITS)
    (HS : 0 <= quotient_shift n1 n2 < DOUBLE_PRECISION_NDIGITS)
    (Hfit : Z.abs (sval (words_ n1)) * 10 ^ quotient_shift n1 n2 * 2 ^ 31 < BASE ^ (MAX_NWORDS - 1))
    (Hdiv : 2 <= Z.abs (sval (words_ n2)) <= 2 ^ 31 \/ BASE <= Z.abs (sval (words_ n2)) < BASE ^ 6) :
  (forall z, is_zero z = true -> div n1 z res = Some (OB_DIVISION_BY_ZERO, set_zero res)) /\
  exists r, div n1 n2 res = Some (OB_SUCCESS, r) /\ words_wf (words_ r) /\ canonical (words_ r) /\
    sval (words_ r) = Z.quot (sval (words_ n1) * 10 ^ quotient_shift n1 n2) (sval (words_ n2)) /\
    (sval (words_ n1) <> 0 -> vscale_ r = QUOTIENT_SCALE).
Proof.
  split; [intros z Hz; unfold div; by rewrite Hz |]. destruct H1 as (W1 & L1 & V1), H2 as (W2 & L2 & V2).
  change (nwords_ok (words_ n1)) in L1. change (nwords_ok (words_ n2)) in L2.
  unfold div. assert (Hz2 : is_zero n2 = false).
  { destruct (is_zero n2) eqn:E; [| done]. apply is_zero_sval in E. rewrite E in Hdiv. unfold BASE in Hdiv. lia. }
  rewrite Hz2. pose proof (canonical_is_zero _ W1 (nwords_ok_ne _ L1) C1) as Hz1. fold (is_zero n1) in Hz1.
  rewrite Hz1. destruct (Z.eqb_spec (sval (words_ n1)) 0) as [Hx | Hx].
  { exists (set_zero res). rewrite Hx, Z.mul_0_l. split_and!; [done | by apply Forall_singleton | done | | done].
    rewrite Z.quot_0_l; [done | unfold BASE in Hdiv; lia]. }
  destruct (magnitude_spec (words_ n1) W1 L1) as (m1 & E1 & M1 & ML1 & U1).
  destruct (magnitude_spec (words_ n2) W2 L2) as (m2 & E2 & M2 & ML2 & U2).
  rewrite (magnitude_number n1 m1 E1). unfold round_if_over. cbn [mbind option_bind vscale_].
  rewrite (proj2 (Z.ltb_ge DOUBLE_PRECISION_NDIGITS _)), (proj2 (Z.ltb_ge SINGLE_PRECISION_NDIGITS _)) by lia.
  cbn [mbind option_bind vscale_]. unfold nwords_ in N1.
  assert (N1' : nwords_ok m1) by (unfold nwords_ok in *; lia).
  assert (N2' : nwords_ok m2) by (unfold nwords_ok in *; lia).
  destruct (shift_dividend n1 n2 m1) as (vs & d & -> & D1 & D2 & D3 & D4);
    [done | done | lia | lia | lia | done | rewrite U1; lia |].
  cbn [mbind option_bind]. change (OB_SUCCESS =? OB_SUCCESS) with true. cbv iota.
  rewrite (magnitude_number n2 m2 E2). cbn [mbind option_bind words_].
  destruct (divisor_words_ok m2 M2 (nwords_ok_ne m2 N2')) as (R1 & R2 & R3); [rewrite U2; lia | |].
  { rewrite U2. assert (2 ^ 31 < BASE ^ 6) by done. lia. }
  assert (HP : 0 < 10 ^ quotient_shift n1 n2) by (apply Z.pow_pos_nonneg; lia).
  destruct (div_words_spec d (remove_leading_zeroes_unsigned m2)) as (q & r & -> & Q1 & Q2 & Q3 & Q4);
    [done | done | done | rewrite D4, U1; nia | done | done | rewrite D4, U1; lia |].
  cbn [mbind option_bind]. unfold is_negative. rewrite !is_negative_sval by (done || by apply nwords_ok_ne).
  destruct (signed_quotient (sval (words_ n1) * 10 ^ quotient_shift n1 n2) (sval (words_ n2)) q
    (xorb (sval (words_ n1) <? 0) (sval (words_ n2) <? 0))) as (ws & -> & X1 & X2 & X3);
    [unfold BASE in Hdiv; lia | done | done | done | | |].
  - rewrite Q3, D4, R3, U1, U2, Z.abs_mul, (Z.abs_eq (10 ^ _)) by lia. f_equal. lia.
  - f_equal. apply eq_true_iff_eq. rewrite !Z.ltb_lt. nia.
  - cbn [mbind option_bind]. eexists. split_and!; done.
Qed.

(** -10 divided by 0.3, and 7 by 2^33 + 1 *)
Lemma div_truncates_witness :
  (exists r, div (mkNumber 0 [4294967286]) (mkNumber 1 [3]) ObNumber_new = Some (OB_SUCCESS, r) /\
     sval (words_ r) = -3333333333333333333333333333333333333333) /\
  (exists r, div (mkNumber 0 [7]) (mkNumber 0 [1; 2]) ObNumber_new = Some (OB_SUCCESS, r) /\
     sval (words_ r) = Z.quot (7 * 10 ^ 38) (2 ^ 33 + 1)).
Proof.
  split.
  - destruct (div_truncates (mkNumber 0 [4294967286]) (mkNumber 1 [3]) ObNumber_new) as (_ & r & E & _ & _ & S & _);
      [split_and!; [by apply Forall_singleton | by vm_compute ..] | by vm_compute
      | split_and!; [by apply Forall_singleton | by vm_compute ..] | by vm_compute | by vm_compute | by vm_compute
      | by vm_compute | by vm_compute | left; by vm_compute |].
    exists r. split; [done |]. rewrite S. by vm_compute.
  - destruct (div_truncates (mkNumber 0 [7]) (mkNumber 0 [1; 2]) ObNumber_new) as (_ & r & E & _ & _ & S & _);
      [split_and!; [by apply Forall_singleton | by vm_compute ..] | by vm_compute
      | split_and!; [by repeat constructor | by vm_compute ..] | by vm_compute | by vm_compute | by vm_compute
      | by vm_compute | by vm_compute | right; by vm_compute |].
    exists r. split; [done |]. rewrite S. by vm_compute.
Defined.

(** The code, the value and the scale [div] answers with. *)
Definition quotient_of (n1 n2 : ObNumber) : option (Z * Z * Z) :=
  '(ret, r) ← div n1 n2 ObNumber_new ; Some (ret, sval (words_ r), vscale_ r).

(** The bounds of the division theorem are needed.  Each line is a call
    outside them.  14615016373 / 1: the quotient of [div_uint32] has its top word
    all ones and is taken for a negative number, whose leading word is removed.
    2 / 3500000000: for a one-word divisor over 2^31 the carry of [div_uint32]
    overflows.  10^37 / 2^32: the normalisation overflows and its code is
    dropped.  12345e-40 / 7: nothing is shifted but the result is labelled with
    scale 38, a factor of 100.  7 / 1 with a divisor at scale 38: the shift by 76
    digits fails an assertion.  1 / 5e-39: the divisor rounds to zero after the
    test for zero, and an assertion fails. *)
Theorem division_faults :
  quotient_of (mkNumber 0 [1730114485; 3]) (mkNumber 0 [1])
    = Some (OB_SUCCESS, 309379448717253630747091587775835668480, 38) /\
  Z.quot (sval [1730114485; 3] * 10 ^ 38) 1 = 1461501637300000000000000000000000000000000000000 /\
  quotient_of (mkNumber 0 [2]) (mkNumber 0 [3500000000; 0])
    = Some (OB_SUCCESS, 39147486273775680179512444667, 38) /\
  Z.quot (2 * 10 ^ 38) (sval [3500000000; 0]) = 57142857142857142857142857142 /\
  quotient_of (mkNumber 0 [0; 16004768; 3587851993; 126217744]) (mkNumber 0 [0; 1])
    = Some (OB_SUCCESS, 9458802742813207068567015844833946465712613364005590794240, 38) /\
  Z.quot (sval [0; 16004768; 3587851993; 126217744] * 10 ^ 38) (sval [0; 1])
    = 232830643653869628906250000000000000000000000000000000000000000000 /\
  quotient_of (mkNumber 40 [12345]) (mkNumber 0 [7]) = Some (OB_SUCCESS, 12345 / 7, 38) /\
  quotient_of (mkNumber 0 [7]) (mkNumber 38 [0; 160047680; 1518781562; 1262177448]) = None /\
  quotient_of (mkNumber 0 [1]) (mkNumber 39 [5]) = None.
Proof. split_and!; by vm_compute. Qed.
