(* ===== verification/ObObject.v ===== *)
(** * ObObject: the typed cell value of common/ob_object.{h,cpp}

    [ObObj] is a tag with an operation flag, the decimal attributes and a
    union.  The union is an inductive type with one constructor per kind of
    member the class stores; the int64_t members (integer, extended value and
    the four times) share one.  Floating values are kept as their IEEE 754 bit
    patterns and computed on with the Standard Library's [SpecFloat]. *)

From Stdlib Require Import Floats.SpecFloat.
From S2P Require Import Prelude ObNumber.
Local Open Scope Z_scope.

(** ** IEEE 754 bit patterns *)

Definition float_of_bits (mw ew bits : Z) : spec_float :=
  let m := bits mod 2 ^ mw in
  let e := (bits / 2 ^ mw) mod 2 ^ ew in
  let s := Z.testbit bits (mw + ew) in
  let emin := 3 - 2 ^ (ew - 1) - (mw + 1) in
  if e =? 0 then
    match m with Z.pos p => S754_finite s p emin | _ => S754_zero s end
  else if e =? 2 ^ ew - 1 then
    if m =? 0 then S754_infinity s else S754_nan
  else
    match m + 2 ^ mw with Z.pos p => S754_finite s p (e + emin - 1) | _ => S754_nan end.

Definition bits_of_float (mw ew : Z) (f : spec_float) : Z :=
  let sign (s : bool) := if s then 2 ^ (mw + ew) else 0 in
  let emin := 3 - 2 ^ (ew - 1) - (mw + 1) in
  match f with
  | S754_zero s => sign s
  | S754_infinity s => sign s + (2 ^ ew - 1) * 2 ^ mw
  | S754_nan => (2 ^ ew - 1) * 2 ^ mw + 2 ^ (mw - 1)
  | S754_finite s m e =>
      if Z.pos m <? 2 ^ mw then sign s + Z.pos m
      else sign s + (e - emin + 1) * 2 ^ mw + (Z.pos m - 2 ^ mw)
  end.

(** float and double: addition, subtraction, [fabs(x) < y], [x < y]. *)
Definition f32 (bits : Z) : spec_float := float_of_bits 23 8 bits.
Definition f64 (bits : Z) : spec_float := float_of_bits 52 11 bits.
Definition float_add (a b : Z) : Z := bits_of_float 23 8 (SFadd 24 128 (f32 a) (f32 b)).
Definition float_sub (a b : Z) : Z := bits_of_float 23 8 (SFsub 24 128 (f32 a) (f32 b)).
Definition float_mul (a b : Z) : Z := bits_of_float 23 8 (SFmul 24 128 (f32 a) (f32 b)).
Definition double_add (a b : Z) : Z := bits_of_float 52 11 (SFadd 53 1024 (f64 a) (f64 b)).
Definition double_sub (a b : Z) : Z := bits_of_float 52 11 (SFsub 53 1024 (f64 a) (f64 b)).
Definition double_mul (a b : Z) : Z := bits_of_float 52 11 (SFmul 53 1024 (f64 a) (f64 b)).

(** 1e-6 as a float, 1e-14 as a double. *)
Definition FLOAT_EPSINON : Z := 0x358637bd.
Definition DOUBLE_EPSINON : Z := 0x3d06849b86a12b9b.

(** [fabsf(x - y) < FLOAT_EPSINON ? 0 : x < y ? -1 : 1] and the same on double. *)
Definition float_compare (x y : Z) : Z :=
  if SFltb (SFabs (SFsub 24 128 (f32 x) (f32 y))) (f32 FLOAT_EPSINON) then 0
  else if SFltb (f32 x) (f32 y) then -1 else 1.
Definition double_compare (x y : Z) : Z :=
  if SFltb (SFabs (SFsub 53 1024 (f64 x) (f64 y))) (f64 DOUBLE_EPSINON) then 0
  else if SFltb (f64 x) (f64 y) then -1 else 1.

(** [fabsf(x) > FLOAT_EPSINON] *)
Definition float_is_true (x : Z) : bool := SFltb (f32 FLOAT_EPSINON) (SFabs (f32 x)).
Definition double_is_true (x : Z) : bool := SFltb (f64 DOUBLE_EPSINON) (SFabs (f64 x)).

(** ** Types *)

Inductive ObObjType :=
| ObNullType | ObIntType | ObFloatType | ObDoubleType | ObDateTimeType
| ObPreciseDateTimeType | ObVarcharType | ObSeqType | ObCreateTimeType
| ObModifyTimeType | ObExtendType | ObBoolType | ObDecimalType.

#[global] Instance ObObjType_eq_dec : EqDecision ObObjType.
Proof. solve_decision. Defined.

(** The enumerators' values. *)
Definition type_code (t : ObObjType) : Z :=
  match t with
  | ObNullType => 0 | ObIntType => 1 | ObFloatType => 2 | ObDoubleType => 3
  | ObDateTimeType => 4 | ObPreciseDateTimeType => 5 | ObVarcharType => 6 | ObSeqType => 7
  | ObCreateTimeType => 8 | ObModifyTimeType => 9 | ObExtendType => 10 | ObBoolType => 11
  | ObDecimalType => 12
  end.

Definition type_eqb (t1 t2 : ObObjType) : bool := bool_decide (t1 = t2).

Definition type_is_datetime (t : ObObjType) : bool :=
  type_eqb t ObDateTimeType || type_eqb t ObPreciseDateTimeType ||
  type_eqb t ObCreateTimeType || type_eqb t ObModifyTimeType.

Inductive ObjValue :=
| UInt (v : Z)                    (** int_val, ext_val and the times *)
| UFloat (bits : Z)
| UDouble (bits : Z)
| UVarchar (s : list Z)           (** varchar_val with val_len_ *)
| UBool (b : bool)
| UWords (ws : list Z).           (** the decimal words over val_len_ and value_ *)

Record ObObj := mkObj {
  type_ : ObObjType;
  op_flag_ : Z;
  dec_vscale_ : Z;
  dec_precision_ : Z;
  dec_scale_ : Z;
  dec_nwords_ : Z;                (** one less than the number of words *)
  value_ : ObjValue
}.

Definition INVALID_OP_FLAG : Z := 0.
Definition ADD : Z := 1.

(** MIN_OBJECT_VALUE and MAX_OBJECT_VALUE, UINT64_MAX - 2 and UINT64_MAX - 1 as
    int64_t. *)
Definition MIN_OBJECT_VALUE : Z := -3.
Definition MAX_OBJECT_VALUE : Z := -2.

Definition OP_DEL_ROW : Z := 8.
Definition OP_ROW_DOES_NOT_EXIST : Z := 11.
Definition OP_DEL_TABLE : Z := 14.
Definition OP_NOP : Z := 15.

(** The constructor: [memset(this, 0, sizeof(ObObj))]. *)
Definition ObObj_new : ObObj := mkObj ObNullType 0 0 0 0 0 (UInt 0).

(** ** Setters *)

Definition set_flag (o : ObObj) (is_add : bool) : ObObj :=
  mkObj (type_ o) (if is_add then ADD else INVALID_OP_FLAG) (dec_vscale_ o) (dec_precision_ o)
        (dec_scale_ o) (dec_nwords_ o) (value_ o).

(** The tag, the flag and the union; the decimal attributes stay. *)
Definition set_value (o : ObObj) (t : ObObjType) (is_add : bool) (v : ObjValue) : ObObj :=
  mkObj t (if is_add then ADD else INVALID_OP_FLAG) (dec_vscale_ o) (dec_precision_ o)
        (dec_scale_ o) (dec_nwords_ o) v.

Definition set_int (o : ObObj) (v : Z) (is_add : bool) : ObObj := set_value o ObIntType is_add (UInt v).
Definition set_float (o : ObObj) (v : Z) (is_add : bool) : ObObj :=
  set_value o ObFloatType is_add (UFloat v).
Definition set_double (o : ObObj) (v : Z) (is_add : bool) : ObObj :=
  set_value o ObDoubleType is_add (UDouble v).
Definition set_datetime (o : ObObj) (v : Z) (is_add : bool) : ObObj :=
  set_value o ObDateTimeType is_add (UInt v).
Definition set_precise_datetime (o : ObObj) (v : Z) (is_add : bool) : ObObj :=
  set_value o ObPreciseDateTimeType is_add (UInt v).
Definition set_varchar (o : ObObj) (s : list Z) : ObObj := set_value o ObVarcharType false (UVarchar s).
Definition set_seq (o : ObObj) : ObObj := set_value o ObSeqType false (value_ o).
Definition set_modifytime (o : ObObj) (v : Z) : ObObj := set_value o ObModifyTimeType false (UInt v).
Definition set_createtime (o : ObObj) (v : Z) : ObObj := set_value o ObCreateTimeType false (UInt v).
Definition set_bool (o : ObObj) (b : bool) : ObObj := set_value o ObBoolType false (UBool b).
Definition set_null (o : ObObj) : ObObj := set_value o ObNullType false (value_ o).
Definition set_ext (o : ObObj) (v : Z) : ObObj := set_value o ObExtendType false (UInt v).
Definition set_min_value (o : ObObj) : ObObj := set_ext o MIN_OBJECT_VALUE.
Definition set_max_value (o : ObObj) : ObObj := set_ext o MAX_OBJECT_VALUE.

Definition set_add (o : ObObj) (is_add : bool) : Z * ObObj :=
  match type_ o with
  | ObIntType | ObDateTimeType | ObPreciseDateTimeType | ObDecimalType | ObFloatType | ObDoubleType =>
      (OB_SUCCESS, set_flag o is_add)
  | _ => (OB_ERROR, o)
  end.

(** ** Getters; [None] is OB_OBJ_TYPE_ERROR *)

Definition int_val (o : ObObj) : Z := match value_ o with UInt v => v | _ => 0 end.
Definition is_add (o : ObObj) : bool := op_flag_ o =? ADD.
Definition is_null (o : ObObj) : bool := type_eqb (type_ o) ObNullType.

Definition get_typed_int (t : ObObjType) (o : ObObj) : option (Z * bool) :=
  if type_eqb (type_ o) t then Some (int_val o, is_add o) else None.
Definition get_int := get_typed_int ObIntType.
Definition get_datetime := get_typed_int ObDateTimeType.
Definition get_precise_datetime := get_typed_int ObPreciseDateTimeType.
Definition get_modifytime (o : ObObj) : option Z := fst <$> get_typed_int ObModifyTimeType o.
Definition get_createtime (o : ObObj) : option Z := fst <$> get_typed_int ObCreateTimeType o.
Definition get_ext_checked (o : ObObj) : option Z := fst <$> get_typed_int ObExtendType o.

(** The other [get_ext], which gives 0 on any other type. *)
Definition get_ext (o : ObObj) : Z := if type_eqb (type_ o) ObExtendType then int_val o else 0.

Definition get_float (o : ObObj) : option (Z * bool) :=
  if type_eqb (type_ o) ObFloatType then
    Some (match value_ o with UFloat b => b | _ => 0 end, is_add o) else None.
Definition get_double (o : ObObj) : option (Z * bool) :=
  if type_eqb (type_ o) ObDoubleType then
    Some (match value_ o with UDouble b => b | _ => 0 end, is_add o) else None.
Definition get_varchar (o : ObObj) : option (list Z) :=
  if type_eqb (type_ o) ObVarcharType then
    Some (match value_ o with UVarchar s => s | _ => [] end) else None.
Definition get_bool (o : ObObj) : option bool :=
  if type_eqb (type_ o) ObBoolType then
    Some (match value_ o with UBool b => b | _ => false end) else None.

Definition is_min_value (o : ObObj) : bool :=
  type_eqb (type_ o) ObExtendType && (int_val o =? MIN_OBJECT_VALUE).
Definition is_max_value (o : ObObj) : bool :=
  type_eqb (type_ o) ObExtendType && (int_val o =? MAX_OBJECT_VALUE).

Definition get_timestamp (o : ObObj) : option Z :=
  match type_ o with
  | ObDateTimeType => Some (int64 (int64 (int_val o * 1000) * 1000))
  | ObPreciseDateTimeType | ObModifyTimeType | ObCreateTimeType => Some (int_val o)
  | _ => None
  end.

Definition reset_op_flag (o : ObObj) : ObObj :=
  let t := if type_eqb (type_ o) ObExtendType && (int_val o =? OP_NOP) then ObNullType else type_ o in
  mkObj t INVALID_OP_FLAG (dec_vscale_ o) (dec_precision_ o) (dec_scale_ o) (dec_nwords_ o) (value_ o).

(** ** Decimals

    [None] stands for an aborted assertion, or for reading the decimal words of
    an object whose union holds something else. *)

Definition get_decimal (o : ObObj) : option (Z * ObNumber * bool) :=
  if type_eqb (type_ o) ObDecimalType then
    match value_ o with
    | UWords ws =>
        if Z.of_nat (length ws) =? dec_nwords_ o + 1 then
          n ← from_words (dec_vscale_ o) ws ; Some (OB_SUCCESS, n, is_add o)
        else None
    | _ => None
    end
  else Some (OB_OBJ_TYPE_ERROR, ObNumber_new, false).

(** The rounded words go over [val_len_] and [value_] when there are at most
    three; more are not implemented. The tag and attributes are already set. *)
Definition set_decimal (o : ObObj) (num : ObNumber) (precision scale : Z) (is_add : bool)
    : option (Z * ObObj) :=
  let o := mkObj ObDecimalType (if is_add then ADD else INVALID_OP_FLAG) (dec_vscale_ o)
                 (Z.land precision 0x7F) (Z.land scale 0x3F) (dec_nwords_ o) (value_ o) in
  '(ret, rounded) ← round_to num precision scale ;
  match rounded with
  | None => Some (ret, o)
  | Some r =>
      if nwords_ r <=? 3 then
        Some (OB_SUCCESS,
              mkObj ObDecimalType (op_flag_ o) (Z.land (vscale_ r) 0x3F) (dec_precision_ o)
                    (dec_scale_ o) (Z.land (nwords_ r - 1) 0x7) (UWords (words_ r)))
      else Some (OB_NOT_IMPLEMENT, o)
  end.

Definition is_true (o : ObObj) : option bool :=
  match type_ o with
  | ObBoolType => Some (match value_ o with UBool b => b | _ => false end)
  | ObVarcharType => Some (match value_ o with UVarchar s => 0 <? Z.of_nat (length s) | _ => false end)
  | ObIntType => Some (negb (int_val o =? 0))
  | ObDecimalType => '(_, n, _) ← get_decimal o ; Some (negb (is_zero n))
  | ObFloatType => Some (match value_ o with UFloat b => float_is_true b | _ => false end)
  | ObDoubleType => Some (match value_ o with UDouble b => double_is_true b | _ => false end)
  | ObDateTimeType | ObPreciseDateTimeType | ObCreateTimeType | ObModifyTimeType =>
      Some (negb (default 0 (get_timestamp o) =? 0))
  | _ => Some false
  end.

(** ** Comparison *)

(** [x < y ? -1 : x == y ? 0 : 1] on int64_t. *)
Definition cmp3 (x y : Z) : Z := if x <? y then -1 else if x =? y then 0 else 1.

(** [memcmp] on the common prefix: the sign of the first difference. *)
Fixpoint memcmp (s1 s2 : list Z) : Z :=
  match s1, s2 with
  | c1 :: r1, c2 :: r2 => if c1 =? c2 then memcmp r1 r2 else cmp3 c1 c2
  | _, _ => 0
  end.

(** [ObString::compare] *)
Definition string_compare (s1 s2 : list Z) : Z :=
  let ret := memcmp s1 s2 in
  if ret =? 0 then Z.of_nat (length s1) - Z.of_nat (length s2) else ret.

Definition compare_same_type (o1 o2 : ObObj) : option Z :=
  match type_ o1 with
  | ObIntType => Some (cmp3 (int_val o1) (int_val o2))
  | ObDecimalType =>
      '(_, n1, _) ← get_decimal o1 ;
      '(_, n2, _) ← get_decimal o2 ;
      ObNumber.compare n1 n2
  | ObVarcharType =>
      Some (string_compare (default [] (get_varchar o1)) (default [] (get_varchar o2)))
  | ObFloatType =>
      Some (match value_ o1, value_ o2 with UFloat x, UFloat y => float_compare x y | _, _ => 0 end)
  | ObDoubleType =>
      Some (match value_ o1, value_ o2 with UDouble x, UDouble y => double_compare x y | _, _ => 0 end)
  | ObDateTimeType | ObPreciseDateTimeType | ObCreateTimeType | ObModifyTimeType =>
      Some (cmp3 (default 0 (get_timestamp o1)) (default 0 (get_timestamp o2)))
  | ObBoolType =>
      Some (Z.b2z (default false (get_bool o1)) - Z.b2z (default false (get_bool o2)))
  | _ => Some 0
  end.

Definition can_compare (o1 o2 : ObObj) : bool :=
  is_null o1 || is_null o2 || is_min_value o1 || is_max_value o1 ||
  is_min_value o2 || is_max_value o2 || type_eqb (type_ o1) (type_ o2) ||
  (type_is_datetime (type_ o1) && type_is_datetime (type_ o2)).

Definition compare (o1 o2 : ObObj) : option Z :=
  if negb (can_compare o1 o2) then Some (type_code (type_ o1) - type_code (type_ o2))
  else if is_min_value o1 then Some (if is_min_value o2 then 0 else -1)
  else if is_max_value o1 then Some (if is_max_value o2 then 0 else 1)
  else if is_null o1 then
    Some (if is_min_value o2 then 1 else if is_null o2 then 0 else -1)
  else if is_min_value o2 || is_null o2 then Some 1
  else if is_max_value o2 then Some (-1)
  else compare_same_type o1 o2.

(** ** Applying a mutation *)

Definition code_of {A} (r : option A) : Z := match r with Some _ => OB_SUCCESS | None => OB_OBJ_TYPE_ERROR end.

(** The shape of the five additive cases: reset the target when it may change,
    read both sides, add or replace, store with the merged flag.  A getter
    that fails leaves the target as it is then. *)
Definition apply_additive (o mutation : ObObj) (may_reset org_is_nop : bool)
    (reset : ObObj -> ObObj) (get : ObObj -> option (Z * bool)) (plus : Z -> Z -> Z)
    (store : ObObj -> Z -> bool -> ObObj) : Z * ObObj :=
  let o := if may_reset || org_is_nop then reset o else o in
  match get o, get mutation with
  | Some (v, org_add), Some (m, add) =>
      (OB_SUCCESS, store o (if add then plus v m else m) ((org_add || org_is_nop) && add))
  | _, _ => (OB_OBJ_TYPE_ERROR, o)
  end.

Definition apply_time (o mutation : ObObj) (may_reset org_is_nop : bool)
    (get : ObObj -> option Z) (pick : Z -> Z -> Z) (store : ObObj -> Z -> ObObj) : Z * ObObj :=
  match get mutation with
  | None => (OB_OBJ_TYPE_ERROR, o)
  | Some m =>
      let o := if may_reset || org_is_nop then store o m else o in
      match get o with
      | Some v => (OB_SUCCESS, store o (pick v m))
      | None => (OB_OBJ_TYPE_ERROR, o)
      end
  end.

(** The decimal case: the code of [set_decimal] is not looked at. *)
Definition apply_decimal (o mutation : ObObj) (may_reset org_is_nop : bool) : option (Z * ObObj) :=
  '(err, num, org_add) ←
    (if may_reset || org_is_nop then Some (OB_SUCCESS, set_zero ObNumber_new, false)
     else get_decimal o) ;
  if negb (err =? OB_SUCCESS) then Some (err, o) else
  '(err, m, add) ← get_decimal mutation ;
  if negb (err =? OB_SUCCESS) then Some (err, o) else
  '(err, res) ← (if add then ObNumber.add num m ObNumber_new else Some (OB_SUCCESS, m)) ;
  if negb (err =? OB_SUCCESS) then Some (err, o) else
  '(_, o') ← set_decimal o res (dec_precision_ o) (dec_scale_ o) ((org_add || org_is_nop) && add) ;
  Some (OB_SUCCESS, o').

Definition apply_ext (o mutation : ObObj) (org_ext : Z) : Z * ObObj :=
  let e := get_ext mutation in
  if (e =? OP_DEL_ROW) || (e =? OP_DEL_TABLE) then (OB_SUCCESS, set_null o)
  else if e =? OP_ROW_DOES_NOT_EXIST then (OB_SUCCESS, o)
  else if e =? OP_NOP then
    (OB_SUCCESS, if (org_ext =? OP_ROW_DOES_NOT_EXIST) || (org_ext =? OP_DEL_ROW) then set_null o else o)
  else (OB_INVALID_ARGUMENT, o).

Definition apply (o mutation : ObObj) : option (Z * ObObj) :=
  let org_type := type_ o in
  let org_ext := int32 (get_ext o) in
  let mut_type := type_ mutation in
  if type_eqb mut_type ObSeqType then Some (OB_INVALID_ARGUMENT, o)
  else if negb (type_eqb org_type ObExtendType) && negb (type_eqb org_type ObNullType) &&
          negb (type_eqb mut_type ObExtendType) && negb (type_eqb mut_type ObNullType) &&
          negb (type_eqb org_type mut_type) then Some (OB_INVALID_ARGUMENT, o)
  else
    let can := (org_ext =? OP_ROW_DOES_NOT_EXIST) || type_eqb org_type ObNullType in
    let nop := org_ext =? OP_NOP in
    let plus a b := int64 (a + b) in
    match mut_type with
    | ObNullType => Some (OB_SUCCESS, set_null o)
    | ObVarcharType | ObBoolType => Some (OB_SUCCESS, mutation)
    | ObIntType =>
        Some (apply_additive o mutation can nop (fun x => set_int x 0 false) get_int plus set_int)
    | ObFloatType =>
        Some (apply_additive o mutation can nop (fun x => set_float x 0 false) get_float float_add set_float)
    | ObDoubleType =>
        Some (apply_additive o mutation can nop (fun x => set_double x 0 false) get_double double_add
                set_double)
    | ObDateTimeType =>
        Some (apply_additive o mutation can nop (fun x => set_datetime x 0 false) get_datetime plus
                set_datetime)
    | ObPreciseDateTimeType =>
        Some (apply_additive o mutation can nop (fun x => set_precise_datetime x 0 false)
                get_precise_datetime plus set_precise_datetime)
    | ObExtendType => Some (apply_ext o mutation org_ext)
    | ObCreateTimeType => Some (apply_time o mutation can nop get_createtime Z.min set_createtime)
    | ObModifyTimeType => Some (apply_time o mutation can nop get_modifytime Z.max set_modifytime)
    | ObDecimalType => apply_decimal o mutation can nop
    | ObSeqType => Some (OB_INVALID_ARGUMENT, o)
    end.

(** ** Order of the comparison *)

Lemma cmp3_sgn x y : Z.sgn (cmp3 x y) = Z.sgn (x - y).
Proof. unfold cmp3. cases; lia. Qed.

Lemma string_compare_cons c1 r1 c2 r2 :
  Z.sgn (string_compare (c1 :: r1) (c2 :: r2)) =
  if c1 =? c2 then Z.sgn (string_compare r1 r2) else Z.sgn (c1 - c2).
Proof.
  unfold string_compare. cbn [memcmp length]. destruct (Z.eqb_spec c1 c2) as [-> | Hne].
  - destruct (memcmp r1 r2 =? 0); f_equal; lia.
  - pose proof (cmp3_sgn c1 c2). destruct (Z.eqb_spec (cmp3 c1 c2) 0); lia.
Qed.

Lemma memcmp_nil_r s : memcmp s [] = 0.
Proof. by destruct s. Qed.

#[global] Instance string_compare_order : CmpOrder (fun _ => True) string_compare.
Proof.
  split.
  - intros x. induction x as [| c x IH]; intros [| d y] _ _.
    + done.
    + unfold string_compare. simpl. lia.
    + unfold string_compare. simpl. lia.
    + rewrite !string_compare_cons, (Z.eqb_sym d c). destruct (Z.eqb_spec c d); [by apply IH | lia].
  - intros x. induction x as [| c x IH]; intros [| d y] [| e z] _ _ _ H1 H2;
      try (unfold string_compare in *; rewrite ?memcmp_nil_r in *; simpl in *; lia).
    pose proof (string_compare_cons c x d y) as E1. pose proof (string_compare_cons d y e z) as E2.
    pose proof (string_compare_cons c x e z) as E3.
    pose proof (IH y z I I I) as Ht.
    destruct (Z.eqb_spec c d), (Z.eqb_spec d e), (Z.eqb_spec c e); lia.
Qed.

(** The values a column of one type holds. Float and double columns are left
    out: their comparison takes values closer than a tolerance as equal and
    is not transitive. *)
Inductive column_kind := KInt | KVarchar | KBool | KTime | KDecimal (vscale : Z).

#[global] Instance column_kind_eq_dec : EqDecision column_kind.
Proof. solve_decision. Defined.

Definition normal_value (k : column_kind) (o : ObObj) : Prop :=
  match k with
  | KInt => type_ o = ObIntType
  | KVarchar => type_ o = ObVarcharType
  | KBool => type_ o = ObBoolType
  | KTime => type_is_datetime (type_ o) = true /\ - 2 ^ 63 <= int_val o * 1000000 < 2 ^ 63
  | KDecimal s =>
      type_ o = ObDecimalType /\ dec_vscale_ o = s /\ 0 <= s <= SINGLE_PRECISION_NDIGITS /\
      exists ws, value_ o = UWords ws /\ words_wf ws /\ 1 <= Z.of_nat (length ws) <= 7 /\
                 Z.of_nat (length ws) = dec_nwords_ o + 1
  end.

Definition column_value (k : column_kind) (o : ObObj) : Prop :=
  is_min_value o = true \/ is_max_value o = true \/ is_null o = true \/ normal_value k o.

(** The same comparison with the result alone. *)
Definition compare_value (o1 o2 : ObObj) : Z := default 0 (compare o1 o2).

Definition level (o : ObObj) : Z :=
  if is_min_value o then 0 else if is_null o then 1 else if is_max_value o then 3 else 2.

Lemma type_eqb_true t1 t2 : type_eqb t1 t2 = true <-> t1 = t2.
Proof. apply bool_decide_eq_true. Qed.

Lemma type_eqb_refl t : type_eqb t t = true.
Proof. by apply type_eqb_true. Qed.

Lemma normal_value_type k o :
  normal_value k o -> is_null o = false /\ is_min_value o = false /\ is_max_value o = false.
Proof.
  unfold is_null, is_min_value, is_max_value, type_eqb.
  destruct k; simpl; intros H; [rewrite H | rewrite H | rewrite H | | destruct H as [-> _]]; try done.
  destruct H as [H _]. unfold type_is_datetime, type_eqb in H. by destruct (type_ o).
Qed.

Lemma column_value_level k o : column_value k o -> level o = 2 -> normal_value k o.
Proof.
  unfold level. intros [H | [H | [H | H]]] Hl; [.. | done]; rewrite H in Hl;
    destruct (is_min_value o); try lia; destruct (is_null o); lia.
Qed.

Lemma level_normal k o : normal_value k o -> level o = 2.
Proof. intros H%normal_value_type. destruct H as (H1 & H2 & H3). unfold level. by rewrite H1, H2, H3. Qed.

Lemma decimal_number k o ws s :
  k = KDecimal s -> normal_value k o -> value_ o = UWords ws ->
  get_decimal o = Some (OB_SUCCESS, mkNumber s ws, is_add o) /\
  number_wf (mkNumber s ws) /\ Z.of_nat (length ws) <= 7.
Proof.
  intros -> (Ht & Hs & Hr & ws' & Hv & W & L & N) E. rewrite E in Hv. injection Hv as <-.
  unfold get_decimal. rewrite Ht, E, N, Hs. unfold SINGLE_PRECISION_NDIGITS in Hr. cbn [type_eqb].
  rewrite type_eqb_refl, Z.eqb_refl. unfold from_words, ob_assert.
  rewrite (proj2 (Z.leb_le 0 s)), (proj2 (Z.leb_le _ MAX_NWORDS)) by (unfold MAX_NWORDS; lia).
  split; [done |]. split; [| lia].
  split_and!; cbn; [done | unfold nwords_; cbn; lia | unfold nwords_, MAX_NWORDS; cbn; lia
    | lia | unfold INT8_MAX; lia].
Qed.

(** The order key of the kinds that have an integer one. *)
Definition value_key (k : column_kind) (o : ObObj) : Z :=
  match k with
  | KInt => int_val o
  | KBool => Z.b2z (default false (get_bool o))
  | KTime => default 0 (get_timestamp o)
  | KDecimal _ => match value_ o with UWords ws => sval ws | _ => 0 end
  | KVarchar => 0
  end.

Lemma compare_same_type_key k o1 o2 :
  k <> KVarchar -> normal_value k o1 -> normal_value k o2 ->
  exists c, compare_same_type o1 o2 = Some c /\ Z.sgn c = Z.sgn (value_key k o1 - value_key k o2).
Proof.
  intros Hk H1 H2. unfold compare_same_type. destruct k as [| | | | s]; [| done | | |].
  - rewrite H1. eexists. split; [done | apply cmp3_sgn].
  - rewrite H1. by eexists.
  - exists (cmp3 (default 0 (get_timestamp o1)) (default 0 (get_timestamp o2))).
    split; [| apply cmp3_sgn]. destruct H1 as [H1 _]. unfold type_is_datetime, type_eqb in H1.
    by destruct (type_ o1).
  - destruct (H1) as (T1 & _ & _ & ws1 & V1 & _), (H2) as (_ & _ & S2 & ws2 & V2 & _).
    destruct (decimal_number _ o1 ws1 s eq_refl H1 V1) as (-> & N1 & L1).
    destruct (decimal_number _ o2 ws2 s eq_refl H2 V2) as (-> & N2 & L2).
    rewrite T1. cbn [mbind option_bind].
    rewrite (compare_spec (mkNumber s ws1) (mkNumber s ws2)); cbn [vscale_]; try done; try lia;
      try (unfold nwords_, MAX_NWORDS; cbn [words_]; lia).
    eexists. split; [done |]. unfold common_scale, value_key. cbn [vscale_].
    rewrite !scaled_same by (cbn; lia). rewrite V1, V2. cbn [words_]. lia.
Qed.

Lemma compare_same_type_varchar o1 o2 :
  normal_value KVarchar o1 ->
  compare_same_type o1 o2
  = Some (string_compare (default [] (get_varchar o1)) (default [] (get_varchar o2))).
Proof. intros H1. unfold compare_same_type. by rewrite H1. Qed.

Lemma same_type_order k :
  CmpOrder (normal_value k) (fun o1 o2 => default 0 (compare_same_type o1 o2)).
Proof.
  destruct (decide (k = KVarchar)) as [-> | Hk].
  - split.
    + intros x y Hx Hy. rewrite !compare_same_type_varchar by done. cbn.
      by apply (cmp_opp (D := fun _ => True)).
    + intros x y z Hx Hy Hz. rewrite !compare_same_type_varchar by done. cbn.
      by apply (cmp_trans (D := fun _ => True)).
  - apply (cmp_order_key _ _ (value_key k)). intros x y Hx Hy.
    destruct (compare_same_type_key k x y Hk Hx Hy) as (c & -> & S). exact S.
Qed.

Lemma can_compare_column k o1 o2 : column_value k o1 -> column_value k o2 -> can_compare o1 o2 = true.
Proof.
  unfold can_compare. intros H1 H2.
  destruct H1 as [-> | [-> | [-> | H1]]]; rewrite ?orb_true_r; try done.
  destruct H2 as [-> | [-> | [-> | H2]]]; rewrite ?orb_true_r; try done.
  destruct k as [| | | | s]; simpl in *; rewrite ?H1, ?H2, ?type_eqb_refl, ?orb_true_r; try done.
  - destruct H1 as [-> _], H2 as [-> _]. by rewrite orb_true_r.
  - destruct H1 as [-> _], H2 as [-> _]. by rewrite type_eqb_refl, orb_true_r.
Qed.

Lemma compare_levels k o1 o2 :
  column_value k o1 -> column_value k o2 ->
  compare o1 o2 = if level o1 =? level o2 then if level o1 =? 2 then compare_same_type o1 o2 else Some 0
                  else if level o1 <? level o2 then Some (-1) else Some 1.
Proof.
  intros H1 H2. unfold compare. rewrite (can_compare_column k) by done. cbn [negb].
  assert (Hx : forall o, is_max_value o = true -> is_null o = false /\ is_min_value o = false).
  { intros o. unfold is_max_value, is_null, is_min_value. intros [->%type_eqb_true ->%Z.eqb_eq]%andb_true_iff.
    done. }
  unfold level. pose proof (Hx o1). pose proof (Hx o2).
  destruct (is_min_value o1), (is_null o1), (is_max_value o1), (is_min_value o2), (is_null o2),
    (is_max_value o2); try done; intuition congruence.
Qed.

Lemma compare_defined k o1 o2 : column_value k o1 -> column_value k o2 -> compare o1 o2 <> None.
Proof.
  intros H1 H2. rewrite (compare_levels k) by done. cases; try done.
  assert (normal_value k o1) by (by apply column_value_level).
  assert (normal_value k o2) by (apply column_value_level; [done | lia]).
  destruct (decide (k = KVarchar)) as [-> | Hk]; [by rewrite compare_same_type_varchar |].
  by destruct (compare_same_type_key k o1 o2) as (c & -> & _).
Qed.

Lemma compare_value_order k : CmpOrder (column_value k) compare_value.
Proof.
  apply (cmp_order_level _ _ level
           (fun o1 o2 => if level o1 =? 2 then default 0 (compare_same_type o1 o2) else 0)).
  - intros l. destruct (same_type_order k) as [Ho Ht]. split.
    + intros x y [Hx Lx] [Hy Ly]. rewrite Lx, Ly. destruct (Z.eqb_spec l 2); [| done].
      apply Ho; apply column_value_level; lia || done.
    + intros x y z [Hx Lx] [Hy Ly] [Hz Lz]. rewrite Lx, Ly. destruct (Z.eqb_spec l 2); [| done].
      apply Ht; apply column_value_level; lia || done.
  - intros x y Hx Hy. unfold compare_value. rewrite (compare_levels k) by done. cases; simpl; lia || done.
Qed.

(** ** Theorems *)

(** C14: the order of cells.  On the values of an integer, varchar, boolean,
    time or fixed-scale decimal column, null and the extreme values included,
    [compare] never aborts and is a total preorder with
    min < null < every value < max. *)
Theorem compare_total_order (k : column_kind) :
  (forall o1 o2, column_value k o1 -> column_value k o2 -> compare o1 o2 <> None) /\
  CmpOrder (column_value k) compare_value /\
  (forall o1 o2, column_value k o1 -> column_value k o2 -> level o1 < level o2 ->
                 compare_value o1 o2 < 0).
Proof.
  split; [apply compare_defined |]. split; [apply compare_value_order |].
  intros x y Hx Hy Hl. unfold compare_value. rewrite (compare_levels k) by done. cases; simpl; lia.
Qed.

(** Integer cells and mutations as values: a null, an integer with or without
    the add flag, the no-operation mark, and the mark of a row that does not
    exist.  [is_cell o c]: the object [o] is the cell [c] (a null keeps whatever
    its union held). *)
Inductive int_cell := CNull | CInt (v : Z) (add : bool) | CNop | CNone.

Definition is_cell (o : ObObj) (c : int_cell) : Prop :=
  match c with
  | CNull => type_ o = ObNullType /\ op_flag_ o = INVALID_OP_FLAG
  | CInt v add => type_ o = ObIntType /\ op_flag_ o = (if add then ADD else INVALID_OP_FLAG) /\
                  value_ o = UInt v /\ - 2 ^ 63 <= v < 2 ^ 63
  | CNop => type_ o = ObExtendType /\ op_flag_ o = INVALID_OP_FLAG /\ value_ o = UInt OP_NOP
  | CNone => type_ o = ObExtendType /\ op_flag_ o = INVALID_OP_FLAG /\
             value_ o = UInt OP_ROW_DOES_NOT_EXIST
  end.

(** The meaning of a mutation [m] on a cell [c]. *)
Definition cell_apply (c m : int_cell) : int_cell :=
  match m with
  | CNull => CNull
  | CNop => match c with CNone => CNull | _ => c end
  | CInt v add =>
      match c with
      | CNull | CNone => CInt v false
      | CNop => CInt v add
      | CInt w add' => CInt (if add then int64 (w + v) else v) (add' && add)
      end
  | CNone => c
  end.

Lemma apply_is_cell o m c d :
  is_cell o c -> is_cell m d -> d <> CNone ->
  exists o', apply o m = Some (OB_SUCCESS, o') /\ is_cell o' (cell_apply c d).
Proof.
  destruct o as [t f a b s n u], m as [t' f' a' b' s' n' u'].
  assert (Hid : forall w, - 2 ^ 63 <= w < 2 ^ 63 -> UInt (int64 (0 + w)) = UInt w)
    by (intros; rewrite Z.add_0_l, wraps_small by (simpl; lia); done).
  destruct c as [| v [|] | |], d as [| w [|] | |]; intros Hc Hd Hne; try done;
    unfold is_cell in Hc, Hd; cbn [type_ op_flag_ value_] in Hc, Hd; destruct_and?; subst;
    (eexists; split; [reflexivity |]); cbn [cell_apply andb];
    first [ by split_and! | split; [reflexivity |]; split; [reflexivity |] ];
    (split; [first [reflexivity | apply Hid; lia] |]); first [lia | apply (wraps_range 64); lia].
Qed.

Lemma cell_apply_assoc c d1 d2 :
  d1 <> CNone -> d2 <> CNone ->
  cell_apply (cell_apply c d1) d2 = cell_apply c (cell_apply d1 d2) /\ cell_apply d1 d2 <> CNone.
Proof.
  assert (Hp : forall a b d, int64 (int64 (a + b) + d) = int64 (a + int64 (b + d))).
  { intros. apply wraps_congr.
    rewrite (Zplus_mod (int64 _)), (Zplus_mod _ (int64 _)), !mod_wraps by lia.
    rewrite <- !Zplus_mod. f_equal. lia. }
  destruct c as [| v [|] | |], d1 as [| v1 [|] | |], d2 as [| v2 [|] | |]; intros N1 N2;
    try done; cbn [cell_apply andb]; rewrite ?Hp; done.
Qed.

(** C31: merging mutations.  For integer cells and integer, null and
    no-operation mutations, applying two mutations one after the other gives
    the cell that applying their merge gives, and none of the four calls
    fails: a memory table may merge before it is applied. *)
Theorem apply_merge (o m1 m2 : ObObj) (c d1 d2 : int_cell) (Hc : is_cell o c)
    (H1 : is_cell m1 d1) (H2 : is_cell m2 d2) (N1 : d1 <> CNone) (N2 : d2 <> CNone) :
  exists o1 o2 m o3 r,
    apply o m1 = Some (OB_SUCCESS, o1) /\ apply o1 m2 = Some (OB_SUCCESS, o2) /\
    apply m1 m2 = Some (OB_SUCCESS, m) /\ apply o m = Some (OB_SUCCESS, o3) /\
    is_cell o2 r /\ is_cell o3 r.
Proof.
  destruct (apply_is_cell o m1 c d1 Hc H1 N1) as (o1 & E1 & C1).
  destruct (apply_is_cell o1 m2 _ d2 C1 H2 N2) as (o2 & E2 & C2).
  destruct (apply_is_cell m1 m2 d1 d2 H1 H2 N2) as (m & E3 & C3).
  destruct (cell_apply_assoc c d1 d2 N1 N2) as [Ha Hm].
  destruct (apply_is_cell o m c _ Hc C3 Hm) as (o3 & E4 & C4).
  exists o1, o2, m, o3, (cell_apply c (cell_apply d1 d2)). rewrite <- Ha at 1. by split_and!.
Qed.

(** 40, then +5, then +7. *)
Lemma apply_merge_witness :
  let o := set_int ObObj_new 40 false in
  let m1 := set_int ObObj_new 5 true in
  let m2 := set_int ObObj_new 7 true in
  exists m o3, apply m1 m2 = Some (OB_SUCCESS, m) /\ apply o m = Some (OB_SUCCESS, o3) /\
    is_cell o3 (CInt 52 false).
Proof.
  destruct (apply_merge (set_int ObObj_new 40 false) (set_int ObObj_new 5 true) (set_int ObObj_new 7 true)
              (CInt 40 false) (CInt 5 true) (CInt 7 true))
    as (o1 & o2 & m & o3 & r & E1 & E2 & E3 & E4 & C2 & C3); try (unfold is_cell; cbn [set_int]; split_and!; done || lia); try done.
  exists m, o3. split; [done |]. split; [done |].
  vm_compute in E1. injection E1 as <-. vm_compute in E3. injection E3 as <-.
  vm_compute in E4. injection E4 as <-. split_and!; try done; lia.
Defined.

(** a decimal mutation on a null cell is lost.  The target's precision and
    scale are still zero, [set_decimal] refuses the value, its code is ignored,
    and [apply] reports success on an object tagged decimal whose union never
    got the words. *)
Theorem apply_decimal_on_null_lost :
  let m := mkObj ObDecimalType INVALID_OP_FLAG 0 38 0 0 (UWords [25]) in
  get_decimal m = Some (OB_SUCCESS, mkNumber 0 [25], false) /\
  exists o, apply ObObj_new m = Some (OB_SUCCESS, o) /\ type_ o = ObDecimalType /\
            value_ o = UInt 0 /\ dec_precision_ o = 0.
Proof. split; [by vm_compute |]. eexists. by vm_compute. Qed.
