(* ===== verification/StringSearch.v ===== *)
(** * StringSearch: substring search of common/ob_string_search.{h,cpp}

    [kr_search] (Karp and Rabin: a rolling hash, compared before the bytes) and
    [fast_search] (Boyer, Moore and Horspool with a bit mask of the bytes of the
    pattern).  Strings are lists of bytes; [char] is signed, so a byte enters
    the arithmetic as [int8].  Both routines read one byte after the text: what
    is there is the parameter [outside], and the theorems hold for all of it. *)

From S2P Require Import Prelude ObObject.
Local Open Scope Z_scope.

Section Search.
Context (outside : Z -> Z).

(** [s[i]] *)
Definition char_at (s : list Z) (i : Z) : Z :=
  if (0 <=? i) && (i <? Z.of_nat (length s)) then zget 0 s i else outside i.

(** ** Karp and Rabin *)

Definition print_step (p c : Z) : Z := u64 (Z.shiftl p 4 + p + int8 c).

Definition cal_print (pattern : list Z) : Z :=
  if 0 <? Z.of_nat (length pattern)
  then fold_left (fun p i => print_step p (char_at pattern i)) (seqZ 0 (Z.of_nat (length pattern))) 0
  else 0.

(** The positions [pos], .., [pos + k - 1]. *)
Fixpoint kr_search_loop (k : nat) (pos text_print pat_print shift : Z) (pattern text : list Z) : Z :=
  match k with
  | O => -1
  | S k' =>
      if (pat_print =? text_print) && (memcmp pattern (drop (Z.to_nat pos) text) =? 0) then pos
      else
        kr_search_loop k' (pos + 1)
          (u64 (Z.shiftl text_print 4 + text_print - int8 (char_at text pos) * shift +
                int8 (char_at text (pos + Z.of_nat (length pattern)))))
          pat_print shift pattern text
  end.

Definition kr_search_print (pattern : list Z) (pat_print : Z) (text : list Z) : Z :=
  let pat_len := Z.of_nat (length pattern) in
  let text_len := Z.of_nat (length text) in
  if (pat_len <=? 0) || (text_len <=? 0) then -1
  else
    let '(text_print, shift) :=
      fold_left (fun '(p, s) i => (print_step p (char_at text i), u64 (Z.shiftl s 4 + s))) (seqZ 0 pat_len) (0, 1) in
    kr_search_loop (Z.to_nat (text_len - pat_len + 1)) 0 text_print pat_print shift pattern text.

Definition kr_search (pattern text : list Z) : Z :=
  let pat_len := Z.of_nat (length pattern) in
  let text_len := Z.of_nat (length text) in
  if (pat_len <=? 0) || (text_len <=? 0) then -1
  else
    let '(text_print, pat_print, shift) :=
      fold_left (fun '(p, q, s) i =>
        (print_step p (char_at text i), print_step q (char_at pattern i), u64 (Z.shiftl s 4 + s)))
        (seqZ 0 pat_len) (0, 0, 1) in
    kr_search_loop (Z.to_nat (text_len - pat_len + 1)) 0 text_print pat_print shift pattern text.

(** ** Boyer, Moore and Horspool *)

(** [1 << (c & 0x1F)], an [int] that becomes a [long]. *)
Definition bloom_bit (c : Z) : Z := int32 (Z.shiftl 1 (Z.land (int8 c) 0x1F)).

(** The mask and the distance of the last other occurrence of the last byte. *)
Definition fast_prepare (pattern : list Z) : Z * Z :=
  let mlast := Z.of_nat (length pattern) - 1 in
  let '(mask, skip) :=
    fold_left (fun '(mask, skip) i =>
      (Z.lor mask (bloom_bit (char_at pattern i)),
       if char_at pattern i =? char_at pattern mlast then mlast - i - 1 else skip))
      (seqZ 0 mlast) (0, mlast - 1) in
  (Z.lor mask (bloom_bit (char_at pattern mlast)), skip).

(** [for (j = 0; j < mlast; j++) if (text[i+j] != pattern[j]) break]: the [j] it ends with. *)
Fixpoint mismatch (k : nat) (i j : Z) (pattern text : list Z) : Z :=
  match k with
  | O => j
  | S k' => if negb (char_at text (i + j) =? char_at pattern j) then j else mismatch k' i (j + 1) pattern text
  end.

Fixpoint fast_search_loop (fuel : nat) (i mask skip : Z) (pattern text : list Z) : option Z :=
  let pat_len := Z.of_nat (length pattern) in
  let mlast := pat_len - 1 in
  if Z.of_nat (length text) - pat_len <? i then Some (-1)
  else
    match fuel with
    | O => None
    | S fuel' =>
        let absent := Z.land mask (bloom_bit (char_at text (i + pat_len))) =? 0 in
        if char_at text (i + pat_len - 1) =? char_at pattern (pat_len - 1) then
          if mismatch (Z.to_nat mlast) i 0 pattern text =? mlast then Some i
          else fast_search_loop fuel' ((if absent then i + pat_len else i + skip) + 1) mask skip pattern text
        else fast_search_loop fuel' ((if absent then i + pat_len else i) + 1) mask skip pattern text
    end.

(** The loop for a pattern of one byte. *)
Fixpoint search_byte (k : nat) (i c : Z) (text : list Z) : Z :=
  match k with
  | O => -1
  | S k' => if char_at text i =? c then i else search_byte k' (i + 1) c text
  end.

Definition fast_search (pattern text : list Z) : option Z :=
  let pat_len := Z.of_nat (length pattern) in
  let text_len := Z.of_nat (length text) in
  if (pat_len <=? 0) || (text_len <=? 0) then Some (-1)
  else if text_len - pat_len <? 0 then Some (-1)
  else if pat_len <=? 1 then Some (search_byte (length text) 0 (char_at pattern 0) text)
  else
    let '(mask, skip) := fast_prepare pattern in
    fast_search_loop (length text) 0 mask skip pattern text.

(** ** First occurrence *)

Definition occurs_at (pattern text : list Z) (p : nat) : Prop :=
  (p + length pattern <= length text)%nat /\ take (length pattern) (drop p text) = pattern.

(** The position of the first occurrence, -1 when there is none. *)
Definition first_occurrence (pattern text : list Z) (r : Z) : Prop :=
  (r = -1 /\ forall p, ~ occurs_at pattern text p) \/
  (exists p, r = Z.of_nat p /\ occurs_at pattern text p /\ forall p', (p' < p)%nat -> ~ occurs_at pattern text p').

Lemma char_at_lookup s (i : nat) c : s !! i = Some c -> char_at s (Z.of_nat i) = c.
Proof.
  intros E. pose proof (lookup_lt_Some _ _ _ E). unfold char_at, zget.
  rewrite (proj2 (Z.leb_le _ _)), (proj2 (Z.ltb_lt _ _)) by lia. cbn [andb]. by rewrite Nat2Z.id, E.
Qed.

(** Reading positions in turn is folding over the list. *)
Lemma fold_char_at {A} (f : A -> Z -> A) s a (m k : nat) : (m + k <= length s)%nat ->
  fold_left (fun x i => f x (char_at s i)) (seqZ (Z.of_nat m) (Z.of_nat k)) a = fold_left f (take k (drop m s)) a.
Proof.
  revert m a. induction k as [| k IH]; intros m a L; [done |].
  rewrite Nat2Z.inj_succ, seqZ_cons, Z.pred_succ by lia. cbn [fold_left].
  destruct (lookup_lt_is_Some_2 s m) as [c E]; [lia |].
  rewrite (drop_S _ c m E). cbn [take fold_left]. rewrite (char_at_lookup s m c E).
  replace (Z.succ (Z.of_nat m)) with (Z.of_nat (S m)) by lia. apply IH. lia.
Qed.

Lemma memcmp_occurs pattern text p : (p + length pattern <= length text)%nat ->
  (memcmp pattern (drop p text) =? 0) = bool_decide (occurs_at pattern text p).
Proof.
  intros L. unfold occurs_at.
  assert (E : memcmp pattern (drop p text) = 0 <-> take (length pattern) (drop p text) = pattern).
  { assert (Hl : (length pattern <= length (drop p text))%nat) by (rewrite length_drop; lia).
    revert Hl. generalize (drop p text). clear. induction pattern as [| c s IH]; intros t Hl; [done |].
    destruct t as [| d t]; cbn [length] in Hl; [lia |]. cbn [memcmp length take].
    destruct (Z.eqb_spec c d) as [-> | Hne].
    - rewrite IH by lia. split; [by intros -> | congruence].
    - unfold cmp3. rewrite (proj2 (Z.eqb_neq _ _) Hne). split; [by destruct (c <? d) | congruence]. }
  destruct (Z.eqb_spec (memcmp pattern (drop p text)) 0) as [H | H]; symmetry;
    [apply bool_decide_true | apply bool_decide_false]; tauto.
Qed.

(** The scan that tries every position. *)
Lemma first_occurrence_scan pattern text (p : nat) :
  occurs_at pattern text p -> (forall p', (p' < p)%nat -> ~ occurs_at pattern text p') ->
  first_occurrence pattern text (Z.of_nat p).
Proof. intros H1 H2. right. by exists p. Qed.

Lemma first_occurrence_unique pattern text r1 r2 :
  first_occurrence pattern text r1 -> first_occurrence pattern text r2 -> r1 = r2.
Proof.
  intros [[-> H1] | (p & -> & O1 & H1)] [[-> H2] | (q & -> & O2 & H2)]; [done | by apply H1 in O2 | by apply H2 in O1 |].
  destruct (lt_eq_lt_dec p q) as [[L | ->] | L]; [by apply H2 in L | done | by apply H1 in L].
Qed.

(** ** The rolling hash *)

Definition hash_of (s : list Z) : Z := fold_left (fun h c => 17 * h + int8 c) s 0.

Lemma fold_hash s h : fold_left (fun h c => 17 * h + int8 c) s h = h * 17 ^ Z.of_nat (length s) + hash_of s.
Proof.
  unfold hash_of. revert h. induction s as [| c s IH]; intros h; cbn [fold_left length]; [simpl; lia |].
  rewrite IH, (IH (17 * 0 + _)), Nat2Z.inj_succ, Z.pow_succ_r by lia. ring.
Qed.

Lemma hash_cons c s : hash_of (c :: s) = int8 c * 17 ^ Z.of_nat (length s) + hash_of s.
Proof. unfold hash_of at 1. cbn [fold_left]. rewrite fold_hash. lia. Qed.

Lemma hash_snoc s d : hash_of (s ++ [d]) = 17 * hash_of s + int8 d.
Proof. unfold hash_of. by rewrite fold_left_app. Qed.

Lemma print_step_mod p c h : p = u64 h -> print_step p c = u64 (17 * h + int8 c).
Proof.
  intros ->. unfold print_step, wrapu. rewrite Z.shiftl_mul_pow2 by lia.
  rewrite <- (Zplus_mod_idemp_l (17 * h)), <- (Zmult_mod_idemp_r h), Zplus_mod_idemp_l. f_equal. ring.
Qed.

Lemma fold_print s p h : p = u64 h ->
  fold_left print_step s p = u64 (fold_left (fun h c => 17 * h + int8 c) s h).
Proof.
  revert p h. induction s as [| c s IH]; intros p h E; [done |]. cbn [fold_left].
  apply IH. by apply print_step_mod.
Qed.

Lemma fold_shift {A} (l : list A) s h : s = u64 h ->
  fold_left (fun s _ => u64 (Z.shiftl s 4 + s)) l s = u64 (h * 17 ^ Z.of_nat (length l)).
Proof.
  revert s h. induction l as [| x l IH]; intros s h E; cbn [fold_left length].
  { rewrite E. f_equal. simpl. lia. }
  rewrite (IH _ (17 * h)).
  - rewrite Nat2Z.inj_succ, Z.pow_succ_r by lia. f_equal. ring.
  - rewrite E. unfold wrapu. rewrite Z.shiftl_mul_pow2 by lia.
    rewrite <- (Zmult_mod_idemp_r h). f_equal. ring.
Qed.

Definition window (text : list Z) (n p : nat) : list Z := take n (drop p text).

(** Sliding the window by one byte. *)
Lemma slide text n p : (0 < n)%nat -> (p + n < length text)%nat ->
  hash_of (window text n (S p)) =
  17 * hash_of (window text n p) - int8 (char_at text (Z.of_nat p)) * 17 ^ Z.of_nat n +
  int8 (char_at text (Z.of_nat p + Z.of_nat n)).
Proof.
  intros Hn L. destruct n as [| n]; [lia |]. unfold window.
  destruct (lookup_lt_is_Some_2 text p) as [c Ec]; [lia |].
  destruct (lookup_lt_is_Some_2 text (p + S n)) as [d Ed]; [lia |].
  rewrite (drop_S _ c p Ec), (char_at_lookup _ _ _ Ec). cbn [take].
  replace (Z.of_nat p + Z.of_nat (S n)) with (Z.of_nat (p + S n)) by lia. rewrite (char_at_lookup _ _ _ Ed).
  assert (Hd : drop (S p) text !! n = Some d) by (rewrite lookup_drop; by rewrite <- Nat.add_succ_comm in Ed).
  rewrite (take_S_r _ _ _ Hd), hash_snoc, hash_cons, length_take_le by (rewrite length_drop; lia).
  rewrite Nat2Z.inj_succ, Z.pow_succ_r by lia. ring.
Qed.

Lemma kr_search_loop_spec k p text_print pat_print shift pattern text :
  (0 < length pattern)%nat -> (p + k + length pattern = S (length text))%nat ->
  pat_print = u64 (hash_of pattern) -> shift = u64 (17 ^ Z.of_nat (length pattern)) ->
  ((0 < k)%nat -> text_print = u64 (hash_of (window text (length pattern) p))) ->
  (forall p', (p' < p)%nat -> ~ occurs_at pattern text p') ->
  first_occurrence pattern text (kr_search_loop k (Z.of_nat p) text_print pat_print shift pattern text).
Proof.
  intros Hn. revert p text_print. induction k as [| k IH]; intros p text_print L Hp Hs Ht Hno.
  { left. split; [done |]. intros p' Ho. destruct (Ho) as [Hl _]. apply (Hno p'); [lia | done]. }
  cbn [kr_search_loop]. rewrite Nat2Z.id, memcmp_occurs by lia. specialize (Ht ltac:(lia)).
  destruct (bool_decide_reflect (occurs_at pattern text p)) as [Ho | Ho].
  - assert (E : pat_print = text_print) by (rewrite Hp, Ht; f_equal; f_equal; symmetry; apply Ho).
    rewrite E, Z.eqb_refl. by apply first_occurrence_scan.
  - rewrite andb_false_r. replace (Z.of_nat p + 1) with (Z.of_nat (S p)) by lia.
    apply IH; [lia | done | done | |].
    + intros Hk. rewrite Ht, Hs, slide by lia. unfold wrapu. rewrite Z.shiftl_mul_pow2 by lia.
      set (h := hash_of _). set (c := int8 _). set (d := int8 _). set (s := 17 ^ _).
      rewrite <- (Zplus_mod_idemp_l _ d), <- Zminus_mod_idemp_r, <- Zminus_mod_idemp_l.
      rewrite Zmult_mod_idemp_r, Zminus_mod_idemp_r.
      replace (h mod 2 ^ 64 * 2 ^ 4 + h mod 2 ^ 64) with (17 * (h mod 2 ^ 64)) by ring.
      rewrite Zmult_mod_idemp_r, Zminus_mod_idemp_l, Zplus_mod_idemp_l. done.
    + intros p' Hp'. destruct (decide (p' = p)) as [-> | Hne]; [done | apply Hno; lia].
Qed.

Lemma fold_pair {A B C} (f : A -> C -> A) (g : B -> C -> B) l a b :
  fold_left (fun '(x, y) i => (f x i, g y i)) l (a, b) = (fold_left f l a, fold_left g l b).
Proof. revert a b. induction l as [| i l IH]; intros a b; [done |]. apply IH. Qed.

Lemma fold_triple {A B C D} (f : A -> D -> A) (g : B -> D -> B) (h : C -> D -> C) l a b c :
  fold_left (fun '(x, y, z) i => (f x i, g y i, h z i)) l (a, b, c) =
  (fold_left f l a, fold_left g l b, fold_left h l c).
Proof. revert a b c. induction l as [| i l IH]; intros a b c; [done |]. apply IH. Qed.

Lemma hash_prefix s (n : nat) : (n <= length s)%nat ->
  fold_left (fun p i => print_step p (char_at s i)) (seqZ 0 (Z.of_nat n)) 0 = u64 (hash_of (window s n 0)).
Proof.
  intros L. transitivity (fold_left print_step (window s n 0) 0); [| by apply fold_print].
  apply (fold_char_at print_step s 0 0 n). lia.
Qed.

Lemma cal_print_spec pattern : cal_print pattern = u64 (hash_of pattern).
Proof.
  unfold cal_print. destruct pattern as [| c s]; [done |].
  rewrite (proj2 (Z.ltb_lt _ _)) by (simpl; lia). rewrite hash_prefix by done. unfold window.
  by rewrite drop_0, take_ge.
Qed.

(** A pattern longer than the text: the hash of bytes after it does not matter. *)
Lemma kr_loop_start text_print pat_print pattern text :
  pattern <> [] -> pat_print = u64 (hash_of pattern) ->
  text_print = fold_left (fun p i => print_step p (char_at text i)) (seqZ 0 (Z.of_nat (length pattern))) 0 ->
  first_occurrence pattern text
    (kr_search_loop (Z.to_nat (Z.of_nat (length text) - Z.of_nat (length pattern) + 1)) 0 text_print pat_print
       (fold_left (fun s _ => u64 (Z.shiftl s 4 + s)) (seqZ 0 (Z.of_nat (length pattern))) 1) pattern text).
Proof.
  intros Hne Hp Ht. assert (Hn : (0 < length pattern)%nat) by (by destruct pattern; [| simpl; lia]).
  destruct (decide (length pattern <= length text)%nat) as [L | L].
  - apply (kr_search_loop_spec _ 0); [done | lia | done | | | lia].
    + rewrite (fold_shift _ 1 1), length_seqZ, Nat2Z.id by done. f_equal. lia.
    + intros _. by rewrite Ht, hash_prefix.
  - replace (Z.to_nat _) with O by lia. left. split; [done |]. intros p [Hl _]. lia.
Qed.

Lemma kr_search_spec pattern text : pattern <> [] -> first_occurrence pattern text (kr_search pattern text).
Proof.
  intros Hne. unfold kr_search. assert (Hn : 0 < Z.of_nat (length pattern)) by (by destruct pattern; [| simpl; lia]).
  rewrite (proj2 (Z.leb_gt _ _) Hn). cbn [orb]. destruct (Z.leb_spec (Z.of_nat (length text)) 0) as [L | L].
  { left. split; [done |]. intros p [Hl _]. lia. }
  rewrite (fold_triple (fun p i => print_step p (char_at text i)) (fun q i => print_step q (char_at pattern i))
             (fun s _ => u64 (Z.shiftl s 4 + s))).
  apply kr_loop_start; [done | | done]. rewrite hash_prefix by done. unfold window. by rewrite drop_0, take_ge.
Qed.

Lemma kr_search_print_spec pattern text :
  pattern <> [] -> first_occurrence pattern text (kr_search_print pattern (cal_print pattern) text).
Proof.
  intros Hne. unfold kr_search_print. assert (Hn : 0 < Z.of_nat (length pattern)) by (by destruct pattern; [| simpl; lia]).
  rewrite (proj2 (Z.leb_gt _ _) Hn). cbn [orb]. destruct (Z.leb_spec (Z.of_nat (length text)) 0) as [L | L].
  { left. split; [done |]. intros p [Hl _]. lia. }
  rewrite (fold_pair (fun p i => print_step p (char_at text i)) (fun s _ => u64 (Z.shiftl s 4 + s))).
  apply kr_loop_start; [done | apply cal_print_spec | done].
Qed.

(** ** The skips of [fast_search] *)

(** An occurrence, byte by byte. *)
Lemma occurs_at_chars pattern text p : pattern <> [] ->
  occurs_at pattern text p <->
  (p + length pattern <= length text)%nat /\
  forall j, (j < length pattern)%nat -> char_at text (Z.of_nat (p + j)) = char_at pattern (Z.of_nat j).
Proof.
  intros Hne. unfold occurs_at. split; (intros [L H0]; split; [done |]; revert H0).
  - intros E j Hj. destruct (lookup_lt_is_Some_2 pattern j Hj) as [c Ec]. rewrite (char_at_lookup _ _ _ Ec).
    apply char_at_lookup. rewrite <- E, lookup_take, lookup_drop in Ec by done. by case_decide.
  - intros H. apply list_eq_same_length with (length pattern); [done | rewrite length_take, length_drop; lia |].
    intros j x y Hj Hx Hy. rewrite lookup_take, lookup_drop, decide_True in Hx by done.
    specialize (H j Hj). by rewrite (char_at_lookup _ _ _ Hx), (char_at_lookup _ _ _ Hy) in H.
Qed.

Lemma bloom_bit_testbit c : Z.testbit (bloom_bit c) (Z.land (int8 c) 0x1F) = true.
Proof.
  unfold bloom_bit. set (k := Z.land (int8 c) 0x1F).
  assert (Hk : 0 <= k < 32).
  { unfold k. change 0x1F with (Z.ones 5). rewrite Z.land_ones by lia. by apply Z.mod_pos_bound. }
  apply (fun H => forall_below 32 (fun k => Z.testbit (int32 (Z.shiftl 1 k)) k) H k Hk). by vm_compute.
Qed.

(** No false negatives: the bit of a byte of the pattern is in the mask. *)
Lemma bloom_member mask c : (forall b, Z.testbit (bloom_bit c) b = true -> Z.testbit mask b = true) ->
  Z.land mask (bloom_bit c) <> 0.
Proof.
  intros H E. assert (Hb := bloom_bit_testbit c). apply (f_equal (fun z => Z.testbit z (Z.land (int8 c) 0x1F))) in E.
  rewrite Z.land_spec, Hb, H, Z.bits_0 in E by done. done.
Qed.

Definition in_mask (mask c : Z) : Prop := forall b, Z.testbit (bloom_bit c) b = true -> Z.testbit mask b = true.

Lemma in_mask_lor_l mask m c : in_mask mask c -> in_mask (Z.lor mask m) c.
Proof. intros H b Hb. rewrite Z.lor_spec, (H b Hb). done. Qed.

Lemma in_mask_lor_r mask c : in_mask (Z.lor mask (bloom_bit c)) c.
Proof. intros b Hb. rewrite Z.lor_spec, Hb. apply orb_true_r. Qed.

(** What the preparation computes: every byte is in the mask, and between the
    last byte and its previous occurrence there are at least [skip] others. *)
Lemma fast_prepare_loop pattern (k : nat) : let mlast := Z.of_nat (length pattern) - 1 in
  Z.of_nat k <= mlast ->
  let '(mask, skip) :=
    fold_left (fun '(mask, skip) i =>
      (Z.lor mask (bloom_bit (char_at pattern i)),
       if char_at pattern i =? char_at pattern mlast then mlast - i - 1 else skip))
      (seqZ 0 (Z.of_nat k)) (0, mlast - 1) in
  (forall j, (j < k)%nat -> in_mask mask (char_at pattern (Z.of_nat j))) /\
  (0 < mlast -> 0 <= skip < mlast) /\
  (forall j, (j < k)%nat -> mlast - skip - 1 < Z.of_nat j -> char_at pattern (Z.of_nat j) <> char_at pattern mlast).
Proof.
  intros mlast. induction k as [| k IH]; intros Hk.
  { simpl. split_and!; [lia | lia | lia]. }
  replace (Z.of_nat (S k)) with (Z.of_nat k + 1) by lia.
  rewrite seqZ_app, fold_left_app by lia. specialize (IH ltac:(lia)).
  destruct (fold_left _ (seqZ 0 (Z.of_nat k)) _) as [mask skip]. destruct IH as (I1 & I2 & I3).
  change (seqZ (0 + Z.of_nat k) 1) with [0 + (0 + Z.of_nat k)]. rewrite !Z.add_0_l.
  cbn [fold_left]. split_and!.
  - intros j Hj. destruct (decide (j = k)) as [-> | Hne]; [apply in_mask_lor_r | apply in_mask_lor_l, I1; lia].
  - destruct (_ =? _); [lia | done].
  - intros j Hj. destruct (Z.eqb_spec (char_at pattern (Z.of_nat k)) (char_at pattern mlast)) as [E | E]; [lia |].
    destruct (decide (j = k)) as [-> | Hne]; [done | apply I3; lia].
Qed.

Lemma fast_prepare_spec pattern : (2 <= length pattern)%nat ->
  let mlast := Z.of_nat (length pattern) - 1 in
  let '(mask, skip) := fast_prepare pattern in
  (forall j, (j < length pattern)%nat -> in_mask mask (char_at pattern (Z.of_nat j))) /\ 0 <= skip < mlast /\
  (forall j, Z.of_nat j < mlast -> mlast - skip - 1 < Z.of_nat j ->
     char_at pattern (Z.of_nat j) <> char_at pattern mlast).
Proof.
  intros L mlast. unfold fast_prepare. fold mlast.
  pose proof (fast_prepare_loop pattern (length pattern - 1)) as P. cbv zeta in P. fold mlast in P.
  replace (Z.of_nat (length pattern - 1)) with mlast in P by lia. specialize (P ltac:(lia)).
  destruct (fold_left _ _ _) as [mask skip]. destruct P as (P1 & P2 & P3). split_and!.
  - intros j Hj. destruct (decide (Z.of_nat j = mlast)) as [-> | Hne]; [apply in_mask_lor_r |].
    apply in_mask_lor_l, P1. lia.
  - lia.
  - lia.
  - intros j Hj. apply P3. lia.
Qed.

Lemma mismatch_spec k (i j : nat) pattern text :
  mismatch k (Z.of_nat i) (Z.of_nat j) pattern text = Z.of_nat (j + k) <->
  forall m, (m < k)%nat -> char_at text (Z.of_nat (i + (j + m))) = char_at pattern (Z.of_nat (j + m)).
Proof.
  revert j. induction k as [| k IH]; intros j; cbn [mismatch].
  { split; [lia | rewrite Nat.add_0_r; done]. }
  rewrite <- Nat2Z.inj_add. destruct (Z.eqb_spec (char_at text (Z.of_nat (i + j))) (char_at pattern (Z.of_nat j))) as [E | E];
    cbn [negb].
  - replace (Z.of_nat j + 1) with (Z.of_nat (S j)) by lia. rewrite <- Nat.add_succ_comm. rewrite IH. split.
    + intros H [| m] Hm; [by rewrite Nat.add_0_r |]. rewrite <- Nat.add_succ_comm. apply H. lia.
    + intros H m Hm. rewrite Nat.add_succ_comm. apply H. lia.
  - split; [lia |]. intros H. specialize (H O ltac:(lia)). rewrite Nat.add_0_r in H. done.
Qed.

Section Skips.
Context (pattern text : list Z) (mask skip : Z) (HL : (2 <= length pattern)%nat).
Context (Hmask : forall j, (j < length pattern)%nat -> in_mask mask (char_at pattern (Z.of_nat j))).
Context (Hskip : 0 <= skip < Z.of_nat (length pattern) - 1).
Context (Hlast : forall j, Z.of_nat j < Z.of_nat (length pattern) - 1 ->
  Z.of_nat (length pattern) - 1 - skip - 1 < Z.of_nat j ->
  char_at pattern (Z.of_nat j) <> char_at pattern (Z.of_nat (length pattern) - 1)).

Let n := length pattern.

Lemma occurs_char p j : occurs_at pattern text p -> (j < n)%nat ->
  char_at text (Z.of_nat (p + j)) = char_at pattern (Z.of_nat j).
Proof. intros H. apply occurs_at_chars in H as [_ H]; [apply H | by destruct pattern; simpl in HL; [lia |]]. Qed.

(** The byte after the window is not in the pattern: no occurrence covers it. *)
Lemma skip_absent (i s : nat) :
  Z.land mask (bloom_bit (char_at text (Z.of_nat i + Z.of_nat n))) = 0 ->
  (1 <= s <= n)%nat -> ~ occurs_at pattern text (i + s).
Proof.
  intros E Hs Ho. pose proof (occurs_char (i + s) (n - s) Ho ltac:(lia)) as Hc.
  replace (i + s + (n - s))%nat with (i + n)%nat in Hc by lia. rewrite <- Nat2Z.inj_add, Hc in E.
  revert E. apply bloom_member, Hmask. lia.
Qed.

(** The last byte matches: no occurrence before its previous place is under it. *)
Lemma skip_last (i s : nat) :
  char_at text (Z.of_nat i + Z.of_nat n - 1) = char_at pattern (Z.of_nat n - 1) ->
  (1 <= s)%nat -> Z.of_nat s <= skip -> ~ occurs_at pattern text (i + s).
Proof.
  intros E Hs1 Hs2 Ho. pose proof (occurs_char (i + s) (n - 1 - s) Ho ltac:(lia)) as Hc.
  replace (i + s + (n - 1 - s))%nat with (i + (n - 1))%nat in Hc by lia.
  replace (Z.of_nat (i + (n - 1))) with (Z.of_nat i + Z.of_nat n - 1) in Hc by lia. rewrite E in Hc. symmetry in Hc.
  revert Hc. apply Hlast; lia.
Qed.

Lemma window_matches (i : nat) : (i + n <= length text)%nat ->
  char_at text (Z.of_nat i + Z.of_nat n - 1) = char_at pattern (Z.of_nat n - 1) ->
  (mismatch (Z.to_nat (Z.of_nat n - 1)) (Z.of_nat i) 0 pattern text = Z.of_nat n - 1 <-> occurs_at pattern text i).
Proof.
  intros L E. replace (Z.to_nat (Z.of_nat n - 1)) with (n - 1)%nat by lia.
  pose proof (mismatch_spec (n - 1) i 0 pattern text) as M. rewrite Nat.add_0_l in M.
  replace (Z.of_nat (n - 1)) with (Z.of_nat n - 1) in M by lia. rewrite M.
  rewrite occurs_at_chars by (by destruct pattern; simpl in HL; [lia |]). fold n. split.
  - intros H. split; [done |]. intros j Hj. destruct (decide (j = n - 1)%nat) as [-> | Hne]; [| apply H; lia].
    replace (Z.of_nat (i + (n - 1))) with (Z.of_nat i + Z.of_nat n - 1) by lia. rewrite E. f_equal. lia.
  - intros [_ H] m Hm. apply H. lia.
Qed.

Lemma not_before (i k : nat) :
  (forall p, (p < i)%nat -> ~ occurs_at pattern text p) -> ~ occurs_at pattern text i ->
  (forall s, (1 <= s <= k)%nat -> ~ occurs_at pattern text (i + s)) ->
  forall p, (p < i + k + 1)%nat -> ~ occurs_at pattern text p.
Proof.
  intros H1 H2 H3 p Hp. destruct (lt_eq_lt_dec p i) as [[L | ->] | L]; [by apply H1 | done |].
  replace p with (i + (p - i))%nat by lia. apply H3. lia.
Qed.

Lemma fast_search_loop_spec fuel (i : nat) :
  (length text - i <= fuel)%nat -> (forall p, (p < i)%nat -> ~ occurs_at pattern text p) ->
  exists r, fast_search_loop fuel (Z.of_nat i) mask skip pattern text = Some r /\ first_occurrence pattern text r.
Proof.
  revert i. induction fuel as [| fuel IH]; intros i Hf Hno; cbn [fast_search_loop]; fold n;
    (destruct (Z.ltb_spec (Z.of_nat (length text) - Z.of_nat n) (Z.of_nat i)) as [Hw | Hw];
     [exists (-1); split; [done |]; left; split; [done |]; intros p Ho; apply (Hno p); [destruct Ho; lia | done] |]); [lia |].
  set (absent := Z.land mask _ =? 0). set (k := if absent then n else O).
  assert (Habs : forall s, (1 <= s <= k)%nat -> ~ occurs_at pattern text (i + s)).
  { intros s Hs. unfold k, absent in Hs. destruct (Z.eqb_spec (Z.land mask (bloom_bit (char_at text (Z.of_nat i + Z.of_nat n)))) 0) as [E | E];
      [by apply skip_absent | lia]. }
  destruct (Z.eqb_spec (char_at text (Z.of_nat i + Z.of_nat n - 1)) (char_at pattern (Z.of_nat n - 1))) as [E | E].
  - pose proof (window_matches i ltac:(lia) E) as Hm.
    destruct (Z.eqb_spec (mismatch (Z.to_nat (Z.of_nat n - 1)) (Z.of_nat i) 0 pattern text) (Z.of_nat n - 1)) as [Em | Em].
    { exists (Z.of_nat i). split; [done |]. apply first_occurrence_scan; [by apply Hm | done]. }
    assert (Hni : ~ occurs_at pattern text i) by (intros Ho; by apply Em, Hm).
    destruct absent eqn:Ea.
    + replace (Z.of_nat i + Z.of_nat n + 1) with (Z.of_nat (i + n + 1)) by lia.
      apply IH; [lia |]. apply not_before; done.
    + replace (Z.of_nat i + skip + 1) with (Z.of_nat (i + Z.to_nat skip + 1)) by lia.
      apply IH; [lia |]. apply not_before; [done | done |]. intros s Hs. apply skip_last; [done | lia | lia].
  - assert (Hni : ~ occurs_at pattern text i).
    { intros Ho. apply E. pose proof (occurs_char i (n - 1) Ho ltac:(lia)) as Hc.
      by replace (Z.of_nat (i + (n - 1))) with (Z.of_nat i + Z.of_nat n - 1) in Hc by lia;
         replace (Z.of_nat (n - 1)) with (Z.of_nat n - 1) in Hc by lia. }
    destruct absent eqn:Ea; [replace (Z.of_nat i + Z.of_nat n + 1) with (Z.of_nat (i + n + 1)) by lia
                            | replace (Z.of_nat i + 1) with (Z.of_nat (i + 0 + 1)) by lia];
      (apply IH; [lia |]; by apply not_before).
Qed.
End Skips.

Lemma search_byte_spec k (i : nat) c text :
  (i + k = length text)%nat -> (forall p, (p < i)%nat -> ~ occurs_at [c] text p) ->
  first_occurrence [c] text (search_byte k (Z.of_nat i) c text).
Proof.
  revert i. induction k as [| k IH]; intros i L Hno; cbn [search_byte].
  { left. split; [done |]. intros p Ho. apply (Hno p); [destruct Ho; simpl in *; lia | done]. }
  assert (Ho : occurs_at [c] text i <-> char_at text (Z.of_nat i) = c).
  { rewrite occurs_at_chars by done. cbn [length]. split.
    - intros [_ H]. specialize (H O ltac:(lia)). by rewrite Nat.add_0_r in H.
    - intros H. split; [lia |]. intros j Hj. replace j with O by lia. by rewrite Nat.add_0_r, H. }
  destruct (Z.eqb_spec (char_at text (Z.of_nat i)) c) as [E | E].
  - apply first_occurrence_scan; [by apply Ho | done].
  - replace (Z.of_nat i + 1) with (Z.of_nat (S i)) by lia. apply IH; [lia |]. intros p Hp.
    destruct (decide (p = i)) as [-> | Hne]; [by rewrite Ho | apply Hno; lia].
Qed.

Lemma fast_search_spec pattern text : pattern <> [] ->
  exists r, fast_search pattern text = Some r /\ first_occurrence pattern text r.
Proof.
  intros Hne. unfold fast_search. assert (Hn : 0 < Z.of_nat (length pattern)) by (by destruct pattern; [| simpl; lia]).
  rewrite (proj2 (Z.leb_gt _ _) Hn). cbn [orb].
  assert (Hlong : forall z, (length text < length pattern)%nat -> exists r, Some z = Some r /\
    (z = -1 -> first_occurrence pattern text r)).
  { intros z L. exists z. split; [done |]. intros ->. left. split; [done |]. intros p [Hl _]. lia. }
  destruct (Z.leb_spec (Z.of_nat (length text)) 0); [destruct (Hlong (-1) ltac:(lia)) as (r & -> & R); eauto |].
  destruct (Z.ltb_spec (Z.of_nat (length text) - Z.of_nat (length pattern)) 0);
    [destruct (Hlong (-1) ltac:(lia)) as (r & -> & R); eauto |].
  destruct (Z.leb_spec (Z.of_nat (length pattern)) 1).
  - destruct pattern as [| c [|]]; [done | | simpl in *; lia]. eexists. split; [done |].
    change (char_at [c] 0) with (char_at [c] (Z.of_nat 0)). rewrite (char_at_lookup [c] 0 c eq_refl).
    apply (search_byte_spec _ 0); [done | lia].
  - pose proof (fast_prepare_spec pattern ltac:(lia)) as P. cbv zeta in P.
    destruct (fast_prepare pattern) as [mask skip]. destruct P as (P1 & P2 & P3).
    apply (fast_search_loop_spec pattern text mask skip ltac:(lia) P1 P2 P3 _ 0); lia.
Qed.

End Search.

(** ** Theorems *)

(** C13: substring search.  For a pattern that is not empty, Karp and Rabin's
    search, with the hash of the pattern computed on the way or beforehand,
    gives the position of the first occurrence in the text or -1, and so does
    the search of Boyer, Moore and Horspool, which always ends; none of them
    depends on the bytes after the text. *)
Theorem search_finds_first (outside : Z -> Z) (pattern text : list Z) (Hne : pattern <> []) :
  first_occurrence pattern text (kr_search outside pattern text) /\
  kr_search_print outside pattern (cal_print outside pattern) text = kr_search outside pattern text /\
  fast_search outside pattern text = Some (kr_search outside pattern text).
Proof.
  pose proof (kr_search_spec outside pattern text Hne) as K. split; [done |]. split.
  - eapply first_occurrence_unique; [by apply kr_search_print_spec | done].
  - destruct (fast_search_spec outside pattern text Hne) as (r & -> & R). f_equal.
    by eapply first_occurrence_unique.
Qed.

(** "aba" in "xababa", with any bytes after it *)
Lemma search_finds_first_witness :
  fast_search (fun i => i) [97; 98; 97] [120; 97; 98; 97; 98; 97] = Some 1 /\
  kr_search (fun _ => 255) [97; 98; 97] [120; 97; 98; 97; 98; 97] = 1.
Proof.
  destruct (search_finds_first (fun i => i) [97; 98; 97] [120; 97; 98; 97; 98; 97]) as (_ & _ & ->); [done |].
  by vm_compute.
Defined.
