(* ===== verification/Like.v ===== *)
(** * Like: the LIKE matcher of common/ob_string_search.cpp

    [is_matched] with its three short cuts ([check_if_do_opt]): patterns without
    wildcards ([str_cmp]), patterns of the form %text% ([my_strstr]) and patterns
    of % only; the general loop for the others.  A pointer into the pattern is the
    rest of the pattern from there on, a pointer into the text is a position, since
    the matcher also reads before the start of the text: those bytes are the
    parameter [outside]. *)

From S2P Require Import Prelude StringSearch.
Local Open Scope Z_scope.

Definition ESCAPE : Z := 92.
Definition PERCENT : Z := 37.
Definition UNDERSCORE : Z := 95.

Section Like.
Context (outside : Z -> Z).

(** ** The short cuts *)

Inductive MatchState := INIT | START_WITH_PERCENT | ESCAPING | NORMAL | END_WITH_PERCENT.

(** The local variables of [check_if_do_opt]. *)
Record OptState := mkOpt {
  state : MatchState;
  is_simple_pattern : bool;
  start_with_percent : bool;
  include_percent : bool;
  start : Z;
  end_ : Z;
  escape_count : Z;
}.

(** One turn of the loop; [None] is the early return. *)
Definition opt_step (o : OptState) (i c : Z) : option OptState :=
  let '(mkOpt st simple swp incl s e esc) := o in
  match st with
  | INIT =>
      if c =? UNDERSCORE then None
      else if c =? PERCENT then Some (mkOpt START_WITH_PERCENT false true incl s e esc)
      else if c =? ESCAPE then Some (mkOpt ESCAPING simple swp incl s e esc)
      else Some (mkOpt NORMAL simple swp incl s e esc)
  | START_WITH_PERCENT =>
      if c =? PERCENT then Some o
      else if c =? ESCAPE then Some (mkOpt ESCAPING simple swp incl i e (esc + 1))
      else Some (mkOpt NORMAL simple swp incl i e esc)
  | ESCAPING => Some (mkOpt NORMAL simple swp incl s e esc)
  | NORMAL =>
      if c =? UNDERSCORE then Some (mkOpt NORMAL false swp incl s e esc)
      else if c =? PERCENT then Some (mkOpt END_WITH_PERCENT false swp incl s (i - 1) esc)
      else if c =? ESCAPE then Some (mkOpt ESCAPING simple swp incl s e (esc + 1))
      else Some o
  | END_WITH_PERCENT =>
      if c =? PERCENT then Some o
      else if c =? ESCAPE then Some (mkOpt ESCAPING simple swp true s e esc)
      else Some (mkOpt NORMAL simple swp true s e esc)
  end.

Fixpoint opt_loop (i : Z) (pattern : list Z) (o : OptState) : option OptState :=
  match pattern with
  | [] => Some o
  | c :: pattern' => o ← opt_step o i c ; opt_loop (i + 1) pattern' o
  end.

(** What [check_if_do_opt] leaves in its reference arguments. *)
Record OptResult := mkOptResult {
  simple : bool;
  special : bool;
  opt_start : Z;
  opt_end : Z;
  opt_real_len : Z;
  all_percent : bool;
}.

Definition check_if_do_opt (pattern : list Z) : OptResult :=
  match opt_loop 0 pattern (mkOpt INIT true false false (-1) (-1) 0) with
  | None => mkOptResult false false (-1) (-1) 0 false
  | Some o =>
      let end_with_percent := match state o with END_WITH_PERCENT => true | _ => false end in
      let special := start_with_percent o && end_with_percent && negb (include_percent o) in
      mkOptResult (is_simple_pattern o) special (start o) (end_ o)
        (if special then end_ o - start o + 1 - escape_count o else 0)
        (match state o with START_WITH_PERCENT => true | _ => false end)
  end.

(** [j] and [k] of the source point at the heads of the two lists. *)
Fixpoint str_cmp (text pattern : list Z) {struct pattern} : bool :=
  match pattern with
  | [] => match text with [] => true | _ => false end
  | c :: pattern' =>
      match text with
      | [] => false
      | t :: text' =>
          if c =? ESCAPE then
            match pattern' with
            | [] => (t =? ESCAPE) && match text' with [] => true | _ => false end
            | c2 :: pattern'' => if c2 =? t then str_cmp text' pattern'' else false
            end
          else if c =? t then str_cmp text' pattern' else false
      end
  end.

(** [left] is the text from [pos] on. *)
Fixpoint is_str_equals (text : list Z) (pos p1 len1 : Z) (right : list Z) : bool :=
  match right with
  | [] => p1 =? len1
  | c :: right' =>
      let t := char_at outside text (pos + p1) in
      if c =? ESCAPE then
        match right' with
        | [] => (t =? ESCAPE) && (p1 =? len1 - 1)
        | c2 :: right'' => if t =? c2 then is_str_equals text pos (p1 + 1) len1 right'' else false
        end
      else if (c =? UNDERSCORE) || (c =? t) then is_str_equals text pos (p1 + 1) len1 right'
      else false
  end.

(** The positions [i], .., [i + k - 1]. *)
Fixpoint strstr_loop (k : nat) (text : list Z) (pos i : Z) (needle : list Z) (real_len : Z) : bool :=
  match k with
  | O => false
  | S k' => if is_str_equals text (pos + i) 0 real_len needle then true else strstr_loop k' text pos (i + 1) needle real_len
  end.

(** Whether the result is not NULL. *)
Definition my_strstr (text : list Z) (pos len1 : Z) (needle : list Z) (real_len : Z) (forward : bool) : bool :=
  if forward then strstr_loop (Z.to_nat (len1 - real_len + 1)) text pos 0 needle real_len
  else is_str_equals text (pos + len1 - real_len) 0 real_len needle.

(** ** The general loop *)

(** The inner loop over [p3]: the bytes before the next wildcard %, the escapes
    among them, and the pattern from the % on. *)
Fixpoint next_percent (pattern : list Z) : list Z * Z * list Z :=
  match pattern with
  | [] => ([], 0, [])
  | c :: pattern' =>
      if c =? ESCAPE then
        match pattern' with
        | [] => ([c], 0, [])
        | c2 :: pattern'' => let '(l, n, r) := next_percent pattern'' in (c :: c2 :: l, n + 1, r)
        end
      else if c =? PERCENT then ([], 0, pattern)
      else let '(l, n, r) := next_percent pattern' in (c :: l, n, r)
  end.

(** [is_matched], [p1] and the pattern from [p2] on when the loop ends. *)
Fixpoint match_loop (fuel : nat) (text : list Z) (p1 : Z) (pattern : list Z) : option (bool * Z * list Z) :=
  match pattern with
  | [] => Some (false, p1, pattern)
  | c :: pattern' =>
      if negb (p1 <? Z.of_nat (length text)) then Some (false, p1, pattern)
      else
        match fuel with
        | O => None
        | S fuel' =>
            let t := char_at outside text p1 in
            if c =? ESCAPE then
              match pattern' with
              | [] => if t =? ESCAPE then match_loop fuel' text (p1 + 1) pattern' else Some (false, p1, pattern)
              | c2 :: pattern'' =>
                  if t =? c2 then match_loop fuel' text (p1 + 1) pattern'' else Some (false, p1, pattern)
              end
            else if c =? PERCENT then
              let '(literal, escape_suc_count, rest) := next_percent pattern' in
              let last_star := (length rest =? 1)%nat in
              let literal_len := Z.of_nat (length literal) in
              let real_len := literal_len - escape_suc_count in
              let len1 := Z.of_nat (length text) - p1 in
              if last_star && (literal_len =? 0) then Some (true, p1, pattern)
              else if (length rest =? 0)%nat then Some (my_strstr text p1 len1 literal real_len false, p1, pattern)
              else if my_strstr text p1 len1 literal real_len true then match_loop fuel' text (p1 + literal_len) rest
              else Some (false, p1, pattern)
            else if (c =? UNDERSCORE) || (t =? c) then match_loop fuel' text (p1 + 1) pattern'
            else Some (false, p1, pattern)
        end
  end.

(** The loop and what follows it. *)
Definition match_from (fuel : nat) (text : list Z) (p1 : Z) (pattern : list Z) : option bool :=
  '(matched, p1, rest) ← match_loop fuel text p1 pattern ;
  Some (if (p1 =? Z.of_nat (length text)) && forallb (Z.eqb PERCENT) rest then true else matched).

Definition is_matched (pattern text : list Z) : option bool :=
  let o := check_if_do_opt pattern in
  if simple o then Some (str_cmp text pattern)
  else if special o then
    Some (my_strstr text 0 (Z.of_nat (length text))
            (take (Z.to_nat (opt_end o - opt_start o + 1)) (drop (Z.to_nat (opt_start o)) pattern))
            (opt_real_len o) true)
  else if all_percent o then Some true
  else match_from (length pattern) text 0 pattern.

(** ** What a pattern means *)

Inductive token := TChar (c : Z) | TOne | TAny.

(** A backslash takes the next byte literally, a last one stands for itself. *)
Fixpoint tokens (pattern : list Z) : list token :=
  match pattern with
  | [] => []
  | c :: pattern' =>
      if c =? ESCAPE then
        match pattern' with [] => [TChar ESCAPE] | c2 :: pattern'' => TChar c2 :: tokens pattern'' end
      else (if c =? PERCENT then TAny else if c =? UNDERSCORE then TOne else TChar c) :: tokens pattern'
  end.

Inductive like : list token -> list Z -> Prop :=
| like_nil : like [] []
| like_char c ts s : like ts s -> like (TChar c :: ts) (c :: s)
| like_one c ts s : like ts s -> like (TOne :: ts) (c :: s)
| like_any_none ts s : like ts s -> like (TAny :: ts) s
| like_any_more c ts s : like (TAny :: ts) s -> like (TAny :: ts) (c :: s).

(** ** Tokens *)

Definition no_any (ts : list token) : Prop := Forall (fun t => t <> TAny) ts.

Definition tok_match (t : token) (c : Z) : Prop :=
  match t with TChar d => d = c | TOne => True | TAny => False end.

#[global] Instance tok_match_dec t c : Decision (tok_match t c).
Proof. destruct t; simpl; apply _. Defined.

(** Patterns that do not end in an open escape. *)
Inductive closed : list Z -> Prop :=
| closed_nil : closed []
| closed_escape c p : closed p -> closed (ESCAPE :: c :: p)
| closed_cons c p : c <> ESCAPE -> closed p -> closed (c :: p).

Lemma tokens_cons c p : c <> ESCAPE ->
  tokens (c :: p) = (if c =? PERCENT then TAny else if c =? UNDERSCORE then TOne else TChar c) :: tokens p.
Proof. intros H. cbn [tokens]. by rewrite (proj2 (Z.eqb_neq _ _) H). Qed.

Lemma tokens_percent p : tokens (PERCENT :: p) = TAny :: tokens p.
Proof. done. Qed.

Lemma tokens_app p q : closed p -> tokens (p ++ q) = tokens p ++ tokens q.
Proof.
  induction 1 as [| c p H IH | c p Hc H IH]; [done | cbn; by rewrite IH |].
  rewrite <- app_comm_cons, !tokens_cons, IH by done. done.
Qed.

Lemma closed_app p q : closed p -> closed q -> closed (p ++ q).
Proof. induction 1; intros; [done | by constructor; auto .. ]. Qed.

Lemma closed_percents n : closed (replicate n PERCENT).
Proof. induction n; constructor; done. Qed.

Lemma tokens_percents n p : tokens (replicate n PERCENT ++ p) = replicate n TAny ++ tokens p.
Proof. induction n as [| n IH]; [done |]. cbn [replicate app]. by rewrite tokens_percent, IH. Qed.

Lemma closed_or_open p : closed p \/ exists p', closed p' /\ p = p' ++ [ESCAPE].
Proof.
  induction p as [p IH] using (induction_ltof1 _ (@length Z)). unfold ltof in IH.
  destruct p as [| c p]; [left; constructor |]. destruct (decide (c = ESCAPE)) as [-> | Hc].
  - destruct p as [| c2 p]; [right; exists []; split; [constructor | done] |].
    destruct (IH p) as [H | (p' & H & ->)]; [simpl; lia | left; by constructor |].
    right. exists (ESCAPE :: c2 :: p'). split; [by constructor | done].
  - destruct (IH p) as [H | (p' & H & ->)]; [simpl; lia | left; by constructor |].
    right. exists (c :: p'). split; [by constructor | done].
Qed.

Lemma tokens_length p : (length (tokens p) <= length p)%nat.
Proof.
  induction p as [p IH] using (induction_ltof1 _ (@length Z)). unfold ltof in IH.
  destruct p as [| c p]; [done |]. destruct (decide (c = ESCAPE)) as [-> | Hc].
  - destruct p as [| c2 p]; [done |]. cbn. pose proof (IH p ltac:(simpl; lia)). lia.
  - rewrite tokens_cons by done. pose proof (IH p ltac:(simpl; lia)). simpl. lia.
Qed.

(** ** Matching at a position *)

Definition match_at (ts : list token) (text : list Z) (p : nat) : Prop :=
  (p + length ts <= length text)%nat /\ Forall2 tok_match ts (take (length ts) (drop p text)).

#[global] Instance match_at_dec ts text p : Decision (match_at ts text p).
Proof. unfold match_at. apply _. Defined.

Lemma match_at_nil text p : (p <= length text)%nat -> match_at [] text p.
Proof. intros L. split; [simpl; lia | constructor]. Qed.

Lemma match_at_cons t ts text p :
  match_at (t :: ts) text p <->
  (p < length text)%nat /\ tok_match t (char_at outside text (Z.of_nat p)) /\ match_at ts text (S p).
Proof.
  unfold match_at. cbn [length]. split.
  - intros [L H]. destruct (lookup_lt_is_Some_2 text p) as [c E]; [lia |].
    rewrite (drop_S _ c p E) in H. cbn [take] in H. apply Forall2_cons in H as [H1 H2].
    rewrite (char_at_lookup outside _ _ _ E). split_and!; (done || lia).
  - intros (L & H1 & L2 & H2). destruct (lookup_lt_is_Some_2 text p) as [c E]; [lia |].
    rewrite (char_at_lookup outside _ _ _ E) in H1. split; [lia |]. rewrite (drop_S _ c p E). cbn [take].
    by apply Forall2_cons.
Qed.

Lemma match_at_app ts1 ts2 text p :
  match_at (ts1 ++ ts2) text p <-> match_at ts1 text p /\ match_at ts2 text (p + length ts1).
Proof.
  revert p. induction ts1 as [| t ts1 IH]; intros p.
  - cbn [app length]. rewrite Nat.add_0_r. split; [| tauto]. intros H. split; [| done].
    apply match_at_nil. destruct H. lia.
  - cbn [app length]. rewrite !match_at_cons, IH. rewrite <- Nat.add_succ_comm. tauto.
Qed.

(** Literal tokens fix the position, % leaves it open. *)
Lemma like_literal ts ts' text p : no_any ts -> (p <= length text)%nat ->
  like (ts ++ ts') (drop p text) <-> match_at ts text p /\ like ts' (drop (p + length ts) text).
Proof.
  intros Hn. revert p. induction Hn as [| t ts Ht Hn IH]; intros p L.
  { cbn [app length]. rewrite Nat.add_0_r. split; [| tauto]. split; [by apply match_at_nil | done]. }
  cbn [app length]. rewrite match_at_cons. destruct (decide (p < length text)%nat) as [Hp | Hp].
  - destruct (lookup_lt_is_Some_2 text p) as [c E]; [lia |].
    rewrite (char_at_lookup outside _ _ _ E), (drop_S _ c p E), <- Nat.add_succ_comm.
    specialize (IH (S p) ltac:(lia)). split.
    + intros H. inversion H; subst; try congruence;
      (match goal with Hl : like (ts ++ ts') _ |- _ => apply IH in Hl as [Hl1 Hl2] end; by split_and!).
    + intros ((_ & Hm & H1) & H2). destruct t; simpl in Hm; subst; try done; constructor; tauto.
  - rewrite drop_ge by lia. split; [| lia]. intros H. inversion H; by subst.
Qed.

Lemma like_any ts text p : (p <= length text)%nat ->
  like (TAny :: ts) (drop p text) <-> exists q, (p <= q <= length text)%nat /\ like ts (drop q text).
Proof.
  intros L. split.
  - remember (drop p text) as s eqn:Es. remember (TAny :: ts) as ts0 eqn:Et. intros H. revert p L Es.
    induction H; intros p L Es; simplify_eq; [by exists p; split; [lia |]; subst |].
    destruct (decide (p < length text)%nat) as [Hp | Hp]; [| by rewrite drop_ge in Es by lia].
    destruct (lookup_lt_is_Some_2 text p) as [d E]; [lia |]. rewrite (drop_S _ d p E) in Es. simplify_eq.
    destruct (IHlike eq_refl (S p)) as (q & Hq & Hl); [lia | done |]. exists q. split; [lia | done].
  - intros (q & [Hq1 Hq2] & H). induction (Nat.le_exists_sub p q Hq1) as (k & -> & _).
    clear L Hq1. revert p Hq2 H. induction k as [| k IH]; intros p Hq2 H; [by constructor |].
    destruct (lookup_lt_is_Some_2 text p) as [d E]; [lia |]. rewrite (drop_S _ d p E). apply like_any_more.
    apply IH; [lia |]. by replace (k + S p)%nat with (S k + p)%nat by lia.
Qed.

Lemma like_anys n ts s : like (replicate (S n) TAny ++ ts) s <-> like (TAny :: ts) s.
Proof.
  induction n as [| n IH]; [done |]. cbn [replicate app] in *. rewrite <- IH. split.
  - intros H. rewrite <- (drop_0 s) in H. apply like_any in H as (q & Hq & H); [| lia].
    rewrite <- (drop_0 s). apply like_any in H as (q' & Hq' & H); [| lia]. apply like_any; [lia |].
    exists q'. split; [lia | done].
  - intros H. by apply like_any_none.
Qed.

Lemma like_end s : like [] s <-> s = [].
Proof. split; [intros H; by inversion H | intros ->; constructor]. Qed.

(** ** The helpers of the matcher *)

Lemma tok_match_byte c t : c <> PERCENT ->
  tok_match (if c =? PERCENT then TAny else if c =? UNDERSCORE then TOne else TChar c) t <->
  (c =? UNDERSCORE) || (c =? t) = true.
Proof.
  intros Hc. rewrite (proj2 (Z.eqb_neq _ _) Hc). destruct (c =? UNDERSCORE); simpl; [tauto |]. by rewrite Z.eqb_eq.
Qed.

Lemma no_any_cons c p : c <> ESCAPE -> no_any (tokens (c :: p)) -> c <> PERCENT /\ no_any (tokens p).
Proof.
  intros Hc H. rewrite tokens_cons in H by done. apply Forall_cons in H as [H1 H2]. split; [| done].
  intros ->. by apply H1.
Qed.

Lemma is_str_equals_spec text (pos p1 : nat) needle :
  no_any (tokens needle) -> (pos + p1 + length (tokens needle) <= length text)%nat ->
  is_str_equals text (Z.of_nat pos) (Z.of_nat p1) (Z.of_nat (p1 + length (tokens needle))) needle = true <->
  match_at (tokens needle) text (pos + p1).
Proof.
  revert p1. induction needle as [needle IH] using (induction_ltof1 _ (@length Z)). unfold ltof in IH.
  intros p1 Hn L. destruct needle as [| c p].
  { cbn [is_str_equals tokens length]. rewrite Z.eqb_eq. split; [intros _; apply match_at_nil; cbn in L; lia | lia]. }
  cbn [is_str_equals]. rewrite <- Nat2Z.inj_add. destruct (Z.eqb_spec c ESCAPE) as [-> | Hc].
  - destruct p as [| c2 p]; cbn [tokens Z.eqb] in *.
    + change (ESCAPE =? ESCAPE) with true in *. cbn [length] in *. rewrite match_at_cons. cbn [tok_match].
      rewrite andb_true_iff, !Z.eqb_eq. split; [intros [<- _] | intros (_ & -> & _); split; lia].
      split_and!; [lia | done | apply match_at_nil; lia].
    + change (ESCAPE =? ESCAPE) with true in *. cbn [length] in *. apply Forall_cons in Hn as [_ Hn].
      rewrite match_at_cons. cbn [tok_match]. specialize (IH p ltac:(simpl; lia) (S p1) Hn ltac:(lia)).
      replace (Z.of_nat p1 + 1) with (Z.of_nat (S p1)) by lia. rewrite Nat.add_succ_r in IH. rewrite <- IH.
      replace (S p1 + length (tokens p))%nat with (p1 + S (length (tokens p)))%nat by lia.
      destruct (Z.eqb_spec (char_at outside text (Z.of_nat (pos + p1))) c2) as [E | E];
        [| split; [done | intros (_ & ? & _); congruence]].
      split; [| tauto]. intros H. split_and!; (done || lia).
  - destruct (no_any_cons c p Hc Hn) as [Hp Hn']. rewrite tokens_cons in * by done. cbn [length] in *.
    rewrite match_at_cons, tok_match_byte by done. specialize (IH p ltac:(simpl; lia) (S p1) Hn' ltac:(lia)).
    replace (Z.of_nat p1 + 1) with (Z.of_nat (S p1)) by lia. rewrite Nat.add_succ_r in IH. rewrite <- IH.
    replace (S p1 + length (tokens p))%nat with (p1 + S (length (tokens p)))%nat by lia.
    destruct ((c =? UNDERSCORE) || (c =? _)); [| split; [done | intros (_ & ? & _); congruence]].
    split; [| tauto]. intros H. split_and!; (done || lia).
Qed.

Lemma strstr_loop_spec k text (pos i : nat) needle :
  no_any (tokens needle) -> (pos + i + k + length (tokens needle) <= S (length text))%nat ->
  strstr_loop k text (Z.of_nat pos) (Z.of_nat i) needle (Z.of_nat (length (tokens needle))) = true <->
  exists j, (j < k)%nat /\ match_at (tokens needle) text (pos + i + j).
Proof.
  intros Hn. revert i. induction k as [| k IH]; intros i L; cbn [strstr_loop].
  { split; [done | intros (j & Hj & _); lia]. }
  pose proof (is_str_equals_spec text (pos + i) 0 needle Hn ltac:(lia)) as E.
  rewrite Nat.add_0_l, Nat.add_0_r in E. change (Z.of_nat 0) with 0 in E. rewrite <- Nat2Z.inj_add.
  destruct (is_str_equals _ _ _ _ _).
  - split; [| done]. intros _. exists O. split; [lia |]. rewrite Nat.add_0_r. by apply E.
  - replace (Z.of_nat i + 1) with (Z.of_nat (S i)) by lia. rewrite (IH (S i) ltac:(lia)). split.
    + intros (j & Hj & Hm). exists (S j). split; [lia |]. by replace (pos + i + S j)%nat with (pos + S i + j)%nat by lia.
    + intros ([| j] & Hj & Hm); [rewrite Nat.add_0_r in Hm; by apply E in Hm |]. exists j. split; [lia |].
      by replace (pos + S i + j)%nat with (pos + i + S j)%nat by lia.
Qed.

Lemma my_strstr_forward text (pos : nat) needle :
  no_any (tokens needle) -> (pos <= length text)%nat ->
  my_strstr text (Z.of_nat pos) (Z.of_nat (length text) - Z.of_nat pos) needle (Z.of_nat (length (tokens needle))) true
    = true <->
  exists q, (pos <= q)%nat /\ match_at (tokens needle) text q.
Proof.
  intros Hn L. unfold my_strstr. set (m := length (tokens needle)).
  set (k := Z.to_nat (Z.of_nat (length text) - Z.of_nat pos - Z.of_nat m + 1)).
  destruct (decide (pos + m <= length text)%nat) as [Hm | Hm].
  - pose proof (strstr_loop_spec k text pos 0 needle Hn ltac:(fold m; lia)) as S. cbv zeta in S. fold m in S.
    change (Z.of_nat 0) with 0 in S. rewrite S, Nat.add_0_r. split.
    + intros (j & _ & Hj). exists (pos + j)%nat. split; [lia | done].
    + intros (q & Hq & Hj). exists (q - pos)%nat. replace (pos + (q - pos))%nat with q by lia.
      split; [| done]. destruct Hj as [Hj _]. fold m in Hj. lia.
  - replace k with O by lia. split; [done |]. intros (q & Hq & [Hl _]). fold m in Hl. lia.
Qed.

Lemma my_strstr_backward text (pos : nat) needle :
  no_any (tokens needle) -> (pos + length (tokens needle) <= length text)%nat ->
  my_strstr text (Z.of_nat pos) (Z.of_nat (length text) - Z.of_nat pos) needle (Z.of_nat (length (tokens needle))) false
    = true <->
  match_at (tokens needle) text (length text - length (tokens needle)).
Proof.
  intros Hn L. unfold my_strstr. set (m := length (tokens needle)) in *.
  replace (Z.of_nat pos + (Z.of_nat (length text) - Z.of_nat pos) - Z.of_nat m) with (Z.of_nat (length text - m)) by lia.
  pose proof (is_str_equals_spec text (length text - m) 0 needle Hn ltac:(fold m; lia)) as E.
  by rewrite Nat.add_0_l, Nat.add_0_r in E.
Qed.

Lemma str_cmp_spec text pattern :
  Forall (fun t => exists c, t = TChar c) (tokens pattern) ->
  str_cmp text pattern = true <-> Forall2 tok_match (tokens pattern) text.
Proof.
  revert text. induction pattern as [p IH] using (induction_ltof1 _ (@length Z)). unfold ltof in IH. intros text Hs.
  destruct p as [| c p]; [destruct text; cbn; split; try done; intros H; by inversion H |].
  destruct text as [| t text]; [cbn [str_cmp]; split; [done |]; intros H; apply Forall2_length in H;
    destruct (decide (c = ESCAPE)) as [-> | Hc]; [by destruct p | by rewrite tokens_cons in H] |].
  cbn [str_cmp]. destruct (Z.eqb_spec c ESCAPE) as [-> | Hc].
  - destruct p as [| c2 p]; cbn [tokens] in *; change (ESCAPE =? ESCAPE) with true in *.
    + rewrite Forall2_cons, andb_true_iff, Z.eqb_eq. cbn [tok_match].
      destruct text; [split; [intros [-> _]; done | intros [-> _]; done] |].
      split; [by intros [_ ?] | intros [_ H]; by inversion H].
    + rewrite Forall2_cons. cbn [tok_match]. apply Forall_cons in Hs as [_ Hs].
      destruct (Z.eqb_spec c2 t) as [E | E]; [| split; [done | intros [? _]; congruence]].
      rewrite IH by (done || simpl; lia). tauto.
  - rewrite tokens_cons in * by done. apply Forall_cons in Hs as [[d Hd] Hs].
    rewrite Forall2_cons, Hd. cbn [tok_match].
    destruct (c =? PERCENT), (c =? UNDERSCORE); simplify_eq.
    destruct (Z.eqb_spec d t) as [E | E]; [| split; [done | intros [? _]; congruence]].
    rewrite IH by (done || simpl; lia). tauto.
Qed.

Lemma next_percent_spec p :
  let '(literal, n, rest) := next_percent p in
  p = literal ++ rest /\ no_any (tokens literal) /\
  n = Z.of_nat (length literal) - Z.of_nat (length (tokens literal)) /\
  (rest = [] \/ closed literal /\ exists r, rest = PERCENT :: r).
Proof.
  induction p as [p IH] using (induction_ltof1 _ (@length Z)). unfold ltof in IH.
  destruct p as [| c p]; [split_and!; [done | constructor | done | by left] |].
  cbn [next_percent]. destruct (Z.eqb_spec c ESCAPE) as [-> | Hc].
  - destruct p as [| c2 p]; [split_and!; [done | by repeat constructor | done | by left] |].
    specialize (IH p ltac:(simpl; lia)). destruct (next_percent p) as [[l n] r].
    destruct IH as (-> & H2 & -> & H4). split_and!; [done | by constructor | cbn; lia |].
    destruct H4 as [-> | [H4 Hr]]; [by left | right; split; [by constructor | done]].
  - destruct (Z.eqb_spec c PERCENT) as [-> | Hp].
    { split_and!; [done | constructor | done | right; split; [constructor | by eexists]]. }
    specialize (IH p ltac:(simpl; lia)). destruct (next_percent p) as [[l n] r].
    destruct IH as (-> & H2 & -> & H4). split_and!; [done | | rewrite tokens_cons by done; simpl; lia |].
    + rewrite tokens_cons by done. constructor; [| done]. rewrite (proj2 (Z.eqb_neq _ _) Hp). by destruct (_ =? _).
    + destruct H4 as [-> | [H4 Hr]]; [by left | right; split; [by constructor | done]].
Qed.

(** ** The general loop *)

Lemma match_from_end fuel text (p1 : nat) :
  (p1 <= length text)%nat -> match_from fuel text (Z.of_nat p1) [] = Some (p1 =? length text)%nat.
Proof.
  intros L. unfold match_from. destruct fuel; cbn; rewrite andb_true_r;
    destruct (Z.eqb_spec (Z.of_nat p1) (Z.of_nat (length text))), (Nat.eqb_spec p1 (length text)); (done || lia).
Qed.

(** The text is used up. *)
Lemma match_from_used_up fuel text pattern :
  match_from fuel text (Z.of_nat (length text)) pattern = Some (forallb (Z.eqb PERCENT) pattern).
Proof.
  unfold match_from. destruct pattern as [| c p]; [by destruct fuel; cbn; rewrite Z.eqb_refl |].
  assert (E : match_loop fuel text (Z.of_nat (length text)) (c :: p) = Some (false, Z.of_nat (length text), c :: p))
    by (destruct fuel; cbn [match_loop]; by rewrite Z.ltb_irrefl).
  rewrite E. cbn [mbind option_bind]. rewrite Z.eqb_refl. by destruct (forallb _ _).
Qed.

Lemma finish_stuck (text : list Z) (p1 : nat) (b : bool) (rest : list Z) : (p1 < length text)%nat ->
  (if (Z.of_nat p1 =? Z.of_nat (length text)) && forallb (Z.eqb PERCENT) rest then true else b) = b.
Proof. intros L. by rewrite (proj2 (Z.eqb_neq _ _)) by lia. Qed.

(** The turns of the loop while there is text. *)
Lemma match_from_escape fuel text (p1 : nat) c p : (p1 < length text)%nat ->
  match_from (S fuel) text (Z.of_nat p1) (ESCAPE :: c :: p) =
  if char_at outside text (Z.of_nat p1) =? c then match_from fuel text (Z.of_nat (S p1)) p else Some false.
Proof.
  intros L. unfold match_from. cbn [match_loop]. rewrite (proj2 (Z.ltb_lt _ _)) by lia. cbn [negb].
  change (ESCAPE =? ESCAPE) with true. cbv iota.
  destruct (_ =? c); [by replace (Z.of_nat p1 + 1) with (Z.of_nat (S p1)) by lia |].
  cbn [mbind option_bind]. by rewrite finish_stuck by lia.
Qed.

Lemma match_from_open fuel text (p1 : nat) : (p1 < length text)%nat ->
  match_from (S fuel) text (Z.of_nat p1) [ESCAPE] =
  if char_at outside text (Z.of_nat p1) =? ESCAPE then match_from fuel text (Z.of_nat (S p1)) [] else Some false.
Proof.
  intros L. unfold match_from. cbn [match_loop]. rewrite (proj2 (Z.ltb_lt _ _)) by lia. cbn [negb].
  change (ESCAPE =? ESCAPE) with true. cbv iota.
  destruct (_ =? ESCAPE); [by replace (Z.of_nat p1 + 1) with (Z.of_nat (S p1)) by lia |].
  cbn [mbind option_bind]. by rewrite finish_stuck by lia.
Qed.

Lemma match_from_char fuel text (p1 : nat) c p : (p1 < length text)%nat -> c <> ESCAPE -> c <> PERCENT ->
  match_from (S fuel) text (Z.of_nat p1) (c :: p) =
  if (c =? UNDERSCORE) || (c =? char_at outside text (Z.of_nat p1)) then match_from fuel text (Z.of_nat (S p1)) p
  else Some false.
Proof.
  intros L He Hp. unfold match_from. cbn [match_loop]. rewrite (proj2 (Z.ltb_lt _ _)) by lia. cbn [negb].
  rewrite (proj2 (Z.eqb_neq _ _) He), (proj2 (Z.eqb_neq _ _) Hp), (Z.eqb_sym (char_at _ _ _) c).
  destruct (_ || _); [by replace (Z.of_nat p1 + 1) with (Z.of_nat (S p1)) by lia |].
  cbn [mbind option_bind]. by rewrite finish_stuck by lia.
Qed.

(** One token and the rest of a literal. *)
Lemma match_at_step t ts text (p1 : nat) (b : bool) (k : option bool) :
  (p1 < length text)%nat -> (tok_match t (char_at outside text (Z.of_nat p1)) <-> b = true) ->
  (if b then if decide (match_at ts text (S p1)) then k else Some false else Some false) =
  (if decide (match_at (t :: ts) text p1) then k else Some false).
Proof.
  intros L Hb. destruct (decide (match_at (t :: ts) text p1)) as [M | M]; rewrite match_at_cons in M.
  - destruct M as (_ & Ht & M). apply Hb in Ht as ->. by rewrite decide_True.
  - destruct b; [| done]. rewrite decide_False; [done |]. intros Hm. apply M. split_and!; [done | by apply Hb | done].
Qed.

Lemma match_prefix (p q text : list Z) fuel (p1 : nat) :
  closed p -> no_any (tokens p) -> (length p + length q <= fuel)%nat -> (p1 <= length text)%nat ->
  exists f, (length q <= f)%nat /\ match_from fuel text (Z.of_nat p1) (p ++ q) =
    if decide (match_at (tokens p) text p1) then match_from f text (Z.of_nat (p1 + length (tokens p))) q
    else Some false.
Proof.
  intros Hc. revert fuel p1. induction Hc as [| c p Hc IH | c p Hne Hc IH]; intros fuel p1 Hn Hf L.
  { exists fuel. split; [simpl in Hf; lia |]. rewrite decide_True by (by apply match_at_nil).
    cbn [tokens length app]. by rewrite Nat.add_0_r. }
  all: destruct (decide (p1 = length text)) as [-> | Hp1];
    [exists (length q); split; [done |];
     rewrite decide_False by (intros [H _]; first [rewrite tokens_cons in H by done | idtac]; cbn in H; lia);
     rewrite match_from_used_up |].
  - done.
  - destruct fuel as [| fuel]; [simpl in Hf; lia |]. cbn [tokens] in *. change (ESCAPE =? ESCAPE) with true in *. cbv iota in *.
    apply Forall_cons in Hn as [_ Hn]. cbn [app]. rewrite match_from_escape by lia.
    destruct (IH fuel (S p1) Hn ltac:(simpl in Hf; lia) ltac:(lia)) as (f & Hf' & ->). exists f. split; [done |].
    cbn [length]. rewrite <- Nat.add_succ_comm. apply match_at_step; [lia |]. cbn [tok_match]. rewrite Z.eqb_eq. split; congruence.
  - rewrite <- app_comm_cons. cbn [forallb]. destruct (no_any_cons c p Hne Hn) as [Hp _].
    by rewrite (proj2 (Z.eqb_neq _ _)) by congruence.
  - destruct fuel as [| fuel]; [simpl in Hf; lia |]. destruct (no_any_cons c p Hne Hn) as [Hp Hn'].
    cbn [app]. rewrite match_from_char by (done || lia). rewrite tokens_cons by done.
    destruct (IH fuel (S p1) Hn' ltac:(simpl in Hf; lia) ltac:(lia)) as (f & Hf' & ->). exists f. split; [done |].
    cbn [length]. rewrite <- Nat.add_succ_comm. apply match_at_step; [lia | by apply tok_match_byte].
Qed.

Lemma match_from_percent fuel text (p1 : nat) p : (p1 < length text)%nat ->
  match_from (S fuel) text (Z.of_nat p1) (PERCENT :: p) =
  let '(l, n, r) := next_percent p in
  let len1 := Z.of_nat (length text) - Z.of_nat p1 in
  if (length r =? 1)%nat && (Z.of_nat (length l) =? 0) then Some true
  else if (length r =? 0)%nat then Some (my_strstr text (Z.of_nat p1) len1 l (Z.of_nat (length (tokens l))) false)
  else if my_strstr text (Z.of_nat p1) len1 l (Z.of_nat (length (tokens l))) true
  then match_from fuel text (Z.of_nat (p1 + length l)) r else Some false.
Proof.
  intros L. unfold match_from at 1. cbn [match_loop]. rewrite (proj2 (Z.ltb_lt _ _)) by lia. cbn [negb].
  change (PERCENT =? ESCAPE) with false. change (PERCENT =? PERCENT) with true. cbv iota.
  pose proof (next_percent_spec p) as N. destruct (next_percent p) as [[l n] r]. destruct N as (_ & _ & -> & _).
  replace (Z.of_nat (length l) - (Z.of_nat (length l) - Z.of_nat (length (tokens l))))
    with (Z.of_nat (length (tokens l))) by lia. rewrite <- Nat2Z.inj_add. cbv zeta.
  destruct (_ && _); [cbn [mbind option_bind]; by rewrite finish_stuck by lia |].
  destruct (length r =? 0)%nat; [cbn [mbind option_bind]; by rewrite finish_stuck by lia |].
  destruct (my_strstr _ _ _ _ _ _); [done |]. cbn [mbind option_bind]. by rewrite finish_stuck by lia.
Qed.

Lemma next_percent_literal p : no_any (tokens p) ->
  next_percent p = (p, Z.of_nat (length p) - Z.of_nat (length (tokens p)), []).
Proof.
  intros Hn. pose proof (next_percent_spec p) as N. destruct (next_percent p) as [[l n] r].
  destruct N as (-> & _ & -> & [-> | (Hc & r' & ->)]); [by rewrite app_nil_r |].
  rewrite tokens_app, tokens_percent in Hn by done. apply Forall_app in Hn as [_ Hn].
  by apply Forall_cons in Hn as [[] _].
Qed.

Lemma next_percent_closed p r : closed p -> no_any (tokens p) ->
  next_percent (p ++ PERCENT :: r) = (p, Z.of_nat (length p) - Z.of_nat (length (tokens p)), PERCENT :: r).
Proof.
  induction 1 as [| c p Hc IH | c p Hne Hc IH]; intros Hn; [done | |].
  - cbn [tokens] in *. change (ESCAPE =? ESCAPE) with true in *. cbv iota in *. apply Forall_cons in Hn as [_ Hn].
    cbn [app next_percent]. change (ESCAPE =? ESCAPE) with true. cbv iota. rewrite IH by done. f_equal. f_equal. simpl. lia.
  - destruct (no_any_cons c p Hne Hn) as [Hp Hn']. cbn [app next_percent].
    rewrite (proj2 (Z.eqb_neq _ _) Hne), (proj2 (Z.eqb_neq _ _) Hp), IH, tokens_cons by done.
    f_equal. f_equal. simpl. lia.
Qed.

(** After a last % the rest of the pattern has to end the text. *)
Lemma like_suffix ts text (p1 : nat) : no_any ts -> (p1 <= length text)%nat ->
  like (TAny :: ts) (drop p1 text) <->
  (p1 + length ts <= length text)%nat /\ match_at ts text (length text - length ts).
Proof.
  intros Hn L. rewrite like_any by done. split.
  - intros (q & Hq & Hl). rewrite <- (app_nil_r ts) in Hl. apply like_literal in Hl as [Hm He]; [| done | lia].
    apply like_end in He. apply (f_equal length) in He. rewrite length_drop in He. cbn in He. destruct (Hm) as [Hl _].
    split; [lia |]. by replace (length text - length ts)%nat with q by lia.
  - intros [Hl Hm]. exists (length text - length ts)%nat. split; [lia |].
    destruct (like_literal ts [] text (length text - length ts) Hn ltac:(lia)) as [_ H]. rewrite app_nil_r in H.
    apply H. split; [done |]. apply like_end. apply drop_ge. lia.
Qed.

Lemma tokens_nonempty c p : tokens (c :: p) <> [].
Proof. cbn [tokens]. destruct (c =? ESCAPE); [by destruct p | done]. Qed.

Lemma forallb_percents k p : forallb (Z.eqb PERCENT) (replicate k PERCENT ++ p) = forallb (Z.eqb PERCENT) p.
Proof. induction k as [| k IH]; [done |]. apply IH. Qed.

Lemma forallb_literal p : no_any (tokens p) -> forallb (Z.eqb PERCENT) p = true <-> tokens p = [].
Proof.
  intros Hn. destruct p as [| c p]; [done |]. split; [| intros E; by destruct (tokens_nonempty c p)].
  cbn [forallb]. rewrite andb_true_iff, Z.eqb_eq. intros [<- _]. rewrite tokens_percent in Hn.
  by apply Forall_cons in Hn as [[] _].
Qed.

(** Where the last part of a pattern is compared with the end of the text,
    bytes before the position reached must not be needed. *)
Definition reaches_back (pos n : nat) (text : list Z) : Prop := (pos < length text < pos + n)%nat.

Lemma skip_percent fuel text (p1 : nat) p : (p1 < length text)%nat -> p <> [] ->
  match_from (S fuel) text (Z.of_nat p1) (PERCENT :: PERCENT :: p) = match_from fuel text (Z.of_nat p1) (PERCENT :: p).
Proof.
  intros L Hp. rewrite match_from_percent by done. change (next_percent (PERCENT :: p)) with (@nil Z, 0, PERCENT :: p).
  cbv zeta. cbn [length]. rewrite (proj2 (Nat.eqb_neq (S (length p)) 1)) by (destruct p; [done | simpl; lia]).
  cbn [andb Nat.eqb]. rewrite Nat.add_0_r.
  assert (E : my_strstr text (Z.of_nat p1) (Z.of_nat (length text) - Z.of_nat p1) []
                (Z.of_nat (length (tokens []))) true = true).
  { apply my_strstr_forward; [constructor | lia |]. exists p1. split; [lia |]. apply match_at_nil. lia. }
  by rewrite E.
Qed.

Lemma match_percents_end (a : nat) suf text fuel (p1 : nat) :
  no_any (tokens suf) -> (S a + length suf <= fuel)%nat -> (p1 <= length text)%nat ->
  ~ reaches_back p1 (length (tokens suf)) text ->
  exists b, match_from fuel text (Z.of_nat p1) (replicate (S a) PERCENT ++ suf) = Some b /\
    (b = true <-> (p1 + length (tokens suf) <= length text)%nat /\
      match_at (tokens suf) text (length text - length (tokens suf))).
Proof.
  intros Hn. revert fuel. induction a as [| a IH]; intros fuel Hf L Hr.
  all: destruct (decide (p1 = length text)) as [-> | Hp1];
    [eexists; split; [apply match_from_used_up |]; rewrite forallb_percents, forallb_literal by done; split;
      [intros ->; split; [simpl; lia | apply match_at_nil; lia] | intros [Hl _]; by destruct (tokens suf); [| simpl in Hl; lia]] |].
  all: unfold reaches_back in Hr; destruct fuel as [| fuel]; [lia |]; cbn [replicate app].
  - rewrite match_from_percent, next_percent_literal by (done || lia). cbv zeta. cbn [length Nat.eqb andb].
    eexists. split; [done |]. rewrite my_strstr_backward by (done || lia). split; [intros H; split; [lia | done] | tauto].
  - destruct (replicate a PERCENT ++ suf) as [| c p] eqn:E.
    + apply app_eq_nil in E as [E ->]. exists true. rewrite match_from_percent by lia. split; [done |].
      split; [| done]. intros _. split; [simpl; lia | apply match_at_nil; lia].
    + rewrite skip_percent by (done || lia). cbn [replicate app] in IH. rewrite E in IH.
      apply IH; [cbn [length] in *; lia | done | done].
Qed.

Lemma match_percents (a : nat) suf text fuel (p1 : nat) :
  no_any (tokens suf) -> (S a + length suf <= fuel)%nat -> (p1 <= length text)%nat ->
  ~ reaches_back p1 (length (tokens suf)) text ->
  exists b, match_from fuel text (Z.of_nat p1) (replicate (S a) PERCENT ++ suf) = Some b /\
    (b = true <-> like (TAny :: tokens suf) (drop p1 text)).
Proof.
  intros Hn Hf L Hr. destruct (match_percents_end a suf text fuel p1 Hn Hf L Hr) as (b & E & Hb).
  exists b. split; [done |]. by rewrite like_suffix.
Qed.

(** A part between two % that has no escapes. *)
Definition plain (p : list Z) : Prop := Forall (fun c => c <> ESCAPE /\ c <> PERCENT) p.

Lemma plain_spec p : plain p -> closed p /\ no_any (tokens p) /\ length (tokens p) = length p.
Proof.
  induction 1 as [| c p [He Hp] _ (I1 & I2 & I3)]; [split_and!; constructor |].
  rewrite tokens_cons by done. split_and!; [by constructor | | simpl; lia]. constructor; [| done].
  rewrite (proj2 (Z.eqb_neq _ _) Hp). by destruct (_ =? _).
Qed.

Lemma like_infix ts n text (p1 : nat) : no_any ts -> (p1 <= length text)%nat ->
  like (TAny :: ts ++ replicate (S n) TAny) (drop p1 text) <-> exists q, (p1 <= q)%nat /\ match_at ts text q.
Proof.
  intros Hn L. rewrite like_any by done. split.
  - intros (q & Hq & Hl). apply like_literal in Hl as [Hm _]; [| done | lia]. exists q. split; [lia | done].
  - intros (q & Hq & Hm). destruct (Hm) as [Hl _]. exists q. split; [lia |]. apply like_literal; [done | lia |].
    split; [done |]. rewrite <- (app_nil_r (replicate _ _)). apply like_anys, like_any; [lia |].
    exists (length text). split; [lia |]. rewrite drop_ge by lia. constructor.
Qed.

Lemma match_infix (a b : nat) inf text fuel (p1 : nat) :
  plain inf -> inf <> [] -> (S a + length inf + S b <= fuel)%nat -> (p1 <= length text)%nat ->
  exists m, match_from fuel text (Z.of_nat p1) (replicate (S a) PERCENT ++ inf ++ replicate (S b) PERCENT) = Some m /\
    (m = true <-> exists q, (p1 <= q)%nat /\ match_at (tokens inf) text q).
Proof.
  intros Hpl Hne. destruct (plain_spec inf Hpl) as (Hc & Hn & Hlen).
  assert (Hpos : (0 < length inf)%nat) by (by destruct inf; [| simpl; lia]).
  revert fuel. induction a as [| a IH]; intros fuel Hf L.
  all: destruct (decide (p1 = length text)) as [-> | Hp1];
    [exists false; split;
      [rewrite match_from_used_up; f_equal; rewrite forallb_percents, forallb_app; destruct inf as [| c inf]; [done |];
       apply Forall_cons in Hpl as [[_ Hp] _]; cbn [forallb]; by rewrite (proj2 (Z.eqb_neq _ _)) by congruence
      | split; [done |]; intros (q & Hq & [Hl _]); lia] |].
  all: destruct fuel as [| fuel]; [lia |]; cbn [replicate app].
  - rewrite match_from_percent by lia. cbn [replicate]. rewrite next_percent_closed by done. cbv zeta.
    rewrite (proj2 (Z.eqb_neq (Z.of_nat (length inf)) 0)), andb_false_r by lia. cbn [length Nat.eqb].
    pose proof (my_strstr_forward text p1 inf Hn L) as F. destruct (my_strstr _ _ _ _ _ true).
    2: { exists false. split; [done |]. by rewrite <- F. }
    destruct F as [F _]. specialize (F eq_refl). exists true. split; [| by split].
    destruct F as (q & Hq & [Hl _]). rewrite Hlen in Hl.
    destruct (match_percents b [] text fuel (p1 + length inf) (Forall_nil_2 _)) as (m & E & Hm);
      [simpl; lia | lia | unfold reaches_back; simpl; lia |].
    rewrite app_nil_r in E. cbn [replicate] in E. rewrite E. f_equal. apply Hm. apply like_any; [lia |].
    exists (length text). split; [lia |]. rewrite drop_ge by lia. constructor.
  - rewrite skip_percent; [apply IH; lia | lia |]. by destruct (replicate a PERCENT); [destruct inf |].
Qed.

(** The patterns, and the texts for them, on which the general loop is right:
    no %; one run of %, unless the part after it reaches back before the part
    already matched; two runs of % at the second of which the pattern ends,
    without escapes between them. *)
Inductive like_shape : list Z -> list Z -> Prop :=
| shape_literal p text : no_any (tokens p) -> like_shape p text
| shape_suffix p a suf text :
    closed p -> no_any (tokens p) -> no_any (tokens suf) ->
    ~ reaches_back (length (tokens p)) (length (tokens suf)) text ->
    like_shape (p ++ replicate (S a) PERCENT ++ suf) text
| shape_infix p a inf b text :
    closed p -> no_any (tokens p) -> plain inf -> inf <> [] ->
    like_shape (p ++ replicate (S a) PERCENT ++ inf ++ replicate (S b) PERCENT) text.

Lemma like_whole ts text : like ts text <-> like ts (drop 0 text).
Proof. by rewrite drop_0. Qed.

Lemma like_literal_whole ts text : no_any ts ->
  like ts text <-> match_at ts text 0 /\ (length text <= length ts)%nat.
Proof.
  intros Hn. rewrite like_whole. pose proof (like_literal ts [] text 0 Hn ltac:(lia)) as Hl.
  rewrite app_nil_r in Hl. rewrite Hl, like_end. apply and_iff_compat_l. rewrite Nat.add_0_l.
  split; [| intros; by apply drop_ge]. intros E. apply (f_equal length) in E. rewrite length_drop in E. simpl in E. lia.
Qed.

Lemma match_literal_end p text : no_any (tokens p) ->
  exists b, match_from (length p) text 0 p = Some b /\
    (b = true <-> match_at (tokens p) text 0 /\ (length text <= length (tokens p))%nat).
Proof.
  intros Hn.
  destruct (closed_or_open p) as [Hc | (p' & Hc & ->)].
  - destruct (match_prefix p [] text (length p) 0 Hc Hn) as (f & _ & E); [simpl; lia | lia |].
    rewrite app_nil_r in E. change (Z.of_nat 0) with 0 in E. rewrite E. destruct (decide _) as [M | M].
    + destruct (M) as [Hl _]. rewrite match_from_end by done. eexists. split; [done |]. rewrite Nat.eqb_eq. split; [| lia].
      intros H. split; [done | lia].
    + exists false. split; [done |]. split; [done | tauto].
  - rewrite tokens_app in * by done. apply Forall_app in Hn as [Hn _]. change (tokens [ESCAPE]) with [TChar ESCAPE].
    assert (Hr : match_at (tokens p' ++ [TChar ESCAPE]) text 0 <-> match_at (tokens p') text 0 /\
      (length (tokens p') < length text)%nat /\ ESCAPE = char_at outside text (Z.of_nat (length (tokens p')))).
    { rewrite match_at_app, match_at_cons. cbn [tok_match]. rewrite Nat.add_0_l. split; [tauto |].
      intros (H1 & H2 & H3). split_and!; try done. apply match_at_nil. lia. }
    destruct (match_prefix p' [ESCAPE] text (length (p' ++ [ESCAPE])) 0 Hc Hn) as (f & Hf & E);
      [rewrite length_app; simpl; lia | lia |].
    change (Z.of_nat 0) with 0 in E. cbn [length] in Hf. rewrite E. destruct (decide _) as [M | M].
    2: { exists false. split; [done |]. split; [done | tauto]. }
    rewrite Nat.add_0_l. destruct (M) as [Hl _]. destruct (decide (length (tokens p') = length text)) as [Ee | Ee].
    + rewrite Ee, match_from_used_up. exists false. split; [done |]. split; [done |]. rewrite Hr. lia.
    + destruct f as [| f]; [lia |]. rewrite match_from_open by lia.
      destruct (Z.eqb_spec (char_at outside text (Z.of_nat (length (tokens p')))) ESCAPE) as [Ec | Ec].
      * rewrite match_from_end by lia. eexists. split; [done |]. rewrite Nat.eqb_eq, Hr, length_app. cbn [length].
        split; [intros H; split_and!; (done || lia) | lia].
      * exists false. split; [done |]. split; [done |]. rewrite Hr. intros ((_ & _ & ?) & _). congruence.
Qed.

Lemma match_literal p text : no_any (tokens p) ->
  exists b, match_from (length p) text 0 p = Some b /\ (b = true <-> like (tokens p) text).
Proof.
  intros Hn. destruct (match_literal_end p text Hn) as (b & E & Hb). exists b. split; [done |].
  by rewrite like_literal_whole.
Qed.

Lemma like_prefix p q text : closed p -> no_any (tokens p) ->
  like (tokens (p ++ q)) text <-> match_at (tokens p) text 0 /\ like (tokens q) (drop (length (tokens p)) text).
Proof. intros Hc Hn. by rewrite tokens_app, like_whole, like_literal by (done || lia). Qed.

(** Matching the part before the first %, then the rest from there. *)
Lemma match_after_prefix p q text : closed p -> no_any (tokens p) ->
  (forall f, (length q <= f)%nat -> (length (tokens p) <= length text)%nat ->
     exists b, match_from f text (Z.of_nat (length (tokens p))) q = Some b /\
       (b = true <-> like (tokens q) (drop (length (tokens p)) text))) ->
  exists b, match_from (length (p ++ q)) text 0 (p ++ q) = Some b /\ (b = true <-> like (tokens (p ++ q)) text).
Proof.
  intros Hc Hn H. destruct (match_prefix p q text (length (p ++ q)) 0 Hc Hn) as (f & Hf & E);
    [by rewrite length_app | lia |].
  change (Z.of_nat 0) with 0 in E. rewrite E, Nat.add_0_l. destruct (decide _) as [M | M].
  - destruct (H f Hf) as (b & -> & Hb); [by destruct M |]. exists b. split; [done |]. rewrite Hb, like_prefix by done. tauto.
  - exists false. split; [done |]. rewrite like_prefix by done. split; [done | tauto].
Qed.

Lemma match_general p text : like_shape p text ->
  exists b, match_from (length p) text 0 p = Some b /\ (b = true <-> like (tokens p) text).
Proof.
  intros [p' text' Hn | p' a suf text' Hc Hn Hs Hr | p' a inf b text' Hc Hn Hpl Hne]; [by apply match_literal | |];
    apply match_after_prefix; try done; intros f Hf L; rewrite !length_app, !length_replicate in Hf.
  - destruct (match_percents a suf text' f (length (tokens p')) Hs) as (b & -> & Hb); [lia | lia | done |].
    exists b. split; [done |]. by rewrite Hb, tokens_percents, like_anys.
  - destruct (match_infix a b inf text' f (length (tokens p')) Hpl Hne) as (m & -> & Hm); [lia | lia |].
    exists m. split; [done |]. destruct (plain_spec inf Hpl) as (Hci & Hni & _).
    rewrite Hm, tokens_percents, like_anys, tokens_app by done.
    rewrite <- (app_nil_r (replicate (S b) PERCENT)), tokens_percents.
    cbn [tokens]. by rewrite app_nil_r, like_infix by done.
Qed.

(** ** The short cuts *)

Definition all_chars (p : list Z) : Prop := Forall (fun t => exists c, t = TChar c) (tokens p).

(** The pattern read so far is a run of % and a literal with [esc] escapes. *)
Definition percent_literal (done : list Z) (start esc : Z) : Prop :=
  exists a lit, done = replicate (S a) PERCENT ++ lit /\ closed lit /\ no_any (tokens lit) /\
    start = Z.of_nat (S a) /\ esc = Z.of_nat (length lit) - Z.of_nat (length (tokens lit)).

(** What the local variables say of the bytes read. *)
Definition opt_inv (done : list Z) (o : OptState) : Prop :=
  let tracked := start_with_percent o = true /\ include_percent o = false in
  match state o with
  | INIT => done = [] /\ o = mkOpt INIT true false false (-1) (-1) 0
  | START_WITH_PERCENT =>
      (exists a, done = replicate (S a) PERCENT) /\ is_simple_pattern o = false /\ escape_count o = 0
  | NORMAL =>
      (is_simple_pattern o = true -> closed done /\ all_chars done) /\
      (tracked -> percent_literal done (start o) (escape_count o))
  | ESCAPING =>
      exists d, done = d ++ [ESCAPE] /\ (is_simple_pattern o = true -> closed d /\ all_chars d) /\
        (tracked -> percent_literal d (start o) (escape_count o - 1))
  | END_WITH_PERCENT =>
      is_simple_pattern o = false /\
      (tracked -> exists d b, done = d ++ replicate (S b) PERCENT /\
         percent_literal d (start o) (escape_count o) /\ end_ o = Z.of_nat (length d) - 1)
  end.

Lemma closed_snoc p c : closed p -> c <> ESCAPE -> closed (p ++ [c]).
Proof. intros H Hc. apply closed_app; [done |]. by repeat constructor. Qed.

Lemma all_chars_app p q : closed p -> all_chars p -> all_chars q -> all_chars (p ++ q).
Proof. intros Hc H1 H2. unfold all_chars. rewrite tokens_app by done. by apply Forall_app. Qed.

Lemma all_chars_byte c : c <> ESCAPE -> c <> PERCENT -> c <> UNDERSCORE -> all_chars [c].
Proof.
  intros H1 H2 H3. unfold all_chars. rewrite tokens_cons, (proj2 (Z.eqb_neq _ _) H2), (proj2 (Z.eqb_neq _ _) H3) by done.
  constructor; [by eexists | constructor].
Qed.

Lemma percent_literal_start a : percent_literal (replicate (S a) PERCENT) (Z.of_nat (S a)) 0.
Proof. exists a, []. rewrite app_nil_r. split_and!; [done | constructor | constructor | done | done]. Qed.

Lemma percent_literal_byte d s esc c : c <> ESCAPE -> c <> PERCENT ->
  percent_literal d s esc -> percent_literal (d ++ [c]) s esc.
Proof.
  intros H1 H2 (a & lit & -> & Hc & Hn & -> & ->). exists a, (lit ++ [c]). rewrite tokens_app, app_assoc by done.
  split_and!; [done | by apply closed_snoc | | done | rewrite !length_app, tokens_cons by done; simpl; lia].
  apply Forall_app. split; [done |]. rewrite tokens_cons, (proj2 (Z.eqb_neq _ _) H2) by done.
  constructor; [by destruct (_ =? _) | constructor].
Qed.

Lemma percent_literal_escape d s esc c :
  percent_literal d s (esc - 1) -> percent_literal ((d ++ [ESCAPE]) ++ [c]) s esc.
Proof.
  intros (a & lit & -> & Hc & Hn & -> & E). exists a, (lit ++ [ESCAPE; c]). rewrite tokens_app, <- !app_assoc by done.
  split_and!; [done | apply closed_app; [done | by repeat constructor] | | done | rewrite !length_app; simpl; lia].
  apply Forall_app. split; [done |]. by repeat constructor.
Qed.

Lemma opt_step_inv done o o' c : opt_inv done o ->
  opt_step o (Z.of_nat (length done)) c = Some o' -> opt_inv (done ++ [c]) o'.
Proof.
  destruct o as [st simple swp incl s e esc]. unfold opt_inv. cbn [state is_simple_pattern start_with_percent include_percent start end_ escape_count].
  destruct st; cbn [opt_step].
  - intros [-> [= -> -> -> -> -> ->]]. cbn [app].
    destruct (Z.eqb_spec c UNDERSCORE) as [| Hu]; [done |]. destruct (Z.eqb_spec c PERCENT) as [-> | Hp];
      [| destruct (Z.eqb_spec c ESCAPE) as [-> | He]]; intros [= <-]; cbn.
    { split; [by exists O | done]. }
    { exists []. split; [done |]. split; [intros _; split; constructor | by intros []]. }
    split; [intros _; split; [by apply (closed_snoc [] c); [constructor |] | by apply all_chars_byte] | by intros []].
  - intros ([a ->] & -> & ->). rewrite length_replicate.
    destruct (Z.eqb_spec c PERCENT) as [-> | Hp]; [| destruct (Z.eqb_spec c ESCAPE) as [-> | He]]; intros [= <-]; cbn.
    { split; [| done]. exists (S a). by rewrite <- replicate_cons_app. }
    { exists (replicate (S a) PERCENT). split; [done |]. split; [done |]. intros _. apply percent_literal_start. }
    split; [done |]. intros _. apply (percent_literal_byte (replicate (S a) PERCENT)); [done | done | apply percent_literal_start].
  - intros (d & -> & H1 & H2) [= <-]. cbn. split.
    + intros Hs. destruct (H1 Hs) as [Hc Ha]. rewrite <- app_assoc. split; [apply closed_app; [done | by repeat constructor] |].
      apply all_chars_app; [done | done |]. unfold all_chars. cbn. constructor; [by eexists | constructor].
    + intros Ht. apply percent_literal_escape. by apply H2.
  - intros [H1 H2]. destruct (Z.eqb_spec c UNDERSCORE) as [-> | Hu].
    { intros [= <-]. cbn. split; [done |]. intros Ht. by apply percent_literal_byte, H2. }
    destruct (Z.eqb_spec c PERCENT) as [-> | Hp]; [| destruct (Z.eqb_spec c ESCAPE) as [-> | He]]; intros [= <-]; cbn.
    + split; [done |]. intros Ht. exists done, O. split_and!; [done | by apply H2 | done].
    + exists done. split; [done |]. split; [done |]. intros Ht. replace (esc + 1 - 1) with esc by lia. by apply H2.
    + split; [| intros Ht; by apply percent_literal_byte, H2]. intros Hs. destruct (H1 Hs) as [Hc Ha].
      split; [by apply closed_snoc | apply all_chars_app; [done | done | by apply all_chars_byte]].
  - intros [-> H2]. destruct (Z.eqb_spec c PERCENT) as [-> | Hp]; [| destruct (Z.eqb_spec c ESCAPE) as [-> | He]]; intros [= <-]; cbn.
    + split; [done |]. intros Ht. destruct (H2 Ht) as (d & b & -> & Hd & ->). exists d, (S b). split_and!; [| done | done].
      rewrite <- app_assoc. f_equal. by rewrite <- replicate_cons_app.
    + exists done. split; [done |]. split; [done | by intros [_ ?]].
    + split; [done | by intros [_ ?]].
Qed.

Lemma opt_loop_inv p done o o' : opt_inv done o ->
  opt_loop (Z.of_nat (length done)) p o = Some o' -> opt_inv (done ++ p) o'.
Proof.
  revert done o. induction p as [| c p IH]; intros done o Hi; cbn [opt_loop].
  { intros [= <-]. by rewrite app_nil_r. }
  destruct (opt_step o (Z.of_nat (length done)) c) as [o1 |] eqn:E; [| done]. cbn [mbind option_bind]. intros Hl.
  rewrite cons_middle, app_assoc. apply (IH (done ++ [c]) o1); [by eapply opt_step_inv |].
  rewrite length_app. cbn [length]. by rewrite Nat2Z.inj_add.
Qed.

(** What the short cuts rely on. *)
Lemma check_if_do_opt_spec p :
  let o := check_if_do_opt p in
  (simple o = true -> all_chars p) /\
  (special o = true -> exists a lit b, p = replicate (S a) PERCENT ++ lit ++ replicate (S b) PERCENT /\
     closed lit /\ no_any (tokens lit) /\ opt_start o = Z.of_nat (S a) /\
     opt_end o - opt_start o + 1 = Z.of_nat (length lit) /\ opt_real_len o = Z.of_nat (length (tokens lit))) /\
  (all_percent o = true -> exists a, p = replicate (S a) PERCENT).
Proof.
  unfold check_if_do_opt. destruct (opt_loop 0 p _) as [o |] eqn:E; [| done].
  pose proof (opt_loop_inv p [] (mkOpt INIT true false false (-1) (-1) 0) o (conj eq_refl eq_refl) E) as Hi. cbn [app] in Hi. clear E.
  destruct o as [st simple swp incl s e esc]. unfold opt_inv in Hi. cbn in *.
  destruct st; cbn in *; rewrite ?andb_false_r; cbn [andb].
  - destruct Hi as [-> _]. split_and!; [constructor | done | done].
  - destruct Hi as ([a ->] & -> & ->). split_and!; [done | done | by exists a].
  - destruct Hi as (d & -> & H1 & _). split_and!; [| done | done]. intros Hs. destruct (H1 Hs) as [Hc Ha].
    apply all_chars_app; [done | done |]. unfold all_chars. cbn. constructor; [by eexists | constructor].
  - destruct Hi as (H1 & _). split_and!; [by intros Hs; apply H1 | done | done].
  - destruct Hi as (-> & H2). split_and!; [done | | done]. rewrite andb_true_r.
    destruct swp, incl; try done. intros _. destruct H2 as (d & b & -> & (a & lit & -> & Hc & Hn & -> & ->) & ->); [done |].
    exists a, lit, b. cbn [andb negb]. rewrite length_app, length_replicate. split_and!; [by rewrite app_assoc | done | done | done | lia | lia].
Qed.

Lemma is_matched_spec p text : like_shape p text \/ special (check_if_do_opt p) = true ->
  exists b, is_matched p text = Some b /\ (b = true <-> like (tokens p) text).
Proof.
  intros Hs. unfold is_matched. destruct (check_if_do_opt_spec p) as (O1 & O2 & O3).
  destruct (simple (check_if_do_opt p)) eqn:E1.
  { eexists. split; [done |]. specialize (O1 eq_refl). rewrite str_cmp_spec by done.
    rewrite like_literal_whole by (eapply Forall_impl; [exact O1 |]; by intros ? [? ->]).
    unfold match_at. rewrite drop_0, Nat.add_0_l. split.
    - intros H. pose proof (Forall2_length _ _ _ H). split; [split; [lia |] | lia]. by rewrite take_ge by lia.
    - intros [[L H] L']. by rewrite take_ge in H by lia. }
  destruct (special (check_if_do_opt p)) eqn:E2.
  { destruct (O2 eq_refl) as (a & lit & b & E & Hc & Hn & -> & -> & ->). eexists. split; [done |].
    rewrite !Nat2Z.id, E. rewrite drop_app_length' by (by rewrite length_replicate).
    rewrite take_app_length' by done. pose proof (my_strstr_forward text 0 lit Hn ltac:(lia)) as F.
    rewrite Z.sub_0_r in F. rewrite F, tokens_percents, like_anys, tokens_app by done.
    rewrite <- (app_nil_r (replicate (S b) PERCENT)), tokens_percents. cbn [tokens].
    rewrite app_nil_r, like_whole, like_infix by (done || lia). done. }
  destruct (all_percent (check_if_do_opt p)) eqn:E3.
  { destruct (O3 eq_refl) as [a ->]. exists true. split; [done |]. split; [intros _ | done].
    rewrite <- (app_nil_r (replicate _ _)), tokens_percents, like_anys, like_whole. apply like_any; [lia |].
    exists (length text). split; [lia |]. rewrite drop_ge by lia. constructor. }
  destruct Hs as [Hs | Hs]; [by apply match_general | done].
Qed.
End Like.

(** ** Theorems *)

(** C10: LIKE.  For a pattern without %, a pattern with one run of %, a pattern
    with two runs of % that ends with the second and has no escape between
    them, or any pattern that starts and ends with % and has none between, the
    matcher ends and says yes exactly for the texts the pattern stands for (% any
    bytes, _ one byte, a backslash the next byte itself).  With one run of % the
    text must not be so short that the part after the run overlaps the part
    before it. *)
Theorem like_correct (outside : Z -> Z) (pattern text : list Z)
    (Hs : like_shape pattern text \/ special (check_if_do_opt pattern) = true) :
  exists b, is_matched outside pattern text = Some b /\ (b = true <-> like (tokens pattern) text).
Proof. by apply is_matched_spec. Qed.

(** "abc_" LIKE "a%c\_", and "xaby" LIKE "%a_%" *)
Lemma like_correct_witness :
  is_matched (fun _ => 0) [97; 37; 99; 92; 95] [97; 98; 99; 95] = Some true /\
  like (tokens [97; 37; 99; 92; 95]) [97; 98; 99; 95] /\ like (tokens [37; 97; 95; 37]) [120; 97; 98; 121].
Proof.
  split; [by vm_compute |]. split.
  - destruct (like_correct (fun _ => 0) [97; 37; 99; 92; 95] [97; 98; 99; 95]) as (b & E & Hb).
    { left. apply (shape_suffix [97] 0 [99; 92; 95]);
        [by repeat constructor | by repeat constructor | by repeat constructor | unfold reaches_back; cbn; lia]. }
    apply Hb. assert (Some b = Some true) as [= ->] by (rewrite <- E; by vm_compute). done.
  - destruct (like_correct (fun _ => 0) [37; 97; 95; 37] [120; 97; 98; 121]) as (b & E & Hb); [right; by vm_compute |].
    apply Hb. assert (Some b = Some true) as [= ->] by (rewrite <- E; by vm_compute). done.
Defined.

(** A decision for the meaning of a pattern, to compute with. *)
Fixpoint like_dec (ts : list token) (s : list Z) : bool :=
  match ts with
  | [] => match s with [] => true | _ => false end
  | TChar c :: ts' => match s with d :: s' => (c =? d) && like_dec ts' s' | [] => false end
  | TOne :: ts' => match s with _ :: s' => like_dec ts' s' | [] => false end
  | TAny :: ts' => (fix any s := like_dec ts' s || match s with [] => false | _ :: s' => any s' end) s
  end.

Lemma like_dec_spec ts s : like_dec ts s = true <-> like ts s.
Proof.
  revert s. induction ts as [| [c | |] ts IH]; intros s; cbn [like_dec].
  - rewrite like_end. by destruct s.
  - destruct s as [| d s]; [split; [done |]; intros H; by inversion H |]. rewrite andb_true_iff, Z.eqb_eq, IH.
    split; [intros [-> H]; by constructor | intros H; by inversion H; subst].
  - destruct s as [| d s]; [split; [done |]; intros H; by inversion H |]. rewrite IH.
    split; [by constructor | intros H; by inversion H; subst].
  - induction s as [| d s IHs]; rewrite orb_true_iff, IH.
    + split; [intros [H | H]; [by constructor | done] |]. intros H. inversion H; subst. by left.
    + rewrite IHs. split; [intros [H | H]; by constructor |]. intros H. inversion H; subst; [by left | by right].
Qed.

(** Outside these patterns the matcher is wrong.  After the part between
    two % has been found, the text pointer moves by the length of that part
    instead of behind the place where it was found, so one place serves twice:
    "axb" LIKE "a%b%b".  The length counts escapes, so the pointer also runs past
    the text: "a%" is not LIKE "a%\%%".  The last part is compared with the end of
    the text even when that overlaps the first part: "abc" LIKE "ab%bc"; and when
    the text is too short altogether the comparison reads before the text:
    whether "b" is LIKE "%ab" depends on the byte that happens to be there. *)
Theorem like_faults (outside : Z -> Z) :
  is_matched outside [97; 37; 98; 37; 98] [97; 120; 98] = Some true /\
  ~ like (tokens [97; 37; 98; 37; 98]) [97; 120; 98] /\
  is_matched outside [97; 37; 92; 37; 37] [97; 37] = Some false /\
  like (tokens [97; 37; 92; 37; 37]) [97; 37] /\
  is_matched outside [97; 98; 37; 98; 99] [97; 98; 99] = Some true /\
  ~ like (tokens [97; 98; 37; 98; 99]) [97; 98; 99] /\
  is_matched outside [37; 97; 98] [98] = Some (97 =? outside (-1)) /\
  ~ like (tokens [37; 97; 98]) [98].
Proof.
  rewrite <- !like_dec_spec. split_and!; try (by vm_compute).
  vm_compute. by repeat case_match.
Qed.
