(* ===== verification/ObExprObj.v ===== *)
(** * ObExprObj: expression values of common/ob_expr_obj.{h,cpp}

    The value an SQL expression computes with: comparison with type promotion,
    the comparison operators, three-valued logic, and addition, subtraction and
    multiplication.  The class keeps a type and a union with a number and a
    string beside it, and reads only the member the type selects: the model is
    the type with that member.

    The promotion tables are those of the source.  A promotion that changes the
    type calls the conversion table [OB_OBJ_CAST] of common/ob_obj_cast.cpp; it
    is the parameter [obj_cast] here, which [ExprArith] instantiates.  [None] is an aborted assertion. *)

From S2P Require Import Prelude ObNumber ObObject.
Local Open Scope Z_scope.

Inductive ObExprObj :=
| XNull
| XInt (v : Z)
| XFloat (bits : Z)
| XDouble (bits : Z)
| XDateTime (v : Z)
| XPreciseDateTime (v : Z)
| XVarchar (s : list Z)
| XSeq
| XCreateTime (v : Z)
| XModifyTime (v : Z)
| XExtend (v : Z)
| XBool (b : bool)
| XDecimal (n : ObNumber).

Definition get_type (e : ObExprObj) : ObObjType :=
  match e with
  | XNull => ObNullType | XInt _ => ObIntType | XFloat _ => ObFloatType | XDouble _ => ObDoubleType
  | XDateTime _ => ObDateTimeType | XPreciseDateTime _ => ObPreciseDateTimeType
  | XVarchar _ => ObVarcharType | XSeq => ObSeqType | XCreateTime _ => ObCreateTimeType
  | XModifyTime _ => ObModifyTimeType | XExtend _ => ObExtendType | XBool _ => ObBoolType
  | XDecimal _ => ObDecimalType
  end.

(** [assign] *)
Definition expr_assign (o : ObObj) : option ObExprObj :=
  match type_ o with
  | ObNullType => Some XNull
  | ObIntType => Some (XInt (int_val o))
  | ObDateTimeType => Some (XDateTime (int_val o))
  | ObPreciseDateTimeType => Some (XPreciseDateTime (int_val o))
  | ObVarcharType => Some (XVarchar (default [] (get_varchar o)))
  | ObCreateTimeType => Some (XCreateTime (int_val o))
  | ObModifyTimeType => Some (XModifyTime (int_val o))
  | ObBoolType => Some (XBool (default false (ObObject.get_bool o)))
  | ObDecimalType => '(_, n, _) ← get_decimal o ; Some (XDecimal n)
  | ObFloatType => Some (XFloat (default 0 (fst <$> get_float o)))
  | ObDoubleType => Some (XDouble (default 0 (fst <$> get_double o)))
  | ObExtendType => Some (XExtend (int_val o))
  | ObSeqType => Some XSeq
  end.

(** [to]: [set_decimal] is called with its default precision 38 and scale 0. *)
Definition expr_to (e : ObExprObj) (o : ObObj) : option (Z * ObObj) :=
  match e with
  | XNull => Some (OB_SUCCESS, set_null o)
  | XInt v => Some (OB_SUCCESS, set_int o v false)
  | XDateTime v => Some (OB_SUCCESS, set_datetime o v false)
  | XPreciseDateTime v => Some (OB_SUCCESS, set_precise_datetime o v false)
  | XVarchar s => Some (OB_SUCCESS, set_varchar o s)
  | XCreateTime v => Some (OB_SUCCESS, set_createtime o v)
  | XModifyTime v => Some (OB_SUCCESS, set_modifytime o v)
  | XBool b => Some (OB_SUCCESS, set_bool o b)
  | XDecimal n => set_decimal o n 38 0 false
  | XFloat b => Some (OB_SUCCESS, set_float o b false)
  | XDouble b => Some (OB_SUCCESS, set_double o b false)
  | XExtend v => Some (OB_SUCCESS, set_ext o v)
  | XSeq => Some (OB_ERR_UNEXPECTED, o)
  end.

Definition is_numeric (t : ObObjType) : bool :=
  type_eqb t ObIntType || type_eqb t ObDecimalType || type_eqb t ObFloatType ||
  type_eqb t ObDoubleType || type_eqb t ObBoolType.

Definition expr_timestamp (e : ObExprObj) : option Z :=
  match e with
  | XDateTime v => Some (int64 (int64 (v * 1000) * 1000))
  | XPreciseDateTime v | XModifyTime v | XCreateTime v => Some v
  | _ => None
  end.

(** ** Comparison *)

Definition expr_compare_same_type (e1 e2 : ObExprObj) : option Z :=
  ob_assert (type_eqb (get_type e1) (get_type e2) ||
             (type_is_datetime (get_type e1) && type_is_datetime (get_type e2))) ;;
  match e1, e2 with
  | XInt x, XInt y => Some (cmp3 x y)
  | XDecimal n1, XDecimal n2 => ObNumber.compare n1 n2
  | XVarchar s1, XVarchar s2 => Some (string_compare s1 s2)
  | XFloat x, XFloat y => Some (float_compare x y)
  | XDouble x, XDouble y => Some (double_compare x y)
  | XBool b1, XBool b2 => Some (Z.b2z b1 - Z.b2z b2)
  | _, _ =>
      if type_is_datetime (get_type e1) then
        Some (cmp3 (default 0 (expr_timestamp e1)) (default 0 (expr_timestamp e2)))
      else Some 0
  end.

#[local] Abbreviation tMax := (@None ObObjType).
#[local] Abbreviation tNull := (Some ObNullType).
#[local] Abbreviation tInt := (Some ObIntType).
#[local] Abbreviation tFloat := (Some ObFloatType).
#[local] Abbreviation tDouble := (Some ObDoubleType).
#[local] Abbreviation tDateTime := (Some ObDateTimeType).
#[local] Abbreviation tPrecise := (Some ObPreciseDateTimeType).
#[local] Abbreviation tVarchar := (Some ObVarcharType).
#[local] Abbreviation tCreate := (Some ObCreateTimeType).
#[local] Abbreviation tModify := (Some ObModifyTimeType).
#[local] Abbreviation tBool := (Some ObBoolType).
#[local] Abbreviation tDecimal := (Some ObDecimalType).

(** The tables; [ObMaxType], "not supported", is [None]. *)
Definition COMPARE_TYPE_PROMOTION : list (list (option ObObjType)) :=
  [
   (** Null *) [tNull; tNull; tNull; tNull; tNull; tNull; tNull; tNull; tNull; tNull; tNull; tNull; tNull];
   (** Int *) [tNull; tInt; tFloat; tDouble; tInt; tInt; tInt; tMax; tInt; tInt; tMax; tBool; tDecimal];
   (** Float *) [tNull; tFloat; tFloat; tDouble; tFloat; tFloat; tFloat; tMax; tFloat; tFloat; tMax; tBool;
     tDouble];
   (** Double *) [tNull; tDouble; tDouble; tDouble; tDouble; tDouble; tDouble; tMax; tDouble; tDouble; tMax;
     tBool; tDouble];
   (** DateTime *) [tNull; tInt; tFloat; tDouble; tDateTime; tPrecise; tDateTime; tMax; tPrecise; tPrecise; tMax;
     tBool; tDecimal];
   (** PreciseDateTime *) [tNull; tInt; tFloat; tDouble; tPrecise; tPrecise; tPrecise; tMax; tPrecise; tPrecise; tMax;
     tBool; tDecimal];
   (** Varchar *) [tNull; tInt; tFloat; tDouble; tDateTime; tPrecise; tVarchar; tMax; tCreate; tModify; tMax;
     tBool; tDecimal];
   (** Seq *) [tNull; tMax; tMax; tMax; tMax; tMax; tMax; tMax; tMax; tMax; tMax; tMax; tMax];
   (** CreateTime *) [tNull; tInt; tFloat; tDouble; tPrecise; tPrecise; tCreate; tMax; tCreate; tPrecise; tMax;
     tBool; tDecimal];
   (** ModifyTime *) [tNull; tInt; tFloat; tDouble; tPrecise; tPrecise; tModify; tMax; tPrecise; tModify; tMax;
     tBool; tDecimal];
   (** Extend *) [tNull; tMax; tMax; tMax; tMax; tMax; tMax; tMax; tMax; tMax; tMax; tMax; tMax];
   (** Bool *) [tNull; tBool; tBool; tBool; tBool; tBool; tBool; tMax; tBool; tBool; tMax; tBool; tBool];
   (** Decimal *) [tNull; tDecimal; tDouble; tDouble; tDecimal; tDecimal; tDecimal; tMax; tDecimal; tDecimal;
     tMax; tBool; tDecimal] ].

Definition ARITHMETIC_TYPE_PROMOTION : list (list (option ObObjType)) :=
  [
   (** Null *) [tNull; tNull; tNull; tNull; tNull; tNull; tNull; tNull; tNull; tNull; tNull; tNull; tNull];
   (** Int *) [tNull; tInt; tFloat; tDouble; tInt; tInt; tInt; tMax; tInt; tInt; tMax; tInt; tDecimal];
   (** Float *) [tNull; tFloat; tFloat; tDouble; tFloat; tFloat; tFloat; tMax; tFloat; tFloat; tMax; tFloat;
     tDouble];
   (** Double *) [tNull; tDouble; tDouble; tDouble; tDouble; tDouble; tDouble; tMax; tDouble; tDouble; tMax;
     tDouble; tDouble];
   (** DateTime *) [tNull; tInt; tFloat; tDouble; tInt; tInt; tInt; tMax; tInt; tInt; tMax; tInt; tDecimal];
   (** PreciseDateTime *) [tNull; tInt; tFloat; tDouble; tInt; tInt; tInt; tMax; tInt; tInt; tMax; tInt; tDecimal];
   (** Varchar *) [tNull; tInt; tFloat; tDouble; tInt; tInt; tInt; tMax; tInt; tInt; tMax; tInt; tDecimal];
   (** Seq *) [tNull; tMax; tMax; tMax; tMax; tMax; tMax; tMax; tMax; tMax; tMax; tMax; tMax];
   (** CreateTime *) [tNull; tInt; tFloat; tDouble; tInt; tInt; tInt; tMax; tInt; tInt; tMax; tInt; tDecimal];
   (** ModifyTime *) [tNull; tInt; tFloat; tDouble; tInt; tInt; tInt; tMax; tInt; tInt; tMax; tInt; tDecimal];
   (** Extend *) [tNull; tMax; tMax; tMax; tMax; tMax; tMax; tMax; tMax; tMax; tMax; tMax; tMax];
   (** Bool *) [tNull; tInt; tFloat; tDouble; tInt; tInt; tInt; tMax; tInt; tInt; tMax; tInt; tDecimal];
   (** Decimal *) [tNull; tDecimal; tDouble; tDouble; tDecimal; tDecimal; tDecimal; tMax; tDecimal; tDecimal;
     tMax; tDecimal; tDecimal] ].


Section ExprObj.
(** [OB_OBJ_CAST[from][to](params, in, out)]: the code and the result. *)
Context (obj_cast : ObObjType -> ObObjType -> ObExprObj -> option (Z * ObExprObj)).

Definition promoted_type (map : list (list (option ObObjType))) (t1 t2 : ObObjType) : option ObObjType :=
  zget None (zget [] map (type_code t1)) (type_code t2).

(** [type_promotion]: the code and the pair of operands to compute with. *)
Definition type_promotion (map : list (list (option ObObjType))) (this other : ObExprObj)
    : option (Z * (ObExprObj * ObExprObj)) :=
  match promoted_type map (get_type this) (get_type other) with
  | Some ObNullType => Some (OB_RESULT_UNKNOWN, (this, other))
  | None => Some (OB_ERR_UNEXPECTED, (this, other))
  | Some res_type =>
      '(ret, p_this) ←
        (if type_eqb (get_type this) res_type then Some (OB_SUCCESS, this)
         else obj_cast (get_type this) res_type this) ;
      if negb (ret =? OB_SUCCESS) then Some (ret, (this, other))
      else
        '(ret, p_other) ←
          (if type_eqb (get_type other) res_type then Some (OB_SUCCESS, other)
           else obj_cast (get_type other) res_type other) ;
        if negb (ret =? OB_SUCCESS) then Some (ret, (p_this, other))
        else Some (OB_SUCCESS, (p_this, p_other))
  end.

(** [compare(other, cmp)]: every failure is OB_RESULT_UNKNOWN. *)
Definition expr_compare (this other : ObExprObj) : option (Z * Z) :=
  '(ret, (p_this, p_other)) ← type_promotion COMPARE_TYPE_PROMOTION this other ;
  if negb (ret =? OB_SUCCESS) then Some (OB_RESULT_UNKNOWN, 0)
  else cmp ← expr_compare_same_type p_this p_other ; Some (OB_SUCCESS, cmp).

(** ** Comparison operators: the code and the result *)

Definition compare_op (test : Z -> bool) (this other : ObExprObj) : option (Z * ObExprObj) :=
  '(ret, cmp) ← expr_compare this other ;
  Some (ret, if ret =? OB_SUCCESS then XBool (test cmp) else XNull).

Definition expr_lt := compare_op (fun cmp => cmp <? 0).
Definition expr_gt := compare_op (fun cmp => 0 <? cmp).
Definition expr_ge := compare_op (fun cmp => 0 <=? cmp).
Definition expr_le := compare_op (fun cmp => cmp <=? 0).
Definition expr_eq := compare_op (fun cmp => cmp =? 0).
Definition expr_ne := compare_op (fun cmp => negb (cmp =? 0)).

Definition expr_btw (this v1 v2 : ObExprObj) : option (Z * ObExprObj) :=
  '(ret, cmp) ← expr_compare this v1 ;
  if ret =? OB_SUCCESS then
    if 0 <=? cmp then
      '(ret, cmp) ← expr_compare this v2 ;
      Some (ret, if ret =? OB_SUCCESS then XBool (cmp <=? 0) else XNull)
    else Some (OB_SUCCESS, XBool false)
  else Some (ret, XNull).

Definition expr_not_btw (this v1 v2 : ObExprObj) : option (Z * ObExprObj) :=
  '(ret, cmp) ← expr_compare this v1 ;
  if ret =? OB_SUCCESS then
    if 0 <=? cmp then
      '(ret, cmp) ← expr_compare this v2 ;
      Some (ret, if ret =? OB_SUCCESS then XBool (0 <? cmp) else XNull)
    else Some (OB_SUCCESS, XBool true)
  else Some (ret, XNull).

(** ** Logic *)

(** [get_bool]; [None] is OB_OBJ_TYPE_ERROR, the truth value UNKNOWN. *)
Definition truth (e : ObExprObj) : option bool :=
  match e with
  | XBool b => Some b
  | XVarchar s => Some (0 <? Z.of_nat (length s))
  | XInt v => Some (negb (v =? 0))
  | XDecimal n => Some (negb (is_zero n))
  | XFloat b => Some (float_is_true b)
  | XDouble b => Some (double_is_true b)
  | XDateTime _ | XPreciseDateTime _ | XCreateTime _ | XModifyTime _ =>
      Some (negb (default 0 (expr_timestamp e) =? 0))
  | _ => None
  end.

Definition expr_is (this other : ObExprObj) : Z * ObExprObj :=
  match other with
  | XNull => (OB_SUCCESS, XBool (type_eqb (get_type this) ObNullType))
  | XBool b =>
      (OB_SUCCESS, match truth this with None => XBool false | Some l => XBool (Bool.eqb l b) end)
  | _ => (OB_INVALID_ARGUMENT, XBool false)
  end.

Definition expr_is_not (this other : ObExprObj) : Z * ObExprObj :=
  match other with
  | XNull => (OB_SUCCESS, XBool (negb (type_eqb (get_type this) ObNullType)))
  | XBool b =>
      (OB_SUCCESS, match truth this with None => XBool true | Some l => XBool (negb (Bool.eqb l b)) end)
  | _ => (OB_INVALID_ARGUMENT, XBool false)
  end.

Definition expr_land (this other : ObExprObj) : ObExprObj :=
  match truth this, truth other with
  | Some l, Some r => XBool (l && r)
  | Some l, None => if l then XNull else XBool false
  | None, Some r => if r then XNull else XBool false
  | None, None => XNull
  end.

Definition expr_lor (this other : ObExprObj) : ObExprObj :=
  match truth this, truth other with
  | Some l, Some r => XBool (l || r)
  | Some l, None => if l then XBool true else XNull
  | None, Some r => if r then XBool true else XNull
  | None, None => XNull
  end.

Definition expr_lnot (this : ObExprObj) : ObExprObj :=
  match truth this with Some v => XBool (negb v) | None => XNull end.

(** ** Arithmetic *)

(** The [add_same_type], [sub_same_type] and [mul_same_type] of the class: the
    code and the result (after an error the result holds no value). *)
Definition arith_same_type (int_op float_op double_op : Z -> Z -> Z)
    (num_op : ObNumber -> ObNumber -> ObNumber -> option (Z * ObNumber))
    (this other : ObExprObj) : option (Z * ObExprObj) :=
  ob_assert (type_eqb (get_type this) (get_type other) && is_numeric (get_type this)) ;;
  match this, other with
  | XInt x, XInt y => Some (OB_SUCCESS, XInt (int64 (int_op x y)))
  | XFloat x, XFloat y => Some (OB_SUCCESS, XFloat (float_op x y))
  | XDouble x, XDouble y => Some (OB_SUCCESS, XDouble (double_op x y))
  | XDecimal x, XDecimal y => '(ret, r) ← num_op x y ObNumber_new ; Some (ret, XDecimal r)
  | _, _ => Some (OB_ERR_UNEXPECTED, this)
  end.

Definition arith (same_type : ObExprObj -> ObExprObj -> option (Z * ObExprObj))
    (this other : ObExprObj) : option (Z * ObExprObj) :=
  '(ret, (p_this, p_other)) ← type_promotion ARITHMETIC_TYPE_PROMOTION this other ;
  if negb (ret =? OB_SUCCESS) then
    Some (if ret =? OB_RESULT_UNKNOWN then OB_SUCCESS else ret, XNull)
  else same_type p_this p_other.

Definition add_same_type := arith_same_type Z.add float_add double_add ObNumber.add.
Definition sub_same_type := arith_same_type Z.sub float_sub double_sub ObNumber.sub.
Definition mul_same_type := arith_same_type Z.mul float_mul double_mul ObNumber.mul.
Definition expr_add := arith add_same_type.
Definition expr_sub := arith sub_same_type.
Definition expr_mul := arith mul_same_type.

(** ** Reference semantics of SQL logic *)

Definition kleene_and (a b : option bool) : option bool :=
  match a, b with
  | Some false, _ | _, Some false => Some false
  | Some true, Some true => Some true
  | _, _ => None
  end.
Definition kleene_or (a b : option bool) : option bool :=
  match a, b with
  | Some true, _ | _, Some true => Some true
  | Some false, Some false => Some false
  | _, _ => None
  end.
Definition kleene_not (a : option bool) : option bool := negb <$> a.

(** The truth value of an operator's result. *)
Definition truth_of (r : option (Z * ObExprObj)) : option (option bool) :=
  '(_, e) ← r ; Some (truth e).

(** ** Lemmas *)

Lemma expr_compare_code this other ret cmp :
  expr_compare this other = Some (ret, cmp) -> ret = OB_SUCCESS \/ ret = OB_RESULT_UNKNOWN.
Proof.
  unfold expr_compare. destruct (type_promotion _ _ _) as [[r [p q]] |]; [| done]. cbn.
  destruct (r =? OB_SUCCESS); cbn; [| intros [= <- <-]; by right].
  destruct (expr_compare_same_type p q); [| done]. intros [= <- <-]. by left.
Qed.

Lemma null_promotes map e :
  promoted_type map ObNullType (get_type e) = Some ObNullType ->
  promoted_type map (get_type e) ObNullType = Some ObNullType ->
  type_promotion map XNull e = Some (OB_RESULT_UNKNOWN, (XNull, e)) /\
  type_promotion map e XNull = Some (OB_RESULT_UNKNOWN, (e, XNull)).
Proof. intros H1 H2. unfold type_promotion. cbn [get_type]. by rewrite H1, H2. Qed.

(** Operands of the same type are not converted. *)
Lemma same_type_promotion map e1 e2 t :
  get_type e1 = t -> get_type e2 = t -> promoted_type map t t = Some t -> t <> ObNullType ->
  type_promotion map e1 e2 = Some (OB_SUCCESS, (e1, e2)).
Proof.
  intros H1 H2 Hp Hn. unfold type_promotion. rewrite H1, H2, Hp, type_eqb_refl.
  destruct t; done.
Qed.

Lemma promote_null_l map (Hmap : map = COMPARE_TYPE_PROMOTION \/ map = ARITHMETIC_TYPE_PROMOTION) t :
  promoted_type map ObNullType t = Some ObNullType /\ promoted_type map t ObNullType = Some ObNullType.
Proof. by destruct Hmap as [-> | ->], t. Qed.

Lemma compare_null_l e : expr_compare XNull e = Some (OB_RESULT_UNKNOWN, 0).
Proof.
  unfold expr_compare. destruct (promote_null_l _ (or_introl eq_refl) (get_type e)) as [H1 H2].
  by rewrite (proj1 (null_promotes _ e H1 H2)).
Qed.

Lemma compare_null_r e : expr_compare e XNull = Some (OB_RESULT_UNKNOWN, 0).
Proof.
  unfold expr_compare. destruct (promote_null_l _ (or_introl eq_refl) (get_type e)) as [H1 H2].
  by rewrite (proj2 (null_promotes _ e H1 H2)).
Qed.

(** On cells of one column and type, expressions compare as cells do. *)
Lemma expr_compare_column k o1 o2 :
  normal_value k o1 -> normal_value k o2 -> type_ o1 = type_ o2 ->
  exists e1 e2 c, expr_assign o1 = Some e1 /\ expr_assign o2 = Some e2 /\
    compare_same_type o1 o2 = Some c /\ expr_compare e1 e2 = Some (OB_SUCCESS, c).
Proof.
  intros H1 H2 Ht.
  assert (Hs : forall e1 e2 t c, get_type e1 = t -> get_type e2 = t ->
            promoted_type COMPARE_TYPE_PROMOTION t t = Some t -> t <> ObNullType ->
            expr_compare_same_type e1 e2 = Some c -> expr_compare e1 e2 = Some (OB_SUCCESS, c)).
  { intros e1 e2 t c E1 E2 Hp Hn Hc. unfold expr_compare.
    rewrite (same_type_promotion _ e1 e2 t) by done. cbn. by rewrite Hc. }
  unfold compare_same_type, expr_assign.
  destruct k as [| | | | s]; cbn [normal_value] in *.
  - rewrite <- Ht, H1. do 3 eexists. split_and!; [done .. |]. by apply (Hs _ _ ObIntType).
  - rewrite <- Ht, H1. do 3 eexists. split_and!; [done .. |]. by apply (Hs _ _ ObVarcharType).
  - rewrite <- Ht, H1. do 3 eexists. split_and!; [done .. |]. by apply (Hs _ _ ObBoolType).
  - destruct H1 as [H1 _]. unfold type_is_datetime, type_eqb in H1. rewrite <- Ht.
    unfold get_timestamp. rewrite <- Ht.
    destruct (type_ o1) as [] eqn:E; try done;
      (do 3 eexists; split_and!; [done .. |]; match goal with H : type_ o1 = ?t |- _ => by apply (Hs _ _ t) end).
  - destruct (compare_same_type_key (KDecimal s) o1 o2) as (c & Hc & _); [done .. |].
    unfold compare_same_type in Hc. destruct (H1) as (T1 & R1), (H2) as (T2 & R2).
    rewrite T1 in Hc. rewrite T1, T2.
    destruct R1 as (S1 & B1 & ws1 & V1 & R1), R2 as (S2 & B2 & ws2 & V2 & R2).
    destruct (decimal_number (KDecimal s) o1 ws1 s eq_refl H1 V1) as (E1 & _).
    destruct (decimal_number (KDecimal s) o2 ws2 s eq_refl H2 V2) as (E2 & _).
    rewrite E1, E2 in *. cbn in *. do 3 eexists. split_and!; [done | done | exact Hc |].
    by apply (Hs _ _ ObDecimalType).
Qed.

(** ** Theorems *)

(** C37: the logical operators are those of three-valued logic on the truth
    values of their operands, whatever the operand types, and IS and IS NOT
    always give true or false. *)
Theorem logic_is_kleene (e1 e2 : ObExprObj) :
  truth (expr_land e1 e2) = kleene_and (truth e1) (truth e2) /\
  truth (expr_lor e1 e2) = kleene_or (truth e1) (truth e2) /\
  truth (expr_lnot e1) = kleene_not (truth e1) /\
  (forall b, truth (expr_is e1 (XBool b)).2 = Some (bool_decide (truth e1 = Some b))) /\
  (forall b, truth (expr_is_not e1 (XBool b)).2 = kleene_not (truth (expr_is e1 (XBool b)).2)) /\
  truth (expr_is e1 XNull).2 = Some (bool_decide (get_type e1 = ObNullType)) /\
  truth (expr_is_not e1 XNull).2 = Some (negb (bool_decide (get_type e1 = ObNullType))).
Proof.
  conjs; unfold expr_land, expr_lor, expr_lnot, expr_is, expr_is_not.
  - by destruct (truth e1) as [[]|], (truth e2) as [[]|].
  - by destruct (truth e1) as [[]|], (truth e2) as [[]|].
  - by destruct (truth e1) as [[]|].
  - intros b. by destruct (truth e1) as [[]|], b.
  - intros b. by destruct (truth e1) as [[]|], b.
  - done.
  - done.
Qed.

(** The comparison operators agree.  Whenever the comparison does not
    abort, the six operators are the six relations of one result, NE, GE and LE
    are the negations of EQ, LT and GT, and with a NULL operand all six are
    UNKNOWN. *)
Theorem comparison_operators_agree (e1 e2 : ObExprObj) (Hc : expr_compare e1 e2 <> None) :
  exists t_lt t_eq t_gt,
    truth_of (expr_lt e1 e2) = Some t_lt /\ truth_of (expr_eq e1 e2) = Some t_eq /\
    truth_of (expr_gt e1 e2) = Some t_gt /\
    truth_of (expr_ge e1 e2) = Some (kleene_not t_lt) /\
    truth_of (expr_le e1 e2) = Some (kleene_not t_gt) /\
    truth_of (expr_ne e1 e2) = Some (kleene_not t_eq) /\
    kleene_not t_gt = kleene_or t_lt t_eq /\ kleene_not t_lt = kleene_or t_gt t_eq /\
    (e1 = XNull \/ e2 = XNull -> t_lt = None /\ t_eq = None /\ t_gt = None).
Proof.
  assert (Hnull : e1 = XNull \/ e2 = XNull -> expr_compare e1 e2 = Some (OB_RESULT_UNKNOWN, 0))
    by (intros [-> | ->]; [apply compare_null_l | apply compare_null_r]).
  destruct (expr_compare e1 e2) as [[ret cmp] |] eqn:E; [| done].
  unfold expr_lt, expr_eq, expr_gt, expr_ge, expr_le, expr_ne, compare_op, truth_of. rewrite E. cbn.
  destruct (expr_compare_code e1 e2 ret cmp E) as [-> | ->]; cbn.
  - exists (Some (cmp <? 0)), (Some (cmp =? 0)), (Some (0 <? cmp)).
    split_and!; try done; try (intros H; by specialize (Hnull H));
      cbn; repeat f_equal; destruct (Z.ltb_spec cmp 0), (Z.eqb_spec cmp 0), (Z.ltb_spec 0 cmp);
      destruct (Z.leb_spec 0 cmp), (Z.leb_spec cmp 0); try done; lia.
  - by exists None, None, None.
Qed.
End ExprObj.

(** The conversion table where no conversion is needed. *)
Definition no_cast (t1 t2 : ObObjType) (e : ObExprObj) : option (Z * ObExprObj) :=
  Some (OB_NOT_SUPPORTED, e).

Lemma comparison_operators_agree_witness :
  truth_of (expr_lt no_cast (XInt 3) (XInt 5)) = Some (Some true) /\
  exists t_lt, truth_of (expr_lt no_cast (XInt 3) (XInt 5)) = Some t_lt /\
    truth_of (expr_ge no_cast (XInt 3) (XInt 5)) = Some (kleene_not t_lt).
Proof.
  split; [done |].
  destruct (comparison_operators_agree no_cast (XInt 3) (XInt 5)) as (t & _ & _ & H1 & _ & _ & H4 & _);
    [done |]. by exists t.
Defined.

(** BETWEEN.  When the lower bound can be compared, BETWEEN is GE and LE in
    three-valued logic; NOT BETWEEN is always the negation of BETWEEN. *)
Theorem between_is_ge_and_le (cast : ObObjType -> ObObjType -> ObExprObj -> option (Z * ObExprObj))
    (e v1 v2 : ObExprObj) (c1 c2 : Z * Z)
    (H1 : expr_compare cast e v1 = Some c1) (H2 : expr_compare cast e v2 = Some c2) :
  exists r_ge r_le r_btw r_not,
    truth_of (expr_ge cast e v1) = Some r_ge /\ truth_of (expr_le cast e v2) = Some r_le /\
    truth_of (expr_btw cast e v1 v2) = Some r_btw /\
    truth_of (expr_not_btw cast e v1 v2) = Some r_not /\
    r_not = kleene_not r_btw /\ (c1.1 = OB_SUCCESS -> r_btw = kleene_and r_ge r_le).
Proof.
  destruct c1 as [ret1 cmp1], c2 as [ret2 cmp2].
  unfold expr_ge, expr_le, expr_btw, expr_not_btw, compare_op, truth_of. rewrite H1. cbn.
  destruct (expr_compare_code cast e v1 ret1 cmp1 H1) as [-> | ->],
    (expr_compare_code cast e v2 ret2 cmp2 H2) as [-> | ->]; cbn;
    rewrite ?H2; cbn; destruct (Z.leb_spec 0 cmp1); cbn; rewrite ?H2; cbn;
    do 4 eexists; (do 4 (split; [reflexivity |])); cbn; split; try done.
  - do 2 f_equal. destruct (Z.leb_spec cmp2 0), (Z.ltb_spec 0 cmp2); done || lia.
  - by destruct (cmp2 <=? 0).
Qed.

Lemma between_is_ge_and_le_witness :
  exists r_ge r_le r_btw,
    truth_of (expr_ge no_cast (XInt 4) (XInt 3)) = Some r_ge /\
    truth_of (expr_le no_cast (XInt 4) (XInt 5)) = Some r_le /\
    truth_of (expr_btw no_cast (XInt 4) (XInt 3) (XInt 5)) = Some r_btw /\
    r_btw = kleene_and r_ge r_le.
Proof.
  destruct (between_is_ge_and_le no_cast (XInt 4) (XInt 3) (XInt 5) (OB_SUCCESS, 1) (OB_SUCCESS, -1))
    as (a & b & c & d & H1 & H2 & H3 & H4 & H5 & H6); [done | done |].
  exists a, b, c. split_and!; [done .. |]. by apply H6.
Defined.

(** NOT BETWEEN loses rows when the lower bound is NULL: 5 NOT BETWEEN NULL
    AND 3 is UNKNOWN, while 5 <= 3 is already false and the negation of GE and
    LE is true. *)
Theorem not_between_null_bound (cast : ObObjType -> ObObjType -> ObExprObj -> option (Z * ObExprObj)) :
  truth_of (expr_not_btw cast (XInt 5) XNull (XInt 3)) = Some None /\
  truth_of (expr_ge cast (XInt 5) XNull) = Some None /\
  truth_of (expr_le cast (XInt 5) (XInt 3)) = Some (Some false) /\
  kleene_not (kleene_and None (Some false)) = Some true.
Proof. by vm_compute. Qed.

(** the promotion tables.  Both are symmetric, as the static checkers of
    the source assert at start-up, a null operand always promotes to null, and
    a type the table supports with itself is compared without a conversion. *)
Theorem promotion_tables_symmetric (t1 t2 : ObObjType) :
  promoted_type COMPARE_TYPE_PROMOTION t1 t2 = promoted_type COMPARE_TYPE_PROMOTION t2 t1 /\
  promoted_type ARITHMETIC_TYPE_PROMOTION t1 t2 = promoted_type ARITHMETIC_TYPE_PROMOTION t2 t1 /\
  promoted_type COMPARE_TYPE_PROMOTION ObNullType t1 = Some ObNullType /\
  promoted_type ARITHMETIC_TYPE_PROMOTION ObNullType t1 = Some ObNullType /\
  (promoted_type COMPARE_TYPE_PROMOTION t1 t1 = Some t1 \/
   promoted_type COMPARE_TYPE_PROMOTION t1 t1 = None).
Proof. destruct t1, t2; vm_compute; tauto. Qed.

Lemma add_same_type_decimal n1 n2 ret r :
  ObNumber.add n1 n2 ObNumber_new = Some (ret, r) ->
  add_same_type (XDecimal n1) (XDecimal n2) = Some (ret, XDecimal r).
Proof.
  intros E. unfold add_same_type, arith_same_type.
  change (ob_assert _) with (Some tt). rewrite bind_some. cbv beta. by rewrite E.
Qed.

(** Arithmetic.  A null operand gives null with success; on integers the
    operations wrap at 64 bits; on decimals of one scale addition is exact. *)
Theorem arithmetic_results (cast : ObObjType -> ObObjType -> ObExprObj -> option (Z * ObExprObj))
    (e : ObExprObj) (x y : Z) (n1 n2 : ObNumber) (H1 : number_wf n1) (H2 : number_wf n2)
    (Hs : vscale_ n1 = vscale_ n2) (Hs2 : vscale_ n1 <= SINGLE_PRECISION_NDIGITS)
    (HN : sum_nwords n1 n2 <= MAX_NWORDS) :
  expr_add cast XNull e = Some (OB_SUCCESS, XNull) /\
  expr_sub cast e XNull = Some (OB_SUCCESS, XNull) /\
  expr_mul cast XNull e = Some (OB_SUCCESS, XNull) /\
  expr_add cast (XInt x) (XInt y) = Some (OB_SUCCESS, XInt (int64 (x + y))) /\
  expr_sub cast (XInt x) (XInt y) = Some (OB_SUCCESS, XInt (int64 (x - y))) /\
  expr_mul cast (XInt x) (XInt y) = Some (OB_SUCCESS, XInt (int64 (x * y))) /\
  exists r, expr_add cast (XDecimal n1) (XDecimal n2) = Some (OB_SUCCESS, XDecimal r) /\
    vscale_ r = vscale_ n1 /\ sval (words_ r) = sval (words_ n1) + sval (words_ n2).
Proof.
  conjs; try done; try (by destruct e).
  destruct (add_spec n1 n2 ObNumber_new H1 H2 Hs2 ltac:(lia) HN) as (ws & E & W & N & _ & L & S).
  exists (mkNumber (common_scale n1 n2) ws). unfold expr_add, arith.
  rewrite (same_type_promotion cast _ _ _ ObDecimalType) by done.
  rewrite bind_some. cbv beta iota. rewrite Z.eqb_refl. cbn [negb].
  rewrite (add_same_type_decimal n1 n2 _ _ E). split; [done |]. cbn [vscale_ words_]. unfold common_scale in *. split; [lia |]. rewrite S, !scaled_same by lia.
  destruct H1 as (W1 & N1 & V1), H2 as (W2 & N2 & V2).
  apply wraps_small; [| unfold sum_nwords, nwords_ in *; lia].
  apply sum_fits; [unfold sum_nwords, nwords_ in *; lia | |];
    apply sval_within; try done; unfold sum_nwords, nwords_ in *; lia.
Qed.

Lemma arithmetic_results_witness :
  exists r, expr_add no_cast (XDecimal (mkNumber 1 [15])) (XDecimal (mkNumber 1 [5]))
            = Some (OB_SUCCESS, XDecimal r) /\ sval (words_ r) = 20.
Proof.
  destruct (arithmetic_results no_cast XNull 0 0 (mkNumber 1 [15]) (mkNumber 1 [5]))
    as (_ & _ & _ & _ & _ & _ & r & E & _ & S);
    [split_and!; [by apply Forall_singleton | by vm_compute ..] ..
    | done | by vm_compute | by vm_compute |].
  exists r. split; [done |]. rewrite S. by vm_compute.
Defined.

(** storing a decimal result.  [to] calls [set_decimal] with its default
    scale 0, so the fraction of every decimal expression is cut off: 1.9 is
    stored as 1. *)
Theorem to_decimal_drops_fraction :
  exists o, expr_to (XDecimal (mkNumber 1 [19])) ObObj_new = Some (OB_SUCCESS, o) /\
    expr_assign o = Some (XDecimal (mkNumber 0 [1])).
Proof. eexists. by vm_compute. Qed.
