(* ===== verification/Format.v ===== *)
(** * Format: the number formats of the C library

    What the casts and the string functions use of [printf] and [scanf]: %ld, %lx,
    %02hhx, %0nd and %f on the one side, %ld and formats of %nd fields with the
    bytes between them on the other.  Text is a list of bytes. *)

From Stdlib Require Import Floats.SpecFloat.
From S2P Require Import Prelude ObObject.
Local Open Scope Z_scope.

(** ** printf *)

Definition digit_char (d : Z) : Z := if d <? 10 then 48 + d else 87 + d.

(** The digits of [n] in a base, before [acc]; [fuel] bounds their number. *)
Fixpoint digits_loop (fuel : nat) (base n : Z) (acc : list Z) : list Z :=
  match fuel with
  | O => acc
  | S fuel' =>
      let acc := digit_char (n mod base) :: acc in
      if n <? base then acc else digits_loop fuel' base (n / base) acc
  end.

Definition digits (base n : Z) : list Z := digits_loop (Z.to_nat (Z.log2 n + 1)) base n [].

(** %ld, %lx of a [uint64_t], %02hhx of a byte *)
Definition print_ld (v : Z) : list Z := if v <? 0 then 45 :: digits 10 (- v) else digits 10 v.
Definition print_lx (v : Z) : list Z := digits 16 (u64 v).
Definition print_02hhx (c : Z) : list Z := [digit_char (c / 16); digit_char (c mod 16)].

(** %0nd: zeroes between the sign and the digits up to [w] characters *)
Definition print_pad (w : nat) (v : Z) : list Z :=
  let ds := digits 10 (Z.abs v) in
  if v <? 0 then 45 :: replicate (w - 1 - length ds) 48 ++ ds else replicate (w - length ds) 48 ++ ds.

(** The nearest integer to [n / d], to even on a tie. *)
Definition round_div (n d : Z) : Z :=
  let q := n / d in
  match 2 * (n mod d) ?= d with Lt => q | Gt => q + 1 | Eq => if Z.even q then q else q + 1 end.

(** %f: six fractional digits of the exact value *)
Definition print_f (negative : bool) (f : spec_float) : list Z :=
  (if negative then [45] else []) ++
  match f with
  | S754_nan => [110; 97; 110]
  | S754_infinity _ => [105; 110; 102]
  | S754_zero _ => [48; 46; 48; 48; 48; 48; 48; 48]
  | S754_finite _ m e =>
      let n := if 0 <=? e then Z.pos m * 2 ^ e * 10 ^ 6 else round_div (Z.pos m * 10 ^ 6) (2 ^ (- e)) in
      digits 10 (n / 10 ^ 6) ++ 46 :: print_pad 6 (n mod 10 ^ 6)
  end.

(** ** scanf *)

Definition is_space (c : Z) : bool := (c =? 32) || ((9 <=? c) && (c <=? 13)).
Definition is_dec (c : Z) : bool := (48 <=? c) && (c <=? 57).

Fixpoint skip_space (s : list Z) : list Z :=
  match s with c :: s' => if is_space c then skip_space s' else s | [] => [] end.

(** At most [w] digits: the value, whether there was one, and the rest. *)
Fixpoint scan_digits (w : nat) (s : list Z) (v : Z) (some : bool) : Z * bool * list Z :=
  match w, s with
  | S w', c :: s' => if is_dec c then scan_digits w' s' (v * 10 + (c - 48)) true else (v, some, s)
  | _, _ => (v, some, s)
  end.

(** A signed number of at most [w] characters; [None] when there is none. *)
Definition scan_number (w : nat) (s : list Z) : option (Z * list Z) :=
  match skip_space s with
  | [] => None
  | c :: s' =>
      let '(neg, w, s) := if c =? 45 then (true, pred w, s') else if c =? 43 then (false, pred w, s') else (false, w, c :: s') in
      let '(v, some, rest) := scan_digits w s 0 false in
      if some then Some (if (neg : bool) then - v else v, rest) else None
  end.

(** %ld: numbers out of range become the nearest in range *)
Definition scan_ld (s : list Z) : option Z :=
  '(v, _) ← scan_number (length s) s ; Some (Z.max (- 2 ^ 63) (Z.min (2 ^ 63 - 1) v)).

Inductive directive := FInt (w : nat) | FByte (c : Z) | FSpace.

(** The values, when every field has been read. *)
Fixpoint scan_fields (f : list directive) (s : list Z) : option (list Z) :=
  match f with
  | [] => Some []
  | FInt w :: f' => '(v, rest) ← scan_number w s ; vs ← scan_fields f' rest ; Some (v :: vs)
  | FByte c :: f' => match s with d :: s' => if c =? d then scan_fields f' s' else None | [] => None end
  | FSpace :: f' => scan_fields f' (skip_space s)
  end.

(** A C string ends at its first zero byte. *)
Fixpoint c_string (s : list Z) : list Z :=
  match s with c :: s' => if c =? 0 then [] else c :: c_string s' | [] => [] end.

(** ** Printing and scanning *)

Definition dec_value (v : Z) (ds : list Z) : Z := fold_left (fun v c => v * 10 + (c - 48)) ds v.

Lemma dec_char_range d : 0 <= d < 10 -> digit_char d = 48 + d.
Proof. intros. unfold digit_char. rewrite (proj2 (Z.ltb_lt _ _)) by lia. done. Qed.

Lemma digits_loop_app fuel base n acc : digits_loop fuel base n acc = digits_loop fuel base n [] ++ acc.
Proof.
  revert n acc. induction fuel as [| fuel IH]; intros n acc; [done |]. cbn [digits_loop].
  destruct (n <? base); [done |]. rewrite IH, (IH _ [_]), <- app_assoc. done.
Qed.

(** The digits are digits, and their value is the number. *)
Lemma digits_loop_dec fuel n : 0 <= n < 10 ^ Z.of_nat fuel ->
  Forall (fun c => is_dec c = true) (digits_loop fuel 10 n []) /\ dec_value 0 (digits_loop fuel 10 n []) = n /\
  ((0 < fuel)%nat -> digits_loop fuel 10 n [] <> []) /\ (length (digits_loop fuel 10 n []) <= fuel)%nat.
Proof.
  revert n. induction fuel as [| fuel IH]; intros n Hn.
  { split_and!; [constructor | simpl in *; cbn; lia | lia | done]. }
  cbn [digits_loop]. pose proof (Z.mod_pos_bound n 10 ltac:(lia)) as Hm. pose proof (Z.div_mod n 10 ltac:(lia)) as Hd.
  assert (Hc : is_dec (digit_char (n mod 10)) = true).
  { rewrite dec_char_range by lia. unfold is_dec. apply andb_true_iff. rewrite !Z.leb_le. lia. }
  destruct (Z.ltb_spec n 10) as [L | L].
  - split_and!; [by repeat constructor | | done | simpl; lia]. unfold dec_value. cbn [fold_left].
    rewrite dec_char_range, Z.mod_small by lia. lia.
  - rewrite Nat2Z.inj_succ, Z.pow_succ_r in Hn by lia.
    destruct (IH (n / 10)) as (I1 & I2 & I3 & I4).
    { split; [apply Z.div_pos; lia | apply Z.div_lt_upper_bound; lia]. }
    rewrite digits_loop_app. split_and!.
    + apply Forall_app. split; [done |]. by repeat constructor.
    + unfold dec_value in *. rewrite fold_left_app, I2. cbn [fold_left]. rewrite dec_char_range by lia. lia.
    + intros _ E. by apply app_eq_nil in E as [_ ?].
    + rewrite length_app. simpl. lia.
Qed.

Lemma digits_dec n : 0 <= n ->
  Forall (fun c => is_dec c = true) (digits 10 n) /\ dec_value 0 (digits 10 n) = n /\ digits 10 n <> [].
Proof.
  intros Hn. unfold digits. pose proof (Z.log2_nonneg n).
  destruct (digits_loop_dec (Z.to_nat (Z.log2 n + 1)) n) as (D1 & D2 & D3 & _); [| split_and!; [done | done | apply D3; lia]].
  split; [done |]. rewrite Z2Nat.id by lia. destruct (decide (n = 0)) as [-> |]; [done |].
  pose proof (Z.log2_spec n ltac:(lia)) as [_ L]. eapply Z.lt_le_trans; [exact L |].
  apply Z.pow_le_mono_l. lia.
Qed.

Lemma digits_loop_length fuel n (w : nat) : 0 <= n < 10 ^ Z.of_nat w -> (0 < w)%nat ->
  (length (digits_loop fuel 10 n []) <= w)%nat.
Proof.
  revert n w. induction fuel as [| fuel IH]; intros n w Hn Hw; [simpl; lia |]. cbn [digits_loop].
  destruct (Z.ltb_spec n 10) as [L | L]; [simpl; lia |]. rewrite digits_loop_app, length_app. cbn [length].
  destruct w as [| [| w]]; [lia | simpl in Hn; lia |].
  enough (length (digits_loop fuel 10 (n / 10) []) <= S w)%nat by lia. apply IH; [| lia].
  rewrite Nat2Z.inj_succ, Z.pow_succ_r in Hn by lia.
  split; [apply Z.div_pos; lia | apply Z.div_lt_upper_bound; lia].
Qed.

(** Reading back at most [w] digits that something else follows. *)
Lemma scan_digits_read w ds rest v some :
  Forall (fun c => is_dec c = true) ds -> (length ds <= w)%nat ->
  (length ds = w \/ forall c r, rest = c :: r -> is_dec c = false) ->
  scan_digits w (ds ++ rest) v some = (dec_value v ds, some || negb (length ds =? 0)%nat, rest).
Proof.
  intros Hd. revert w v some. induction Hd as [| c ds Hc Hd IH]; intros w v some L Hr.
  - cbn [app length Nat.eqb negb]. rewrite orb_false_r. unfold dec_value. cbn [fold_left].
    destruct w as [| w]; [by destruct rest |]. destruct rest as [| c r]; [done |]. cbn [scan_digits].
    destruct Hr as [Hr | Hr]; [done |]. by rewrite (Hr c r eq_refl).
  - destruct w as [| w]; [simpl in L; lia |]. cbn [app scan_digits]. rewrite Hc, IH;
      [| simpl in L; lia | cbn [length] in Hr; destruct Hr as [Hr | Hr]; [left; lia | by right]].
    cbn [length Nat.eqb negb orb]. by rewrite orb_true_r.
Qed.

Lemma dec_not_space c : is_dec c = true -> is_space c = false /\ c <> 45 /\ c <> 43 /\ c <> 0.
Proof.
  unfold is_dec, is_space. rewrite andb_true_iff, !Z.leb_le. intros [H1 H2].
  split_and!; [| lia | lia | lia]. apply orb_false_iff. split; [apply Z.eqb_neq; lia |].
  apply andb_false_iff. right. apply Z.leb_gt. lia.
Qed.

Lemma scan_number_digits w ds rest :
  Forall (fun c => is_dec c = true) ds -> ds <> [] -> (length ds <= w)%nat ->
  (length ds = w \/ forall c r, rest = c :: r -> is_dec c = false) ->
  scan_number w (ds ++ rest) = Some (dec_value 0 ds, rest).
Proof.
  intros Hd Hne L Hr. unfold scan_number. destruct ds as [| c ds]; [done |].
  destruct (dec_not_space c) as (H1 & H2 & H3 & _); [by apply Forall_cons in Hd as [? _] |].
  cbn [app skip_space]. rewrite H1, (proj2 (Z.eqb_neq _ _) H2), (proj2 (Z.eqb_neq _ _) H3).
  change (c :: ds ++ rest) with ((c :: ds) ++ rest). by rewrite scan_digits_read.
Qed.

Lemma scan_ld_print v : - 2 ^ 63 <= v < 2 ^ 63 -> scan_ld (print_ld v) = Some v.
Proof.
  intros Hv. unfold scan_ld, print_ld. destruct (Z.ltb_spec v 0).
  - destruct (digits_dec (- v)) as (D1 & D2 & D3); [lia |]. unfold scan_number. cbn [skip_space is_space].
    change (is_space 45) with false. cbv iota. change (45 =? 45) with true. cbv iota. cbn [length pred].
    rewrite <- (app_nil_r (digits 10 (- v))) at 2. rewrite scan_digits_read by (done || by right).
    rewrite D2, (proj2 (Nat.eqb_neq _ _)) by (by destruct (digits 10 (- v))). cbn [orb negb mbind option_bind].
    f_equal. lia.
  - destruct (digits_dec v) as (D1 & D2 & D3); [lia |].
    rewrite <- (app_nil_r (digits 10 v)) at 2. rewrite scan_number_digits by (done || by right).
    rewrite D2. cbn [mbind option_bind]. f_equal. lia.
Qed.

Lemma dec_value_zeroes k ds : dec_value 0 (replicate k 48 ++ ds) = dec_value 0 ds.
Proof. induction k as [| k IH]; [done |]. cbn [replicate app]. unfold dec_value in *. cbn [fold_left]. apply IH. Qed.

(** A field printed with leading zeroes is read back with the same width. *)
Lemma scan_number_pad w v rest : 0 <= v < 10 ^ Z.of_nat w -> (0 < w)%nat ->
  scan_number w (print_pad w v ++ rest) = Some (v, rest).
Proof.
  intros Hv Hw. unfold print_pad. rewrite (proj2 (Z.ltb_ge _ _)), Z.abs_eq by lia.
  destruct (digits_dec v) as (D1 & D2 & D3); [lia |].
  assert (L : (length (digits 10 v) <= w)%nat) by (by apply digits_loop_length).
  rewrite scan_number_digits; [by rewrite dec_value_zeroes, D2 | | | |].
  - apply Forall_app. split; [by apply Forall_replicate | done].
  - intros E. by apply app_eq_nil in E as [_ ?].
  - rewrite length_app, length_replicate. lia.
  - left. rewrite length_app, length_replicate. lia.
Qed.
