(* ===== verification/ObObjCast.v ===== *)
(** * ObObjCast: casts between types, common/ob_obj_cast.cpp

    The table [OB_OBJ_CAST] of the functions that convert an expression value from
    one type to another, a definition per source type, and the [obj_cast] functions
    on cells.  An output argument carries the buffer for text: a varchar gives its
    bytes, any other value none.  [None] is an aborted assertion, or a string that
    claims bytes outside its buffer.

    The number formats of the C library are those of [Format]; the conversions of
    text to floating values and the calendar of the time zone are parameters.
    Conversions between floating and integer values are those of x86-64. *)

From Stdlib Require Import Floats.SpecFloat.
From S2P Require Import Prelude ObNumber ObObject ObExprObj Format.
Local Open Scope Z_scope.

(** ** Floating values *)

Definition int_to_float (v : Z) : Z := bits_of_float 23 8 (binary_normalize 24 128 v 0 false).
Definition int_to_double (v : Z) : Z := bits_of_float 52 11 (binary_normalize 53 1024 v 0 false).

(** Truncation toward zero; what has no int64_t becomes the smallest one. *)
Definition float_to_int (f : spec_float) : Z :=
  match f with
  | S754_zero _ => 0
  | S754_finite s m e =>
      let n := if 0 <=? e then Z.pos m * 2 ^ e else Z.pos m / 2 ^ (- e) in
      let v := if s then - n else n in
      if (- 2 ^ 63 <=? v) && (v <? 2 ^ 63) then v else - 2 ^ 63
  | _ => - 2 ^ 63
  end.

Definition float_resize (prec emax : Z) (f : spec_float) : spec_float :=
  match f with
  | S754_finite s m e => binary_normalize prec emax (if s then Z.neg m else Z.pos m) e s
  | _ => f
  end.

Definition float_to_bool (f : spec_float) : bool := match f with S754_zero _ => false | _ => true end.

(** ** Dates *)

(** The members of [struct tm] the casts use. *)
Record tm := mkTm { tm_year : Z; tm_mon : Z; tm_mday : Z; tm_hour : Z; tm_min : Z; tm_sec : Z }.

(** "%04d-%02d-%02d %02d:%02d:%02d" *)
Definition print_tm (t : tm) : list Z :=
  print_pad 4 (tm_year t + 1900) ++ 45 :: print_pad 2 (tm_mon t + 1) ++ 45 :: print_pad 2 (tm_mday t) ++ 32 ::
  print_pad 2 (tm_hour t) ++ 58 :: print_pad 2 (tm_min t) ++ 58 :: print_pad 2 (tm_sec t).

Definition DATE_FIELDS : list directive := [FInt 4; FByte 45; FInt 2; FByte 45; FInt 2].
Definition TIME_FIELDS : list directive := [FInt 2; FByte 58; FInt 2; FByte 58; FInt 2].
Definition DATETIME_FIELDS : list directive := DATE_FIELDS ++ FSpace :: TIME_FIELDS.
Definition TIMESTAMP_FIELDS : list directive := DATETIME_FIELDS ++ [FByte 46; FInt 6].

Definition varchar_scanf (s : list Z) (f : list directive) : option (list Z) := scan_fields f (c_string s).

Section Casts.
(** [sscanf] with %f and %lf: the bits of the value, when there is one. *)
Context (scan_float scan_double : list Z -> option Z).
(** [localtime_r] and [mktime] *)
Context (localtime : Z -> tm) (mktime : tm -> Z).

(** ** Text *)

Definition out_buffer (out : ObExprObj) : list Z := match out with XVarchar s => s | _ => [] end.

(** [varchar_printf]: [s] is what the format gives. *)
Definition varchar_printf (out : ObExprObj) (s : list Z) : option (Z * ObExprObj) :=
  let n := length (out_buffer out) in
  if (n =? 0)%nat then Some (OB_INVALID_ARGUMENT, out)
  else if (length s <? n)%nat then Some (OB_SUCCESS, XVarchar s)
  else None.

Definition timestamp_varchar (timestamp : Z) (out : ObExprObj) : option (Z * ObExprObj) :=
  varchar_printf out (print_tm (localtime (Z.quot timestamp 1000000)) ++ 46 :: print_pad 6 (Z.rem timestamp 1000000)).

Definition to_tm (year month day hour minute second : Z) : tm :=
  mkTm (year - 1900) (month - 1) day hour minute second.

(** Date and time, else the date, else the time. *)
Definition scan_tm (s : list Z) : option tm :=
  match varchar_scanf s DATETIME_FIELDS with
  | Some [y; mo; d; h; mi; sec] => Some (to_tm y mo d h mi sec)
  | _ =>
      match varchar_scanf s DATE_FIELDS with
      | Some [y; mo; d] => Some (to_tm y mo d 0 0 0)
      | _ => match varchar_scanf s TIME_FIELDS with Some [h; mi; sec] => Some (to_tm 0 0 0 h mi sec) | _ => None end
      end
  end.

Definition varchar_timestamp (s : list Z) : option Z :=
  match varchar_scanf s TIMESTAMP_FIELDS with
  | Some [y; mo; d; h; mi; sec; usec] => Some (int64 (mktime (to_tm y mo d h mi sec) * 1000000 + usec))
  | _ => t ← scan_tm s ; Some (int64 (mktime t * 1000000))
  end.

Definition lower (c : Z) : Z := if (65 <=? c) && (c <=? 90) then c + 32 else c.

Definition varchar_bool (s : list Z) : bool :=
  let s := map lower s in
  bool_decide (s = [116; 114; 117; 101]) || bool_decide (s = [116]) || bool_decide (s = [121; 101; 115]) ||
  bool_decide (s = [121]).

(** ** The rows of the table *)

Definition identity (inp : ObExprObj) : option (Z * ObExprObj) := Some (OB_SUCCESS, inp).
Definition not_support (out : ObExprObj) : option (Z * ObExprObj) := Some (OB_NOT_SUPPORTED, out).

Definition set_from_int64 (v : Z) : option (Z * ObExprObj) := n ← from_int64 v ; Some (OB_SUCCESS, XDecimal n).

(** Int -> XXX *)
Definition int_cast (to : ObObjType) (inp out : ObExprObj) : option (Z * ObExprObj) :=
  match to, inp with
  | (ObNullType | ObSeqType | ObExtendType), _ => not_support out
  | ObIntType, _ => identity inp
  | ObFloatType, XInt v => Some (OB_SUCCESS, XFloat (int_to_float v))
  | ObDoubleType, XInt v => Some (OB_SUCCESS, XDouble (int_to_double v))
  | ObDateTimeType, XInt v => Some (OB_SUCCESS, XDateTime v)
  | ObPreciseDateTimeType, XInt v => Some (OB_SUCCESS, XPreciseDateTime v)
  | ObVarcharType, XInt v => varchar_printf out (print_ld v)
  | ObCreateTimeType, XInt v => Some (OB_SUCCESS, XCreateTime v)
  | ObModifyTimeType, XInt v => Some (OB_SUCCESS, XModifyTime v)
  | ObBoolType, XInt v => Some (OB_SUCCESS, XBool (negb (v =? 0)))
  | ObDecimalType, XInt v => set_from_int64 v
  | _, _ => None
  end.

(** [snprintf] into 64 bytes, then [ObNumber::from]. *)
Definition decimal_of_print (s : list Z) (out : ObExprObj) : option (Z * ObExprObj) :=
  '(ret, num) ← from_string (take 63 s) ;
  Some (ret, if ret =? OB_SUCCESS then XDecimal num else out).

(** Float -> XXX *)
Definition float_cast (to : ObObjType) (inp out : ObExprObj) : option (Z * ObExprObj) :=
  match to, inp with
  | (ObNullType | ObSeqType | ObExtendType), _ => not_support out
  | ObFloatType, _ => identity inp
  | ObIntType, XFloat b => Some (OB_SUCCESS, XInt (float_to_int (f32 b)))
  | ObDoubleType, XFloat b => Some (OB_SUCCESS, XDouble (bits_of_float 52 11 (float_resize 53 1024 (f32 b))))
  | ObDateTimeType, XFloat b => Some (OB_SUCCESS, XDateTime (float_to_int (f32 b)))
  | ObPreciseDateTimeType, XFloat b => Some (OB_SUCCESS, XPreciseDateTime (float_to_int (f32 b)))
  | ObVarcharType, XFloat b => varchar_printf out (print_f (Z.testbit b 31) (f32 b))
  | ObCreateTimeType, XFloat b => Some (OB_SUCCESS, XCreateTime (float_to_int (f32 b)))
  | ObModifyTimeType, XFloat b => Some (OB_SUCCESS, XModifyTime (float_to_int (f32 b)))
  | ObBoolType, XFloat b => Some (OB_SUCCESS, XBool (float_to_bool (f32 b)))
  | ObDecimalType, XFloat b => decimal_of_print (print_f (Z.testbit b 31) (f32 b)) out
  | _, _ => None
  end.

(** Double -> XXX *)
Definition double_cast (to : ObObjType) (inp out : ObExprObj) : option (Z * ObExprObj) :=
  match to, inp with
  | (ObNullType | ObSeqType | ObExtendType), _ => not_support out
  | ObDoubleType, _ => identity inp
  | ObIntType, XDouble b => Some (OB_SUCCESS, XInt (float_to_int (f64 b)))
  | ObFloatType, XDouble b => Some (OB_SUCCESS, XFloat (bits_of_float 23 8 (float_resize 24 128 (f64 b))))
  | ObDateTimeType, XDouble b => Some (OB_SUCCESS, XDateTime (float_to_int (f64 b)))
  | ObPreciseDateTimeType, XDouble b => Some (OB_SUCCESS, XPreciseDateTime (float_to_int (f64 b)))
  | ObVarcharType, XDouble b => varchar_printf out (print_f (Z.testbit b 63) (f64 b))
  | ObCreateTimeType, XDouble b => Some (OB_SUCCESS, XCreateTime (float_to_int (f64 b)))
  | ObModifyTimeType, XDouble b => Some (OB_SUCCESS, XModifyTime (float_to_int (f64 b)))
  | ObBoolType, XDouble b => Some (OB_SUCCESS, XBool (float_to_bool (f64 b)))
  | ObDecimalType, XDouble b => decimal_of_print (print_f (Z.testbit b 63) (f64 b)) out
  | _, _ => None
  end.

(** DateTime -> XXX: seconds *)
Definition datetime_cast (to : ObObjType) (inp out : ObExprObj) : option (Z * ObExprObj) :=
  match to, inp with
  | (ObNullType | ObSeqType | ObExtendType), _ => not_support out
  | ObDateTimeType, _ => identity inp
  | ObIntType, XDateTime v => Some (OB_SUCCESS, XInt (int32 v))
  | ObFloatType, XDateTime v => Some (OB_SUCCESS, XFloat (int_to_float v))
  | ObDoubleType, XDateTime v => Some (OB_SUCCESS, XDouble (int_to_double v))
  | ObPreciseDateTimeType, XDateTime v => Some (OB_SUCCESS, XPreciseDateTime (int64 (1000000 * v)))
  | ObVarcharType, XDateTime v => varchar_printf out (print_tm (localtime v))
  | ObCreateTimeType, XDateTime v => Some (OB_SUCCESS, XCreateTime (int64 (1000000 * v)))
  | ObModifyTimeType, XDateTime v => Some (OB_SUCCESS, XModifyTime (int64 (1000000 * v)))
  | ObBoolType, XDateTime v => Some (OB_SUCCESS, XBool (negb (v =? 0)))
  | ObDecimalType, XDateTime v => set_from_int64 v
  | _, _ => None
  end.

(** PreciseDateTime, CreateTime and ModifyTime -> XXX: microseconds.  The three
    rows of the table differ in their own type only, where they are [identity]. *)
Definition micros (inp : ObExprObj) (from : ObObjType) : option Z :=
  match from, inp with
  | ObPreciseDateTimeType, XPreciseDateTime v | ObCreateTimeType, XCreateTime v | ObModifyTimeType, XModifyTime v => Some v
  | _, _ => None
  end.

Definition timestamp_cast (from to : ObObjType) (inp out : ObExprObj) : option (Z * ObExprObj) :=
  if type_eqb from to then identity inp
  else match to with
  | ObNullType | ObSeqType | ObExtendType => not_support out
  | _ =>
      v ← micros inp from ;
      match to with
      | ObIntType => Some (OB_SUCCESS, XInt v)
      | ObFloatType => Some (OB_SUCCESS, XFloat (int_to_float v))
      | ObDoubleType => Some (OB_SUCCESS, XDouble (int_to_double v))
      | ObDateTimeType => Some (OB_SUCCESS, XDateTime (Z.quot v 1000000))
      | ObPreciseDateTimeType => Some (OB_SUCCESS, XPreciseDateTime v)
      | ObVarcharType => timestamp_varchar v out
      | ObCreateTimeType => Some (OB_SUCCESS, XCreateTime v)
      | ObModifyTimeType => Some (OB_SUCCESS, XModifyTime v)
      | ObBoolType => Some (OB_SUCCESS, XBool (negb (v =? 0)))
      | _ => set_from_int64 v
      end
  end.

Definition pdatetime_cast := timestamp_cast ObPreciseDateTimeType.
Definition ctime_cast := timestamp_cast ObCreateTimeType.
Definition mtime_cast := timestamp_cast ObModifyTimeType.

(** Varchar -> XXX: what cannot be read is zero. *)
Definition varchar_cast (to : ObObjType) (inp out : ObExprObj) : option (Z * ObExprObj) :=
  match to, inp with
  | (ObNullType | ObSeqType | ObExtendType), _ => not_support out
  | ObVarcharType, _ => identity inp
  | ObIntType, XVarchar s => Some (OB_SUCCESS, XInt (default 0 (scan_ld (c_string s))))
  | ObFloatType, XVarchar s => Some (OB_SUCCESS, XFloat (default 0 (scan_float (c_string s))))
  | ObDoubleType, XVarchar s => Some (OB_SUCCESS, XDouble (default 0 (scan_double (c_string s))))
  | ObDateTimeType, XVarchar s => Some (OB_SUCCESS, XDateTime (default 0 (mktime <$> scan_tm s)))
  | ObPreciseDateTimeType, XVarchar s => Some (OB_SUCCESS, XPreciseDateTime (default 0 (varchar_timestamp s)))
  | ObCreateTimeType, XVarchar s => Some (OB_SUCCESS, XCreateTime (default 0 (varchar_timestamp s)))
  | ObModifyTimeType, XVarchar s => Some (OB_SUCCESS, XModifyTime (default 0 (varchar_timestamp s)))
  | ObBoolType, XVarchar s => Some (OB_SUCCESS, XBool (varchar_bool s))
  | ObDecimalType, XVarchar s =>
      '(ret, num) ← from_string s ;
      Some (OB_SUCCESS, if ret =? OB_SUCCESS then XDecimal num else out)
  | _, _ => None
  end.

(** Bool -> XXX *)
Definition bool_cast (to : ObObjType) (inp out : ObExprObj) : option (Z * ObExprObj) :=
  match to, inp with
  | (ObNullType | ObSeqType | ObExtendType), _ => not_support out
  | ObBoolType, _ => identity inp
  | ObIntType, XBool b => Some (OB_SUCCESS, XInt (Z.b2z b))
  | ObFloatType, XBool b => Some (OB_SUCCESS, XFloat (int_to_float (Z.b2z b)))
  | ObDoubleType, XBool b => Some (OB_SUCCESS, XDouble (int_to_double (Z.b2z b)))
  | ObDateTimeType, XBool b => Some (OB_SUCCESS, XDateTime (Z.b2z b))
  | ObPreciseDateTimeType, XBool b => Some (OB_SUCCESS, XPreciseDateTime (Z.b2z b))
  | ObVarcharType, XBool b =>
      Some (OB_SUCCESS, XVarchar (if b then [116; 114; 117; 101] else [102; 97; 108; 115; 101]))
  | ObCreateTimeType, XBool b => Some (OB_SUCCESS, XCreateTime (Z.b2z b))
  | ObModifyTimeType, XBool b => Some (OB_SUCCESS, XModifyTime (Z.b2z b))
  | ObDecimalType, XBool b => set_from_int64 (Z.b2z b)
  | _, _ => None
  end.

(** Decimal -> XXX; floating values go through the text. *)
Definition decimal_cast (to : ObObjType) (inp out : ObExprObj) : option (Z * ObExprObj) :=
  match to, inp with
  | (ObNullType | ObSeqType | ObExtendType), _ => not_support out
  | ObDecimalType, _ => identity inp
  | ObIntType, XDecimal n => v ← cast_to_int64 n ; Some (OB_SUCCESS, XInt v)
  | ObFloatType, XDecimal n =>
      s ← to_string n (Z.of_nat MAX_PRINTABLE_SIZE) ; Some (OB_SUCCESS, XFloat (default 0 (scan_float s)))
  | ObDoubleType, XDecimal n =>
      s ← to_string n (Z.of_nat MAX_PRINTABLE_SIZE) ; Some (OB_SUCCESS, XDouble (default 0 (scan_double s)))
  | ObDateTimeType, XDecimal n => v ← cast_to_int64 n ; Some (OB_SUCCESS, XDateTime v)
  | ObPreciseDateTimeType, XDecimal n => v ← cast_to_int64 n ; Some (OB_SUCCESS, XPreciseDateTime v)
  | ObVarcharType, XDecimal n =>
      let buf_len := length (out_buffer out) in
      if (buf_len <? MAX_PRINTABLE_SIZE)%nat then Some (OB_INVALID_ARGUMENT, out)
      else s ← to_string n (Z.of_nat buf_len) ; Some (OB_SUCCESS, XVarchar s)
  | ObCreateTimeType, XDecimal n => v ← cast_to_int64 n ; Some (OB_SUCCESS, XCreateTime v)
  | ObModifyTimeType, XDecimal n => v ← cast_to_int64 n ; Some (OB_SUCCESS, XModifyTime v)
  | ObBoolType, XDecimal n => Some (OB_SUCCESS, XBool (negb (is_zero n)))
  | _, _ => None
  end.

(** [OB_OBJ_CAST[from][to](params, in, out)] *)
Definition OB_OBJ_CAST (from to : ObObjType) (inp out : ObExprObj) : option (Z * ObExprObj) :=
  match from with
  | ObNullType => identity inp
  | ObIntType => int_cast to inp out
  | ObFloatType => float_cast to inp out
  | ObDoubleType => double_cast to inp out
  | ObDateTimeType => datetime_cast to inp out
  | ObVarcharType => varchar_cast to inp out
  | ObPreciseDateTimeType => pdatetime_cast to inp out
  | ObCreateTimeType => ctime_cast to inp out
  | ObModifyTimeType => mtime_cast to inp out
  | ObSeqType | ObExtendType => not_support out
  | ObBoolType => bool_cast to inp out
  | ObDecimalType => decimal_cast to inp out
  end.

(** ** Casts of cells *)

(** [obj_cast(orig_cell, expected_type, casted_cell, res_cell)]: the code, the cell
    for the result and the cell the result pointer is set to. *)
Definition obj_cast_to (orig_cell : ObObj) (expected_type : ObObjType) (casted_cell : ObObj)
    : option (Z * ObObj * option ObObj) :=
  if type_eqb (type_ orig_cell) expected_type then Some (OB_SUCCESS, casted_cell, Some orig_cell)
  else
    from ← expr_assign orig_cell ;
    to ← expr_assign casted_cell ;
    '(ret, to) ← OB_OBJ_CAST (type_ orig_cell) expected_type from to ;
    if negb (ret =? OB_SUCCESS) then Some (ret, casted_cell, None)
    else
      '(ret, cell) ← expr_to to casted_cell ;
      Some (ret, cell, if ret =? OB_SUCCESS then Some cell else None).

(** [obj_cast(cell, expected_type, buf, buf_size, used_buf_len)]: the code, the
    cell and the bytes used of the buffer. *)
Definition obj_cast_in (cell : ObObj) (expected_type : ObObjType) (buf : list Z) : option (Z * ObObj * Z) :=
  if type_eqb (type_ cell) expected_type then Some (OB_SUCCESS, cell, 0)
  else
    from ← expr_assign cell ;
    let to := if type_eqb ObVarcharType expected_type then XVarchar buf else XNull in
    '(ret, to) ← OB_OBJ_CAST (type_ cell) expected_type from to ;
    if negb (ret =? OB_SUCCESS) then Some (ret, cell, 0)
    else
      '(ret, cell) ← expr_to to cell ;
      Some (ret, cell,
            if (ret =? OB_SUCCESS) && type_eqb ObVarcharType expected_type
            then Z.of_nat (length (default [] (get_varchar cell))) else 0).

(** ** Lemmas *)

Lemma varchar_printf_type out s r : varchar_printf out s = Some (OB_SUCCESS, r) -> get_type r = ObVarcharType.
Proof. unfold varchar_printf. intros E. repeat case_match; [done | by injection E as <- | done]. Qed.

Lemma decimal_of_print_type s out r : decimal_of_print s out = Some (OB_SUCCESS, r) -> get_type r = ObDecimalType.
Proof. unfold decimal_of_print. intros ([ret num] & _ & E)%bind_Some. simplify_eq. done. Qed.

Lemma set_from_int64_type v ret r : set_from_int64 v = Some (ret, r) -> get_type r = ObDecimalType.
Proof. unfold set_from_int64. intros (n & _ & E)%bind_Some. by simplify_eq. Qed.

Lemma timestamp_varchar_type ts out r :
  timestamp_varchar ts out = Some (OB_SUCCESS, r) -> get_type r = ObVarcharType.
Proof. apply varchar_printf_type. Qed.

Ltac cast_row E :=
  try discriminate E;
  try (change (type_eqb _ _) with true in E); try (change (type_eqb _ _) with false in E); cbv iota in E;
  try (rewrite bind_some in E; cbv beta iota in E);
  lazymatch type of E with
  | Some _ = _ => injection E as <-; left; reflexivity
  | mbind _ (cast_to_int64 _) = _ => apply bind_Some in E as (? & _ & [= <-]); left; reflexivity
  | mbind _ (to_string _ _) = _ => apply bind_Some in E as (? & _ & [= <-]); left; reflexivity
  | varchar_printf _ _ = _ => left; exact (varchar_printf_type _ _ _ E)
  | timestamp_varchar _ _ = _ => left; exact (timestamp_varchar_type _ _ _ E)
  | decimal_of_print _ _ = _ => left; exact (decimal_of_print_type _ _ _ E)
  | set_from_int64 _ = _ => left; exact (set_from_int64_type _ _ _ E)
  end.

(** What a cast that succeeds gives: a value of the type asked for; a null is passed
    on, and text that is no number leaves the output as it was. *)
Lemma cast_result_type from to inp out r :
  OB_OBJ_CAST from to inp out = Some (OB_SUCCESS, r) -> get_type inp = from -> from <> ObNullType ->
  get_type r = to \/ (from = ObVarcharType /\ to = ObDecimalType /\ r = out).
Proof.
  intros E <- Hn. destruct inp; try done; cbn [OB_OBJ_CAST get_type] in E;
    cbv [int_cast float_cast double_cast datetime_cast pdatetime_cast ctime_cast mtime_cast timestamp_cast
      varchar_cast bool_cast decimal_cast identity not_support] in E.
  all: destruct to; cbn [micros] in E; try solve [cast_row E].
  - apply bind_Some in E as ([ret num] & _ & [= <-]). destruct (ret =? OB_SUCCESS); [by left | right; by split_and!].
  - destruct (_ <? _)%nat; [done |]. cast_row E.
Qed.

(** Comparison with null has a code of its own. *)
Lemma from_string_code s ret n : from_string s = Some (ret, n) -> ret <> OB_RESULT_UNKNOWN.
Proof.
  unfold from_string. destruct (from_string_loop s _ _ _) as [[[[r ws] neg] vs] |] eqn:E; [| done]. intros H.
  destruct (_ <? vs); [by simplify_eq |].
  destruct (Z.eqb_spec r OB_SUCCESS); [apply bind_Some in H as (? & _ & H); by simplify_eq |].
  injection H as <- <-. clear n0. revert E. generalize [0; 0; 0; 0], false, (-1).
  induction s as [| c s IH]; intros l b z E; cbn [from_string_loop] in E; [by simplify_eq |].
  destruct (_ && _); [| destruct (c =? 45); [by eapply IH | destruct (c =? 46); [by eapply IH | by simplify_eq]]].
  assert (Hcode : forall ws d, (mul_uint32 ws 10 true = Some (r, d) \/ exists k, add_uint32 ws k = Some (r, d)) -> r <> OB_RESULT_UNKNOWN).
  { intros ws' d [H | [k H]]; apply bind_Some in H as (_ & _ & H); repeat case_match; by simplify_eq. }
  apply bind_Some in E as ([r1 w1] & E1 & E). destruct (Z.eqb_spec r1 OB_SUCCESS); cbn in E;
    [| simplify_eq; eapply Hcode; by left].
  apply bind_Some in E as ([r2 w2] & E2 & E). destruct (Z.eqb_spec r2 OB_SUCCESS); cbn in E;
    [by eapply IH | simplify_eq; eapply Hcode; right; by eexists].
Qed.

Lemma varchar_printf_code out s ret r : varchar_printf out s = Some (ret, r) -> ret <> OB_RESULT_UNKNOWN.
Proof. unfold varchar_printf. intros E. repeat case_match; by simplify_eq. Qed.

Ltac code_row E :=
  try discriminate E;
  try (change (type_eqb _ _) with true in E); try (change (type_eqb _ _) with false in E); cbv iota in E;
  try (rewrite bind_some in E; cbv beta iota in E);
  lazymatch type of E with
  | Some _ = _ => injection E as <- <-; discriminate
  | mbind _ (cast_to_int64 _) = _ => apply bind_Some in E as (? & _ & [= <- <-]); discriminate
  | mbind _ (to_string _ _) = _ => apply bind_Some in E as (? & _ & [= <- <-]); discriminate
  | mbind _ (from_string _) = _ => apply bind_Some in E as ([? ?] & _ & [= <- <-]); discriminate
  | varchar_printf _ _ = _ => exact (varchar_printf_code _ _ _ _ E)
  | timestamp_varchar _ _ = _ => exact (varchar_printf_code _ _ _ _ E)
  | decimal_of_print _ _ = _ => apply bind_Some in E as ([? ?] & ? & [= <- <-]); eapply from_string_code; eassumption
  | set_from_int64 _ = _ => apply bind_Some in E as (? & _ & [= <- <-]); discriminate
  end.

Lemma cast_code from to inp out ret r :
  OB_OBJ_CAST from to inp out = Some (ret, r) -> get_type inp = from -> ret <> OB_RESULT_UNKNOWN.
Proof.
  intros E <-. destruct inp; cbn [OB_OBJ_CAST get_type] in E;
    cbv [int_cast float_cast double_cast datetime_cast pdatetime_cast ctime_cast mtime_cast timestamp_cast
      varchar_cast bool_cast decimal_cast identity not_support] in E.
  all: destruct to; cbn [micros] in E; try solve [code_row E].
  destruct (_ <? _)%nat; code_row E.
Qed.

Lemma c_string_id s : Forall (fun c => c <> 0) s -> c_string s = s.
Proof.
  induction 1 as [| c s Hc Hs IH]; [done |]. cbn [c_string]. by rewrite (proj2 (Z.eqb_neq _ _) Hc), IH.
Qed.

Lemma digits_nonzero n : 0 <= n -> Forall (fun c => c <> 0) (digits 10 n).
Proof.
  intros Hn. destruct (digits_dec n Hn) as (D & _). eapply Forall_impl; [exact D |].
  intros c Hc. by apply dec_not_space in Hc as (_ & _ & _ & ?).
Qed.

Lemma print_ld_text v : - 2 ^ 63 <= v < 2 ^ 63 ->
  Forall (fun c => c <> 0) (print_ld v) /\ (length (print_ld v) <= 20)%nat.
Proof.
  intros Hv. unfold print_ld. destruct (Z.ltb_spec v 0).
  - split; [constructor; [done | apply digits_nonzero; lia] |].
    cbn [length]. pose proof (digits_loop_length (Z.to_nat (Z.log2 (- v) + 1)) (- v) 19 ltac:(lia) ltac:(lia)).
    unfold digits. lia.
  - split; [apply digits_nonzero; lia |].
    pose proof (digits_loop_length (Z.to_nat (Z.log2 v + 1)) v 19 ltac:(lia) ltac:(lia)). unfold digits. lia.
Qed.

Lemma print_pad_text w v : 0 <= v < 10 ^ Z.of_nat w -> (0 < w)%nat ->
  Forall (fun c => c <> 0) (print_pad w v) /\ length (print_pad w v) = w.
Proof.
  intros Hv Hw. unfold print_pad. rewrite (proj2 (Z.ltb_ge _ _)), Z.abs_eq by lia.
  pose proof (digits_loop_length (Z.to_nat (Z.log2 v + 1)) v w Hv Hw) as L. fold (digits 10 v) in L. split.
  - apply Forall_app. split; [by apply Forall_replicate | apply digits_nonzero; lia].
  - rewrite length_app, length_replicate. lia.
Qed.

(** ** Text and back *)

(** The members of the calendar as the formats have room for them. *)
Definition tm_ok (t : tm) : Prop :=
  0 <= tm_year t + 1900 < 10 ^ 4 /\ 0 <= tm_mon t + 1 < 10 ^ 2 /\ 0 <= tm_mday t < 10 ^ 2 /\
  0 <= tm_hour t < 10 ^ 2 /\ 0 <= tm_min t < 10 ^ 2 /\ 0 <= tm_sec t < 10 ^ 2.

Lemma print_tm_text t : tm_ok t -> Forall (fun c => c <> 0) (print_tm t) /\ length (print_tm t) = 19%nat.
Proof.
  intros (H1 & H2 & H3 & H4 & H5 & H6). unfold print_tm.
  destruct (print_pad_text 4 _ H1) as [F1 L1], (print_pad_text 2 _ H2) as [F2 L2], (print_pad_text 2 _ H3) as [F3 L3],
    (print_pad_text 2 _ H4) as [F4 L4], (print_pad_text 2 _ H5) as [F5 L5], (print_pad_text 2 _ H6) as [F6 L6]; try lia.
  split; [| repeat (rewrite length_app; cbn [length]); lia].
  repeat first [apply Forall_app_2; [assumption |] | apply Forall_cons_2; [done |] | assumption].
Qed.

Lemma skip_space_idem s : skip_space (skip_space s) = skip_space s.
Proof. induction s as [| c s IH]; [done |]. cbn [skip_space]. destruct (is_space c) eqn:E; [done |]. cbn [skip_space]. by rewrite E. Qed.

Lemma scan_pad_field w v f rest : 0 <= v < 10 ^ Z.of_nat w -> (0 < w)%nat ->
  scan_fields (FInt w :: f) (print_pad w v ++ rest) = (vs ← scan_fields f rest ; Some (v :: vs)).
Proof. intros. cbn [scan_fields]. by rewrite scan_number_pad. Qed.

Lemma scan_space_field w f s : scan_fields (FSpace :: FInt w :: f) (32 :: s) = scan_fields (FInt w :: f) s.
Proof. cbn [scan_fields skip_space]. change (is_space 32) with true. cbv iota. unfold scan_number. by rewrite skip_space_idem. Qed.

Lemma scan_byte_field c f s : scan_fields (FByte c :: f) (c :: s) = scan_fields f s.
Proof. cbn [scan_fields]. by rewrite Z.eqb_refl. Qed.

Lemma scan_tm_fields f t rest :
  tm_ok t ->
  scan_fields (DATETIME_FIELDS ++ f) (print_tm t ++ rest)
  = vs ← scan_fields f rest ;
    Some (tm_year t + 1900 :: tm_mon t + 1 :: tm_mday t :: tm_hour t :: tm_min t :: tm_sec t :: vs).
Proof.
  intros (H1 & H2 & H3 & H4 & H5 & H6). unfold print_tm, DATETIME_FIELDS, DATE_FIELDS, TIME_FIELDS.
  repeat (rewrite <- ?app_assoc, <- ?app_comm_cons; cbn [app]).
  do 2 (rewrite scan_pad_field, scan_byte_field by (done || lia)).
  rewrite scan_pad_field, scan_space_field by (done || lia).
  do 2 (rewrite scan_pad_field, scan_byte_field by (done || lia)).
  rewrite scan_pad_field by (done || lia). by destruct (scan_fields f rest).
Qed.

Lemma to_tm_print t : to_tm (tm_year t + 1900) (tm_mon t + 1) (tm_mday t) (tm_hour t) (tm_min t) (tm_sec t) = t.
Proof. destruct t. unfold to_tm. cbn. f_equal; lia. Qed.

Lemma varchar_printf_room out s : (length s < length (out_buffer out))%nat ->
  varchar_printf out s = Some (OB_SUCCESS, XVarchar s).
Proof.
  intros L. unfold varchar_printf. rewrite (proj2 (Nat.eqb_neq _ _)) by lia. by rewrite (proj2 (Nat.ltb_lt _ _)).
Qed.

Lemma scan_tm_print t : tm_ok t -> scan_tm (print_tm t) = Some t.
Proof.
  intros Ht. unfold scan_tm, varchar_scanf. rewrite c_string_id by (by apply print_tm_text).
  pose proof (scan_tm_fields [] t [] Ht) as E. rewrite !app_nil_r in E. rewrite E.
  cbn [scan_fields mbind option_bind]. by rewrite to_tm_print.
Qed.

(** A cast to text in a buffer and back. *)
Definition through_varchar (e : ObExprObj) (buf : list Z) : option (Z * ObExprObj) :=
  '(ret, s) ← OB_OBJ_CAST (get_type e) ObVarcharType e (XVarchar buf) ;
  if negb (ret =? OB_SUCCESS) then Some (ret, s) else OB_OBJ_CAST ObVarcharType (get_type e) s XNull.

Section Calendar.
Context (buf : list Z) (Hbuf : length buf = MAX_PRINTABLE_SIZE).

Lemma through_printf e s :
  OB_OBJ_CAST (get_type e) ObVarcharType e (XVarchar buf) = varchar_printf (XVarchar buf) s ->
  (length s < MAX_PRINTABLE_SIZE)%nat ->
  through_varchar e buf = varchar_cast (get_type e) (XVarchar s) XNull.
Proof. intros E L. unfold through_varchar. by rewrite E, varchar_printf_room by (cbn [out_buffer]; lia). Qed.

Lemma int_through v : - 2 ^ 63 <= v < 2 ^ 63 -> through_varchar (XInt v) buf = Some (OB_SUCCESS, XInt v).
Proof.
  intros Hv. destruct (print_ld_text v Hv) as [F L]. unfold MAX_PRINTABLE_SIZE in *.
  rewrite (through_printf _ (print_ld v)) by (done || unfold MAX_PRINTABLE_SIZE; lia). cbn [varchar_cast get_type].
  by rewrite c_string_id, scan_ld_print.
Qed.

Lemma datetime_through t : tm_ok (localtime t) -> mktime (localtime t) = t ->
  through_varchar (XDateTime t) buf = Some (OB_SUCCESS, XDateTime t).
Proof.
  intros Ht E. destruct (print_tm_text _ Ht) as [_ L].
  rewrite (through_printf _ (print_tm (localtime t))) by (done || (rewrite L; unfold MAX_PRINTABLE_SIZE; lia)).
  cbn [varchar_cast get_type]. rewrite scan_tm_print by done. cbn. by rewrite E.
Qed.

Lemma timestamp_text t : 0 <= t < 2 ^ 63 -> let s := t / 1000000 in
  tm_ok (localtime s) -> mktime (localtime s) = s ->
  exists txt, timestamp_varchar t (XVarchar buf) = Some (OB_SUCCESS, XVarchar txt) /\ varchar_timestamp txt = Some t.
Proof.
  intros Ht s Hs E. exists (print_tm (localtime s) ++ 46 :: print_pad 6 (t mod 1000000)).
  pose proof (Z.mod_pos_bound t 1000000 ltac:(lia)) as Hm.
  destruct (print_tm_text _ Hs) as [F1 L1], (print_pad_text 6 (t mod 1000000)) as [F2 L2]; [simpl; lia | lia |].
  unfold timestamp_varchar, varchar_timestamp, varchar_scanf. rewrite Z.quot_div_nonneg, Z.rem_mod_nonneg by lia. split.
  - apply varchar_printf_room. rewrite length_app. cbn [length out_buffer]. rewrite L1, L2, Hbuf. unfold MAX_PRINTABLE_SIZE. lia.
  - rewrite c_string_id by (apply Forall_app_2; [done | by constructor]).
    unfold TIMESTAMP_FIELDS. rewrite scan_tm_fields by done. rewrite scan_byte_field, <- (app_nil_r (print_pad _ _)), scan_pad_field by (simpl; lia).
    cbn [scan_fields mbind option_bind]. rewrite to_tm_print, E. f_equal. unfold s.
    pose proof (Z.div_mod t 1000000 ltac:(lia)). rewrite wraps_small by (simpl; lia). lia.
Qed.

(** C12: casts to text and back.  In a buffer of 128 bytes, the size the callers use, an
    integer, a boolean, a decimal that [to_string] prints, and a date or a time stamp
    in microseconds of the years 0 to 9999 become text that casts back to the same
    value (a decimal zero loses its scale).  For the dates, [mktime] must take the
    local time of that second back to it. *)
Theorem cast_roundtrip (v : Z) (b : bool) (n : ObNumber) (t : Z) (Hv : - 2 ^ 63 <= v < 2 ^ 63)
    (Hn : number_wf n) (Hc : canonical (words_ n)) (Hs : vscale_ n <= SINGLE_PRECISION_NDIGITS)
    (Hw : Z.abs (sval (words_ n)) < 2 ^ 127) (Ht : 0 <= t < 2 ^ 63) (Htm : tm_ok (localtime (t / 1000000)))
    (Hmk : mktime (localtime (t / 1000000)) = t / 1000000) :
  through_varchar (XInt v) buf = Some (OB_SUCCESS, XInt v) /\
  through_varchar (XBool b) buf = Some (OB_SUCCESS, XBool b) /\
  through_varchar (XDecimal n) buf
    = Some (OB_SUCCESS, XDecimal (mkNumber (if sval (words_ n) =? 0 then 0 else vscale_ n) (words_ n))) /\
  through_varchar (XDateTime (t / 1000000)) buf = Some (OB_SUCCESS, XDateTime (t / 1000000)) /\
  through_varchar (XPreciseDateTime t) buf = Some (OB_SUCCESS, XPreciseDateTime t) /\
  through_varchar (XCreateTime t) buf = Some (OB_SUCCESS, XCreateTime t) /\
  through_varchar (XModifyTime t) buf = Some (OB_SUCCESS, XModifyTime t).
Proof.
  destruct (timestamp_text t Ht Htm Hmk) as (txt & E1 & E2).
  conjs; [by apply int_through | by destruct b | | by apply datetime_through | | |].
  2, 3, 4: unfold through_varchar; cbn [OB_OBJ_CAST get_type]; unfold pdatetime_cast, ctime_cast, mtime_cast, timestamp_cast;
    change (type_eqb _ _) with false; cbn [micros]; cbv iota; rewrite bind_some; cbv beta; rewrite E1, bind_some; cbn;
    by rewrite E2.
  destruct (string_roundtrip n Hn Hc Hs Hw) as (s & S1 & S2). unfold through_varchar.
  cbn [OB_OBJ_CAST get_type decimal_cast out_buffer]. rewrite Hbuf, S1. cbn. by rewrite S2.
Qed.
End Calendar.
End Casts.

(** The first month of 1970 in UTC: a calendar for the examples. *)
Definition january_localtime (t : Z) : tm := mkTm 70 0 (t / 86400 + 1) (t / 3600 mod 24) (t / 60 mod 60) (t mod 60).
Definition january_mktime (t : tm) : Z := (tm_mday t - 1) * 86400 + tm_hour t * 3600 + tm_min t * 60 + tm_sec t.
Definition no_float (s : list Z) : option Z := None.

(** -42, true, -123.45 and the second day of 1970 at 03:46:39.000007 *)
Lemma cast_roundtrip_witness :
  let T := through_varchar no_float no_float january_localtime january_mktime in
  let buf := replicate 128 0 in
  T (XInt (-42)) buf = Some (OB_SUCCESS, XInt (-42)) /\
  T (XCreateTime 99999000007) buf = Some (OB_SUCCESS, XCreateTime 99999000007).
Proof.
  destruct (cast_roundtrip no_float no_float january_localtime january_mktime (replicate 128 0) eq_refl
    (-42) true (mkNumber 2 [4294954951]) 99999000007) as (H1 & _ & _ & _ & _ & H6 & _);
    [lia | split_and!; [by apply Forall_singleton | by vm_compute ..] | by vm_compute .. | lia
    | unfold tm_ok; vm_compute; split_and!; done | by vm_compute |].
  by split.
Defined.

(** Casts that go wrong, for every calendar.  Text that is no
    number casts to a decimal with success and leaves the output null, so that adding it
    to a decimal aborts; a date after January 2038 becomes a negative integer; the
    fraction .5 of a second is read as five microseconds; a large double casts to text
    that claims bytes outside the buffer of 128; an integer between [2 ^ 31] and
    [2 ^ 32] becomes a negative decimal. *)
Theorem cast_faults (scan_float scan_double : list Z -> option Z) (localtime : Z -> tm) (mktime : tm -> Z) :
  let cast f t e out := OB_OBJ_CAST scan_float scan_double localtime mktime f t e out in
  cast ObVarcharType ObDecimalType (XVarchar [97; 98; 99]) XNull = Some (OB_SUCCESS, XNull) /\
  expr_add (fun f t e => cast f t e XNull) (XVarchar [97; 98; 99]) (XDecimal (mkNumber 1 [15])) = None /\
  cast ObDateTimeType ObIntType (XDateTime (2 ^ 31)) XNull = Some (OB_SUCCESS, XInt (- 2 ^ 31)) /\
  varchar_timestamp mktime [50; 48; 49; 50; 45; 48; 49; 45; 48; 49; 32; 48; 48; 58; 48; 48; 58; 48; 48; 46; 53]
    = Some (int64 (mktime (mkTm 112 0 1 0 0 0) * 1000000 + 5)) /\
  cast ObDoubleType ObVarcharType (XDouble (int_to_double (2 ^ 500))) (XVarchar (replicate 128 0)) = None /\
  exists n, cast ObIntType ObDecimalType (XInt 3000000000) XNull = Some (OB_SUCCESS, XDecimal n) /\
    sval (words_ n) = - 1294967296.
Proof.
  cbv zeta. conjs; [by vm_compute .. | | by vm_compute | exists (mkNumber 0 [3000000000]); split; by vm_compute].
  unfold varchar_timestamp. by change (varchar_scanf _ TIMESTAMP_FIELDS) with (Some [2012; 1; 1; 0; 0; 0; 5]).
Qed.
