(* ===== verification/ExprArith.v ===== *)
(** * ExprArith: division, modulo, negation and static types of expression values

    The rest of the arithmetic of common/ob_expr_obj.cpp, with the conversions of
    [ObObjCast]: [div] with its promotion table, [mod], [negate], and the [type_add] ...
    [type_varchar_length] functions, which tell the type of a result before there are
    values, by promoting objects of the types that hold no value.

    [None] is an aborted assertion or a trapped division. *)

From Stdlib Require Import Floats.SpecFloat.
From S2P Require Import Prelude ObNumber ObNumberDiv ObObject ObExprObj ObObjCast.
Local Open Scope Z_scope.

Definition float_div (a b : Z) : Z := bits_of_float 23 8 (SFdiv 24 128 (f32 a) (f32 b)).
Definition double_div (a b : Z) : Z := bits_of_float 52 11 (SFdiv 53 1024 (f64 a) (f64 b)).

#[local] Abbreviation tMax := (@None ObObjType).
#[local] Abbreviation tNull := (Some ObNullType).
#[local] Abbreviation tFloat := (Some ObFloatType).
#[local] Abbreviation tDouble := (Some ObDoubleType).
#[local] Abbreviation tDecimal := (Some ObDecimalType).

Definition DIV_TYPE_PROMOTION : list (list (option ObObjType)) :=
  [
   (** Null *) [tNull; tNull; tNull; tNull; tNull; tNull; tNull; tNull; tNull; tNull; tNull; tNull; tNull];
   (** Int *) [tNull; tDouble; tFloat; tDouble; tDouble; tDouble; tDouble; tMax; tDouble; tDouble; tMax; tDouble;
     tDecimal];
   (** Float *) [tNull; tFloat; tFloat; tDouble; tDouble; tDouble; tDouble; tMax; tDouble; tDouble; tMax; tFloat;
     tDouble];
   (** Double *) [tNull; tDouble; tDouble; tDouble; tDouble; tDouble; tDouble; tMax; tDouble; tDouble; tMax;
     tDouble; tDouble];
   (** DateTime *) [tNull; tDouble; tDouble; tDouble; tDouble; tDouble; tDouble; tMax; tDouble; tDouble; tMax;
     tDouble; tDecimal];
   (** PreciseDateTime *) [tNull; tDouble; tDouble; tDouble; tDouble; tDouble; tDouble; tMax; tDouble; tDouble; tMax;
     tDouble; tDecimal];
   (** Varchar *) [tNull; tDouble; tDouble; tDouble; tDouble; tDouble; tDouble; tMax; tDouble; tDouble; tMax;
     tDouble; tDecimal];
   (** Seq *) [tNull; tMax; tMax; tMax; tMax; tMax; tMax; tMax; tMax; tMax; tMax; tMax; tMax];
   (** CreateTime *) [tNull; tDouble; tDouble; tDouble; tDouble; tDouble; tDouble; tMax; tDouble; tDouble; tMax;
     tDouble; tDecimal];
   (** ModifyTime *) [tNull; tDouble; tDouble; tDouble; tDouble; tDouble; tDouble; tMax; tDouble; tDouble; tMax;
     tDouble; tDecimal];
   (** Extend *) [tNull; tMax; tMax; tMax; tMax; tMax; tMax; tMax; tMax; tMax; tMax; tMax; tMax];
   (** Bool *) [tNull; tDouble; tFloat; tDouble; tDouble; tDouble; tDouble; tMax; tDouble; tDouble; tMax; tDouble;
     tDecimal];
   (** Decimal *) [tNull; tDecimal; tDouble; tDouble; tDecimal; tDecimal; tDecimal; tMax; tDecimal; tDecimal; tMax;
     tDecimal; tDecimal] ].

#[export] Instance is_null_dec (e : ObExprObj) : Decision (e = XNull).
Proof. destruct e; first [by left | by right]. Defined.

(** [is_zero]: numbers only *)
Definition expr_is_zero (e : ObExprObj) : bool :=
  match e with
  | XInt v => v =? 0
  | XDecimal n => is_zero n
  | XFloat b => negb (float_to_bool (f32 b))
  | XDouble b => negb (float_to_bool (f64 b))
  | _ => false
  end.

Definition div_same_type (this other : ObExprObj) : option (Z * ObExprObj) :=
  ob_assert (type_eqb (get_type this) (get_type other) && is_numeric (get_type this)) ;;
  match this, other with
  | XFloat x, XFloat y => Some (OB_SUCCESS, XFloat (float_div x y))
  | XDouble x, XDouble y => Some (OB_SUCCESS, XDouble (double_div x y))
  | XDecimal x, XDecimal y => '(ret, r) ← ObNumberDiv.div x y ObNumber_new ; Some (ret, XDecimal r)
  | _, _ => Some (OB_ERR_UNEXPECTED, this)
  end.

(** [negate] *)
Definition expr_negate (this : ObExprObj) : option (Z * ObExprObj) :=
  match this with
  | XInt v => Some (OB_SUCCESS, XInt (int64 (- v)))
  | XFloat b => Some (OB_SUCCESS, XFloat (Z.lxor b (2 ^ 31)))
  | XDouble b => Some (OB_SUCCESS, XDouble (Z.lxor b (2 ^ 63)))
  | XDecimal n => '(ret, r) ← negate_checked n ObNumber_new ; Some (ret, XDecimal r)
  | _ => Some (OB_INVALID_ARGUMENT, XNull)
  end.

Definition varchar_length (this : ObExprObj) : Z * ObExprObj :=
  match this with
  | XVarchar s => (OB_SUCCESS, XInt (Z.of_nat (length s)))
  | _ => (OB_INVALID_ARGUMENT, XNull)
  end.

(** An object of a type as its constructor leaves the value. *)
Definition valueless (t : ObObjType) : ObExprObj :=
  match t with
  | ObNullType => XNull | ObIntType => XInt 0 | ObFloatType => XFloat 0 | ObDoubleType => XDouble 0
  | ObDateTimeType => XDateTime 0 | ObPreciseDateTimeType => XPreciseDateTime 0 | ObVarcharType => XVarchar []
  | ObSeqType => XSeq | ObCreateTimeType => XCreateTime 0 | ObModifyTimeType => XModifyTime 0
  | ObExtendType => XExtend 0 | ObBoolType => XBool false | ObDecimalType => XDecimal ObNumber_new
  end.

Section Arith.
Context (scan_float scan_double : list Z -> option Z) (localtime : Z -> tm) (mktime : tm -> Z).

(** The conversion into a new object. *)
Definition cast_new (from to : ObObjType) (e : ObExprObj) : option (Z * ObExprObj) :=
  OB_OBJ_CAST scan_float scan_double localtime mktime from to e XNull.

(** The code and the result; [int_div_as_double] is not used. *)
Definition expr_div (this other : ObExprObj) : option (Z * ObExprObj) :=
  if expr_is_zero other then Some (OB_DIVISION_BY_ZERO, XNull)
  else
    '(ret, (p_this, p_other)) ← type_promotion cast_new DIV_TYPE_PROMOTION this other ;
    if negb (ret =? OB_SUCCESS) then Some (if ret =? OB_RESULT_UNKNOWN then OB_SUCCESS else ret, XNull)
    else div_same_type p_this p_other.

Definition to_int_operand (e : ObExprObj) : option (Z * ObExprObj) :=
  if type_eqb (get_type e) ObIntType then Some (OB_SUCCESS, e) else cast_new (get_type e) ObIntType e.

Definition mod_type_promotion (this other : ObExprObj) : option (Z * (ObExprObj * ObExprObj)) :=
  if type_eqb (get_type this) ObNullType || type_eqb (get_type other) ObNullType
  then Some (OB_RESULT_UNKNOWN, (this, other))
  else
    '(ret, p_this) ← to_int_operand this ;
    if negb (ret =? OB_SUCCESS) then Some (ret, (this, other))
    else
      '(ret, p_other) ← to_int_operand other ;
      if negb (ret =? OB_SUCCESS) then Some (ret, (p_this, other)) else Some (OB_SUCCESS, (p_this, p_other)).

(** The processor traps the one quotient that has no int64_t. *)
Definition expr_mod (this other : ObExprObj) : option (Z * ObExprObj) :=
  '(ret, (p_this, p_other)) ← mod_type_promotion this other ;
  if negb (ret =? OB_SUCCESS) then Some (if ret =? OB_RESULT_UNKNOWN then OB_SUCCESS else ret, XNull)
  else match p_this, p_other with
  | XInt a, XInt b =>
      if b =? 0 then Some (OB_DIVISION_BY_ZERO, XNull)
      else if (a =? - 2 ^ 63) && (b =? -1) then None
      else Some (OB_SUCCESS, XInt (Z.rem a b))
  | _, _ => None
  end.

(** ** The types of results *)

Definition type_of_promotion (map : list (list (option ObObjType))) (t1 t2 : ObObjType) : option ObObjType :=
  '(err, (p_this, _)) ← type_promotion cast_new map (valueless t1) (valueless t2) ;
  Some (if err =? OB_SUCCESS then get_type p_this else ObNullType).

Definition type_arithmetic := type_of_promotion ARITHMETIC_TYPE_PROMOTION.
Definition type_add := type_arithmetic.
Definition type_sub := type_arithmetic.
Definition type_mul := type_arithmetic.
Definition type_div := type_of_promotion DIV_TYPE_PROMOTION.
Definition type_mod (t1 t2 : ObObjType) : option ObObjType :=
  '(err, _) ← mod_type_promotion (valueless t1) (valueless t2) ;
  Some (if err =? OB_SUCCESS then ObIntType else ObNullType).
Definition type_negate (t1 : ObObjType) : ObObjType :=
  match t1 with ObIntType | ObFloatType | ObDoubleType | ObDecimalType => t1 | _ => ObNullType end.
Definition type_varchar_length (t1 : ObObjType) : ObObjType :=
  if type_eqb t1 ObVarcharType then ObIntType else ObNullType.

(** ** Lemmas *)

(** What the tables say is what the functions tell. *)
Lemma static_promotion t1 t2 :
  type_arithmetic t1 t2 = Some (default ObNullType (promoted_type ARITHMETIC_TYPE_PROMOTION t1 t2)) /\
  type_div t1 t2 = Some (default ObNullType (promoted_type DIV_TYPE_PROMOTION t1 t2)).
Proof. split; destruct t1, t2; vm_compute; reflexivity. Qed.

Lemma promoted_operand res_type e p :
  (if type_eqb (get_type e) res_type then Some (OB_SUCCESS, e) else cast_new (get_type e) res_type e)
    = Some (OB_SUCCESS, p) ->
  get_type e <> ObNullType -> get_type p = res_type \/ p = XNull.
Proof.
  intros E Hn. unfold type_eqb in E. case_bool_decide as Ht; [simplify_eq; by left |].
  apply cast_result_type in E; [| done | done]. destruct E as [E | (_ & _ & E)]; [by left | by right].
Qed.

Lemma promotion_type map this other p q :
  type_promotion cast_new map this other = Some (OB_SUCCESS, (p, q)) ->
  (forall t, promoted_type map ObNullType t = Some ObNullType) ->
  exists t, promoted_type map (get_type this) (get_type other) = Some t /\ (get_type p = t \/ p = XNull).
Proof.
  unfold type_promotion. intros E Hn. destruct (promoted_type map _ _) as [t |] eqn:P; [| done].
  exists t. split; [done |].
  assert (Ht : t <> ObNullType -> get_type this <> ObNullType) by (intros Ht E0; rewrite E0, Hn in P; by simplify_eq).
  destruct t; [done | ..]; specialize (Ht ltac:(done));
    (apply bind_Some in E as ([r1 p1] & E1 & E); destruct (Z.eqb_spec r1 OB_SUCCESS) as [-> | Hr]; cbn in E;
       [| by simplify_eq];
     apply bind_Some in E as ([r2 p2] & _ & E); destruct (Z.eqb_spec r2 OB_SUCCESS); cbn in E; simplify_eq;
     by eapply promoted_operand).
Qed.

(** A null operand is the only reason for an unknown result. *)
Lemma promotion_unknown map this other pq :
  type_promotion cast_new map this other = Some (OB_RESULT_UNKNOWN, pq) ->
  promoted_type map (get_type this) (get_type other) = Some ObNullType.
Proof.
  unfold type_promotion. intros E. destruct (promoted_type map _ _) as [t |] eqn:P; [| done].
  assert (Hc : forall e (p : ObExprObj),
    (if type_eqb (get_type e) t then Some (OB_SUCCESS, e) else cast_new (get_type e) t e) <> Some (OB_RESULT_UNKNOWN, p)).
  { intros e p. destruct (type_eqb (get_type e) t); [done |]. intros E0. by apply (cast_code _ _ _ _ _ _ _ _ _ _ E0). }
  destruct t; [done | ..];
    (apply bind_Some in E as ([r1 p1] & E1 & E); destruct (Z.eqb_spec r1 OB_SUCCESS) as [-> | Hr]; cbn in E;
       [| simplify_eq; exact (False_ind _ (Hc _ _ E1))];
     apply bind_Some in E as ([r2 p2] & E2 & E); destruct (Z.eqb_spec r2 OB_SUCCESS); cbn in E; simplify_eq;
     exact (False_ind _ (Hc _ _ E2))).
Qed.

(** An operation that promotes, and keeps the type of its operands, gives the type the
    table says. *)
Definition keeps_type (same_type : ObExprObj -> ObExprObj -> option (Z * ObExprObj)) : Prop :=
  forall p q r, same_type p q = Some (OB_SUCCESS, r) -> get_type r = get_type p /\ p <> XNull.

Lemma promoted_result_type map same_type this other r :
  keeps_type same_type -> (forall t, promoted_type map ObNullType t = Some ObNullType) ->
  ('(ret, (p_this, p_other)) ← type_promotion cast_new map this other ;
   if negb (ret =? OB_SUCCESS) then Some (if ret =? OB_RESULT_UNKNOWN then OB_SUCCESS else ret, XNull)
   else same_type p_this p_other) = Some (OB_SUCCESS, r) ->
  promoted_type map (get_type this) (get_type other) = Some (get_type r).
Proof.
  intros Hs Hn E. apply bind_Some in E as ([ret [p q]] & E1 & E).
  destruct (Z.eqb_spec ret OB_SUCCESS) as [-> | Hr]; cbn in E.
  - apply promotion_type in E1 as (t & P & Ht); [| done]. apply Hs in E as [-> Hp]. destruct Ht as [-> |]; done.
  - destruct (Z.eqb_spec ret OB_RESULT_UNKNOWN) as [-> |]; simplify_eq. by apply promotion_unknown in E1.
Qed.

Lemma arith_keeps_type (int_op float_op double_op : Z -> Z -> Z) num_op :
  keeps_type (arith_same_type int_op float_op double_op num_op).
Proof.
  intros p q r E. unfold arith_same_type in E. apply bind_Some in E as (_ & _ & E).
  destruct p, q; simplify_eq; try done. apply bind_Some in E as ([r1 n1] & _ & E). by simplify_eq.
Qed.

Lemma div_keeps_type : keeps_type div_same_type.
Proof.
  intros p q r E. unfold div_same_type in E. apply bind_Some in E as (_ & _ & E).
  destruct p, q; simplify_eq; try done. apply bind_Some in E as ([r1 n1] & _ & E). by simplify_eq.
Qed.

Definition int_castable (t : ObObjType) : bool :=
  match t with ObNullType | ObSeqType | ObExtendType => false | _ => true end.

Lemma to_int_operand_code e ret p : to_int_operand e = Some (ret, p) -> e <> XNull ->
  ret <> OB_RESULT_UNKNOWN /\ (ret = OB_SUCCESS -> int_castable (get_type e) = true).
Proof.
  unfold to_int_operand. intros E Hn. split.
  - destruct (type_eqb (get_type e) ObIntType); [by simplify_eq | by apply (cast_code _ _ _ _ _ _ _ _ _ _ E)].
  - intros ->. destruct e; done.
Qed.

Lemma type_mod_spec t1 t2 : type_mod t1 t2 =
  Some (if int_castable t1 && int_castable t2 then ObIntType else ObNullType).
Proof. destruct t1, t2; by vm_compute. Qed.

Lemma mod_promotion_static this other ret pq : mod_type_promotion this other = Some (ret, pq) ->
  (ret = OB_SUCCESS -> type_mod (get_type this) (get_type other) = Some ObIntType) /\
  (ret = OB_RESULT_UNKNOWN -> type_mod (get_type this) (get_type other) = Some ObNullType).
Proof.
  rewrite type_mod_spec. unfold mod_type_promotion. destruct (decide (this = XNull)) as [-> | H1]; [by intros [= <- <-] |].
  destruct (decide (other = XNull)) as [-> | H2].
  { rewrite orb_true_r. intros [= <- <-]. by rewrite andb_false_r. }
  replace (_ || _) with false by (by destruct this, other). intros ([r1 p1] & E1 & E)%bind_Some.
  destruct (to_int_operand_code _ _ _ E1 H1) as [U1 S1].
  destruct (Z.eqb_spec r1 OB_SUCCESS) as [-> | Hr]; cbn in E; [| simplify_eq; by split].
  apply bind_Some in E as ([r2 p2] & E2 & E). destruct (to_int_operand_code _ _ _ E2 H2) as [U2 S2].
  destruct (Z.eqb_spec r2 OB_SUCCESS) as [-> | Hr]; cbn in E; simplify_eq; split; try done.
  intros _. by rewrite S1, S2.
Qed.

Lemma expr_mod_type this other r : expr_mod this other = Some (OB_SUCCESS, r) ->
  type_mod (get_type this) (get_type other) = Some (get_type r).
Proof.
  unfold expr_mod. intros ([ret [p q]] & E1 & E)%bind_Some. apply mod_promotion_static in E1 as [S1 U1].
  destruct (Z.eqb_spec ret OB_SUCCESS) as [-> | Hr]; cbn in E.
  - rewrite S1 by done. destruct p; try done. destruct q; try done.
    repeat case_match; by simplify_eq.
  - destruct (Z.eqb_spec ret OB_RESULT_UNKNOWN) as [-> |]; simplify_eq. by rewrite U1.
Qed.

Lemma expr_negate_type this r : expr_negate this = Some (OB_SUCCESS, r) -> type_negate (get_type this) = get_type r.
Proof.
  destruct this; intros E; try (by injection E as <-); try done. apply bind_Some in E as ([r1 n1] & _ & E). by simplify_eq.
Qed.

(** C11: the types told before evaluation are those of the results.  Whenever an operation
    succeeds, on operands of any types and with every conversion, the type of its result
    (null for a null operand included) is what [type_add] ... [type_varchar_length] tell
    from the types of the operands alone; and they do tell one for all types. *)
Theorem static_types_sound (this other r : ObExprObj) :
  (expr_add cast_new this other = Some (OB_SUCCESS, r) -> type_add (get_type this) (get_type other) = Some (get_type r)) /\
  (expr_sub cast_new this other = Some (OB_SUCCESS, r) -> type_sub (get_type this) (get_type other) = Some (get_type r)) /\
  (expr_mul cast_new this other = Some (OB_SUCCESS, r) -> type_mul (get_type this) (get_type other) = Some (get_type r)) /\
  (expr_div this other = Some (OB_SUCCESS, r) -> type_div (get_type this) (get_type other) = Some (get_type r)) /\
  (expr_mod this other = Some (OB_SUCCESS, r) -> type_mod (get_type this) (get_type other) = Some (get_type r)) /\
  (expr_negate this = Some (OB_SUCCESS, r) -> type_negate (get_type this) = get_type r) /\
  (varchar_length this = (OB_SUCCESS, r) -> type_varchar_length (get_type this) = get_type r) /\
  forall t1 t2, type_arithmetic t1 t2 <> None /\ type_div t1 t2 <> None /\ type_mod t1 t2 <> None.
Proof.
  assert (Har : forall i f d n, arith cast_new (arith_same_type i f d n) this other = Some (OB_SUCCESS, r) ->
    type_arithmetic (get_type this) (get_type other) = Some (get_type r)).
  { intros i f d n E. rewrite (proj1 (static_promotion _ _)).
    by erewrite promoted_result_type; [| apply (arith_keeps_type i f d n) | by intros [] | exact E]. }
  conjs; [exact (Har _ _ _ _) .. | | | | |].
  - unfold expr_div. destruct (expr_is_zero other); [done |]. intros E. rewrite (proj2 (static_promotion _ _)).
    by erewrite promoted_result_type; [| apply div_keeps_type | by intros [] | exact E].
  - apply expr_mod_type.
  - apply expr_negate_type.
  - destruct this; intros [= <-]; done.
  - intros t1 t2. destruct (static_promotion t1 t2) as [-> ->]. split_and!; [done | done |]. destruct t1, t2; done.
Qed.
End Arith.

(** 1 + '2' is an integer. *)
Lemma static_types_sound_witness :
  let A := expr_add (cast_new no_float no_float january_localtime january_mktime) in
  A (XInt 1) (XVarchar [50]) = Some (OB_SUCCESS, XInt 3) /\
  type_add no_float no_float january_localtime january_mktime ObIntType ObVarcharType = Some ObIntType.
Proof.
  assert (E : expr_add (cast_new no_float no_float january_localtime january_mktime) (XInt 1) (XVarchar [50])
              = Some (OB_SUCCESS, XInt 3)) by (by vm_compute).
  split; [exact E |].
  exact (proj1 (static_types_sound no_float no_float january_localtime january_mktime (XInt 1) (XVarchar [50]) (XInt 3)) E).
Defined.

(** division and modulo.  The table of division is symmetric; the remainder of integers
    keeps the sign of the dividend, is smaller than the divisor and belongs to the truncated
    quotient; a zero number as divisor is an error with a null result.  What is caught
    is zero numbers only: dividing by false or by the text '0' succeeds with an infinite
    double, and the remainder of the smallest integer by -1 traps. *)
Theorem division_and_modulo (scan_float scan_double : list Z -> option Z) (localtime : Z -> tm) (mktime : tm -> Z)
    (t1 t2 : ObObjType) (a b : Z) (e : ObExprObj) :
  let cast := cast_new scan_float scan_double localtime mktime in
  let div := expr_div scan_float scan_double localtime mktime in
  let modulo := expr_mod scan_float scan_double localtime mktime in
  promoted_type DIV_TYPE_PROMOTION t1 t2 = promoted_type DIV_TYPE_PROMOTION t2 t1 /\
  (b <> 0 -> (a = - 2 ^ 63 -> b <> -1) -> exists r,
     modulo (XInt a) (XInt b) = Some (OB_SUCCESS, XInt r) /\
     a = b * Z.quot a b + r /\ Z.abs r < Z.abs b /\ 0 <= a * r) /\
  modulo (XInt a) (XInt 0) = Some (OB_DIVISION_BY_ZERO, XNull) /\
  div e (XInt 0) = Some (OB_DIVISION_BY_ZERO, XNull) /\ div e (XDouble 0) = Some (OB_DIVISION_BY_ZERO, XNull) /\
  div e (XDecimal (mkNumber 2 [0])) = Some (OB_DIVISION_BY_ZERO, XNull) /\
  div (XInt 1) (XBool false) = Some (OB_SUCCESS, XDouble 0x7ff0000000000000) /\
  (scan_double [48] = Some 0 -> div (XInt 1) (XVarchar [48]) = Some (OB_SUCCESS, XDouble 0x7ff0000000000000)) /\
  modulo (XInt (- 2 ^ 63)) (XInt (-1)) = None.
Proof.
  cbv zeta. conjs; [| | done | done | done | done | by vm_compute | | by vm_compute].
  - destruct t1, t2; by vm_compute.
  - intros Hb Hm. exists (Z.rem a b). split; [| split; [by apply Z.quot_rem' | split; [by apply Z.rem_bound_abs | rewrite Z.mul_comm; by apply Z.rem_sign_mul]]].
    unfold expr_mod. change (mod_type_promotion _ _ _ _ (XInt a) (XInt b)) with (Some (OB_SUCCESS, (XInt a, XInt b))).
    rewrite bind_some. cbv beta iota. rewrite Z.eqb_refl, (proj2 (Z.eqb_neq _ _) Hb). cbn [negb].
    destruct (Z.eqb_spec a (- 2 ^ 63)) as [Ea |]; [| done]. by rewrite (proj2 (Z.eqb_neq _ _) (Hm Ea)).
  - intros E.
    assert (C : cast_new scan_float scan_double localtime mktime ObVarcharType ObDoubleType (XVarchar [48]) = Some (OB_SUCCESS, XDouble 0))
      by (unfold cast_new; cbn; by rewrite E).
    unfold expr_div. cbn [expr_is_zero]. cbv iota. unfold type_promotion. cbn [get_type].
    change (promoted_type _ _ _) with (Some ObDoubleType). cbv iota. rewrite C. by vm_compute.
Qed.
