(* ===== verification/ExprFunc.v ===== *)
(** * ExprFunc: string functions of expression values, common/ob_expr_obj.cpp

    [cast_to], [substr], [upper_case] and [lower_case], [concat], [trim], [like], [hex]
    and [unhex], and the conversions of addresses.  The memory for results is an
    [ObStringBuf] (common/ob_string_buf.ipp): its pages are a parameter, a state [Mem]
    with [alloc], which may fail; [write_string] is its copy of a string.

    [None] is an aborted assertion, or a string that claims bytes outside its own. *)

From S2P Require Import Prelude ObNumber ObObject ObExprObj Format ObObjCast StringSearch Like.
Local Open Scope Z_scope.

Definition OB_MAX_VARCHAR_LENGTH : Z := 64 * 1024.
Definition OB_MAX_VALID_COLUMN_ID : Z := 10240.

Definition upper (c : Z) : Z := if (97 <=? c) && (c <=? 122) then c - 32 else c.

(** The type with a number; the numbers between ObMinType and ObMaxType have one. *)
Definition type_of (code : Z) : option ObObjType :=
  find (fun t => type_code t =? code)
    [ObNullType; ObIntType; ObFloatType; ObDoubleType; ObDateTimeType; ObPreciseDateTimeType; ObVarcharType;
     ObSeqType; ObCreateTimeType; ObModifyTimeType; ObExtendType; ObBoolType; ObDecimalType].

(** [set_decimal] and [set_varchar] on C strings: with precision 38 and
    scale 4; after an error the object is as it was. *)
Definition set_decimal_str (this : ObExprObj) (dec_str : list Z) : option (Z * ObExprObj) :=
  '(ret, num) ← from_string (c_string dec_str) ;
  if negb (ret =? OB_SUCCESS) then Some (ret, this)
  else
    '(ret, obj) ← set_decimal ObObj_new num 38 4 false ;
    if negb (ret =? OB_SUCCESS) then Some (ret, this) else e ← expr_assign obj ; Some (OB_SUCCESS, e).
Definition set_varchar_str (value : list Z) : ObExprObj := XVarchar (c_string value).

Section Func.
Context (scan_float scan_double : list Z -> option Z) (localtime : Z -> tm) (mktime : tm -> Z).
Context {Mem : Type} (alloc : Mem -> Z -> option Mem).
(** [inet_aton], the address in the byte order of the network *)
Context (inet_aton : list Z -> option Z).
(** Bytes around a string that searches may look at. *)
Context (outside : Z -> Z).

#[local] Abbreviation cast := (OB_OBJ_CAST scan_float scan_double localtime mktime).

(** [ObStringBuf::write_string] *)
Definition write_string (m : Mem) (s : list Z) : Mem * Z * list Z :=
  match s with
  | [] => (m, OB_SUCCESS, [])
  | _ =>
      match alloc m (Z.of_nat (length s)) with
      | Some m => (m, OB_SUCCESS, s)
      | None => (m, OB_ALLOCATE_MEMORY_FAILED, [])
      end
  end.

(** The code and the integer. *)
Definition cast_to_int (this : ObExprObj) : option (Z * Z) :=
  match this with
  | XNull => Some (OB_INVALID_ARGUMENT, 0)
  | _ =>
      '(ret, casted) ← cast (get_type this) ObIntType this XNull ;
      Some (ret, if ret =? OB_SUCCESS then match casted with XInt v => v | _ => 0 end else 0)
  end.

Definition cast_to_varchar (m : Mem) (this : ObExprObj) : option (Mem * Z * list Z) :=
  match this with
  | XNull => Some (m, OB_INVALID_ARGUMENT, [])
  | XVarchar s => Some (write_string m s)
  | _ =>
      '(ret, casted) ← cast (get_type this) ObVarcharType this (XVarchar (replicate 128 0)) ;
      Some (if negb (ret =? OB_SUCCESS) then (m, ret, []) else write_string m (out_buffer casted))
  end.

(** [result] is the object before the call. *)
Definition cast_to (m : Mem) (this : ObExprObj) (dest_type : Z) (result : ObExprObj) : option (Mem * Z * ObExprObj) :=
  if dest_type =? type_code ObVarcharType then
    '(m, ret, varchar) ← cast_to_varchar m this ;
    Some (m, OB_SUCCESS, if negb (ret =? OB_SUCCESS) then XNull else XVarchar varchar)
  else match type_of dest_type with
  | Some t =>
      '(ret, r) ← cast (get_type this) t this result ;
      Some (m, OB_SUCCESS, if negb (ret =? OB_SUCCESS) then XNull else r)
  | None => Some (m, OB_INVALID_ARGUMENT, result)
  end.

(** [substr(int32_t, int32_t, ...)]: all its arithmetic is on 32 bits. *)
Definition substr_at (m : Mem) (this : ObExprObj) (start_pos expect_length : Z) : option (Mem * Z * ObExprObj) :=
  match this with
  | XNull => Some (m, OB_SUCCESS, XNull)
  | _ =>
      '(m, ret, varchar) ← cast_to_varchar m this ;
      if negb (ret =? OB_SUCCESS) then Some (m, OB_SUCCESS, XNull)
      else
        let len := Z.of_nat (length varchar) in
        if (len <=? 0) || (expect_length <=? 0) then Some (m, OB_SUCCESS, XVarchar [])
        else
          let start := if 0 <? start_pos then start_pos else if start_pos =? 0 then 1 else int32 (start_pos + len + 1) in
          if (start <=? 0) || (len <? start) then Some (m, OB_SUCCESS, XVarchar [])
          else
            let res_len := if len <? int32 (start + expect_length - 1) then len - start + 1 else expect_length in
            ob_assert (start - 1 + res_len <=? len) ;;
            Some (m, OB_SUCCESS, XVarchar (take (Z.to_nat res_len) (drop (Z.to_nat (start - 1)) varchar)))
  end.

Definition substr (m : Mem) (this start_pos_obj expect_length_obj : ObExprObj) : option (Mem * Z * ObExprObj) :=
  match start_pos_obj, expect_length_obj with
  | XNull, _ | _, XNull => Some (m, OB_SUCCESS, XNull)
  | _, _ =>
      '(ret, start_pos) ← cast_to_int start_pos_obj ;
      if negb (ret =? OB_SUCCESS) then Some (m, OB_SUCCESS, XNull)
      else
        '(ret, expect_length) ← cast_to_int expect_length_obj ;
        if negb (ret =? OB_SUCCESS) then Some (m, OB_SUCCESS, XNull)
        else substr_at m this (int32 start_pos) (int32 expect_length)
  end.

(** Without a length: the largest column id. *)
Definition substr_from (m : Mem) (this start_pos : ObExprObj) : option (Mem * Z * ObExprObj) :=
  substr m this start_pos (XInt OB_MAX_VALID_COLUMN_ID).

Definition change_case (f : Z -> Z) (m : Mem) (this : ObExprObj) : option (Mem * Z * ObExprObj) :=
  match this with
  | XNull => Some (m, OB_SUCCESS, XNull)
  | _ =>
      '(m, ret, varchar) ← cast_to_varchar m this ;
      Some (m, OB_SUCCESS, if negb (ret =? OB_SUCCESS) then XNull else XVarchar (map f varchar))
  end.
Definition upper_case := change_case upper.
Definition lower_case := change_case lower.

Definition concat (m : Mem) (this other : ObExprObj) : option (Mem * Z * ObExprObj) :=
  match this, other with
  | XNull, _ | _, XNull => Some (m, OB_SUCCESS, XNull)
  | _, _ =>
      '(m, ret, this_varchar) ← cast_to_varchar m this ;
      if negb (ret =? OB_SUCCESS) then Some (m, OB_SUCCESS, XNull)
      else
        '(m, ret, that_varchar) ← cast_to_varchar m other ;
        if negb (ret =? OB_SUCCESS) then Some (m, OB_SUCCESS, XNull)
        else
          let s := this_varchar ++ that_varchar in
          let len := Z.of_nat (length s) in
          if OB_MAX_VARCHAR_LENGTH <? int32 len then Some (m, OB_BUF_NOT_ENOUGH, XNull)
          else
            ob_assert (len <=? OB_MAX_VARCHAR_LENGTH) ;;
            let '(m, ret, varchar) := write_string m s in
            Some (m, ret, if negb (ret =? OB_SUCCESS) then XNull else XVarchar varchar)
  end.

(** [0 == memcmp(src.ptr() + i, pattern.ptr(), pattern.length())] *)
Definition pattern_at (src pattern : list Z) (i : Z) : bool :=
  bool_decide (take (length pattern) (drop (Z.to_nat i) src) = pattern).

(** The loops of [ltrim] and [lrtrim], of [rtrim] and [lrtrim]: every turn is a copy of
    the pattern, and so there are at most as many as bytes. *)
Fixpoint ltrim_loop (fuel : nat) (src pattern : list Z) (i start : Z) : option Z :=
  let plen := Z.of_nat (length pattern) in
  if (i <=? Z.of_nat (length src) - plen) && pattern_at src pattern i then
    match fuel with O => None | S fuel' => ltrim_loop fuel' src pattern (i + plen) (start + plen) end
  else Some start.

Fixpoint rtrim_loop (fuel : nat) (src pattern : list Z) (low i end_ : Z) : option Z :=
  let plen := Z.of_nat (length pattern) in
  if (low <=? i) && pattern_at src pattern i then
    match fuel with O => None | S fuel' => rtrim_loop fuel' src pattern low (i - plen) (end_ - plen) end
  else Some end_.

Definition ltrim (src pattern : list Z) : option Z := ltrim_loop (length src) src pattern 0 0.
Definition rtrim_above (low : Z) (src pattern : list Z) : option Z :=
  let len := Z.of_nat (length src) in rtrim_loop (length src) src pattern low (len - Z.of_nat (length pattern)) len.
Definition rtrim := rtrim_above 0.
Definition lrtrim (src pattern : list Z) : option (Z * Z) :=
  start ← ltrim src pattern ; end_ ← rtrim_above start src pattern ; Some (start, end_).

(** The range of the source that is left; [None] for a type of trim there is not. *)
Definition trim_range (type : Z) (src pattern : list Z) : option (option (Z * Z)) :=
  if type =? 0 then r ← lrtrim src pattern ; Some (Some r)
  else if type =? 1 then start ← ltrim src pattern ; Some (Some (start, Z.of_nat (length src)))
  else if type =? 2 then end_ ← rtrim src pattern ; Some (Some (0, end_))
  else Some None.

(** [get_int] through an [ObObj]: the code and the integer *)
Definition expr_get_int (this : ObExprObj) : option (Z * Z) :=
  '(ret, obj) ← expr_to this ObObj_new ;
  Some (if negb (ret =? OB_SUCCESS) then (ret, 0)
        else match get_int obj with Some (v, _) => (OB_SUCCESS, v) | None => (OB_OBJ_TYPE_ERROR, 0) end).

Definition trim (m : Mem) (this trimType trimPattern : ObExprObj) : option (Mem * Z * ObExprObj) :=
  '(ret, type) ← expr_get_int trimType ;
  if negb (ret =? OB_SUCCESS) then Some (m, OB_SUCCESS, XNull)
  else
    '(m, ret, pattern) ← cast_to_varchar m trimPattern ;
    if negb (ret =? OB_SUCCESS) || (Z.of_nat (length pattern) <=? 0) then Some (m, OB_SUCCESS, XNull)
    else
      '(m, ret, src) ← cast_to_varchar m this ;
      if negb (ret =? OB_SUCCESS) then Some (m, OB_SUCCESS, XNull)
      else
        range ← trim_range type src pattern ;
        Some (m, OB_SUCCESS,
              match range with
              | Some (start, end_) => XVarchar (take (Z.to_nat (end_ - start)) (drop (Z.to_nat start) src))
              | None => XNull
              end).

(** [old_like], [like] and [not_like] *)
Definition old_like (this pattern : ObExprObj) : Z * ObExprObj :=
  match this, pattern with
  | XNull, _ | _, XNull => (OB_SUCCESS, XNull)
  | XVarchar s, XVarchar [] => (OB_SUCCESS, XBool true)
  | XVarchar s, XVarchar p => (OB_SUCCESS, XBool (0 <=? kr_search_print outside p (cal_print outside p) s))
  | _, _ => (OB_INVALID_ARGUMENT, XNull)
  end.

Definition like_op (positive : bool) (this pattern : ObExprObj) : option (Z * ObExprObj) :=
  match this, pattern with
  | XNull, _ | _, XNull => Some (OB_SUCCESS, XNull)
  | XVarchar [], XVarchar [] => Some (OB_SUCCESS, XBool positive)
  | XVarchar s, XVarchar p => b ← is_matched outside p s ; Some (OB_SUCCESS, XBool (Bool.eqb b positive))
  | _, _ => Some (OB_INVALID_ARGUMENT, XNull)
  end.
Definition expr_like := like_op true.
Definition expr_not_like := like_op false.

(** ** Hexadecimal text and addresses *)

Definition is_xdigit (c : Z) : bool :=
  is_dec c || ((97 <=? c) && (c <=? 102)) || ((65 <=? c) && (c <=? 70)).
Definition xdigit_value (c : Z) : Z :=
  if (97 <=? c) && (c <=? 102) then c - 97 + 10 else if (65 <=? c) && (c <=? 70) then c - 65 + 10 else c - 48.

(** [None] at the first pair that is not hexadecimal. *)
Fixpoint unhex_bytes (s : list Z) : option (list Z) :=
  match s with
  | c1 :: c2 :: s' =>
      if is_xdigit c1 && is_xdigit c2
      then bs ← unhex_bytes s' ; Some (u8 (xdigit_value c1 * 16 + xdigit_value c2) :: bs) else None
  | _ => Some []
  end.

Definition unhex (m : Mem) (this : ObExprObj) : Mem * Z * ObExprObj :=
  match this with
  | XVarchar s =>
      if Nat.odd (length s) then (m, OB_INVALID_ARGUMENT, XNull)
      else match alloc m (Z.of_nat (length s) / 2 + 1) with
      | None => (m, OB_ALLOCATE_MEMORY_FAILED, XNull)
      | Some m =>
          match unhex_bytes s with Some bs => (m, OB_SUCCESS, XVarchar bs) | None => (m, OB_ERR_UNEXPECTED, XNull) end
      end
  | _ => (m, OB_ERR_UNEXPECTED, XNull)
  end.

Definition hex (m : Mem) (this : ObExprObj) : Mem * Z * ObExprObj :=
  match this with
  | XVarchar s =>
      match alloc m (Z.of_nat (length s) * 2 + 1) with
      | None => (m, OB_ALLOCATE_MEMORY_FAILED, XNull)
      | Some m => (m, OB_SUCCESS, XVarchar (flat_map print_02hhx s))
      end
  | XInt v =>
      match alloc m 17 with
      | None => (m, OB_ALLOCATE_MEMORY_FAILED, XNull)
      | Some m => (m, OB_SUCCESS, XVarchar (print_lx v))
      end
  | _ => (m, OB_INVALID_ARGUMENT, XNull)
  end.

Definition ip_to_int (this : ObExprObj) : Z * ObExprObj :=
  match this with
  | XVarchar s =>
      if (15 <? length s)%nat then (OB_INVALID_ARGUMENT, XNull)
      else
        let cnt := length (filter (fun c => c =? 46) s) in
        if negb (cnt =? 3)%nat then (OB_SUCCESS, XNull)
        else (OB_SUCCESS, match inet_aton (c_string s) with Some addr => XInt addr | None => XNull end)
  | _ => (OB_ERR_UNEXPECTED, XNull)
  end.

Definition ip_byte (v k : Z) : list Z := print_ld (Z.land (Z.shiftr v k) 0xFF).

Definition int_to_ip (m : Mem) (this : ObExprObj) : Mem * Z * ObExprObj :=
  match this with
  | XInt v =>
      match alloc m 16 with
      | None => (m, OB_ALLOCATE_MEMORY_FAILED, XNull)
      | Some m => (m, OB_SUCCESS, XVarchar (ip_byte v 0 ++ 46 :: ip_byte v 8 ++ 46 :: ip_byte v 16 ++ 46 :: ip_byte v 24))
      end
  | _ => (m, OB_ERR_UNEXPECTED, XNull)
  end.

(** ** Trimming *)

Definition copies (k : nat) (p : list Z) : list Z := Nat.iter k (app p) [].

Lemma copies_length k p : length (copies k p) = (k * length p)%nat.
Proof. induction k as [| k IH]; [done |]. cbn. by rewrite length_app, <- IH. Qed.

Lemma copies_snoc k p : p ++ copies k p = copies k p ++ p.
Proof. induction k as [| k IH]; [by rewrite app_nil_r |]. cbn. rewrite <- app_assoc. by f_equal. Qed.

Lemma pattern_at_prefix l x p : pattern_at (l ++ x) p (Z.of_nat (length l)) = true <-> p `prefix_of` x.
Proof.
  unfold pattern_at. rewrite Nat2Z.id, drop_app_length, bool_decide_eq_true. split.
  - intros E. exists (drop (length p) x). rewrite <- E at 1. by rewrite take_drop.
  - intros [y ->]. by rewrite take_app_length.
Qed.

(** From a position on, the loop passes the copies of the pattern. *)
Lemma ltrim_loop_spec fuel l x p : p <> [] -> (length x <= fuel)%nat ->
  exists a r, x = copies a p ++ r /\ ~ p `prefix_of` r /\
    ltrim_loop fuel (l ++ x) p (Z.of_nat (length l)) (Z.of_nat (length l))
    = Some (Z.of_nat (length l + length (copies a p))).
Proof.
  intros Hp. pose proof (ne_length p Hp). revert l x. induction fuel as [| fuel IH]; intros l x Hf.
  all: destruct (decide (p `prefix_of` x)) as [Hx | Hx].
  1: { destruct Hx as [y ->]. rewrite length_app in Hf. lia. }
  2: { destruct Hx as [y ->]. rewrite length_app in Hf.
       destruct (IH (l ++ p) y) as (a & r & -> & Hr & E); [lia |]. exists (S a), r.
       split; [cbn; by rewrite app_assoc |]. split; [done |]. cbn [ltrim_loop].
       rewrite (proj2 (pattern_at_prefix l _ p)) by (by eexists).
       rewrite (proj2 (Z.leb_le _ _)) by (rewrite !length_app; lia). cbn [andb].
       rewrite length_app, Nat2Z.inj_add, <- app_assoc in E. rewrite E. f_equal. change (copies (S a) p) with (p ++ copies a p). rewrite length_app. lia. }
  all: exists 0%nat, x; split; [done |]; split; [done |]; cbn [ltrim_loop].
  all: rewrite (proj1 (not_true_iff_false _)) by (rewrite andb_true_iff; intros [_ H0%pattern_at_prefix]; done).
  all: by rewrite Nat.add_0_r.
Qed.

Lemma suffix_at l x y p : p `suffix_of` x <->
  (length p <= length x)%nat /\ pattern_at (l ++ x ++ y) p (Z.of_nat (length l + length x) - Z.of_nat (length p)) = true.
Proof.
  split.
  - intros [z ->]. split; [rewrite length_app; lia |].
    replace (_ - _) with (Z.of_nat (length (l ++ z))) by (rewrite !length_app; lia).
    rewrite <- app_assoc, (app_assoc l z). apply pattern_at_prefix. by eexists.
  - intros [L E]. exists (take (length x - length p) x).
    rewrite <- (take_drop (length x - length p) x) in E at 1.
    rewrite <- (app_assoc (take _ _)), (app_assoc l) in E.
    replace (_ - _) with (Z.of_nat (length (l ++ take (length x - length p) x))) in E
      by (rewrite length_app, length_take; lia).
    apply pattern_at_prefix in E as [z E].
    assert (E' : p = drop (length x - length p) x).
    { apply (f_equal (take (length p))) in E. rewrite take_app_length, take_app_le in E by (rewrite length_drop; lia).
      by rewrite take_ge in E by (rewrite length_drop; lia). }
    rewrite E' at 2. by rewrite take_drop.
Qed.

Lemma rtrim_loop_spec fuel l x y p : p <> [] -> (length x <= fuel)%nat ->
  exists b r, x = r ++ copies b p /\ ~ p `suffix_of` r /\
    rtrim_loop fuel (l ++ x ++ y) p (Z.of_nat (length l)) (Z.of_nat (length l + length x) - Z.of_nat (length p))
      (Z.of_nat (length l + length x)) = Some (Z.of_nat (length l + length r)).
Proof.
  intros Hp. pose proof (ne_length p Hp). revert x y. induction fuel as [| fuel IH]; intros x y Hf.
  all: destruct (decide (p `suffix_of` x)) as [Hx | Hx].
  1: { destruct Hx as [z ->]. rewrite length_app in Hf. lia. }
  2: { destruct (proj1 (suffix_at l x y p) Hx) as [L E]. destruct Hx as [z ->]. rewrite length_app in Hf, L.
       destruct (IH z (p ++ y)) as (b & r & -> & Hr & E2); [lia |]. exists (S b), r.
       split; [change (copies (S b) p) with (p ++ copies b p); by rewrite copies_snoc, app_assoc |]. split; [done |]. cbn [rtrim_loop]. rewrite E.
       rewrite (proj2 (Z.leb_le _ _)) by (rewrite !length_app; lia). cbn [andb].
       rewrite <- E2, <- (app_assoc _ p y). f_equal; rewrite length_app; lia. }
  all: exists 0%nat, x; split; [by rewrite app_nil_r |]; split; [done |]; cbn [rtrim_loop].
  all: rewrite (proj1 (not_true_iff_false _)); [done |].
  all: rewrite andb_true_iff, Z.leb_le; intros [H0 H1]; apply Hx, (suffix_at l x y); split; [lia | done].
Qed.

Lemma ltrim_spec src p : p <> [] -> exists a r,
  src = copies a p ++ r /\ ~ p `prefix_of` r /\ ltrim src p = Some (Z.of_nat (length (copies a p))).
Proof. intros Hp. exact (ltrim_loop_spec (length src) [] src p Hp ltac:(done)). Qed.

Lemma rtrim_above_spec l x p : p <> [] -> exists b r,
  x = r ++ copies b p /\ ~ p `suffix_of` r /\
  rtrim_above (Z.of_nat (length l)) (l ++ x) p = Some (Z.of_nat (length l + length r)).
Proof.
  intros Hp. destruct (rtrim_loop_spec (length (l ++ x)) l x [] p Hp) as (b & r & E1 & E2 & E3);
    [rewrite length_app; lia |].
  exists b, r. split; [done |]. split; [done |]. rewrite app_nil_r in E3. unfold rtrim_above.
  rewrite <- E3. by rewrite length_app.
Qed.

Lemma trim_text m m1 m2 src p type range : p <> [] ->
  write_string m p = (m1, OB_SUCCESS, p) -> write_string m1 src = (m2, OB_SUCCESS, src) ->
  trim_range type src p = Some range ->
  trim m (XVarchar src) (XInt type) (XVarchar p)
  = Some (m2, OB_SUCCESS,
          match range with
          | Some (start, end_) => XVarchar (take (Z.to_nat (end_ - start)) (drop (Z.to_nat start) src))
          | None => XNull
          end).
Proof.
  intros Hp E1 E2 E3. unfold trim. change (expr_get_int (XInt type)) with (Some (OB_SUCCESS, type)). rewrite bind_some. cbv beta iota.
  rewrite Z.eqb_refl. cbn [negb].
  cbn [cast_to_varchar]. rewrite E1, bind_some. cbv beta iota. pose proof (ne_length p Hp).
  rewrite (proj2 (Z.leb_gt _ _)) by lia. rewrite Z.eqb_refl. cbn [negb orb]. rewrite E2, bind_some. cbv beta iota.
  rewrite Z.eqb_refl. cbn [negb]. by rewrite E3.
Qed.

Lemma slice_middle (l r y : list Z) : take (Z.to_nat (Z.of_nat (length l + length r) - Z.of_nat (length l)))
  (drop (Z.to_nat (Z.of_nat (length l))) (l ++ r ++ y)) = r.
Proof.
  rewrite Nat2Z.id, drop_app_length. replace (Z.to_nat _) with (length r) by lia. apply take_app_length.
Qed.

(** C29: trimming.  With memory for the two strings and a pattern that is not empty, TRIM
    removes whole copies of the pattern, as many as there are: from both ends (type
    0), from the front (1) or from the back (2); what is left does not begin, or end,
    with the pattern.  Any other type gives null. *)
Theorem trim_removes_copies (m m1 m2 : Mem) (src p : list Z) (type : Z) (Hp : p <> [])
    (Hm1 : write_string m p = (m1, OB_SUCCESS, p)) (Hm2 : write_string m1 src = (m2, OB_SUCCESS, src)) :
  let trims t r := trim m (XVarchar src) (XInt t) (XVarchar p) = Some (m2, OB_SUCCESS, XVarchar r) in
  (exists a r b, trims 0 r /\ src = copies a p ++ r ++ copies b p /\ ~ p `prefix_of` r /\ ~ p `suffix_of` r) /\
  (exists a r, trims 1 r /\ src = copies a p ++ r /\ ~ p `prefix_of` r) /\
  (exists r b, trims 2 r /\ src = r ++ copies b p /\ ~ p `suffix_of` r) /\
  (type <> 0 -> type <> 1 -> type <> 2 ->
   trim m (XVarchar src) (XInt type) (XVarchar p) = Some (m2, OB_SUCCESS, XNull)).
Proof.
  cbv zeta. destruct (ltrim_spec src p Hp) as (a & x & Es & Hx & El). conjs.
  - destruct (rtrim_above_spec (copies a p) x p Hp) as (b & r & -> & Hr & E). exists a, r, b.
    rewrite (trim_text m m1 m2 src p 0 (Some (_, _)) Hp Hm1 Hm2) by (unfold trim_range, lrtrim; rewrite Z.eqb_refl, El, bind_some, Es, E; done).
    split; [by rewrite Es, slice_middle |]. split; [done |]. split; [| done]. intros [y ->]. apply Hx. eexists. by rewrite <- app_assoc.
  - exists a, x. split; [| done].
    rewrite (trim_text m m1 m2 src p 1 (Some (_, _)) Hp Hm1 Hm2) by (unfold trim_range; cbn [Z.eqb Pos.eqb]; rewrite El; done).
    do 3 f_equal. rewrite Es, length_app. rewrite <- (app_nil_r x) at 2. apply slice_middle.
  - destruct (rtrim_above_spec [] src p Hp) as (b & r & E0 & Hr & E). exists r, b. split; [| done].
    change (rtrim src p = Some (Z.of_nat (length r))) in E.
    rewrite (trim_text m m1 m2 src p 2 (Some (_, _)) Hp Hm1 Hm2) by (unfold trim_range; cbn [Z.eqb Pos.eqb]; rewrite E; done).
    do 3 f_equal. rewrite E0. exact (slice_middle [] r (copies b p)).
  - intros H0 H1 H2. rewrite (trim_text m m1 m2 src p type None Hp Hm1 Hm2); [done |].
    unfold trim_range. by rewrite !(proj2 (Z.eqb_neq _ _)).
Qed.

(** ** Hexadecimal text *)

Lemma xdigit_char d : 0 <= d < 16 -> is_xdigit (digit_char d) = true /\ xdigit_value (digit_char d) = d.
Proof.
  intros Hd. assert (H : forallb (fun d => is_xdigit (digit_char d) && (xdigit_value (digit_char d) =? d)) (seqZ 0 16) = true)
    by (by vm_compute).
  rewrite forallb_forall in H. specialize (H d). rewrite andb_true_iff, Z.eqb_eq in H.
  apply H, list_elem_of_In, elem_of_seqZ. lia.
Qed.

Lemma char_of_xdigit c : is_xdigit c = true ->
  0 <= xdigit_value c < 16 /\ digit_char (xdigit_value c) = lower c.
Proof.
  unfold is_xdigit, is_dec, xdigit_value, digit_char, lower.
  rewrite !orb_true_iff, !andb_true_iff, !Z.leb_le. intros Hc.
  repeat (match goal with
          | |- context [?a <=? ?b] => destruct (Z.leb_spec a b)
          | |- context [?a <? ?b] => destruct (Z.ltb_spec a b)
          end; cbn [andb]; try lia).
Qed.

Lemma unhex_hex s : Forall (fun c => 0 <= c < 256) s -> unhex_bytes (flat_map print_02hhx s) = Some s.
Proof.
  induction 1 as [| c s Hc Hs IH]; [done |]. cbn [flat_map print_02hhx app unhex_bytes].
  destruct (xdigit_char (c / 16)) as [X1 V1]; [split; [apply Z.div_pos; lia | apply Z.div_lt_upper_bound; lia] |].
  destruct (xdigit_char (c mod 16)) as [X2 V2]; [apply Z.mod_pos_bound; lia |].
  rewrite X1, X2, V1, V2, IH. cbn [andb mbind option_bind]. do 2 f_equal.
  pose proof (Z.div_mod c 16 ltac:(lia)). rewrite wrapu_small; lia.
Qed.

Lemma hex_unhex fuel s bs : (length s <= fuel)%nat -> Nat.odd (length s) = false -> unhex_bytes s = Some bs ->
  flat_map print_02hhx bs = map lower s.
Proof.
  revert s bs. induction fuel as [| fuel IH]; intros [| c1 [| c2 s]] bs L Ho E; cbn in L; try lia;
    try (by injection E as <-); try done.
  cbn [unhex_bytes] in E. destruct (is_xdigit c1) eqn:X1, (is_xdigit c2) eqn:X2; try done. cbn [andb] in E.
  apply bind_Some in E as (bs' & E1 & [= <-]).
  destruct (char_of_xdigit c1 X1) as [R1 C1], (char_of_xdigit c2 X2) as [R2 C2].
  cbn [flat_map print_02hhx app map]. rewrite (IH s bs') by (done || lia).
  rewrite wrapu_small by lia.
  rewrite Z.add_comm, Z.div_add, Z.mod_add, Z.div_small, Z.mod_small, Z.add_0_l by lia. by rewrite C1, C2.
Qed.

(** HEX and UNHEX.  With memory, UNHEX of the HEX of any bytes is those bytes, and HEX of
    the UNHEX of any text that it accepts is that text in lower case. *)
Theorem hex_roundtrip (m m1 m2 : Mem) (s : list Z) (Hs : Forall (fun c => 0 <= c < 256) s)
    (Hm1 : forall n, alloc m n = Some m1) (Hm2 : forall n, alloc m1 n = Some m2) :
  (exists t, hex m (XVarchar s) = (m1, OB_SUCCESS, XVarchar t) /\ length t = (2 * length s)%nat /\
     unhex m1 (XVarchar t) = (m2, OB_SUCCESS, XVarchar s)) /\
  (forall bs, unhex m (XVarchar s) = (m1, OB_SUCCESS, XVarchar bs) ->
     hex m1 (XVarchar bs) = (m2, OB_SUCCESS, XVarchar (map lower s))).
Proof.
  split.
  - exists (flat_map print_02hhx s). assert (L : length (flat_map print_02hhx s) = (2 * length s)%nat)
      by (clear; induction s as [| c s IH]; [done |]; cbn [flat_map print_02hhx app length]; lia).
    unfold hex, unhex. rewrite Hm1, Hm2, L, Nat.odd_mul. cbn [Nat.odd Nat.even negb andb]. by rewrite unhex_hex.
  - intros bs. unfold unhex, hex. destruct (Nat.odd (length s)) eqn:Ho; [done |]. rewrite Hm1, Hm2.
    destruct (unhex_bytes s) as [bs' |] eqn:E; [| done]. intros [= <-]. by rewrite (hex_unhex (length s) s bs').
Qed.

(** ** Substrings *)

(** The slice SUBSTR promises: from position [start], counted from the end when it is
    negative, zero being the first. *)
Definition substr_start (s : list Z) (start : Z) : Z :=
  if 0 <? start then start else if start =? 0 then 1 else start + Z.of_nat (length s) + 1.
Definition slice (s : list Z) (start len : Z) : list Z :=
  if substr_start s start <=? 0 then []
  else take (Z.to_nat len) (drop (Z.to_nat (substr_start s start - 1)) s).

Lemma substr_at_text m m1 s start len : write_string m s = (m1, OB_SUCCESS, s) ->
  - 2 ^ 31 <= start < 2 ^ 31 -> Z.of_nat (length s) < 2 ^ 31 -> - 2 ^ 31 <= len ->
  substr_start s start + len - 1 < 2 ^ 31 ->
  substr_at m (XVarchar s) start len = Some (m1, OB_SUCCESS, XVarchar (slice s start len)).
Proof.
  intros Hm Hs Hl Hn Ho. unfold substr_at, slice. cbn [cast_to_varchar]. rewrite Hm, bind_some. cbv beta iota.
  rewrite Z.eqb_refl. cbn [negb]. set (n := Z.of_nat (length s)) in *.
  assert (Hd : forall k, (Z.to_nat n <= k)%nat -> drop k s = []) by (intros; apply drop_ge; unfold n in *; lia).
  assert (Es : (if 0 <? start then start else if start =? 0 then 1 else int32 (start + n + 1)) = substr_start s start).
  { unfold substr_start. destruct (Z.ltb_spec 0 start); [done |]. destruct (Z.eqb_spec start 0); [done |]. apply wraps_small; simpl; lia. }
  rewrite Es. set (from := substr_start s start) in *.
  destruct (Z.leb_spec n 0) as [Hz | Hz]; cbn [orb].
  { destruct (from <=? 0); [done |]. rewrite (nil_length_inv s) by lia. by rewrite drop_nil, take_nil. }
  destruct (Z.leb_spec len 0); cbn [orb]; [replace (Z.to_nat len) with 0%nat by lia; by destruct (from <=? 0) |].
  destruct (Z.leb_spec from 0); cbn [orb]; [done |].
  destruct (Z.ltb_spec n from); [by rewrite Hd, take_nil by lia |].
  rewrite wraps_small by (simpl; lia). destruct (Z.ltb_spec n (from + len - 1)).
  - unfold ob_assert. rewrite (proj2 (Z.leb_le _ _)) by lia. cbn [mbind option_bind]. do 3 f_equal.
    rewrite !take_ge; [done | rewrite length_drop; lia ..].
  - unfold ob_assert. by rewrite (proj2 (Z.leb_le _ _)) by lia.
Qed.

Lemma substr_overflow m m1 s start len : write_string m s = (m1, OB_SUCCESS, s) ->
  - 2 ^ 31 <= start < 2 ^ 31 -> 0 < len < 2 ^ 31 -> Z.of_nat (length s) < 2 ^ 31 ->
  1 <= substr_start s start <= Z.of_nat (length s) -> 2 ^ 31 <= substr_start s start + len - 1 ->
  substr_at m (XVarchar s) start len = None.
Proof.
  intros Hm Hs Hl Hn Hf Ho. unfold substr_at. cbn [cast_to_varchar]. rewrite Hm, bind_some. cbv beta iota.
  rewrite Z.eqb_refl. cbn [negb]. set (n := Z.of_nat (length s)) in *.
  assert (Es : (if 0 <? start then start else if start =? 0 then 1 else int32 (start + n + 1)) = substr_start s start).
  { unfold substr_start. destruct (Z.ltb_spec 0 start); [done |]. destruct (Z.eqb_spec start 0); [done |]. apply wraps_small; simpl; lia. }
  rewrite Es. set (from := substr_start s start) in *.
  assert (Ew : int32 (from + len - 1) = from + len - 1 - 2 ^ 32).
  { unfold wraps. replace (from + len - 1 + 2 ^ (32 - 1)) with (from + len - 1 - 2 ^ 31 + 1 * 2 ^ 32) by lia.
    rewrite Z.mod_add, Z.mod_small by lia. lia. }
  rewrite Ew, (proj2 (Z.leb_gt n 0)), (proj2 (Z.leb_gt len 0)), (proj2 (Z.leb_gt from 0)),
    (proj2 (Z.ltb_ge n from)) by lia. cbn [orb].
  rewrite (proj2 (Z.ltb_ge n _)) by lia. unfold ob_assert. by rewrite (proj2 (Z.leb_gt _ _)) by lia.
Qed.

Lemma substr_ints m s start len :
  substr m (XVarchar s) (XInt start) (XInt len) = substr_at m (XVarchar s) (int32 start) (int32 len).
Proof. done. Qed.

(** C30: SUBSTR.  On text of less than 2^31 bytes, with memory for a copy, a start and a
    length of 32 bits: when the end of the slice has 32 bits too, the result is the slice,
    an empty one before the first byte and cut at the end of the text; when it has not,
    the sum overflows and a start inside the text with a positive length claims bytes
    outside the text.  Of a length only 32 bits count; and without a length the result
    has at most 10240 bytes. *)
Theorem substr_slices (m m1 : Mem) (s : list Z) (start len : Z) (Hm : write_string m s = (m1, OB_SUCCESS, s))
    (Hs : - 2 ^ 31 <= start < 2 ^ 31) (Hl : - 2 ^ 31 <= len < 2 ^ 31) (Hn : Z.of_nat (length s) < 2 ^ 31) :
  (substr_start s start + len - 1 < 2 ^ 31 ->
   substr m (XVarchar s) (XInt start) (XInt len) = Some (m1, OB_SUCCESS, XVarchar (slice s start len))) /\
  (2 ^ 31 <= substr_start s start + len - 1 -> 0 < len -> 1 <= substr_start s start <= Z.of_nat (length s) ->
   substr m (XVarchar s) (XInt start) (XInt len) = None) /\
  substr m (XVarchar s) (XInt start) (XInt (len + 2 ^ 32)) = substr m (XVarchar s) (XInt start) (XInt len) /\
  (substr_start s start + OB_MAX_VALID_COLUMN_ID - 1 < 2 ^ 31 ->
   substr_from m (XVarchar s) (XInt start) = Some (m1, OB_SUCCESS, XVarchar (slice s start OB_MAX_VALID_COLUMN_ID))).
Proof.
  rewrite !substr_ints. unfold substr_from. rewrite substr_ints.
  assert (Hi : int32 start = start /\ int32 len = len) by (split; apply wraps_small; simpl; lia). destruct Hi as [-> E].
  conjs.
  - intros Ho. rewrite E. by apply substr_at_text; try done; lia.
  - intros Ho Hlen Hf. rewrite E. apply (substr_overflow m m1); try done; lia.
  - f_equal. unfold wraps. replace (len + 2 ^ 32 + 2 ^ (32 - 1)) with (len + 2 ^ (32 - 1) + 1 * 2 ^ 32) by lia.
    by rewrite Z.mod_add.
  - intros Ho. change (int32 OB_MAX_VALID_COLUMN_ID) with OB_MAX_VALID_COLUMN_ID. apply substr_at_text; try done.
Qed.
End Func.

(** Memory of so many bytes, for the examples. *)
Definition bytes_left (m n : Z) : option Z := if n <=? m then Some (m - n) else None.

(** TRIM('ab' FROM 'ababxab') is 'x'. *)
Lemma trim_removes_copies_witness :
  exists a r b, trim no_float no_float january_localtime january_mktime bytes_left 100
                  (XVarchar [97; 98; 97; 98; 120; 97; 98]) (XInt 0) (XVarchar [97; 98]) = Some (91, OB_SUCCESS, XVarchar r) /\
    [97; 98; 97; 98; 120; 97; 98] = copies a [97; 98] ++ r ++ copies b [97; 98].
Proof.
  destruct (trim_removes_copies no_float no_float january_localtime january_mktime bytes_left 100 98 91
    [97; 98; 97; 98; 120; 97; 98] [97; 98] 0 ltac:(done) ltac:(by vm_compute) ltac:(by vm_compute))
    as ((a & r & b & H1 & H2 & _) & _).
  by exists a, r, b.
Defined.

(** Memory that never runs out *)
Definition always (m : unit) (n : Z) : option unit := Some tt.

Lemma hex_roundtrip_witness :
  exists t, hex always tt (XVarchar [0; 171; 255]) = (tt, OB_SUCCESS, XVarchar t) /\
    unhex always tt (XVarchar t) = (tt, OB_SUCCESS, XVarchar [0; 171; 255]).
Proof.
  destruct (hex_roundtrip always tt tt tt [0; 171; 255]) as ((t & H1 & _ & H2) & _);
    [repeat constructor; lia | done | done |].
  by exists t.
Defined.

(** SUBSTR('abcd', -3, 2) is 'bc'. *)

Lemma substr_slices_witness :
  substr no_float no_float january_localtime january_mktime always tt (XVarchar [97; 98; 99; 100]) (XInt (-3)) (XInt 2)
    = Some (tt, OB_SUCCESS, XVarchar [98; 99]) /\
  substr no_float no_float january_localtime january_mktime always tt (XVarchar [97; 98; 99; 100]) (XInt (-3)) (XInt (2 ^ 31 - 1))
    = None.
Proof.
  split.
  - exact (proj1 (substr_slices no_float no_float january_localtime january_mktime always tt tt
      [97; 98; 99; 100] (-3) 2 eq_refl ltac:(lia) ltac:(lia) ltac:(by vm_compute)) ltac:(by vm_compute)).
  - exact (proj1 (proj2 (substr_slices no_float no_float january_localtime january_mktime always tt tt
      [97; 98; 99; 100] (-3) (2 ^ 31 - 1) eq_refl ltac:(lia) ltac:(lia) ltac:(by vm_compute)))
      ltac:(by vm_compute) ltac:(lia) ltac:(by vm_compute)).
Defined.
