(* ===== verification/ObRowDesc.v ===== *)
(** * Row descriptions

    [src/oceanbase/src/common/ob_row_desc.h] and [ob_row_desc.cpp]: the array of
    (table id, column id) pairs of a row, and the open-addressing hash map from
    a pair to its index in the array.  The model keeps the probing and the bit
    set of the occupied buckets; the theorems show that the pair of structures
    is a list of distinct columns with its index function. *)

From S2P Require Import Prelude ObBitSet.
From stdpp Require Import gmap.
Local Open Scope Z_scope.

(** ** Data *)

Record Desc := mkDesc { table_id_ : Z; column_id_ : Z }.

#[export] Instance Desc_eq_dec : EqDecision Desc.
Proof. solve_decision. Defined.

Definition desc_eqb (d1 d2 : Desc) : bool :=
  (table_id_ d1 =? table_id_ d2) && (column_id_ d1 =? column_id_ d2).

(** [Desc::hash], on uint64_t. *)
Definition hash (d : Desc) : Z :=
  Z.lor (u64 (Z.shiftl (table_id_ d) 16)) (Z.land (u64 (column_id_ d * 29 + 7)) 0xFFFF).

(** [PlacementHashMap<Desc, int64_t, 1031>]: [keys_] and [values_] mean something
    only where [flags_] has the bucket. *)
Definition N : Z := 1031.

Record PlacementHashMap := mkMap {
  flags_ : ObBitSet;
  keys_ : list Desc;
  values_ : list Z
}.

Definition map_clear (m : PlacementHashMap) : PlacementHashMap :=
  mkMap (ObBitSet.clear N (flags_ m)) (keys_ m) (values_ m).

Abbreviation no_desc := (mkDesc 0 0).

Definition set_ (m : PlacementHashMap) (pos : Z) (key : Desc) (value : Z) : Z * PlacementHashMap :=
  if negb (has_member N (flags_ m) (int32 pos)) then
    (OB_SUCCESS, mkMap (add_member N (flags_ m) (int32 pos)).2
                       (zset (keys_ m) pos key) (zset (values_ m) pos value))
  else if desc_eqb (zget no_desc (keys_ m) pos) key then
    if zget 0 (values_ m) pos =? value then (OB_ENTRY_EXIST, m) else (OB_DUPLICATE_COLUMN, m)
  else (OB_ITEM_NOT_SETTED, m).

(** The probe loops: [k] is the number of iterations left, [N - i]. *)
Fixpoint insert_loop (k : nat) (m : PlacementHashMap) (pos : Z) (key : Desc) (value : Z)
    : Z * PlacementHashMap :=
  match k with
  | O => (OB_ERROR, m)
  | S k' =>
      let pos := if pos =? N then 0 else pos in
      let '(ret, m') := set_ m pos key value in
      if negb (ret =? OB_ITEM_NOT_SETTED) then (ret, m')
      else insert_loop k' m' (pos + 1) key value
  end.

Definition insert (m : PlacementHashMap) (key : Desc) (value : Z) : Z * PlacementHashMap :=
  insert_loop (Z.to_nat N) m (hash key mod N) key value.

Fixpoint search_loop (k : nat) (m : PlacementHashMap) (key : Desc) (pos : Z) : Z * Z :=
  match k with
  | O => (OB_ENTRY_NOT_EXIST, pos)
  | S k' =>
      let pos := if pos =? N then 0 else pos in
      if negb (has_member N (flags_ m) (int32 pos)) then (OB_ENTRY_NOT_EXIST, pos)
      else if desc_eqb (zget no_desc (keys_ m) pos) key then (OB_SUCCESS, pos)
      else search_loop k' m key (pos + 1)
  end.

Definition search_ (m : PlacementHashMap) (key : Desc) : Z * Z :=
  search_loop (Z.to_nat N) m key (hash key mod N).

(** [find] leaves [value] alone when the key is absent. *)
Definition find (m : PlacementHashMap) (key : Desc) (value : Z) : Z * Z :=
  let '(ret, pos) := search_ m key in
  if ret =? OB_SUCCESS then (ret, zget 0 (values_ m) pos) else (ret, value).

(** [ObRowDesc]; [cells_desc_] means something below [cells_desc_count_]. *)
Definition MAX_COLUMNS_COUNT : Z := 512.

Record ObRowDesc := mkRowDesc {
  cells_desc_ : list Desc;
  cells_desc_count_ : Z;
  hash_map_ : PlacementHashMap;
  rowkey_cell_count_ : Z
}.

(** The constructor leaves the arrays as the memory holds them. *)
Definition ObRowDesc_new (cells keys : list Desc) (values : list Z) : ObRowDesc :=
  mkRowDesc cells 0 (mkMap (ObBitSet_new N) keys values) 0.

Definition get_column_num (d : ObRowDesc) : Z := cells_desc_count_ d.

Definition hash_find (d : ObRowDesc) (table_id column_id index : Z) : Z * Z :=
  find (hash_map_ d) (mkDesc table_id column_id) index.

Definition hash_insert (d : ObRowDesc) (table_id column_id index : Z) : Z * ObRowDesc :=
  let '(ret, m) := insert (hash_map_ d) (mkDesc table_id column_id) index in
  (ret, mkRowDesc (cells_desc_ d) (cells_desc_count_ d) m (rowkey_cell_count_ d)).

Definition get_idx (d : ObRowDesc) (table_id column_id : Z) : Z :=
  if negb (0 =? table_id) && negb (0 =? column_id) then
    let '(err, index) := hash_find d table_id column_id 0 in
    if (err =? OB_SUCCESS) && (index <? cells_desc_count_ d) then index else OB_INVALID_INDEX
  else OB_INVALID_INDEX.

(** The out parameters are written on success only. *)
Definition get_tid_cid (d : ObRowDesc) (idx : Z) : Z * option (Z * Z) :=
  if (idx <? 0) || (cells_desc_count_ d <=? idx) then (OB_INVALID_ARGUMENT, None)
  else let c := zget no_desc (cells_desc_ d) idx in (OB_SUCCESS, Some (table_id_ c, column_id_ c)).

Definition add_column_desc (d : ObRowDesc) (table_id column_id : Z) : Z * ObRowDesc :=
  if MAX_COLUMNS_COUNT <=? cells_desc_count_ d then (OB_BUF_NOT_ENOUGH, d)
  else
    let cells := zset (cells_desc_ d) (cells_desc_count_ d) (mkDesc table_id column_id) in
    let d := mkRowDesc cells (cells_desc_count_ d) (hash_map_ d) (rowkey_cell_count_ d) in
    let '(ret, d) := hash_insert d table_id column_id (cells_desc_count_ d) in
    if negb (ret =? OB_SUCCESS) then (ret, d)
    else (ret, mkRowDesc (cells_desc_ d) (cells_desc_count_ d + 1) (hash_map_ d) (rowkey_cell_count_ d)).

Definition rowdesc_reset (d : ObRowDesc) : ObRowDesc :=
  mkRowDesc (cells_desc_ d) 0 (map_clear (hash_map_ d)) 0.

Definition set_rowkey_cell_count (d : ObRowDesc) (n : Z) : ObRowDesc :=
  mkRowDesc (cells_desc_ d) (cells_desc_count_ d) (hash_map_ d) n.

(** The copy loop of [operator=] and [assign]: add the columns of [other] from
    index [i] on until one fails.  [get_tid_cid] succeeds at every such index. *)
Fixpoint copy_columns (k : nat) (d other : ObRowDesc) (i ret : Z) : Z * ObRowDesc :=
  match k with
  | O => (ret, d)
  | S k' =>
      match get_tid_cid other i with
      | (_, Some (table_id, column_id)) =>
          let '(ret, d) := add_column_desc d table_id column_id in
          if negb (ret =? OB_SUCCESS) then (ret, d) else copy_columns k' d other (i + 1) ret
      | (ret, None) => (ret, d)
      end
  end.

(** [operator=] drops the error. *)
Definition rowdesc_copy (d r : ObRowDesc) : ObRowDesc :=
  let d := mkRowDesc (cells_desc_ d) 0 (map_clear (hash_map_ d)) (rowkey_cell_count_ r) in
  (copy_columns (Z.to_nat (cells_desc_count_ r)) d r 0 OB_SUCCESS).2.

Definition rowdesc_assign (d other : ObRowDesc) : Z * ObRowDesc :=
  let '(ret, d) :=
    copy_columns (Z.to_nat (cells_desc_count_ other)) (rowdesc_reset d) other 0 OB_SUCCESS in
  (ret, set_rowkey_cell_count d (rowkey_cell_count_ other)).

(** ** The probing invariant of the hash map *)

Section Map.
Implicit Types (m : PlacementHashMap) (k : Desc).

Definition occupied m (p : Z) : Prop := has_member N (flags_ m) p = true.
Definition key_at m (p : Z) : Desc := zget no_desc (keys_ m) p.
Definition value_at m (p : Z) : Z := zget 0 (values_ m) p.
Definition slot k (i : Z) : Z := (hash k + i) mod N.

(** Every stored key is reached by probing from its hash over occupied buckets
    that hold other keys. *)
Record map_wf m : Prop := {
  wf_flags : bitset_wf N (flags_ m);
  wf_keys : length (keys_ m) = Z.to_nat N;
  wf_values : length (values_ m) = Z.to_nat N;
  wf_probe : forall p, 0 <= p < N -> occupied m p ->
    exists i, 0 <= i < N /\ p = slot (key_at m p) i /\
      forall j, 0 <= j < i ->
        occupied m (slot (key_at m p) j) /\ key_at m (slot (key_at m p) j) <> key_at m p
}.

Definition holds m k (p : Z) : Prop := 0 <= p < N /\ occupied m p /\ key_at m p = k.

Lemma slot_range k i : 0 <= slot k i < N.
Proof. unfold slot. apply Z.mod_pos_bound. unfold N. lia. Qed.
Hint Resolve slot_range : ob.

Lemma slot_next k i : (if slot k i + 1 =? N then 0 else slot k i + 1) = slot k (i + 1).
Proof.
  unfold slot. assert (HN : 0 < N) by (unfold N; lia).
  pose proof (Z.mod_pos_bound (hash k + i) N HN) as Hr.
  replace (hash k + (i + 1)) with (hash k + i + 1) by lia.
  rewrite <- (Zplus_mod_idemp_l (hash k + i)).
  destruct (Z.eqb_spec ((hash k + i) mod N + 1) N) as [-> | Hne].
  - by rewrite Z.mod_same by lia.
  - rewrite (Z.mod_small ((hash k + i) mod N + 1)) by lia. done.
Qed.

Lemma slot_inj k i j : 0 <= i < N -> 0 <= j < N -> slot k i = slot k j -> i = j.
Proof.
  intros Hi Hj H. unfold slot in H.
  assert (Hz : (hash k + i - (hash k + j)) mod N = 0).
  { rewrite Zminus_mod, H, Z.sub_diag. done. }
  replace (hash k + i - (hash k + j)) with (i - j) in Hz by lia.
  apply Z.mod_divide in Hz as [q Hq]; [| unfold N; lia]. unfold N in *. nia.
Qed.

Lemma slot_surj k p : 0 <= p < N -> exists i, 0 <= i < N /\ slot k i = p.
Proof.
  intros Hp. exists ((p - hash k) mod N). assert (HN : 0 < N) by (unfold N; lia).
  split; [by apply Z.mod_pos_bound |]. unfold slot. rewrite Zplus_mod_idemp_r.
  replace (hash k + (p - hash k)) with p by lia. by apply Z.mod_small.
Qed.

Lemma int32_pos p : 0 <= p < N -> int32 p = p.
Proof. unfold N. intros. apply wraps_small; lia. Qed.

Lemma desc_eqb_spec d1 d2 : desc_eqb d1 d2 = true <-> d1 = d2.
Proof.
  unfold desc_eqb. rewrite andb_true_iff, !Z.eqb_eq. destruct d1, d2; simpl. split.
  - intros [-> ->]. done.
  - intros [= -> ->]. done.
Qed.

Lemma desc_eqb_neq d1 d2 : d1 <> d2 -> desc_eqb d1 d2 = false.
Proof. intros H. destruct (desc_eqb d1 d2) eqn:E; [| done]. by apply desc_eqb_spec in E. Qed.

(** A key is stored at most once. *)
Lemma holds_unique m k p q : map_wf m -> holds m k p -> holds m k q -> p = q.
Proof.
  intros Hwf (Hp & Hop & Hkp) (Hq & Hoq & Hkq).
  destruct (wf_probe m Hwf p Hp Hop) as (i & Hi & Ep & Hbi).
  destruct (wf_probe m Hwf q Hq Hoq) as (j & Hj & Eq & Hbj).
  rewrite Hkp in *. rewrite Hkq in *.
  destruct (Z.lt_trichotomy i j) as [Hlt | [-> | Hlt]].
  - destruct (Hbj i ltac:(lia)) as [_ Hne]. congruence.
  - congruence.
  - destruct (Hbi j ltac:(lia)) as [_ Hne]. congruence.
Qed.

(** The probe path of [k] up to its [i]th bucket passes only other keys. *)
Definition passes m k (i : Z) : Prop :=
  forall j, 0 <= j < i -> occupied m (slot k j) /\ key_at m (slot k j) <> k.

Lemma holds_path m k p :
  map_wf m -> holds m k p -> exists i, 0 <= i < N /\ p = slot k i /\ passes m k i.
Proof.
  intros Hwf (Hp & Ho & Hk). destruct (wf_probe m Hwf p Hp Ho) as (i & Hi & Ep & Hb).
  rewrite Hk in *. by exists i.
Qed.

Lemma has_member_slot m k i : has_member N (flags_ m) (int32 (slot k i)) = has_member N (flags_ m) (slot k i).
Proof. by rewrite int32_pos by apply slot_range. Qed.

Lemma occupied_dec m p : occupied m p \/ has_member N (flags_ m) p = false.
Proof. unfold occupied. destruct (has_member N (flags_ m) p); auto. Qed.

(** Where a probe stops: at the key, at a free bucket, or after [N] other keys. *)
Lemma probe_stops m k :
  (exists t, 0 <= t < N /\ passes m k t /\ holds m k (slot k t)) \/
  (exists t, 0 <= t < N /\ passes m k t /\ has_member N (flags_ m) (slot k t) = false) \/
  passes m k N.
Proof.
  assert (H : forall n : nat, Z.of_nat n <= N ->
    (exists t, 0 <= t < N /\ passes m k t /\ holds m k (slot k t)) \/
    (exists t, 0 <= t < N /\ passes m k t /\ has_member N (flags_ m) (slot k t) = false) \/
    passes m k (Z.of_nat n)).
  { induction n as [| n IH]; intros Hn; [right; right; intros j; lia |].
    destruct IH as [H | [H | H]]; [lia | by left | by right; left |].
    destruct (occupied_dec m (slot k (Z.of_nat n))) as [Ho | Ho].
    - destruct (decide (key_at m (slot k (Z.of_nat n)) = k)) as [Hk | Hk].
      + left. exists (Z.of_nat n). split; [lia |]. split; [done |].
        split; [apply slot_range | done].
      + right. right. intros j Hj. destruct (decide (j = Z.of_nat n)) as [-> | ?]; [done |].
        apply H. lia.
    - right. left. exists (Z.of_nat n). split; [lia | done]. }
  specialize (H (Z.to_nat N)). rewrite Z2Nat.id in H by (unfold N; lia). apply H. lia.
Qed.

(** The loops skip the buckets that [passes] describes. *)
Lemma search_loop_skip m k t pos n i :
  passes m k t -> 0 <= i <= t -> (if pos =? N then 0 else pos) = slot k i ->
  exists pos', search_loop (Z.to_nat (t - i) + n) m k pos = search_loop n m k pos' /\
    (if pos' =? N then 0 else pos') = slot k t.
Proof.
  intros Hpass [Hi0 Hi]. remember (Z.to_nat (t - i)) as d eqn:Hd.
  revert i pos Hi0 Hi Hd. induction d as [| d IH]; intros i pos Hi0 Hi Hd Hpos.
  - exists pos. split; [done |]. replace t with i by lia. done.
  - cbn [Nat.add search_loop]. rewrite Hpos, has_member_slot.
    destruct (Hpass i ltac:(lia)) as [Ho Hne]. unfold occupied in Ho. rewrite Ho. cbn [negb].
    rewrite desc_eqb_neq by done. apply (IH (i + 1)); [lia | lia | lia |]. apply slot_next.
Qed.

Lemma insert_loop_skip m k v t pos n i :
  passes m k t -> 0 <= i <= t -> (if pos =? N then 0 else pos) = slot k i ->
  exists pos', insert_loop (Z.to_nat (t - i) + n) m pos k v = insert_loop n m pos' k v /\
    (if pos' =? N then 0 else pos') = slot k t.
Proof.
  intros Hpass [Hi0 Hi]. remember (Z.to_nat (t - i)) as d eqn:Hd.
  revert i pos Hi0 Hi Hd. induction d as [| d IH]; intros i pos Hi0 Hi Hd Hpos.
  - exists pos. split; [done |]. replace t with i by lia. done.
  - cbn [Nat.add insert_loop]. rewrite Hpos. unfold set_. rewrite has_member_slot.
    destruct (Hpass i ltac:(lia)) as [Ho Hne]. unfold occupied in Ho. rewrite Ho. cbn [negb].
    rewrite desc_eqb_neq by done. cbn. apply (IH (i + 1)); [lia | lia | lia |]. apply slot_next.
Qed.

Lemma first_pos k : (if hash k mod N =? N then 0 else hash k mod N) = slot k 0.
Proof.
  unfold slot. rewrite Z.add_0_r.
  pose proof (Z.mod_pos_bound (hash k) N ltac:(unfold N; lia)).
  destruct (Z.eqb_spec (hash k mod N) N); [lia | done].
Qed.

Lemma search_at m k t :
  0 <= t < N -> passes m k t ->
  exists n pos, search_ m k = search_loop (S n) m k pos /\ (if pos =? N then 0 else pos) = slot k t.
Proof.
  intros Ht Hp. unfold search_.
  destruct (search_loop_skip m k t (hash k mod N) (S (Z.to_nat (N - t - 1))) 0)
    as (pos' & E & Hpos'); [done | lia | apply first_pos |].
  exists (Z.to_nat (N - t - 1)), pos'. split; [| done]. rewrite <- E. f_equal. lia.
Qed.

Lemma search_found m k t :
  0 <= t < N -> passes m k t -> holds m k (slot k t) -> search_ m k = (OB_SUCCESS, slot k t).
Proof.
  intros Ht Hp (_ & Ho & Hk). destruct (search_at m k t Ht Hp) as (n & pos & -> & Hpos).
  cbn [search_loop]. rewrite Hpos, has_member_slot. unfold occupied in Ho. rewrite Ho. cbn [negb].
  unfold key_at in Hk. rewrite Hk. by rewrite (proj2 (desc_eqb_spec k k)).
Qed.

Lemma search_free m k t :
  0 <= t < N -> passes m k t -> has_member N (flags_ m) (slot k t) = false ->
  search_ m k = (OB_ENTRY_NOT_EXIST, slot k t).
Proof.
  intros Ht Hp Ho. destruct (search_at m k t Ht Hp) as (n & pos & -> & Hpos).
  cbn [search_loop]. by rewrite Hpos, has_member_slot, Ho.
Qed.

Lemma search_full m k : passes m k N -> (search_ m k).1 = OB_ENTRY_NOT_EXIST.
Proof.
  intros Hp. unfold search_.
  destruct (search_loop_skip m k N (hash k mod N) 0 0) as (pos' & E & _);
    [done | unfold N; lia | apply first_pos |].
  rewrite Nat.add_0_r, Z.sub_0_r in E. by rewrite E.
Qed.

Lemma find_stored m k p v0 : map_wf m -> holds m k p -> find m k v0 = (OB_SUCCESS, value_at m p).
Proof.
  intros Hwf Hh. destruct (holds_path m k p Hwf Hh) as (t & Ht & -> & Hp).
  unfold find. by rewrite (search_found m k t).
Qed.

Lemma find_absent m k v0 :
  (forall p, ~ holds m k p) -> find m k v0 = (OB_ENTRY_NOT_EXIST, v0).
Proof.
  intros Hno. unfold find.
  destruct (probe_stops m k) as [(t & _ & _ & Hh) | [(t & Ht & Hp & Ho) | Hp]].
  - by destruct (Hno (slot k t)).
  - by rewrite (search_free m k t).
  - pose proof (search_full m k Hp) as E. destruct (search_ m k) as [ret pos]. cbn in E. by subst.
Qed.

Definition store m (p : Z) (k : Desc) (v : Z) : PlacementHashMap :=
  mkMap (add_member N (flags_ m) p).2 (zset (keys_ m) p k) (zset (values_ m) p v).

Lemma insert_at m k v t :
  0 <= t < N -> passes m k t ->
  exists n pos, insert m k v = insert_loop (S n) m pos k v /\
    (if pos =? N then 0 else pos) = slot k t.
Proof.
  intros Ht Hp. unfold insert.
  destruct (insert_loop_skip m k v t (hash k mod N) (S (Z.to_nat (N - t - 1))) 0)
    as (pos' & E & Hpos'); [done | lia | apply first_pos |].
  exists (Z.to_nat (N - t - 1)), pos'. split; [| done]. rewrite <- E. f_equal. lia.
Qed.

Lemma insert_stored m k v p :
  map_wf m -> holds m k p ->
  insert m k v = (if value_at m p =? v then OB_ENTRY_EXIST else OB_DUPLICATE_COLUMN, m).
Proof.
  intros Hwf Hh. destruct (holds_path m k p Hwf Hh) as (t & Ht & -> & Hp).
  destruct Hh as (_ & Ho & Hk). destruct (insert_at m k v t Ht Hp) as (n & pos & -> & Hpos).
  cbn [insert_loop]. rewrite Hpos. unfold set_. rewrite has_member_slot.
  unfold occupied in Ho. rewrite Ho. cbn [negb]. unfold key_at in Hk. rewrite Hk.
  rewrite (proj2 (desc_eqb_spec k k)) by done. fold (value_at m (slot k t)).
  by destruct (value_at m (slot k t) =? v).
Qed.

Lemma insert_free m k v t :
  0 <= t < N -> passes m k t -> has_member N (flags_ m) (slot k t) = false ->
  insert m k v = (OB_SUCCESS, store m (slot k t) k v).
Proof.
  intros Ht Hp Ho. destruct (insert_at m k v t Ht Hp) as (n & pos & -> & Hpos).
  cbn [insert_loop]. rewrite Hpos. unfold set_. rewrite has_member_slot, Ho. cbn [negb].
  unfold store. by rewrite int32_pos by apply slot_range.
Qed.

Lemma insert_full m k v : passes m k N -> insert m k v = (OB_ERROR, m).
Proof.
  intros Hp. unfold insert.
  destruct (insert_loop_skip m k v N (hash k mod N) 0 0) as (pos' & E & _);
    [done | unfold N; lia | apply first_pos |].
  rewrite Nat.add_0_r, Z.sub_0_r in E. by rewrite E.
Qed.

Lemma in_range_bucket p : 0 <= p < N -> in_range N p.
Proof.
  unfold in_range. change (MAX_BITMAPWORD N * PER_BITMAPWORD_BITS) with 1056. unfold N. lia.
Qed.

Lemma occupied_store m p k v q :
  map_wf m -> 0 <= p < N -> occupied (store m p k v) q <-> q = p \/ occupied m q.
Proof.
  intros Hwf Hp. unfold occupied, store; cbn [flags_]. rewrite <- !elem_of_members.
  rewrite add_member_members; [| unfold N; lia | by apply wf_flags | by apply in_range_bucket].
  rewrite elem_of_union, elem_of_singleton. done.
Qed.

Lemma at_store m p k v q :
  map_wf m -> 0 <= p < N -> 0 <= q ->
  key_at (store m p k v) q = (if q =? p then k else key_at m q) /\
  value_at (store m p k v) q = (if q =? p then v else value_at m q).
Proof.
  intros Hwf Hp Hq. unfold key_at, value_at, store; cbn [keys_ values_].
  pose proof (wf_keys m Hwf). pose proof (wf_values m Hwf). unfold N in *.
  destruct (Z.eqb_spec q p) as [-> | Hne].
  - rewrite !zget_zset_eq by lia. done.
  - rewrite !zget_zset_ne by lia. done.
Qed.

Lemma store_wf m k v t :
  map_wf m -> 0 <= t < N -> passes m k t -> has_member N (flags_ m) (slot k t) = false ->
  map_wf (store m (slot k t) k v).
Proof.
  intros Hwf Ht Hp Hfree. pose proof (slot_range k t) as Hs. split.
  - pose proof (wf_flags m Hwf) as Hf. apply add_member_wf; [unfold N; lia | done].
  - cbn. rewrite zset_length. by apply wf_keys.
  - cbn. rewrite zset_length. by apply wf_values.
  - intros p Hpr Ho.
    destruct (at_store m (slot k t) k v p Hwf Hs ltac:(lia)) as [Hkey _]. rewrite Hkey.
    assert (Hkeep : forall q, 0 <= q < N -> occupied m q ->
      occupied (store m (slot k t) k v) q /\ key_at (store m (slot k t) k v) q = key_at m q).
    { intros q Hq Hoq. split; [apply occupied_store; auto |].
      destruct (at_store m (slot k t) k v q Hwf Hs ltac:(lia)) as [-> _].
      destruct (Z.eqb_spec q (slot k t)) as [-> | ?]; [| done].
      unfold occupied in Hoq. congruence. }
    apply occupied_store in Ho; [| done | done].
    destruct (Z.eqb_spec p (slot k t)) as [-> | Hne].
    + exists t. split; [done |]. split; [done |]. intros j Hj. destruct (Hp j Hj) as [Hoj Hkj].
      destruct (Hkeep (slot k j)) as [H1 H2]; [apply slot_range | done |]. by rewrite H2.
    + destruct Ho as [-> | Ho]; [done |].
      destruct (wf_probe m Hwf p Hpr Ho) as (i & Hi & Ei & Hb). exists i. split; [done |].
      split; [done |]. intros j Hj. destruct (Hb j Hj) as [Hoj Hkj].
      destruct (Hkeep (slot (key_at m p) j)) as [H1 H2]; [apply slot_range | done |]. by rewrite H2.
Qed.
End Map.

(** ** The row description as a list of distinct columns *)

(** The columns in order, as the callers see them. *)
Definition columns (d : ObRowDesc) : list Desc := take (Z.to_nat (cells_desc_count_ d)) (cells_desc_ d).

Definition cell_desc (d : ObRowDesc) (i : Z) : Desc := zget no_desc (cells_desc_ d) i.

Record rowdesc_wf (d : ObRowDesc) : Prop := {
  wf_cells : length (cells_desc_ d) = Z.to_nat MAX_COLUMNS_COUNT;
  wf_count : 0 <= cells_desc_count_ d <= MAX_COLUMNS_COUNT;
  wf_map : map_wf (hash_map_ d);
  wf_indexed : forall i, 0 <= i < cells_desc_count_ d ->
    exists p, holds (hash_map_ d) (cell_desc d i) p /\ value_at (hash_map_ d) p = i;
  wf_stored : forall k p, holds (hash_map_ d) k p ->
    0 <= value_at (hash_map_ d) p < cells_desc_count_ d /\
    cell_desc d (value_at (hash_map_ d) p) = k
}.

Section Laws.
Context (d : ObRowDesc) (Hwf : rowdesc_wf d).

Lemma columns_length : Z.of_nat (length (columns d)) = cells_desc_count_ d.
Proof.
  pose proof (wf_cells d Hwf). pose proof (wf_count d Hwf). unfold MAX_COLUMNS_COUNT in *.
  unfold columns. rewrite length_take. lia.
Qed.

Lemma columns_lookup (i : nat) k :
  columns d !! i = Some k <-> Z.of_nat i < cells_desc_count_ d /\ cell_desc d (Z.of_nat i) = k.
Proof.
  pose proof columns_length as Hl. pose proof (wf_cells d Hwf). pose proof (wf_count d Hwf).
  unfold cell_desc, zget, MAX_COLUMNS_COUNT in *. rewrite Nat2Z.id. split.
  - intros Hi. pose proof (lookup_lt_Some _ _ _ Hi). split; [lia |].
    unfold columns in Hi. rewrite lookup_take_lt in Hi by lia. by rewrite Hi.
  - intros [Hi Hk]. unfold columns. rewrite lookup_take_lt by lia.
    destruct (lookup_lt_is_Some_2 (cells_desc_ d) i) as [x Hx]; [lia |].
    rewrite Hx in *. simpl in Hk. by subst.
Qed.

Lemma stored_in_columns k p :
  holds (hash_map_ d) k p -> columns d !! Z.to_nat (value_at (hash_map_ d) p) = Some k.
Proof.
  intros Hh. destruct (wf_stored d Hwf k p Hh) as [Hv Hc]. apply columns_lookup.
  rewrite Z2Nat.id by lia. split; [lia | done].
Qed.

Lemma column_stored k (i : nat) :
  columns d !! i = Some k ->
  exists p, holds (hash_map_ d) k p /\ value_at (hash_map_ d) p = Z.of_nat i.
Proof.
  intros H. apply columns_lookup in H as [Hi <-]. apply (wf_indexed d Hwf). lia.
Qed.

Lemma columns_NoDup : NoDup (columns d).
Proof.
  apply NoDup_alt. intros i j k Hi Hj.
  apply column_stored in Hi as (p & Hp & Hvp). apply column_stored in Hj as (q & Hq & Hvq).
  pose proof (holds_unique _ _ _ _ (wf_map d Hwf) Hp Hq). subst q. lia.
Qed.

(** Fewer than [N] buckets are occupied, so an absent column finds a free one. *)
Lemma some_free_bucket : exists p, 0 <= p < N /\ has_member N (flags_ (hash_map_ d)) p = false.
Proof.
  destruct (decide (Exists (fun p => has_member N (flags_ (hash_map_ d)) p = false) (seqZ 0 N)))
    as [H | H].
  { apply Exists_exists in H as (p & Hp & Ho). apply elem_of_seqZ in Hp. exists p. split; [lia | done]. }
  exfalso. apply not_Exists_Forall in H; [| intros p; apply _]. rewrite Forall_forall in H.
  set (m := hash_map_ d) in *.
  assert (Hocc : forall p, 0 <= p < N -> holds m (key_at m p) p).
  { intros p Hp. split; [done |]. split; [| done]. unfold occupied.
    apply not_false_is_true. apply (H p), elem_of_seqZ. lia. }
  assert (Hle : (length (value_at m <$> seqZ 0 N) <= length (seqZ 0 (cells_desc_count_ d)))%nat).
  { apply submseteq_length, NoDup_submseteq.
    - apply NoDup_fmap_2_strong; [| apply NoDup_seqZ].
      intros p q Hp Hq Hpq. apply elem_of_seqZ in Hp, Hq.
      destruct (wf_stored d Hwf _ _ (Hocc p ltac:(lia))) as [_ Hcp].
      destruct (wf_stored d Hwf _ _ (Hocc q ltac:(lia))) as [_ Hcq].
      fold m in Hcp, Hcq. rewrite Hpq in Hcp. rewrite Hcp in Hcq.
      apply (holds_unique m (key_at m q)); [apply Hwf | | apply Hocc; lia].
      rewrite <- Hcq. apply Hocc. lia.
    - intros v Hv. apply list_elem_of_fmap in Hv as (p & -> & Hp). apply elem_of_seqZ in Hp.
      apply elem_of_seqZ. destruct (wf_stored d Hwf _ _ (Hocc p ltac:(lia))) as [Hr _].
      fold m in Hr. lia. }
  rewrite length_fmap, !length_seqZ in Hle. pose proof (wf_count d Hwf).
  unfold N, MAX_COLUMNS_COUNT in *. lia.
Qed.

Lemma get_idx_present table_id column_id (i : nat) :
  table_id <> 0 -> column_id <> 0 -> columns d !! i = Some (mkDesc table_id column_id) ->
  get_idx d table_id column_id = Z.of_nat i.
Proof.
  intros Ht Hc Hi. pose proof (proj1 (columns_lookup _ _) Hi) as [Hlt _].
  apply column_stored in Hi as (p & Hp & Hv). unfold get_idx, hash_find.
  rewrite (find_stored _ _ p) by (try done; apply Hwf). rewrite Hv.
  destruct (Z.eqb_spec 0 table_id), (Z.eqb_spec 0 column_id); try lia. cbn [negb andb].
  change (OB_SUCCESS =? OB_SUCCESS) with true. cbn [andb].
  by rewrite (proj2 (Z.ltb_lt _ _) Hlt).
Qed.

Lemma get_idx_absent table_id column_id :
  mkDesc table_id column_id ∉ columns d -> get_idx d table_id column_id = OB_INVALID_INDEX.
Proof.
  intros Hno. unfold get_idx, hash_find. rewrite find_absent; [by destruct (_ && _) |].
  intros p Hp. apply Hno. apply stored_in_columns in Hp. by eapply list_elem_of_lookup_2.
Qed.

Lemma get_tid_cid_spec i :
  get_tid_cid d i =
  match (if i <? 0 then None else columns d !! Z.to_nat i) with
  | Some k => (OB_SUCCESS, Some (table_id_ k, column_id_ k))
  | None => (OB_INVALID_ARGUMENT, None)
  end.
Proof.
  unfold get_tid_cid. destruct (Z.ltb_spec i 0); [done |]. cbn [orb].
  destruct (Z.leb_spec (cells_desc_count_ d) i).
  - rewrite lookup_ge_None_2; [done |]. pose proof columns_length. lia.
  - rewrite (proj2 (columns_lookup (Z.to_nat i) (cell_desc d i))); [done |].
    rewrite Z2Nat.id by lia. done.
Qed.

(** The state [add_column_desc] leaves after a successful insertion at [p]. *)
Definition with_column (k : Desc) (m : PlacementHashMap) (n : Z) : ObRowDesc :=
  mkRowDesc (zset (cells_desc_ d) (cells_desc_count_ d) k) n m (rowkey_cell_count_ d).

Lemma cell_desc_with k m n i :
  cells_desc_count_ d < MAX_COLUMNS_COUNT -> 0 <= i ->
  cell_desc (with_column k m n) i = if i =? cells_desc_count_ d then k else cell_desc d i.
Proof.
  intros Hlt Hi. pose proof (wf_cells d Hwf). pose proof (wf_count d Hwf).
  unfold cell_desc, with_column, MAX_COLUMNS_COUNT in *; cbn [cells_desc_].
  destruct (Z.eqb_spec i (cells_desc_count_ d)) as [-> | Hne].
  - apply zget_zset_eq. lia.
  - apply zget_zset_ne; lia.
Qed.

(** A duplicate leaves the new pair in the unused tail of the array. *)
Lemma with_column_same k :
  cells_desc_count_ d < MAX_COLUMNS_COUNT ->
  rowdesc_wf (with_column k (hash_map_ d) (cells_desc_count_ d)) /\
  columns (with_column k (hash_map_ d) (cells_desc_count_ d)) = columns d.
Proof.
  intros Hlt. pose proof (wf_count d Hwf) as Hc. split.
  - split; cbn; [rewrite zset_length; apply Hwf | done | apply Hwf | |].
    + intros i Hi. rewrite cell_desc_with by lia.
      destruct (Z.eqb_spec i (cells_desc_count_ d)); [lia |]. by apply (wf_indexed d Hwf).
    + intros k' p Hp. pose proof (wf_stored d Hwf k' p Hp). split; [lia |].
      rewrite cell_desc_with by lia.
      destruct (Z.eqb_spec (value_at (hash_map_ d) p) (cells_desc_count_ d)); [lia | tauto].
  - unfold columns, with_column, zset; cbn. by rewrite take_insert_ge by lia.
Qed.

Lemma holds_store m p k v k' q :
  map_wf m -> 0 <= p < N -> has_member N (flags_ m) p = false ->
  holds (store m p k v) k' q <-> (q = p /\ k' = k) \/ holds m k' q.
Proof.
  intros Hm Hp Hfree. unfold holds. rewrite occupied_store by done. split.
  - intros (Hq & Ho & Hk). destruct (at_store m p k v q Hm Hp ltac:(lia)) as [Hk' _].
    rewrite Hk' in Hk. destruct (Z.eqb_spec q p); [by left |]. right. tauto.
  - intros [[-> ->] | (Hq & Ho & Hk)].
    + destruct (at_store m p k v p Hm Hp ltac:(lia)) as [Hk' _]. rewrite Hk', Z.eqb_refl. tauto.
    + destruct (at_store m p k v q Hm Hp ltac:(lia)) as [Hk' _]. rewrite Hk'.
      destruct (Z.eqb_spec q p) as [-> | ?]; [| tauto]. unfold occupied in Ho. congruence.
Qed.

Lemma with_column_added k t :
  cells_desc_count_ d < MAX_COLUMNS_COUNT -> k ∉ columns d ->
  0 <= t < N -> passes (hash_map_ d) k t -> has_member N (flags_ (hash_map_ d)) (slot k t) = false ->
  let d' := with_column k (store (hash_map_ d) (slot k t) k (cells_desc_count_ d))
                        (cells_desc_count_ d + 1) in
  rowdesc_wf d' /\ columns d' = columns d ++ [k].
Proof.
  intros Hlt Hno Ht Hp Hfree d'. pose proof (wf_count d Hwf) as Hc. pose proof (wf_map d Hwf) as Hm.
  pose proof (slot_range k t) as Hs. split.
  - split; cbn [d' with_column cells_desc_ cells_desc_count_ hash_map_].
    + rewrite zset_length. apply Hwf.
    + lia.
    + by apply store_wf.
    + intros i Hi. unfold d'. rewrite cell_desc_with by lia.
      destruct (Z.eqb_spec i (cells_desc_count_ d)) as [-> | Hne].
      * exists (slot k t). rewrite holds_store by done. split; [by left |].
        destruct (at_store (hash_map_ d) (slot k t) k (cells_desc_count_ d) (slot k t) Hm Hs ltac:(lia))
          as [_ ->]. by rewrite Z.eqb_refl.
      * destruct (wf_indexed d Hwf i ltac:(lia)) as (p & Hh & Hv). exists p.
        rewrite holds_store by done. split; [by right |]. destruct Hh as (Hpr & Ho & _).
        destruct (at_store (hash_map_ d) (slot k t) k (cells_desc_count_ d) p Hm Hs ltac:(lia))
          as [_ ->]. destruct (Z.eqb_spec p (slot k t)) as [-> | ?]; [| done].
        unfold occupied in Ho. congruence.
    + intros k' p Hh. assert (0 <= p) by (destruct Hh as (? & _); lia).
      destruct (at_store (hash_map_ d) (slot k t) k (cells_desc_count_ d) p Hm Hs ltac:(lia)) as [_ ->].
      apply holds_store in Hh; [| done | done | done]. destruct (Z.eqb_spec p (slot k t)) as [-> | Hne].
      * split; [lia |]. unfold d'. rewrite cell_desc_with by lia. rewrite Z.eqb_refl.
        destruct Hh as [[_ ->] | (_ & Ho & _)]; [done |]. unfold occupied in Ho. congruence.
      * destruct Hh as [[-> _] | Hh]; [done |]. destruct (wf_stored d Hwf k' p Hh) as [Hv Hk].
        split; [lia |]. unfold d'. rewrite cell_desc_with by lia.
        destruct (Z.eqb_spec (value_at (hash_map_ d) p) (cells_desc_count_ d)); [lia | done].
  - unfold columns, d', with_column, zset; cbn [cells_desc_ cells_desc_count_].
    rewrite Z2Nat.inj_add by lia. change (Z.to_nat 1) with 1%nat. rewrite Nat.add_1_r.
    rewrite (take_S_r _ _ k); [by rewrite take_insert_ge by lia |].
    rewrite list_lookup_insert_eq; [done |]. pose proof (wf_cells d Hwf).
    unfold MAX_COLUMNS_COUNT in *. lia.
Qed.
End Laws.

(** What [add_column_desc] returns and leaves, on a list of columns. *)
Definition add_column_result (cols : list Desc) (k : Desc) : Z * list Desc :=
  if MAX_COLUMNS_COUNT <=? Z.of_nat (length cols) then (OB_BUF_NOT_ENOUGH, cols)
  else if decide (k ∈ cols) then (OB_DUPLICATE_COLUMN, cols)
  else (OB_SUCCESS, cols ++ [k]).

Lemma add_column_desc_spec d table_id column_id :
  rowdesc_wf d ->
  rowdesc_wf (add_column_desc d table_id column_id).2 /\
  rowkey_cell_count_ (add_column_desc d table_id column_id).2 = rowkey_cell_count_ d /\
  ((add_column_desc d table_id column_id).1, columns (add_column_desc d table_id column_id).2)
    = add_column_result (columns d) (mkDesc table_id column_id).
Proof.
  intros Hwf. unfold add_column_desc, add_column_result. rewrite (columns_length d Hwf).
  set (k := mkDesc table_id column_id).
  destruct (Z.leb_spec MAX_COLUMNS_COUNT (cells_desc_count_ d)) as [Hle | Hlt]; [done |].
  unfold hash_insert; cbn [hash_map_ cells_desc_ cells_desc_count_ rowkey_cell_count_]. fold k.
  destruct (decide (k ∈ columns d)) as [Hin | Hno].
  - apply list_elem_of_lookup_1 in Hin as [i Hi].
    destruct (column_stored d Hwf k i Hi) as (p & Hp & Hv).
    rewrite (insert_stored _ k _ p (wf_map d Hwf) Hp).
    destruct (wf_stored d Hwf k p Hp) as [Hr _].
    destruct (Z.eqb_spec (value_at (hash_map_ d) p) (cells_desc_count_ d)); [lia |].
    destruct (with_column_same d Hwf k Hlt) as [Hw Hc]. unfold with_column in *.
    cbn. by rewrite Hc.
  - assert (Hfree : exists t, 0 <= t < N /\ passes (hash_map_ d) k t /\
      has_member N (flags_ (hash_map_ d)) (slot k t) = false).
    { destruct (probe_stops (hash_map_ d) k) as [(t & _ & _ & Hh) | [H | Hp]]; [| done |].
      - apply (stored_in_columns d Hwf), list_elem_of_lookup_2 in Hh. done.
      - destruct (some_free_bucket d Hwf) as (p & Hp' & Hf).
        destruct (slot_surj k p Hp') as (i & Hi & <-). destruct (Hp i Hi) as [Ho _].
        unfold occupied in Ho. congruence. }
    destruct Hfree as (t & Ht & Hp & Hf). rewrite (insert_free _ k _ t) by done.
    destruct (with_column_added d Hwf k t Hlt Hno Ht Hp Hf) as [Hw Hc]. unfold with_column in *.
    cbn [cells_desc_ cells_desc_count_ hash_map_ rowkey_cell_count_ fst snd].
    change (negb (OB_SUCCESS =? OB_SUCCESS)) with false.
    cbn [cells_desc_ cells_desc_count_ hash_map_ rowkey_cell_count_ fst snd]. by rewrite Hc.
Qed.

Lemma cleared_wf d n :
  rowdesc_wf d -> let d' := mkRowDesc (cells_desc_ d) 0 (map_clear (hash_map_ d)) n in
  rowdesc_wf d' /\ columns d' = [].
Proof.
  intros Hwf. pose proof (wf_map d Hwf) as Hm. cbn zeta. split; [| done].
  assert (Hno : forall p, ~ occupied (map_clear (hash_map_ d)) p).
  { intros p. unfold occupied, map_clear; cbn [flags_]. rewrite clear_wf by apply Hm.
    rewrite <- elem_of_members. rewrite zero_members; [by apply not_elem_of_empty |].
    intros w. apply zget_replicate. }
  split; cbn.
  - apply Hwf.
  - unfold MAX_COLUMNS_COUNT. lia.
  - split; [| apply Hm | apply Hm |].
    + cbn. rewrite clear_wf by apply Hm. apply new_wf.
    + intros p _ Ho. by destruct (Hno p).
  - intros i Hi. lia.
  - intros k p (_ & Ho & _). by destruct (Hno p).
Qed.

(** Copying the columns of a well-formed description never fails. *)
(** Copied columns go behind those the description has. *)
Lemma copy_columns_append n d other i :
  rowdesc_wf d -> rowdesc_wf other -> 0 <= i -> Z.of_nat n = cells_desc_count_ other - i ->
  NoDup (columns d ++ drop (Z.to_nat i) (columns other)) ->
  Z.of_nat (length (columns d)) + Z.of_nat n <= MAX_COLUMNS_COUNT ->
  exists d', copy_columns n d other i OB_SUCCESS = (OB_SUCCESS, d') /\ rowdesc_wf d' /\
    columns d' = columns d ++ drop (Z.to_nat i) (columns other) /\ rowkey_cell_count_ d' = rowkey_cell_count_ d.
Proof.
  intros Hwf Ho. revert d i Hwf. induction n as [| n IH]; intros d i Hwf Hi Hn Hnd Hmax.
  - exists d. split; [done |]. split; [done |]. split; [| done].
    rewrite drop_ge, app_nil_r; [done |]. pose proof (columns_length other Ho). lia.
  - cbn [copy_columns]. rewrite get_tid_cid_spec by done.
    destruct (Z.ltb_spec i 0); [lia |]. pose proof (columns_length other Ho) as Hl.
    destruct (lookup_lt_is_Some_2 (columns other) (Z.to_nat i)) as [k Hk]; [lia |]. rewrite Hk.
    rewrite (drop_S _ _ _ Hk) in Hnd |- *.
    destruct (add_column_desc_spec d (table_id_ k) (column_id_ k) Hwf) as (Hw & Hr & Hres).
    replace (mkDesc (table_id_ k) (column_id_ k)) with k in Hres by (by destruct k).
    destruct (add_column_desc d (table_id_ k) (column_id_ k)) as [ret d1]. cbn [fst snd] in *.
    unfold add_column_result in Hres. destruct (Z.leb_spec MAX_COLUMNS_COUNT (Z.of_nat (length (columns d)))); [lia |].
    destruct (decide (k ∈ columns d)) as [Hin | Hno].
    { exfalso. apply NoDup_app in Hnd as (_ & Hnd & _). apply (Hnd k Hin). by left. }
    injection Hres as -> Hc1. change (negb (OB_SUCCESS =? OB_SUCCESS)) with false. cbn iota.
    replace (S (Z.to_nat i)) with (Z.to_nat (i + 1)) in * by lia.
    destruct (IH d1 (i + 1)) as (d' & -> & Hw' & Hc' & Hr'); [done | lia | lia | | |].
    { by rewrite Hc1, <- app_assoc. }
    { rewrite Hc1, length_app. cbn [length]. lia. }
    exists d'. split; [done |]. split; [done |]. split; [by rewrite Hc', Hc1, <- app_assoc | congruence].
Qed.

Lemma copy_columns_spec n d other i :
  rowdesc_wf d -> rowdesc_wf other -> 0 <= i ->
  Z.of_nat n = cells_desc_count_ other - i -> columns d = take (Z.to_nat i) (columns other) ->
  exists d', copy_columns n d other i OB_SUCCESS = (OB_SUCCESS, d') /\ rowdesc_wf d' /\
    columns d' = columns other /\ rowkey_cell_count_ d' = rowkey_cell_count_ d.
Proof.
  intros Hwf Ho Hi Hn Hcols. pose proof (columns_length other Ho) as Hl. pose proof (wf_count other Ho) as Hco.
  destruct (copy_columns_append n d other i) as (d' & E & Hw & Hc & Hr); try done.
  - rewrite Hcols, take_drop. by apply columns_NoDup.
  - rewrite Hcols, length_take. lia.
  - exists d'. rewrite Hcols, take_drop in Hc. done.
Qed.

Lemma rowdesc_new_wf cells keys values :
  length cells = Z.to_nat MAX_COLUMNS_COUNT -> length keys = Z.to_nat N ->
  length values = Z.to_nat N -> rowdesc_wf (ObRowDesc_new cells keys values).
Proof.
  intros Hc Hk Hv.
  assert (Hno : forall p, ~ occupied (hash_map_ (ObRowDesc_new cells keys values)) p).
  { intros p. unfold occupied, ObRowDesc_new; cbn [hash_map_ flags_].
    rewrite <- elem_of_members, zero_members; [by apply not_elem_of_empty |].
    intros w. apply zget_replicate. }
  split; cbn; [done | unfold MAX_COLUMNS_COUNT; lia | | lia | intros k p (_ & Ho & _); by destruct (Hno p)].
  split; [apply new_wf | done | done |]. intros p _ Ho. by destruct (Hno p).
Qed.

(** The description a caller builds by adding the columns in order to a fresh
    object, on zeroed memory. *)
Definition rowdesc_of (cols : list Desc) : ObRowDesc :=
  fold_left (fun d k => (add_column_desc d (table_id_ k) (column_id_ k)).2) cols
    (ObRowDesc_new (replicate (Z.to_nat MAX_COLUMNS_COUNT) no_desc)
                   (replicate (Z.to_nat N) no_desc) (replicate (Z.to_nat N) 0)).

Lemma rowdesc_of_spec cols :
  NoDup cols -> Z.of_nat (length cols) <= MAX_COLUMNS_COUNT ->
  rowdesc_wf (rowdesc_of cols) /\ columns (rowdesc_of cols) = cols.
Proof.
  induction cols as [| k cols IH] using rev_ind; intros Hnd Hlen.
  { split; [| done]. apply rowdesc_new_wf; by rewrite length_replicate. }
  unfold rowdesc_of. rewrite fold_left_app. cbn [fold_left]. fold (rowdesc_of cols).
  apply NoDup_app in Hnd as (Hnd & Hdis & _). rewrite length_app in Hlen. cbn [length] in Hlen.
  destruct IH as [Hwf Hcols]; [done | lia |].
  destruct (add_column_desc_spec (rowdesc_of cols) (table_id_ k) (column_id_ k) Hwf) as (Hw & _ & Hres).
  split; [done |]. replace (mkDesc (table_id_ k) (column_id_ k)) with k in Hres by (by destruct k).
  rewrite Hcols in Hres. unfold add_column_result in Hres.
  destruct (Z.leb_spec MAX_COLUMNS_COUNT (Z.of_nat (length cols))); [lia |].
  rewrite decide_False in Hres by (intros Hin; apply (Hdis k Hin); by left).
  by injection Hres as _ ->.
Qed.

(** C15: a row description is a list of distinct columns, at most 512 of them;
    the hash map and the array implement it.  [get_idx] is the position of the
    column in the list, -1 for a column that is not in it and for the ids 0;
    [get_tid_cid] is the inverse; [add_column_desc] appends, or leaves the list
    as it is with [OB_BUF_NOT_ENOUGH] when there are 512 columns and
    [OB_DUPLICATE_COLUMN] when the column is there; it never finds the hash map
    full; [reset] empties the list. *)
Theorem rowdesc_refines_column_list (d : ObRowDesc) (table_id column_id i : Z)
    (Hwf : rowdesc_wf d) :
  NoDup (columns d) /\
  Z.of_nat (length (columns d)) = get_column_num d /\ get_column_num d <= 512 /\
  get_idx d table_id column_id =
    (if decide (table_id = 0 \/ column_id = 0) then -1
     else match list_find (fun k => k = mkDesc table_id column_id) (columns d) with
          | Some (j, _) => Z.of_nat j | None => -1 end) /\
  get_tid_cid d i =
    match (if i <? 0 then None else columns d !! Z.to_nat i) with
    | Some k => (OB_SUCCESS, Some (table_id_ k, column_id_ k))
    | None => (OB_INVALID_ARGUMENT, None)
    end /\
  rowdesc_wf (add_column_desc d table_id column_id).2 /\
  ((add_column_desc d table_id column_id).1, columns (add_column_desc d table_id column_id).2)
    = add_column_result (columns d) (mkDesc table_id column_id) /\
  rowdesc_wf (rowdesc_reset d) /\ columns (rowdesc_reset d) = [].
Proof.
  destruct (add_column_desc_spec d table_id column_id Hwf) as (Ha & _ & Hr).
  destruct (cleared_wf d 0 Hwf) as [Hc1 Hc2].
  conjs; [by apply columns_NoDup | by apply columns_length | apply Hwf | |
          by apply get_tid_cid_spec | done | done | done | done].
  destruct (decide (table_id = 0 \/ column_id = 0)) as [H0 | H0].
  { unfold get_idx. destruct H0 as [-> | ->]; [done |]. by rewrite andb_false_r. }
  destruct (list_find _ (columns d)) as [[j k] |] eqn:E.
  - apply list_find_Some in E as (Hj & -> & _). apply get_idx_present; tauto.
  - apply get_idx_absent; [done |]. apply list_find_None in E. rewrite Forall_forall in E.
    intros Hin. by apply (E _ Hin).
Qed.

(** A description of two columns, one of them stored at a collision. *)
Lemma rowdesc_refines_column_list_witness :
  get_idx (rowdesc_of [mkDesc 1 2; mkDesc 1 1033]) 1 1033 = 1.
Proof.
  destruct (rowdesc_of_spec [mkDesc 1 2; mkDesc 1 1033]) as [Hwf Hcols].
  { apply (bool_decide_unpack _). vm_compute. exact I. }
  { vm_compute. congruence. }
  destruct (rowdesc_refines_column_list (rowdesc_of [mkDesc 1 2; mkDesc 1 1033]) 1 1033 0 Hwf)
    as (_ & _ & _ & H & _).
  rewrite Hcols in H. exact H.
Defined.

(** [operator=] and [assign] copy: whatever the target held, the result has
    the source's columns in the source's order and its rowkey cell count, and
    [assign] reports success. *)
Theorem rowdesc_copy_exact (d other : ObRowDesc) (Hwf : rowdesc_wf d) (Ho : rowdesc_wf other) :
  (rowdesc_wf (rowdesc_copy d other) /\ columns (rowdesc_copy d other) = columns other /\
   rowkey_cell_count_ (rowdesc_copy d other) = rowkey_cell_count_ other) /\
  (exists d', rowdesc_assign d other = (OB_SUCCESS, d') /\ rowdesc_wf d' /\
     columns d' = columns other /\ rowkey_cell_count_ d' = rowkey_cell_count_ other).
Proof.
  pose proof (wf_count other Ho) as Hc. split.
  - destruct (cleared_wf d (rowkey_cell_count_ other) Hwf) as [Hw He].
    destruct (copy_columns_spec (Z.to_nat (cells_desc_count_ other)) _ other 0 Hw Ho)
      as (d' & E & Hw' & Hc' & Hr'); [lia | lia | done |].
    unfold rowdesc_copy. rewrite E. done.
  - destruct (cleared_wf d 0 Hwf) as [Hw He].
    destruct (copy_columns_spec (Z.to_nat (cells_desc_count_ other)) _ other 0 Hw Ho)
      as (d' & E & Hw' & Hc' & Hr'); [lia | lia | done |].
    unfold rowdesc_assign, rowdesc_reset. rewrite E. eexists. split; [done |].
    split; [| done]. destruct Hw'. by split.
Qed.

Lemma rowdesc_copy_exact_witness :
  columns (rowdesc_copy (rowdesc_of [mkDesc 9 9]) (rowdesc_of [mkDesc 1 2; mkDesc 1 3]))
  = [mkDesc 1 2; mkDesc 1 3].
Proof.
  destruct (rowdesc_of_spec [mkDesc 9 9]) as [Hwf _];
    [apply NoDup_singleton | vm_compute; congruence |].
  destruct (rowdesc_of_spec [mkDesc 1 2; mkDesc 1 3]) as [Ho Hcols].
  { apply (bool_decide_unpack _). vm_compute. exact I. }
  { vm_compute. congruence. }
  rewrite <- Hcols at 2. apply (rowdesc_copy_exact _ _ Hwf Ho).
Defined.
