(* ===== verification/ObRow.v ===== *)
(** * Rows

    [src/oceanbase/src/common/ob_raw_row.h], [ob_raw_row.cpp], [ob_row.h] and
    [ob_row.cpp]: the array of 512 cells, and the row that reads it through a row
    description.  A row holds a pointer to its description; the description does
    not change while rows point to it, so the model stores it.  [rowkey_] is a
    pointer to the row's own cells with a length: the model keeps the length. *)

From S2P Require Import Prelude ObObject ObRowDesc.
From stdpp Require Import gmap.
Local Open Scope Z_scope.

(** ** ObRawRow *)

Record ObRawRow := mkRaw { cells_ : list ObObj; cells_count_ : Z }.

(** The constructor zeroes the buffer: 512 null cells. *)
Definition ObRawRow_new : ObRawRow := mkRaw (replicate (Z.to_nat MAX_COLUMNS_COUNT) ObObj_new) 0.

Definition raw_row_clear (r : ObRawRow) : ObRawRow := mkRaw (cells_ r) 0.

Definition raw_row_get_cell (r : ObRawRow) (i : Z) : Z * option ObObj :=
  if (i <? 0) || (MAX_COLUMNS_COUNT <=? i) then (OB_INVALID_ARGUMENT, None)
  else (OB_SUCCESS, Some (zget ObObj_new (cells_ r) i)).

Definition raw_row_set_cell (r : ObRawRow) (i : Z) (cell : ObObj) : Z * ObRawRow :=
  if (i <? 0) || (MAX_COLUMNS_COUNT <=? i) then (OB_INVALID_ARGUMENT, r)
  else (OB_SUCCESS, mkRaw (zset (cells_ r) i cell)
                          (if cells_count_ r <=? i then int16 (1 + i) else cells_count_ r)).

(** The loop copies the first [cells_count_] cells of [other] and no more. *)
Definition raw_row_assign (r other : ObRawRow) : ObRawRow :=
  mkRaw (fold_left (fun cs i => zset cs i (zget ObObj_new (cells_ other) i))
                   (seqZ 0 (cells_count_ other)) (cells_ r))
        (cells_count_ other).

Definition add_cell (r : ObRawRow) (cell : ObObj) : Z * ObRawRow :=
  if MAX_COLUMNS_COUNT <=? cells_count_ r then (OB_SIZE_OVERFLOW, r)
  else (OB_SUCCESS, mkRaw (zset (cells_ r) (cells_count_ r) cell) (cells_count_ r + 1)).

(** ** ObRow *)

Inductive DefaultValue := DEFAULT_NULL | DEFAULT_NOP.

Definition OB_ACTION_FLAG_COLUMN_ID : Z := 65520.

Record ObRow := mkRow {
  rowkey_ : Z;
  raw_row_ : ObRawRow;
  row_desc_ : option ObRowDesc
}.

Definition ObRow_new : ObRow := mkRow 0 ObRawRow_new None.

Definition row_clear (r : ObRow) : ObRow := mkRow (rowkey_ r) (raw_row_clear (raw_row_ r)) None.

Definition set_row_desc (r : ObRow) (d : ObRowDesc) : ObRow :=
  mkRow (if 0 <? rowkey_cell_count_ d then rowkey_cell_count_ d else rowkey_ r) (raw_row_ r) (Some d).

Definition row_column_num (r : ObRow) : Z :=
  match row_desc_ r with None => -1 | Some d => get_column_num d end.

(** [assign] and the copy operations: the raw row and the description. *)
Definition row_assign (r other : ObRow) : ObRow :=
  mkRow (rowkey_ r) (raw_row_assign (raw_row_ r) (raw_row_ other)) (row_desc_ other).

Definition with_raw (r : ObRow) (raw : ObRawRow) : ObRow := mkRow (rowkey_ r) raw (row_desc_ r).

Definition get_cell (r : ObRow) (table_id column_id : Z) : Z * option ObObj :=
  match row_desc_ r with
  | None => (OB_INVALID_ARGUMENT, None)
  | Some d =>
      let cell_idx := get_idx d table_id column_id in
      if cell_idx =? OB_INVALID_INDEX then (OB_INVALID_ARGUMENT, None)
      else raw_row_get_cell (raw_row_ r) cell_idx
  end.

(** Without a description the log line dereferences NULL. *)
Definition set_cell (r : ObRow) (table_id column_id : Z) (cell : ObObj) : option (Z * ObRow) :=
  match row_desc_ r with
  | None => None
  | Some d =>
      let cell_idx := get_idx d table_id column_id in
      if cell_idx =? OB_INVALID_INDEX then Some (OB_INVALID_ARGUMENT, r)
      else let '(ret, raw) := raw_row_set_cell (raw_row_ r) cell_idx cell in Some (ret, with_raw r raw)
  end.

(** [raw_get_cell] with the cell alone, [raw_get_cell_for_update] alike. *)
Definition raw_get_cell (r : ObRow) (cell_idx : Z) : Z * option ObObj :=
  if row_column_num r <=? cell_idx then (OB_INVALID_ARGUMENT, None)
  else raw_row_get_cell (raw_row_ r) cell_idx.

(** [raw_get_cell] with the table and column ids. *)
Definition raw_get_cell_ids (r : ObRow) (cell_idx : Z) : Z * option (ObObj * (Z * Z)) :=
  match row_desc_ r with
  | None => (OB_NOT_INIT, None)
  | Some d =>
      if row_column_num r <=? cell_idx then (OB_INVALID_ARGUMENT, None)
      else match get_tid_cid d cell_idx with
           | (ret, None) => (ret, None)
           | (_, Some ids) =>
               let '(ret, cell) := raw_row_get_cell (raw_row_ r) cell_idx in
               (ret, (fun c => (c, ids)) <$> cell)
           end
  end.

Definition raw_set_cell (r : ObRow) (cell_idx : Z) (cell : ObObj) : Z * ObRow :=
  match row_desc_ r with
  | None => (OB_NOT_INIT, r)
  | Some d =>
      if row_column_num r <=? cell_idx then (OB_INVALID_ARGUMENT, r)
      else let '(ret, raw) := raw_row_set_cell (raw_row_ r) cell_idx cell in (ret, with_raw r raw)
  end.

(** The loop of [reset]; [k] is the number of columns left. *)
Fixpoint reset_loop (k : nat) (r : ObRow) (i flag_column_idx : Z) (default_obj : ObObj) : Z * ObRow :=
  match k with
  | O => (OB_SUCCESS, r)
  | S k' =>
      let cell := if negb (i =? flag_column_idx) then default_obj
                  else set_ext ObObj_new OP_ROW_DOES_NOT_EXIST in
      let '(ret, r) := raw_set_cell r i cell in
      if negb (ret =? OB_SUCCESS) then (ret, r)
      else reset_loop k' r (i + 1) flag_column_idx default_obj
  end.

Definition default_obj (v : DefaultValue) : ObObj :=
  match v with
  | DEFAULT_NULL => set_null ObObj_new
  | DEFAULT_NOP => set_ext ObObj_new OP_NOP
  end.

Definition row_reset (r : ObRow) (skip_rowkey : bool) (v : DefaultValue) : Z * ObRow :=
  match row_desc_ r with
  | None => (OB_SUCCESS, r)
  | Some d =>
      let flag_column_idx := get_idx d OB_INVALID_ID OB_ACTION_FLAG_COLUMN_ID in
      let start := if skip_rowkey then rowkey_cell_count_ d else 0 in
      reset_loop (Z.to_nat (get_column_num d - start)) (with_raw r (raw_row_clear (raw_row_ r)))
                 start flag_column_idx (default_obj v)
  end.

(** The rowkey a caller reads through the pointer. *)
Definition get_rowkey (r : ObRow) : Z * option (list ObObj) :=
  match row_desc_ r with
  | None => (OB_NOT_INIT, None)
  | Some d =>
      if rowkey_cell_count_ d <=? 0 then (OB_ERR_UNEXPECTED, None)
      else (OB_SUCCESS, Some (take (Z.to_nat (rowkey_ r)) (cells_ (raw_row_ r))))
  end.

Definition get_is_row_empty (r : ObRow) : Z * option bool :=
  match row_desc_ r with
  | None => (OB_NOT_INIT, None)
  | Some d =>
      if get_idx d OB_INVALID_ID OB_ACTION_FLAG_COLUMN_ID =? OB_INVALID_INDEX then (OB_SUCCESS, Some false)
      else match get_cell r OB_INVALID_ID OB_ACTION_FLAG_COLUMN_ID with
           | (_, Some cell) =>
               if negb (type_eqb (type_ cell) ObExtendType) then (OB_ERROR, None)
               else (OB_SUCCESS, Some (OP_ROW_DOES_NOT_EXIST =? get_ext cell))
           | (ret, None) => (ret, None)
           end
  end.

(** ** Invariant and laws *)

Record row_wf (r : ObRow) : Prop := {
  wf_raw : length (cells_ (raw_row_ r)) = Z.to_nat MAX_COLUMNS_COUNT;
  wf_raw_count : 0 <= cells_count_ (raw_row_ r) <= MAX_COLUMNS_COUNT;
  wf_desc : forall d, row_desc_ r = Some d -> rowdesc_wf d
}.

(** The cells of the row's columns, in order. *)
Definition row_cells (r : ObRow) : list ObObj :=
  take (Z.to_nat (row_column_num r)) (cells_ (raw_row_ r)).

Definition raw_cell (r : ObRow) (i : Z) : ObObj := zget ObObj_new (cells_ (raw_row_ r)) i.

Section Laws.
Context (r : ObRow) (Hwf : row_wf r).

Lemma row_column_num_range : -1 <= row_column_num r <= MAX_COLUMNS_COUNT.
Proof.
  unfold row_column_num. destruct (row_desc_ r) as [d |] eqn:E; [| unfold MAX_COLUMNS_COUNT; lia].
  pose proof (wf_count d (wf_desc r Hwf d E)). unfold get_column_num. lia.
Qed.

Lemma row_cells_length : Z.of_nat (length (row_cells r)) = Z.max 0 (row_column_num r).
Proof.
  pose proof row_column_num_range. pose proof (wf_raw r Hwf). unfold row_cells.
  rewrite length_take. unfold MAX_COLUMNS_COUNT in *. lia.
Qed.

Lemma row_cells_lookup (i : nat) :
  row_cells r !! i =
  if Z.of_nat i <? row_column_num r then Some (raw_cell r (Z.of_nat i)) else None.
Proof.
  pose proof row_column_num_range. pose proof (wf_raw r Hwf). unfold row_cells, raw_cell, zget.
  rewrite Nat2Z.id. destruct (Z.ltb_spec (Z.of_nat i) (row_column_num r)).
  - rewrite lookup_take_lt by lia.
    destruct (lookup_lt_is_Some_2 (cells_ (raw_row_ r)) i) as [x ->]; [| done].
    unfold MAX_COLUMNS_COUNT in *. lia.
  - by rewrite lookup_take_ge by lia.
Qed.

Lemma raw_get_cell_spec i :
  raw_get_cell r i =
  match (if i <? 0 then None else row_cells r !! Z.to_nat i) with
  | Some c => (OB_SUCCESS, Some c)
  | None => (OB_INVALID_ARGUMENT, None)
  end.
Proof.
  unfold raw_get_cell, raw_row_get_cell. pose proof row_column_num_range.
  destruct (Z.ltb_spec i 0); cbn [orb]; [by destruct (_ <=? _) |].
  rewrite row_cells_lookup, Z2Nat.id by lia.
  destruct (Z.leb_spec (row_column_num r) i), (Z.ltb_spec i (row_column_num r)); try lia; [done |].
  destruct (Z.leb_spec MAX_COLUMNS_COUNT i); [lia | done].
Qed.

Lemma raw_set_cell_spec i cell :
  0 <= i < row_column_num r ->
  exists r', raw_set_cell r i cell = (OB_SUCCESS, r') /\ row_wf r' /\
    rowkey_ r' = rowkey_ r /\ row_desc_ r' = row_desc_ r /\
    cells_ (raw_row_ r') = zset (cells_ (raw_row_ r)) i cell /\
    cells_count_ (raw_row_ r') = Z.max (cells_count_ (raw_row_ r)) (i + 1).
Proof.
  intros Hi. pose proof row_column_num_range as Hn. unfold raw_set_cell, raw_row_set_cell.
  destruct (row_desc_ r) as [d |] eqn:Ed; [| unfold row_column_num in Hi; rewrite Ed in Hi; lia].
  destruct (Z.leb_spec (row_column_num r) i); [lia |].
  destruct (Z.ltb_spec i 0); [lia |]. destruct (Z.leb_spec MAX_COLUMNS_COUNT i); [lia |].
  cbn [orb]. eexists. split; [done |]. cbn [with_raw raw_row_ rowkey_ row_desc_ cells_ cells_count_].
  assert (Hint : int16 (1 + i) = 1 + i) by (apply wraps_small; unfold MAX_COLUMNS_COUNT in *; lia).
  pose proof (wf_raw_count r Hwf).
  assert (Hcnt : (if cells_count_ (raw_row_ r) <=? i then int16 (1 + i) else cells_count_ (raw_row_ r))
    = Z.max (cells_count_ (raw_row_ r)) (i + 1)) by (rewrite Hint; cases; lia).
  conjs; [| done | done | done | done].
  split; cbn.
  - rewrite zset_length. apply Hwf.
  - rewrite Hcnt. lia.
  - apply Hwf.
Qed.

Lemma get_idx_bounds d table_id column_id :
  row_desc_ r = Some d ->
  get_idx d table_id column_id = OB_INVALID_INDEX \/ 0 <= get_idx d table_id column_id < row_column_num r.
Proof.
  intros Ed. pose proof (wf_desc r Hwf d Ed) as Hd. unfold row_column_num. rewrite Ed.
  destruct (decide (mkDesc table_id column_id ∈ columns d)) as [Hin | Hno].
  - unfold get_idx. apply list_elem_of_lookup_1 in Hin as [i Hi].
    destruct (column_stored d Hd _ i Hi) as (p & Hp & Hv).
    unfold hash_find. rewrite (find_stored _ _ p) by (try done; apply Hd). rewrite Hv.
    destruct (_ && _); [| by left]. unfold get_column_num. cases; [right; lia | by left].
  - left. by apply get_idx_absent.
Qed.
End Laws.

(** Setting cell [i] of a row changes the cell list at [i] only. *)
Lemma row_cells_set r r' i cell :
  row_wf r -> row_wf r' -> row_desc_ r' = row_desc_ r -> 0 <= i < row_column_num r ->
  cells_ (raw_row_ r') = zset (cells_ (raw_row_ r)) i cell ->
  row_cells r' = <[Z.to_nat i := cell]> (row_cells r).
Proof.
  intros Hr Hr' Hd Hi Hc. unfold row_cells, row_column_num. rewrite Hd. fold (row_column_num r).
  rewrite Hc. unfold zset. rewrite take_insert_lt by lia. done.
Qed.

(** The position of a column, if it has one. *)
Definition column_position (d : ObRowDesc) (table_id column_id : Z) : option Z :=
  let i := get_idx d table_id column_id in if i =? OB_INVALID_INDEX then None else Some i.

Lemma get_cell_position r d table_id column_id :
  row_wf r -> row_desc_ r = Some d ->
  get_cell r table_id column_id =
  match column_position d table_id column_id with
  | Some i => raw_get_cell r i
  | None => (OB_INVALID_ARGUMENT, None)
  end.
Proof.
  intros Hwf Hd. unfold get_cell, column_position, raw_get_cell. rewrite Hd.
  destruct (get_idx_bounds r Hwf d table_id column_id Hd) as [-> | Hi]; [done |].
  destruct (Z.eqb_spec (get_idx d table_id column_id) OB_INVALID_INDEX); [done |].
  destruct (Z.leb_spec (row_column_num r) (get_idx d table_id column_id)); [lia | done].
Qed.

Lemma set_cell_position r d table_id column_id cell :
  row_wf r -> row_desc_ r = Some d ->
  set_cell r table_id column_id cell =
  match column_position d table_id column_id with
  | Some i => Some (raw_set_cell r i cell)
  | None => Some (OB_INVALID_ARGUMENT, r)
  end.
Proof.
  intros Hwf Hd. unfold set_cell, column_position, raw_set_cell. rewrite Hd.
  destruct (get_idx_bounds r Hwf d table_id column_id Hd) as [-> | Hi]; [done |].
  destruct (Z.eqb_spec (get_idx d table_id column_id) OB_INVALID_INDEX); [done |].
  destruct (Z.leb_spec (row_column_num r) (get_idx d table_id column_id)); [lia |].
  by destruct (raw_row_set_cell _ _ _).
Qed.

Lemma raw_set_cell_out r i cell :
  row_wf r -> row_desc_ r <> None -> ~ 0 <= i < row_column_num r ->
  raw_set_cell r i cell = (OB_INVALID_ARGUMENT, r).
Proof.
  intros Hwf Hd Hi. unfold raw_set_cell, raw_row_set_cell. destruct (row_desc_ r) eqn:E; [| done].
  destruct (Z.leb_spec (row_column_num r) i); [done |]. destruct (Z.ltb_spec i 0); [| lia].
  cbn. unfold with_raw. by destruct r.
Qed.

(** What the reset loop has left in the cells from [i] on. *)
Definition reset_cell (flag_column_idx : Z) (v : ObObj) (i : Z) : ObObj :=
  if negb (i =? flag_column_idx) then v else set_ext ObObj_new OP_ROW_DOES_NOT_EXIST.

Lemma reset_loop_spec k r i flag v :
  row_wf r -> 0 <= i -> i + Z.of_nat k = row_column_num r ->
  exists r', reset_loop k r i flag v = (OB_SUCCESS, r') /\ row_wf r' /\
    rowkey_ r' = rowkey_ r /\ row_desc_ r' = row_desc_ r /\
    forall j, 0 <= j < row_column_num r ->
      raw_cell r' j = if i <=? j then reset_cell flag v j else raw_cell r j.
Proof.
  revert r i. induction k as [| k IH]; intros r i Hwf Hi Hk.
  - exists r. conjs; try done. intros j Hj. destruct (Z.leb_spec i j); [lia | done].
  - cbn [reset_loop]. fold (reset_cell flag v i).
    destruct (raw_set_cell_spec r Hwf i (reset_cell flag v i)) as (r1 & -> & Hw1 & Hk1 & Hd1 & Hc1 & _);
      [lia |].
    change (negb (OB_SUCCESS =? OB_SUCCESS)) with false. cbn iota.
    assert (Hn1 : row_column_num r1 = row_column_num r) by (unfold row_column_num; by rewrite Hd1).
    destruct (IH r1 (i + 1)) as (r' & -> & Hw' & Hk' & Hd' & Hc'); [done | lia | lia |].
    exists r'. conjs; [done | done | congruence | congruence |].
    intros j Hj. rewrite Hc' by lia. unfold raw_cell at 1. rewrite Hc1. pose proof (wf_raw r Hwf).
    pose proof (row_column_num_range r Hwf). unfold MAX_COLUMNS_COUNT in *.
    destruct (Z.eq_dec i j) as [-> | Hne].
    + rewrite zget_zset_eq by lia. destruct (Z.leb_spec (j + 1) j), (Z.leb_spec j j); try lia. done.
    + rewrite zget_zset_ne by lia. destruct (Z.leb_spec (i + 1) j), (Z.leb_spec i j); try lia; done.
Qed.

(** A fresh row with the given description. *)
Definition row_of_desc (d : ObRowDesc) : ObRow := set_row_desc ObRow_new d.

Lemma row_new_wf : row_wf ObRow_new.
Proof. split; cbn; [by rewrite length_replicate | unfold MAX_COLUMNS_COUNT; lia | done]. Qed.

Lemma set_row_desc_wf r d : row_wf r -> rowdesc_wf d -> row_wf (set_row_desc r d).
Proof. intros [H1 H2 _] Hd. split; cbn; [done | done |]. by intros ? [= <-]. Qed.

Lemma row_of_desc_wf d : rowdesc_wf d -> row_wf (row_of_desc d).
Proof.
  intros Hd. split; cbn; [by rewrite length_replicate | unfold MAX_COLUMNS_COUNT; lia |].
  by intros ? [= <-].
Qed.

(** ** Theorems *)

(** A row with a description of [n] columns is an array of [n] cells:
    [raw_get_cell] and [raw_set_cell] read and write it at an index, with
    [OB_INVALID_ARGUMENT] and no change outside it; [get_cell] and [set_cell]
    do so at the column's position, [OB_INVALID_ARGUMENT] for a column the
    description does not have; writes keep the row well formed. *)
Theorem row_is_array (r : ObRow) (d : ObRowDesc) (table_id column_id i : Z) (cell : ObObj)
    (Hwf : row_wf r) (Hd : row_desc_ r = Some d) :
  length (row_cells r) = length (columns d) /\
  raw_get_cell r i =
    match (if i <? 0 then None else row_cells r !! Z.to_nat i) with
    | Some c => (OB_SUCCESS, Some c)
    | None => (OB_INVALID_ARGUMENT, None)
    end /\
  (0 <= i < get_column_num d ->
     exists r', raw_set_cell r i cell = (OB_SUCCESS, r') /\ row_wf r' /\
       row_desc_ r' = Some d /\ row_cells r' = <[Z.to_nat i := cell]> (row_cells r)) /\
  (~ 0 <= i < get_column_num d -> raw_set_cell r i cell = (OB_INVALID_ARGUMENT, r)) /\
  match column_position d table_id column_id with
  | Some j => 0 <= j < get_column_num d /\
      get_cell r table_id column_id = raw_get_cell r j /\
      set_cell r table_id column_id cell = Some (raw_set_cell r j cell)
  | None =>
      get_cell r table_id column_id = (OB_INVALID_ARGUMENT, None) /\
      set_cell r table_id column_id cell = Some (OB_INVALID_ARGUMENT, r)
  end.
Proof.
  pose proof (wf_desc r Hwf d Hd) as Hdw.
  assert (Hn : row_column_num r = get_column_num d) by (unfold row_column_num; by rewrite Hd).
  conjs.
  - pose proof (row_cells_length r Hwf). pose proof (columns_length d Hdw).
    unfold get_column_num in Hn. lia.
  - by apply raw_get_cell_spec.
  - intros Hi. destruct (raw_set_cell_spec r Hwf i cell) as (r' & E & Hw & _ & Hd' & Hc & _); [lia |].
    exists r'. conjs; [done | done | congruence |]. apply row_cells_set; [done | done | done | lia | done].
  - intros Hi. apply raw_set_cell_out; [done | congruence | lia].
  - pose proof (get_cell_position r d table_id column_id Hwf Hd) as Hg.
    pose proof (set_cell_position r d table_id column_id cell Hwf Hd) as Hs.
    destruct (column_position d table_id column_id) as [j |] eqn:E; [| done].
    unfold column_position in E.
    destruct (get_idx_bounds r Hwf d table_id column_id Hd) as [E1 | E1].
    + by rewrite E1 in E.
    + destruct (_ =? _); simplify_eq. split; [lia | done].
Qed.

Lemma two_columns_wf : rowdesc_wf (rowdesc_of [mkDesc 1 16; mkDesc 1 17]).
Proof.
  apply (rowdesc_of_spec [mkDesc 1 16; mkDesc 1 17]); [| vm_compute; congruence].
  apply (bool_decide_unpack _). vm_compute. exact I.
Qed.

Lemma row_is_array_witness :
  get_cell (row_of_desc (rowdesc_of [mkDesc 1 16; mkDesc 1 17])) 1 17
  = raw_get_cell (row_of_desc (rowdesc_of [mkDesc 1 16; mkDesc 1 17])) 1.
Proof.
  pose proof (row_is_array _ _ 1 17 0 ObObj_new (row_of_desc_wf _ two_columns_wf) eq_refl)
    as (_ & _ & _ & _ & H).
  assert (E : column_position (rowdesc_of [mkDesc 1 16; mkDesc 1 17]) 1 17 = Some 1)
    by (vm_compute; reflexivity).
  rewrite E in H. apply H.
Defined.

(** [reset(false, v)] gives every column the default value, null or the
    no-operation flag, except the action flag column, which says that the row
    does not exist; [get_is_row_empty] then answers whether the description has
    an action flag column. *)
Theorem row_reset_empties (r : ObRow) (d : ObRowDesc) (v : DefaultValue)
    (Hwf : row_wf r) (Hd : row_desc_ r = Some d) :
  exists r', row_reset r false v = (OB_SUCCESS, r') /\ row_wf r' /\ row_desc_ r' = Some d /\
    let flag := get_idx d OB_INVALID_ID OB_ACTION_FLAG_COLUMN_ID in
    (forall i, 0 <= i < get_column_num d ->
       raw_get_cell r' i =
       (OB_SUCCESS, Some (if i =? flag then set_ext ObObj_new OP_ROW_DOES_NOT_EXIST else default_obj v))) /\
    get_is_row_empty r' = (OB_SUCCESS, Some (negb (flag =? OB_INVALID_INDEX))).
Proof.
  assert (Hn : row_column_num r = get_column_num d) by (unfold row_column_num; by rewrite Hd).
  set (r0 := with_raw r (raw_row_clear (raw_row_ r))).
  assert (Hw0 : row_wf r0).
  { split; cbn; [apply Hwf | unfold MAX_COLUMNS_COUNT; lia | apply Hwf]. }
  pose proof (wf_count d (wf_desc r Hwf d Hd)) as Hcnt.
  destruct (reset_loop_spec (Z.to_nat (get_column_num d)) r0 0
    (get_idx d OB_INVALID_ID OB_ACTION_FLAG_COLUMN_ID) (default_obj v) Hw0)
    as (r' & E & Hw' & _ & Hd' & Hc'); [lia | unfold r0, row_column_num; cbn; rewrite Hd; unfold get_column_num; lia |].
  change (row_column_num r0) with (row_column_num r) in Hc'. rewrite Hn in Hc'.
  exists r'. unfold row_reset. rewrite Hd. rewrite Z.sub_0_r. fold r0.
  assert (Hdr : row_desc_ r' = Some d) by (rewrite Hd'; done).
  assert (Hcell : forall i, 0 <= i < get_column_num d -> raw_get_cell r' i =
    (OB_SUCCESS, Some (reset_cell (get_idx d OB_INVALID_ID OB_ACTION_FLAG_COLUMN_ID) (default_obj v) i))).
  { intros i Hi. rewrite raw_get_cell_spec by done. rewrite row_cells_lookup by done.
    destruct (Z.ltb_spec i 0); [lia |]. rewrite Z2Nat.id by lia.
    unfold row_column_num. rewrite Hdr. destruct (Z.ltb_spec i (get_column_num d)); [| lia].
    rewrite Hc' by lia. destruct (Z.leb_spec 0 i); [done | lia]. }
  conjs; [done | done | done | |].
  - intros i Hi. rewrite Hcell by done. unfold reset_cell. by destruct (i =? _).
  - unfold get_is_row_empty. rewrite Hdr, (get_cell_position r' d) by done. unfold column_position.
    destruct (get_idx_bounds r' Hw' d OB_INVALID_ID OB_ACTION_FLAG_COLUMN_ID Hdr) as [-> | Hi]; [done |].
    unfold row_column_num in Hi. rewrite Hdr in Hi.
    destruct (Z.eqb_spec (get_idx d OB_INVALID_ID OB_ACTION_FLAG_COLUMN_ID) OB_INVALID_INDEX) as [E' | _];
      [rewrite E' in Hi; unfold OB_INVALID_INDEX in Hi; lia |].
    rewrite Hcell by done. unfold reset_cell. by rewrite Z.eqb_refl.
Qed.

Lemma row_reset_empties_witness :
  (row_reset (row_of_desc (rowdesc_of [mkDesc 1 16; mkDesc 1 17])) false DEFAULT_NOP).1 = OB_SUCCESS.
Proof.
  destruct (row_reset_empties _ _ DEFAULT_NOP (row_of_desc_wf _ two_columns_wf) eq_refl)
    as (r' & E & _).
  by rewrite E.
Defined.

Lemma raw_row_assign_spec r other j :
  length (cells_ r) = Z.to_nat MAX_COLUMNS_COUNT -> 0 <= cells_count_ other <= MAX_COLUMNS_COUNT -> 0 <= j ->
  zget ObObj_new (cells_ (raw_row_assign r other)) j =
  if j <? cells_count_ other then zget ObObj_new (cells_ other) j else zget ObObj_new (cells_ r) j.
Proof.
  intros Hlen Hc Hj. unfold raw_row_assign; cbn [cells_].
  rewrite (zget_fold_zset (fun _ i => zget ObObj_new (cells_ other) i)); [| apply NoDup_seqZ | | done].
  - destruct (decide (j ∈ seqZ 0 (cells_count_ other))) as [H | H]; rewrite elem_of_seqZ in H; cases; lia || done.
  - apply Forall_forall. intros i Hi. apply elem_of_seqZ in Hi. unfold MAX_COLUMNS_COUNT in *. lia.
Qed.

(** copying a row copies its cells and its description when all its columns
    have been set ([cells_count_] counts up to the last one set); the copy does
    not take over the rowkey: the copy of a row whose description has a rowkey
    answers [get_rowkey] with success and the target's own rowkey, which is empty
    in a fresh row. *)
Theorem row_copy (r other : ObRow) (d : ObRowDesc) (Hr : row_wf r) (Ho : row_wf other)
    (Hd : row_desc_ other = Some d) (Hset : cells_count_ (raw_row_ other) = get_column_num d)
    (Hk : 0 < rowkey_cell_count_ d) :
  row_wf (row_assign r other) /\ row_desc_ (row_assign r other) = Some d /\
  row_cells (row_assign r other) = row_cells other /\
  get_rowkey (row_assign ObRow_new other) = (OB_SUCCESS, Some []).
Proof.
  pose proof (wf_raw_count other Ho) as Hc.
  assert (Hw : row_wf (row_assign r other)).
  { split; cbn; [| done | apply Ho]. unfold raw_row_assign; cbn [cells_].
    rewrite (fold_zset_length (fun _ i => zget ObObj_new (cells_ (raw_row_ other)) i) ObObj_new). apply Hr. }
  conjs; [done | done | |].
  - apply list_eq. intros i. rewrite !row_cells_lookup by done.
    unfold row_column_num; cbn [row_assign row_desc_]. rewrite Hd.
    destruct (Z.ltb_spec (Z.of_nat i) (get_column_num d)); [| done]. f_equal.
    unfold raw_cell; cbn [row_assign raw_row_]. rewrite raw_row_assign_spec by (try lia; apply Hr).
    destruct (Z.ltb_spec (Z.of_nat i) (cells_count_ (raw_row_ other))); [done | lia].
  - unfold get_rowkey; cbn [row_assign row_desc_ rowkey_ ObRow_new]. rewrite Hd.
    destruct (Z.leb_spec (rowkey_cell_count_ d) 0); [lia | done].
Qed.

Lemma row_copy_witness :
  let d := set_rowkey_cell_count (rowdesc_of [mkDesc 1 16; mkDesc 1 17]) 1 in
  let other := (row_reset (row_of_desc d) false DEFAULT_NULL).2 in
  row_cells (row_assign ObRow_new other) = row_cells other.
Proof.
  intros d other.
  assert (Hd : rowdesc_wf d) by (destruct two_columns_wf; by split).
  pose proof row_new_wf as Hnew.
  assert (Hother : row_wf other /\ row_desc_ other = Some d).
  { destruct (reset_loop_spec 2 (row_of_desc d) 0 (-1) (set_null ObObj_new) (row_of_desc_wf d Hd))
      as (r' & E & Hw & _ & Hd' & _); [lia | by vm_compute |].
    replace other with r'; [done |]. unfold other.
    replace (row_reset (row_of_desc d) false DEFAULT_NULL)
      with (reset_loop 2 (row_of_desc d) 0 (-1) (set_null ObObj_new)) by (vm_compute; reflexivity).
    by rewrite E. }
  apply (row_copy ObRow_new other d Hnew (proj1 Hother) (proj2 Hother));
    [vm_compute; reflexivity | vm_compute; reflexivity].
Defined.
