(* ===== verification/ObBuffer.v ===== *)
(** * Buffer reader and writer

    [src/oceanbase/src/common/ob_buffer_helper.h]: [ObBufferReader] and
    [ObBufferWriter] move a position over a byte buffer.  A buffer is the list of
    the bytes behind the pointer, [None] the null pointer; a value is stored as
    the machine stores it, least significant byte first.  [None] as a result is
    an access outside the memory behind the pointer. *)

From S2P Require Import Prelude.
Local Open Scope Z_scope.

(** ** Values as bytes *)

Fixpoint to_bytes (n : nat) (z : Z) : list Z :=
  match n with O => [] | S n' => z mod 256 :: to_bytes n' (z / 256) end.

Fixpoint of_bytes (bs : list Z) : Z :=
  match bs with [] => 0 | b :: bs' => b + 256 * of_bytes bs' end.

Definition is_byte (b : Z) : Prop := 0 <= b < 256.

Lemma to_bytes_length n z : length (to_bytes n z) = n.
Proof. revert z. induction n as [| n IH]; intros z; simpl; [done | by rewrite IH]. Qed.

Lemma to_bytes_byte n z : Forall is_byte (to_bytes n z).
Proof.
  revert z. induction n as [| n IH]; intros z; simpl; constructor; [| apply IH].
  apply Z.mod_pos_bound. lia.
Qed.

(** Storing in [n] bytes and loading gives the value modulo [2 ^ (8 n)]. *)
Lemma of_to_bytes n z : of_bytes (to_bytes n z) = wrapu (8 * Z.of_nat n) z.
Proof.
  unfold wrapu. revert z. induction n as [| n IH]; intros z.
  - simpl. by rewrite Z.mod_1_r.
  - cbn [to_bytes of_bytes]. rewrite IH.
    replace (2 ^ (8 * Z.of_nat (S n))) with (256 * 2 ^ (8 * Z.of_nat n)).
    + rewrite Z.rem_mul_r; [done | lia | apply Z.pow_pos_nonneg; lia].
    + change 256 with (2 ^ 8). rewrite <- Z.pow_add_r by lia. f_equal. lia.
Qed.

Lemma of_to_bytes_unsigned n z :
  0 <= z < 2 ^ (8 * Z.of_nat n) -> of_bytes (to_bytes n z) = z.
Proof. intros Hz. rewrite of_to_bytes. by apply wrapu_small. Qed.

Lemma of_to_bytes_signed n z :
  (0 < n)%nat -> - 2 ^ (8 * Z.of_nat n - 1) <= z < 2 ^ (8 * Z.of_nat n - 1) ->
  wraps (8 * Z.of_nat n) (of_bytes (to_bytes n z)) = z.
Proof. intros Hn Hz. rewrite of_to_bytes. apply wraps_wrapu; [lia | done]. Qed.

(** ** The reader *)

Definition INVALID_BUF_SIZE : Z := -1024.

Record ObBufferReader := mkReader { r_buf_ : option (list Z); r_pos_ : Z; r_buf_size_ : Z }.

Definition reader_assign (r : ObBufferReader) (buf : option (list Z)) (buf_size : Z)
    : Z * ObBufferReader :=
  match buf with
  | None => (OB_INVALID_ARGUMENT, r)
  | Some _ => (OB_SUCCESS, mkReader buf 0 buf_size)
  end.

(** [n] bytes at [pos], if the buffer has them. *)
Definition bytes_at (buf : list Z) (pos n : Z) : option (list Z) :=
  if (0 <=? pos) && (0 <=? n) && (pos + n <=? Z.of_nat (length buf)) then
    Some (take (Z.to_nat n) (drop (Z.to_nat pos) buf))
  else None.

Definition skip (r : ObBufferReader) (step : Z) : ObBufferReader :=
  mkReader (r_buf_ r) (r_pos_ r + step) (r_buf_size_ r).

(** [get<T>] with [sizeof(T) = n]: the code, the bytes of the value read and the
    reader after it. *)
Definition reader_get (n : Z) (r : ObBufferReader) : option (Z * list Z * ObBufferReader) :=
  match r_buf_ r with
  | None => Some (OB_NOT_INIT, [], r)
  | Some buf =>
      let sized := negb (r_buf_size_ r =? INVALID_BUF_SIZE) in
      if sized && (r_pos_ r =? r_buf_size_ r) then Some (OB_ITER_END, [], r)
      else if sized && (r_buf_size_ r <? r_pos_ r + n) then Some (OB_BUF_NOT_ENOUGH, [], r)
      else bs ← bytes_at buf (r_pos_ r) n ; Some (OB_SUCCESS, bs, skip r n)
  end.

(** ** The writer *)

Record ObBufferWriter := mkWriter { w_buf_ : option (list Z); w_pos_ : Z; w_buf_size_ : Z }.

Definition writer_assign (w : ObBufferWriter) (buf : option (list Z)) (buf_size : Z)
    : Z * ObBufferWriter :=
  match buf with
  | None => (OB_INVALID_ARGUMENT, w)
  | Some _ => (OB_SUCCESS, mkWriter buf 0 buf_size)
  end.

(** The buffer with [bs] stored at [pos], if it has the room. *)
Definition store_at (buf : list Z) (pos : Z) (bs : list Z) : option (list Z) :=
  if (0 <=? pos) && (pos + Z.of_nat (length bs) <=? Z.of_nat (length buf)) then
    Some (take (Z.to_nat pos) buf ++ bs ++ drop (Z.to_nat pos + length bs) buf)
  else None.

(** [write<T>] and [write_varchar], with the bytes of the value. *)
Definition write (bs : list Z) (w : ObBufferWriter) : option (Z * ObBufferWriter) :=
  match w_buf_ w with
  | None => Some (OB_NOT_INIT, w)
  | Some buf =>
      if negb (w_buf_size_ w =? INVALID_BUF_SIZE) && (w_buf_size_ w <? w_pos_ w + Z.of_nat (length bs))
      then Some (OB_BUF_NOT_ENOUGH, w)
      else buf' ← store_at buf (w_pos_ w) bs ;
           Some (OB_SUCCESS, mkWriter (Some buf') (w_pos_ w + Z.of_nat (length bs)) (w_buf_size_ w))
  end.

Definition revert (step : Z) (w : ObBufferWriter) : Z * ObBufferWriter :=
  if w_pos_ w <? step then (OB_BUF_NOT_ENOUGH, w)
  else (OB_SUCCESS, mkWriter (w_buf_ w) (w_pos_ w - step) (w_buf_size_ w)).

(** A step that writes: its code and the writer it leaves.  [andthen] goes on
    only after success, as the code's [if (OB_SUCCESS == ret)]. *)
Definition Writing := ObBufferWriter -> option (Z * ObBufferWriter).

Definition finish (ret : Z) : Writing := fun w => Some (ret, w).

Definition andthen (c1 c2 : Writing) : Writing := fun w =>
  '(ret, w) ← c1 w ; if ret =? OB_SUCCESS then c2 w else Some (ret, w).

Declare Scope writing_scope.
Delimit Scope writing_scope with writing.
Notation "c1 ;;; c2" := (andthen c1 c2) (at level 100, right associativity) : writing_scope.

(** ** Laws of the writer *)

(** A writer on a buffer of the size it was told. *)
Record writer_wf (w : ObBufferWriter) (buf : list Z) : Prop := {
  wf_w_buf : w_buf_ w = Some buf;
  wf_w_size : w_buf_size_ w = Z.of_nat (length buf);
  wf_w_pos : 0 <= w_pos_ w <= Z.of_nat (length buf)
}.

(** What has been written. *)
Definition written (w : ObBufferWriter) (buf : list Z) : list Z := take (Z.to_nat (w_pos_ w)) buf.

(** [c] writes [bs], all of it, or fails with a code of [bad]; it fails only
    when there is no room. *)
Definition emits (bad : Z -> Prop) (c : Writing) (bs : list Z) : Prop := forall w buf,
  writer_wf w buf ->
  exists ret w' buf', c w = Some (ret, w') /\ writer_wf w' buf' /\ length buf' = length buf /\
    if w_pos_ w + Z.of_nat (length bs) <=? Z.of_nat (length buf)
    then ret = OB_SUCCESS /\ w_pos_ w' = w_pos_ w + Z.of_nat (length bs) /\
         written w' buf' = written w buf ++ bs
    else bad ret.

(** The writer's own code for a buffer that is too small. *)
Definition writes : Writing -> list Z -> Prop := emits (fun ret => ret = OB_BUF_NOT_ENOUGH).

Lemma writes_write bs : writes (write bs) bs.
Proof.
  intros w buf Hw. destruct Hw as [Hb Hs Hp]. unfold write. rewrite Hb, Hs.
  assert (Hsz : negb (Z.of_nat (length buf) =? INVALID_BUF_SIZE) = true).
  { unfold INVALID_BUF_SIZE. destruct (Z.eqb_spec (Z.of_nat (length buf)) (-1024)); [lia | done]. }
  rewrite Hsz. cbn [andb].
  destruct (Z.ltb_spec (Z.of_nat (length buf)) (w_pos_ w + Z.of_nat (length bs))) as [Hlt | Hge].
  - exists OB_BUF_NOT_ENOUGH, w, buf. conjs; [done | by split | done |].
    destruct (Z.leb_spec (w_pos_ w + Z.of_nat (length bs)) (Z.of_nat (length buf))); [lia | done].
  - unfold store_at. rewrite (proj2 (Z.leb_le 0 (w_pos_ w))) by lia.
    rewrite (proj2 (Z.leb_le _ _) Hge). cbn [andb]. rewrite bind_some.
    set (buf' := take (Z.to_nat (w_pos_ w)) buf ++ bs ++ drop (Z.to_nat (w_pos_ w) + length bs) buf).
    assert (Hlen : length buf' = length buf)
      by (unfold buf'; rewrite !length_app, length_take, length_drop; lia).
    eexists _, _, buf'. split; [done |]. conjs; [| done | done | done |].
    + split; cbn; [done | lia | lia].
    + unfold written; cbn [w_pos_]. unfold buf'. rewrite app_assoc.
      rewrite take_app_length'; [done |]. rewrite length_app, length_take. lia.
Qed.

Lemma emits_ext bad c c' bs : (forall w, c' w = c w) -> emits bad c bs -> emits bad c' bs.
Proof. intros E H w buf. rewrite E. apply H. Qed.

Lemma emits_finish bad : emits bad (finish OB_SUCCESS) [].
Proof.
  intros w buf Hw. exists OB_SUCCESS, w, buf. conjs; [done | done | done |].
  destruct (Z.leb_spec (w_pos_ w + Z.of_nat (length ([] : list Z))) (Z.of_nat (length buf))) as [_ | H].
  - conjs; [done | cbn; lia | by rewrite app_nil_r].
  - destruct Hw as [_ _ Hp]. cbn in H. lia.
Qed.

Lemma emits_andthen bad c1 c2 bs1 bs2 :
  ~ bad OB_SUCCESS ->
  emits bad c1 bs1 -> emits bad c2 bs2 -> emits bad (andthen c1 c2) (bs1 ++ bs2).
Proof.
  intros Hbad H1 H2 w buf Hw. unfold andthen. rewrite length_app, Nat2Z.inj_add.
  destruct (H1 w buf Hw) as (ret1 & w1 & buf1 & -> & Hw1 & Hl1 & R1). rewrite bind_some.
  destruct (Z.leb_spec (w_pos_ w + Z.of_nat (length bs1)) (Z.of_nat (length buf))) as [L1 | L1].
  - destruct R1 as (-> & Hp1 & Hc1). change (OB_SUCCESS =? OB_SUCCESS) with true. cbn iota.
    destruct (H2 w1 buf1 Hw1) as (ret2 & w2 & buf2 & -> & Hw2 & Hl2 & R2).
    exists ret2, w2, buf2. conjs; [done | done | congruence |].
    rewrite Hp1, Hl1, <- Z.add_assoc in R2.
    destruct (_ <=? _); [| done]. destruct R2 as (-> & Hp2 & Hc2).
    conjs; [done | lia |]. by rewrite Hc2, Hc1, app_assoc.
  - destruct (Z.eqb_spec ret1 OB_SUCCESS) as [-> | _]; [done |].
    exists ret1, w1, buf1. conjs; [done | done | done |].
    destruct (Z.leb_spec (w_pos_ w + (Z.of_nat (length bs1) + Z.of_nat (length bs2))) (Z.of_nat (length buf)));
      [lia | done].
Qed.

Lemma writes_finish : writes (finish OB_SUCCESS) [].
Proof. apply emits_finish. Qed.

Lemma writes_andthen c1 c2 bs1 bs2 :
  writes c1 bs1 -> writes c2 bs2 -> writes (andthen c1 c2) (bs1 ++ bs2).
Proof. by apply emits_andthen. Qed.

Create HintDb writing.
#[export] Hint Resolve writes_write writes_finish writes_andthen : writing.

(** ** Laws of the reader *)

(** A reader on a sized buffer whose unread part is [bs]. *)
Record unread (r : ObBufferReader) (buf bs : list Z) : Prop := {
  un_buf : r_buf_ r = Some buf;
  un_size : r_buf_size_ r = Z.of_nat (length buf);
  un_pos : 0 <= r_pos_ r <= Z.of_nat (length buf);
  un_rest : drop (Z.to_nat (r_pos_ r)) buf = bs
}.

Lemma unread_skip r buf bs rest :
  unread r buf (bs ++ rest) -> unread (skip r (Z.of_nat (length bs))) buf rest.
Proof.
  intros [Hb Hs Hp Hr]. assert (Hl : (length bs + length rest = length buf - Z.to_nat (r_pos_ r))%nat).
  { rewrite <- length_app, <- Hr, length_drop. done. }
  split; cbn; [done | done | lia |].
  rewrite Z2Nat.inj_add, Nat2Z.id by lia. rewrite <- drop_drop, Hr. apply drop_app_length.
Qed.

Lemma bytes_at_unread r buf bs rest :
  unread r buf (bs ++ rest) -> bytes_at buf (r_pos_ r) (Z.of_nat (length bs)) = Some bs.
Proof.
  intros Hu. destruct (unread_skip r buf bs rest Hu) as [_ _ Hp' _].
  destruct Hu as [_ _ Hp Hr]. unfold bytes_at; cbn in Hp'.
  rewrite (proj2 (Z.leb_le 0 (r_pos_ r))), (proj2 (Z.leb_le 0 (Z.of_nat (length bs)))) by lia.
  rewrite (proj2 (Z.leb_le _ (Z.of_nat (length buf)))) by lia. cbn [andb].
  by rewrite Hr, Nat2Z.id, take_app_length.
Qed.

Lemma reader_get_unread r buf bs rest n :
  unread r buf (bs ++ rest) -> n = Z.of_nat (length bs) -> bs <> [] ->
  exists r', reader_get n r = Some (OB_SUCCESS, bs, r') /\ unread r' buf rest.
Proof.
  intros Hu -> Hne. exists (skip r (Z.of_nat (length bs))). split; [| by eapply unread_skip].
  assert (0 < length bs)%nat by (destruct bs; simpl; [done | lia]).
  destruct (unread_skip r buf bs rest Hu) as [_ _ Hp' _]. cbn in Hp'.
  unfold reader_get. rewrite (un_buf r buf _ Hu), (un_size r buf _ Hu).
  destruct (Z.eqb_spec (r_pos_ r) (Z.of_nat (length buf))); [lia |].
  destruct (Z.ltb_spec (Z.of_nat (length buf)) (r_pos_ r + Z.of_nat (length bs))); [lia |].
  rewrite !andb_false_r. by rewrite (bytes_at_unread r buf bs rest Hu).
Qed.
