(* ===== verification/Serialization.v ===== *)
(** * Serialization: the wire format of integers, strings and typed values

    Models [common/serialization.h]: every [encode_*], [decode_*] and
    [encoded_length_*] function.  The arguments [buf, buf_len, pos] of an
    encoder are an [ObBufferWriter], those of a decoder ([buf, data_len, pos])
    an [ObBufferReader]; a byte of the buffer is a [Z] below 256, an [int8_t] a
    signed one.  [None] is an access outside of the buffer, or a shift by the
    width of the type or more. *)

From S2P Require Import Prelude ObBuffer.
Local Open Scope Z_scope.

(** Constants of [common/serialization.h]. *)
Abbreviation OB_MAX_V1B := (Z.shiftl 1 7 - 1) (only parsing).
Abbreviation OB_MAX_V2B := (Z.shiftl 1 14 - 1) (only parsing).
Abbreviation OB_MAX_V3B := (Z.shiftl 1 21 - 1) (only parsing).
Abbreviation OB_MAX_V4B := (Z.shiftl 1 28 - 1) (only parsing).
Abbreviation OB_MAX_V5B := (Z.shiftl 1 35 - 1) (only parsing).
Abbreviation OB_MAX_V6B := (Z.shiftl 1 42 - 1) (only parsing).
Abbreviation OB_MAX_V7B := (Z.shiftl 1 49 - 1) (only parsing).
Abbreviation OB_MAX_V8B := (Z.shiftl 1 56 - 1) (only parsing).
Abbreviation OB_MAX_V9B := (Z.shiftl 1 63 - 1) (only parsing).

Abbreviation OB_MAX_4B := (Z.shiftl 1 32 - 1) (only parsing).
Abbreviation OB_MAX_6B := (Z.shiftl 1 48 - 1) (only parsing).

Abbreviation OB_MAX_INT_1B := (23) (only parsing).
Abbreviation OB_MAX_INT_2B := (Z.shiftl 1 8 - 1) (only parsing).
Abbreviation OB_MAX_INT_3B := (Z.shiftl 1 16 - 1) (only parsing).
Abbreviation OB_MAX_INT_4B := (Z.shiftl 1 24 - 1) (only parsing).
Abbreviation OB_MAX_INT_5B := (Z.shiftl 1 32 - 1) (only parsing).
Abbreviation OB_MAX_INT_7B := (Z.shiftl 1 48 - 1) (only parsing).

Abbreviation OB_MAX_1B_STR_LEN := (55) (only parsing).
Abbreviation OB_MAX_2B_STR_LEN := (Z.shiftl 1 8 - 1) (only parsing).
Abbreviation OB_MAX_3B_STR_LEN := (Z.shiftl 1 16 - 1) (only parsing).
Abbreviation OB_MAX_4B_STR_LEN := (Z.shiftl 1 24 - 1) (only parsing).
Abbreviation OB_MAX_5B_STR_LEN := (Z.shiftl 1 32 - 1) (only parsing).

Abbreviation OB_INT_OPERATION_BIT_POS := (6) (only parsing).
Abbreviation OB_INT_SIGN_BIT_POS := (5) (only parsing).
Abbreviation OB_DATETIME_OPERATION_BIT := (3) (only parsing).
Abbreviation OB_DATETIME_SIGN_BIT := (2) (only parsing).
Abbreviation OB_FLOAT_OPERATION_BIT_POS := (0) (only parsing).

Abbreviation OB_INT_VALUE_MASK := (0x1f) (only parsing).
Abbreviation OB_VARCHAR_LEN_MASK := (0x3f) (only parsing).
Abbreviation OB_DATETIME_LEN_MASK := (0x3) (only parsing).

Abbreviation OB_VARCHAR_TYPE := (int8 0x80) (only parsing).
Abbreviation OB_DATETIME_TYPE := (int8 0xd0) (only parsing).
Abbreviation OB_PRECISE_DATETIME_TYPE := (int8 0xe0) (only parsing).
Abbreviation OB_MODIFYTIME_TYPE := (int8 0xf0) (only parsing).
Abbreviation OB_CREATETIME_TYPE := (int8 0xf4) (only parsing).
Abbreviation OB_FLOAT_TYPE := (int8 0xf8) (only parsing).
Abbreviation OB_DOUBLE_TYPE := (int8 0xfa) (only parsing).
Abbreviation OB_NULL_TYPE := (int8 0xfc) (only parsing).
Abbreviation OB_BOOL_TYPE := (int8 0xfd) (only parsing).
Abbreviation OB_EXTEND_TYPE := (int8 0xfe) (only parsing).
Abbreviation OB_DECIMAL_TYPE := (int8 0xff) (only parsing).

Definition set_bit (v pos : Z) : Z := int8 (Z.lor v (Z.shiftl 1 pos)).
Definition clear_bit (v pos : Z) : Z := int8 (Z.land v (Z.lnot (Z.shiftl 1 pos))).
Definition test_bit (v pos : Z) : bool := negb (Z.land v (Z.shiftl 1 pos) =? 0).

(** ** Stores and loads *)

(** [static_cast<char> (z)], as the byte it leaves in the buffer. *)
Definition byte (z : Z) : Z := Z.land z 0xff.

(** [*(buf + pos++) = b] for each of [bs]. *)
Definition puts (bs : list Z) : Writing := fun w =>
  buf ← w_buf_ w ; buf' ← store_at buf (w_pos_ w) bs ;
  Some (OB_SUCCESS, mkWriter (Some buf') (w_pos_ w + Z.of_nat (length bs)) (w_buf_size_ w)).

(** [(NULL != buf) && ((buf_len - pos) >= n)] *)
Definition room (n : Z) (w : ObBufferWriter) : bool :=
  match w_buf_ w with None => false | Some _ => n <=? w_buf_size_ w - w_pos_ w end.

Definition guard (n : Z) (c : Writing) : Writing := fun w =>
  if room n w then c w else Some (OB_ERROR, w).

(** [tmp_pos] becomes [pos] only after success. *)
Definition commit (c : Writing) : Writing := fun w =>
  '(ret, w') ← c w ;
  Some (ret, if ret =? OB_SUCCESS then w' else mkWriter (w_buf_ w') (w_pos_ w) (w_buf_size_ w')).

(** Any failure as [code]. *)
Definition fail_as (code : Z) (c : Writing) : Writing := fun w =>
  '(ret, w') ← c w ; Some (if ret =? OB_SUCCESS then OB_SUCCESS else code, w').

(** A decoder: its code, the value and the position after it. *)
Definition Reading (A : Type) := ObBufferReader -> option (Z * A * ObBufferReader).

Definition rfail {A} (d : A) (code : Z) : Reading A := fun r => Some (code, d, r).
Definition rret {A} (a : A) : Reading A := fun r => Some (OB_SUCCESS, a, r).

Definition rthen {A B} (d : B) (c : Reading A) (k : A -> Reading B) : Reading B := fun r =>
  '(ret, a, r) ← c r ; if ret =? OB_SUCCESS then k a r else Some (ret, d, r).

(** [(NULL != buf) && (data_len - pos >= n)] *)
Definition remains (n : Z) (r : ObBufferReader) : bool :=
  match r_buf_ r with None => false | Some _ => n <=? r_buf_size_ r - r_pos_ r end.

Definition rguard {A} (d : A) (n : Z) (c : Reading A) : Reading A := fun r =>
  if remains n r then c r else Some (OB_ERROR, d, r).

(** [n] loads of [*(buf + pos++)]. *)
Definition loads (n : Z) : Reading (list Z) := fun r =>
  buf ← r_buf_ r ; bs ← bytes_at buf (r_pos_ r) n ; Some (OB_SUCCESS, bs, skip r n).

Definition rfail_as {A} (code : Z) (c : Reading A) : Reading A := fun r =>
  '(ret, a, r') ← c r ; Some (if ret =? OB_SUCCESS then OB_SUCCESS else code, a, r').

Definition rcommit {A} (c : Reading A) : Reading A := fun r =>
  '(ret, a, r') ← c r ; Some (ret, a, if ret =? OB_SUCCESS then r' else r).

(** ** Integers of a fixed width *)

Definition encoded_length_i8 : Z := 1.
Definition encoded_length_i16 : Z := 2.
Definition encoded_length_i32 : Z := 4.
Definition encoded_length_i64 : Z := 8.

Definition encode_i8 (val : Z) : Writing := guard 1 (puts [byte val]).

Definition decode_i8 : Reading Z :=
  rguard 0 1 (rthen 0 (loads 1) (fun bs => rret (int8 (zget 0 bs 0)))).

Definition encode_i16 (val : Z) : Writing :=
  guard 2 (puts [byte (Z.shiftr val 8); byte val]).

Definition decode_i16 : Reading Z :=
  rguard 0 2 (rthen 0 (loads 2) (fun bs =>
    let val := int16 (Z.shiftl (Z.land (zget 0 bs 0) 0xff) 8) in
    rret (int16 (Z.lor val (Z.land (zget 0 bs 1) 0xff))))).

Definition encode_i32 (val : Z) : Writing :=
  guard 4 (puts [byte (Z.shiftr val 24); byte (Z.shiftr val 16); byte (Z.shiftr val 8); byte val]).

Definition decode_i32 : Reading Z :=
  rguard 0 4 (rthen 0 (loads 4) (fun bs =>
    let val := int32 (Z.shiftl (Z.land (zget 0 bs 0) 0xff) 24) in
    let val := Z.lor val (Z.shiftl (Z.land (zget 0 bs 1) 0xff) 16) in
    let val := Z.lor val (Z.shiftl (Z.land (zget 0 bs 2) 0xff) 8) in
    rret (Z.lor val (Z.land (zget 0 bs 3) 0xff)))).

Definition encode_i64 (val : Z) : Writing :=
  guard 8 (puts
    [byte (Z.shiftr val 56); byte (Z.shiftr val 48); byte (Z.shiftr val 40);
     byte (Z.shiftr val 32); byte (Z.shiftr val 24); byte (Z.shiftr val 16);
     byte (Z.shiftr val 8); byte val]).

Definition decode_i64 : Reading Z :=
  rguard 0 8 (rthen 0 (loads 8) (fun bs =>
    let val := int64 (Z.shiftl (Z.land (zget 0 bs 0) 0xff) 56) in
    let val := Z.lor val (Z.shiftl (Z.land (zget 0 bs 1) 0xff) 48) in
    let val := Z.lor val (Z.shiftl (Z.land (zget 0 bs 2) 0xff) 40) in
    let val := Z.lor val (Z.shiftl (Z.land (zget 0 bs 3) 0xff) 32) in
    let val := Z.lor val (Z.shiftl (Z.land (zget 0 bs 4) 0xff) 24) in
    let val := Z.lor val (Z.shiftl (Z.land (zget 0 bs 5) 0xff) 16) in
    let val := Z.lor val (Z.shiftl (Z.land (zget 0 bs 6) 0xff) 8) in
    rret (Z.lor val (Z.land (zget 0 bs 7) 0xff)))).

Definition encoded_length_bool : Z := 1.

Definition encode_bool (val : bool) : Writing := guard 1 (puts [if val then 1 else 0]).

Definition decode_bool : Reading bool :=
  rthen false decode_i8 (fun v => rret (negb (v =? 0))).

(** ** Integers of variable length: seven bits a byte, the lowest first *)

Definition encoded_length_vi64 (val : Z) : Z :=
  let __v := u64 val in
  if __v <=? OB_MAX_V1B then 1
  else if __v <=? OB_MAX_V2B then 2
  else if __v <=? OB_MAX_V3B then 3
  else if __v <=? OB_MAX_V4B then 4
  else if __v <=? OB_MAX_V5B then 5
  else if __v <=? OB_MAX_V6B then 6
  else if __v <=? OB_MAX_V7B then 7
  else if __v <=? OB_MAX_V8B then 8
  else if __v <=? OB_MAX_V9B then 9
  else 10.

(** [while (__v > OB_MAX_V1B) { *(buf + pos++) = __v | 0x80; __v >>= 7; }] and
    the last byte.  A 64-bit value takes at most nine turns. *)
Fixpoint vi_loop (fuel : nat) (__v : Z) : Writing :=
  if OB_MAX_V1B <? __v then
    match fuel with
    | O => fun _ => None
    | S fuel => (puts [byte (Z.lor __v 0x80)] ;;; vi_loop fuel (Z.shiftr __v 7))%writing
    end
  else puts [byte (Z.land __v 0x7f)].

Definition encode_vi64 (val : Z) : Writing :=
  let __v := u64 val in guard (encoded_length_vi64 __v) (vi_loop 9 __v).

(** The loop of [decode_vi64] and [decode_vi32] over the bytes from [tmp_pos]
    on, in an unsigned type of [width] bits; [avail] is [data_len - tmp_pos] and
    [n] the bytes taken so far.  Each turn looks at its byte before it compares
    the position with [data_len]. *)
Fixpoint decode_vi_loop (width : Z) (bs : list Z) (avail __v shift n : Z)
    : option (Z * Z * Z) :=
  match bs with
  | [] => None
  | b :: bs =>
      if avail <? 1 then Some (OB_ERROR, __v, n)
      else if width <=? shift then None
      else
        let __v' := Z.lor __v (wrapu width (Z.shiftl (Z.land b 0x7f) shift)) in
        if Z.land b 0x80 =? 0 then Some (OB_SUCCESS, __v', n + 1)
        else decode_vi_loop width bs (avail - 1) __v' (shift + 7) (n + 1)
  end.

Definition decode_vi (width : Z) : Reading Z := fun r =>
  buf ← r_buf_ r ;
  if r_pos_ r <? 0 then None
  else
    '(ret, __v, n) ←
      decode_vi_loop width (drop (Z.to_nat (r_pos_ r)) buf) (r_buf_size_ r - r_pos_ r) 0 0 0 ;
    if ret =? OB_SUCCESS then Some (ret, wraps width __v, skip r n) else Some (ret, 0, r).

Definition decode_vi64 : Reading Z := decode_vi 64.

Definition encoded_length_vi32 (val : Z) : Z :=
  let __v := u32 val in
  if __v <=? OB_MAX_V1B then 1
  else if __v <=? OB_MAX_V2B then 2
  else if __v <=? OB_MAX_V3B then 3
  else if __v <=? OB_MAX_V4B then 4
  else 5.

Definition encode_vi32 (val : Z) : Writing :=
  let __v := u32 val in guard (encoded_length_vi32 val) (vi_loop 4 __v).

Definition decode_vi32 : Reading Z := decode_vi 32.

(** Floating values are their bit patterns ([memcpy] to and from an integer). *)
Definition encoded_length_float (bits : Z) : Z := encoded_length_vi32 (int32 bits).
Definition encode_float (bits : Z) : Writing := encode_vi32 (int32 bits).
Definition decode_float : Reading Z := rthen 0 decode_vi32 (fun tmp => rret (u32 tmp)).
Definition encoded_length_double (bits : Z) : Z := encoded_length_vi64 (int64 bits).
Definition encode_double (bits : Z) : Writing := encode_vi64 (int64 bits).
Definition decode_double : Reading Z := rthen 0 decode_vi64 (fun tmp => rret (u64 tmp)).

(** ** Strings with their length and a final zero byte *)

Definition encoded_length_vstr (len : Z) : Z := encoded_length_vi64 len + len + 1.

Definition decoded_length_vstr (r : ObBufferReader) : option Z :=
  match r_buf_ r with
  | None => Some (-1)
  | Some _ =>
      if (r_buf_size_ r <? 0) || (r_pos_ r <? 0) then Some (-1)
      else '(ret, len, _) ← decode_vi64 r ; Some (if ret =? OB_SUCCESS then len else -1)
  end.

(** [vbuf] is the memory behind the argument, or the null pointer. *)
Definition encode_vstr (vbuf : option (list Z)) (len : Z) : Writing := fun w =>
  if room (int32 (encoded_length_vstr len)) w && (0 <=? len) then
    '(ret, w) ← encode_vi64 len w ;
    '(_, w) ← match vbuf with
              | Some bs =>
                  if (ret =? OB_SUCCESS) && (0 <? len) then
                    copied ← bytes_at bs 0 len ; puts copied w
                  else Some (OB_SUCCESS, w)
              | None => Some (OB_SUCCESS, w)
              end ;
    '(_, w) ← puts [0] w ;
    Some (ret, w)
  else Some (OB_ERROR, w).

(** The string found, if any, with the new [*lenp] and position; [lenp] is the
    old [*lenp]. *)
Definition decode_vstr (lenp : Z) (r : ObBufferReader)
    : option (option (list Z) * Z * ObBufferReader) :=
  match r_buf_ r with
  | None => Some (None, lenp, r)
  | Some buf =>
      if (r_buf_size_ r <? 0) || (r_pos_ r <? 0) then Some (None, lenp, r)
      else
        '(ret, tmp_len, r') ← decode_vi64 r ;
        if negb (ret =? OB_SUCCESS) then Some (None, -1, r)
        else if 0 <=? tmp_len then
          if tmp_len <=? r_buf_size_ r' - r_pos_ r' then
            str ← bytes_at buf (r_pos_ r') tmp_len ;
            Some (Some str, tmp_len, skip r' (tmp_len + 1))
          else Some (None, -1, r)
        else Some (None, lenp, r)
  end.

(** The overload that copies the string to [dest], which has [dest_len] bytes. *)
Definition decode_vstr_copy (dest : option (list Z)) (dest_len lenp : Z) (r : ObBufferReader)
    : option (option (list Z) * Z * option (list Z) * ObBufferReader) :=
  match r_buf_ r, dest with
  | Some buf, Some d =>
      if (r_buf_size_ r <? 0) || (r_pos_ r <? 0) || (dest_len <? 0)
      then Some (None, lenp, dest, r)
      else
        '(ret, tmp_len, r') ← decode_vi64 r ;
        if negb (ret =? OB_SUCCESS) || (dest_len <? tmp_len) then Some (None, -1, dest, r)
        else if 0 <=? tmp_len then
          if tmp_len <=? r_buf_size_ r' - r_pos_ r' then
            str ← bytes_at buf (r_pos_ r') tmp_len ;
            d' ← store_at d 0 str ;
            Some (Some str, tmp_len, Some d', skip r' (tmp_len + 1))
          else Some (None, -1, dest, r)
        else Some (None, lenp, dest, r)
  | _, _ => Some (None, lenp, dest, r)
  end.

(** ** Booleans and null as cells *)

Definition encoded_length_bool_type : Z := 1 + encoded_length_bool.

Definition encode_bool_type (val : bool) : Writing :=
  fail_as OB_ERROR (encode_i8 OB_BOOL_TYPE ;;; encode_bool val)%writing.

Definition decode_bool_type : Reading bool := rguard false 1 (rfail_as OB_ERROR decode_bool).

Definition encoded_length_null : Z := 1.
Definition encode_null : Writing := encode_i8 OB_NULL_TYPE.

Definition safe_int64_abs (val : Z) : Z :=
  let tmp := Z.shiftr val 63 in
  let __v := Z.lxor val tmp in
  u64 (int64 (__v - tmp)).

(** The [val_len] low bytes of [val], the lowest first. *)
Fixpoint encode_uint_loop (n : nat) (shift : Z) (__v : Z) : Writing :=
  match n with
  | O => finish OB_SUCCESS
  | S n => (encode_i8 (int8 (Z.land (Z.shiftr __v shift) 0xff)) ;;;
            encode_uint_loop n (shift + 8) __v)%writing
  end.

Definition __encode_uint_with_given_length (val val_len : Z) : Writing := fun w =>
  if negb (room val_len w) || (val_len <=? 0) then Some (OB_ERROR, w)
  else commit (encode_uint_loop (Z.to_nat val_len) 0 val) w.

Fixpoint decode_uint_loop (n : nat) (shift __v : Z) : Reading Z :=
  match n with
  | O => rret __v
  | S n =>
      rthen 0 (rfail_as OB_ERROR decode_i8) (fun tmp =>
        decode_uint_loop n (shift + 8) (Z.lor __v (u64 (Z.shiftl (u8 tmp) shift))))
  end.

Definition __decode_uint_with_given_length (val_len : Z) : Reading Z := fun r =>
  if remains val_len r then rcommit (decode_uint_loop (Z.to_nat val_len) 0 0) r
  else Some (OB_ERROR, 0, r).

(** ** Integer cells

    The first byte has the operation and the sign and, in its low five bits,
    the magnitude up to 23 or a code of how many bytes of it follow. *)

Definition encoded_length_int (val : Z) : Z :=
  let __v := safe_int64_abs val in
  if __v <=? OB_MAX_INT_1B then 1
  else if __v <=? OB_MAX_INT_2B then 2
  else if __v <=? OB_MAX_INT_3B then 3
  else if __v <=? OB_MAX_INT_4B then 4
  else if __v <=? OB_MAX_INT_5B then 5
  else if __v <=? OB_MAX_INT_7B then 7
  else 9.

(** [buf[pos++] = (int8_t)(val & 0xFF); val >>= 8;] [n] times: the labels
    [G_INT9B] to [G_INT2B]. *)
Fixpoint low_bytes (n : nat) (val : Z) : list Z :=
  match n with
  | O => []
  | S n => byte (Z.land val 0xff) :: low_bytes n (Z.shiftr val 8)
  end.

Definition fast_encode (val : Z) (is_add : bool) : Writing :=
  let first_byte := 0 in
  let first_byte := if val <? 0 then set_bit first_byte OB_INT_SIGN_BIT_POS else first_byte in
  let val := if val <? 0 then int64 (- val) else val in
  let first_byte := if is_add then set_bit first_byte OB_INT_OPERATION_BIT_POS else first_byte in
  if u64 val <=? OB_MAX_INT_1B then puts [byte (Z.lor first_byte (int8 val))]
  else
    let first_byte := Z.lor first_byte OB_MAX_INT_1B in
    if u64 val <=? OB_MAX_INT_4B then
      if u64 val <=? OB_MAX_INT_2B then puts (byte (int8 (first_byte + 1)) :: low_bytes 1 val)
      else if u64 val <=? OB_MAX_INT_3B then
        puts (byte (int8 (first_byte + 2)) :: low_bytes 2 val)
      else puts (byte (int8 (first_byte + 3)) :: low_bytes 3 val)
    else if u64 val <=? OB_MAX_INT_5B then
      puts (byte (int8 (first_byte + 4)) :: low_bytes 4 val)
    else if u64 val <=? OB_MAX_INT_7B then
      puts (byte (int8 (first_byte + 5)) :: low_bytes 6 val)
    else puts (byte (int8 (first_byte + 7)) :: low_bytes 8 val).

Definition encode_int_safe (val : Z) (is_add : bool) : Writing :=
  let len := encoded_length_int val in
  guard len
    (let first_byte := 0 in
     let first_byte := if val <? 0 then set_bit first_byte OB_INT_SIGN_BIT_POS else first_byte in
     let first_byte := if is_add then set_bit first_byte OB_INT_OPERATION_BIT_POS else first_byte in
     let __v := safe_int64_abs val in
     let first_byte :=
       if __v <=? OB_MAX_INT_1B then int8 (Z.lor first_byte __v)
       else
         let tmp_len := if (len =? 7) || (len =? 9) then len - 1 else len in
         int8 (Z.lor first_byte (tmp_len - 1 + OB_MAX_INT_1B)) in
     fail_as OB_ERROR (encode_i8 first_byte) ;;;
     if 0 <? len - 1 then __encode_uint_with_given_length __v (len - 1)
     else finish OB_SUCCESS)%writing.

Definition encode_int (val : Z) (is_add : bool) : Writing := fun w =>
  if 10 <=? w_buf_size_ w - w_pos_ w then fast_encode val is_add w
  else encode_int_safe val is_add w.

(** [val |= (uint8_t) buf[--npos]; val <<= 8;] down the bytes [bs] (the last one
    first), without the shift after the last: the labels [D_INT9B] to [D_INT2B]. *)
Fixpoint load_down (bs : list Z) (val : Z) : Z :=
  match bs with
  | [] => val
  | [b] => Z.lor val b
  | b :: bs => load_down bs (int64 (Z.shiftl (Z.lor val b) 8))
  end.

Definition fast_decode (first_byte : Z) : Reading (Z * bool) :=
  let is_neg := test_bit first_byte OB_INT_SIGN_BIT_POS in
  let is_add := test_bit first_byte OB_INT_OPERATION_BIT_POS in
  let len_or_value := Z.land first_byte OB_INT_VALUE_MASK in
  if len_or_value <=? OB_MAX_INT_1B then
    rret (if is_neg then - len_or_value else len_or_value, is_add)
  else
    let n :=
      if len_or_value <=? OB_MAX_INT_1B + 3 then
        if len_or_value =? OB_MAX_INT_1B + 1 then 1
        else if len_or_value =? OB_MAX_INT_1B + 2 then 2
        else 3
      else if len_or_value =? OB_MAX_INT_1B + 4 then 4
      else if len_or_value =? OB_MAX_INT_1B + 5 then 6
      else 8 in
    rthen (0, false) (loads n) (fun bs =>
      let val := load_down (rev bs) 0 in
      rret (if is_neg then int64 (- val) else val, is_add)).

Definition decode_int_safe (first_byte : Z) : Reading (Z * bool) :=
  rguard (0, false) 0
    (let is_neg := test_bit first_byte OB_INT_SIGN_BIT_POS in
     let is_add := test_bit first_byte OB_INT_OPERATION_BIT_POS in
     let len_or_value := Z.land first_byte OB_INT_VALUE_MASK in
     if len_or_value <=? OB_MAX_INT_1B then
       rret (if is_neg then - len_or_value else len_or_value, is_add)
     else
       let len := len_or_value - OB_MAX_INT_1B in
       let len := if (len =? 5) || (len =? 7) then len + 1 else len in
       rthen (0, is_add) (__decode_uint_with_given_length len) (fun uv =>
         let __v := int64 uv in
         rret (if is_neg then int64 (- __v) else __v, is_add))).

Definition decode_int (first_byte : Z) : Reading (Z * bool) := fun r =>
  if 9 <=? r_buf_size_ r - r_pos_ r then fast_decode first_byte r
  else decode_int_safe first_byte r.

(** ** String cells *)

Definition encoded_length_str_len (len : Z) : Z :=
  if len <? 0 then -1
  else if len <=? OB_MAX_1B_STR_LEN then 1
  else if len <=? OB_MAX_2B_STR_LEN then 2
  else if len <=? OB_MAX_3B_STR_LEN then 3
  else if len <=? OB_MAX_4B_STR_LEN then 4
  else if len <=? OB_MAX_5B_STR_LEN then 5
  else -1.

Definition encoded_length_str (len : Z) : Z := encoded_length_str_len len + len.

Fixpoint encode_len_loop (n : nat) (shift len : Z) : Writing :=
  match n with
  | O => finish OB_SUCCESS
  | S n => (encode_i8 (int8 (Z.shiftr len shift)) ;;; encode_len_loop n (shift + 8) len)%writing
  end.

Definition encode_str (vbuf : option (list Z)) (len : Z) : Writing := fun w =>
  let len_size := encoded_length_str_len len in
  if negb (room (len_size + len) w) || (len_size <? 0) || (w_pos_ w <? 0) || (len <? 0)
  then Some (OB_ERROR, w)
  else
    let first_byte :=
      if len_size =? 1 then int8 (Z.lor OB_VARCHAR_TYPE (Z.land len 0xff))
      else int8 (Z.lor OB_VARCHAR_TYPE (len_size - 1 + OB_MAX_1B_STR_LEN)) in
    (fail_as OB_ERROR (encode_i8 first_byte) ;;;
     (if 1 <? len_size then encode_len_loop (Z.to_nat (len_size - 1)) 0 len
      else finish OB_SUCCESS) ;;;
     (match vbuf with
      | Some bs =>
          if 0 <? len then fun w => copied ← bytes_at bs 0 len ; puts copied w
          else finish OB_SUCCESS
      | None => finish OB_SUCCESS
      end))%writing w.

Fixpoint decode_len_loop (n : nat) (shift str_len : Z) : Reading Z :=
  match n with
  | O => rret str_len
  | S n =>
      rthen (-1) decode_i8 (fun tmp =>
        decode_len_loop n (shift + 8) (Z.lor str_len (int64 (Z.shiftl (u8 tmp) shift))))
  end.

(** The string, the new [lenp] and the position; [lenp] is the old one. *)
Definition decode_str (first_byte lenp : Z) (r : ObBufferReader)
    : option (option (list Z) * Z * ObBufferReader) :=
  match r_buf_ r with
  | None => Some (None, lenp, r)
  | Some buf =>
      if r_buf_size_ r <? 0 then Some (None, lenp, r)
      else
        let len_or_value := Z.land first_byte OB_VARCHAR_LEN_MASK in
        '(ret, str_len, r) ←
          (if len_or_value <=? OB_MAX_1B_STR_LEN then rret len_or_value
           else decode_len_loop (Z.to_nat (len_or_value - OB_MAX_1B_STR_LEN)) 0 0) r ;
        if (ret =? OB_SUCCESS) && (0 <=? str_len) && (str_len <=? r_buf_size_ r - r_pos_ r) then
          str ← bytes_at buf (r_pos_ r) str_len ; Some (Some str, int32 str_len, skip r str_len)
        else Some (None, -1, r)
  end.

(** ** Floating cells *)

Definition encoded_length_float_type : Z := 4 + 1.

Definition encode_float_type (bits : Z) (is_add : bool) : Writing :=
  let tmp := int32 bits in
  let first_byte := OB_FLOAT_TYPE in
  let first_byte := if is_add then set_bit first_byte OB_FLOAT_OPERATION_BIT_POS else first_byte in
  (fail_as OB_ERROR (encode_i8 first_byte) ;;; encode_i32 tmp)%writing.

Definition decode_float_type (first_byte : Z) : Reading (Z * bool) :=
  rguard (0, false) 4 (rthen (0, false) (rfail_as OB_ERROR decode_i32) (fun tmp =>
    rret (u32 tmp, test_bit first_byte OB_FLOAT_OPERATION_BIT_POS))).

Definition encoded_length_double_type : Z := 8 + 1.

Definition encode_double_type (bits : Z) (is_add : bool) : Writing :=
  let tmp := int64 bits in
  let first_byte := OB_DOUBLE_TYPE in
  let first_byte := if is_add then set_bit first_byte OB_FLOAT_OPERATION_BIT_POS else first_byte in
  (fail_as OB_ERROR (encode_i8 first_byte) ;;; encode_i64 tmp)%writing.

Definition decode_double_type (first_byte : Z) : Reading (Z * bool) :=
  rguard (0, false) 8 (rthen (0, false) (rfail_as OB_ERROR decode_i64) (fun tmp =>
    rret (u64 tmp, test_bit first_byte OB_FLOAT_OPERATION_BIT_POS))).

(** ** Decimal cells *)

(** [encode_vi32] of each of the words. *)
Fixpoint encode_words (words : list Z) : Writing :=
  match words with
  | [] => finish OB_SUCCESS
  | w :: words => (encode_vi32 (int32 w) ;;; encode_words words)%writing
  end.

(** [words] is the memory behind the argument: reading past it is [None]. *)
Definition encode_decimal_type (is_add : bool) (precision scale vscale nwords : Z)
    (words : option (list Z)) : Writing := fun w =>
  match w_buf_ w, words with
  | Some _, Some words =>
      if (w_buf_size_ w <=? 0) || (w_buf_size_ w <=? w_pos_ w) then Some (OB_INVALID_ARGUMENT, w)
      else
        (encode_i8 OB_DECIMAL_TYPE ;;;
         encode_i8 (if is_add then 1 else 0) ;;;
         encode_i8 precision ;;;
         encode_i8 scale ;;;
         encode_i8 vscale ;;;
         encode_i8 nwords ;;;
         (fun w => if nwords <=? Z.of_nat (length words)
                   then encode_words (take (Z.to_nat nwords) words) w else None))%writing w
  | _, _ => Some (OB_INVALID_ARGUMENT, w)
  end.

(** [decode_vi32] into [words[i]] for [i < n]; the array has [cap] words. *)
Fixpoint decode_words (n : nat) (cap : Z) : Reading (list Z) :=
  match n with
  | O => rret []
  | S n => fun r =>
      if cap <=? 0 then None
      else rthen [] decode_vi32 (fun w =>
             rthen [] (decode_words n (cap - 1)) (fun ws => rret (u32 w :: ws))) r
  end.

(** Operation, precision, scale, vscale, the number of words and the words,
    which go to an array of [cap] words. *)
Definition decode_decimal_type (cap : Z) : Reading (bool * Z * Z * Z * Z * list Z) := fun r =>
  let d := (false, 0, 0, 0, 0, []) in
  match r_buf_ r with
  | None => Some (OB_INVALID_ARGUMENT, d, r)
  | Some _ =>
      if (r_buf_size_ r <=? 0) || (r_buf_size_ r <=? r_pos_ r)
      then Some (OB_INVALID_ARGUMENT, d, r)
      else
        rthen d decode_i8 (fun op =>
        let d := (negb (op =? 0), 0, 0, 0, 0, []) in
        rthen d decode_i8 (fun precision =>
        rthen d decode_i8 (fun scale =>
        rthen d decode_i8 (fun vscale =>
        rthen d decode_i8 (fun nwords =>
        rthen d (decode_words (Z.to_nat nwords) cap) (fun words =>
        rret (negb (op =? 0), precision, scale, vscale, nwords, words))))))) r
  end.

Definition encoded_length_decimal_type (nwords : Z) (words : list Z) : Z :=
  6 + foldr (fun w n => int32 (encoded_length_vi32 (int32 w)) + n) 0
        (take (Z.to_nat nwords) words).

(** ** Time cells *)

Definition encoded_length_datetime (value : Z) : Z :=
  let tmp_value := safe_int64_abs value in
  if tmp_value <=? OB_MAX_4B then 5 else if tmp_value <=? OB_MAX_6B then 7 else 9.

Definition encoded_length_precise_datetime := encoded_length_datetime.

Definition __encode_time_type (first_byte val : Z) : Writing :=
  let len := encoded_length_datetime val in
  let first_byte :=
    if len =? 7 then Z.lor first_byte 1 else if len =? 9 then Z.lor first_byte 2 else first_byte in
  guard len (commit
    (encode_i8 first_byte ;;;
     __encode_uint_with_given_length (safe_int64_abs val) (len - 1))%writing).

Definition __decode_time_type (first_byte : Z) : Reading Z :=
  rguard 0 0
    (let len_mark := Z.land first_byte OB_DATETIME_LEN_MASK in
     let len :=
       if len_mark =? 0 then 4 else if len_mark =? 1 then 6 else if len_mark =? 2 then 8 else 0 in
     if len =? 0 then rfail 0 OB_ERROR
     else rthen 0 (__decode_uint_with_given_length len) (fun uv => rret (int64 uv))).

Definition encode_datetime_as (first_byte val : Z) (is_add : bool) : Writing :=
  guard 1
    (let first_byte := if val <? 0 then set_bit first_byte OB_DATETIME_SIGN_BIT else first_byte in
     let first_byte :=
       if is_add then set_bit first_byte OB_DATETIME_OPERATION_BIT else first_byte in
     __encode_time_type first_byte val).

Definition encode_datetime_type := encode_datetime_as OB_DATETIME_TYPE.

Definition decode_datetime_type (first_byte : Z) : Reading (Z * bool) :=
  rguard (0, false) 0
    (let is_neg := test_bit first_byte OB_DATETIME_SIGN_BIT in
     let is_add := test_bit first_byte OB_DATETIME_OPERATION_BIT in
     rthen (0, is_add) (__decode_time_type first_byte) (fun __v =>
       rret (if is_neg then int64 (- __v) else __v, is_add))).

Definition encode_precise_datetime_type := encode_datetime_as OB_PRECISE_DATETIME_TYPE.
Definition decode_precise_datetime_type := decode_datetime_type.

Definition encoded_length_modifytime := encoded_length_datetime.

Definition encode_time_as (first_byte val : Z) : Writing := fun w =>
  if negb (room 1 w) || (val <? 0) then Some (OB_ERROR, w) else __encode_time_type first_byte val w.

Definition encode_modifytime_type := encode_time_as OB_MODIFYTIME_TYPE.

Definition decode_modifytime_type (first_byte : Z) : Reading Z :=
  rguard 0 1 (__decode_time_type first_byte).

Definition encoded_length_createtime := encoded_length_datetime.
Definition encode_createtime_type := encode_time_as OB_CREATETIME_TYPE.
Definition decode_createtime_type := decode_modifytime_type.

(** ** Extended values *)

Definition encoded_length_extend (value : Z) : Z := encoded_length_vi64 value + 1.

Definition encode_extend_type (val : Z) : Writing := fun w =>
  if negb (room (encoded_length_extend val) w) || (w_buf_size_ w <? 0) then Some (OB_ERROR, w)
  else commit (encode_i8 OB_EXTEND_TYPE ;;; encode_vi64 val)%writing w.
