(* ===== verification/SerializationLaws.v ===== *)
(** * SerializationLaws: what an encoder writes the decoder reads

    For each pair of functions of [common/serialization.h] the bytes the encoder
    writes (or that it fails, when there is no room), and that the decoder on
    these bytes gives the value back and stops just past them. *)

From S2P Require Import Prelude ObBuffer Serialization.
Local Open Scope Z_scope.

(** ** What an encoder writes and a decoder reads

    [encodes c bs]: [c] writes [bs] when there is room and fails otherwise.
    [fills c bs]: the same for a step that relies on the room being there.
    [decodes c bs v]: on data that starts with [bs] the decoder [c] succeeds with
    [v] and goes just past [bs]. *)

Definition encodes : Writing -> list Z -> Prop := emits (fun ret => ret <> OB_SUCCESS).

Definition fills (c : Writing) (bs : list Z) : Prop := forall w buf,
  writer_wf w buf -> w_pos_ w + Z.of_nat (length bs) <= Z.of_nat (length buf) ->
  exists w' buf', c w = Some (OB_SUCCESS, w') /\ writer_wf w' buf' /\
    length buf' = length buf /\ w_pos_ w' = w_pos_ w + Z.of_nat (length bs) /\
    written w' buf' = written w buf ++ bs.

Definition decodes {A} (c : Reading A) (bs : list Z) (v : A) : Prop := forall r buf rest,
  unread r buf (bs ++ rest) ->
  exists r', c r = Some (OB_SUCCESS, v, r') /\ unread r' buf rest.

Lemma encodes_fills c bs : encodes c bs -> fills c bs.
Proof.
  intros H w buf Hw Hroom. destruct (H w buf Hw) as (ret & w' & buf' & Hc & Hw' & Hl & R).
  rewrite (proj2 (Z.leb_le _ _) Hroom) in R. destruct R as (-> & Hp & Hwr).
  by exists w', buf'.
Qed.

Lemma fills_puts bs : fills (puts bs) bs.
Proof.
  intros w buf Hw Hroom. destruct (writes_write bs w buf Hw) as (ret & w' & buf' & Hc & Hw' & Hl & R).
  rewrite (proj2 (Z.leb_le _ _) Hroom) in R. destruct R as (-> & Hp & Hwr).
  exists w', buf'. conjs; try done. rewrite <- Hc. destruct Hw as [Hb Hs Hpos].
  unfold puts, write. rewrite Hb, bind_some.
  destruct (Z.ltb_spec (w_buf_size_ w) (w_pos_ w + Z.of_nat (length bs))) as [|_]; [lia |].
  by rewrite andb_false_r.
Qed.

Lemma fills_finish : fills (finish OB_SUCCESS) [].
Proof. apply encodes_fills, emits_finish. Qed.

Lemma fills_andthen c1 c2 bs1 bs2 :
  fills c1 bs1 -> fills c2 bs2 -> fills (andthen c1 c2) (bs1 ++ bs2).
Proof.
  intros H1 H2 w buf Hw Hroom. rewrite length_app in Hroom.
  destruct (H1 w buf Hw) as (w1 & buf1 & E1 & Hw1 & Hl1 & Hp1 & Hc1); [lia |].
  destruct (H2 w1 buf1 Hw1) as (w2 & buf2 & E2 & Hw2 & Hl2 & Hp2 & Hc2); [lia |].
  exists w2, buf2. unfold andthen. rewrite E1, bind_some. simpl. rewrite E2, length_app.
  conjs; [done | done | lia | lia |]. by rewrite Hc2, Hc1, app_assoc.
Qed.

Lemma encodes_andthen c1 c2 bs1 bs2 :
  encodes c1 bs1 -> encodes c2 bs2 -> encodes (andthen c1 c2) (bs1 ++ bs2).
Proof. apply emits_andthen. auto. Qed.

Lemma room_wf n w buf :
  writer_wf w buf -> room n w = (w_pos_ w + n <=? Z.of_nat (length buf)).
Proof.
  intros [Hb Hs _]. unfold room. rewrite Hb, Hs.
  destruct (Z.leb_spec n (Z.of_nat (length buf) - w_pos_ w)),
    (Z.leb_spec (w_pos_ w + n) (Z.of_nat (length buf))); lia || done.
Qed.

Lemma encodes_when (t : ObBufferWriter -> bool) c bs code :
  (forall w buf, writer_wf w buf ->
     t w = (w_pos_ w + Z.of_nat (length bs) <=? Z.of_nat (length buf))) ->
  code <> OB_SUCCESS -> fills c bs ->
  encodes (fun w => if t w then c w else Some (code, w)) bs.
Proof.
  intros Ht Hcode Hf w buf Hw. rewrite (Ht w buf Hw).
  destruct (Z.leb_spec (w_pos_ w + Z.of_nat (length bs)) (Z.of_nat (length buf))) as [Hr | Hr].
  - destruct (Hf w buf Hw Hr) as (w' & buf' & -> & Hw' & Hl & Hp & Hc).
    exists OB_SUCCESS, w', buf'. by conjs.
  - exists code, w, buf. by conjs.
Qed.

Lemma encodes_guard n c bs :
  n = Z.of_nat (length bs) -> fills c bs -> encodes (guard n c) bs.
Proof.
  intros -> Hf. apply encodes_when; [| done | done]. intros w buf. apply room_wf.
Qed.

Lemma encodes_commit c bs : encodes c bs -> encodes (commit c) bs.
Proof.
  intros H w buf Hw. destruct (H w buf Hw) as (ret & w' & buf' & E & Hw' & Hl & R).
  unfold commit. rewrite E, bind_some.
  destruct (Z.leb_spec (w_pos_ w + Z.of_nat (length bs)) (Z.of_nat (length buf))).
  - destruct R as (-> & Hp & Hc). exists OB_SUCCESS, w', buf'. by conjs.
  - destruct (Z.eqb_spec ret OB_SUCCESS) as [|_]; [done |].
    eexists ret, _, buf'. split; [done |]. conjs; [| done | done].
    destruct Hw as [_ _ Hp], Hw' as [Hb' Hs' _]. split; simpl; [done | done | lia].
Qed.

Lemma fills_commit c bs : fills c bs -> fills (commit c) bs.
Proof.
  intros H w buf Hw Hroom. destruct (H w buf Hw Hroom) as (w' & buf' & E & Hrest).
  exists w', buf'. unfold commit. by rewrite E, bind_some.
Qed.

Lemma encodes_fail_as code c bs :
  code <> OB_SUCCESS -> encodes c bs -> encodes (fail_as code c) bs.
Proof.
  intros Hcode H w buf Hw. destruct (H w buf Hw) as (ret & w' & buf' & E & Hw' & Hl & R).
  unfold fail_as. rewrite E, bind_some.
  exists (if ret =? OB_SUCCESS then OB_SUCCESS else code), w', buf'. conjs; [done | done | done |].
  destruct (Z.leb_spec (w_pos_ w + Z.of_nat (length bs)) (Z.of_nat (length buf))).
  - by destruct R as (-> & Hp & Hc).
  - by destruct (Z.eqb_spec ret OB_SUCCESS).
Qed.

Lemma decodes_rret {A} (v : A) : decodes (rret v) [] v.
Proof. intros r buf rest Hu. by exists r. Qed.

Lemma decodes_rthen {A B} (d : B) (c : Reading A) k bs1 bs2 a b :
  decodes c bs1 a -> decodes (k a) bs2 b -> decodes (rthen d c k) (bs1 ++ bs2) b.
Proof.
  intros H1 H2 r buf rest Hu. rewrite <- app_assoc in Hu.
  destruct (H1 r buf _ Hu) as (r1 & E1 & Hu1). destruct (H2 r1 buf _ Hu1) as (r2 & E2 & Hu2).
  exists r2. unfold rthen. by rewrite E1, bind_some.
Qed.

(** The last step of a decoder only computes. *)
Lemma decodes_rmap {A B} (d : B) (c : Reading A) k bs a b :
  decodes c bs a -> (forall r, k a r = Some (OB_SUCCESS, b, r)) -> decodes (rthen d c k) bs b.
Proof.
  intros H1 H2. rewrite <- (app_nil_r bs). eapply decodes_rthen; [done |].
  intros r buf rest Hu. by exists r.
Qed.

Lemma remains_unread n r buf bs rest :
  unread r buf (bs ++ rest) -> n <= Z.of_nat (length bs) -> remains n r = true.
Proof.
  intros [Hb Hs Hp Hr] Hn. unfold remains. rewrite Hb, Hs. apply Z.leb_le.
  assert (length (bs ++ rest) = length buf - Z.to_nat (r_pos_ r))%nat as H
    by (by rewrite <- Hr, length_drop).
  rewrite length_app in H. lia.
Qed.

Lemma decodes_rguard {A} (d : A) n c bs v :
  n <= Z.of_nat (length bs) -> decodes c bs v -> decodes (rguard d n c) bs v.
Proof.
  intros Hn H r buf rest Hu. unfold rguard. rewrite (remains_unread n r buf bs rest Hu Hn).
  by apply (H r buf rest).
Qed.

Lemma decodes_loads bs n : n = Z.of_nat (length bs) -> decodes (loads n) bs bs.
Proof.
  intros -> r buf rest Hu. unfold loads. rewrite (un_buf r buf _ Hu), bind_some.
  rewrite (bytes_at_unread r buf bs rest Hu), bind_some.
  eexists. split; [done |]. by apply unread_skip.
Qed.

Lemma decodes_rfail_as {A} code (c : Reading A) bs v : decodes c bs v -> decodes (rfail_as code c) bs v.
Proof.
  intros H r buf rest Hu. destruct (H r buf rest Hu) as (r' & E & Hu').
  exists r'. unfold rfail_as. by rewrite E, bind_some.
Qed.

Lemma decodes_rcommit {A} (c : Reading A) bs v : decodes c bs v -> decodes (rcommit c) bs v.
Proof.
  intros H r buf rest Hu. destruct (H r buf rest Hu) as (r' & E & Hu').
  exists r'. unfold rcommit. by rewrite E, bind_some.
Qed.

(** [c] takes [size] bytes: with that much room it succeeds and [d], started
    where [c] was, gives [v] and ends where [c] did; with less it fails. *)
Definition roundtrips {A} (c : Writing) (size : Z) (d : Reading A) (v : A) : Prop :=
  forall w buf, writer_wf w buf ->
  exists ret w', c w = Some (ret, w') /\
    if w_pos_ w + size <=? Z.of_nat (length buf) then
      ret = OB_SUCCESS /\ w_pos_ w' = w_pos_ w + size /\
      exists r', d (mkReader (w_buf_ w') (w_pos_ w) (w_buf_size_ w')) = Some (OB_SUCCESS, v, r') /\
        r_pos_ r' = w_pos_ w'
    else ret <> OB_SUCCESS.

Lemma encodes_decodes {A} c bs (d : Reading A) v :
  encodes c bs -> decodes d bs v -> roundtrips c (Z.of_nat (length bs)) d v.
Proof.
  intros Hc Hd w buf Hw. destruct (Hc w buf Hw) as (ret & w' & buf' & E & Hw' & Hl & R).
  exists ret, w'. split; [done |].
  destruct (Z.leb_spec (w_pos_ w + Z.of_nat (length bs)) (Z.of_nat (length buf))); [| done].
  destruct R as (-> & Hp & Hwr). split; [done |]. split; [done |].
  destruct Hw as [_ _ Hpos]. destruct Hw' as [Hb' Hs' Hp'].
  set (r := mkReader (w_buf_ w') (w_pos_ w) (w_buf_size_ w')).
  assert (Hu : unread r buf' (bs ++ drop (Z.to_nat (w_pos_ w')) buf')).
  { split; simpl; [done | done | lia |].
    rewrite <- (take_drop (Z.to_nat (w_pos_ w')) buf') at 1. unfold written in Hwr.
    rewrite Hwr, <- app_assoc. apply drop_app_length'. rewrite length_take. lia. }
  destruct (Hd r buf' _ Hu) as (r' & E' & Hu'). exists r'. split; [done |].
  destruct Hu' as [_ _ Hr' Hrest]. apply (f_equal length) in Hrest.
  rewrite !length_drop in Hrest. lia.
Qed.

(** ** Bytes of an integer *)

#[local] Arguments wraps : simpl never.
#[local] Arguments wrapu : simpl never.
#[local] Arguments byte : simpl never.
#[local] Arguments Z.land : simpl never.
#[local] Arguments Z.lor : simpl never.
#[local] Arguments Z.shiftl : simpl never.
#[local] Arguments Z.shiftr : simpl never.

Lemma byte_mod z : byte z = z mod 256.
Proof. unfold byte. change 0xff with (Z.ones 8). by rewrite Z.land_ones by lia. Qed.

Lemma byte_range z : 0 <= byte z < 256.
Proof. rewrite byte_mod. apply Z.mod_pos_bound. lia. Qed.

Lemma byte_small z : 0 <= z < 256 -> byte z = z.
Proof. intros. rewrite byte_mod. by apply Z.mod_small. Qed.

Lemma byte_byte z : byte (byte z) = byte z.
Proof. apply byte_small, byte_range. Qed.

Lemma int8_byte z : -128 <= z < 128 -> int8 (byte z) = z.
Proof. intros Hz. rewrite byte_mod. change 256 with (2 ^ 8). by apply (wraps_wrapu 8). Qed.

Lemma byte_int8 z : byte (int8 z) = byte z.
Proof. rewrite !byte_mod. change 256 with (2 ^ 8). by apply mod_wraps. Qed.

Lemma u8_int8_byte z : u8 (int8 (byte z)) = byte z.
Proof.
  unfold wrapu. rewrite mod_wraps by lia. change (2 ^ 8) with 256. apply Z.mod_small, byte_range.
Qed.

(** The next byte down extends the high part of [v] by eight bits. *)
Lemma lor_next_byte v k k' :
  0 <= k -> k' = k + 8 ->
  Z.lor (Z.shiftl (Z.shiftr v k') k') (Z.shiftl (byte (Z.shiftr v k)) k)
  = Z.shiftl (Z.shiftr v k) k.
Proof.
  intros Hk ->. apply Z.bits_inj'. intros n Hn. unfold byte. change 0xff with (Z.ones 8).
  rewrite Z.lor_spec, !Z.shiftl_spec, Z.land_spec by lia.
  destruct (decide (n < k)).
  { rewrite !(Z.testbit_neg_r _ (n - k)) by lia. rewrite (Z.testbit_neg_r _ (n - (k + 8))) by lia.
    done. }
  rewrite (Z.shiftr_spec v k) by lia. replace (n - k + k) with n by lia.
  destruct (decide (n < k + 8)).
  - rewrite Z.ones_spec_low, andb_true_r by lia. by rewrite Z.testbit_neg_r by lia.
  - rewrite Z.ones_spec_high, andb_false_r, orb_false_r by lia.
    rewrite Z.shiftr_spec by lia. f_equal. lia.
Qed.

Lemma lor_last_byte v : Z.lor (Z.shiftl (Z.shiftr v 8) 8) (byte v) = v.
Proof.
  pose proof (lor_next_byte v 0 8 ltac:(lia) eq_refl) as H.
  by rewrite Z.shiftr_0_r, !Z.shiftl_0_r in H.
Qed.

(** The first byte, sign-extended. *)
Lemma wraps_top_byte k x :
  0 <= k -> -128 <= x < 128 -> wraps (k + 8) (Z.shiftl (byte x) k) = Z.shiftl x k.
Proof.
  intros Hk Hx. rewrite !Z.shiftl_mul_pow2 by lia.
  rewrite <- (wraps_small (k + 8) (x * 2 ^ k)); [| | lia].
  - apply wraps_congr. rewrite byte_mod, Z.pow_add_r by lia. change (2 ^ 8) with 256.
    rewrite !(Z.mul_comm _ (2 ^ k)), !Z.mul_mod_distr_l by lia. by rewrite Zmod_mod.
  - replace (k + 8 - 1) with (k + 7) by lia. rewrite Z.pow_add_r by lia.
    pose proof (Z.pow_pos_nonneg 2 k). nia.
Qed.

Lemma shiftr_signed v k :
  0 <= k -> - 2 ^ (k + 7) <= v < 2 ^ (k + 7) -> -128 <= Z.shiftr v k < 128.
Proof.
  intros Hk Hv. rewrite Z.shiftr_div_pow2 by lia. rewrite Z.pow_add_r in Hv by lia.
  pose proof (Z.pow_pos_nonneg 2 k).
  split; [apply Z.div_le_lower_bound; lia | apply Z.div_lt_upper_bound; lia].
Qed.

Lemma encodes_i8 v : encodes (encode_i8 v) [byte v].
Proof. apply encodes_guard; [done |]. apply fills_puts. Qed.

Lemma decodes_i8 v : -128 <= v < 128 -> decodes decode_i8 [byte v] v.
Proof.
  intros Hv. apply decodes_rguard; [done |].
  eapply decodes_rmap; [by apply decodes_loads |]. intros r. unfold rret, zget. simpl.
  by rewrite int8_byte.
Qed.

Lemma encodes_i16 v : encodes (encode_i16 v) [byte (Z.shiftr v 8); byte v].
Proof. apply encodes_guard; [done |]. apply fills_puts. Qed.

Ltac be_value :=
  intros; unfold rret, zget; simpl;
  repeat match goal with |- context [Z.land (byte ?z) 255] =>
    change (Z.land (byte z) 255) with (byte (byte z)); rewrite byte_byte end.

Lemma decodes_i16 v :
  - 2 ^ 15 <= v < 2 ^ 15 -> decodes decode_i16 [byte (Z.shiftr v 8); byte v] v.
Proof.
  intros Hv. apply decodes_rguard; [done |].
  eapply decodes_rmap; [by apply decodes_loads |]. be_value.
  rewrite (wraps_top_byte 8) by (done || by apply (shiftr_signed v 8)).
  rewrite lor_last_byte. by rewrite wraps_small.
Qed.

Lemma encodes_i32 v :
  encodes (encode_i32 v) [byte (Z.shiftr v 24); byte (Z.shiftr v 16); byte (Z.shiftr v 8); byte v].
Proof. apply encodes_guard; [done |]. apply fills_puts. Qed.

Lemma decodes_i32 v :
  - 2 ^ 31 <= v < 2 ^ 31 ->
  decodes decode_i32
    [byte (Z.shiftr v 24); byte (Z.shiftr v 16); byte (Z.shiftr v 8); byte v] v.
Proof.
  intros Hv. apply decodes_rguard; [done |].
  eapply decodes_rmap; [by apply decodes_loads |]. be_value.
  rewrite (wraps_top_byte 24) by (done || by apply (shiftr_signed v 24)).
  rewrite (lor_next_byte v 16 24), (lor_next_byte v 8 16) by lia.
  by rewrite lor_last_byte.
Qed.

Definition be64 (v : Z) : list Z :=
  [byte (Z.shiftr v 56); byte (Z.shiftr v 48); byte (Z.shiftr v 40); byte (Z.shiftr v 32);
   byte (Z.shiftr v 24); byte (Z.shiftr v 16); byte (Z.shiftr v 8); byte v].

Lemma encodes_i64 v : encodes (encode_i64 v) (be64 v).
Proof. apply encodes_guard; [done |]. apply fills_puts. Qed.

Lemma decodes_i64 v : - 2 ^ 63 <= v < 2 ^ 63 -> decodes decode_i64 (be64 v) v.
Proof.
  intros Hv. apply decodes_rguard; [done |].
  eapply decodes_rmap; [by apply decodes_loads |]. be_value.
  rewrite (wraps_top_byte 56) by (done || by apply (shiftr_signed v 56)).
  rewrite (lor_next_byte v 48 56), (lor_next_byte v 40 48), (lor_next_byte v 32 40),
    (lor_next_byte v 24 32), (lor_next_byte v 16 24), (lor_next_byte v 8 16) by lia.
  by rewrite lor_last_byte.
Qed.

Lemma encodes_bool b : encodes (encode_bool b) [if b then 1 else 0].
Proof. apply encodes_guard; [by destruct b |]. apply fills_puts. Qed.

Lemma decodes_bool (b : bool) : decodes decode_bool [if b then 1 else 0] b.
Proof.
  apply (decodes_rmap _ _ _ _ (if b then 1 else 0)); [| by destruct b].
  by destruct b; [apply (decodes_i8 1) | apply (decodes_i8 0)].
Qed.

(** ** Variable length *)

(** The bytes of [v], with enough [fuel] for all of its bits. *)
Fixpoint vi_bytes (fuel : nat) (v : Z) : list Z :=
  match fuel with
  | S fuel => if OB_MAX_V1B <? v then byte (Z.lor v 0x80) :: vi_bytes fuel (Z.shiftr v 7) else [v]
  | O => [v]
  end.

Definition vi64 (val : Z) : list Z := vi_bytes 9 (u64 val).
Definition vi32 (val : Z) : list Z := vi_bytes 4 (u32 val).

Lemma shiftr_7 v n : 0 <= v < 2 ^ (7 * Z.of_nat (S n)) -> 0 <= Z.shiftr v 7 < 2 ^ (7 * Z.of_nat n).
Proof.
  intros Hv. rewrite Z.shiftr_div_pow2 by lia.
  replace (7 * Z.of_nat (S n)) with (7 * Z.of_nat n + 7) in Hv by lia.
  rewrite Z.pow_add_r in Hv by lia.
  split; [apply Z.div_pos; lia | apply Z.div_lt_upper_bound; lia].
Qed.

Lemma land_7f v : Z.land v 0x7f = v mod 128.
Proof. change 0x7f with (Z.ones 7). by rewrite Z.land_ones by lia. Qed.

Lemma last_vi_byte v : 0 <= v <= 127 -> byte (Z.land v 0x7f) = v.
Proof. intros Hv. rewrite land_7f, Z.mod_small, byte_small by lia. done. Qed.

Lemma fills_vi_loop fuel v :
  0 <= v < 2 ^ (7 * Z.of_nat (S fuel)) -> fills (vi_loop fuel v) (vi_bytes fuel v).
Proof.
  revert v. induction fuel as [|fuel IH]; intros v Hv; simpl;
    destruct (Z.ltb_spec OB_MAX_V1B v) as [H|H]; change OB_MAX_V1B with 127 in H.
  - simpl in Hv. lia.
  - rewrite last_vi_byte by lia. apply fills_puts.
  - apply (fills_andthen _ _ [_]); [apply fills_puts |]. apply IH. by apply shiftr_7.
  - rewrite last_vi_byte by lia. apply fills_puts.
Qed.

(** [encoded_length_vi64] and [encoded_length_vi32] count the bytes. *)
Lemma vi_bytes_length fuel v n :
  0 <= v < 2 ^ (7 * Z.of_nat (S n)) -> (n <= fuel)%nat ->
  (n = 0%nat \/ 2 ^ (7 * Z.of_nat n) <= v) -> length (vi_bytes fuel v) = S n.
Proof.
  revert v fuel. induction n as [|n IH]; intros v fuel Hv Hf Hn.
  - simpl in Hv. destruct fuel; simpl; [done |].
    destruct (Z.ltb_spec OB_MAX_V1B v) as [H|H]; [change OB_MAX_V1B with 127 in H; lia | done].
  - destruct Hn as [|Hn]; [done |]. destruct fuel as [|fuel]; [lia |]. simpl.
    assert (2 ^ 7 <= v).
    { etrans; [| exact Hn]. apply Z.pow_le_mono_r; lia. }
    destruct (Z.ltb_spec OB_MAX_V1B v) as [H'|H']; [| change OB_MAX_V1B with 127 in H'; lia].
    simpl. f_equal. apply IH; [by apply shiftr_7 | lia |]. right.
    rewrite Z.shiftr_div_pow2 by lia. apply Z.div_le_lower_bound; [lia |].
    rewrite <- Z.pow_add_r by lia. etrans; [| exact Hn]. apply Z.pow_le_mono_r; lia.
Qed.

Lemma u64_u64 v : u64 (u64 v) = u64 v.
Proof. apply wrapu_small, wrapu_range. lia. Qed.

Ltac vi_length n := rewrite (vi_bytes_length _ _ n); [done | simpl; lia | lia | simpl; lia].

Lemma encoded_length_vi64_length val : encoded_length_vi64 val = Z.of_nat (length (vi64 val)).
Proof.
  unfold encoded_length_vi64, vi64. pose proof (wrapu_range 64 val ltac:(lia)) as Hv.
  set (v := u64 val) in *. clearbody v.
  rewrite !Z.shiftl_1_l.
  destruct (Z.leb_spec v (2 ^ 7 - 1)); [vi_length 0%nat |].
  destruct (Z.leb_spec v (2 ^ 14 - 1)); [vi_length 1%nat |].
  destruct (Z.leb_spec v (2 ^ 21 - 1)); [vi_length 2%nat |].
  destruct (Z.leb_spec v (2 ^ 28 - 1)); [vi_length 3%nat |].
  destruct (Z.leb_spec v (2 ^ 35 - 1)); [vi_length 4%nat |].
  destruct (Z.leb_spec v (2 ^ 42 - 1)); [vi_length 5%nat |].
  destruct (Z.leb_spec v (2 ^ 49 - 1)); [vi_length 6%nat |].
  destruct (Z.leb_spec v (2 ^ 56 - 1)); [vi_length 7%nat |].
  destruct (Z.leb_spec v (2 ^ 63 - 1)); [vi_length 8%nat | vi_length 9%nat].
Qed.

Lemma encoded_length_vi32_length val : encoded_length_vi32 val = Z.of_nat (length (vi32 val)).
Proof.
  unfold encoded_length_vi32, vi32. pose proof (wrapu_range 32 val ltac:(lia)) as Hv.
  set (v := u32 val) in *. clearbody v.
  rewrite !Z.shiftl_1_l.
  destruct (Z.leb_spec v (2 ^ 7 - 1)); [vi_length 0%nat |].
  destruct (Z.leb_spec v (2 ^ 14 - 1)); [vi_length 1%nat |].
  destruct (Z.leb_spec v (2 ^ 21 - 1)); [vi_length 2%nat |].
  destruct (Z.leb_spec v (2 ^ 28 - 1)); [vi_length 3%nat | vi_length 4%nat].
Qed.

Lemma encodes_vi64 val : encodes (encode_vi64 val) (vi64 val).
Proof.
  pose proof (wrapu_range 64 val ltac:(lia)). apply encodes_guard.
  - rewrite encoded_length_vi64_length. unfold vi64. by rewrite u64_u64.
  - apply fills_vi_loop. simpl. lia.
Qed.

Lemma encodes_vi32 val : encodes (encode_vi32 val) (vi32 val).
Proof.
  pose proof (wrapu_range 32 val ltac:(lia)). apply encodes_guard.
  - apply encoded_length_vi32_length.
  - apply fills_vi_loop. simpl. lia.
Qed.

(** A byte with its continuation bit, taken apart. *)
Lemma more_byte v :
  Z.land (byte (Z.lor v 0x80)) 0x7f = v mod 128 /\ Z.land (byte (Z.lor v 0x80)) 0x80 = 0x80.
Proof.
  unfold byte. rewrite <- !Z.land_assoc. change (Z.land 0xff 0x7f) with 0x7f.
  change (Z.land 0xff 0x80) with 0x80. rewrite !Z.land_lor_distr_l.
  change (Z.land 0x80 0x7f) with 0. change (Z.land 0x80 0x80) with 0x80.
  split; [by rewrite Z.lor_0_r, land_7f |].
  rewrite Z.lor_comm, Z.land_comm. apply Z.bits_inj'. intros n Hn.
  rewrite Z.lor_spec, Z.land_spec. by destruct (Z.testbit 0x80 n).
Qed.

Lemma decode_vi_loop_last width v rest avail acc shift n :
  0 <= v <= 127 -> 0 <= shift < width -> 0 <= acc < 2 ^ shift -> v * 2 ^ shift < 2 ^ width ->
  1 <= avail ->
  decode_vi_loop width (v :: rest) avail acc shift n
  = Some (OB_SUCCESS, acc + v * 2 ^ shift, n + 1).
Proof.
  intros Hv Hs Ha Hw Hav. simpl.
  destruct (Z.ltb_spec avail 1), (Z.leb_spec width shift); try lia.
  rewrite land_7f, Z.mod_small by lia.
  change 128 with (Z.shiftl 1 7) at 1. rewrite (land_shiftl v 1 7) by lia. simpl.
  rewrite wrapu_small; [by rewrite lor_shiftl by lia |].
  rewrite Z.shiftl_mul_pow2 by lia. pose proof (Z.pow_pos_nonneg 2 shift). nia.
Qed.

Lemma decode_vi_loop_bytes width fuel v rest avail acc shift n :
  0 <= v < 2 ^ (7 * Z.of_nat (S fuel)) -> 0 <= shift < width -> 0 <= acc < 2 ^ shift ->
  v * 2 ^ shift < 2 ^ width -> Z.of_nat (length (vi_bytes fuel v)) <= avail ->
  decode_vi_loop width (vi_bytes fuel v ++ rest) avail acc shift n
  = Some (OB_SUCCESS, acc + v * 2 ^ shift, n + Z.of_nat (length (vi_bytes fuel v))).
Proof.
  revert v avail acc shift n.
  induction fuel as [|fuel IH]; intros v avail acc shift n Hv Hs Ha Hw Hav.
  { simpl in *. apply decode_vi_loop_last; lia. }
  simpl in Hav |- *. destruct (Z.ltb_spec OB_MAX_V1B v) as [Hm|Hm]; change OB_MAX_V1B with 127 in Hm.
  2:{ apply decode_vi_loop_last; simpl in Hav; lia. }
  simpl in Hav |- *. destruct (more_byte v) as [-> ->]. simpl.
  destruct (Z.ltb_spec avail 1), (Z.leb_spec width shift); try lia.
  pose proof (Z.pow_pos_nonneg 2 shift ltac:(lia) ltac:(lia)) as Hpow.
  pose proof (Z.mod_pos_bound v 128 ltac:(lia)) as Hmod.
  pose proof (Z.div_mod v 128 ltac:(lia)) as Hdiv.
  assert (Hsh : Z.shiftr v 7 = v / 128) by (by rewrite Z.shiftr_div_pow2).
  assert (Hp7 : 2 ^ (shift + 7) = 2 ^ shift * 128) by (by rewrite Z.pow_add_r by lia).
  rewrite wrapu_small by (rewrite Z.shiftl_mul_pow2 by lia; nia).
  rewrite lor_shiftl by lia.
  rewrite IH; rewrite ?Hsh, ?Hp7; [| by rewrite <- Hsh; apply shiftr_7 | | nia | nia |].
  - f_equal. f_equal; [f_equal; nia | lia].
  - split; [lia |]. destruct (decide (shift + 7 < width)) as [|Hge]; [done | exfalso].
    assert (2 ^ width <= 2 ^ (shift + 7)) by (apply Z.pow_le_mono_r; lia).
    assert (1 <= v / 128) by (apply Z.div_le_lower_bound; lia). nia.
  - rewrite <- Hsh. lia.
Qed.

Lemma decodes_vi width fuel v :
  0 < width -> 0 <= v < 2 ^ (7 * Z.of_nat (S fuel)) -> v < 2 ^ width ->
  decodes (decode_vi width) (vi_bytes fuel v) (wraps width v).
Proof.
  intros Hwidth Hv Hw r buf rest Hu. unfold decode_vi.
  pose proof (unread_skip r buf _ rest Hu) as Hu'. pose proof (un_pos _ _ _ Hu').
  destruct Hu as [Hb Hs Hp Hr]. rewrite Hb, bind_some.
  destruct (Z.ltb_spec (r_pos_ r) 0); [lia |]. rewrite Hr, Hs. simpl in *.
  rewrite decode_vi_loop_bytes by (simpl; lia). rewrite bind_some. simpl.
  rewrite Z.mul_1_r. by eexists.
Qed.

Lemma decodes_vi64 val : - 2 ^ 63 <= val < 2 ^ 63 -> decodes decode_vi64 (vi64 val) val.
Proof.
  intros Hv. rewrite <- (wraps_wrapu 64 val) at 2 by lia.
  pose proof (wrapu_range 64 val). apply decodes_vi; simpl; lia.
Qed.

Lemma decodes_vi32 val : - 2 ^ 31 <= val < 2 ^ 31 -> decodes decode_vi32 (vi32 val) val.
Proof.
  intros Hv. rewrite <- (wraps_wrapu 32 val) at 2 by lia.
  pose proof (wrapu_range 32 val). apply decodes_vi; simpl; lia.
Qed.

(** ** Little-endian integers of a given length *)

Lemma low_bytes_length n v : length (low_bytes n v) = n.
Proof. revert v. induction n as [|n IH]; intros v; simpl; [done | by rewrite IH]. Qed.

Lemma byte_land z : byte (Z.land z 0xff) = byte z.
Proof. apply byte_byte. Qed.

Lemma shiftr_8 v n : 0 <= v < 2 ^ (8 * Z.of_nat (S n)) -> 0 <= Z.shiftr v 8 < 2 ^ (8 * Z.of_nat n).
Proof.
  intros Hv. rewrite Z.shiftr_div_pow2 by lia.
  replace (8 * Z.of_nat (S n)) with (8 * Z.of_nat n + 8) in Hv by lia.
  rewrite Z.pow_add_r in Hv by lia.
  split; [apply Z.div_pos; lia | apply Z.div_lt_upper_bound; lia].
Qed.

Lemma encodes_uint_loop n shift v :
  0 <= shift -> encodes (encode_uint_loop n shift v) (low_bytes n (Z.shiftr v shift)).
Proof.
  revert shift. induction n as [|n IH]; intros shift Hs; simpl; [apply emits_finish |].
  apply (encodes_andthen _ _ [_]).
  - rewrite <- byte_int8. apply encodes_i8.
  - rewrite Z.shiftr_shiftr by lia. apply IH. lia.
Qed.

Lemma encodes_uint v n :
  (0 < n)%nat -> encodes (__encode_uint_with_given_length v (Z.of_nat n)) (low_bytes n v).
Proof.
  intros Hn. eapply (emits_ext _ (fun w =>
    if room (Z.of_nat n) w then commit (encode_uint_loop n 0 v) w else Some (OB_ERROR, w))).
  - intros w. unfold __encode_uint_with_given_length.
    destruct (Z.leb_spec (Z.of_nat n) 0); [lia |]. rewrite orb_false_r, Nat2Z.id.
    by destruct (room _ w).
  - apply encodes_guard; [by rewrite low_bytes_length |].
    apply fills_commit, encodes_fills. rewrite <- (Z.shiftr_0_r v) at 2.
    by apply encodes_uint_loop.
Qed.

Lemma decodes_uint_loop n shift acc v :
  0 <= v < 2 ^ (8 * Z.of_nat n) -> 0 <= shift -> shift + 8 * Z.of_nat n <= 64 ->
  0 <= acc < 2 ^ shift ->
  decodes (decode_uint_loop n shift acc) (low_bytes n v) (acc + v * 2 ^ shift).
Proof.
  revert shift acc v. induction n as [|n IH]; intros shift acc v Hv Hs H64 Ha; simpl.
  - replace (acc + v * 2 ^ shift) with acc by (simpl in Hv; lia). apply decodes_rret.
  - apply (decodes_rthen _ _ _ [_] _ (int8 (byte v))).
    { apply decodes_rfail_as.
      replace (byte (Z.land v 255)) with (byte (int8 (byte v)))
        by (by rewrite byte_int8, byte_byte, byte_land).
      apply decodes_i8. apply (wraps_range 8). lia. }
    rewrite u8_int8_byte. pose proof (byte_range v) as Hb. rewrite byte_mod in Hb |- *.
    pose proof (Z.pow_pos_nonneg 2 shift ltac:(lia) Hs) as Hpow.
    assert (Hp8 : 2 ^ (shift + 8) = 2 ^ shift * 256) by (by rewrite Z.pow_add_r by lia).
    assert (2 ^ (shift + 8) <= 2 ^ 64) by (apply Z.pow_le_mono_r; lia).
    rewrite wrapu_small by (rewrite Z.shiftl_mul_pow2 by lia; nia).
    rewrite lor_shiftl by lia.
    replace (acc + v * 2 ^ shift)
      with (acc + v mod 256 * 2 ^ shift + Z.shiftr v 8 * 2 ^ (shift + 8)).
    + apply IH; [by apply shiftr_8 | lia | lia | nia].
    + rewrite Hp8, Z.shiftr_div_pow2 by lia. change (2 ^ 8) with 256.
      pose proof (Z.div_mod v 256). nia.
Qed.

Lemma decodes_uint v n :
  0 <= v < 2 ^ (8 * Z.of_nat n) -> (n <= 8)%nat ->
  decodes (__decode_uint_with_given_length (Z.of_nat n)) (low_bytes n v) v.
Proof.
  intros Hv Hn r buf rest Hu. unfold __decode_uint_with_given_length.
  rewrite (remains_unread _ r buf _ rest Hu) by (by rewrite low_bytes_length).
  rewrite Nat2Z.id. revert r buf rest Hu. apply decodes_rcommit.
  replace v with (0 + v * 2 ^ 0) at 2 by lia. apply decodes_uint_loop; simpl; lia.
Qed.

(** ** Integer cells *)

Lemma safe_int64_abs_abs val : - 2 ^ 63 <= val < 2 ^ 63 -> safe_int64_abs val = Z.abs val.
Proof.
  intros Hv. unfold safe_int64_abs. rewrite Z.shiftr_div_pow2 by lia.
  destruct (decide (0 <= val)).
  - rewrite Z.div_small, Z.lxor_0_r, Z.sub_0_r by lia.
    rewrite wraps_small, wrapu_small by lia. lia.
  - replace (val / 2 ^ 63) with (-1) by (apply Z.div_unique with (val + 2 ^ 63); lia).
    rewrite Z.lxor_m1_r. unfold Z.lnot. unfold wrapu. rewrite mod_wraps by lia.
    rewrite Z.mod_small by lia. lia.
Qed.

(** How many bytes of the magnitude [a] follow the first byte, and the code for
    it in the first byte. *)
Definition int_len (a : Z) : nat :=
  if a <=? OB_MAX_INT_1B then 0
  else if a <=? OB_MAX_INT_2B then 1
  else if a <=? OB_MAX_INT_3B then 2
  else if a <=? OB_MAX_INT_4B then 3
  else if a <=? OB_MAX_INT_5B then 4
  else if a <=? OB_MAX_INT_7B then 6
  else 8.

Definition int_code (a : Z) : Z :=
  if a <=? OB_MAX_INT_1B then a
  else if a <=? OB_MAX_INT_2B then 24
  else if a <=? OB_MAX_INT_3B then 25
  else if a <=? OB_MAX_INT_4B then 26
  else if a <=? OB_MAX_INT_5B then 27
  else if a <=? OB_MAX_INT_7B then 28
  else 30.

Definition int_first (neg add : bool) (code : Z) : Z :=
  (if add then 64 else 0) + (if neg then 32 else 0) + code.

Definition int_bytes (val : Z) (add : bool) : list Z :=
  int_first (val <? 0) add (int_code (Z.abs val)) :: low_bytes (int_len (Z.abs val)) (Z.abs val).

Lemma int_cases a (P : nat -> Z -> Prop) :
  (0 <= a <= 23 -> P 0%nat a) ->
  (23 < a < 2 ^ 8 -> P 1%nat 24) -> (2 ^ 8 <= a < 2 ^ 16 -> P 2%nat 25) ->
  (2 ^ 16 <= a < 2 ^ 24 -> P 3%nat 26) -> (2 ^ 24 <= a < 2 ^ 32 -> P 4%nat 27) ->
  (2 ^ 32 <= a < 2 ^ 48 -> P 6%nat 28) -> (2 ^ 48 <= a -> P 8%nat 30) ->
  0 <= a -> P (int_len a) (int_code a).
Proof.
  intros H0 H1 H2 H3 H4 H6 H8 Ha. unfold int_len, int_code.
  rewrite !Z.shiftl_1_l.
  destruct (Z.leb_spec a 23); [apply H0; lia |].
  destruct (Z.leb_spec a (2 ^ 8 - 1)); [apply H1; lia |].
  destruct (Z.leb_spec a (2 ^ 16 - 1)); [apply H2; lia |].
  destruct (Z.leb_spec a (2 ^ 24 - 1)); [apply H3; lia |].
  destruct (Z.leb_spec a (2 ^ 32 - 1)); [apply H4; lia |].
  destruct (Z.leb_spec a (2 ^ 48 - 1)); [apply H6; lia | apply H8; lia].
Qed.

Lemma int_code_range a : 0 <= a -> 0 <= int_code a <= 30.
Proof. intros Ha. apply (int_cases a (fun _ c => 0 <= c <= 30)); lia. Qed.

Lemma int_len_range a :
  0 <= a < 2 ^ 64 -> (int_len a <= 8)%nat /\ (int_len a <> 0%nat -> a < 2 ^ (8 * Z.of_nat (int_len a))).
Proof.
  intros Ha. apply (int_cases a (fun n _ => (n <= 8)%nat /\ (n <> 0%nat -> a < 2 ^ (8 * Z.of_nat n))));
    simpl; lia.
Qed.

(** The first byte as the encoders build it and as the decoders take it apart. *)
Lemma int_first_built (neg add : bool) code :
  0 <= code < 32 ->
  let f := 0 in
  let f := if neg then set_bit f OB_INT_SIGN_BIT_POS else f in
  let f := if add then set_bit f OB_INT_OPERATION_BIT_POS else f in
  Z.lor f code = int_first neg add code /\ 0 <= int_first neg add code < 128.
Proof.
  intros Hc. cut ((Z.lor (if add then set_bit (if neg then set_bit 0 5 else 0) 6
    else if neg then set_bit 0 5 else 0) code =? int_first neg add code) = true).
  { intros H%Z.eqb_eq. split; [exact H |]. unfold int_first. destruct neg, add; lia. }
  revert code Hc. apply forall_below. destruct neg, add; by vm_compute.
Qed.

Lemma int_first_read (neg add : bool) code :
  0 <= code < 32 ->
  test_bit (int_first neg add code) OB_INT_SIGN_BIT_POS = neg /\
  test_bit (int_first neg add code) OB_INT_OPERATION_BIT_POS = add /\
  Z.land (int_first neg add code) OB_INT_VALUE_MASK = code.
Proof.
  intros Hc. cut ((bool_decide (test_bit (int_first neg add code) OB_INT_SIGN_BIT_POS = neg) &&
    bool_decide (test_bit (int_first neg add code) OB_INT_OPERATION_BIT_POS = add) &&
    (Z.land (int_first neg add code) OB_INT_VALUE_MASK =? code)) = true).
  { intros H. bools. by rewrite !bool_decide_eq_true in *. }
  revert code Hc. apply forall_below. destruct neg, add; by vm_compute.
Qed.

Lemma encoded_length_int_len val :
  - 2 ^ 63 <= val < 2 ^ 63 -> encoded_length_int val = 1 + Z.of_nat (int_len (Z.abs val)).
Proof.
  intros Hv. unfold encoded_length_int, int_len. rewrite safe_int64_abs_abs by done.
  repeat (destruct (_ <=? _); [done |]). done.
Qed.

Lemma int_bytes_length val add :
  - 2 ^ 63 <= val < 2 ^ 63 -> Z.of_nat (length (int_bytes val add)) = encoded_length_int val.
Proof.
  intros Hv. rewrite encoded_length_int_len by done. unfold int_bytes. simpl length.
  rewrite low_bytes_length. lia.
Qed.

Lemma encodes_int_safe val add :
  - 2 ^ 63 <= val < 2 ^ 63 -> encodes (encode_int_safe val add) (int_bytes val add).
Proof.
  intros Hv. unfold encode_int_safe. apply encodes_guard; [by rewrite int_bytes_length |].
  rewrite (encoded_length_int_len val Hv), (safe_int64_abs_abs val Hv).
  set (a := Z.abs val). assert (Ha : 0 <= a) by lia.
  pose proof (int_code_range a Ha) as Hc.
  destruct (int_first_built (val <? 0) add (int_code a)) as [Hf Hr]; [lia |].
  unfold int_bytes. fold a.
  apply (fills_andthen _ _ [_]).
  - apply encodes_fills, encodes_fail_as; [done |].
    match goal with |- encodes (encode_i8 ?fb) _ =>
      assert (fb = int_first (val <? 0) add (int_code a)) as -> end.
    { rewrite <- (wraps_small 8 (int_first _ _ _)), <- Hf by lia.
      revert Ha. clear. destruct (Z.leb_spec a OB_MAX_INT_1B) as [Hle|Hgt].
      - intros Ha. unfold int_code. by rewrite (proj2 (Z.leb_le _ _) Hle).
      - apply (int_cases a (fun n c => int8 (Z.lor _ ((if (1 + Z.of_nat n =? 7) || (1 + Z.of_nat n =? 9)
          then 1 + Z.of_nat n - 1 else 1 + Z.of_nat n) - 1 + OB_MAX_INT_1B)) = int8 (Z.lor _ c)));
          done || lia. }
    rewrite <- (byte_small (int_first _ _ _)) at 2 by lia. apply encodes_i8.
  - destruct (int_len a) as [|n] eqn:Hn; [apply fills_finish |].
    rewrite (proj2 (Z.ltb_lt _ _)) by lia. apply encodes_fills.
    replace (1 + Z.of_nat (S n) - 1) with (Z.of_nat (S n)) by lia. apply encodes_uint. lia.
Qed.

(** Only the low bytes count. *)
Lemma low_bytes_mod n v v' :
  v mod 2 ^ (8 * Z.of_nat n) = v' mod 2 ^ (8 * Z.of_nat n) -> low_bytes n v = low_bytes n v'.
Proof.
  revert v v'. induction n as [|n IH]; intros v v' H; [done |]. simpl.
  replace (8 * Z.of_nat (S n)) with (8 + 8 * Z.of_nat n) in H by lia.
  rewrite Z.pow_add_r in H by lia. pose proof (Z.pow_pos_nonneg 2 (8 * Z.of_nat n)).
  rewrite !Z.rem_mul_r in H by lia. change (2 ^ 8) with 256 in H.
  pose proof (Z.mod_pos_bound v 256). pose proof (Z.mod_pos_bound v' 256).
  rewrite !byte_land, !byte_mod, !Z.shiftr_div_pow2 by lia. change (2 ^ 8) with 256.
  f_equal; [nia |]. apply IH. nia.
Qed.

Lemma int_first_add neg add k code : int_first neg add code + k = int_first neg add (code + k).
Proof. unfold int_first. lia. Qed.

Lemma fills_fast_encode val add :
  - 2 ^ 63 <= val < 2 ^ 63 -> fills (fast_encode val add) (int_bytes val add).
Proof.
  intros Hv. unfold fast_encode. set (v := if val <? 0 then int64 (- val) else val).
  set (a := Z.abs val).
  assert (Hu : u64 v = a).
  { subst v a. destruct (Z.ltb_spec val 0); unfold wrapu.
    - rewrite mod_wraps, Z.mod_small by lia. lia.
    - rewrite Z.mod_small by lia. lia. }
  assert (Hva : a < 2 ^ 63 -> v = a).
  { subst v a. intros Ha. destruct (Z.ltb_spec val 0); [rewrite wraps_small |]; lia. }
  assert (Ha : 0 <= a) by lia. rewrite Hu. unfold int_bytes. fold a.
  assert (Hfirst : forall k, 0 <= k <= 7 -> forall n w,
    low_bytes n v = low_bytes n w ->
    fills (puts (byte (int8 (Z.lor
      (if add then set_bit (if val <? 0 then set_bit 0 OB_INT_SIGN_BIT_POS else 0) OB_INT_OPERATION_BIT_POS
       else if val <? 0 then set_bit 0 OB_INT_SIGN_BIT_POS else 0) OB_MAX_INT_1B + k))
      :: low_bytes n v)) (int_first (val <? 0) add (23 + k) :: low_bytes n w)).
  { intros k Hk n w ->. change OB_MAX_INT_1B with 23. destruct (int_first_built (val <? 0) add 23) as [-> _]; [lia |].
    destruct (int_first_built (val <? 0) add (23 + k)) as [_ Hr]; [lia |].
    rewrite int_first_add, byte_int8, byte_small by lia. apply fills_puts. }
  unfold int_len, int_code.
  destruct (Z.leb_spec a OB_MAX_INT_1B) as [H0|H0]; change OB_MAX_INT_1B with 23 in H0.
  { destruct (int_first_built (val <? 0) add a) as [Hf Hr]; [lia |]. rewrite Hva by lia.
    rewrite (wraps_small 8 a), Hf, byte_small by lia. apply fills_puts. }
  rewrite !Z.shiftl_1_l.
  destruct (Z.leb_spec a (2 ^ 8 - 1)).
  { rewrite (proj2 (Z.leb_le _ _)) by lia. apply (Hfirst 1); [lia | by rewrite Hva by lia]. }
  destruct (Z.leb_spec a (2 ^ 16 - 1)).
  { rewrite (proj2 (Z.leb_le _ _)) by lia. apply (Hfirst 2); [lia | by rewrite Hva by lia]. }
  destruct (Z.leb_spec a (2 ^ 24 - 1)); [apply (Hfirst 3); [lia | by rewrite Hva by lia] |].
  destruct (Z.leb_spec a (2 ^ 32 - 1)); [apply (Hfirst 4); [lia | by rewrite Hva by lia] |].
  destruct (Z.leb_spec a (2 ^ 48 - 1)); [apply (Hfirst 5); [lia | by rewrite Hva by lia] |].
  apply (Hfirst 7); [lia |]. apply low_bytes_mod. change (2 ^ (8 * Z.of_nat 8)) with (2 ^ 64).
  unfold wrapu in Hu. rewrite Hu, Z.mod_small; lia.
Qed.

Lemma encodes_int val add :
  - 2 ^ 63 <= val < 2 ^ 63 -> encodes (encode_int val add) (int_bytes val add).
Proof.
  intros Hv w buf Hw. unfold encode_int.
  destruct (Z.leb_spec 10 (w_buf_size_ w - w_pos_ w)) as [H10|H10].
  - assert (Hr : w_pos_ w + Z.of_nat (length (int_bytes val add)) <= Z.of_nat (length buf)).
    { rewrite int_bytes_length, encoded_length_int_len by done.
      destruct (int_len_range (Z.abs val)) as [Hl _]; [lia |].
      destruct Hw as [_ Hs _]. lia. }
    rewrite (proj2 (Z.leb_le _ _) Hr).
    destruct (fills_fast_encode val add Hv w buf Hw Hr) as (w' & buf' & -> & Hrest).
    exists OB_SUCCESS, w', buf'. destruct_and!. by conjs.
  - by apply encodes_int_safe.
Qed.

(** The decoders. *)
Definition horner (acc b : Z) : Z := acc * 256 + b.

Lemma load_down_horner b bs x :
  Forall is_byte (b :: bs) ->
  load_down (b :: bs) (int64 (x * 256)) = int64 (fold_left horner (b :: bs) x).
Proof.
  assert (Hor : forall x b, is_byte b -> Z.lor (int64 (x * 256)) b = int64 (x * 256 + b)).
  { clear. intros x b Hb. unfold is_byte in Hb.
    pose proof (mod_wraps 64 (x * 256) ltac:(lia)) as Hm.
    pose proof (wraps_range 64 (x * 256) ltac:(lia)) as Hr.
    set (y := int64 (x * 256)) in *.
    set (k := x + 2 ^ 56 * (y / 2 ^ 64 - x * 256 / 2 ^ 64)).
    assert (Hy : y = Z.shiftl k 8).
    { rewrite Z.shiftl_mul_pow2 by lia. subst k.
      pose proof (Z.div_mod y (2 ^ 64)). pose proof (Z.div_mod (x * 256) (2 ^ 64)). lia. }
    assert (Z.lor y b = y + b) as ->.
    { rewrite Hy, Z.lor_comm, lor_shiftl, Z.shiftl_mul_pow2 by lia. lia. }
    rewrite Z.shiftl_mul_pow2 in Hy by lia. clearbody k. change (64 - 1) with 63 in Hr.
    rewrite <- (wraps_small 64 (y + b)) by (change (64 - 1) with 63; lia).
    apply wraps_congr. rewrite <- Zplus_mod_idemp_l, Hm. by rewrite Zplus_mod_idemp_l. }
  revert b x. induction bs as [|b' bs IH]; intros b x Hb; inversion Hb; subst.
  - simpl. by apply Hor.
  - change (load_down (b :: b' :: bs) (int64 (x * 256)))
      with (load_down (b' :: bs) (int64 (Z.shiftl (Z.lor (int64 (x * 256)) b) 8))).
    rewrite Hor by done. rewrite Z.shiftl_mul_pow2 by lia. change (2 ^ 8) with 256.
    replace (int64 (int64 (x * 256 + b) * 256)) with (int64 ((x * 256 + b) * 256)); [by apply IH |].
    apply wraps_congr. symmetry. rewrite <- Zmult_mod_idemp_l, mod_wraps by lia.
    by rewrite Zmult_mod_idemp_l.
Qed.

Lemma low_bytes_byte n v : Forall is_byte (low_bytes n v).
Proof.
  revert v. induction n as [|n IH]; intros v; simpl; constructor; [apply byte_range | apply IH].
Qed.

Lemma low_bytes_value n v :
  0 <= v < 2 ^ (8 * Z.of_nat n) -> fold_right (fun b acc => horner acc b) 0 (low_bytes n v) = v.
Proof.
  revert v. induction n as [|n IH]; intros v Hv; [simpl in *; lia |]. simpl.
  rewrite IH by (by apply shiftr_8). unfold horner. rewrite byte_land, byte_mod.
  rewrite Z.shiftr_div_pow2 by lia. change (2 ^ 8) with 256. pose proof (Z.div_mod v 256). lia.
Qed.

Lemma load_down_low_bytes n v :
  (0 < n)%nat -> 0 <= v < 2 ^ (8 * Z.of_nat n) -> load_down (rev (low_bytes n v)) 0 = int64 v.
Proof.
  intros Hn Hv. pose proof (Forall_rev (low_bytes_byte n v)) as Hb.
  pose proof (length_rev (low_bytes n v)) as Hl. rewrite low_bytes_length in Hl.
  pose proof (low_bytes_value n v Hv) as E. set (l := low_bytes n v) in *. clearbody l.
  rewrite <- E. rewrite <- (rev_involutive l) at 2.
  rewrite (fold_left_rev_right (fun b acc => horner acc b)).
  destruct (rev l) as [|b bs]; [simpl in Hl; lia |].
  by apply (load_down_horner b bs 0).
Qed.

(** Both decoders read the same magnitude. *)
Lemma int_signed (val : Z) :
  - 2 ^ 63 <= val < 2 ^ 63 ->
  (if val <? 0 then int64 (- int64 (Z.abs val)) else int64 (Z.abs val)) = val.
Proof.
  intros Hv. destruct (Z.ltb_spec val 0).
  - rewrite <- (wraps_small 64 val) at 2 by lia. apply wraps_congr.
    rewrite <- (Z.sub_0_l (int64 _)), <- Zminus_mod_idemp_r, mod_wraps, Zminus_mod_idemp_r by lia.
    f_equal. lia.
  - rewrite wraps_small; lia.
Qed.

Lemma decodes_fast_decode val add :
  - 2 ^ 63 <= val < 2 ^ 63 ->
  decodes (fast_decode (int_first (val <? 0) add (int_code (Z.abs val))))
    (low_bytes (int_len (Z.abs val)) (Z.abs val)) (val, add).
Proof.
  intros Hv. set (a := Z.abs val). pose proof (int_code_range a ltac:(lia)) as Hc.
  unfold fast_decode. destruct (int_first_read (val <? 0) add (int_code a)) as (-> & -> & ->); [lia |].
  destruct (int_len_range a) as [_ Ha]; [lia |]. revert Ha.
  assert (Hmany : forall n, (0 < n)%nat -> a < 2 ^ (8 * Z.of_nat n) ->
    decodes (rthen (0, false) (loads (Z.of_nat n)) (fun bs =>
      rret (if val <? 0 then int64 (- load_down (rev bs) 0) else load_down (rev bs) 0, add)))
      (low_bytes n a) (val, add)).
  { intros n Hn Han. eapply decodes_rmap; [by apply decodes_loads; rewrite low_bytes_length |].
    intros r. unfold rret. rewrite load_down_low_bytes by lia. subst a. by rewrite int_signed. }
  pattern (int_len a), (int_code a). apply int_cases; try lia.
  - intros H0 _. rewrite (proj2 (Z.leb_le a OB_MAX_INT_1B)) by lia.
    simpl. replace (if val <? 0 then - a else a) with val by (destruct (Z.ltb_spec val 0); lia).
    apply decodes_rret.
  - intros _ H. apply (Hmany 1%nat); [lia | by apply H].
  - intros _ H. apply (Hmany 2%nat); [lia | by apply H].
  - intros _ H. apply (Hmany 3%nat); [lia | by apply H].
  - intros _ H. apply (Hmany 4%nat); [lia | by apply H].
  - intros _ H. apply (Hmany 6%nat); [lia | by apply H].
  - intros _ H. apply (Hmany 8%nat); [lia | by apply H].
Qed.

Lemma decodes_int_safe val add :
  - 2 ^ 63 <= val < 2 ^ 63 ->
  decodes (decode_int_safe (int_first (val <? 0) add (int_code (Z.abs val))))
    (low_bytes (int_len (Z.abs val)) (Z.abs val)) (val, add).
Proof.
  intros Hv. set (a := Z.abs val). pose proof (int_code_range a ltac:(lia)) as Hc.
  apply decodes_rguard; [lia |]. cbv zeta.
  destruct (int_first_read (val <? 0) add (int_code a)) as (-> & -> & ->); [lia |].
  destruct (int_len_range a) as [_ Ha]; [lia |]. revert Ha.
  assert (Hmany : forall n, (0 < n <= 8)%nat -> a < 2 ^ (8 * Z.of_nat n) ->
    decodes (rthen (0, add) (__decode_uint_with_given_length (Z.of_nat n)) (fun uv =>
      rret (if val <? 0 then int64 (- int64 uv) else int64 uv, add)))
      (low_bytes n a) (val, add)).
  { intros n Hn Han. eapply decodes_rmap; [apply decodes_uint; lia |].
    intros r. unfold rret. subst a. by rewrite int_signed. }
  pattern (int_len a), (int_code a). apply int_cases; try lia.
  - intros H0 _. rewrite (proj2 (Z.leb_le a OB_MAX_INT_1B)) by lia.
    simpl. replace (if val <? 0 then - a else a) with val by (destruct (Z.ltb_spec val 0); lia).
    apply decodes_rret.
  - intros _ H. apply (Hmany 1%nat); [lia | by apply H].
  - intros _ H. apply (Hmany 2%nat); [lia | by apply H].
  - intros _ H. apply (Hmany 3%nat); [lia | by apply H].
  - intros _ H. apply (Hmany 4%nat); [lia | by apply H].
  - intros _ H. apply (Hmany 6%nat); [lia | by apply H].
  - intros _ H. apply (Hmany 8%nat); [lia | by apply H].
Qed.

Lemma decodes_int val add :
  - 2 ^ 63 <= val < 2 ^ 63 ->
  decodes (decode_int (int_first (val <? 0) add (int_code (Z.abs val))))
    (low_bytes (int_len (Z.abs val)) (Z.abs val)) (val, add).
Proof.
  intros Hv r buf rest Hu. unfold decode_int. destruct (9 <=? _).
  - by apply (decodes_fast_decode val add Hv r buf rest).
  - by apply (decodes_int_safe val add Hv r buf rest).
Qed.

(** ** String cells *)

Definition str_len_bytes (len : Z) : nat := Z.to_nat (encoded_length_str_len len - 1).

Definition str_code (len : Z) : Z :=
  if len <=? OB_MAX_1B_STR_LEN then len else OB_MAX_1B_STR_LEN + Z.of_nat (str_len_bytes len).

Definition str_bytes (s : list Z) : list Z :=
  let len := Z.of_nat (length s) in
  (128 + str_code len) :: low_bytes (str_len_bytes len) len ++ s.

Lemma str_cases len :
  0 <= len < 2 ^ 32 ->
  encoded_length_str_len len = 1 + Z.of_nat (str_len_bytes len) /\
  (str_len_bytes len <= 4)%nat /\ 0 <= str_code len < 64 /\
  (len <= 55 /\ str_len_bytes len = 0%nat \/
   55 < len < 2 ^ (8 * Z.of_nat (str_len_bytes len)) /\ (0 < str_len_bytes len)%nat).
Proof.
  intros Hl. unfold str_code, str_len_bytes, encoded_length_str_len.
  rewrite !Z.shiftl_1_l. destruct (Z.ltb_spec len 0); [lia |].
  destruct (Z.leb_spec len 55); [change (Z.to_nat (1 - 1)) with 0%nat; lia |].
  destruct (Z.leb_spec len (2 ^ 8 - 1)); [change (Z.to_nat (2 - 1)) with 1%nat; lia |].
  destruct (Z.leb_spec len (2 ^ 16 - 1)); [change (Z.to_nat (3 - 1)) with 2%nat; lia |].
  destruct (Z.leb_spec len (2 ^ 24 - 1)); [change (Z.to_nat (4 - 1)) with 3%nat; lia |].
  rewrite (proj2 (Z.leb_le len (2 ^ 32 - 1))) by lia. change (Z.to_nat (5 - 1)) with 4%nat. lia.
Qed.

Lemma str_first_built code :
  0 <= code < 64 -> byte (int8 (Z.lor OB_VARCHAR_TYPE code)) = 128 + code.
Proof.
  intros Hc. apply Z.eqb_eq. revert code Hc. apply forall_below. by vm_compute.
Qed.

Lemma str_first_read code :
  0 <= code < 64 -> Z.land (int8 (128 + code)) OB_VARCHAR_LEN_MASK = code.
Proof.
  intros Hc. apply Z.eqb_eq. revert code Hc. apply forall_below. by vm_compute.
Qed.

Lemma encodes_len_loop n shift len :
  0 <= shift -> encodes (encode_len_loop n shift len) (low_bytes n (Z.shiftr len shift)).
Proof.
  revert shift. induction n as [|n IH]; intros shift Hs; simpl; [apply emits_finish |].
  apply (encodes_andthen _ _ [_]).
  - rewrite byte_land, <- byte_int8. apply encodes_i8.
  - rewrite Z.shiftr_shiftr by lia. apply IH. lia.
Qed.

Lemma bytes_at_all s : bytes_at s 0 (Z.of_nat (length s)) = Some s.
Proof.
  unfold bytes_at. rewrite (proj2 (Z.leb_le 0 (Z.of_nat (length s)))) by lia.
  rewrite (proj2 (Z.leb_le (0 + Z.of_nat (length s)) (Z.of_nat (length s)))) by lia. simpl.
  by rewrite Nat2Z.id, drop_0, take_ge.
Qed.

Lemma str_bytes_length s :
  Z.of_nat (length s) < 2 ^ 32 ->
  Z.of_nat (length (str_bytes s)) = encoded_length_str (Z.of_nat (length s)).
Proof.
  intros Hl. unfold encoded_length_str.
  destruct (str_cases (Z.of_nat (length s))) as (-> & _); [lia |].
  unfold str_bytes. simpl length. rewrite length_app, low_bytes_length. lia.
Qed.

Lemma encodes_str s :
  Z.of_nat (length s) < 2 ^ 32 ->
  encodes (encode_str (Some s) (Z.of_nat (length s))) (str_bytes s).
Proof.
  intros Hl. pose proof (str_bytes_length s Hl) as Hlen.
  destruct (str_cases (Z.of_nat (length s))) as (Hsz & Hn & Hc & Hcase); [lia |].
  intros w buf Hw. pose proof (wf_w_pos _ _ Hw) as Hp. unfold encode_str.
  rewrite (proj2 (Z.ltb_ge (encoded_length_str_len _) 0)) by lia.
  rewrite (proj2 (Z.ltb_ge (w_pos_ w) 0)), (proj2 (Z.ltb_ge (Z.of_nat (length s)) 0)) by lia.
  rewrite !orb_false_r. fold (encoded_length_str (Z.of_nat (length s))). rewrite <- Hlen.
  match goal with |- context [if negb (room _ w) then _ else ?c w] => set (body := c) end.
  cut (encodes (fun w => if room (Z.of_nat (length (str_bytes s))) w then body w
                         else Some (OB_ERROR, w)) (str_bytes s)).
  { intros H. specialize (H w buf Hw). cbv beta in H. by destruct (room _ w). }
  apply encodes_guard; [done |]. subst body. unfold str_bytes. cbv zeta.
  apply (fills_andthen _ _ [_]); [| apply fills_andthen].
  - apply encodes_fills, encodes_fail_as; [done |].
    rewrite <- (str_first_built (str_code (Z.of_nat (length s)))) by done.
    match goal with |- encodes (encode_i8 ?a) [byte ?b] => replace a with b end;
      [apply encodes_i8 |]. rewrite Hsz. unfold str_code.
    destruct Hcase as [[Hle ->] | [Hgt Hpos]].
    + rewrite (proj2 (Z.leb_le _ _)) by lia. simpl.
      do 2 f_equal. symmetry. apply byte_small. lia.
    + rewrite (proj2 (Z.leb_gt _ _)) by lia.
      rewrite (proj2 (Z.eqb_neq _ _)) by lia. do 2 f_equal. lia.
  - apply encodes_fills. rewrite Hsz. replace (1 + Z.of_nat _ - 1) with (Z.of_nat (str_len_bytes (Z.of_nat (length s)))) by lia.
    rewrite Nat2Z.id. destruct (str_len_bytes _) as [|n]; [apply emits_finish |].
    rewrite (proj2 (Z.ltb_lt _ _)) by lia.
    rewrite <- (Z.shiftr_0_r (Z.of_nat (length s))) at 2. by apply encodes_len_loop.
  - destruct (Z.ltb_spec 0 (Z.of_nat (length s))).
    + intros w' buf'. rewrite bytes_at_all, bind_some. apply fills_puts.
    + destruct s; [apply fills_finish | simpl in *; lia].
Qed.

Lemma decodes_len_loop n shift acc v :
  0 <= v < 2 ^ (8 * Z.of_nat n) -> 0 <= shift -> shift + 8 * Z.of_nat n <= 56 ->
  0 <= acc < 2 ^ shift ->
  decodes (decode_len_loop n shift acc) (low_bytes n v) (acc + v * 2 ^ shift).
Proof.
  revert shift acc v. induction n as [|n IH]; intros shift acc v Hv Hs H56 Ha; simpl.
  - replace (acc + v * 2 ^ shift) with acc by (simpl in Hv; lia). apply decodes_rret.
  - apply (decodes_rthen _ _ _ [_] _ (int8 (byte v))).
    { replace (byte (Z.land v 255)) with (byte (int8 (byte v)))
        by (by rewrite byte_int8, byte_byte, byte_land).
      apply decodes_i8. apply (wraps_range 8). lia. }
    rewrite u8_int8_byte. pose proof (byte_range v) as Hb. rewrite byte_mod in Hb |- *.
    pose proof (Z.pow_pos_nonneg 2 shift ltac:(lia) Hs) as Hpow.
    assert (Hp8 : 2 ^ (shift + 8) = 2 ^ shift * 256) by (by rewrite Z.pow_add_r by lia).
    assert (2 ^ (shift + 8) <= 2 ^ 56) by (apply Z.pow_le_mono_r; lia).
    rewrite wraps_small; [| rewrite Z.shiftl_mul_pow2 by lia; change (64 - 1) with 63; nia | lia].
    rewrite lor_shiftl by lia.
    replace (acc + v * 2 ^ shift)
      with (acc + v mod 256 * 2 ^ shift + Z.shiftr v 8 * 2 ^ (shift + 8)).
    + apply IH; [by apply shiftr_8 | lia | lia | nia].
    + rewrite Hp8, Z.shiftr_div_pow2 by lia. change (2 ^ 8) with 256.
      pose proof (Z.div_mod v 256). nia.
Qed.

(** The string comes back, with its length. *)
Lemma decodes_str s lenp r buf rest :
  Z.of_nat (length s) < 2 ^ 31 ->
  let len := Z.of_nat (length s) in
  unread r buf (low_bytes (str_len_bytes len) len ++ s ++ rest) ->
  exists r', decode_str (int8 (128 + str_code len)) lenp r = Some (Some s, len, r') /\
    unread r' buf rest.
Proof.
  intros Hl len Hu. destruct (str_cases len) as (Hsz & Hn & Hc & Hcase); [lia |].
  unfold decode_str. rewrite (un_buf _ _ _ Hu), (un_size _ _ _ Hu).
  rewrite (proj2 (Z.ltb_ge (Z.of_nat (length buf)) 0)) by lia.
  rewrite str_first_read by done.
  set (c := if str_code len <=? OB_MAX_1B_STR_LEN then _ else _).
  assert (Hd : decodes c (low_bytes (str_len_bytes len) len) len).
  { subst c. unfold str_code. destruct Hcase as [[Hle ->] | [Hgt Hpos]].
    - rewrite (proj2 (Z.leb_le len OB_MAX_1B_STR_LEN)) by lia.
      rewrite (proj2 (Z.leb_le len OB_MAX_1B_STR_LEN)) by lia.
      apply decodes_rret.
    - rewrite (proj2 (Z.leb_gt len OB_MAX_1B_STR_LEN)) by lia.
      rewrite (proj2 (Z.leb_gt _ OB_MAX_1B_STR_LEN)) by lia.
      replace (OB_MAX_1B_STR_LEN + Z.of_nat _ - OB_MAX_1B_STR_LEN)
        with (Z.of_nat (str_len_bytes len)) by lia. rewrite Nat2Z.id.
      pose proof (decodes_len_loop (str_len_bytes len) 0 0 len) as H.
      replace (0 + len * 2 ^ 0) with len in H by lia. apply H; simpl; lia. }
  destruct (Hd r buf (s ++ rest) Hu) as (r1 & -> & Hu1). rewrite bind_some. simpl.
  rewrite (proj2 (Z.leb_le 0 len)) by lia. rewrite (un_size _ _ _ Hu1).
  pose proof (unread_skip r1 buf s rest Hu1) as Hu2. pose proof (un_pos _ _ _ Hu2) as Hp2.
  simpl in Hp2. rewrite (proj2 (Z.leb_le len _)) by lia. simpl.
  unfold len. rewrite (bytes_at_unread r1 buf s rest Hu1), bind_some.
  exists (skip r1 (Z.of_nat (length s))). rewrite wraps_small by lia. done.
Qed.

(** ** The other cells *)

Definition float_first (first : Z) (add : bool) : Z := first + (if add then 1 else 0).

Lemma encodes_first first v : v = byte first -> encodes (encode_i8 first) [v].
Proof. intros ->. apply encodes_i8. Qed.

Lemma encodes_float_type bits add :
  0 <= bits < 2 ^ 32 ->
  encodes (encode_float_type bits add)
    (float_first 0xf8 add :: [byte (Z.shiftr (int32 bits) 24); byte (Z.shiftr (int32 bits) 16);
       byte (Z.shiftr (int32 bits) 8); byte (int32 bits)]).
Proof.
  intros Hb. apply (encodes_andthen _ _ [_]); [| apply encodes_i32].
  apply encodes_fail_as; [done |]. apply encodes_first. by destruct add.
Qed.

Lemma decodes_float_type (add : bool) bits :
  0 <= bits < 2 ^ 32 ->
  decodes (decode_float_type (int8 (float_first 0xf8 add)))
    [byte (Z.shiftr (int32 bits) 24); byte (Z.shiftr (int32 bits) 16);
     byte (Z.shiftr (int32 bits) 8); byte (int32 bits)] (bits, add).
Proof.
  intros Hb. apply decodes_rguard; [done |].
  eapply decodes_rmap; [apply decodes_rfail_as, decodes_i32; apply (wraps_range 32); lia |].
  intros r. unfold rret, wrapu. rewrite mod_wraps, Z.mod_small by lia. by destruct add.
Qed.

Lemma encodes_double_type bits add :
  0 <= bits < 2 ^ 64 ->
  encodes (encode_double_type bits add) (float_first 0xfa add :: be64 (int64 bits)).
Proof.
  intros Hb. apply (encodes_andthen _ _ [_]); [| apply encodes_i64].
  apply encodes_fail_as; [done |]. apply encodes_first. by destruct add.
Qed.

Lemma decodes_double_type (add : bool) bits :
  0 <= bits < 2 ^ 64 ->
  decodes (decode_double_type (int8 (float_first 0xfa add))) (be64 (int64 bits)) (bits, add).
Proof.
  intros Hb. apply decodes_rguard; [done |].
  eapply decodes_rmap; [apply decodes_rfail_as, decodes_i64; apply (wraps_range 64); lia |].
  intros r. unfold rret, wrapu. rewrite mod_wraps, Z.mod_small by lia. by destruct add.
Qed.

(** A check that only refuses what has no room anyway. *)
Lemma encodes_precheck (t : ObBufferWriter -> bool) c c' bs code :
  (forall w buf, writer_wf w buf ->
     t w = true \/ Z.of_nat (length buf) < w_pos_ w + Z.of_nat (length bs)) ->
  (forall w buf, writer_wf w buf -> t w = true -> c' w = c w) ->
  (forall w buf, writer_wf w buf -> t w = false -> c' w = Some (code, w)) ->
  code <> OB_SUCCESS -> encodes c bs -> encodes c' bs.
Proof.
  intros Ht Htrue Hfalse Hcode Hc w buf Hw. destruct (t w) eqn:E.
  - rewrite (Htrue w buf) by done. by apply Hc.
  - rewrite (Hfalse w buf) by done. exists code, w, buf. conjs; [done | done | done |].
    destruct (Ht w buf Hw) as [|Hr]; [congruence |].
    by rewrite (proj2 (Z.leb_gt _ _) Hr).
Qed.

Lemma room_or_short n w buf (bs : list Z) :
  writer_wf w buf -> n <= Z.of_nat (length bs) ->
  room n w = true \/ Z.of_nat (length buf) < w_pos_ w + Z.of_nat (length bs).
Proof.
  intros Hw Hn. rewrite (room_wf n w buf Hw).
  destruct (Z.leb_spec (w_pos_ w + n) (Z.of_nat (length buf))); [by left | right; lia].
Qed.

(** Times: the low bits of the first byte say how many bytes follow. *)
Definition time_len (a : Z) : nat := if a <=? OB_MAX_4B then 4 else if a <=? OB_MAX_6B then 6 else 8.
Definition time_mark (a : Z) : Z := if a <=? OB_MAX_4B then 0 else if a <=? OB_MAX_6B then 1 else 2.

Lemma time_cases a :
  0 <= a < 2 ^ 64 ->
  a < 2 ^ (8 * Z.of_nat (time_len a)) /\
  (time_len a = 4%nat /\ time_mark a = 0 \/ time_len a = 6%nat /\ time_mark a = 1 \/
   time_len a = 8%nat /\ time_mark a = 2).
Proof.
  intros Ha. unfold time_len, time_mark. rewrite !Z.shiftl_1_l.
  destruct (Z.leb_spec a (2 ^ 32 - 1)); [simpl; lia |].
  destruct (Z.leb_spec a (2 ^ 48 - 1)); simpl; lia.
Qed.

Lemma encoded_length_datetime_len val :
  - 2 ^ 63 <= val < 2 ^ 63 -> encoded_length_datetime val = 1 + Z.of_nat (time_len (Z.abs val)).
Proof.
  intros Hv. unfold encoded_length_datetime, time_len. rewrite safe_int64_abs_abs by done.
  by repeat case_match.
Qed.

Lemma encodes_time_type first val :
  - 2 ^ 63 <= val < 2 ^ 63 ->
  encodes (__encode_time_type first val)
    (byte (Z.lor first (time_mark (Z.abs val))) :: low_bytes (time_len (Z.abs val)) (Z.abs val)).
Proof.
  intros Hv. unfold __encode_time_type.
  rewrite (encoded_length_datetime_len val Hv), (safe_int64_abs_abs val Hv).
  set (a := Z.abs val). apply encodes_guard; [simpl; rewrite low_bytes_length; lia |].
  apply fills_commit, (fills_andthen _ _ [_]); apply encodes_fills.
  - apply encodes_first. f_equal.
    destruct (time_cases a) as [_ [[-> ->] | [[-> ->] | [-> ->]]]]; [lia | | done | done].
    by rewrite Z.lor_0_r.
  - replace (1 + Z.of_nat (time_len a) - 1) with (Z.of_nat (time_len a)) by lia.
    apply encodes_uint. unfold time_len. repeat case_match; lia.
Qed.

Lemma decodes_time_type first val :
  - 2 ^ 63 <= val < 2 ^ 63 -> Z.land first OB_DATETIME_LEN_MASK = time_mark (Z.abs val) ->
  decodes (__decode_time_type first) (low_bytes (time_len (Z.abs val)) (Z.abs val))
    (int64 (Z.abs val)).
Proof.
  intros Hv Hf. set (a := Z.abs val) in *. apply decodes_rguard; [lia |]. rewrite Hf.
  destruct (time_cases a) as [Ha [[Hn ->] | [[Hn ->] | [Hn ->]]]]; [lia | | |]; rewrite Hn in *;
    (eapply decodes_rmap; [| done]); [apply (decodes_uint a 4) | apply (decodes_uint a 6) |
    apply (decodes_uint a 8)]; lia.
Qed.

Definition time_first (base : Z) (neg add : bool) (mark : Z) : Z :=
  base + (if add then 8 else 0) + (if neg then 4 else 0) + mark.

Definition time_bytes (base val : Z) (add : bool) : list Z :=
  time_first base (val <? 0) add (time_mark (Z.abs val)) ::
  low_bytes (time_len (Z.abs val)) (Z.abs val).

Lemma time_mark_range a : 0 <= time_mark a < 3.
Proof. unfold time_mark. repeat case_match; lia. Qed.

Lemma datetime_first_built base (neg add : bool) mark :
  base = 0xd0 \/ base = 0xe0 -> 0 <= mark < 3 ->
  byte (Z.lor (let f := int8 base in
               let f := if neg then set_bit f OB_DATETIME_SIGN_BIT else f in
               if add then set_bit f OB_DATETIME_OPERATION_BIT else f) mark)
  = time_first base neg add mark.
Proof.
  intros Hb Hm. apply Z.eqb_eq. revert mark Hm. apply forall_below.
  destruct Hb as [-> | ->], neg, add; by vm_compute.
Qed.

Lemma datetime_first_read base (neg add : bool) mark :
  base = 0xd0 \/ base = 0xe0 -> 0 <= mark < 3 ->
  test_bit (int8 (time_first base neg add mark)) OB_DATETIME_SIGN_BIT = neg /\
  test_bit (int8 (time_first base neg add mark)) OB_DATETIME_OPERATION_BIT = add /\
  Z.land (int8 (time_first base neg add mark)) OB_DATETIME_LEN_MASK = mark.
Proof.
  intros Hb Hm. assert (mark = 0 \/ mark = 1 \/ mark = 2) as [-> | [-> | ->]] by lia;
    destruct Hb as [-> | ->], neg, add; by vm_compute.
Qed.

Lemma encodes_datetime_as base val add :
  base = 0xd0 \/ base = 0xe0 -> - 2 ^ 63 <= val < 2 ^ 63 ->
  encodes (encode_datetime_as (int8 base) val add) (time_bytes base val add).
Proof.
  intros Hb Hv. unfold encode_datetime_as, guard, time_bytes.
  rewrite <- datetime_first_built by (done || apply time_mark_range).
  eapply (encodes_precheck (room 1)); [| | | |by apply encodes_time_type].
  - intros w buf Hw. apply room_or_short; [done | simpl; lia].
  - by intros w buf _ ->.
  - by intros w buf _ ->.
  - done.
Qed.

Lemma decodes_datetime base val add :
  base = 0xd0 \/ base = 0xe0 -> - 2 ^ 63 <= val < 2 ^ 63 ->
  decodes (decode_datetime_type
      (int8 (time_first base (val <? 0) add (time_mark (Z.abs val)))))
    (low_bytes (time_len (Z.abs val)) (Z.abs val)) (val, add).
Proof.
  intros Hb Hv. apply decodes_rguard; [lia |]. cbv zeta.
  destruct (datetime_first_read base (val <? 0) add (time_mark (Z.abs val))) as (-> & -> & Hm);
    [done | apply time_mark_range |].
  eapply decodes_rmap; [by apply decodes_time_type |].
  intros r. unfold rret. by rewrite int_signed.
Qed.

Lemma encodes_time_as base val :
  base = 0xf0 \/ base = 0xf4 -> 0 <= val < 2 ^ 63 ->
  encodes (encode_time_as (int8 base) val) (time_bytes base val false).
Proof.
  intros Hb Hv. unfold encode_time_as, time_bytes. rewrite (proj2 (Z.ltb_ge val 0)) by lia.
  assert (Hf : time_first base false false (time_mark (Z.abs val))
    = byte (Z.lor (int8 base) (time_mark (Z.abs val)))).
  { unfold time_mark. by destruct Hb as [-> | ->]; repeat case_match. }
  rewrite Hf. eapply (encodes_precheck (room 1)); [| | | |apply encodes_time_type; lia].
  - intros w buf Hw. apply room_or_short; [done | simpl; lia].
  - by intros w buf _ ->.
  - by intros w buf _ ->.
  - done.
Qed.

Lemma decodes_time base val :
  base = 0xf0 \/ base = 0xf4 -> 0 <= val < 2 ^ 63 ->
  decodes (decode_modifytime_type
      (int8 (time_first base false false (time_mark (Z.abs val)))))
    (low_bytes (time_len (Z.abs val)) (Z.abs val)) val.
Proof.
  intros Hb Hv. apply decodes_rguard.
  { rewrite low_bytes_length. unfold time_len. repeat case_match; lia. }
  replace val with (int64 (Z.abs val)) at 4 by (rewrite wraps_small; lia).
  apply decodes_time_type; [lia |]. unfold time_mark.
  by destruct Hb as [-> | ->]; repeat case_match.
Qed.

(** Booleans. *)
Lemma encodes_bool_type b : encodes (encode_bool_type b) [0xfd; if b then 1 else 0].
Proof.
  apply encodes_fail_as; [done |].
  apply (encodes_andthen _ _ [_] [_]); [by apply encodes_first | apply encodes_bool].
Qed.

Lemma decodes_bool_type (b : bool) : decodes decode_bool_type [if b then 1 else 0] b.
Proof. apply decodes_rguard; [done |]. apply decodes_rfail_as, decodes_bool. Qed.

(** Decimals. *)
Definition words_bytes (ws : list Z) : list Z := concat (map (fun w => vi32 (int32 w)) ws).

Definition decimal_fields (add : bool) (precision scale vscale : Z) (ws : list Z) : list Z :=
  [if add then 1 else 0; byte precision; byte scale; byte vscale; byte (Z.of_nat (length ws))]
  ++ words_bytes ws.

Lemma encodes_words ws : encodes (encode_words ws) (words_bytes ws).
Proof.
  induction ws as [|w ws IH]; [apply emits_finish |]. apply encodes_andthen; [| done].
  apply encodes_vi32.
Qed.

Lemma encodes_decimal_type (add : bool) precision scale vscale ws rest :
  encodes (encode_decimal_type add precision scale vscale (Z.of_nat (length ws)) (Some (ws ++ rest)))
    (0xff :: decimal_fields add precision scale vscale ws).
Proof.
  eapply (encodes_precheck (room 1) _ _ _ OB_INVALID_ARGUMENT).
  - intros w buf Hw. apply room_or_short; [done | simpl; lia].
  - intros w buf Hw Hr. rewrite (room_wf 1 w buf Hw) in Hr. apply Z.leb_le in Hr.
    destruct Hw as [Hb Hs Hp]. unfold encode_decimal_type. rewrite Hb.
    rewrite (proj2 (Z.leb_gt (w_buf_size_ w) 0)), (proj2 (Z.leb_gt (w_buf_size_ w) (w_pos_ w))) by lia.
    reflexivity.
  - intros w buf Hw Hr. rewrite (room_wf 1 w buf Hw) in Hr. apply Z.leb_gt in Hr.
    destruct Hw as [Hb Hs Hp]. unfold encode_decimal_type. rewrite Hb.
    rewrite (proj2 (Z.leb_le (w_buf_size_ w) (w_pos_ w))) by lia. by rewrite orb_true_r.
  - done.
  - unfold decimal_fields.
    apply (encodes_andthen _ _ [_]); [by apply encodes_first |].
    apply (encodes_andthen _ _ [_]); [by apply encodes_first; destruct add |].
    do 4 (apply (encodes_andthen _ _ [_]); [by apply encodes_first |]).
    eapply emits_ext; [| apply encodes_words]. intros w. rewrite length_app.
    rewrite (proj2 (Z.leb_le _ _)) by lia. by rewrite Nat2Z.id, take_app_length.
Qed.

Lemma decodes_words ws cap :
  Forall (fun w => 0 <= w < 2 ^ 32) ws -> Z.of_nat (length ws) <= cap ->
  decodes (decode_words (length ws) cap) (words_bytes ws) ws.
Proof.
  revert cap. induction ws as [|w ws IH]; intros cap Hws Hcap; [apply decodes_rret |].
  inversion Hws as [|? ? Hw Hws']; subst. intros r buf rest Hu. simpl in Hcap |- *.
  rewrite (proj2 (Z.leb_gt cap 0)) by lia.
  refine (decodes_rthen _ _ _ _ _ _ _ _ _ r buf rest Hu).
  - apply decodes_vi32. apply (wraps_range 32). lia.
  - eapply decodes_rmap; [apply IH; [done | lia] |]. intros r'. unfold rret, wrapu.
    by rewrite mod_wraps, Z.mod_small by lia.
Qed.

Lemma decodes_decimal_type cap (add : bool) precision scale vscale ws :
  -128 <= precision < 128 -> -128 <= scale < 128 -> -128 <= vscale < 128 ->
  Forall (fun w => 0 <= w < 2 ^ 32) ws -> Z.of_nat (length ws) <= cap -> cap < 128 ->
  decodes (decode_decimal_type cap) (decimal_fields add precision scale vscale ws)
    (add, precision, scale, vscale, Z.of_nat (length ws), ws).
Proof.
  intros Hp Hs Hv Hws Hlen Hcap r buf rest Hu. unfold decode_decimal_type.
  pose proof (unread_skip _ _ _ _ Hu) as Hu'. pose proof (un_pos _ _ _ Hu') as Hpos.
  simpl in Hpos. pose proof (un_pos _ _ _ Hu).
  rewrite (un_buf _ _ _ Hu), (un_size _ _ _ Hu).
  rewrite (proj2 (Z.leb_gt _ 0)), (proj2 (Z.leb_gt _ (r_pos_ r))) by lia. simpl.
  revert r buf rest Hu Hu' Hpos H. intros r buf rest Hu _ _ _. revert r buf rest Hu.
  unfold decimal_fields. fold (decodes (A := bool * Z * Z * Z * Z * list Z)).
  apply (decodes_rthen _ _ _ [_] _ (if add then 1 else 0)).
  { by destruct add; [apply (decodes_i8 1) | apply (decodes_i8 0)]. }
  apply (decodes_rthen _ _ _ [_]) with precision; [by apply decodes_i8 |].
  apply (decodes_rthen _ _ _ [_]) with scale; [by apply decodes_i8 |].
  apply (decodes_rthen _ _ _ [_]) with vscale; [by apply decodes_i8 |].
  apply (decodes_rthen _ _ _ [_]) with (Z.of_nat (length ws)); [apply decodes_i8; lia |].
  eapply decodes_rmap; [rewrite Nat2Z.id; by apply decodes_words |].
  intros r. unfold rret. by destruct add.
Qed.

(** Extended values. *)
Lemma encodes_extend_type val :
  encodes (encode_extend_type val) (0xfe :: vi64 val).
Proof.
  eapply (encodes_precheck (room (encoded_length_extend val))).
  - intros w buf Hw. apply room_or_short; [done |]. unfold encoded_length_extend.
    rewrite encoded_length_vi64_length. simpl length. lia.
  - intros w buf Hw Hr. unfold encode_extend_type. rewrite Hr.
    destruct Hw as [_ Hs _]. rewrite (proj2 (Z.ltb_ge (w_buf_size_ w) 0)) by lia. reflexivity.
  - intros w buf _ Hr. unfold encode_extend_type. by rewrite Hr.
  - done.
  - apply encodes_commit, (encodes_andthen _ _ [_]); [by apply encodes_first | apply encodes_vi64].
Qed.

(** Strings with a final zero. *)
Lemma encodes_vstr s :
  encoded_length_vstr (Z.of_nat (length s)) < 2 ^ 31 ->
  encodes (encode_vstr (Some s) (Z.of_nat (length s)))
    (vi64 (Z.of_nat (length s)) ++ s ++ [0]).
Proof.
  intros Hlen. set (len := Z.of_nat (length s)) in *.
  assert (Hl : encoded_length_vstr len = Z.of_nat (length (vi64 len ++ s ++ [0]))).
  { unfold encoded_length_vstr. rewrite encoded_length_vi64_length, !length_app. simpl. lia. }
  assert (0 <= encoded_length_vstr len) by lia.
  eapply emits_ext; [| apply encodes_guard; [exact Hl |]].
  { intros w. unfold encode_vstr, guard. rewrite wraps_small by (change (32 - 1) with 31; lia).
    rewrite (proj2 (Z.leb_le 0 len)) by lia. rewrite andb_true_r. reflexivity. }
  intros w buf Hw Hroom. rewrite !length_app in Hroom. simpl length in Hroom.
  destruct (encodes_fills _ _ (encodes_vi64 len) w buf Hw)
    as (w1 & buf1 & -> & Hw1 & Hl1 & Hp1 & Hc1); [lia |].
  destruct (fills_puts s w1 buf1 Hw1) as (w2 & buf2 & E2 & Hw2 & Hl2 & Hp2 & Hc2); [lia |].
  destruct (fills_puts [0] w2 buf2 Hw2) as (w3 & buf3 & E3 & Hw3 & Hl3 & Hp3 & Hc3);
    [simpl length; lia |].
  exists w3, buf3. conjs; [| done | lia | rewrite !length_app; simpl length in *; lia |
    by rewrite Hc3, Hc2, Hc1, <- !app_assoc].
  rewrite bind_some. change (OB_SUCCESS =? OB_SUCCESS) with true. simpl andb.
  assert ((if 0 <? len then copied ← bytes_at s 0 len ; puts copied w1
           else Some (OB_SUCCESS, w1)) = Some (OB_SUCCESS, w2)) as ->; [| by rewrite bind_some, E3].
  destruct (Z.ltb_spec 0 len); [by rewrite bytes_at_all, bind_some |].
  destruct s; [| simpl in *; lia]. rewrite <- E2. unfold puts.
  destruct Hw1 as [Hb1 Hs1 Hp]. rewrite Hb1, bind_some. unfold store_at.
  rewrite (proj2 (Z.leb_le 0 _)), (proj2 (Z.leb_le _ (Z.of_nat (length buf1)))) by (simpl; lia).
  simpl. rewrite Nat.add_0_r, take_drop, Z.add_0_r. f_equal. f_equal. by destruct w1; simpl in *; subst.
Qed.

(** The string comes back, and the position is just past its zero. *)
Lemma decodes_vstr s lenp r buf rest :
  Z.of_nat (length s) < 2 ^ 63 ->
  let len := Z.of_nat (length s) in
  unread r buf (vi64 len ++ s ++ [0] ++ rest) ->
  exists r', decode_vstr lenp r = Some (Some s, len, r') /\ unread r' buf rest.
Proof.
  intros Hs len Hu. unfold decode_vstr. pose proof (un_pos _ _ _ Hu).
  rewrite (un_buf _ _ _ Hu), (un_size _ _ _ Hu).
  rewrite (proj2 (Z.ltb_ge (Z.of_nat (length buf)) 0)), (proj2 (Z.ltb_ge (r_pos_ r) 0)) by lia.
  simpl orb. cbv iota.
  destruct (decodes_vi64 len ltac:(lia) r buf _ Hu) as (r1 & -> & Hu1). rewrite bind_some.
  simpl. rewrite (proj2 (Z.leb_le 0 len)) by lia. rewrite (un_size _ _ _ Hu1).
  pose proof (unread_skip r1 buf s _ Hu1) as Hu2. pose proof (un_pos _ _ _ Hu2) as Hp2.
  simpl in Hp2. rewrite (proj2 (Z.leb_le len _)) by lia.
  unfold len. rewrite (bytes_at_unread r1 buf s _ Hu1), bind_some.
  exists (skip r1 (Z.of_nat (length s) + 1)). split; [done |].
  pose proof (unread_skip _ _ [0] rest Hu2) as Hu3. unfold skip in *. simpl in Hu3.
  by rewrite Z.add_assoc.
Qed.
