(* ===== verification/ObObjectSerialize.v ===== *)
(** * ObObjectSerialize: cells on the wire

    Models [serialize], [deserialize] and [get_serialize_size] of [ObObj]
    ([common/ob_object.cpp]) over the functions of [Serialization], and proves
    the round trip for every kind of cell. *)

From S2P Require Import Prelude ObBuffer ObNumber ObObject Serialization SerializationLaws.
Local Open Scope Z_scope.

Definition float_val (o : ObObj) : Z := match value_ o with UFloat b => b | _ => 0 end.
Definition double_val (o : ObObj) : Z := match value_ o with UDouble b => b | _ => 0 end.
Definition varchar_val (o : ObObj) : list Z := match value_ o with UVarchar s => s | _ => [] end.
Definition bool_val (o : ObObj) : bool := match value_ o with UBool b => b | _ => false end.
Definition dec_words (o : ObObj) : list Z := match value_ o with UWords ws => ws | _ => [] end.

(** The words of a decimal are at [val_len_] when there are at most three and
    behind [dec_words_] otherwise; here they are a list in both cases. *)
Definition serialize (o : ObObj) : Writing :=
  commit
    match type_ o with
    | ObNullType => encode_null
    | ObIntType => encode_int (int_val o) (op_flag_ o =? ADD)
    | ObVarcharType => encode_str (Some (varchar_val o)) (Z.of_nat (length (varchar_val o)))
    | ObFloatType => encode_float_type (float_val o) (op_flag_ o =? ADD)
    | ObDoubleType => encode_double_type (double_val o) (op_flag_ o =? ADD)
    | ObDateTimeType => encode_datetime_type (int_val o) (op_flag_ o =? ADD)
    | ObPreciseDateTimeType => encode_precise_datetime_type (int_val o) (op_flag_ o =? ADD)
    | ObModifyTimeType => encode_modifytime_type (int_val o)
    | ObCreateTimeType => encode_createtime_type (int_val o)
    | ObSeqType => finish OB_SUCCESS
    | ObExtendType => encode_extend_type (int_val o)
    | ObBoolType => encode_bool_type (bool_val o)
    | ObDecimalType =>
        encode_decimal_type (op_flag_ o =? ADD) (dec_precision_ o) (dec_scale_ o) (dec_vscale_ o)
          (int8 (dec_nwords_ o + 1)) (Some (dec_words o))
    end.

(** A cell as [deserialize] leaves it: [reset], the tag, the flag, the value. *)
Definition cell (t : ObObjType) (is_add : bool) (v : ObjValue) : ObObj :=
  mkObj t (if is_add then ADD else INVALID_OP_FLAG) 0 0 0 0 v.

Definition rmap {A B} (f : A -> B) (c : Reading A) : Reading B := fun r =>
  '(ret, a, r) ← c r ; Some (ret, f a, r).

Definition deserialize_varchar (first_byte : Z) : Reading ObObj := fun r =>
  '(str, val_len, r) ← decode_str first_byte 0 r ;
  match str with
  | None => Some (OB_ERROR, cell ObVarcharType false (UVarchar []), r)
  | Some s => Some (OB_SUCCESS, cell ObVarcharType false (UVarchar s), r)
  end.

(** The array [words] has [ObNumber::MAX_NWORDS] words; a negative [n] makes the
    size of the [memcpy] wrap around. *)
Definition deserialize_decimal : Reading ObObj := fun r =>
  '(ret, (is_add, p, s, vs, n, words), r) ← decode_decimal_type MAX_NWORDS r ;
  let flag := if is_add : bool then ADD else INVALID_OP_FLAG in
  if ret =? OB_SUCCESS then
    let o v := mkObj ObDecimalType flag (Z.land (u8 vs) 0x3F) (Z.land (u8 p) 0x7F)
                 (Z.land (u8 s) 0x3F) (Z.land (u8 (n - 1)) 0x7) v in
    if n <=? 3 then
      if n <? 0 then None else Some (OB_SUCCESS, o (UWords words), r)
    else Some (OB_NOT_IMPLEMENT, o (UInt 0), r)
  else Some (ret, cell ObDecimalType is_add (UInt 0), r).

(** The switch on the first byte. *)
Definition deserialize_tagged (first_byte : Z) : Reading ObObj :=
  let unexpected := rfail (cell ObNullType false (UInt 0)) OB_ERR_UNEXPECTED in
  let type := Z.shiftr (Z.land first_byte 0xc0) 6 in
  if (type =? 0) || (type =? 1) then
    rmap (fun '(v, is_add) => cell ObIntType is_add (UInt v)) (decode_int first_byte)
  else if type =? 2 then deserialize_varchar first_byte
  else if type =? 3 then
    let sub_type := Z.shiftr (Z.land first_byte 0x30) 4 in
    if sub_type =? 0 then rret (cell ObNullType false (UInt 0))
    else if sub_type =? 1 then
      rmap (fun '(v, is_add) => cell ObDateTimeType is_add (UInt v))
        (decode_datetime_type first_byte)
    else if sub_type =? 2 then
      rmap (fun '(v, is_add) => cell ObPreciseDateTimeType is_add (UInt v))
        (decode_precise_datetime_type first_byte)
    else if sub_type =? 3 then
      let sub_sub_type := Z.shiftr (Z.land first_byte 0x0c) 2 in
      if sub_sub_type =? 0 then
        rmap (fun v => cell ObModifyTimeType false (UInt v)) (decode_modifytime_type first_byte)
      else if sub_sub_type =? 1 then
        rmap (fun v => cell ObCreateTimeType false (UInt v)) (decode_createtime_type first_byte)
      else if sub_sub_type =? 2 then
        if negb (Z.land first_byte 0x02 =? 0) then
          rmap (fun '(v, is_add) => cell ObDoubleType is_add (UDouble v))
            (decode_double_type first_byte)
        else
          rmap (fun '(v, is_add) => cell ObFloatType is_add (UFloat v))
            (decode_float_type first_byte)
      else if sub_sub_type =? 3 then
        let sub_sub_sub_type := Z.land first_byte 0x03 in
        if sub_sub_sub_type =? 0 then rret (cell ObNullType false (UInt 0))
        else if sub_sub_sub_type =? 1 then
          rmap (fun b => cell ObBoolType false (UBool b)) decode_bool_type
        else if sub_sub_sub_type =? 3 then deserialize_decimal
        else unexpected
      else unexpected
    else unexpected
  else unexpected.

(** The object after a failed call has no more than its tag and flag set. *)
Definition deserialize : Reading ObObj :=
  rcommit (rthen ObObj_new decode_i8 (fun first_byte =>
    if OB_EXTEND_TYPE =? first_byte then
      rmap (fun v => cell ObExtendType false (UInt v)) decode_vi64
    else deserialize_tagged first_byte)).

Definition get_serialize_size (o : ObObj) : Z :=
  match type_ o with
  | ObNullType => encoded_length_null
  | ObIntType => encoded_length_int (int_val o)
  | ObVarcharType => encoded_length_str (Z.of_nat (length (varchar_val o)))
  | ObFloatType => encoded_length_float_type
  | ObDoubleType => encoded_length_double_type
  | ObDateTimeType => encoded_length_datetime (int_val o)
  | ObPreciseDateTimeType => encoded_length_precise_datetime (int_val o)
  | ObModifyTimeType => encoded_length_modifytime (int_val o)
  | ObCreateTimeType => encoded_length_createtime (int_val o)
  | ObSeqType => 0
  | ObExtendType => encoded_length_extend (int_val o)
  | ObBoolType => encoded_length_bool_type
  | ObDecimalType =>
      if dec_nwords_ o + 1 <=? 3 then encoded_length_decimal_type (dec_nwords_ o) (dec_words o)
      else encoded_length_decimal_type (int8 (dec_nwords_ o + 1)) (dec_words o)
  end.

(** ** The cells that have a form on the wire

    Those the setters make; a string's length fits [val_len_], the two
    modification times are not negative, a decimal has at most three words. *)
Inductive wire_cell : ObObj -> Prop :=
  | wire_null : wire_cell (cell ObNullType false (UInt 0))
  | wire_int v add : - 2 ^ 63 <= v < 2 ^ 63 -> wire_cell (cell ObIntType add (UInt v))
  | wire_varchar s : Z.of_nat (length s) < 2 ^ 31 -> wire_cell (cell ObVarcharType false (UVarchar s))
  | wire_float b add : 0 <= b < 2 ^ 32 -> wire_cell (cell ObFloatType add (UFloat b))
  | wire_double b add : 0 <= b < 2 ^ 64 -> wire_cell (cell ObDoubleType add (UDouble b))
  | wire_datetime v add : - 2 ^ 63 <= v < 2 ^ 63 -> wire_cell (cell ObDateTimeType add (UInt v))
  | wire_precise_datetime v add :
      - 2 ^ 63 <= v < 2 ^ 63 -> wire_cell (cell ObPreciseDateTimeType add (UInt v))
  | wire_modifytime v : 0 <= v < 2 ^ 63 -> wire_cell (cell ObModifyTimeType false (UInt v))
  | wire_createtime v : 0 <= v < 2 ^ 63 -> wire_cell (cell ObCreateTimeType false (UInt v))
  | wire_extend v : - 2 ^ 63 <= v < 2 ^ 63 -> wire_cell (cell ObExtendType false (UInt v))
  | wire_bool b : wire_cell (cell ObBoolType false (UBool b))
  | wire_decimal (add : bool) p s vs ws :
      0 <= p < 128 -> 0 <= s < 64 -> 0 <= vs < 64 -> (1 <= length ws <= 3)%nat ->
      Forall (fun w => 0 <= w < 2 ^ 32) ws ->
      wire_cell (mkObj ObDecimalType (if add then ADD else INVALID_OP_FLAG) vs p s
                   (Z.of_nat (length ws) - 1) (UWords ws)).

(** Its bytes. *)
Definition cell_bytes (o : ObObj) : list Z :=
  let add := op_flag_ o =? ADD in
  match type_ o with
  | ObNullType => [0xfc]
  | ObIntType => int_bytes (int_val o) add
  | ObVarcharType => str_bytes (varchar_val o)
  | ObFloatType =>
      let v := int32 (float_val o) in
      float_first 0xf8 add :: [byte (Z.shiftr v 24); byte (Z.shiftr v 16); byte (Z.shiftr v 8); byte v]
  | ObDoubleType => float_first 0xfa add :: be64 (int64 (double_val o))
  | ObDateTimeType => time_bytes 0xd0 (int_val o) add
  | ObPreciseDateTimeType => time_bytes 0xe0 (int_val o) add
  | ObModifyTimeType => time_bytes 0xf0 (int_val o) false
  | ObCreateTimeType => time_bytes 0xf4 (int_val o) false
  | ObSeqType => []
  | ObExtendType => 0xfe :: vi64 (int_val o)
  | ObBoolType => [0xfd; if bool_val o then 1 else 0]
  | ObDecimalType =>
      0xff :: decimal_fields add (dec_precision_ o) (dec_scale_ o) (dec_vscale_ o) (dec_words o)
  end.

Lemma add_flag (add : bool) : ((if add then ADD else INVALID_OP_FLAG) =? ADD) = add.
Proof. by destruct add. Qed.

Lemma serialize_encodes o : wire_cell o -> encodes (serialize o) (cell_bytes o).
Proof.
  intros Ho. apply encodes_commit. destruct Ho as
    [ | v add Hv | s Hs | b add Hb | b add Hb | v add Hv | v add Hv | v Hv | v Hv | v Hv | b
    | add p s vs ws Hp Hs Hvs Hn Hws ]; unfold cell_bytes, cell; cbn [type_ op_flag_];
    rewrite ?add_flag.
  - by apply encodes_first.
  - by apply encodes_int.
  - apply encodes_str. unfold varchar_val. cbn [value_]. lia.
  - by apply encodes_float_type.
  - by apply encodes_double_type.
  - apply encodes_datetime_as; [by left | done].
  - apply encodes_datetime_as; [by right | done].
  - apply encodes_time_as; [by left | done].
  - apply encodes_time_as; [by right | done].
  - apply encodes_extend_type.
  - apply encodes_bool_type.
  - cbn [dec_nwords_ dec_precision_ dec_scale_ dec_vscale_ dec_words value_].
    replace (Z.of_nat (length ws) - 1 + 1) with (Z.of_nat (length ws)) by lia.
    rewrite wraps_small by lia.
    rewrite <- (app_nil_r ws) at 2. apply encodes_decimal_type.
Qed.

Lemma decodes_map {A B} (f : A -> B) c bs v w :
  decodes c bs v -> f v = w -> decodes (rmap f c) bs w.
Proof.
  intros H <- r buf rest Hu. destruct (H r buf rest Hu) as (r' & E & Hu').
  exists r'. unfold rmap. by rewrite E, bind_some.
Qed.

Lemma decodes_first f : 0 <= f < 256 -> decodes decode_i8 [f] (int8 f).
Proof.
  intros Hf. rewrite <- (byte_small f) at 1 by done. rewrite <- byte_int8.
  apply decodes_i8. apply (wraps_range 8). lia.
Qed.

(** The first byte chooses the decoder of the rest. *)
Lemma decodes_tagged f c bs o :
  0 <= f < 256 -> f <> 0xfe -> deserialize_tagged (int8 f) = c -> decodes c bs o ->
  decodes deserialize (f :: bs) o.
Proof.
  intros Hf Hne Ht Hc. apply decodes_rcommit, (decodes_rthen _ _ _ [f] _ (int8 f)).
  - by apply decodes_first.
  - destruct (Z.eqb_spec OB_EXTEND_TYPE (int8 f)) as [E|_]; [| by rewrite Ht].
    exfalso. apply Hne. apply (f_equal byte) in E. rewrite (byte_int8 f), (byte_small f) in E by done.
    by rewrite <- E.
Qed.

Lemma tagged_int f :
  0 <= f < 128 -> deserialize_tagged (int8 f) =
    rmap (fun '(v, is_add) => cell ObIntType is_add (UInt v)) (decode_int f).
Proof.
  intros Hf. rewrite wraps_small by lia. unfold deserialize_tagged. cbv zeta.
  replace ((Z.shiftr (Z.land f 0xc0) 6 =? 0) || (Z.shiftr (Z.land f 0xc0) 6 =? 1)) with true; [done |].
  symmetry. revert f Hf. apply (forall_below 128). by vm_compute.
Qed.

Lemma tagged_varchar code :
  0 <= code < 64 ->
  deserialize_tagged (int8 (128 + code)) = deserialize_varchar (int8 (128 + code)).
Proof.
  intros Hc. unfold deserialize_tagged. cbv zeta.
  replace (Z.shiftr (Z.land (int8 (128 + code)) 0xc0) 6) with 2; [done |].
  symmetry. apply Z.eqb_eq. revert code Hc. apply (forall_below 64). by vm_compute.
Qed.

Lemma decodes_varchar s :
  Z.of_nat (length s) < 2 ^ 31 ->
  decodes deserialize (str_bytes s) (cell ObVarcharType false (UVarchar s)).
Proof.
  intros Hs. destruct (str_cases (Z.of_nat (length s))) as (_ & _ & Hc & _); [lia |].
  unfold str_bytes. eapply decodes_tagged; [lia | | by apply tagged_varchar |].
  { intros E. assert (str_code (Z.of_nat (length s)) = 126) by lia. lia. }
  intros r buf rest Hu. rewrite <- app_assoc in Hu.
  destruct (decodes_str s 0 r buf rest Hs Hu) as (r' & E & Hu').
  exists r'. unfold deserialize_varchar. by rewrite E, bind_some.
Qed.

Lemma tagged_datetime base (neg add : bool) mark :
  base = 0xd0 \/ base = 0xe0 -> 0 <= mark < 3 ->
  deserialize_tagged (int8 (time_first base neg add mark)) =
    rmap (fun '(v, is_add) =>
            cell (if base =? 0xd0 then ObDateTimeType else ObPreciseDateTimeType) is_add (UInt v))
      (decode_datetime_type (int8 (time_first base neg add mark))).
Proof.
  intros Hb Hm. assert (mark = 0 \/ mark = 1 \/ mark = 2) as [-> | [-> | ->]] by lia;
    destruct Hb as [-> | ->], neg, add; reflexivity.
Qed.

Lemma tagged_time base mark :
  base = 0xf0 \/ base = 0xf4 -> 0 <= mark < 3 ->
  deserialize_tagged (int8 (time_first base false false mark)) =
    rmap (fun v => cell (if base =? 0xf0 then ObModifyTimeType else ObCreateTimeType) false (UInt v))
      (decode_modifytime_type (int8 (time_first base false false mark))).
Proof.
  intros Hb Hm. assert (mark = 0 \/ mark = 1 \/ mark = 2) as [-> | [-> | ->]] by lia;
    destruct Hb as [-> | ->]; reflexivity.
Qed.

Lemma decodes_datetimes base val add :
  base = 0xd0 \/ base = 0xe0 -> - 2 ^ 63 <= val < 2 ^ 63 ->
  decodes deserialize (time_bytes base val add)
    (cell (if base =? 0xd0 then ObDateTimeType else ObPreciseDateTimeType) add (UInt val)).
Proof.
  intros Hb Hv. pose proof (time_mark_range (Z.abs val)).
  unfold time_bytes. eapply decodes_tagged; [| | by apply tagged_datetime |].
  - unfold time_first. destruct Hb as [-> | ->], (val <? 0), add; lia.
  - unfold time_first. destruct Hb as [-> | ->], (val <? 0), add; lia.
  - eapply decodes_map; [by apply decodes_datetime | done].
Qed.

Lemma decodes_times base val :
  base = 0xf0 \/ base = 0xf4 -> 0 <= val < 2 ^ 63 ->
  decodes deserialize (time_bytes base val false)
    (cell (if base =? 0xf0 then ObModifyTimeType else ObCreateTimeType) false (UInt val)).
Proof.
  intros Hb Hv. pose proof (time_mark_range (Z.abs val)).
  unfold time_bytes. rewrite (proj2 (Z.ltb_ge val 0)) by lia.
  eapply decodes_tagged; [| | by apply tagged_time |].
  - unfold time_first. destruct Hb as [-> | ->]; lia.
  - unfold time_first. destruct Hb as [-> | ->]; lia.
  - eapply decodes_map; [by apply decodes_time | done].
Qed.

Lemma mask_small v n : 0 <= n -> 0 <= v < 2 ^ n -> v < 256 -> Z.land (u8 v) (Z.ones n) = v.
Proof.
  intros Hn Hv H8. rewrite wrapu_small by lia. rewrite Z.land_ones by lia. by apply Z.mod_small.
Qed.

Lemma decodes_decimal (add : bool) p s vs ws :
  0 <= p < 128 -> 0 <= s < 64 -> 0 <= vs < 64 -> (1 <= length ws <= 3)%nat ->
  Forall (fun w => 0 <= w < 2 ^ 32) ws ->
  decodes deserialize_decimal (decimal_fields add p s vs ws)
    (mkObj ObDecimalType (if add then ADD else INVALID_OP_FLAG) vs p s
       (Z.of_nat (length ws) - 1) (UWords ws)).
Proof.
  intros Hp Hs Hvs Hn Hws r buf rest Hu.
  destruct (decodes_decimal_type MAX_NWORDS add p s vs ws) with (r := r) (buf := buf) (rest := rest)
    as (r' & E & Hu'); try done; try lia; [unfold MAX_NWORDS; lia.. |].
  exists r'. split; [| done]. unfold deserialize_decimal. rewrite E, bind_some. simpl.
  rewrite (proj2 (Z.leb_le (Z.of_nat (length ws)) 3)), (proj2 (Z.ltb_ge (Z.of_nat (length ws)) 0)) by lia.
  change 127 with (Z.ones 7). change 63 with (Z.ones 6). change 7 with (Z.ones 3) at 2.
  by rewrite !mask_small by lia.
Qed.

Lemma deserialize_decodes o : wire_cell o -> decodes deserialize (cell_bytes o) o.
Proof.
  intros Ho. destruct Ho as
    [ | v add Hv | s Hs | b add Hb | b add Hb | v add Hv | v add Hv | v Hv | v Hv | v Hv | b
    | add p s vs ws Hp Hs Hvs Hn Hws ];
    try (unfold cell_bytes; cbn [type_ op_flag_ cell]; rewrite ?add_flag).
  - by eapply decodes_tagged; [| | reflexivity | apply decodes_rret].
  - change (int_val _) with v. unfold int_bytes. pose proof (int_code_range (Z.abs v) ltac:(lia)) as Hc.
    assert (0 <= int_first (v <? 0) add (int_code (Z.abs v)) < 128).
    { unfold int_first. destruct (v <? 0), add; lia. }
    eapply decodes_tagged; [lia | lia | by apply tagged_int |].
    eapply decodes_map; [by apply decodes_int | done].
  - by apply decodes_varchar.
  - eapply decodes_tagged; [by destruct add | by destruct add | |].
    { instantiate (1 := rmap (fun '(v, is_add) => cell ObFloatType is_add (UFloat v))
        (decode_float_type (int8 (float_first 0xf8 add)))). by destruct add. }
    eapply decodes_map; [by apply decodes_float_type | done].
  - eapply decodes_tagged; [by destruct add | by destruct add | |].
    { instantiate (1 := rmap (fun '(v, is_add) => cell ObDoubleType is_add (UDouble v))
        (decode_double_type (int8 (float_first 0xfa add)))). by destruct add. }
    eapply decodes_map; [by apply decodes_double_type | done].
  - by apply (decodes_datetimes 0xd0); [left |].
  - by apply (decodes_datetimes 0xe0); [right |].
  - by apply (decodes_times 0xf0); [left |].
  - by apply (decodes_times 0xf4); [right |].
  - apply decodes_rcommit, (decodes_rthen _ _ _ [_] _ (int8 0xfe)); [by apply decodes_first |].
    eapply decodes_map; [by apply decodes_vi64 | done].
  - eapply decodes_tagged; [done | done | reflexivity |].
    eapply decodes_map; [apply decodes_bool_type | done].
  - eapply decodes_tagged; [done | done | reflexivity |]. by apply decodes_decimal.
Qed.

(** ** Sizes *)

Lemma cell_bytes_size o :
  wire_cell o -> type_ o <> ObDecimalType ->
  Z.of_nat (length (cell_bytes o)) = get_serialize_size o.
Proof.
  intros Ho Hd. destruct Ho; unfold get_serialize_size, cell_bytes; cbn [type_ op_flag_ cell];
    rewrite ?add_flag; try done.
  - by rewrite int_bytes_length.
  - apply str_bytes_length. unfold varchar_val, cell. cbn [value_]. lia.
  - unfold time_bytes. simpl length. rewrite low_bytes_length, encoded_length_datetime_len; [lia | done].
  - unfold time_bytes, encoded_length_precise_datetime. simpl length.
    rewrite low_bytes_length, encoded_length_datetime_len; [lia | done].
  - unfold time_bytes, encoded_length_modifytime. simpl length.
    rewrite low_bytes_length, encoded_length_datetime_len; [lia | unfold int_val, cell; cbn [value_]; lia].
  - unfold time_bytes, encoded_length_createtime. simpl length.
    rewrite low_bytes_length, encoded_length_datetime_len; [lia | unfold int_val, cell; cbn [value_]; lia].
  - unfold encoded_length_extend. rewrite encoded_length_vi64_length. simpl length. lia.
Qed.

(** ** Properties *)

(** C7: every cell that has a form on the wire survives it: [serialize] takes
    the bytes of [cell_bytes] and [deserialize] on them gives the same object,
    tag, operation flag, decimal attributes and value, and stops just past
    them; without the room [serialize] fails. *)
Theorem cell_wire_roundtrip o :
  wire_cell o -> roundtrips (serialize o) (Z.of_nat (length (cell_bytes o))) deserialize o.
Proof.
  intros Ho. apply encodes_decodes; [by apply serialize_encodes | by apply deserialize_decodes].
Qed.

Lemma cell_wire_roundtrip_witness :
  roundtrips (serialize (cell ObIntType true (UInt (- 2 ^ 63)))) 9 deserialize
    (cell ObIntType true (UInt (- 2 ^ 63))).
Proof. apply (cell_wire_roundtrip (cell ObIntType true (UInt (- 2 ^ 63)))). by constructor. Defined.

(** [get_serialize_size] is the number of bytes [serialize] takes, for
    every cell but a decimal: with that much room it succeeds, with less it
    fails and leaves the position where it was. *)
Theorem serialize_size_exact o w buf :
  wire_cell o -> type_ o <> ObDecimalType -> writer_wf w buf ->
  exists ret w', serialize o w = Some (ret, w') /\
    if w_pos_ w + get_serialize_size o <=? Z.of_nat (length buf)
    then ret = OB_SUCCESS /\ w_pos_ w' = w_pos_ w + get_serialize_size o
    else ret <> OB_SUCCESS /\ w_pos_ w' = w_pos_ w.
Proof.
  intros Ho Hd Hw. destruct (serialize_encodes o Ho w buf Hw) as (ret & w' & buf' & E & _ & _ & R).
  rewrite (cell_bytes_size o Ho Hd) in R. exists ret, w'. split; [done |].
  destruct (_ <=? _); [by destruct R as (? & ? & _) |]. split; [done |].
  unfold serialize, commit in E. apply bind_Some in E as ([ret1 w1] & _ & E). injection E as -> <-.
  by destruct (Z.eqb_spec ret OB_SUCCESS).
Qed.

Lemma serialize_size_exact_witness :
  exists ret w', serialize (cell ObVarcharType false (UVarchar [104; 105]))
    (mkWriter (Some [0; 0; 0]) 0 3) = Some (ret, w') /\ ret = OB_SUCCESS /\ w_pos_ w' = 3.
Proof.
  destruct (serialize_size_exact (cell ObVarcharType false (UVarchar [104; 105]))
    (mkWriter (Some [0; 0; 0]) 0 3) [0; 0; 0]) as (ret & w' & E & R);
    [by constructor | done | by split |].
  exists ret, w'. split; [exact E |]. exact R.
Defined.

Lemma vi32_nonempty v : (0 < length (vi32 v))%nat.
Proof. unfold vi32. simpl. case_match; simpl; lia. Qed.

Lemma words_bytes_size ws :
  foldr (fun w n => int32 (encoded_length_vi32 (int32 w)) + n) 0 ws
  = Z.of_nat (length (words_bytes ws)).
Proof.
  induction ws as [|w ws IH]; [done |]. simpl. rewrite IH.
  rewrite wraps_small; [| | lia].
  - rewrite encoded_length_vi32_length.
    change (words_bytes (w :: ws)) with (vi32 (int32 w) ++ words_bytes ws).
    rewrite length_app. lia.
  - unfold encoded_length_vi32. repeat case_match; lia.
Qed.

(** [get_serialize_size] of a decimal leaves out its last word: a buffer of
    the size it gives is too small for [serialize]. *)
Theorem decimal_size_short o buf :
  wire_cell o -> type_ o = ObDecimalType -> Z.of_nat (length buf) = get_serialize_size o ->
  exists ret w',
    serialize o (mkWriter (Some buf) 0 (get_serialize_size o)) = Some (ret, w') /\
    ret <> OB_SUCCESS.
Proof.
  intros Ho Hd Hl.
  destruct (serialize_encodes o Ho (mkWriter (Some buf) 0 (get_serialize_size o)) buf)
    as (ret & w' & buf' & E & _ & _ & R); [split; simpl; [done | done | lia] |].
  exists ret, w'. split; [done |]. cbn [w_pos_] in R. rewrite Z.add_0_l in R.
  destruct (Z.leb_spec (Z.of_nat (length (cell_bytes o))) (Z.of_nat (length buf))) as [Hle|]; [| done].
  exfalso. rewrite Hl in Hle. revert Hle. clear -Ho Hd.
  destruct Ho as [ | | | | | | | | | | | add p s vs ws Hp Hs Hvs Hn Hws ]; try done.
  unfold get_serialize_size, cell_bytes. cbn [type_ dec_nwords_ dec_words value_].
  rewrite (proj2 (Z.leb_le _ _)) by lia. unfold encoded_length_decimal_type, decimal_fields.
  rewrite words_bytes_size. cbn [length app]. rewrite Nat2Z.inj_succ.
  destruct (exists_last (l := ws)) as (ws' & w & ->); [intros ->; simpl in Hn; lia |].
  rewrite length_app. simpl length.
  replace (Z.to_nat (Z.of_nat (length ws' + 1) - 1)) with (length ws') by lia.
  rewrite take_app_length. unfold words_bytes. rewrite map_app, concat_app, length_app. simpl.
  rewrite app_nil_r. pose proof (vi32_nonempty (int32 w)). lia.
Qed.

Definition one_decimal : ObObj := mkObj ObDecimalType 0 2 38 2 0 (UWords [12345]).

Lemma decimal_size_short_witness :
  get_serialize_size one_decimal = 6 /\
  exists ret w', serialize one_decimal (mkWriter (Some (replicate 6 0)) 0 6) = Some (ret, w') /\
    ret <> OB_SUCCESS.
Proof.
  split; [done |]. apply (decimal_size_short one_decimal (replicate 6 0)); [| done | done].
  apply (wire_decimal false 38 2 2 [12345]); repeat constructor; simpl; lia.
Defined.

(** On malformed input the decoders leave the memory they were given:
    [decode_vi64] at the end of its data reads the byte after it before it
    compares the position with the length, and a decimal cell that claims more
    than [MAX_NWORDS] words, with the bytes for them, is stored past the array
    of [deserialize]. *)
Theorem malformed_input_escapes :
  (forall buf, decode_vi64 (mkReader (Some buf) (Z.of_nat (length buf)) (Z.of_nat (length buf))) = None) /\
  deserialize (mkReader (Some ([0xff; 0; 38; 2; 2; 10] ++ replicate 10 1)) 0 16) = None.
Proof.
  split; [| done]. intros buf. unfold decode_vi64, decode_vi. simpl.
  rewrite (proj2 (Z.ltb_ge _ 0)) by lia. by rewrite Nat2Z.id, drop_all.
Qed.
