(* ===== verification/ObRowDescSerialize.v ===== *)
(** * ObRowDescSerialize: row descriptions on the wire

    Models [serialize], [deserialize] and [get_serialize_size] of [ObRowDesc]
    ([common/ob_row_desc.cpp]): the number of columns, the two ids of each and
    the number of rowkey columns, all of variable length. *)

From S2P Require Import Prelude ObRowDesc ObBuffer Serialization SerializationLaws.
Local Open Scope Z_scope.

(** The loop of [serialize] from column [i] on, [k] columns left. *)
Fixpoint serialize_columns (k : nat) (d : ObRowDesc) (i : Z) : Writing :=
  match k with
  | O => finish OB_SUCCESS
  | S k =>
      match get_tid_cid d i with
      | (_, Some (tid, cid)) =>
          (encode_vi64 (int64 tid) ;;; encode_vi64 (int64 cid) ;;;
           serialize_columns k d (i + 1))%writing
      | (ret, None) => finish ret
      end
  end.

Definition rowdesc_serialize (d : ObRowDesc) : Writing :=
  let column_cnt := get_column_num d in
  commit (encode_vi64 column_cnt ;;; serialize_columns (Z.to_nat column_cnt) d 0 ;;;
          encode_vi64 (rowkey_cell_count_ d))%writing.

(** [while (column_cnt-- && OB_SUCCESS == ret)].  A description takes 512
    columns, so the loop stops at the 513th column at the latest, whatever
    [column_cnt] is; [out] is the result when [fuel] is not enough.  The result
    carries the description on every path. *)
Fixpoint deserialize_columns (out : Reading ObRowDesc) (fuel : nat) (column_cnt : Z) (d : ObRowDesc)
    : Reading ObRowDesc :=
  if column_cnt =? 0 then rret d
  else match fuel with
       | O => out
       | S fuel =>
           rthen d decode_vi64 (fun tid =>
           rthen d decode_vi64 (fun cid =>
             let '(ret, d) := add_column_desc d (u64 tid) (u64 cid) in
             if ret =? OB_SUCCESS then deserialize_columns out fuel (column_cnt - 1) d
             else rfail d ret))
       end.

(** Into the description [d], which is not reset first. *)
Definition rowdesc_deserialize_with (out : Reading ObRowDesc) (fuel : nat) (d : ObRowDesc)
    : Reading ObRowDesc :=
  rcommit (rthen d decode_vi64 (fun column_cnt =>
    rthen d (deserialize_columns out fuel column_cnt d) (fun d =>
      rthen d decode_vi64 (fun n => rret (set_rowkey_cell_count d n))))).

Definition rowdesc_deserialize : ObRowDesc -> Reading ObRowDesc :=
  rowdesc_deserialize_with (fun _ => None) 513.

Fixpoint columns_size (k : nat) (d : ObRowDesc) (i : Z) : Z :=
  match k with
  | O => 0
  | S k =>
      match get_tid_cid d i with
      | (_, Some (tid, cid)) =>
          encoded_length_vi64 (int64 tid) + encoded_length_vi64 (int64 cid) +
          columns_size k d (i + 1)
      | (_, None) => 0
      end
  end.

Definition rowdesc_get_serialize_size (d : ObRowDesc) : Z :=
  encoded_length_vi64 (get_column_num d) +
  columns_size (Z.to_nat (get_column_num d)) d 0 +
  encoded_length_vi64 (rowkey_cell_count_ d).

(** ** The bytes of a description *)

Definition column_bytes (k : Desc) : list Z :=
  vi64 (int64 (table_id_ k)) ++ vi64 (int64 (column_id_ k)).

Definition rowdesc_bytes (d : ObRowDesc) : list Z :=
  vi64 (get_column_num d) ++ concat (map column_bytes (columns d)) ++ vi64 (rowkey_cell_count_ d).

(** Ids are [uint64_t], the rowkey count an [int64_t]. *)
Definition desc_ids (k : Desc) : Prop :=
  0 <= table_id_ k < 2 ^ 64 /\ 0 <= column_id_ k < 2 ^ 64.

Section Encode.
Context (d : ObRowDesc) (Hwf : rowdesc_wf d).

Lemma serialize_columns_suffix pre suf :
  columns d = pre ++ suf ->
  encodes (serialize_columns (length suf) d (Z.of_nat (length pre))) (concat (map column_bytes suf)) /\
  columns_size (length suf) d (Z.of_nat (length pre))
    = Z.of_nat (length (concat (map column_bytes suf))).
Proof using Hwf.
  revert pre. induction suf as [|k suf IH]; intros pre Hc; [split; [apply emits_finish | done] |].
  simpl. rewrite (get_tid_cid_spec d Hwf), (proj2 (Z.ltb_ge _ 0)), Nat2Z.id, Hc by lia.
  rewrite list_lookup_middle by done.
  destruct (IH (pre ++ [k])) as [IH1 IH2]; [by rewrite <- app_assoc |].
  rewrite length_app, Nat2Z.inj_add in IH1, IH2. simpl length in IH1, IH2. split.
  - unfold column_bytes. rewrite <- app_assoc.
    apply encodes_andthen; [apply encodes_vi64 |]. by apply encodes_andthen; [apply encodes_vi64 |].
  - change (Z.of_nat 1) with 1 in IH2. rewrite IH2, !encoded_length_vi64_length.
    unfold column_bytes. rewrite !length_app. lia.
Qed.

Lemma columns_all :
  Z.to_nat (get_column_num d) = length (columns d).
Proof using Hwf. pose proof (columns_length d Hwf). unfold get_column_num. lia. Qed.

Lemma rowdesc_encodes : encodes (rowdesc_serialize d) (rowdesc_bytes d).
Proof using Hwf.
  destruct (serialize_columns_suffix [] (columns d) eq_refl) as [H _].
  apply encodes_commit. unfold rowdesc_bytes. rewrite columns_all.
  apply encodes_andthen; [apply encodes_vi64 |].
  apply encodes_andthen; [exact H | apply encodes_vi64].
Qed.

Lemma rowdesc_bytes_size : Z.of_nat (length (rowdesc_bytes d)) = rowdesc_get_serialize_size d.
Proof using Hwf.
  destruct (serialize_columns_suffix [] (columns d) eq_refl) as [_ H].
  unfold rowdesc_bytes, rowdesc_get_serialize_size. rewrite columns_all.
  change (Z.of_nat (length (@nil Desc))) with 0 in H. rewrite H.
  rewrite !length_app, !encoded_length_vi64_length. lia.
Qed.
End Encode.

(** A column that is not there yet is added. *)
Lemma add_column_desc_new d k :
  rowdesc_wf d -> k ∉ columns d -> (length (columns d) < 512)%nat ->
  exists d', add_column_desc d (table_id_ k) (column_id_ k) = (OB_SUCCESS, d') /\
    rowdesc_wf d' /\ columns d' = columns d ++ [k] /\ rowkey_cell_count_ d' = rowkey_cell_count_ d.
Proof.
  intros Hwf Hno Hlen.
  destruct (add_column_desc_spec d (table_id_ k) (column_id_ k) Hwf) as (Hw & Hr & Hres).
  destruct (add_column_desc d (table_id_ k) (column_id_ k)) as [ret d']. simpl in *.
  replace (mkDesc (table_id_ k) (column_id_ k)) with k in Hres by (by destruct k).
  unfold add_column_result in Hres.
  rewrite (proj2 (Z.leb_gt _ _)) in Hres by (unfold MAX_COLUMNS_COUNT; lia).
  rewrite decide_False in Hres by done. injection Hres as -> Hc. by exists d'.
Qed.

Lemma decodes_columns out fuel d cols :
  rowdesc_wf d -> NoDup (columns d ++ cols) -> (length (columns d ++ cols) <= 512)%nat ->
  (length cols <= fuel)%nat -> Forall desc_ids cols ->
  exists d', decodes (deserialize_columns out fuel (Z.of_nat (length cols)) d)
      (concat (map column_bytes cols)) d' /\
    rowdesc_wf d' /\ columns d' = columns d ++ cols.
Proof.
  revert fuel d. induction cols as [|k cols IH]; intros fuel d Hwf Hnd Hlen Hf Hids.
  { exists d. rewrite app_nil_r. by destruct fuel; split; [apply decodes_rret | | apply decodes_rret |]. }
  destruct fuel as [|fuel]; [simpl in Hf; lia |]. inversion Hids as [|? ? [Ht Hc] Hids']; subst.
  assert (Hno : k ∉ columns d).
  { apply NoDup_app in Hnd as (_ & Hdis & _). intros Hin. apply (Hdis k Hin). left. }
  rewrite length_app in Hlen. simpl length in Hlen, Hf.
  destruct (add_column_desc_new d k Hwf Hno) as (d1 & Ha & Hw1 & Hc1 & _); [lia |].
  destruct (IH fuel d1) as (d' & Hd & Hw' & Hc'); [done | | | lia | done |].
  { by rewrite Hc1, <- app_assoc. }
  { rewrite Hc1, !length_app. simpl. lia. }
  exists d'. split; [| by rewrite Hc', Hc1, <- app_assoc].
  cbn [map concat]. unfold column_bytes. rewrite <- app_assoc. simpl deserialize_columns.
  eapply decodes_rthen; [apply decodes_vi64, (wraps_range 64); lia |].
  eapply decodes_rthen; [apply decodes_vi64, (wraps_range 64); lia |].
  unfold wrapu. rewrite !mod_wraps, !Z.mod_small by lia. rewrite Ha. simpl.
  by replace (Z.of_nat (S (length cols)) - 1) with (Z.of_nat (length cols)) by lia.
Qed.

Lemma rowdesc_decodes out fuel d d0 :
  (512 <= fuel)%nat -> rowdesc_wf d -> rowdesc_wf d0 -> columns d0 = [] -> Forall desc_ids (columns d) ->
  - 2 ^ 63 <= rowkey_cell_count_ d < 2 ^ 63 ->
  exists d', decodes (rowdesc_deserialize_with out fuel d0) (rowdesc_bytes d) d' /\
    rowdesc_wf d' /\ columns d' = columns d /\ rowkey_cell_count_ d' = rowkey_cell_count_ d.
Proof.
  intros Hfuel Hwf Hwf0 H0 Hids Hk. pose proof (wf_count d Hwf) as Hcount.
  pose proof (columns_all d Hwf) as Hall. unfold get_column_num in Hall.
  unfold MAX_COLUMNS_COUNT in Hcount.
  destruct (decodes_columns out fuel d0 (columns d)) as (d1 & Hd & Hw1 & Hc1); [done | | | lia | done |].
  { rewrite H0. by apply columns_NoDup. }
  { rewrite H0. simpl. lia. }
  rewrite H0 in Hc1. exists (set_rowkey_cell_count d1 (rowkey_cell_count_ d)). split.
  - apply decodes_rcommit. unfold rowdesc_bytes, get_column_num.
    replace (cells_desc_count_ d) with (Z.of_nat (length (columns d))) by lia.
    eapply decodes_rthen; [apply decodes_vi64; lia |].
    eapply decodes_rthen; [exact Hd |].
    eapply decodes_rmap; [by apply decodes_vi64 | done].
  - conjs; [| done | done]. destruct Hw1 as [? ? ? ? ?]. by split.
Qed.

Lemma deserialize_columns_out out out' fuel cnt d r :
  rowdesc_wf d -> (513 <= fuel + length (columns d))%nat ->
  deserialize_columns out fuel cnt d r = deserialize_columns out' fuel cnt d r.
Proof.
  revert cnt d r. induction fuel as [|fuel IH]; intros cnt d r Hwf Hf.
  - pose proof (wf_count d Hwf). pose proof (columns_length d Hwf).
    unfold MAX_COLUMNS_COUNT in *. lia.
  - simpl. destruct (cnt =? 0); [done |]. unfold rthen.
    destruct (decode_vi64 r) as [[[ret tid] r1]|]; [simpl | done].
    destruct (ret =? OB_SUCCESS); [| done].
    destruct (decode_vi64 r1) as [[[ret' cid] r2]|]; [simpl | done].
    destruct (ret' =? OB_SUCCESS); [| done].
    destruct (add_column_desc_spec d (u64 tid) (u64 cid) Hwf) as (Hw & _ & Hres).
    destruct (add_column_desc d (u64 tid) (u64 cid)) as [ret2 d2]. simpl in Hw, Hres.
    destruct (Z.eqb_spec ret2 OB_SUCCESS) as [-> |]; [| done].
    apply IH; [done |]. unfold add_column_result in Hres.
    repeat case_match; try discriminate. injection Hres as ->. rewrite length_app. simpl. lia.
Qed.

Lemma rowdesc_deserialize_out out out' fuel d r :
  (513 <= fuel)%nat -> rowdesc_wf d ->
  rowdesc_deserialize_with out fuel d r = rowdesc_deserialize_with out' fuel d r.
Proof.
  intros Hf Hwf. unfold rowdesc_deserialize_with, rcommit, rthen.
  destruct (decode_vi64 r) as [[[ret cnt] r1]|]; [| done]. rewrite !bind_some.
  destruct (ret =? OB_SUCCESS); [| done].
  by rewrite (deserialize_columns_out out out' fuel cnt d r1) by (done || lia).
Qed.

(** C34: a row description survives the wire: [serialize] takes exactly
    [get_serialize_size] bytes and [deserialize] into an empty description gives
    the same columns in the same order and the same rowkey count. *)
Theorem rowdesc_wire_roundtrip d d0 :
  rowdesc_wf d -> rowdesc_wf d0 -> columns d0 = [] -> Forall desc_ids (columns d) ->
  - 2 ^ 63 <= rowkey_cell_count_ d < 2 ^ 63 ->
  exists d', rowdesc_wf d' /\ columns d' = columns d /\
    rowkey_cell_count_ d' = rowkey_cell_count_ d /\
    roundtrips (rowdesc_serialize d) (rowdesc_get_serialize_size d) (rowdesc_deserialize d0) d'.
Proof.
  intros Hwf Hwf0 H0 Hids Hk.
  destruct (rowdesc_decodes (fun _ => None) 513 d d0) as (d' & Hd & Hw & Hc & Hr); try done; [lia |].
  exists d'. conjs; try done. rewrite <- (rowdesc_bytes_size d Hwf).
  apply encodes_decodes; [by apply rowdesc_encodes | done].
Qed.

Lemma rowdesc_wire_roundtrip_witness :
  let d := rowdesc_of [mkDesc 1001 2; mkDesc 1001 (2 ^ 64 - 1)] in
  exists d', columns d' = [mkDesc 1001 2; mkDesc 1001 (2 ^ 64 - 1)] /\
    roundtrips (rowdesc_serialize d) (rowdesc_get_serialize_size d)
      (rowdesc_deserialize (rowdesc_of [])) d'.
Proof.
  destruct (rowdesc_of_spec [mkDesc 1001 2; mkDesc 1001 (2 ^ 64 - 1)]) as [Hwf Hcols].
  { apply (bool_decide_unpack _). vm_compute. exact I. }
  { vm_compute. congruence. }
  destruct (rowdesc_of_spec []) as [Hwf0 Hcols0]; [constructor | vm_compute; congruence |].
  destruct (rowdesc_wire_roundtrip _ _ Hwf Hwf0 Hcols0) as (d' & _ & Hc & _ & Hr).
  - rewrite Hcols. repeat constructor; simpl; lia.
  - vm_compute. split; congruence.
  - exists d'. split; [by rewrite Hc | exact Hr].
Defined.

(** C35: [deserialize] of a row description stops on every input, also when the
    column count is negative, which its loop does not test for: it never takes
    more than 513 turns, so what the model does when they are used up ([out])
    has no influence. *)
Theorem rowdesc_deserialize_terminates out d r :
  rowdesc_wf d -> rowdesc_deserialize_with out 513 d r = rowdesc_deserialize d r.
Proof.
  intros Hwf. apply rowdesc_deserialize_out; [lia | done].
Qed.

Lemma rowdesc_deserialize_terminates_witness :
  rowdesc_deserialize_with (rfail (rowdesc_of []) OB_SUCCESS) 513 (rowdesc_of [])
    (mkReader (Some (vi64 (-1) ++ vi64 1 ++ vi64 1 ++ vi64 1)) 0 13) = None.
Proof.
  rewrite (rowdesc_deserialize_terminates _ (rowdesc_of [])); [by vm_compute |].
  apply rowdesc_of_spec; [constructor | vm_compute; congruence].
Defined.
