(* ===== verification/ObCompactCell.v ===== *)
(** * Compact cells

    [src/oceanbase/src/common/ob_cell_meta.h], [ob_compact_cell_util.cpp],
    [ob_compact_cell_writer.h], [ob_compact_cell_writer.cpp],
    [ob_compact_cell_iterator.h] and [ob_compact_cell_iterator.cpp]: the byte
    format of the cells of a row, its writer and its iterator.  A cell is a byte
    with the type (low 5 bits) and an attribute (high 3 bits), the value, and in
    the sparse formats a column id of 4 bytes. *)

From S2P Require Import Prelude ObNumber ObObject ObBuffer ObRowDesc ObRow.
Local Open Scope Z_scope.
Local Open Scope writing_scope.

(** ** Formats and constants *)

Inductive ObCompactStoreType := SPARSE | DENSE | DENSE_SPARSE | DENSE_DENSE | INVALID_COMPACT_STORE_TYPE.

#[global] Instance ObCompactStoreType_eq_dec : EqDecision ObCompactStoreType.
Proof. solve_decision. Defined.

Definition TP_NULL : Z := 0.
Definition TP_INT8 : Z := 1.
Definition TP_INT16 : Z := 2.
Definition TP_INT32 : Z := 3.
Definition TP_INT64 : Z := 4.
Definition TP_VARCHAR : Z := 6.
Definition TP_DECIMAL : Z := 7.
Definition TP_TIME : Z := 8.
Definition TP_PRECISE_TIME : Z := 9.
Definition TP_CREATE_TIME : Z := 10.
Definition TP_MODIFY_TIME : Z := 11.
Definition TP_FLOAT : Z := 12.
Definition TP_DOUBLE : Z := 13.
Definition TP_EXTEND : Z := 14.
Definition TP_BOOL : Z := 15.
Definition TP_ESCAPE : Z := 0x1f.

Definition AR_NORMAL : Z := 0.
Definition AR_ADD : Z := 1.
Definition AR_MIN : Z := 3.
Definition AR_MAX : Z := 4.

Definition ES_END_ROW : Z := 0.
Definition ES_DEL_ROW : Z := 1.
Definition ES_NOP_ROW : Z := 2.
Definition ES_NOT_EXIST_ROW : Z := 3.
Definition ES_NEW_ADD : Z := 4.
Definition ES_VALID : Z := 5.

Definition OP_END_ROW : Z := 17.
Definition OP_VALID : Z := 18.
Definition OP_NEW_ADD : Z := 19.

Definition OB_COMPACT_COLUMN_INVALID_ID : Z := 65535.

(** The byte of an [ObCellMeta]. *)
Definition cell_meta (type attr : Z) : list Z := [type + 32 * attr].

(** The bytes of an [ObDecimalMeta], bit-fields of 7, 6 and 3 bits. *)
Definition decimal_meta (o : ObObj) : list Z :=
  to_bytes 2 (dec_precision_ o + 2 ^ 7 * dec_scale_ o + 2 ^ 13 * dec_nwords_ o).

Definition get_int_byte (int_value : Z) : Z :=
  if (-128 <=? int_value) && (int_value <=? 127) then 1
  else if (-2 ^ 15 <=? int_value) && (int_value <=? 2 ^ 15 - 1) then 2
  else if (-2 ^ 31 <=? int_value) && (int_value <=? 2 ^ 31 - 1) then 4
  else 8.

(** ** The writer *)

Fixpoint write_words (ws : list Z) : Writing :=
  match ws with
  | [] => finish OB_SUCCESS
  | w :: ws' => write (to_bytes 4 w) ;;; write_words ws'
  end.

(** The words of a decimal, over [val_len_] and [value_] or behind a pointer. *)
Definition write_decimal (o : ObObj) : Writing :=
  write (to_bytes 1 (dec_vscale_ o)) ;;;
  write (decimal_meta o) ;;;
  match value_ o with
  | UWords ws => if Z.of_nat (length ws) =? dec_nwords_ o + 1 then write_words ws else fun _ => None
  | _ => fun _ => None
  end.

Definition write_varchar (o : ObObj) : Writing :=
  let s := default [] (get_varchar o) in
  if INT32_MAX <? Z.of_nat (length s) then finish OB_SIZE_OVERFLOW
  else write (to_bytes 4 (Z.of_nat (length s))) ;;; write s.

Definition add_attr (o : ObObj) : Z := if is_add o then AR_ADD else AR_NORMAL.

Definition write_int (o : ObObj) : Writing :=
  let v := int_val o in
  let attr := add_attr o in
  if get_int_byte v =? 1 then write (cell_meta TP_INT8 attr) ;;; write (to_bytes 1 v)
  else if get_int_byte v =? 2 then write (cell_meta TP_INT16 attr) ;;; write (to_bytes 2 v)
  else if get_int_byte v =? 4 then write (cell_meta TP_INT32 attr) ;;; write (to_bytes 4 v)
  else write (cell_meta TP_INT64 attr) ;;; write (to_bytes 8 v).

Definition write_ext (o : ObObj) : Writing :=
  let v := int_val o in
  if v =? MIN_OBJECT_VALUE then write (cell_meta TP_EXTEND AR_MIN)
  else if v =? MAX_OBJECT_VALUE then write (cell_meta TP_EXTEND AR_MAX)
  else if v =? OP_DEL_ROW then write (cell_meta TP_EXTEND ES_DEL_ROW)
  else finish OB_ERROR.

(** The switch of [append]: only int, datetime and precise datetime cells record
    that they are increments. *)
Definition write_value (o : ObObj) : Writing :=
  match type_ o with
  | ObNullType => write (cell_meta TP_NULL AR_NORMAL)
  | ObIntType => write_int o
  | ObDecimalType => write (cell_meta TP_DECIMAL AR_NORMAL) ;;; write_decimal o
  | ObFloatType =>
      write (cell_meta TP_FLOAT AR_NORMAL) ;;; write (to_bytes 4 (default (0, false) (get_float o)).1)
  | ObDoubleType =>
      write (cell_meta TP_DOUBLE AR_NORMAL) ;;; write (to_bytes 8 (default (0, false) (get_double o)).1)
  | ObBoolType =>
      write (cell_meta TP_BOOL AR_NORMAL) ;;; write [if default false (get_bool o) then 1 else 0]
  | ObDateTimeType => write (cell_meta TP_TIME (add_attr o)) ;;; write (to_bytes 8 (int_val o))
  | ObPreciseDateTimeType =>
      write (cell_meta TP_PRECISE_TIME (add_attr o)) ;;; write (to_bytes 8 (int_val o))
  | ObVarcharType => write (cell_meta TP_VARCHAR AR_NORMAL) ;;; write_varchar o
  | ObCreateTimeType => write (cell_meta TP_CREATE_TIME AR_NORMAL) ;;; write (to_bytes 8 (int_val o))
  | ObModifyTimeType => write (cell_meta TP_MODIFY_TIME AR_NORMAL) ;;; write (to_bytes 8 (int_val o))
  | ObExtendType => write_ext o
  | ObSeqType => finish OB_NOT_SUPPORTED
  end.

Definition write_column_id (store_type : ObCompactStoreType) (column_id : Z) : Writing :=
  if column_id =? OB_INVALID_ID then
    if bool_decide (store_type = SPARSE) then finish OB_ERR_UNEXPECTED else finish OB_SUCCESS
  else if UINT32_MAX <? column_id then finish OB_SIZE_OVERFLOW
  else write (to_bytes 4 column_id).

Definition append (store_type : ObCompactStoreType) (column_id : Z) (value : ObObj) : Writing :=
  write_value value ;;; write_column_id store_type column_id.

Definition append_dense (store_type : ObCompactStoreType) (value : ObObj) : Writing :=
  append store_type OB_INVALID_ID value.

Definition append_escape (escape : Z) : Writing :=
  if (escape <? 0) || (0x7 <? escape) then finish OB_INVALID_ARGUMENT
  else write (cell_meta TP_ESCAPE (Z.land escape 0x7)).

Definition row_delete : Writing := append_escape ES_DEL_ROW.
Definition row_nop : Writing := append_escape ES_NOP_ROW.
Definition row_not_exist : Writing := append_escape ES_NOT_EXIST_ROW.
Definition row_finish : Writing := append_escape ES_END_ROW.
Definition rowkey_finish : Writing := append_escape ES_END_ROW.

Fixpoint append_objs (store_type : ObCompactStoreType) (objs : list ObObj) : Writing :=
  match objs with
  | [] => finish OB_SUCCESS
  | o :: objs' => append_dense store_type o ;;; append_objs store_type objs'
  end.

Definition append_rowkey (store_type : ObCompactStoreType) (rowkey : list ObObj) : Writing :=
  append_objs store_type rowkey ;;; rowkey_finish.

(** One cell of a row value; the sparse and the dense store types write nothing. *)
Definition append_rowvalue_cell (store_type : ObCompactStoreType) (column_id : Z) (o : ObObj) : Writing :=
  match store_type with
  | DENSE_SPARSE => append store_type column_id o
  | DENSE_DENSE => append_dense store_type o
  | _ => finish OB_SUCCESS
  end.

Fixpoint append_rowvalue_loop (k : nat) (store_type : ObCompactStoreType) (row : ObRow) (i : Z) : Writing :=
  match k with
  | O => finish OB_SUCCESS
  | S k' =>
      match raw_get_cell_ids row i with
      | (_, Some (o, (_, column_id))) =>
          append_rowvalue_cell store_type column_id o ;;; append_rowvalue_loop k' store_type row (i + 1)
      | (ret, None) => finish ret
      end
  end.

Definition append_rowvalue (store_type : ObCompactStoreType) (row : ObRow) : Writing :=
  append_rowvalue_loop (Z.to_nat (row_column_num row)) store_type row 0 ;;;
  (if row_column_num row =? 0 then finish OB_SUCCESS else row_finish).

Definition append_rowkey_row (store_type : ObCompactStoreType) (rowkey : list ObObj) (row : ObRow) : Writing :=
  append_rowkey store_type rowkey ;;; append_rowvalue store_type row.

Definition OB_MAX_ROWKEY_COLUMN_NUMBER : Z := 16.

Fixpoint append_row_values (k : nat) (store_type : ObCompactStoreType) (row : ObRow) (d : ObRowDesc) (i : Z)
    : Writing :=
  match k with
  | O => finish OB_SUCCESS
  | S k' =>
      append_rowvalue_cell store_type (column_id_ (cell_desc d i)) (raw_cell row i) ;;;
      append_row_values k' store_type row d (i + 1)
  end.

(** [append_row(row)]: the first cells are the rowkey. *)
Definition append_row (store_type : ObCompactStoreType) (row : ObRow) : Writing :=
  let obj_array_cnt := cells_count_ (raw_row_ row) in
  if (obj_array_cnt =? 0) || (MAX_COLUMNS_COUNT <? obj_array_cnt) then finish OB_ERROR
  else match row_desc_ row with
  | None => finish OB_ERROR
  | Some d =>
      let rowkey_column_num := rowkey_cell_count_ d in
      if (rowkey_column_num =? 0) || (OB_MAX_ROWKEY_COLUMN_NUMBER <? rowkey_column_num) then finish OB_ERROR
      else
        append_objs store_type (map (raw_cell row) (seqZ 0 rowkey_column_num)) ;;;
        rowkey_finish ;;;
        append_row_values (Z.to_nat (obj_array_cnt - rowkey_column_num)) store_type row d rowkey_column_num ;;;
        row_finish
  end.

(** [get_type_size], [get_compact_cell_max_size] and [get_compact_cell_size]. *)
Definition get_type_size (t : ObObjType) : Z :=
  match t with
  | ObFloatType => 4
  | ObDoubleType | ObDateTimeType | ObPreciseDateTimeType | ObCreateTimeType | ObModifyTimeType => 8
  | _ => -1
  end.

Definition get_compact_cell_max_size (t : ObObjType) : Z :=
  match t with
  | ObExtendType => 1
  | ObIntType => 1 + 8 + 2
  | _ => let type_size := get_type_size t in if type_size =? -1 then -1 else 1 + type_size + 2
  end.

Definition get_compact_cell_size (o : ObObj) : Z :=
  match type_ o with
  | ObExtendType => 1
  | ObVarcharType => 1 + 2 + Z.of_nat (length (default [] (get_varchar o))) + 2
  | ObIntType => 1 + get_int_byte (int_val o) + 2
  | t => let type_size := get_type_size t in if type_size =? -1 then -1 else 1 + type_size + 2
  end.

(** ** The iterator *)

(** [case_clause]: read [n] bytes and set the value from them. *)
Definition parse_fixed (n : Z) (set : list Z -> ObObj) (value : ObObj) (r : ObBufferReader)
    : option (Z * ObObj * ObBufferReader) :=
  '(ret, bs, r) ← reader_get n r ; Some (ret, if ret =? OB_SUCCESS then set bs else value, r).

Fixpoint parse_words (k : nat) (r : ObBufferReader) (acc : list Z) : option (Z * list Z * ObBufferReader) :=
  match k with
  | O => Some (OB_SUCCESS, acc, r)
  | S k' =>
      '(ret, bs, r) ← reader_get 4 r ;
      if ret =? OB_SUCCESS then parse_words k' r (acc ++ [of_bytes bs]) else Some (ret, acc, r)
  end.

(** The attributes are set before the words; a failure in between leaves an
    object without its words. *)
Definition parse_decimal (r : ObBufferReader) (value : ObObj) : option (Z * ObObj * ObBufferReader) :=
  '(ret, bs, r) ← reader_get 1 r ;
  if negb (ret =? OB_SUCCESS) then Some (ret, value, r) else
  let vscale := of_bytes bs in
  '(ret, bs, r) ← reader_get 2 r ;
  if negb (ret =? OB_SUCCESS) then Some (ret, value, r) else
  let m := of_bytes bs in
  let with_words ws :=
    mkObj ObDecimalType (op_flag_ value) (Z.land vscale 0x3F) (m mod 2 ^ 7)
          (m / 2 ^ 7 mod 2 ^ 6) (m / 2 ^ 13 mod 2 ^ 3) ws in
  let nwords := m / 2 ^ 13 mod 2 ^ 3 + 1 in
  if nwords <=? 3 then
    '(ret, ws, r) ← parse_words (Z.to_nat nwords) r [] ; Some (ret, with_words (UWords ws), r)
  else Some (OB_NOT_IMPLEMENT, with_words (value_ value), r).

(** The string is not copied and its end is not checked against the buffer. *)
Definition parse_varchar (r : ObBufferReader) (value : ObObj) : option (Z * ObObj * ObBufferReader) :=
  '(ret, bs, r) ← reader_get 4 r ;
  if negb (ret =? OB_SUCCESS) then Some (ret, value, r) else
  let varchar_len := int32 (of_bytes bs) in
  buf ← r_buf_ r ;
  s ← bytes_at buf (r_pos_ r) varchar_len ;
  Some (OB_SUCCESS, set_varchar value s, skip r varchar_len).

Definition parse_escape (attr : Z) (value : ObObj) (r : ObBufferReader) : Z * ObObj * ObBufferReader :=
  if attr =? ES_END_ROW then (OB_SUCCESS, set_ext value OP_END_ROW, r)
  else if attr =? ES_DEL_ROW then (OB_SUCCESS, set_ext value OP_DEL_ROW, r)
  else if attr =? ES_NOP_ROW then (OB_SUCCESS, set_ext value OP_NOP, r)
  else if attr =? ES_NOT_EXIST_ROW then (OB_SUCCESS, set_ext value OP_ROW_DOES_NOT_EXIST, r)
  else if attr =? ES_VALID then (OB_SUCCESS, set_ext value OP_VALID, r)
  else if attr =? ES_NEW_ADD then (OB_SUCCESS, set_ext value OP_NEW_ADD, r)
  else (OB_NOT_SUPPORTED, value, r).

Definition parse_extend (attr : Z) (value : ObObj) (r : ObBufferReader) : Z * ObObj * ObBufferReader :=
  if attr =? AR_MIN then (OB_SUCCESS, set_min_value value, r)
  else if attr =? AR_MAX then (OB_SUCCESS, set_max_value value, r)
  else if attr =? ES_DEL_ROW then (OB_SUCCESS, set_ext value OP_DEL_ROW, r)
  else (OB_NOT_SUPPORTED, value, r).

(** The switch of [parse] on the type of the cell. *)
Definition parse_value (type attr : Z) (value : ObObj) (r : ObBufferReader)
    : option (Z * ObObj * ObBufferReader) :=
  let add := attr =? AR_ADD in
  if type =? TP_NULL then Some (OB_SUCCESS, set_null value, r)
  else if type =? TP_INT8 then parse_fixed 1 (fun bs => set_int value (int8 (of_bytes bs)) add) value r
  else if type =? TP_INT16 then parse_fixed 2 (fun bs => set_int value (int16 (of_bytes bs)) add) value r
  else if type =? TP_INT32 then parse_fixed 4 (fun bs => set_int value (int32 (of_bytes bs)) add) value r
  else if type =? TP_DECIMAL then
    '(ret, value, r) ← parse_decimal r value ;
    if negb (ret =? OB_SUCCESS) then Some (ret, value, r)
    else let '(ret, value) := set_add value add in Some (ret, value, r)
  else if type =? TP_INT64 then parse_fixed 8 (fun bs => set_int value (int64 (of_bytes bs)) add) value r
  else if type =? TP_TIME then parse_fixed 8 (fun bs => set_datetime value (int64 (of_bytes bs)) add) value r
  else if type =? TP_PRECISE_TIME then
    parse_fixed 8 (fun bs => set_precise_datetime value (int64 (of_bytes bs)) add) value r
  else if type =? TP_CREATE_TIME then parse_fixed 8 (fun bs => set_createtime value (int64 (of_bytes bs))) value r
  else if type =? TP_MODIFY_TIME then parse_fixed 8 (fun bs => set_modifytime value (int64 (of_bytes bs))) value r
  else if type =? TP_FLOAT then parse_fixed 4 (fun bs => set_float value (of_bytes bs) add) value r
  else if type =? TP_DOUBLE then parse_fixed 8 (fun bs => set_double value (of_bytes bs) add) value r
  else if type =? TP_BOOL then parse_fixed 1 (fun bs => set_bool value (negb (of_bytes bs =? 0))) value r
  else if type =? TP_VARCHAR then parse_varchar r value
  else if type =? TP_ESCAPE then Some (parse_escape attr value r)
  else if type =? TP_EXTEND then Some (parse_extend attr value r)
  else Some (OB_NOT_SUPPORTED, value, r).

(** [parse]; [column_id] is [None] when the caller passes a null pointer. *)
Definition parse (r : ObBufferReader) (value : ObObj) (column_id : option Z)
    : option (Z * ObObj * option Z * ObBufferReader) :=
  '(ret, bs, r) ← reader_get 1 r ;
  let type := of_bytes bs mod 32 in
  let attr := of_bytes bs / 32 in
  '(ret, value, r) ← (if ret =? OB_SUCCESS then parse_value type attr value r else Some (ret, value, r)) ;
  match column_id with
  | None => Some (ret, value, None, r)
  | Some old =>
      if (ret =? OB_SUCCESS) && negb (type =? TP_ESCAPE) then
        '(ret, bs, r) ← reader_get 4 r ;
        let id := of_bytes bs in
        Some (ret, value,
              Some (if ret =? OB_SUCCESS then
                      if id =? OB_COMPACT_COLUMN_INVALID_ID then OB_INVALID_ID else id
                    else old), r)
      else Some (ret, value, Some OB_INVALID_ID, r)
  end.

Record ObCompactCellIterator := mkIter {
  buf_reader_ : ObBufferReader;
  it_column_id_ : Z;
  it_value_ : ObObj;
  row_start_ : Z;
  store_type_ : ObCompactStoreType;
  step_ : Z;
  is_row_finished_ : bool;
  inited_ : bool
}.

Definition ObCompactCellIterator_new : ObCompactCellIterator :=
  mkIter (mkReader None 0 INVALID_BUF_SIZE) OB_INVALID_ID ObObj_new 0 SPARSE 0 true false.

(** Both [init]s: a bare pointer has no size. *)
Definition iter_init (it : ObCompactCellIterator) (buf : option (list Z)) (buf_size : Z)
    (store_type : ObCompactStoreType) : Z * ObCompactCellIterator :=
  let '(ret, r) := reader_assign (buf_reader_ it) buf buf_size in
  if ret =? OB_SUCCESS then (ret, mkIter r (it_column_id_ it) (it_value_ it) 0 store_type 0 true true)
  else (ret, it).

Definition is_end_row (o : ObObj) : bool :=
  type_eqb (type_ o) ObExtendType && (OP_END_ROW =? get_ext o).

(** The first lines of [next_cell] and [get_next_cell]. *)
Definition start_row (it : ObCompactCellIterator) : ObCompactCellIterator :=
  if is_row_finished_ it then
    mkIter (buf_reader_ it) (it_column_id_ it) (it_value_ it) (r_pos_ (buf_reader_ it)) (store_type_ it)
           (step_ it) false (inited_ it)
  else it.

(** Whether the cell at the current step carries a column id; [None] when no
    cell is parsed. *)
Definition cell_has_column_id (store_type : ObCompactStoreType) (step : Z) : option bool :=
  match store_type with
  | SPARSE => Some true
  | DENSE => Some false
  | DENSE_SPARSE => if step =? 0 then Some false else if step =? 1 then Some true else None
  | DENSE_DENSE => if (step =? 0) || (step =? 1) then Some false else None
  | INVALID_COMPACT_STORE_TYPE => None
  end.

Definition is_two_part (store_type : ObCompactStoreType) : bool :=
  match store_type with DENSE_SPARSE | DENSE_DENSE => true | _ => false end.

Definition next_cell (it : ObCompactCellIterator) : option (Z * ObCompactCellIterator) :=
  if negb (inited_ it) then Some (OB_NOT_INIT, it)
  else
    let it := start_row it in
    match store_type_ it with
    | INVALID_COMPACT_STORE_TYPE =>
        Some (OB_ERROR, mkIter (buf_reader_ it) OB_INVALID_ID (it_value_ it) (row_start_ it) (store_type_ it)
                               (step_ it) (is_row_finished_ it) (inited_ it))
    | st =>
        '(ret, value, column_id, r) ←
          match cell_has_column_id st (step_ it) with
          | Some has_id =>
              parse (buf_reader_ it) (it_value_ it) (if has_id then Some OB_INVALID_ID else None)
          | None => Some (OB_SUCCESS, it_value_ it, None, buf_reader_ it)
          end ;
        let parsed := (ret =? OB_SUCCESS) || (ret =? OB_ITER_END) in
        let step := if is_two_part st && parsed && is_end_row value then
                      if step_ it =? 0 then 1 else if step_ it =? 1 then 0 else step_ it
                    else step_ it in
        Some (ret, mkIter r (default OB_INVALID_ID column_id) value (row_start_ it) st step
                          (is_row_finished_ it || (ret =? OB_SUCCESS) && is_end_row value) (inited_ it))
    end.

(** What [get_cell] gives of the iterator: the column id, the value, whether the
    row is finished, and then the bytes of the row. *)
Definition iter_get_cell (it : ObCompactCellIterator)
    : Z * option (Z * ObObj * bool * option (list Z)) :=
  if negb (inited_ it) then (OB_NOT_INIT, None)
  else
    let row := if is_row_finished_ it then
                 buf ← r_buf_ (buf_reader_ it) ;
                 bytes_at buf (row_start_ it) (int32 (r_pos_ (buf_reader_ it) - row_start_ it))
               else None in
    (OB_SUCCESS, Some (it_column_id_ it, it_value_ it, is_row_finished_ it, row)).

(** The [get_cell] of the dense formats. *)
Definition iter_get_cell_dense (it : ObCompactCellIterator)
    : Z * option (ObObj * bool * option (list Z)) :=
  match iter_get_cell it with
  | (ret, None) => (ret, None)
  | (ret, Some (column_id, value, finished, row)) =>
      (if negb (OB_INVALID_ID =? column_id) then OB_NOT_SUPPORTED else ret, Some (value, finished, row))
  end.

(** [get_next_cell]: parses into the caller's [value]; the two-part formats look
    at the iterator's own [value_] to leave the second part.  The result is the
    code, the value, the column id and whether the row is finished (written on
    success), and the iterator. *)
Definition get_next_cell (it : ObCompactCellIterator) (value : ObObj) (column_id : Z)
    : option (Z * ObObj * Z * option bool * ObCompactCellIterator) :=
  if negb (inited_ it) then Some (OB_NOT_INIT, value, column_id, None, it)
  else
    let it := start_row it in
    let st := store_type_ it in
    match st with
    | INVALID_COMPACT_STORE_TYPE => Some (OB_ERROR, value, column_id, None, it)
    | _ =>
        '(ret, value, id, r) ←
          (if is_two_part st then
             match cell_has_column_id st (step_ it) with
             | Some has_id => parse (buf_reader_ it) value (if has_id then Some column_id else None)
             | None => Some (OB_SUCCESS, value, None, buf_reader_ it)
             end
           else Some (OB_SUCCESS, value, None, buf_reader_ it)) ;
        let parsed := (ret =? OB_SUCCESS) || (ret =? OB_ITER_END) in
        let step :=
          if is_two_part st && parsed then
            if step_ it =? 0 then if is_end_row value then 1 else 0
            else if step_ it =? 1 then
              let type_ok := if bool_decide (st = DENSE_SPARSE) then type_eqb (type_ value) ObExtendType
                             else type_eqb (type_ (it_value_ it)) ObExtendType in
              if type_ok && (OP_END_ROW =? get_ext (it_value_ it)) then 0 else 1
            else step_ it
          else step_ it in
        let finished := is_row_finished_ it || (ret =? OB_SUCCESS) && is_end_row value in
        Some (ret, value, default column_id id, if ret =? OB_SUCCESS then Some finished else None,
              mkIter r (it_column_id_ it) (it_value_ it) (row_start_ it) st step finished (inited_ it))
    end.

(** ** The encoding of a cell *)

(** The type and attribute in the meta byte. *)
Definition cell_code (o : ObObj) : Z * Z :=
  match type_ o with
  | ObNullType | ObSeqType => (TP_NULL, AR_NORMAL)
  | ObIntType =>
      (let n := get_int_byte (int_val o) in
       if n =? 1 then TP_INT8 else if n =? 2 then TP_INT16 else if n =? 4 then TP_INT32 else TP_INT64,
       add_attr o)
  | ObDecimalType => (TP_DECIMAL, AR_NORMAL)
  | ObFloatType => (TP_FLOAT, AR_NORMAL)
  | ObDoubleType => (TP_DOUBLE, AR_NORMAL)
  | ObBoolType => (TP_BOOL, AR_NORMAL)
  | ObDateTimeType => (TP_TIME, add_attr o)
  | ObPreciseDateTimeType => (TP_PRECISE_TIME, add_attr o)
  | ObVarcharType => (TP_VARCHAR, AR_NORMAL)
  | ObCreateTimeType => (TP_CREATE_TIME, AR_NORMAL)
  | ObModifyTimeType => (TP_MODIFY_TIME, AR_NORMAL)
  | ObExtendType =>
      (TP_EXTEND, if int_val o =? MIN_OBJECT_VALUE then AR_MIN
                  else if int_val o =? MAX_OBJECT_VALUE then AR_MAX else ES_DEL_ROW)
  end.

Definition payload (o : ObObj) : list Z :=
  match type_ o, value_ o with
  | ObIntType, UInt v => to_bytes (Z.to_nat (get_int_byte v)) v
  | ObDecimalType, UWords ws =>
      to_bytes 1 (dec_vscale_ o) ++ decimal_meta o ++ concat (map (to_bytes 4) ws)
  | ObFloatType, UFloat b => to_bytes 4 b
  | ObDoubleType, UDouble b => to_bytes 8 b
  | ObBoolType, UBool b => [if b then 1 else 0]
  | (ObDateTimeType | ObPreciseDateTimeType | ObCreateTimeType | ObModifyTimeType), UInt v => to_bytes 8 v
  | ObVarcharType, UVarchar s => to_bytes 4 (Z.of_nat (length s)) ++ s
  | _, _ => []
  end.

Definition encode_value (o : ObObj) : list Z :=
  cell_meta (cell_code o).1 (cell_code o).2 ++ payload o.

Definition int64_range (v : Z) : Prop := -2 ^ 63 <= v < 2 ^ 63.
Definition op_flag_valid (o : ObObj) : Prop := op_flag_ o = INVALID_OP_FLAG \/ op_flag_ o = ADD.

(** The cells the format keeps: what the setters build, of the supported types;
    floats, doubles and decimals that are not increments; decimals of at most
    three words; of the extended values the two bounds and the row deletion. *)
Definition storable (o : ObObj) : Prop :=
  match type_ o, value_ o with
  | ObNullType, _ => op_flag_ o = INVALID_OP_FLAG
  | (ObIntType | ObDateTimeType | ObPreciseDateTimeType), UInt v => int64_range v /\ op_flag_valid o
  | (ObCreateTimeType | ObModifyTimeType), UInt v => int64_range v /\ op_flag_ o = INVALID_OP_FLAG
  | ObFloatType, UFloat b => 0 <= b < 2 ^ 32 /\ op_flag_ o = INVALID_OP_FLAG
  | ObDoubleType, UDouble b => 0 <= b < 2 ^ 64 /\ op_flag_ o = INVALID_OP_FLAG
  | ObBoolType, UBool _ => op_flag_ o = INVALID_OP_FLAG
  | ObVarcharType, UVarchar s => Z.of_nat (length s) <= INT32_MAX /\ op_flag_ o = INVALID_OP_FLAG
  | ObExtendType, UInt v =>
      (v = MIN_OBJECT_VALUE \/ v = MAX_OBJECT_VALUE \/ v = OP_DEL_ROW) /\ op_flag_ o = INVALID_OP_FLAG
  | ObDecimalType, UWords ws =>
      Z.of_nat (length ws) = dec_nwords_ o + 1 /\ 0 <= dec_nwords_ o <= 2 /\ words_wf ws /\
      0 <= dec_vscale_ o < 2 ^ 6 /\ 0 <= dec_precision_ o < 2 ^ 7 /\ 0 <= dec_scale_ o < 2 ^ 6 /\
      op_flag_ o = INVALID_OP_FLAG
  | _, _ => False
  end.

(** Equality of what the getters show: the value of a null and the decimal
    attributes of another type are leftovers. *)
Definition same_cell (a b : ObObj) : Prop :=
  type_ a = type_ b /\ op_flag_ a = op_flag_ b /\
  (type_ b <> ObNullType -> value_ a = value_ b) /\
  (type_ b = ObDecimalType ->
     dec_vscale_ a = dec_vscale_ b /\ dec_precision_ a = dec_precision_ b /\
     dec_scale_ a = dec_scale_ b /\ dec_nwords_ a = dec_nwords_ b).

Lemma get_int_byte_cases v :
  int64_range v ->
  (get_int_byte v = 1 /\ - 2 ^ 7 <= v < 2 ^ 7) \/ (get_int_byte v = 2 /\ - 2 ^ 15 <= v < 2 ^ 15) \/
  (get_int_byte v = 4 /\ - 2 ^ 31 <= v < 2 ^ 31) \/ (get_int_byte v = 8 /\ - 2 ^ 63 <= v < 2 ^ 63).
Proof. unfold int64_range, get_int_byte. intros. cases; intuition lia. Qed.

Lemma writes_words ws : writes (write_words ws) (concat (map (to_bytes 4) ws)).
Proof.
  induction ws as [| w ws IH]; cbn [write_words map concat]; auto with writing.
Qed.
#[local] Hint Resolve writes_words : writing.

Lemma writes_value o : storable o -> writes (write_value o) (encode_value o).
Proof.
  unfold storable, write_value, encode_value, payload, cell_code.
  destruct o as [t flag vs pr sc nw v]; cbn [type_ value_ op_flag_ dec_nwords_].
  destruct t; try (by destruct v); intros Hs; cbn [fst snd]; try rewrite app_nil_r; auto with writing;
    destruct v; try done; auto with writing.
  - unfold write_int, add_attr, is_add, int_val; cbn [value_ op_flag_].
    destruct (get_int_byte_cases v) as [[-> _] | [[-> _] | [[-> _] | [-> _]]]]; [apply Hs | ..];
      cbn [Z.eqb Pos.eqb]; apply writes_andthen; apply writes_write.
  - apply writes_andthen; [apply writes_write |]. unfold write_varchar, get_varchar; cbn [type_ value_].
    change (type_eqb ObVarcharType ObVarcharType) with true. cbn [from_option id].
    destruct (Z.ltb_spec INT32_MAX (Z.of_nat (length s))); [lia |]. auto with writing.
  - unfold write_ext, int_val; cbn [value_]. destruct Hs as [[-> | [-> | ->]] _]; apply writes_write.
  - apply writes_andthen; [apply writes_write |]. unfold write_decimal; cbn [value_ dec_nwords_ dec_vscale_].
    destruct Hs as (-> & _). rewrite Z.eqb_refl. auto with writing.
Qed.

(** ** Reading back *)

Lemma parse_fixed_unread n set value r buf bs rest :
  unread r buf (bs ++ rest) -> length bs = Z.to_nat n -> 0 < n ->
  exists r', parse_fixed n set value r = Some (OB_SUCCESS, set bs, r') /\ unread r' buf rest.
Proof.
  intros Hu Hl Hn. destruct (reader_get_unread r buf bs rest n Hu) as (r' & E & Hu');
    [lia | intros ->; simpl in Hl; lia |].
  exists r'. split; [| done]. unfold parse_fixed. by rewrite E.
Qed.

Lemma parse_words_unread ws r buf rest acc :
  words_wf ws -> unread r buf (concat (map (to_bytes 4) ws) ++ rest) ->
  exists r', parse_words (length ws) r acc = Some (OB_SUCCESS, acc ++ ws, r') /\ unread r' buf rest.
Proof.
  revert r acc. induction ws as [| w ws IH]; intros r acc Hws Hu; cbn [map concat length parse_words] in *.
  - exists r. by rewrite app_nil_r.
  - rewrite <- app_assoc in Hu. apply Forall_cons in Hws as [Hw Hws].
    destruct (reader_get_unread r buf (to_bytes 4 w) _ 4 Hu) as (r1 & -> & Hu1);
      [by rewrite to_bytes_length | done |].
    rewrite bind_some. change (OB_SUCCESS =? OB_SUCCESS) with true. cbn iota.
    rewrite of_to_bytes_unsigned by exact Hw.
    destruct (IH r1 (acc ++ [w]) Hws Hu1) as (r' & -> & Hu'). exists r'. by rewrite <- app_assoc.
Qed.

Lemma decimal_meta_fields p s n :
  0 <= p < 2 ^ 7 -> 0 <= s < 2 ^ 6 -> 0 <= n < 2 ^ 3 ->
  let m := p + 2 ^ 7 * s + 2 ^ 13 * n in
  0 <= m < 2 ^ 16 /\ m mod 2 ^ 7 = p /\ m / 2 ^ 7 mod 2 ^ 6 = s /\ m / 2 ^ 13 mod 2 ^ 3 = n.
Proof.
  intros Hp Hs Hn m. unfold m. cbn [Z.pow Z.pow_pos Pos.iter Z.mul Pos.mul] in *.
  Z.to_euclidean_division_equations. lia.
Qed.

Lemma parse_decimal_unread o ws r buf rest value :
  value_ o = UWords ws -> type_ o = ObDecimalType -> storable o -> unread r buf (payload o ++ rest) ->
  exists r', parse_decimal r value =
    Some (OB_SUCCESS, mkObj ObDecimalType (op_flag_ value) (dec_vscale_ o) (dec_precision_ o)
                            (dec_scale_ o) (dec_nwords_ o) (UWords ws), r') /\ unread r' buf rest.
Proof.
  unfold storable, payload, decimal_meta. intros Hv Ht. rewrite Ht, Hv. intros (Hl & Hn & Hws & Hvs & Hp & Hs & _) Hu.
  rewrite <- !app_assoc in Hu. unfold parse_decimal.
  destruct (reader_get_unread r buf _ _ 1 Hu) as (r1 & -> & Hu1); [by rewrite to_bytes_length | done |].
  rewrite bind_some. change (negb (OB_SUCCESS =? OB_SUCCESS)) with false. cbn iota.
  destruct (reader_get_unread r1 buf _ _ 2 Hu1) as (r2 & -> & Hu2); [by rewrite to_bytes_length | done |].
  rewrite bind_some. change (negb (OB_SUCCESS =? OB_SUCCESS)) with false. cbn iota.
  destruct (decimal_meta_fields (dec_precision_ o) (dec_scale_ o) (dec_nwords_ o)) as (Hm & E1 & E2 & E3);
    [lia | lia | lia |].
  rewrite (of_to_bytes_unsigned 2) by exact Hm. rewrite E1, E2, E3.
  rewrite (of_to_bytes_unsigned 1) by (simpl; lia).
  destruct (Z.leb_spec (dec_nwords_ o + 1) 3); [| lia].
  destruct (parse_words_unread ws r2 buf rest [] Hws Hu2) as (r3 & E & Hu3).
  replace (Z.to_nat (dec_nwords_ o + 1)) with (length ws) by lia. rewrite E, bind_some.
  exists r3. split; [| done]. do 3 f_equal.
  change 63 with (Z.ones 6). rewrite Z.land_ones by lia. rewrite Z.mod_small by lia. done.
Qed.

Lemma set_value_same o value t (add : bool) v :
  type_ o = t -> t <> ObDecimalType -> op_flag_ o = (if add then ADD else INVALID_OP_FLAG) ->
  (t <> ObNullType -> value_ o = v) -> same_cell (set_value value t add v) o.
Proof.
  intros Ht Hd Hf Hv. unfold same_cell, set_value; cbn. rewrite Ht.
  conjs; [done | done | | done]. intros Hn. symmetry. auto.
Qed.

Lemma add_attr_flag o : op_flag_valid o -> op_flag_ o = if add_attr o =? AR_ADD then ADD else INVALID_OP_FLAG.
Proof. unfold op_flag_valid, add_attr, is_add. by intros [-> | ->]. Qed.

(** A fixed-width value reads back as the value that was written. *)
Lemma parse_fixed_cell o n (set : list Z -> ObObj) value r buf bs rest :
  unread r buf (bs ++ rest) -> length bs = Z.to_nat n -> 0 < n -> same_cell (set bs) o ->
  exists v r', parse_fixed n set value r = Some (OB_SUCCESS, v, r') /\ same_cell v o /\ unread r' buf rest.
Proof.
  intros Hu Hl Hn Hs. destruct (parse_fixed_unread n set value r buf bs rest Hu Hl Hn) as (r' & E & Hu').
  by exists (set bs), r'.
Qed.

Lemma parse_signed_cell o (n : nat) t (add : bool) v value r buf rest :
  type_ o = t -> t <> ObDecimalType -> op_flag_ o = (if add then ADD else INVALID_OP_FLAG) ->
  value_ o = UInt v -> (0 < n)%nat -> - 2 ^ (8 * Z.of_nat n - 1) <= v < 2 ^ (8 * Z.of_nat n - 1) ->
  unread r buf (to_bytes n v ++ rest) ->
  exists v' r',
    parse_fixed (Z.of_nat n)
      (fun bs => set_value value t add (UInt (wraps (8 * Z.of_nat n) (of_bytes bs)))) value r
      = Some (OB_SUCCESS, v', r') /\ same_cell v' o /\ unread r' buf rest.
Proof.
  intros Ht Hd Hf Hv Hn Hr Hu. eapply parse_fixed_cell; [exact Hu | rewrite to_bytes_length; lia | lia |].
  apply set_value_same; [done | done | done |]. intros _. by rewrite Hv, of_to_bytes_signed.
Qed.

Lemma parse_unsigned_cell o (n : nat) t (mk : Z -> ObjValue) b value r buf rest :
  type_ o = t -> t <> ObDecimalType -> op_flag_ o = INVALID_OP_FLAG ->
  value_ o = mk b -> (0 < n)%nat -> 0 <= b < 2 ^ (8 * Z.of_nat n) -> unread r buf (to_bytes n b ++ rest) ->
  exists v' r',
    parse_fixed (Z.of_nat n) (fun bs => set_value value t false (mk (of_bytes bs))) value r
      = Some (OB_SUCCESS, v', r') /\ same_cell v' o /\ unread r' buf rest.
Proof.
  intros Ht Hd Hf Hv Hn Hr Hu. eapply parse_fixed_cell; [exact Hu | rewrite to_bytes_length; lia | lia |].
  apply set_value_same; [done | done | done |]. intros _. by rewrite Hv, of_to_bytes_unsigned.
Qed.

Lemma parse_varchar_unread s r buf rest value :
  Z.of_nat (length s) <= INT32_MAX ->
  unread r buf (to_bytes 4 (Z.of_nat (length s)) ++ s ++ rest) ->
  exists r', parse_varchar r value = Some (OB_SUCCESS, set_varchar value s, r') /\ unread r' buf rest.
Proof.
  intros Hl Hu. unfold parse_varchar.
  destruct (reader_get_unread r buf _ _ 4 Hu) as (r1 & -> & Hu1); [by rewrite to_bytes_length | done |].
  rewrite bind_some. change (negb (OB_SUCCESS =? OB_SUCCESS)) with false. cbn iota.
  rewrite (un_buf r1 buf _ Hu1), bind_some. unfold INT32_MAX in Hl.
  rewrite (of_to_bytes_signed 4) by (simpl; lia).
  rewrite (bytes_at_unread r1 buf s rest Hu1), bind_some.
  eexists. split; [done |]. by eapply unread_skip.
Qed.

Lemma parse_value_unread o value r buf rest :
  storable o -> unread r buf (payload o ++ rest) ->
  exists v r', parse_value (cell_code o).1 (cell_code o).2 value r = Some (OB_SUCCESS, v, r') /\
    same_cell v o /\ unread r' buf rest.
Proof.
  intros Hs Hu. pose proof Hs as Hst. pose proof Hu as Hup. unfold storable in Hs. unfold payload in Hu.
  destruct (type_ o) eqn:Ht; destruct (value_ o) eqn:Hv; try done; unfold cell_code; rewrite Ht;
    cbn [fst snd].
  all: try (eexists _, r; split; [reflexivity |]; split; [by apply set_value_same | exact Hu]).
  - (* int *)
    destruct Hs as [Hr Hf]. unfold int_val. rewrite Hv. apply add_attr_flag in Hf.
    destruct (get_int_byte_cases v Hr) as [[E Hb] | [[E Hb] | [[E Hb] | [E Hb]]]]; rewrite E in *;
      cbn [Z.eqb Pos.eqb].
    + exact (parse_signed_cell o 1 ObIntType _ v value r buf rest Ht ltac:(done) Hf Hv ltac:(lia) Hb Hu).
    + exact (parse_signed_cell o 2 ObIntType _ v value r buf rest Ht ltac:(done) Hf Hv ltac:(lia) Hb Hu).
    + exact (parse_signed_cell o 4 ObIntType _ v value r buf rest Ht ltac:(done) Hf Hv ltac:(lia) Hb Hu).
    + exact (parse_signed_cell o 8 ObIntType _ v value r buf rest Ht ltac:(done) Hf Hv ltac:(lia) Hb Hu).
  - exact (parse_unsigned_cell o 4 ObFloatType UFloat bits value r buf rest Ht ltac:(done) (proj2 Hs) Hv ltac:(lia) (proj1 Hs) Hu).
  - exact (parse_unsigned_cell o 8 ObDoubleType UDouble bits value r buf rest Ht ltac:(done) (proj2 Hs) Hv ltac:(lia) (proj1 Hs) Hu).
  - destruct Hs as [Hr Hf]. apply add_attr_flag in Hf.
    exact (parse_signed_cell o 8 ObDateTimeType _ v value r buf rest Ht ltac:(done) Hf Hv ltac:(lia) Hr Hu).
  - destruct Hs as [Hr Hf]. apply add_attr_flag in Hf.
    exact (parse_signed_cell o 8 ObPreciseDateTimeType _ v value r buf rest Ht ltac:(done) Hf Hv ltac:(lia) Hr Hu).
  - destruct Hs as [Hl Hf]. rewrite <- app_assoc in Hu.
    destruct (parse_varchar_unread s r buf rest value Hl Hu) as (r' & E & Hu').
    exists (set_varchar value s), r'. split; [exact E |]. split; [| done]. by apply set_value_same.
  - destruct Hs as [Hr Hf]. exact (parse_signed_cell o 8 ObCreateTimeType false v value r buf rest Ht ltac:(done) Hf Hv ltac:(lia) Hr Hu).
  - destruct Hs as [Hr Hf]. exact (parse_signed_cell o 8 ObModifyTimeType false v value r buf rest Ht ltac:(done) Hf Hv ltac:(lia) Hr Hu).
  - destruct Hs as [Hx Hf]. unfold int_val. rewrite Hv.
    destruct Hx as [-> | [-> | ->]]; eexists _, r; (split; [reflexivity |]); (split; [| exact Hu]);
      by apply set_value_same.
  - eapply (parse_fixed_cell o); [exact Hu | done | lia |].
    apply set_value_same; [done | done | done |]. intros _. rewrite Hv. by destruct b.
  - destruct (parse_decimal_unread o ws r buf rest value Hv Ht Hst Hup) as (r' & E & Hu').
    eexists _, r'. split; [unfold parse_value; cbn -[parse_decimal]; by rewrite E |].
    split; [| done]. destruct Hs as (_ & _ & _ & _ & _ & _ & Hf).
    unfold same_cell, set_flag; cbn. by rewrite Ht, Hv, Hf.
Qed.

Lemma cell_code_range o :
  0 <= (cell_code o).1 < 32 /\ (cell_code o).1 <> TP_ESCAPE /\ 0 <= (cell_code o).2 < 8.
Proof.
  unfold cell_code, add_attr, TP_ESCAPE.
  destruct (type_ o); cbn [fst snd];
    repeat match goal with |- context [if ?b then _ else _] => destruct b end; split_and!; by compute.
Qed.

(** The byte of a meta gives back its fields. *)
Lemma meta_fields ty attr :
  0 <= ty < 32 -> of_bytes (cell_meta ty attr) mod 32 = ty /\ of_bytes (cell_meta ty attr) / 32 = attr.
Proof.
  intros Hty. unfold cell_meta. cbn [of_bytes]. replace (ty + 32 * attr + 256 * 0) with (ty + attr * 32) by lia.
  rewrite Z_mod_plus_full, Z_div_plus_full by lia. rewrite Z.mod_small, Z.div_small by lia. lia.
Qed.

(** The column ids the sparse format keeps. *)
Definition valid_column_id (id : Z) : Prop := 0 <= id <= UINT32_MAX /\ id <> OB_COMPACT_COLUMN_INVALID_ID.

Lemma parse_unread o (id : option Z) old value r buf rest :
  storable o -> (forall c, id = Some c -> valid_column_id c) ->
  unread r buf (encode_value o ++ (match id with Some c => to_bytes 4 c | None => [] end) ++ rest) ->
  exists v r', parse r value ((fun _ => old) <$> id) = Some (OB_SUCCESS, v, id, r') /\ same_cell v o /\ unread r' buf rest.
Proof.
  intros Hs Hid Hu. unfold encode_value in Hu. rewrite <- app_assoc in Hu.
  destruct (cell_code_range o) as (Hty & Hesc & _). destruct (meta_fields (cell_code o).1 (cell_code o).2 Hty) as [E1 E2].
  unfold parse. destruct (reader_get_unread r buf _ _ 1 Hu) as (r1 & -> & Hu1); [done | done |].
  rewrite bind_some, E1, E2. change (OB_SUCCESS =? OB_SUCCESS) with true. cbn iota.
  destruct (parse_value_unread o value r1 buf _ Hs Hu1) as (v & r2 & -> & Hv & Hu2). rewrite bind_some.
  destruct id as [c |]; cbn [option_fmap option_map fmap].
  - change (OB_SUCCESS =? OB_SUCCESS) with true.
    destruct (Z.eqb_spec (cell_code o).1 TP_ESCAPE); [done |]. cbn [negb andb].
    destruct (reader_get_unread r2 buf _ _ 4 Hu2) as (r3 & E & Hu3); [by rewrite to_bytes_length | done |].
    exists v, r3. split; [| done]. cbn. rewrite E, bind_some.
    change (OB_SUCCESS =? OB_SUCCESS) with true. cbn iota.
    destruct (Hid c eq_refl) as [Hr Hne]. unfold UINT32_MAX in Hr.
    rewrite of_to_bytes_unsigned by (simpl; lia).
    by destruct (Z.eqb_spec c OB_COMPACT_COLUMN_INVALID_ID).
  - by exists v, r2.
Qed.

(** The end of a row. *)
Lemma parse_end_row (id : option Z) value r buf rest :
  unread r buf (cell_meta TP_ESCAPE ES_END_ROW ++ rest) ->
  exists r', parse r value id = Some (OB_SUCCESS, set_ext value OP_END_ROW, (fun _ => OB_INVALID_ID) <$> id, r') /\
    unread r' buf rest.
Proof.
  intros Hu. unfold parse. destruct (reader_get_unread r buf _ _ 1 Hu) as (r1 & -> & Hu1); [done | done |].
  exists r1. split; [| done]. by destruct id.
Qed.

Lemma writes_column_id st c :
  valid_column_id c -> writes (write_column_id st c) (to_bytes 4 c).
Proof.
  intros [Hr _]. unfold write_column_id. unfold OB_INVALID_ID, UINT64_MAX, UINT32_MAX in *.
  destruct (Z.eqb_spec c (2 ^ 64 - 1)); [lia |]. destruct (Z.ltb_spec (2 ^ 32 - 1) c); [lia |].
  apply writes_write.
Qed.

Lemma writes_append st c o :
  storable o -> valid_column_id c -> writes (append st c o) (encode_value o ++ to_bytes 4 c).
Proof. intros Hs Hc. apply writes_andthen; [by apply writes_value | by apply writes_column_id]. Qed.

Lemma writes_append_dense st o : storable o -> st <> SPARSE -> writes (append_dense st o) (encode_value o).
Proof.
  intros Hs Hst. rewrite <- (app_nil_r (encode_value o)). apply writes_andthen; [by apply writes_value |].
  unfold write_column_id. rewrite Z.eqb_refl, bool_decide_eq_false_2 by done. apply writes_finish.
Qed.

Lemma writes_end_row : writes (append_escape ES_END_ROW) (cell_meta TP_ESCAPE ES_END_ROW).
Proof. apply writes_write. Qed.

(** ** The iterator over a sequence of cells *)

Definition iter_at (it : ObCompactCellIterator) (st : ObCompactStoreType) (step : Z) (buf bs : list Z) : Prop :=
  inited_ it = true /\ store_type_ it = st /\ step_ it = step /\ unread (buf_reader_ it) buf bs.

Lemma iter_init_at buf st :
  exists it, iter_init ObCompactCellIterator_new (Some buf) (Z.of_nat (length buf)) st = (OB_SUCCESS, it) /\
    iter_at it st 0 buf buf.
Proof.
  eexists. split; [done |]. split; [done |]. split; [done |]. split; [done |].
  split; cbn; [done | done | lia | done].
Qed.

Lemma start_row_at it st step buf bs :
  iter_at it st step buf bs ->
  iter_at (start_row it) st step buf bs /\ is_row_finished_ (start_row it) = false.
Proof. unfold iter_at, start_row. intros H. by destruct (is_row_finished_ it) eqn:E. Qed.

Lemma storable_not_end_row v o : storable o -> same_cell v o -> is_end_row v = false.
Proof.
  intros Hs (Ht & _ & Hv & _). unfold is_end_row, type_eqb, get_ext, int_val. rewrite Ht.
  destruct (decide (type_ o = ObExtendType)) as [E | E].
  - rewrite Hv by congruence. unfold storable in Hs. rewrite E in *.
    destruct (value_ o); try done. by destruct Hs as [[-> | [-> | ->]] _].
  - by rewrite bool_decide_eq_false_2.
Qed.

Definition id_bytes (id : option Z) : list Z := match id with Some c => to_bytes 4 c | None => [] end.

Lemma next_cell_value it st step buf o id rest :
  iter_at it st step buf (encode_value o ++ id_bytes id ++ rest) ->
  st <> INVALID_COMPACT_STORE_TYPE -> cell_has_column_id st step = Some (bool_decide (is_Some id)) ->
  storable o -> (forall c, id = Some c -> valid_column_id c) ->
  exists it', next_cell it = Some (OB_SUCCESS, it') /\ iter_at it' st step buf rest /\
    same_cell (it_value_ it') o /\ it_column_id_ it' = default OB_INVALID_ID id /\
    is_row_finished_ it' = false.
Proof.
  intros Hit Hst Hid Hs Hc. destruct (start_row_at _ _ _ _ _ Hit) as [(Hi & Hst1 & Hstep & Hu) Hf].
  unfold next_cell. destruct Hit as [-> _]. cbn [negb].
  destruct (parse_unread o id OB_INVALID_ID (it_value_ (start_row it)) _ buf rest Hs Hc Hu)
    as (v & r' & E & Hv & Hu').
  rewrite Hst1, Hstep. assert (Hopt : (if bool_decide (is_Some id) then Some OB_INVALID_ID else None)
    = (fun _ => OB_INVALID_ID) <$> id) by (by destruct id).
  destruct st; try done; rewrite Hid, Hopt, E, bind_some, (storable_not_end_row v o Hs Hv), !andb_false_r;
    (eexists; split; [reflexivity |]); unfold iter_at; cbn; rewrite Hf; done.
Qed.

(** The end-of-row mark moves the two-part formats to their other part. *)
Definition next_step (st : ObCompactStoreType) (step : Z) : Z :=
  if is_two_part st then if step =? 0 then 1 else if step =? 1 then 0 else step else step.

Lemma next_cell_end it st step buf rest has_id :
  iter_at it st step buf (cell_meta TP_ESCAPE ES_END_ROW ++ rest) ->
  st <> INVALID_COMPACT_STORE_TYPE -> cell_has_column_id st step = Some has_id ->
  exists it', next_cell it = Some (OB_SUCCESS, it') /\ iter_at it' st (next_step st step) buf rest /\
    it_column_id_ it' = OB_INVALID_ID /\ is_row_finished_ it' = true.
Proof.
  intros Hit Hst Hid. destruct (start_row_at _ _ _ _ _ Hit) as [(Hi & Hst1 & Hstep & Hu) Hf].
  unfold next_cell. destruct Hit as [-> _]. cbn [negb].
  destruct (parse_end_row (if has_id then Some OB_INVALID_ID else None) (it_value_ (start_row it)) _ buf rest Hu)
    as (r' & E & Hu').
  rewrite Hst1, Hstep. destruct st; try done; rewrite Hid, E, bind_some;
    (eexists; split; [reflexivity |]); unfold iter_at; cbn; rewrite Hf, Hi; by destruct has_id.
Qed.

(** ** Theorems *)

(** what the format does not keep, whatever the buffer.  An increment of a
    float, double or decimal cell is written with the bytes of the plain value
    (the reader would accept the increment attribute); column 65535 is written as
    it is and read as [OB_INVALID_ID]; a decimal of four or more words is written
    and then refused by the reader. *)
Theorem compact_format_losses :
  (forall o b, write_value (set_float o b true) = write_value (set_float o b false) /\
               write_value (set_double o b true) = write_value (set_double o b false)) /\
  (forall vs pr sc nw v, write_value (mkObj ObDecimalType ADD vs pr sc nw v) =
                         write_value (mkObj ObDecimalType INVALID_OP_FLAG vs pr sc nw v)) /\
  (exists w' r', append SPARSE 65535 (set_int ObObj_new 7 false) (mkWriter (Some (replicate 6 0)) 0 6)
       = Some (OB_SUCCESS, w') /\
     parse (mkReader (w_buf_ w') 0 6) ObObj_new (Some 0)
       = Some (OB_SUCCESS, set_int ObObj_new 7 false, Some OB_INVALID_ID, r')) /\
  (let o := mkObj ObDecimalType 0 2 38 2 3 (UWords [1; 2; 3; 4]) in
   exists w' v' r', append DENSE OB_INVALID_ID o (mkWriter (Some (replicate 20 0)) 0 20)
       = Some (OB_SUCCESS, w') /\
     parse (mkReader (w_buf_ w') 0 20) ObObj_new None = Some (OB_NOT_IMPLEMENT, v', None, r')).
Proof.
  conjs.
  - intros o b. done.
  - intros vs pr sc nw v. done.
  - eexists _, _. split; [vm_compute; reflexivity |]. vm_compute. reflexivity.
  - eexists _, _, _. split; [vm_compute; reflexivity |]. vm_compute. reflexivity.
Qed.

(** Two rows in the two-part format: each a rowkey of one int, then one int with
    its column id. *)
Definition two_rows : list Z :=
  let row k v := encode_value (set_int ObObj_new k false) ++ cell_meta TP_ESCAPE ES_END_ROW ++
                 encode_value (set_int ObObj_new v false) ++ to_bytes 4 16 ++ cell_meta TP_ESCAPE ES_END_ROW in
  row 1 10 ++ row 2 20.

Fixpoint next_cells (k : nat) (it : ObCompactCellIterator) : option (list (Z * Z)) :=
  match k with
  | O => Some []
  | S k' => '(_, it) ← next_cell it ; rest ← next_cells k' it ; Some ((it_column_id_ it, int_val (it_value_ it)) :: rest)
  end.

Fixpoint get_next_cells (k : nat) (it : ObCompactCellIterator) : option (list (Z * Z)) :=
  match k with
  | O => Some []
  | S k' =>
      '(ret, v, c, _, it) ← get_next_cell it ObObj_new OB_INVALID_ID ;
      rest ← get_next_cells k' it ; Some ((c, int_val v) :: rest)
  end.

(** over the rows of a two-part buffer [next_cell] and [get_next_cell] agree
    on the first row only.  [get_next_cell] tests the iterator's own value, which
    it never sets, for the end of the row, so it stays in the second part and
    reads the next rowkey as a cell with a column id: here the bytes of the
    second rowkey's end mark, of the value 20 and of the start of its column id. *)
Theorem get_next_cell_second_row :
  let it := (iter_init ObCompactCellIterator_new (Some two_rows) (Z.of_nat (length two_rows)) DENSE_SPARSE).2 in
  next_cells 8 it = Some [(OB_INVALID_ID, 1); (OB_INVALID_ID, OP_END_ROW); (16, 10); (OB_INVALID_ID, OP_END_ROW);
                          (OB_INVALID_ID, 2); (OB_INVALID_ID, OP_END_ROW); (16, 20); (OB_INVALID_ID, OP_END_ROW)] /\
  get_next_cells 5 it = Some [(OB_INVALID_ID, 1); (OB_INVALID_ID, OP_END_ROW); (16, 10); (OB_INVALID_ID, OP_END_ROW);
                              (0x1014011f, 2)].
Proof. split; [vm_compute; reflexivity |]. vm_compute. reflexivity. Qed.

(** [get_compact_cell_size] is meant to be the size of the compact form; the
    writer uses 4 bytes for the column id and for the length of a string. *)
Lemma compact_cell_size_too_small o c :
  storable o -> valid_column_id c -> type_ o = ObIntType \/ type_ o = ObVarcharType ->
  Z.of_nat (length (encode_value o ++ to_bytes 4 c)) =
  get_compact_cell_size o + (if type_eqb (type_ o) ObVarcharType then 4 else 2).
Proof.
  intros Hs _ Ht. unfold get_compact_cell_size, encode_value, payload, storable in *.
  rewrite !length_app, to_bytes_length.
  destruct Ht as [E | E]; rewrite E in *; destruct (value_ o) eqn:Ev; try done.
  - rewrite to_bytes_length. unfold int_val. rewrite Ev.
    destruct (get_int_byte_cases v) as [[-> _] | [[-> _] | [[-> _] | [-> _]]]]; [apply Hs | done..].
  - unfold get_varchar. rewrite E, Ev, length_app, to_bytes_length.
    change (type_eqb ObVarcharType ObVarcharType) with true. cbn [from_option id length cell_meta]. lia.
Qed.
