(* ===== verification/ObRowUtil.v ===== *)
(** * Rows to compact rows and back

    [src/oceanbase/src/common/ob_row_util.cpp]: [ObRowUtil::convert] writes a row
    into a buffer in the sparse compact format and reads it back, with or without
    a rowkey in front. *)

From S2P Require Import Prelude ObObject ObBuffer ObRowDesc ObRow ObCompactCell.
Local Open Scope Z_scope.
Local Open Scope writing_scope.

(** ** Writing *)

Fixpoint append_cells (k : nat) (row : ObRow) (i : Z) : Writing :=
  match k with
  | O => finish OB_SUCCESS
  | S k' =>
      match raw_get_cell_ids row i with
      | (_, Some (cell, (_, column_id))) =>
          append SPARSE column_id cell ;;; append_cells k' row (i + 1)
      | (ret, None) => finish ret
      end
  end.

(** [convert(row, compact_row)] on the buffer of [compact_row]: the code and the
    writer; on success its position is the new length of [compact_row]. *)
Definition convert_to_compact (row : ObRow) (buf : option (list Z)) (size : Z)
    : option (Z * ObBufferWriter) :=
  let '(_, w) := writer_assign (mkWriter None 0 INVALID_BUF_SIZE) buf size in
  (append_cells (Z.to_nat (row_column_num row)) row 0 ;;; row_finish) w.

(** [convert(row, compact_row, out_row)]: [out_row] becomes the row, its strings
    the copies in the buffer. *)

(** The clone of a cell after a successful [append]. *)
Definition clone_of (cell : ObObj) : ObObj :=
  if type_eqb (type_ cell) ObVarcharType then set_varchar cell (default [] (get_varchar cell)) else cell.

Definition store_cell (r : ObRow) (i : Z) (cell : ObObj) : ObRow :=
  with_raw r (mkRaw (zset (cells_ (raw_row_ r)) i cell) (cells_count_ (raw_row_ r))).

Fixpoint clone_cells (k : nat) (row out : ObRow) (i : Z) (w : ObBufferWriter)
    : option (Z * ObBufferWriter * ObRow) :=
  match k with
  | O => Some (OB_SUCCESS, w, out)
  | S k' =>
      match raw_get_cell_ids row i with
      | (ret, None) => Some (ret, w, out)
      | (_, Some (cell, _)) =>
          match raw_get_cell_ids out i with
          | (ret, None) => Some (ret, w, out)
          | (_, Some (_, (_, column_id))) =>
              '(ret, w) ← append SPARSE column_id cell w ;
              if ret =? OB_SUCCESS then clone_cells k' row (store_cell out i (clone_of cell)) (i + 1) w
              else Some (ret, w, store_cell out i cell)
          end
      end
  end.

(** The result is the code and [out_row]; [buf] is the memory of [compact_row],
    of [size] bytes. *)
Definition convert_to_row (row out : ObRow) (buf : option (list Z)) (size : Z) : option (Z * ObRow) :=
  let out := row_assign out row in
  let '(_, w) := writer_assign (mkWriter None 0 INVALID_BUF_SIZE) buf size in
  '(ret, w, out) ← clone_cells (Z.to_nat (row_column_num row)) row out 0 w ;
  if ret =? OB_SUCCESS then '(ret, w) ← row_finish w ; Some (ret, out) else Some (ret, out).

(** ** Reading

    The loops end by themselves: [raw_set_cell] refuses a cell beyond the last
    column, and the rowkey buffer has [cap] cells (writing past it is outside
    the memory).  [fuel] only bounds the number of iterations. *)

Fixpoint read_cells (fuel : nat) (it : ObCompactCellIterator) (row : ObRow) (cell_idx : Z)
    : option (Z * ObRow * Z) :=
  match fuel with
  | O => None
  | S fuel' =>
      '(ret, it) ← next_cell it ;
      if negb (ret =? OB_SUCCESS) then Some (ret, row, cell_idx)
      else match iter_get_cell it with
           | (ret, None) => Some (ret, row, cell_idx)
           | (ret, Some (_, value, finished, _)) =>
               if (finished : bool) then Some (OB_SUCCESS, row, cell_idx)
               else
                 let '(ret, row) := raw_set_cell row cell_idx value in
                 if negb (ret =? OB_SUCCESS) then Some (ret, row, cell_idx + 1)
                 else read_cells fuel' it row (cell_idx + 1)
           end
  end.

Fixpoint read_rowkey (fuel : nat) (cap : Z) (it : ObCompactCellIterator) (rowkey : list ObObj)
    : option (Z * ObCompactCellIterator * list ObObj) :=
  match fuel with
  | O => None
  | S fuel' =>
      '(ret, it) ← next_cell it ;
      if negb (ret =? OB_SUCCESS) then Some (ret, it, rowkey)
      else match iter_get_cell_dense it with
           | (ret, Some (value, finished, _)) =>
               if negb (ret =? OB_SUCCESS) then Some (ret, it, rowkey)
               else if (finished : bool) then Some (OB_SUCCESS, it, rowkey)
               else if cap <=? Z.of_nat (length rowkey) then None
               else read_rowkey fuel' cap it (rowkey ++ [value])
           | (ret, None) => Some (ret, it, rowkey)
           end
  end.

(** The last test of [convert]; a row without description is dereferenced. *)
Definition check_cell_count (row : ObRow) (ret cell_idx : Z) : option Z :=
  if negb (cell_idx =? row_column_num row) then
    (* the log prints the description *)
    match row_desc_ row with None => None | Some _ => Some OB_ERR_UNEXPECTED end
  else Some ret.

Definition read_fuel (row : ObRow) : nat := Z.to_nat (row_column_num row + 2).

(** [convert(compact_row, row)]. *)
Definition convert_from_compact (compact_row : list Z) (row : ObRow) : option (Z * ObRow) :=
  let '(_, it) := iter_init ObCompactCellIterator_new (Some compact_row) (Z.of_nat (length compact_row)) SPARSE in
  '(ret, row, cell_idx) ← read_cells (read_fuel row) it row 0 ;
  ret ← check_cell_count row ret cell_idx ;
  Some (ret, row).

(** [convert(compact_row, row, rowkey, rowkey_buf)] with a rowkey: the failure of
    the first loop is forgotten by the second, which goes on reading; the rowkey
    is assigned only if the first succeeded. *)
Definition convert_with_rowkey (cap : Z) (compact_row : list Z) (row : ObRow)
    : option (Z * ObRow * option (list ObObj)) :=
  let '(_, it) := iter_init ObCompactCellIterator_new (Some compact_row) (Z.of_nat (length compact_row)) DENSE_SPARSE in
  '(ret, it, rowkey) ← read_rowkey (Z.to_nat (cap + 1)) cap it [] ;
  let assigned := if ret =? OB_SUCCESS then Some rowkey else None in
  '(ret, row, cell_idx) ← read_cells (read_fuel row) it row 0 ;
  ret ← check_cell_count row ret cell_idx ;
  Some (ret, row, assigned).

(** ** The bytes of a row *)

(** The bytes of one sparse cell. *)
Definition encode_cell (column_id : Z) (o : ObObj) : list Z := encode_value o ++ to_bytes 4 column_id.

Definition end_row : list Z := cell_meta TP_ESCAPE ES_END_ROW.

Definition encode_row (ids : list Z) (objs : list ObObj) : list Z :=
  concat (zip_with encode_cell ids objs) ++ end_row.

Definition encode_rowkey (objs : list ObObj) : list Z := concat (map encode_value objs) ++ end_row.

Definition row_column_ids (row : ObRow) : list Z :=
  match row_desc_ row with Some d => map column_id_ (columns d) | None => [] end.

(** A row that the format keeps. *)
Definition storable_row (row : ObRow) : Prop :=
  Forall storable (row_cells row) /\ Forall valid_column_id (row_column_ids row).

Lemma raw_get_cell_ids_spec row d i o k :
  row_wf row -> row_desc_ row = Some d -> row_cells row !! i = Some o -> columns d !! i = Some k ->
  raw_get_cell_ids row (Z.of_nat i) = (OB_SUCCESS, Some (o, (table_id_ k, column_id_ k))).
Proof.
  intros Hw Hd Ho Hk. pose proof (wf_desc row Hw d Hd) as Hdw. unfold raw_get_cell_ids. rewrite Hd.
  rewrite row_cells_lookup in Ho by done.
  destruct (Z.ltb_spec (Z.of_nat i) (row_column_num row)) as [Hlt | ?]; [| done]. simplify_eq.
  destruct (Z.leb_spec (row_column_num row) (Z.of_nat i)); [lia |].
  rewrite get_tid_cid_spec by done. destruct (Z.ltb_spec (Z.of_nat i) 0); [lia |].
  rewrite Nat2Z.id, Hk. unfold raw_row_get_cell. destruct (Z.ltb_spec (Z.of_nat i) 0); [lia |].
  pose proof (row_column_num_range row Hw). destruct (Z.leb_spec MAX_COLUMNS_COUNT (Z.of_nat i)); [lia |].
  done.
Qed.

Lemma raw_get_cell_ids_at r d i :
  row_wf r -> row_desc_ r = Some d -> 0 <= i < row_column_num r ->
  raw_get_cell_ids r i =
    (OB_SUCCESS, Some (raw_cell r i, (table_id_ (cell_desc d i), column_id_ (cell_desc d i)))).
Proof.
  intros Hw Hd Hi. pose proof (wf_desc r Hw d Hd) as Hdw. rewrite <- (Z2Nat.id i) by lia.
  apply (raw_get_cell_ids_spec r d); [done | done | |].
  - rewrite row_cells_lookup by done. rewrite Z2Nat.id by lia.
    destruct (Z.ltb_spec i (row_column_num r)); [done | lia].
  - apply (columns_lookup d Hdw). rewrite Z2Nat.id by lia. split; [| done].
    unfold row_column_num in Hi. rewrite Hd in Hi. apply Hi.
Qed.

(** The loop writes the cells from [i] on. *)
Lemma writes_cells k row d i :
  row_wf row -> row_desc_ row = Some d -> storable_row row ->
  (i + k = length (row_cells row))%nat ->
  writes (append_cells k row (Z.of_nat i))
    (concat (zip_with encode_cell (drop i (row_column_ids row)) (drop i (row_cells row)))).
Proof.
  intros Hw Hd [Hs Hids]. revert i. induction k as [| k IH]; intros i Hi.
  - rewrite (drop_ge (row_cells row)) by lia. rewrite zip_with_nil_r. apply writes_finish.
  - destruct (lookup_lt_is_Some_2 (row_cells row) i) as [o Ho]; [lia |].
    pose proof (row_cells_length row Hw) as Hl. unfold row_column_num in Hl. rewrite Hd in Hl.
    pose proof (columns_length d (wf_desc row Hw d Hd)) as Hc. unfold get_column_num in Hl.
    destruct (lookup_lt_is_Some_2 (columns d) i) as [c Hcol]; [lia |].
    assert (Hid : row_column_ids row !! i = Some (column_id_ c)).
    { unfold row_column_ids. rewrite Hd. change (map column_id_ (columns d)) with (column_id_ <$> columns d).
      by rewrite list_lookup_fmap, Hcol. }
    cbn [append_cells]. rewrite (raw_get_cell_ids_spec row d i o c) by done.
    rewrite (drop_S _ _ _ Ho), (drop_S _ _ _ Hid). cbn [zip_with concat].
    apply writes_andthen.
    + apply writes_append; [by eapply Forall_lookup_1 | by eapply Forall_lookup_1].
    + replace (Z.of_nat i + 1) with (Z.of_nat (S i)) by lia. apply IH. lia.
Qed.

Lemma writes_row row d :
  row_wf row -> row_desc_ row = Some d -> storable_row row ->
  writes (append_cells (Z.to_nat (row_column_num row)) row 0 ;;; row_finish)
    (encode_row (row_column_ids row) (row_cells row)).
Proof.
  intros Hw Hd Hs. apply writes_andthen; [| apply writes_end_row].
  apply (writes_cells _ row d 0); [done | done | done |].
  pose proof (row_cells_length row Hw). lia.
Qed.

(** ** Reading back *)

Lemma iter_get_cell_at it st step buf bs :
  iter_at it st step buf bs ->
  exists row, iter_get_cell it = (OB_SUCCESS, Some (it_column_id_ it, it_value_ it, is_row_finished_ it, row)).
Proof. intros [Hi _]. unfold iter_get_cell. rewrite Hi. cbn [negb]. eauto. Qed.

Lemma read_cells_encoded ids objs fuel it st step buf rest row i :
  iter_at it st step buf (concat (zip_with encode_cell ids objs) ++ end_row ++ rest) ->
  st <> INVALID_COMPACT_STORE_TYPE -> cell_has_column_id st step = Some true ->
  length ids = length objs -> Forall valid_column_id ids -> Forall storable objs ->
  row_wf row -> 0 <= i -> i + Z.of_nat (length objs) = row_column_num row -> (length objs < fuel)%nat ->
  exists row' vs, read_cells fuel it row i = Some (OB_SUCCESS, row', row_column_num row) /\
    row_wf row' /\ row_desc_ row' = row_desc_ row /\ rowkey_ row' = rowkey_ row /\
    row_cells row' = take (Z.to_nat i) (row_cells row) ++ vs /\ Forall2 same_cell vs objs.
Proof.
  intros Hit Hst Hid. revert ids objs it row i Hit.
  induction fuel as [| fuel IH]; intros ids objs it row i Hit Hlen Hids Hobjs Hw Hi Hn Hf; [lia |].
  cbn [read_cells]. destruct objs as [| o objs], ids as [| c ids]; try done.
  - cbn [zip_with concat app] in Hit.
    destruct (next_cell_end it st step buf rest true Hit Hst Hid) as (it' & -> & Hit' & _ & Hfin).
    rewrite bind_some. change (negb (OB_SUCCESS =? OB_SUCCESS)) with false. cbn iota.
    destruct (iter_get_cell_at _ _ _ _ _ Hit') as [rb ->]. rewrite Hfin.
    exists row, []. cbn [length] in Hn. rewrite Z.add_0_r in Hn. subst i.
    conjs; [done | done | done | done | | constructor].
    rewrite app_nil_r, take_ge; [done |]. pose proof (row_cells_length row Hw). lia.
  - cbn [zip_with concat] in Hit. unfold encode_cell at 1 in Hit. rewrite <- !app_assoc in Hit.
    apply Forall_cons in Hids as [Hc Hids]. apply Forall_cons in Hobjs as [Ho Hobjs].
    destruct (next_cell_value it st step buf o (Some c) _ Hit Hst) as (it' & -> & Hit' & Hv & _ & Hfin);
      [by rewrite Hid | done | by intros ? [= <-] |].
    rewrite bind_some. change (negb (OB_SUCCESS =? OB_SUCCESS)) with false. cbn iota.
    destruct (iter_get_cell_at _ _ _ _ _ Hit') as [rb ->]. rewrite Hfin. cbn iota.
    cbn [length] in Hn, Hf, Hlen.
    destruct (raw_set_cell_spec row Hw i (it_value_ it')) as (row1 & -> & Hw1 & Hk1 & Hd1 & Hc1 & _); [lia |].
    change (negb (OB_SUCCESS =? OB_SUCCESS)) with false. cbn iota.
    assert (Hn1 : row_column_num row1 = row_column_num row) by (unfold row_column_num; by rewrite Hd1).
    destruct (IH ids objs it' row1 (i + 1) Hit') as (row' & vs & E & Hw' & Hd' & Hk' & Hcells & Hvs);
      [lia | done | done | done | lia | lia | lia |].
    exists row', (it_value_ it' :: vs). rewrite E, Hn1.
    conjs; [done | done | congruence | congruence | | by constructor].
    rewrite Hcells, (row_cells_set row row1 i (it_value_ it') Hw Hw1 Hd1) by (try done; lia).
    rewrite Z2Nat.inj_add by lia. change (Z.to_nat 1) with 1%nat. rewrite Nat.add_1_r.
    pose proof (row_cells_length row Hw).
    rewrite (take_S_r _ _ (it_value_ it')) by (apply list_lookup_insert_eq; lia).
    rewrite take_insert_ge by lia. by rewrite <- app_assoc.
Qed.

Lemma read_rowkey_encoded objs fuel cap it buf rest acc :
  iter_at it DENSE_SPARSE 0 buf (concat (map encode_value objs) ++ end_row ++ rest) ->
  Forall storable objs -> (length objs < fuel)%nat -> Z.of_nat (length acc + length objs) <= cap ->
  exists it' vs, read_rowkey fuel cap it acc = Some (OB_SUCCESS, it', acc ++ vs) /\
    iter_at it' DENSE_SPARSE 1 buf rest /\ Forall2 same_cell vs objs.
Proof.
  revert objs it acc. induction fuel as [| fuel IH]; intros objs it acc Hit Hobjs Hf Hcap; [lia |].
  cbn [read_rowkey]. destruct objs as [| o objs].
  - cbn [map concat app] in Hit.
    destruct (next_cell_end it DENSE_SPARSE 0 buf rest false Hit) as (it' & -> & Hit' & Hcid & Hfin); [done | done |].
    rewrite bind_some. change (negb (OB_SUCCESS =? OB_SUCCESS)) with false. cbn iota.
    unfold iter_get_cell_dense. destruct (iter_get_cell_at _ _ _ _ _ Hit') as [rb ->].
    rewrite Hcid, Hfin. exists it', []. rewrite app_nil_r. conjs; [done | done | constructor].
  - cbn [map concat] in Hit. rewrite <- app_assoc in Hit. apply Forall_cons in Hobjs as [Ho Hobjs].
    destruct (next_cell_value it DENSE_SPARSE 0 buf o None _ Hit) as (it' & -> & Hit' & Hv & Hcid & Hfin);
      [done | done | done | done |].
    rewrite bind_some. change (negb (OB_SUCCESS =? OB_SUCCESS)) with false. cbn iota.
    unfold iter_get_cell_dense. destruct (iter_get_cell_at _ _ _ _ _ Hit') as [rb ->].
    rewrite Hcid, Hfin. cbn [length] in Hf, Hcap.
    change (negb (OB_INVALID_ID =? default OB_INVALID_ID None)) with false. cbn iota.
    change (negb (OB_SUCCESS =? OB_SUCCESS)) with false. cbn iota.
    destruct (Z.leb_spec cap (Z.of_nat (length acc))); [lia |].
    destruct (IH objs it' (acc ++ [it_value_ it']) Hit' Hobjs) as (it2 & vs & -> & Hit2 & Hvs);
      [lia | rewrite length_app; cbn [length]; lia |].
    exists it2, (it_value_ it' :: vs). rewrite <- app_assoc. conjs; [done | done | by constructor].
Qed.

(** The bound of the loop is never reached: more iterations change nothing. *)
Lemma read_cells_fuel fuel n it row i :
  row_wf row -> 0 <= i -> row_column_num row + 2 - i <= Z.of_nat fuel -> (0 < fuel)%nat ->
  read_cells (fuel + n) it row i = read_cells fuel it row i.
Proof.
  revert it row i. induction fuel as [| fuel IH]; intros it row i Hw Hi Hf Hpos; [lia |].
  cbn [Nat.add read_cells]. destruct (next_cell it) as [[ret it'] |]; [| done]. rewrite !bind_some.
  destruct (negb (ret =? OB_SUCCESS)); [done |].
  destruct (iter_get_cell it') as [ret' [[[[c v] fin] rb] |]]; [| done]. destruct fin; [done |].
  destruct (decide (row_desc_ row = None)) as [Hd | Hd].
  { unfold raw_set_cell. by rewrite Hd. }
  destruct (decide (0 <= i < row_column_num row)) as [Hr | Hr].
  - destruct (raw_set_cell_spec row Hw i v Hr) as (row1 & -> & Hw1 & _ & Hd1 & _ & _).
    change (negb (OB_SUCCESS =? OB_SUCCESS)) with false. cbn iota.
    assert (row_column_num row1 = row_column_num row) by (unfold row_column_num; by rewrite Hd1).
    apply IH; [done | lia | lia | lia].
  - by rewrite (raw_set_cell_out row i v Hw Hd Hr).
Qed.

Lemma check_cell_count_ok row ret :
  check_cell_count row ret (row_column_num row) = Some ret.
Proof. unfold check_cell_count. by rewrite Z.eqb_refl. Qed.

Lemma row_ids_length row d :
  row_wf row -> row_desc_ row = Some d -> length (row_column_ids row) = length (row_cells row).
Proof.
  intros Hw Hd. pose proof (row_cells_length row Hw) as H1. unfold row_column_num in H1. rewrite Hd in H1.
  pose proof (columns_length d (wf_desc row Hw d Hd)) as H2. pose proof (wf_count d (wf_desc row Hw d Hd)).
  unfold row_column_ids, get_column_num in *. rewrite Hd, length_map. lia.
Qed.

Lemma row_num_nonneg row d : row_wf row -> row_desc_ row = Some d -> 0 <= row_column_num row.
Proof. intros Hw Hd. unfold row_column_num. rewrite Hd. apply (wf_count d (wf_desc row Hw d Hd)). Qed.

Lemma convert_from_encoded row d target :
  row_wf row -> row_desc_ row = Some d -> storable_row row ->
  row_wf target -> row_desc_ target <> None -> row_column_num target = row_column_num row ->
  exists target', convert_from_compact (encode_row (row_column_ids row) (row_cells row)) target
      = Some (OB_SUCCESS, target') /\
    row_wf target' /\ row_desc_ target' = row_desc_ target /\ Forall2 same_cell (row_cells target') (row_cells row).
Proof.
  intros Hw Hd [Hs Hids] Ht Htd Hn. set (bs := encode_row (row_column_ids row) (row_cells row)).
  destruct (iter_init_at bs SPARSE) as (it & Eit & Hit). unfold convert_from_compact. rewrite Eit.
  assert (Hbs : bs = concat (zip_with encode_cell (row_column_ids row) (row_cells row)) ++ end_row ++ [])
    by (by rewrite app_nil_r).
  rewrite Hbs in Hit at 2. pose proof (row_cells_length row Hw) as Hl.
  pose proof (row_num_nonneg row d Hw Hd) as Hnum.
  destruct (read_cells_encoded _ _ (read_fuel target) it SPARSE 0 bs [] target 0 Hit)
    as (target' & vs & -> & Hw' & Hd' & _ & Hcells & Hvs);
    [done | done | by apply (row_ids_length row d) | done | done | done | done | lia | unfold read_fuel; lia |].
  rewrite bind_some. replace (row_column_num target) with (row_column_num target')
    by (unfold row_column_num; by rewrite Hd').
  rewrite check_cell_count_ok, bind_some. exists target'.
  conjs; [done | done | done |]. rewrite Hcells. exact Hvs.
Qed.

(** Reading writes cells only. *)
Lemma read_cells_rowkey fuel it row i ret row' j :
  read_cells fuel it row i = Some (ret, row', j) -> rowkey_ row' = rowkey_ row /\ row_desc_ row' = row_desc_ row.
Proof.
  revert it row i. induction fuel as [| fuel IH]; intros it row i; cbn [read_cells]; [done |].
  destruct (next_cell it) as [[r it'] |]; cbn [mbind option_bind]; [| done]. destruct (negb (r =? OB_SUCCESS)); [by intros ?; simplify_eq |].
  destruct (iter_get_cell it') as [r' [[[[c v] fin] b] |]]; [| by intros ?; simplify_eq].
  destruct fin; [by intros ?; simplify_eq |]. destruct (raw_set_cell row i v) as [r'' row1] eqn:E.
  assert (H1 : rowkey_ row1 = rowkey_ row /\ row_desc_ row1 = row_desc_ row).
  { revert E. unfold raw_set_cell. destruct (row_desc_ row) eqn:Ed; [| by intros [= <- <-]].
    destruct (_ <=? _); [by intros [= <- <-] |]. destruct (raw_row_set_cell _ _ _). by intros [= <- <-]. }
  destruct (negb (r'' =? OB_SUCCESS)); [intros ?; by simplify_eq |]. intros [-> ->]%IH. done.
Qed.

Lemma convert_rowkey bytes row ret row' :
  convert_from_compact bytes row = Some (ret, row') -> rowkey_ row' = rowkey_ row /\ row_desc_ row' = row_desc_ row.
Proof.
  unfold convert_from_compact. destruct (iter_init _ _ _ _) as [r it].
  destruct (read_cells _ it row 0) as [[[r1 row1] j] |] eqn:E; cbn [mbind option_bind]; [| done].
  destruct (check_cell_count row1 r1 j); cbn [mbind option_bind]; [| done]. intros [= <- <-]. by eapply read_cells_rowkey.
Qed.

(** ** Theorems *)

(** C1: a row of storable cells written to the compact format and read into a
    row of as many columns comes back cell by cell, whatever the buffer and the
    target row held; when the buffer is too small the conversion reports
    [OB_BUF_NOT_ENOUGH]. *)
Theorem compact_row_roundtrip (row target : ObRow) (d : ObRowDesc) (buf : list Z)
    (Hrow : row_wf row) (Hd : row_desc_ row = Some d) (Hs : storable_row row)
    (Ht : row_wf target) (Htd : row_desc_ target <> None)
    (Hn : row_column_num target = row_column_num row) :
  let size := Z.of_nat (length (encode_row (row_column_ids row) (row_cells row))) in
  exists ret w, convert_to_compact row (Some buf) (Z.of_nat (length buf)) = Some (ret, w) /\
    if size <=? Z.of_nat (length buf) then
      ret = OB_SUCCESS /\ w_pos_ w = size /\
      exists buf' target', w_buf_ w = Some buf' /\
        convert_from_compact (take (Z.to_nat (w_pos_ w)) buf') target = Some (OB_SUCCESS, target') /\
        row_wf target' /\ row_desc_ target' = row_desc_ target /\
        Forall2 same_cell (row_cells target') (row_cells row)
    else ret = OB_BUF_NOT_ENOUGH.
Proof.
  intros size. unfold convert_to_compact. cbn [writer_assign].
  destruct (writes_row row d Hrow Hd Hs (mkWriter (Some buf) 0 (Z.of_nat (length buf))) buf)
    as (ret & w & buf' & E & Hw' & Hlen & R); [split; cbn; [done | done | lia] |].
  exists ret, w. split; [exact E |]. fold size in R. cbn [w_pos_] in R. rewrite Z.add_0_l in R.
  destruct (Z.leb_spec size (Z.of_nat (length buf))); [| done].
  destruct R as (-> & Hp & Hwr). split; [done |]. split; [done |].
  destruct (convert_from_encoded row d target Hrow Hd Hs Ht Htd Hn) as (target' & Et & H').
  exists buf', target'. split; [apply Hw' |]. split; [| done].
  unfold written in Hwr; cbn in Hwr. by rewrite Hwr.
Qed.

(** A row of two columns, an int increment and a string. *)
Definition example_row : ObRow :=
  let r := row_of_desc (rowdesc_of [mkDesc 1 16; mkDesc 1 17]) in
  let r := (raw_set_cell r 0 (set_int ObObj_new (-300) true)).2 in
  (raw_set_cell r 1 (set_varchar ObObj_new [104; 105])).2.

Lemma example_row_wf : row_wf example_row.
Proof.
  pose proof (row_of_desc_wf _ two_columns_wf) as H0.
  destruct (raw_set_cell_spec _ H0 0 (set_int ObObj_new (-300) true)) as (r1 & E1 & H1 & _ & D1 & _);
    [vm_compute; split; congruence |].
  destruct (raw_set_cell_spec r1 H1 1 (set_varchar ObObj_new [104; 105])) as (r2 & E2 & H2 & _).
  { unfold row_column_num. rewrite D1. vm_compute. split; congruence. }
  unfold example_row. rewrite E1. cbn [snd]. rewrite E2. exact H2.
Qed.

Lemma example_row_desc : row_desc_ example_row = Some (rowdesc_of [mkDesc 1 16; mkDesc 1 17]).
Proof. vm_compute. reflexivity. Qed.

Lemma example_row_storable : storable_row example_row.
Proof.
  assert (E : row_cells example_row = [set_int ObObj_new (-300) true; set_varchar ObObj_new [104; 105]])
    by (vm_compute; reflexivity).
  assert (E' : row_column_ids example_row = [16; 17]) by (vm_compute; reflexivity).
  split; [rewrite E | rewrite E'].
  - constructor; [| constructor; [| done]].
    + split; [split; vm_compute; congruence |]. right. reflexivity.
    + split; [vm_compute; congruence | done].
  - constructor; [| constructor; [| done]]; (split; [split; vm_compute; congruence | done]).
Qed.

Lemma compact_row_roundtrip_witness :
  exists w, convert_to_compact example_row (Some (replicate 32 0)) 32 = Some (OB_SUCCESS, w) /\ w_pos_ w = 19.
Proof.
  destruct (compact_row_roundtrip example_row example_row _ (replicate 32 0) example_row_wf example_row_desc
    example_row_storable example_row_wf ltac:(by rewrite example_row_desc) eq_refl) as (ret & w & E & R).
  replace (encode_row (row_column_ids example_row) (row_cells example_row))
    with ([34; 212; 254; 16; 0; 0; 0; 6; 2; 0; 0; 0; 104; 105; 17; 0; 0; 0; 31] : list Z) in R
    by (vm_compute; reflexivity).
  destruct R as (-> & Hp & _). exists w. split; [exact E | exact Hp].
Defined.

(** ** Rows with a rowkey in front *)

Lemma writes_objs objs :
  Forall storable objs -> writes (append_objs DENSE_SPARSE objs) (concat (map encode_value objs)).
Proof.
  induction objs as [| o objs IH]; intros Hs; [apply writes_finish |].
  apply Forall_cons in Hs as [Ho Hs]. cbn [append_objs map concat].
  apply writes_andthen; [by apply writes_append_dense | by apply IH].
Qed.

Lemma writes_rowvalue_cells k row d i :
  row_wf row -> row_desc_ row = Some d -> storable_row row ->
  (i + k = length (row_cells row))%nat ->
  writes (append_rowvalue_loop k DENSE_SPARSE row (Z.of_nat i))
    (concat (zip_with encode_cell (drop i (row_column_ids row)) (drop i (row_cells row)))).
Proof.
  intros Hw Hd [Hs Hids]. revert i. induction k as [| k IH]; intros i Hi.
  - rewrite (drop_ge (row_cells row)) by lia. rewrite zip_with_nil_r. apply writes_finish.
  - destruct (lookup_lt_is_Some_2 (row_cells row) i) as [o Ho]; [lia |].
    destruct (lookup_lt_is_Some_2 (row_column_ids row) i) as [c Hid];
      [rewrite (row_ids_length row d Hw Hd); lia |].
    pose proof Hid as Hk. unfold row_column_ids in Hk. rewrite Hd in Hk.
    change (map column_id_ (columns d)) with (column_id_ <$> columns d) in Hk.
    apply list_lookup_fmap_Some in Hk as (k' & Hck & Hk).
    cbn [append_rowvalue_loop]. rewrite (raw_get_cell_ids_spec row d i o k') by done. rewrite <- Hck.
    rewrite (drop_S _ _ _ Ho), (drop_S _ _ _ Hid). cbn [zip_with concat].
    apply writes_andthen.
    + apply writes_append; [by eapply Forall_lookup_1 | by eapply Forall_lookup_1].
    + replace (Z.of_nat i + 1) with (Z.of_nat (S i)) by lia. apply IH. lia.
Qed.

Lemma writes_rowkey_row rowkey row d :
  Forall storable rowkey -> row_wf row -> row_desc_ row = Some d -> storable_row row -> row_column_num row <> 0 ->
  writes (append_rowkey_row DENSE_SPARSE rowkey row)
    (encode_rowkey rowkey ++ encode_row (row_column_ids row) (row_cells row)).
Proof.
  intros Hk Hw Hd Hs Hn. apply writes_andthen.
  - apply writes_andthen; [by apply writes_objs | apply writes_end_row].
  - unfold append_rowvalue. destruct (Z.eqb_spec (row_column_num row) 0); [done |].
    apply writes_andthen; [| apply writes_end_row].
    apply (writes_rowvalue_cells _ row d 0); [done | done | done |].
    pose proof (row_cells_length row Hw). lia.
Qed.

(** C25: the same with a rowkey in front: [append_row(rowkey, row)] in the
    two-part format, with room in the buffer, read by [convert] with a rowkey buffer of [cap] cells, gives
    back the cells of the rowkey and of the row. *)
Theorem rowkey_row_roundtrip (rowkey : list ObObj) (row target : ObRow) (d : ObRowDesc) (cap : Z) (buf : list Z)
    (Hkey : Forall storable rowkey) (Hcap : Z.of_nat (length rowkey) <= cap)
    (Hrow : row_wf row) (Hd : row_desc_ row = Some d) (Hs : storable_row row) (Hcols : row_column_num row <> 0)
    (Ht : row_wf target) (Htd : row_desc_ target <> None)
    (Hn : row_column_num target = row_column_num row)
    (Hroom : Z.of_nat (length (encode_rowkey rowkey ++ encode_row (row_column_ids row) (row_cells row)))
             <= Z.of_nat (length buf)) :
  exists w buf' target' key',
    append_rowkey_row DENSE_SPARSE rowkey row (mkWriter (Some buf) 0 (Z.of_nat (length buf)))
      = Some (OB_SUCCESS, w) /\
    w_buf_ w = Some buf' /\
    convert_with_rowkey cap (take (Z.to_nat (w_pos_ w)) buf') target = Some (OB_SUCCESS, target', Some key') /\
    row_wf target' /\ Forall2 same_cell (row_cells target') (row_cells row) /\ Forall2 same_cell key' rowkey.
Proof.
  destruct (writes_rowkey_row rowkey row d Hkey Hrow Hd Hs Hcols
              (mkWriter (Some buf) 0 (Z.of_nat (length buf))) buf)
    as (ret & w & buf' & E & Hw' & Hlen & R); [split; cbn; [done | done | lia] |].
  cbn [w_pos_] in R. rewrite Z.add_0_l, (proj2 (Z.leb_le _ _) Hroom) in R. destruct R as (-> & Hp & Hwr).
  unfold written in Hwr; cbn in Hwr. exists w, buf'. rewrite Hwr.
  set (bs := encode_rowkey rowkey ++ encode_row (row_column_ids row) (row_cells row)) in *.
  cut (exists target' key', convert_with_rowkey cap bs target = Some (OB_SUCCESS, target', Some key') /\
    row_wf target' /\ Forall2 same_cell (row_cells target') (row_cells row) /\ Forall2 same_cell key' rowkey).
  { intros (target' & key' & H). exists target', key'. split; [exact E |]. split; [apply Hw' | exact H]. }
  destruct (iter_init_at bs DENSE_SPARSE) as (it & Eit & Hit). unfold convert_with_rowkey. rewrite Eit.
  assert (Hbs : bs = concat (map encode_value rowkey) ++ end_row ++
    concat (zip_with encode_cell (row_column_ids row) (row_cells row)) ++ end_row ++ []).
  { unfold bs, encode_rowkey, encode_row. by rewrite app_nil_r, <- app_assoc. }
  rewrite Hbs in Hit at 2.
  destruct (read_rowkey_encoded rowkey (Z.to_nat (cap + 1)) cap it bs _ [] Hit Hkey)
    as (it2 & key' & -> & Hit2 & Hkv); [lia | cbn; lia |].
  rewrite bind_some. change (OB_SUCCESS =? OB_SUCCESS) with true. cbn iota.
  destruct Hs as [Hs Hids]. pose proof (row_cells_length row Hrow) as Hl.
  pose proof (row_num_nonneg row d Hrow Hd) as Hnum.
  destruct (read_cells_encoded _ _ (read_fuel target) it2 DENSE_SPARSE 1 bs [] target 0 Hit2)
    as (target' & vs & -> & Htw & Htd' & _ & Hcells & Hvs);
    [done | done | by apply (row_ids_length row d) | done | done | done | done | lia | unfold read_fuel; lia |].
  rewrite bind_some. replace (row_column_num target) with (row_column_num target')
    by (unfold row_column_num; by rewrite Htd').
  rewrite check_cell_count_ok, bind_some.
  exists target', key'. conjs; [done | done | by rewrite Hcells | done].
Qed.

Lemma rowkey_row_roundtrip_witness :
  exists w buf' target' key',
    append_rowkey_row DENSE_SPARSE [set_int ObObj_new 5 false] example_row (mkWriter (Some (replicate 32 0)) 0 32)
      = Some (OB_SUCCESS, w) /\
    w_buf_ w = Some buf' /\
    convert_with_rowkey 16 (take (Z.to_nat (w_pos_ w)) buf') example_row = Some (OB_SUCCESS, target', Some key') /\
    row_wf target' /\ Forall2 same_cell (row_cells target') (row_cells example_row) /\
    Forall2 same_cell key' [set_int ObObj_new 5 false].
Proof.
  apply (rowkey_row_roundtrip [set_int ObObj_new 5 false] example_row example_row _ 16 (replicate 32 0)
    ltac:(repeat constructor; vm_compute; congruence) ltac:(by vm_compute) example_row_wf example_row_desc
    example_row_storable ltac:(by vm_compute) example_row_wf ltac:(by rewrite example_row_desc) eq_refl).
  vm_compute. congruence.
Defined.
