(* ===== verification/ObRowStore.v ===== *)
(** * The row store

    [src/oceanbase/src/common/ob_row_store.{h,cpp}]: rows in the compact format,
    appended to a chain of memory blocks, read back in order by an iterator; the
    last row can be taken back and the blocks used again.

    A block is its size, the position up to which it is filled and the rows
    stored there; the chain is cut at [block_list_head_], the block rows are
    added to, into the blocks before it (from [block_list_tail_] on), the head
    and the blocks after it, which are only there after a [reuse].  Both ends
    are NULL together, the chain is then [None].  A pointer to a block is its
    index in the chain; bytes beyond the filled part are never read.

    The rows are plain [ObRow]s (the [dynamic_cast] to [ObUpsRow] gives NULL). *)

From S2P Require Import Prelude ObObject ObRowDesc ObRow ObBuffer ObCompactCell ObRowUtil.
Local Open Scope Z_scope.

(** ** Blocks *)

(** [reserved_cells_] is not written before the row's cells are; [compact_row] is
    [None] when the writing of the row failed half way, its size is then
    whatever the memory held. *)
Record StoredRow := mkStored {
  reserved_cells_ : list (option ObObj);
  compact_row : option (list Z)
}.

Record BlockInfo := mkBlock {
  block_size_ : Z;
  curr_data_pos_ : Z;
  data_ : list StoredRow
}.

(** [sizeof(BlockInfo)], [sizeof(StoredRow)], [sizeof(ObObj)]; [sizeof(Block)] of
    the allocator is 560. *)
Definition SIZEOF_BLOCK_INFO : Z := 32.
Definition SIZEOF_STORED_ROW : Z := 8.
Definition SIZEOF_OBJ : Z := 16.
Definition NORMAL_BLOCK_SIZE : Z := 65 * 1024 - 64.
Definition BIG_BLOCK_SIZE : Z := 2 ^ 21 + 2 ^ 10 - 560.

Definition get_reserved_cells_size (reserved_columns_count : Z) : Z :=
  SIZEOF_STORED_ROW + SIZEOF_OBJ * reserved_columns_count.

Definition get_compact_row_min_size (row_columns_count : Z) : Z := 4 * row_columns_count + 8.

Definition get_remain_size (b : BlockInfo) : Z := block_size_ b - curr_data_pos_ b - SIZEOF_BLOCK_INFO.

Definition is_fresh_block (b : BlockInfo) : bool := curr_data_pos_ b =? 0.

(** The bytes of a stored row, as the iterator steps over them. *)
Definition stored_size (r : StoredRow) : Z :=
  get_reserved_cells_size (Z.of_nat (length (reserved_cells_ r))) + Z.of_nat (length (default [] (compact_row r))).

Definition data_size (rows : list StoredRow) : Z := foldr (fun r n => stored_size r + n) 0 rows.

(** The rows that start before [pos]. *)
Fixpoint data_before (pos : Z) (rows : list StoredRow) : list StoredRow :=
  match rows with
  | [] => []
  | r :: rows' => if 0 <? pos then r :: data_before (pos - stored_size r) rows' else []
  end.

(** The row that starts at [pos]. *)
Fixpoint stored_at (pos : Z) (rows : list StoredRow) : option StoredRow :=
  match rows with
  | [] => None
  | r :: rows' =>
      if pos =? 0 then Some r else if pos <? 0 then None else stored_at (pos - stored_size r) rows'
  end.

Definition set_curr_data_pos (b : BlockInfo) (pos : Z) : BlockInfo :=
  mkBlock (block_size_ b) pos (data_before pos (data_ b)).

(** ** The store *)

Record ObRowStore := mkStore {
  reserved_columns_ : list (Z * Z);
  block_list : option (list BlockInfo * BlockInfo * list BlockInfo);
  block_count_ : Z;
  cur_size_counter_ : Z;
  rollback_iter_pos_ : Z;
  rollback_block_list_ : option nat;
  store_block_size_ : Z;
  is_read_only_ : bool;
  cur_iter_block_ : option nat;
  cur_iter_pos_ : Z;
  got_first_next_ : bool
}.

Definition ObRowStore_new : ObRowStore :=
  mkStore [] None 0 0 (-1) None NORMAL_BLOCK_SIZE false None 0 false.

(** The chain from [block_list_tail_] on. *)
Definition all_blocks (s : ObRowStore) : list BlockInfo :=
  match block_list s with None => [] | Some (used, h, spare) => used ++ h :: spare end.

Definition with_blocks (s : ObRowStore) (bl : option (list BlockInfo * BlockInfo * list BlockInfo)) (count : Z)
    : ObRowStore :=
  mkStore (reserved_columns_ s) bl count (cur_size_counter_ s) (rollback_iter_pos_ s) (rollback_block_list_ s)
    (store_block_size_ s) (is_read_only_ s) (cur_iter_block_ s) (cur_iter_pos_ s) (got_first_next_ s).

Definition with_rollback (s : ObRowStore) (pos : Z) (block : option nat) : ObRowStore :=
  mkStore (reserved_columns_ s) (block_list s) (block_count_ s) (cur_size_counter_ s) pos block
    (store_block_size_ s) (is_read_only_ s) (cur_iter_block_ s) (cur_iter_pos_ s) (got_first_next_ s).

Definition with_iter (s : ObRowStore) (block : option nat) (pos : Z) (got : bool) : ObRowStore :=
  mkStore (reserved_columns_ s) (block_list s) (block_count_ s) (cur_size_counter_ s) (rollback_iter_pos_ s)
    (rollback_block_list_ s) (store_block_size_ s) (is_read_only_ s) block pos got.

Definition with_size (s : ObRowStore) (size : Z) : ObRowStore :=
  mkStore (reserved_columns_ s) (block_list s) (block_count_ s) size (rollback_iter_pos_ s)
    (rollback_block_list_ s) (store_block_size_ s) (is_read_only_ s) (cur_iter_block_ s) (cur_iter_pos_ s)
    (got_first_next_ s).

Definition with_reserved (s : ObRowStore) (columns : list (Z * Z)) : ObRowStore :=
  mkStore columns (block_list s) (block_count_ s) (cur_size_counter_ s) (rollback_iter_pos_ s)
    (rollback_block_list_ s) (store_block_size_ s) (is_read_only_ s) (cur_iter_block_ s) (cur_iter_pos_ s)
    (got_first_next_ s).

Definition set_block_size (s : ObRowStore) (block_size : Z) : ObRowStore :=
  mkStore (reserved_columns_ s) (block_list s) (block_count_ s) (cur_size_counter_ s) (rollback_iter_pos_ s)
    (rollback_block_list_ s) block_size (is_read_only_ s) (cur_iter_block_ s) (cur_iter_pos_ s)
    (got_first_next_ s).

(** The first block, as an index. *)
Definition tail_index (s : ObRowStore) : option nat :=
  match block_list s with None => None | Some _ => Some 0%nat end.

Definition reset_iterator (s : ObRowStore) : ObRowStore := with_iter s (tail_index s) 0 false.

Definition add_reserved_column (s : ObRowStore) (tid cid : Z) : Z * ObRowStore :=
  (OB_SUCCESS, with_reserved s (reserved_columns_ s ++ [(tid, cid)])).

Definition clear_rows (s : ObRowStore) : ObRowStore :=
  reset_iterator (with_rollback (with_size (with_blocks s None 0) 0) (-1) None).

Definition clear (s : ObRowStore) : ObRowStore := with_reserved (clear_rows s) [].

Definition reuse (s : ObRowStore) : ObRowStore :=
  let bl := match all_blocks s with
            | [] => None
            | b :: bs => Some ([], set_curr_data_pos b 0, map (fun b => set_curr_data_pos b 0) bs)
            end in
  with_reserved
    (reset_iterator (with_rollback (with_size (with_blocks s bl (block_count_ s)) 0) (-1) None)) [].

(** With a positive count and no block the code dereferences NULL. *)
Definition is_empty (s : ObRowStore) : option bool :=
  if block_count_ s =? 0 then Some true
  else match all_blocks s with [] => None | b :: _ => Some (curr_data_pos_ b =? 0) end.

Definition get_used_mem_size (s : ObRowStore) : Z :=
  match block_list s with
  | None => 0
  | Some (used, h, _) => foldr (fun b n => block_size_ b + n) 0 (used ++ [h])
  end.

(** The size counter is not taken back.  A block that has been freed is
    dereferenced. *)
Definition rollback_last_row (s : ObRowStore) : option (Z * ObRowStore) :=
  if rollback_iter_pos_ s <? 0 then Some (OB_NOT_SUPPORTED, s)
  else
    k ← rollback_block_list_ s ;
    b ← all_blocks s !! k ;
    let bl := Some (take k (all_blocks s), set_curr_data_pos b (rollback_iter_pos_ s), drop (S k) (all_blocks s)) in
    Some (OB_SUCCESS, with_rollback (with_blocks s bl (block_count_ s)) (-1) (rollback_block_list_ s)).

(** ** Adding a row *)

(** One cell: the writer and the clone, which an escape leaves as it was. *)
Definition append_stored_cell (st : ObCompactStoreType) (column_id : Z) (cell clone : ObObj) (w : ObBufferWriter)
    : option (Z * ObBufferWriter * ObObj) :=
  if type_eqb (type_ cell) ObExtendType then
    '(ret, w) ←
      (if int_val cell =? OP_VALID then append_escape ES_VALID
       else if int_val cell =? OP_ROW_DOES_NOT_EXIST then append_escape ES_NOT_EXIST_ROW
       else finish OB_NOT_SUPPORTED) w ;
    Some (ret, w, clone)
  else
    '(ret, w) ← append st column_id cell w ;
    Some (ret, w, if ret =? OB_SUCCESS then clone_of cell else clone).

(** The clone goes to the first reserved column of these ids. *)
Fixpoint reserve_cell (columns : list (Z * Z)) (ids : Z * Z) (clone : ObObj) (cells : list (option ObObj))
    : list (option ObObj) :=
  match columns, cells with
  | c :: columns', x :: cells' =>
      if (c.1 =? ids.1) && (c.2 =? ids.2) then Some clone :: cells'
      else x :: reserve_cell columns' ids clone cells'
  | _, _ => cells
  end.

Fixpoint append_stored_cells (k : nat) (columns : list (Z * Z)) (st : ObCompactStoreType) (row : ObRow) (i : Z)
    (clone : ObObj) (cells : list (option ObObj)) (w : ObBufferWriter)
    : option (Z * ObBufferWriter * list (option ObObj)) :=
  match k with
  | O => Some (OB_SUCCESS, w, cells)
  | S k' =>
      match raw_get_cell_ids row i with
      | (ret, None) => Some (ret, w, cells)
      | (_, Some (cell, (table_id, column_id))) =>
          '(ret, w, clone) ← append_stored_cell st column_id cell clone w ;
          if negb (ret =? OB_SUCCESS) then Some (ret, w, cells)
          else append_stored_cells k' columns st row (i + 1) clone
                 (reserve_cell columns (table_id, column_id) clone cells) w
      end
  end.

(** [append_row] into a block that is filled up to the end of the row's header:
    the code, the compact row and the reserved cells. *)
Definition store_append_row (columns : list (Z * Z)) (rowkey : option (list ObObj)) (row : ObRow) (b : BlockInfo)
    : option (Z * option (list Z) * list (option ObObj)) :=
  let st := match rowkey with None => SPARSE | Some _ => DENSE_SPARSE end in
  let cells := replicate (length columns) None in
  let '(_, w) := writer_assign (mkWriter None 0 INVALID_BUF_SIZE)
                   (Some (replicate (Z.to_nat (get_remain_size b)) 0)) (get_remain_size b) in
  '(ret, w) ← match rowkey with None => finish OB_SUCCESS w | Some key => append_rowkey st key w end ;
  if negb (ret =? OB_SUCCESS) then Some (ret, None, cells)
  else
    '(ret, w, cells) ← append_stored_cells (Z.to_nat (row_column_num row)) columns st row 0 ObObj_new cells w ;
    if negb (ret =? OB_SUCCESS) then Some (ret, None, cells)
    else
      '(ret, w) ← row_finish w ;
      if negb (ret =? OB_SUCCESS) then Some (ret, None, cells)
      else Some (OB_SUCCESS, take (Z.to_nat (w_pos_ w)) <$> w_buf_ w, cells).

Section Add.
(** Whether [ob_tc_malloc] gives a block of this size. *)
Context (malloc : Z -> bool).

(** The index of a block behind one that is inserted at [k]. *)
Definition shift_index (k : nat) (j : option nat) : option nat :=
  (fun j => if (k <=? j)%nat then S j else j) <$> j.

Definition new_block (block_size : Z) (s : ObRowStore) : Z * ObRowStore :=
  match block_list s with
  | Some (used, h, nb :: spare) =>
      if block_size <=? block_size_ nb then
        (OB_SUCCESS, with_blocks s (Some (used ++ [h], set_curr_data_pos nb 0, spare)) (block_count_ s))
      else if malloc block_size then
        let s' := with_blocks s (Some (used ++ [h], mkBlock block_size 0 [], nb :: spare)) (block_count_ s + 1) in
        (OB_SUCCESS, with_iter s' (shift_index (S (length used)) (cur_iter_block_ s)) (cur_iter_pos_ s)
                       (got_first_next_ s))
      else (OB_ALLOCATE_MEMORY_FAILED, s)
  | Some (used, h, []) =>
      if malloc block_size then
        (OB_SUCCESS, with_blocks s (Some (used ++ [h], mkBlock block_size 0 [], [])) (block_count_ s + 1))
      else (OB_ALLOCATE_MEMORY_FAILED, s)
  | None =>
      if malloc block_size then
        (OB_SUCCESS, with_blocks s (Some ([], mkBlock block_size 0 [], [])) (block_count_ s + 1))
      else (OB_ALLOCATE_MEMORY_FAILED, s)
  end.

(** The head does not hold the row: a fresh one is freed, with everything behind
    it dropped from the chain, and a big block takes its place; behind another
    comes a new block. *)
Definition make_room (used : list BlockInfo) (h : BlockInfo) (s : ObRowStore) : Z * ObRowStore :=
  if is_fresh_block h then
    let bl := match last used with None => None | Some b => Some (take (length used - 1) used, b, []) end in
    new_block BIG_BLOCK_SIZE (with_blocks s bl (block_count_ s - 1))
  else new_block NORMAL_BLOCK_SIZE s.

(** The loop of [add_row], [n] attempts left.  On an error other than a full
    block the header of the row stays behind. *)
Fixpoint add_row_loop (n : nat) (rowkey : option (list ObObj)) (row : ObRow) (s : ObRowStore)
    : option (Z * option StoredRow * ObRowStore) :=
  match n with
  | O => Some (OB_ERR_UNEXPECTED, None, s)
  | S n' =>
      '(used, h, spare) ← block_list s ;
      let s := with_rollback s (curr_data_pos_ h) (Some (length used)) in
      let header := get_reserved_cells_size (Z.of_nat (length (reserved_columns_ s))) in
      let h1 := mkBlock (block_size_ h) (curr_data_pos_ h + header) (data_ h) in
      '(ret, bytes, cells) ← store_append_row (reserved_columns_ s) rowkey row h1 ;
      let stored := mkStored cells bytes in
      let size := Z.of_nat (length (default [] bytes)) in
      let data := data_before (curr_data_pos_ h) (data_ h) ++ [stored] in
      let h2 := mkBlock (block_size_ h) (curr_data_pos_ h1 + size) data in
      let s' := with_blocks s (Some (used, h2, spare)) (block_count_ s) in
      if ret =? OB_SUCCESS then
        Some (OB_SUCCESS, Some stored, with_size s' (cur_size_counter_ s + size + header))
      else if ret =? OB_BUF_NOT_ENOUGH then
        let '(ret, s) := make_room used h s in
        if (ret =? OB_SUCCESS) || (n' =? 0)%nat then add_row_loop n' rowkey row s else Some (ret, None, s)
      else Some (ret, None, s')
  end.

Definition store_add_row (rowkey : option (list ObObj)) (row : ObRow) (s : ObRowStore)
    : option (Z * option StoredRow * ObRowStore) :=
  if is_read_only_ s then Some (OB_NOT_SUPPORTED, None, s)
  else
    let least := get_compact_row_min_size (row_column_num row) +
                 get_reserved_cells_size (Z.of_nat (length (reserved_columns_ s))) in
    let full := match block_list s with None => true | Some (_, h, _) => get_remain_size h <=? least end in
    let '(ret, s) := if full then new_block (store_block_size_ s) s else (OB_SUCCESS, s) in
    if ret =? OB_SUCCESS then add_row_loop 3 rowkey row s else Some (ret, None, s).
End Add.

(** ** Reading *)

(** [next_iter_pos] over the chain from the block [j] on. *)
Fixpoint next_iter_pos (bs : list BlockInfo) (j : nat) (pos : Z) : option (nat * BlockInfo * Z) :=
  match bs with
  | [] => None
  | b :: bs' => if curr_data_pos_ b - pos <=? 0 then next_iter_pos bs' (S j) 0 else Some (j, b, pos)
  end.

(** The next compact row, [None] at the end, with the iterator moved on. *)
Definition next_stored (s : ObRowStore) : option (option (list Z) * ObRowStore) :=
  let s := if got_first_next_ s then s else with_iter s (tail_index s) 0 true in
  match cur_iter_block_ s with
  | None => Some (None, s)
  | Some j =>
      match next_iter_pos (drop j (all_blocks s)) j (cur_iter_pos_ s) with
      | None => Some (None, with_iter s None 0 true)
      | Some (j, b, pos) =>
          r ← stored_at pos (data_ b) ;
          bytes ← compact_row r ;
          Some (Some bytes, with_iter s (Some j) (pos + stored_size r) true)
      end
  end.

Definition store_get_next_row (s : ObRowStore) (row : ObRow) : option (Z * ObRow * ObRowStore) :=
  '(bytes, s) ← next_stored s ;
  match bytes with
  | None => Some (OB_ITER_END, row, s)
  | Some bs => '(ret, row) ← convert_from_compact bs row ; Some (ret, row, s)
  end.

(** The same with a rowkey in front of the row. *)
Definition store_get_next_row_rowkey (s : ObRowStore) (row : ObRow)
    : option (Z * option (list ObObj) * ObRow * ObRowStore) :=
  '(bytes, s) ← next_stored s ;
  match bytes with
  | None => Some (OB_ITER_END, None, row, s)
  | Some bs =>
      '(ret, row, key) ← convert_with_rowkey OB_MAX_ROWKEY_COLUMN_NUMBER bs row ; Some (ret, key, row, s)
  end.

(** ** What the store holds *)

Definition fresh (b : BlockInfo) : Prop := curr_data_pos_ b = 0.

Record block_ok (b : BlockInfo) : Prop := {
  bo_pos : curr_data_pos_ b = data_size (data_ b);
  bo_size : NORMAL_BLOCK_SIZE <= block_size_ b <= BIG_BLOCK_SIZE;
  bo_room : 0 <= get_remain_size b
}.

(** The chain holds the compact rows [rows]: every block before the head has
    some, those after it have none. *)
Record chain_ok (used : list BlockInfo) (h : BlockInfo) (spare : list BlockInfo) (rows : list (list Z)) : Prop := {
  co_blocks : Forall block_ok (used ++ h :: spare);
  co_used : Forall (fun b => ~ fresh b) used;
  co_spare : Forall fresh spare;
  co_rows : map compact_row (concat (map data_ used) ++ data_ h) = map Some rows
}.

(** The store holds [rows], whatever its iterator. *)
Record store_ok (s : ObRowStore) (rows : list (list Z)) : Prop := {
  so_chain : match block_list s with
             | None => rows = [] /\ block_count_ s = 0
             | Some (used, h, spare) => chain_ok used h spare rows /\ 0 < block_count_ s
             end;
  so_block_size : NORMAL_BLOCK_SIZE <= store_block_size_ s <= BIG_BLOCK_SIZE;
  so_writable : is_read_only_ s = false;
  so_reserved : SIZEOF_OBJ * Z.of_nat (length (reserved_columns_ s)) <= 32 * 1024
}.

(** The iterator stands before the row [k]; [None] when it has seen the end. *)
Definition cursor_at (s : ObRowStore) (k : option nat) : Prop :=
  match k with
  | None => got_first_next_ s = true /\ cur_iter_block_ s = None
  | Some k =>
      (got_first_next_ s = false /\ k = 0%nat) \/
      (got_first_next_ s = true /\ exists bs1 b bs2 l1 l2,
         all_blocks s = bs1 ++ b :: bs2 /\ data_ b = l1 ++ l2 /\
         l1 <> [] /\ cur_iter_block_ s = Some (length bs1) /\ cur_iter_pos_ s = data_size l1 /\
         k = (length (concat (map data_ bs1)) + length l1)%nat)
  end.

Lemma stored_size_pos r : 0 < stored_size r.
Proof. unfold stored_size, get_reserved_cells_size, SIZEOF_STORED_ROW, SIZEOF_OBJ. lia. Qed.

Lemma data_size_nil : data_size [] = 0.
Proof. done. Qed.

Lemma data_size_cons r l : data_size (r :: l) = stored_size r + data_size l.
Proof. done. Qed.

Arguments data_size : simpl never.
Arguments stored_size : simpl never.

Lemma data_size_nonneg l : 0 <= data_size l.
Proof.
  induction l as [| r l IH]; [done |]. rewrite data_size_cons. pose proof (stored_size_pos r). lia.
Qed.

Lemma data_size_pos r l : 0 < data_size (r :: l).
Proof. rewrite data_size_cons. pose proof (stored_size_pos r). pose proof (data_size_nonneg l). lia. Qed.

Lemma data_size_app l1 l2 : data_size (l1 ++ l2) = data_size l1 + data_size l2.
Proof. induction l1 as [| r l1 IH]; [done |]. cbn [app]. rewrite !data_size_cons, IH. lia. Qed.

Lemma data_size_zero l : data_size l = 0 <-> l = [].
Proof. split; [| by intros ->]. destruct l as [| r l]; [done |]. pose proof (data_size_pos r l). lia. Qed.

Lemma stored_at_app l1 r l2 : stored_at (data_size l1) (l1 ++ r :: l2) = Some r.
Proof.
  induction l1 as [| x l1 IH]; [done |]. cbn [stored_at app]. rewrite data_size_cons.
  pose proof (stored_size_pos x). pose proof (data_size_nonneg l1).
  destruct (Z.eqb_spec (stored_size x + data_size l1) 0); [lia |].
  destruct (Z.ltb_spec (stored_size x + data_size l1) 0); [lia |].
  by replace (stored_size x + data_size l1 - stored_size x) with (data_size l1) by lia.
Qed.

Lemma data_before_app l1 l2 : data_before (data_size l1) (l1 ++ l2) = l1.
Proof.
  induction l1 as [| x l1 IH]; [by destruct l2 |]. cbn [data_before app]. rewrite data_size_cons.
  pose proof (stored_size_pos x). pose proof (data_size_nonneg l1).
  destruct (Z.ltb_spec 0 (stored_size x + data_size l1)); [| lia].
  replace (stored_size x + data_size l1 - stored_size x) with (data_size l1) by lia. by rewrite IH.
Qed.

Lemma data_before_all l : data_before (data_size l) l = l.
Proof. rewrite <- (app_nil_r l) at 2. by rewrite data_before_app. Qed.

Lemma fresh_data b : block_ok b -> fresh b <-> data_ b = [].
Proof. intros [Hp _ _]. unfold fresh. rewrite Hp. apply data_size_zero. Qed.

Lemma fresh_blocks_data bs : Forall block_ok bs -> Forall fresh bs -> concat (map data_ bs) = [].
Proof.
  induction bs as [| b bs IH]; [done |]. intros [Hb Hbs]%Forall_cons [Hf Hfs]%Forall_cons. cbn.
  by rewrite (proj1 (fresh_data b Hb) Hf), IH.
Qed.

Lemma store_content s rows :
  store_ok s rows -> Forall block_ok (all_blocks s) /\ map compact_row (concat (map data_ (all_blocks s))) = map Some rows.
Proof.
  intros [Hc _ _ _]. unfold all_blocks. destruct (block_list s) as [[[used h] spare] |]; [| by destruct Hc as [-> _]].
  destruct Hc as [[Hb _ Hs Hr] _]. split; [done |].
  rewrite map_app, concat_app. cbn [map concat]. rewrite (fresh_blocks_data spare), app_nil_r; [done | | done].
  apply Forall_app in Hb as [_ Hb]. by apply Forall_cons in Hb as [_ Hb].
Qed.

(** ** Reading the rows back *)

Lemma next_iter_pos_spec bs b j l1 l2 :
  Forall block_ok (b :: bs) -> data_ b = l1 ++ l2 ->
  match l2 ++ concat (map data_ bs) with
  | [] => next_iter_pos (b :: bs) j (data_size l1) = None
  | r :: _ => exists bs1 b' bs2 m1 m2,
      b :: bs = bs1 ++ b' :: bs2 /\ data_ b' = m1 ++ r :: m2 /\
      next_iter_pos (b :: bs) j (data_size l1) = Some ((j + length bs1)%nat, b', data_size m1) /\
      (length (concat (map data_ bs1)) + length m1 = length l1)%nat
  end.
Proof.
  revert b j l1 l2. induction bs as [| b2 bs IH]; intros b j l1 l2 [Hb Hbs]%Forall_cons Hd;
    cbn [next_iter_pos]; rewrite (bo_pos b Hb), Hd, data_size_app;
    (destruct l2 as [| r l2];
     [ rewrite data_size_nil, Z.add_0_r, Z.sub_diag; cbn [Z.leb]
     | pose proof (data_size_pos r l2);
       destruct (Z.leb_spec (data_size l1 + data_size (r :: l2) - data_size l1) 0); [lia |];
       eexists [], b, _, l1, l2; cbn [length map concat app]; rewrite Nat.add_0_r; done ]).
  - done.
  - cbn [app map concat]. change (0 <=? 0) with true. cbn iota.
    specialize (IH b2 (S j) [] (data_ b2) Hbs eq_refl).
    destruct (data_ b2 ++ concat (map data_ bs)) as [| r rest] eqn:E; [exact IH |].
    destruct IH as (bs1 & b' & bs3 & m1 & m2 & Eb & Hd' & En & Hl).
    exists (b :: bs1), b', bs3, m1, m2. rewrite app_nil_r in Hd.
    conjs; [by rewrite Eb | done | cbn [length]; rewrite Nat.add_succ_r; exact En |].
    cbn [map concat]. rewrite length_app, Hd. cbn [length] in Hl. lia.
Qed.

Lemma store_ok_iter s rows j pos got : store_ok s rows -> store_ok (with_iter s j pos got) rows.
Proof. intros [Hc Hb Hw Hr]. by split. Qed.

Lemma map_some_lookup {A B} (f : A -> option B) l (bs : list B) k x :
  map f l = map Some bs -> l !! k = Some x -> exists y, f x = Some y /\ bs !! k = Some y.
Proof.
  intros E Hk. apply (f_equal (fun l => l !! k)) in E.
  change ((f <$> l) !! k = (Some <$> bs) !! k) in E. rename E into H. rewrite !list_lookup_fmap, Hk in H. cbn in H. destruct (bs !! k) as [y |]; [| done].
  exists y. split; [by injection H | done].
Qed.

Lemma map_some_end {A B} (f : A -> option B) l (bs : list B) : map f l = map Some bs -> bs !! length l = None.
Proof.
  intros E. apply lookup_ge_None. apply (f_equal length) in E. rewrite !length_map in E. lia.
Qed.

(** From a position in the chain the iterator finds the next row. *)
Lemma next_stored_from s rows bs1 b bs2 l1 l2 :
  store_ok s rows -> got_first_next_ s = true -> all_blocks s = bs1 ++ b :: bs2 -> data_ b = l1 ++ l2 ->
  cur_iter_block_ s = Some (length bs1) -> cur_iter_pos_ s = data_size l1 ->
  let k := (length (concat (map data_ bs1)) + length l1)%nat in
  exists s', next_stored s = Some (rows !! k, s') /\ store_ok s' rows /\
    (exists j pos got, s' = with_iter s j pos got) /\ cursor_at s' ((fun _ => S k) <$> rows !! k).
Proof.
  intros Hok Hg Hbl Hd Hj Hp k. destruct (store_content s rows Hok) as [Hb Hr].
  unfold next_stored. rewrite Hg, Hj, Hbl, drop_app_length, Hp.
  rewrite Hbl in Hb, Hr. apply Forall_app in Hb as [_ Hb].
  pose proof (next_iter_pos_spec bs2 b (length bs1) l1 l2 Hb Hd) as H.
  rewrite map_app, concat_app in Hr. cbn [map concat] in Hr. rewrite Hd, <- app_assoc in Hr.
  destruct (l2 ++ concat (map data_ bs2)) as [| r rest] eqn:El.
  - rewrite H. apply map_some_end in Hr. rewrite app_nil_r, length_app in Hr. fold k in Hr. rewrite Hr.
    eexists. conjs; [done | by apply store_ok_iter | by eauto | done].
  - destruct H as (cs1 & b' & cs2 & m1 & m2 & Eb & Hd' & -> & Hl).
    rewrite Hd', stored_at_app, bind_some.
    destruct (map_some_lookup _ _ _ k r Hr) as (bytes & -> & Hk).
    { rewrite app_assoc. rewrite lookup_app_r by (rewrite length_app; unfold k; lia).
      rewrite length_app. by replace (k - (length (concat (map data_ bs1)) + length l1))%nat with 0%nat by lia. }
    rewrite bind_some, Hk. eexists. conjs; [done | by apply store_ok_iter | by eauto |]. right. split; [done |].
    exists (bs1 ++ cs1), b', cs2, (m1 ++ [r]), m2.
    conjs; [| by rewrite <- app_assoc | by destruct m1 | cbn; by rewrite length_app | |].
    + change (all_blocks (with_iter _ _ _ _)) with (all_blocks s). by rewrite Hbl, Eb, <- app_assoc.
    + cbn. rewrite data_size_app, data_size_cons, data_size_nil. lia.
    + rewrite map_app, concat_app, !length_app. cbn [length]. unfold k. lia.
Qed.

Lemma next_stored_spec s rows k :
  store_ok s rows -> cursor_at s (Some k) ->
  exists s', next_stored s = Some (rows !! k, s') /\ store_ok s' rows /\
    (exists j pos got, s' = with_iter s j pos got) /\ cursor_at s' ((fun _ => S k) <$> rows !! k).
Proof.
  intros Hok [[Hg ->] | (Hg & bs1 & b & bs2 & l1 & l2 & Hbl & Hd & _ & Hj & Hp & ->)];
    [| by apply (next_stored_from s rows bs1 b bs2 l1 l2)].
  assert (E : next_stored s = next_stored (with_iter s (tail_index s) 0 true)).
  { unfold next_stored. by rewrite Hg. }
  rewrite E. destruct (all_blocks s) as [| b bs] eqn:Hbl.
  - destruct (store_content s rows Hok) as [_ Hr]. rewrite Hbl in Hr. destruct rows; [| done].
    assert (Hn : tail_index s = None).
    { unfold all_blocks, tail_index in *. destruct (block_list s) as [[[[|] ?] ?] |]; done. }
    rewrite Hn. eexists. conjs; [done | by apply store_ok_iter | by eauto | done].
  - assert (Hn : tail_index s = Some 0%nat).
    { unfold all_blocks, tail_index in *. destruct (block_list s) as [[[[|] ?] ?] |]; done. }
    rewrite Hn.
    destruct (next_stored_from (with_iter s (Some 0%nat) 0 true) rows [] b bs [] (data_ b)) as (s' & Hn' & Hok' & (j & pos & got & ->) & Hcur);
      [by apply store_ok_iter | done | done | done | done | done |].
    eexists. conjs; [exact Hn' | done | by exists j, pos, got | done].
Qed.

Lemma next_stored_end s : cursor_at s None -> next_stored s = Some (None, s).
Proof. intros [Hg Hj]. unfold next_stored. by rewrite Hg, Hj. Qed.

(** ** Adding a row *)

Definition no_extend (row : ObRow) : Prop := Forall (fun o => type_ o <> ObExtendType) (row_cells row).

Lemma reserve_cell_length columns ids clone cells : length (reserve_cell columns ids clone cells) = length cells.
Proof.
  revert cells. induction columns as [| c columns IH]; intros [| x cells]; try done.
  cbn [reserve_cell]. destruct ((c.1 =? ids.1) && (c.2 =? ids.2)); [done |]. cbn. by rewrite IH.
Qed.

(** The identifiers of the columns of a row, and the reserved cells its cells
    fill. *)
Definition row_ids (row : ObRow) : list (Z * Z) :=
  match row_desc_ row with None => [] | Some d => map (fun k => (table_id_ k, column_id_ k)) (ObRowDesc.columns d) end.

Fixpoint reserve_cells (columns ids : list (Z * Z)) (objs : list ObObj) (cells : list (option ObObj))
    : list (option ObObj) :=
  match ids, objs with
  | id :: ids', o :: objs' => reserve_cells columns ids' objs' (reserve_cell columns id (clone_of o) cells)
  | _, _ => cells
  end.

Lemma row_ids_at row d i :
  row_wf row -> row_desc_ row = Some d -> 0 <= i < row_column_num row ->
  drop (Z.to_nat i) (row_ids row) =
    (table_id_ (cell_desc d i), column_id_ (cell_desc d i)) :: drop (Z.to_nat (i + 1)) (row_ids row) /\
  drop (Z.to_nat i) (row_cells row) = raw_cell row i :: drop (Z.to_nat (i + 1)) (row_cells row).
Proof.
  intros Hw Hd Hi. replace (Z.to_nat (i + 1)) with (S (Z.to_nat i)) by lia. split; apply drop_S.
  - unfold row_ids. rewrite Hd, list_lookup_fmap. unfold row_column_num, get_column_num in Hi. rewrite Hd in Hi.
    rewrite (proj2 (columns_lookup d (wf_desc row Hw d Hd) (Z.to_nat i) (cell_desc d i))); [done |].
    rewrite Z2Nat.id by lia. split; [lia | done].
  - rewrite row_cells_lookup by done. rewrite Z2Nat.id by lia. destruct (Z.ltb_spec i (row_column_num row)); [done | lia].
Qed.

(** The store writes the cells of a row as [ObRowUtil::convert] does. *)
Lemma append_stored_cells_convert k columns row d i clone cells w ret w' :
  row_wf row -> row_desc_ row = Some d -> no_extend row -> 0 <= i -> i + Z.of_nat k = row_column_num row ->
  append_cells k row i w = Some (ret, w') ->
  exists cells', append_stored_cells k columns SPARSE row i clone cells w = Some (ret, w', cells') /\
    length cells' = length cells /\
    (ret = OB_SUCCESS ->
       cells' = reserve_cells columns (drop (Z.to_nat i) (row_ids row)) (drop (Z.to_nat i) (row_cells row)) cells).
Proof.
  intros Hw Hd Hx. revert i clone cells w. induction k as [| k IH]; intros i clone cells w Hi Hk E.
  - injection E as <- <-. exists cells. conjs; [done | done |]. intros _.
    rewrite (drop_ge (row_cells row)); [by destruct (drop _ _) |]. pose proof (row_cells_length row Hw). lia.
  - cbn [append_cells append_stored_cells] in *. rewrite (raw_get_cell_ids_at row d i Hw Hd) in E |- * by lia.
    set (cell := raw_cell row i) in *. set (tid := table_id_ (cell_desc d i)). set (cid := column_id_ (cell_desc d i)) in *.
    assert (Hcell : type_ cell <> ObExtendType).
    { apply (Forall_lookup_1 (fun o => type_ o <> ObExtendType) (row_cells row) (Z.to_nat i)); [exact Hx |].
      rewrite row_cells_lookup by done.
      rewrite Z2Nat.id by lia. destruct (Z.ltb_spec i (row_column_num row)); [done | lia]. }
    unfold append_stored_cell, type_eqb. rewrite bool_decide_eq_false_2 by done.
    unfold andthen in E. destruct (append SPARSE cid cell w) as [[ret1 w1] |]; [| done].
    rewrite bind_some in E. rewrite !bind_some. destruct (ret1 =? OB_SUCCESS) eqn:E1; cbn [negb].
    + destruct (IH (i + 1) (clone_of cell) (reserve_cell columns (tid, cid) (clone_of cell) cells) w1) as (cells' & -> & Hl & Hres);
        [lia | lia | done |].
      exists cells'. conjs; [done | by rewrite Hl, reserve_cell_length |]. intros Hret. rewrite (Hres Hret).
      destruct (row_ids_at row d i Hw Hd ltac:(lia)) as [-> ->]. done.
    + injection E as <- <-. exists cells. conjs; [done | done |]. intros ->. by rewrite Z.eqb_refl in E1.
Qed.

(** The compact row of a row. *)
Definition row_bytes (row : ObRow) : list Z := encode_row (row_column_ids row) (row_cells row).

(** A row the store can keep. *)
Record keepable (row : ObRow) : Prop := {
  kp_wf : row_wf row;
  kp_desc : row_desc_ row <> None;
  kp_storable : storable_row row;
  kp_no_extend : no_extend row
}.

(** What the store keeps of a row. *)
Definition stored_of (columns : list (Z * Z)) (row : ObRow) : StoredRow :=
  mkStored (reserve_cells columns (row_ids row) (row_cells row) (replicate (length columns) None)) (Some (row_bytes row)).

Lemma reserve_cells_length columns ids objs cells : length (reserve_cells columns ids objs cells) = length cells.
Proof.
  revert objs cells. induction ids as [| id ids IH]; intros [| o objs] cells; try done. cbn. by rewrite IH, reserve_cell_length.
Qed.

Lemma store_append_row_spec columns row b :
  keepable row -> 0 <= get_remain_size b ->
  exists cells, length cells = length columns /\
    store_append_row columns None row b =
      if Z.of_nat (length (row_bytes row)) <=? get_remain_size b
      then Some (OB_SUCCESS, Some (row_bytes row), reserved_cells_ (stored_of columns row))
      else Some (OB_BUF_NOT_ENOUGH, None, cells).
Proof.
  intros [Hw Hd Hs Hx] Hr. destruct (row_desc_ row) as [d |] eqn:Ed; [clear Hd | done].
  unfold store_append_row. cbn [writer_assign]. set (n := get_remain_size b) in *.
  set (buf := replicate (Z.to_nat n) 0). set (w := mkWriter (Some buf) 0 n).
  assert (Hbuf : Z.of_nat (length buf) = n) by (unfold buf; rewrite length_replicate; lia).
  destruct (writes_row row d Hw Ed Hs w buf) as (ret & w' & buf' & E & Hw' & _ & R);
    [split; [done | by rewrite Hbuf | rewrite Hbuf; cbn; lia] |].
  cbn [w_pos_ w] in R. rewrite Z.add_0_l, Hbuf in R. fold (row_bytes row) in R.
  unfold finish at 1. rewrite bind_some. change (negb (OB_SUCCESS =? OB_SUCCESS)) with false. cbn iota.
  unfold andthen in E. destruct (append_cells (Z.to_nat (row_column_num row)) row 0 w) as [[ret1 w1] |] eqn:E1; [| done].
  rewrite bind_some in E. pose proof (row_num_nonneg row d Hw Ed).
  destruct (append_stored_cells_convert (Z.to_nat (row_column_num row)) columns row d 0 ObObj_new (replicate (length columns) None) w ret1 w1
              Hw Ed Hx ltac:(lia) ltac:(lia) E1) as (cells & -> & Hl & Hres).
  rewrite length_replicate in Hl. exists cells. split; [done |]. rewrite bind_some.
  destruct (Z.leb_spec (Z.of_nat (length (row_bytes row))) n) as [Hle | Hgt].
  - destruct R as (-> & Hp & Hwr). destruct (Z.eqb_spec ret1 OB_SUCCESS) as [-> | Hne]; [| congruence].
    cbn [negb]. rewrite E, bind_some. change (negb (OB_SUCCESS =? OB_SUCCESS)) with false. cbn iota.
    rewrite (Hres eq_refl). change (Z.to_nat 0) with 0%nat. rewrite !drop_0. rewrite (wf_w_buf w' buf' Hw'). cbn [fmap option_fmap option_map]. unfold written in Hwr. by rewrite Hwr.
  - subst ret. destruct (Z.eqb_spec ret1 OB_SUCCESS) as [-> | Hne]; cbn [negb].
    + by rewrite E, bind_some.
    + by injection E as -> ->.
Qed.

(** ** New blocks *)

(** The bytes of a row in front of the compact row. *)
Abbreviation header_size s := (get_reserved_cells_size (Z.of_nat (length (reserved_columns_ s)))).

(** Some rows [l1] of the block behind [bs1] have been read. *)
Definition stands (s : ObRowStore) (bs1 : list BlockInfo) (l1 : list StoredRow) : Prop :=
  exists b bs2 l2, all_blocks s = bs1 ++ b :: bs2 /\ data_ b = l1 ++ l2.

(** What [add_row] leaves alone: the settings and the place of the iterator. *)
Record keeps (s s' : ObRowStore) : Prop := {
  ks_reserved : reserved_columns_ s' = reserved_columns_ s;
  ks_block_size : store_block_size_ s' = store_block_size_ s;
  ks_read_only : is_read_only_ s' = is_read_only_ s;
  ks_got : got_first_next_ s' = got_first_next_ s;
  ks_pos : cur_iter_pos_ s' = cur_iter_pos_ s;
  ks_end : cur_iter_block_ s = None -> cur_iter_block_ s' = None;
  ks_stands : forall bs1 l1, l1 <> [] -> stands s bs1 l1 ->
    stands s' bs1 l1 /\ (cur_iter_block_ s = Some (length bs1) -> cur_iter_block_ s' = Some (length bs1))
}.

Lemma keeps_trans s1 s2 s3 : keeps s1 s2 -> keeps s2 s3 -> keeps s1 s3.
Proof.
  intros H12 H23. destruct H12 as [? ? ? ? ? E12 S12], H23 as [? ? ? ? ? E23 S23].
  split; try congruence; [auto |]. intros bs1 l1 Hl Hs. destruct (S12 bs1 l1 Hl Hs) as [H2 I2].
  destruct (S23 bs1 l1 Hl H2) as [H3 I3]. auto.
Qed.

Lemma keeps_cursor s s' k : keeps s s' -> cursor_at s k -> cursor_at s' k.
Proof.
  intros [_ _ _ Hg Hp He Hs]. destruct k as [k |]; cbn [cursor_at]; rewrite Hg; [| by intros [? ?]; auto].
  intros [? | (Hgot & bs1 & b & bs2 & l1 & l2 & Hbl & Hd & Hl & Hj & Hpos & Hk)]; [by left | right]. split; [done |].
  destruct (Hs bs1 l1 Hl) as [(b' & bs2' & l2' & Hbl' & Hd') Hj']; [by exists b, bs2, l2 |].
  exists bs1, b', bs2', l1, l2'. conjs; [done | done | done | auto | congruence | done].
Qed.

(** A position with rows behind it is in front of the blocks that have none. *)
Lemma stands_before s bs1 l1 P F :
  all_blocks s = P ++ F -> Forall (fun b => data_ b = []) F -> l1 <> [] -> stands s bs1 l1 ->
  exists b bs2 l2, P = bs1 ++ b :: bs2 /\ data_ b = l1 ++ l2.
Proof.
  intros Hbl HF Hl (b & bs2 & l2 & E & Hd). rewrite Hbl in E. apply app_eq_inv in E as [(k & E1 & E2) | (k & E1 & E2)].
  - destruct k as [| b' k]; cbn in E2.
    + destruct F as [| f F]; [done |]. injection E2 as <- <-. apply Forall_cons in HF as [HF _].
      rewrite HF in Hd. by destruct l1.
    + injection E2 as <- ->. by exists b, k, l2.
  - exfalso. assert (Hb : b ∈ F) by (rewrite E2; set_solver). rewrite Forall_forall in HF.
    rewrite (HF b Hb) in Hd. by destruct l1.
Qed.

(** Changing what follows the rows. *)
Lemma keeps_prefix s bl count P F F' :
  all_blocks s = P ++ F -> Forall (fun b => data_ b = []) F ->
  all_blocks (with_blocks s bl count) = P ++ F' -> keeps s (with_blocks s bl count).
Proof.
  intros Hbl HF Hbl'. split; try done. intros bs1 l1 Hl Hs. split; [| done].
  destruct (stands_before s bs1 l1 P F Hbl HF Hl Hs) as (b & bs2 & l2 & -> & Hd).
  exists b, (bs2 ++ F'), l2. split; [| done]. by rewrite Hbl', <- app_assoc.
Qed.

Lemma fresh_no_data bs : Forall block_ok bs -> Forall fresh bs -> Forall (fun b => data_ b = []) bs.
Proof.
  intros Hb Hf. rewrite Forall_forall in *. intros b Hin. by apply fresh_data; [apply Hb | apply Hf].
Qed.

Lemma fresh_block_ok size : NORMAL_BLOCK_SIZE <= size <= BIG_BLOCK_SIZE -> block_ok (mkBlock size 0 []).
Proof.
  intros H. split; [done | done |]. unfold get_remain_size, SIZEOF_BLOCK_INFO, NORMAL_BLOCK_SIZE in *. cbn. lia.
Qed.

Lemma emptied_block_ok b : block_ok b -> block_ok (set_curr_data_pos b 0) /\ data_ (set_curr_data_pos b 0) = [].
Proof.
  intros [Hp Hs Hr]. assert (data_before 0 (data_ b) = []) as E by (by destruct (data_ b)).
  split; [| exact E]. split; cbn; [by rewrite E | done |].
  unfold get_remain_size, SIZEOF_BLOCK_INFO, NORMAL_BLOCK_SIZE in *; cbn. lia.
Qed.

(** A block inserted behind the head moves the index of no block with rows. *)
Lemma keeps_shift s bl count used h spare F' :
  all_blocks s = (used ++ [h]) ++ spare -> Forall (fun b => data_ b = []) spare ->
  all_blocks (with_blocks s bl count) = (used ++ [h]) ++ F' ->
  keeps s (with_iter (with_blocks s bl count) (shift_index (S (length used)) (cur_iter_block_ s)) (cur_iter_pos_ s)
             (got_first_next_ s)).
Proof.
  intros Hbl HF Hbl'. split; try done; [cbn; by intros -> |]. intros bs1 l1 Hl Hs.
  destruct (stands_before s bs1 l1 _ spare Hbl HF Hl Hs) as (b & bs2 & l2 & E & Hd). split.
  - exists b, (bs2 ++ F'), l2. split; [| done]. change (all_blocks (with_iter ?x _ _ _)) with (all_blocks x).
    by rewrite Hbl', E, <- app_assoc.
  - intros ->. change (Some (if (S (length used) <=? length bs1)%nat then S (length bs1) else length bs1) = Some (length bs1)).
    apply (f_equal length) in E. rewrite !length_app in E. cbn [length] in E.
    destruct (Nat.leb_spec (S (length used)) (length bs1)); [lia | done].
Qed.

Section AddSpec.
Context (malloc : Z -> bool) (malloc_ok : forall size, malloc size = true).

(** A new head behind one that has rows. *)
Lemma new_block_ok size s used h spare rows :
  NORMAL_BLOCK_SIZE <= size <= BIG_BLOCK_SIZE -> block_list s = Some (used, h, spare) -> chain_ok used h spare rows -> ~ fresh h ->
  0 <= block_count_ s ->
  exists s' h' spare', new_block malloc size s = (OB_SUCCESS, s') /\ keeps s s' /\
    block_list s' = Some (used ++ [h], h', spare') /\ chain_ok (used ++ [h]) h' spare' rows /\
    fresh h' /\ size <= block_size_ h' /\ (0 < block_count_ s \/ spare = [] -> 0 < block_count_ s').
Proof.
  intros Hsz Hbl [Hb Hu Hs Hr] Hh Hcnt. unfold new_block. rewrite Hbl.
  assert (Hchain : forall h' spare', Forall block_ok (h' :: spare') -> data_ h' = [] -> Forall fresh spare' ->
            chain_ok (used ++ [h]) h' spare' rows).
  { intros h' spare' Hb' Hd' Hs'. apply Forall_app in Hb as [Hb1 [Hb2 _]%Forall_cons]. split.
    - apply Forall_app. split; [| done]. apply Forall_app. by split; [| constructor].
    - apply Forall_app. by split; [| constructor].
    - done.
    - rewrite (map_app data_ used [h]), concat_app. cbn [map concat]. by rewrite Hd', !app_nil_r. }
  apply Forall_app in Hb as [Hb1 [Hb2 Hb3]%Forall_cons]. pose proof (fresh_no_data spare Hb3 Hs) as Hno.
  assert (Hall : all_blocks s = (used ++ [h]) ++ spare) by (unfold all_blocks; by rewrite Hbl, <- app_assoc).
  destruct spare as [| nb spare].
  - rewrite malloc_ok. eexists _, _, _. conjs; [done | | done | | done | done | cbn; lia].
    + by apply (keeps_prefix s _ _ (used ++ [h]) [] [mkBlock size 0 []]).
    + apply Hchain; [constructor; [by apply fresh_block_ok | done] | done | done].
  - apply Forall_cons in Hb3 as [Hnb Hb3]. apply Forall_cons in Hs as [Hnf Hs].
    destruct (emptied_block_ok nb Hnb) as [He Hed].
    destruct (Z.leb_spec size (block_size_ nb)).
    + eexists _, _, _. conjs; [done | | done | | done | done | cbn; intros [? | ?]; [done | done]].
      * by apply (keeps_prefix s _ _ (used ++ [h]) (nb :: spare) (set_curr_data_pos nb 0 :: spare)).
      * by apply Hchain; [constructor | |].
    + rewrite malloc_ok. eexists _, _, _. conjs; [done | | done | | done | done | cbn; lia].
      * by apply (keeps_shift s _ _ used h (nb :: spare) (mkBlock size 0 [] :: nb :: spare)).
      * apply Hchain; [constructor; [by apply fresh_block_ok | by constructor] | done | by constructor].
Qed.

(** The first block. *)
Lemma first_block_ok size s :
  NORMAL_BLOCK_SIZE <= size <= BIG_BLOCK_SIZE -> block_list s = None -> 0 <= block_count_ s ->
  exists s', new_block malloc size s = (OB_SUCCESS, s') /\ keeps s s' /\
    block_list s' = Some ([], mkBlock size 0 [], []) /\ chain_ok [] (mkBlock size 0 []) [] [] /\ 0 < block_count_ s'.
Proof.
  intros Hsz Hbl Hc. unfold new_block. rewrite Hbl, malloc_ok. eexists.
  conjs; [done | | done | | cbn; lia].
  { apply (keeps_prefix s _ _ [] [] [mkBlock size 0 []]); [| done | done]. unfold all_blocks. by rewrite Hbl. }
  split; [constructor; [by apply fresh_block_ok | done] | done | done | done].
Qed.

Lemma map_some_nil {A B} (f : A -> option B) (rows : list B) : map f [] = map Some rows -> rows = [].
Proof. by destruct rows. Qed.

(** After a block that is full there is a fresh one, a big one if the full one was
    fresh already. *)
Lemma make_room_ok s used h spare rows :
  block_list s = Some (used, h, spare) -> chain_ok used h spare rows -> 0 < block_count_ s ->
  exists s' used' h' spare', make_room malloc used h s = (OB_SUCCESS, s') /\ keeps s s' /\
    block_list s' = Some (used', h', spare') /\ chain_ok used' h' spare' rows /\ 0 < block_count_ s' /\
    fresh h' /\ (if is_fresh_block h then BIG_BLOCK_SIZE else NORMAL_BLOCK_SIZE) <= block_size_ h'.
Proof.
  intros Hbl Hc Hn. unfold make_room, is_fresh_block. destruct (Z.eqb_spec (curr_data_pos_ h) 0) as [Hf | Hf].
  - destruct Hc as [Hb Hu Hs Hr]. apply Forall_app in Hb as [Hb1 Hb2].
    assert (HF : Forall (fun b => data_ b = []) (h :: spare)) by (apply fresh_no_data; [done | by constructor]).
    apply Forall_cons in Hb2 as [Hb2 _]. rewrite (proj1 (fresh_data h Hb2) Hf), app_nil_r in Hr.
    assert (Hall : all_blocks s = used ++ h :: spare) by (unfold all_blocks; by rewrite Hbl).
    destruct used as [| b0 used0 _] using rev_ind; [cbn [last] | rewrite last_snoc].
    + apply map_some_nil in Hr as ->.
      destruct (first_block_ok BIG_BLOCK_SIZE (with_blocks s None (block_count_ s - 1)))
        as (s' & E & Hsame & Hbl' & Hc' & Hn'); [done | done | cbn; lia |].
      exists s', [], (mkBlock BIG_BLOCK_SIZE 0 []), []. conjs; [done | | done | done | done | done | done].
      eapply keeps_trans; [| exact Hsame]. by apply (keeps_prefix s _ _ [] (h :: spare) []).
    + rewrite length_app, Nat.add_sub, take_app_length.
      apply Forall_app in Hb1 as [Hb1 [Hb0 _]%Forall_cons]. apply Forall_app in Hu as [Hu [Hu0 _]%Forall_cons].
      rewrite map_app, concat_app in Hr. cbn [map concat] in Hr. rewrite app_nil_r in Hr.
      destruct (new_block_ok BIG_BLOCK_SIZE (with_blocks s (Some (used0, b0, [])) (block_count_ s - 1)) used0 b0 [] rows)
        as (s' & h' & spare' & E & Hsame & Hbl' & Hc' & Hf' & Hsz & Hn'); [done | done | | done | cbn; lia |].
      { split; [apply Forall_app; by split; [| constructor] | done | done | done]. }
      exists s', (used0 ++ [b0]), h', spare'. conjs; [done | | done | done | auto | done | done].
      eapply keeps_trans; [| exact Hsame]. apply (keeps_prefix s _ _ (used0 ++ [b0]) (h :: spare) []); [done | done |].
      by rewrite app_nil_r.
  - destruct (new_block_ok NORMAL_BLOCK_SIZE s used h spare rows)
      as (s' & h' & spare' & E & Hsame & Hbl' & Hc' & Hf' & Hsz & Hn'); [done | done | done | done | lia |].
    exists s', (used ++ [h]), h', spare'. conjs; [done | done | done | done | auto | done | done].
Qed.

(** ** The attempts of [add_row] *)

(** The last row can be taken back: its place is remembered, and without it the
    chain holds [rows]. *)
Definition undoable (s : ObRowStore) (rows : list (list Z)) : Prop :=
  exists used h h2 spare, block_list s = Some (used, h2, spare) /\ chain_ok used h spare rows /\
    rollback_block_list_ s = Some (length used) /\ 0 <= rollback_iter_pos_ s /\
    set_curr_data_pos h2 (rollback_iter_pos_ s) = h.

(** [s'] is [s] with a row more. *)
Record grown (s s' : ObRowStore) (rows : list (list Z)) (row : ObRow) : Prop := {
  gr_keeps : keeps s s';
  gr_count : 0 < block_count_ s';
  gr_chain : exists used h spare, block_list s' = Some (used, h, spare) /\ chain_ok used h spare (rows ++ [row_bytes row]);
  gr_undo : undoable s' rows
}.

Lemma block_append h stored :
  block_ok h -> stored_size stored <= get_remain_size h ->
  let h2 := mkBlock (block_size_ h) (curr_data_pos_ h + stored_size stored)
              (data_before (curr_data_pos_ h) (data_ h) ++ [stored]) in
  block_ok h2 /\ data_ h2 = data_ h ++ [stored] /\ set_curr_data_pos h2 (curr_data_pos_ h) = h.
Proof.
  intros [Hp Hs Hr] Hfit h2. unfold get_remain_size in *.
  assert (Hd : data_ h2 = data_ h ++ [stored]) by (cbn; by rewrite Hp, data_before_all).
  conjs; [| done |].
  - split; [| done | unfold get_remain_size; cbn; lia]. rewrite Hd, data_size_app, data_size_cons, data_size_nil. cbn. lia.
  - unfold set_curr_data_pos. rewrite Hd, Hp, data_before_app. destruct h as [bs p d]; cbn in *. by rewrite Hp.
Qed.

Lemma keeps_append s used h h2 spare count pos k size :
  all_blocks s = used ++ h :: spare -> Forall (fun b => data_ b = []) spare -> data_ h `prefix_of` data_ h2 ->
  keeps s (with_size (with_blocks (with_rollback s pos k) (Some (used, h2, spare)) count) size).
Proof.
  intros Hbl HF [l Hl2]. split; try done. intros bs1 l1 Hl Hs. split; [| done].
  destruct (stands_before s bs1 l1 (used ++ [h]) spare) as (b & bs2 & l2 & E & Hd);
    [by rewrite <- app_assoc | done | done | done |].
  destruct bs2 as [| x bs2 _] using rev_ind.
  - apply app_inj_tail in E as [-> ->]. exists h2, spare, (l2 ++ l). by rewrite Hl2, Hd, <- app_assoc.
  - rewrite app_comm_cons, app_assoc in E. apply app_inj_tail in E as [-> ->].
    exists b, (bs2 ++ h2 :: spare), l2. split; [| done]. unfold all_blocks; cbn. by rewrite <- app_assoc.
Qed.

(** An attempt on a block with room for the row. *)
Lemma attempt_fits n row s used h spare rows :
  keepable row -> block_list s = Some (used, h, spare) -> chain_ok used h spare rows ->
  0 < block_count_ s -> header_size s + Z.of_nat (length (row_bytes row)) <= get_remain_size h ->
  exists stored s', add_row_loop malloc (S n) None row s = Some (OB_SUCCESS, Some stored, s') /\
    stored = stored_of (reserved_columns_ s) row /\ grown s s' rows row.
Proof.
  intros Hk Hbl [Hb Hu Hs Hr] Hn Hfit. cbn [add_row_loop]. rewrite Hbl, bind_some. cbn iota beta.
  change (reserved_columns_ (with_rollback s _ _)) with (reserved_columns_ s).
  set (hd := header_size s) in *. set (h1 := mkBlock (block_size_ h) (curr_data_pos_ h + hd) (data_ h)).
  assert (Hr1 : get_remain_size h1 = get_remain_size h - hd) by (unfold get_remain_size; cbn; lia).
  destruct (store_append_row_spec (reserved_columns_ s) row h1 Hk) as (cells & Hl & E);
    [rewrite Hr1; lia |].
  rewrite E. rewrite (proj2 (Z.leb_le _ _)) by (rewrite Hr1; lia). rewrite bind_some.
  change (OB_SUCCESS =? OB_SUCCESS) with true. cbn iota beta. cbn [default from_option id].
  change (mkStored _ (Some (row_bytes row))) with (stored_of (reserved_columns_ s) row).
  set (stored := stored_of (reserved_columns_ s) row).
  assert (Hsz : stored_size stored = hd + Z.of_nat (length (row_bytes row)))
    by (unfold stored_size; cbn; by rewrite reserve_cells_length, length_replicate).
  apply Forall_app in Hb as [Hb1 [Hb2 Hb3]%Forall_cons].
  destruct (block_append h stored Hb2) as (Hok & Hd & Hback); [lia |].
  rewrite Hsz, Z.add_assoc in Hok, Hd, Hback. change (curr_data_pos_ h + hd) with (curr_data_pos_ h1) in Hok, Hd, Hback.
  eexists _, _. conjs; [reflexivity | done |]. split; [| done | |].
  - eapply (keeps_append s used h); [unfold all_blocks; by rewrite Hbl | by apply fresh_no_data |].
    rewrite Hd. by eexists.
  - eexists _, _, _. split; [reflexivity |].
    split; [apply Forall_app; by split; [| constructor] | done | done |].
    rewrite Hd, app_assoc, map_app, Hr. by rewrite map_app.
  - eexists _, _, _, _. conjs; [reflexivity | | done | cbn; rewrite (bo_pos h Hb2); apply data_size_nonneg | exact Hback].
    split; [apply Forall_app; by split; [| constructor] | done | done | done].
Qed.

(** An attempt on a block without room: another is made and tried. *)
Lemma attempt_full n row s used h spare rows :
  keepable row -> block_list s = Some (used, h, spare) -> chain_ok used h spare rows -> 0 < block_count_ s ->
  header_size s <= get_remain_size h < header_size s + Z.of_nat (length (row_bytes row)) ->
  exists s1 used' h' spare', add_row_loop malloc (S n) None row s = add_row_loop malloc n None row s1 /\
    keeps s s1 /\ block_list s1 = Some (used', h', spare') /\ chain_ok used' h' spare' rows /\
    0 < block_count_ s1 /\ fresh h' /\ (if is_fresh_block h then BIG_BLOCK_SIZE else NORMAL_BLOCK_SIZE) <= block_size_ h'.
Proof.
  intros Hk Hbl Hc Hn Hfull. cbn [add_row_loop]. rewrite Hbl, bind_some. cbn iota beta.
  change (reserved_columns_ (with_rollback s _ _)) with (reserved_columns_ s).
  set (hd := header_size s) in *. set (h1 := mkBlock (block_size_ h) (curr_data_pos_ h + hd) (data_ h)).
  assert (Hr1 : get_remain_size h1 = get_remain_size h - hd) by (unfold get_remain_size; cbn; lia).
  destruct (store_append_row_spec (reserved_columns_ s) row h1 Hk) as (cells & Hl & E);
    [rewrite Hr1; lia |].
  rewrite E. rewrite (proj2 (Z.leb_gt _ _)) by (rewrite Hr1; lia). rewrite bind_some.
  change (OB_BUF_NOT_ENOUGH =? OB_SUCCESS) with false. change (OB_BUF_NOT_ENOUGH =? OB_BUF_NOT_ENOUGH) with true.
  cbn iota beta. set (sr := with_rollback s (curr_data_pos_ h) (Some (length used))).
  destruct (make_room_ok sr used h spare rows) as (s1 & used' & h' & spare' & -> & Hks & Hs1); [done | done | done |].
  change (OB_SUCCESS =? OB_SUCCESS) with true. cbn [orb]. exists s1, used', h', spare'.
  split; [done |]. split; [| done]. eapply keeps_trans; [| exact Hks]. by split.
Qed.

Lemma grown_trans s s1 s' rows row : keeps s s1 -> grown s1 s' rows row -> grown s s' rows row.
Proof. intros H [H1 ? ? ?]. split; [by eapply keeps_trans | done | done | done]. Qed.

Lemma fresh_remain h : fresh h -> get_remain_size h = block_size_ h - SIZEOF_BLOCK_INFO.
Proof. unfold fresh, get_remain_size. lia. Qed.

(** Three attempts are enough for a row that a big block holds. *)
Lemma attempts_ok row s used h spare rows :
  keepable row -> block_list s = Some (used, h, spare) -> chain_ok used h spare rows -> 0 < block_count_ s ->
  header_size s <= get_remain_size h -> header_size s <= NORMAL_BLOCK_SIZE - SIZEOF_BLOCK_INFO ->
  header_size s + Z.of_nat (length (row_bytes row)) <= BIG_BLOCK_SIZE - SIZEOF_BLOCK_INFO ->
  exists stored s', add_row_loop malloc 3 None row s = Some (OB_SUCCESS, Some stored, s') /\
    stored = stored_of (reserved_columns_ s) row /\ grown s s' rows row.
Proof.
  intros Hk Hbl Hc Hn Hh Hnorm Hbig. set (need := header_size s + Z.of_nat (length (row_bytes row))) in *.
  destruct (Z_le_gt_dec need (get_remain_size h)) as [Hle | Hgt]; [by apply (attempt_fits 2 row s used h spare rows) |].
  destruct (attempt_full 2 row s used h spare rows) as (s1 & u1 & h1 & sp1 & -> & Hs1 & Hbl1 & Hc1 & Hn1 & Hf1 & Hsz1);
    [done | done | done | done | lia |].
  assert (Hres1 : header_size s1 = header_size s) by (by rewrite (ks_reserved s s1 Hs1)).
  pose proof (fresh_remain h1 Hf1) as Hrem1.
  destruct (Z_le_gt_dec need (get_remain_size h1)) as [Hle1 | Hgt1].
  { destruct (attempt_fits 1 row s1 u1 h1 sp1 rows) as (stored & s' & E & Hst & Hg); [done.. | lia |].
    exists stored, s'. conjs; [done | by rewrite Hst, (ks_reserved s s1 Hs1) | by eapply grown_trans]. }
  assert (BIG_BLOCK_SIZE > NORMAL_BLOCK_SIZE) by done.
  destruct (attempt_full 1 row s1 u1 h1 sp1 rows) as (s2 & u2 & h2 & sp2 & -> & Hs2 & Hbl2 & Hc2 & Hn2 & Hf2 & Hsz2);
    [done | done | done | done | destruct (is_fresh_block h); lia |].
  assert (Hres2 : header_size s2 = header_size s1) by (by rewrite (ks_reserved s1 s2 Hs2)).
  unfold is_fresh_block in Hsz2. rewrite (proj2 (Z.eqb_eq _ _) Hf1) in Hsz2. pose proof (fresh_remain h2 Hf2) as Hrem2.
  destruct (attempt_fits 0 row s2 u2 h2 sp2 rows) as (stored & s' & E & Hst & Hg); [done.. | lia |].
  exists stored, s'. conjs; [done | by rewrite Hst, (ks_reserved s1 s2 Hs2), (ks_reserved s s1 Hs1) |].
  eapply grown_trans; [exact Hs1 |]. by eapply grown_trans.
Qed.

Lemma grown_ok s s' rows row : store_ok s rows -> grown s s' rows row -> store_ok s' (rows ++ [row_bytes row]).
Proof.
  intros [_ Hb Hw Hr] [[E1 E2 E3 _ _ _ _] Hn (used & h & spare & Hbl & Hc) _].
  split; [rewrite Hbl; by split | by rewrite E2 | by rewrite E3 | by rewrite E1].
Qed.

(** The head that [add_row] starts with holds at least the header. *)
Lemma add_row_head s rows row :
  store_ok s rows -> keepable row ->
  exists s1 used h spare,
    store_add_row malloc None row s = add_row_loop malloc 3 None row s1 /\ keeps s s1 /\
    block_list s1 = Some (used, h, spare) /\ chain_ok used h spare rows /\ 0 < block_count_ s1 /\
    header_size s1 <= get_remain_size h.
Proof.
  intros [Hc Hb Hw Hr] Hk. unfold store_add_row. rewrite Hw.
  pose proof (row_column_num_range row (kp_wf row Hk)) as Hcols. unfold MAX_COLUMNS_COUNT in Hcols.
  assert (Hnum : 0 <= row_column_num row).
  { destruct (row_desc_ row) as [d |] eqn:Ed; [by apply (row_num_nonneg row d), Ed; apply Hk | by destruct Hk]. }
  set (least := get_compact_row_min_size (row_column_num row) + header_size s).
  assert (Hleast : header_size s <= least < NORMAL_BLOCK_SIZE - SIZEOF_BLOCK_INFO).
  { unfold least, get_reserved_cells_size, get_compact_row_min_size, SIZEOF_STORED_ROW, NORMAL_BLOCK_SIZE,
      SIZEOF_BLOCK_INFO in *. lia. }
  destruct (block_list s) as [[[used h] spare] |] eqn:Hbl.
  - destruct Hc as [Hc Hn]. destruct (Z.leb_spec (get_remain_size h) least) as [Hfull | Hroom].
    + assert (Hf : ~ fresh h).
      { intros Hf. rewrite (fresh_remain h Hf) in Hfull. destruct Hc as [Hbs _ _ _].
        apply Forall_app in Hbs as [_ [Hh _]%Forall_cons]. pose proof (bo_size h Hh). lia. }
      destruct (new_block_ok (store_block_size_ s) s used h spare rows)
        as (s1 & h' & sp' & -> & Hs1 & Hbl1 & Hc1 & Hf1 & Hsz1 & Hn1); [done | done | done | done | lia |].
      change (OB_SUCCESS =? OB_SUCCESS) with true. cbn iota. exists s1, (used ++ [h]), h', sp'.
      conjs; [done | done | done | done | auto |]. rewrite (fresh_remain h' Hf1).
      rewrite (ks_reserved s s1 Hs1). lia.
    + exists s, used, h, spare. conjs; [done | done | done | done | done | lia].
  - destruct Hc as [-> Hn].
    destruct (first_block_ok (store_block_size_ s) s) as (s1 & -> & Hs1 & Hbl1 & Hc1 & Hn1); [done | done | lia |].
    change (OB_SUCCESS =? OB_SUCCESS) with true. cbn iota. eexists s1, _, _, _.
    conjs; [done | done | exact Hbl1 | done | done |]. unfold get_remain_size; cbn.
    rewrite (ks_reserved s s1 Hs1). lia.
Qed.

(** Adding a row that a big block holds. *)
Lemma store_add_row_ok s rows row :
  store_ok s rows -> keepable row ->
  header_size s + Z.of_nat (length (row_bytes row)) <= BIG_BLOCK_SIZE - SIZEOF_BLOCK_INFO ->
  exists stored s', store_add_row malloc None row s = Some (OB_SUCCESS, Some stored, s') /\
    stored = stored_of (reserved_columns_ s) row /\ grown s s' rows row.
Proof.
  intros Hok Hk Hsz. destruct (add_row_head s rows row Hok Hk) as (s1 & used & h & spare & -> & Hs1 & Hbl & Hc & Hn & Hh).
  assert (Hres : header_size s1 = header_size s) by (by rewrite (ks_reserved s s1 Hs1)).
  destruct (attempts_ok row s1 used h spare rows) as (stored & s' & -> & Hst & Hg);
    [done | done | done | done | done | | lia |].
  - rewrite Hres. pose proof (so_reserved s rows Hok).
    unfold get_reserved_cells_size, SIZEOF_STORED_ROW, NORMAL_BLOCK_SIZE, SIZEOF_BLOCK_INFO in *. lia.
  - exists stored, s'. conjs; [done | by rewrite Hst, (ks_reserved s s1 Hs1) | by eapply grown_trans].
Qed.

(** A row that no block holds. *)
Lemma store_add_row_too_big s rows row :
  store_ok s rows -> keepable row ->
  BIG_BLOCK_SIZE - SIZEOF_BLOCK_INFO < header_size s + Z.of_nat (length (row_bytes row)) ->
  exists s', store_add_row malloc None row s = Some (OB_ERR_UNEXPECTED, None, s') /\ keeps s s' /\ store_ok s' rows.
Proof.
  intros Hok Hk Hbig. destruct (add_row_head s rows row Hok Hk) as (s1 & u1 & h1 & sp1 & -> & Hs1 & Hbl & Hc & Hn & Hh).
  pose proof (so_reserved s rows Hok) as Hres. pose proof (ks_reserved s s1 Hs1) as E1.
  assert (Hnorm : header_size s <= NORMAL_BLOCK_SIZE - SIZEOF_BLOCK_INFO).
  { unfold get_reserved_cells_size, SIZEOF_STORED_ROW, NORMAL_BLOCK_SIZE, SIZEOF_BLOCK_INFO in *. lia. }
  assert (Hfull : forall used h spare, chain_ok used h spare rows -> get_remain_size h <
                    header_size s + Z.of_nat (length (row_bytes row))).
  { intros used h spare [Hb _ _ _]. apply Forall_app in Hb as [_ [Hb _]%Forall_cons].
    pose proof (bo_size h Hb). pose proof (bo_pos h Hb). pose proof (data_size_nonneg (data_ h)).
    unfold get_remain_size. lia. }
  assert (Hstep : forall n s' used h spare, keeps s s' -> block_list s' = Some (used, h, spare) ->
            chain_ok used h spare rows -> 0 < block_count_ s' -> header_size s <= get_remain_size h ->
            exists s2 used2 h2 spare2, add_row_loop malloc (S n) None row s' = add_row_loop malloc n None row s2 /\
              keeps s s2 /\ block_list s2 = Some (used2, h2, spare2) /\ chain_ok used2 h2 spare2 rows /\
              0 < block_count_ s2 /\ header_size s <= get_remain_size h2).
  { intros n s' used h spare Hks Hbl' Hc' Hn' Hh'. pose proof (Hfull used h spare Hc') as Hf.
    destruct (attempt_full n row s' used h spare rows) as (s2 & u2 & h2 & sp2 & E & Hs2 & Hbl2 & Hc2 & Hn2 & Hf2 & Hsz2);
      [done | done | done | done | rewrite (ks_reserved s s' Hks); lia |].
    exists s2, u2, h2, sp2. conjs; [done | by eapply keeps_trans | done | done | done |].
    rewrite (fresh_remain h2 Hf2). assert (BIG_BLOCK_SIZE > NORMAL_BLOCK_SIZE) by done.
    destruct (is_fresh_block h); lia. }
  rewrite E1 in Hh.
  destruct (Hstep 2%nat s1 u1 h1 sp1) as (s2 & u2 & h2 & sp2 & -> & Hs2 & Hbl2 & Hc2 & Hn2 & Hh2); [done.. |].
  destruct (Hstep 1%nat s2 u2 h2 sp2) as (s3 & u3 & h3 & sp3 & -> & Hs3 & Hbl3 & Hc3 & Hn3 & Hh3); [done.. |].
  destruct (Hstep 0%nat s3 u3 h3 sp3) as (s4 & u4 & h4 & sp4 & -> & Hs4 & Hbl4 & Hc4 & Hn4 & Hh4); [done.. |].
  exists s4. conjs; [done | done |]. destruct Hs4 as [R1 R2 R3 _ _ _ _], Hok as [_ ? ? ?].
  split; [by rewrite Hbl4 | by rewrite R2 | by rewrite R3 | by rewrite R1].
Qed.
End AddSpec.

(** ** The other operations *)

Lemma clear_rows_ok s rows :
  store_ok s rows -> store_ok (clear_rows s) [] /\ cursor_at (clear_rows s) (Some 0%nat).
Proof. intros [_ ? ? ?]. split; [by split | by left]. Qed.

Lemma clear_ok s rows : store_ok s rows -> store_ok (clear s) [] /\ cursor_at (clear s) (Some 0%nat).
Proof. intros [_ ? ? ?]. split; [by split | by left]. Qed.

Lemma reuse_ok s rows : store_ok s rows -> store_ok (reuse s) [] /\ cursor_at (reuse s) (Some 0%nat).
Proof.
  intros Hok. destruct (store_content s rows Hok) as [Hb _]. destruct Hok as [Hc ? ? ?].
  split; [| by left]. split; [| done | done | done].
  unfold reuse; cbn. destruct (all_blocks s) as [| b bs] eqn:E.
  - unfold all_blocks in E. destruct (block_list s) as [[[used h] spare] |]; [| by split; [| apply Hc]].
    by destruct used.
  - assert (Hn : 0 < block_count_ s).
    { unfold all_blocks in E. destruct (block_list s) as [[[used h] spare] |]; [apply Hc | done]. }
    split; [| done]. apply Forall_cons in Hb as [Hb Hbs]. split.
    + constructor; [by apply emptied_block_ok |]. apply Forall_map. eapply Forall_impl; [exact Hbs |].
      intros x Hx. by apply emptied_block_ok.
    + done.
    + apply Forall_map. eapply Forall_impl; [exact Hbs |]. done.
    + cbn. by destruct (data_ b).
Qed.

Lemma reset_iterator_ok s rows :
  store_ok s rows -> store_ok (reset_iterator s) rows /\ cursor_at (reset_iterator s) (Some 0%nat).
Proof. intros Hok. split; [by apply store_ok_iter | by left]. Qed.

(** [is_empty] tells whether there is a row. *)
Lemma is_empty_ok s rows : store_ok s rows -> is_empty s = Some (bool_decide (rows = [])).
Proof.
  intros [Hc _ _ _]. unfold is_empty, all_blocks. destruct (block_list s) as [[[used h] spare] |].
  - destruct Hc as [[Hb Hu _ Hr] Hn]. destruct (Z.eqb_spec (block_count_ s) 0); [lia |].
    destruct used as [| b used]; cbn [app].
    + apply Forall_app in Hb as [_ [Hb _]%Forall_cons]. cbn in Hr. f_equal.
      destruct (Z.eqb_spec (curr_data_pos_ h) 0) as [E | E]; symmetry.
      * apply bool_decide_eq_true. rewrite (proj1 (fresh_data h Hb) E) in Hr. by apply map_some_nil in Hr.
      * apply bool_decide_eq_false. intros ->. apply E, (fresh_data h Hb). by destruct (data_ h).
    + apply Forall_cons in Hb as [Hb _]. apply Forall_cons in Hu as [Hu _]. f_equal.
      rewrite (proj2 (Z.eqb_neq _ _) Hu). symmetry. apply bool_decide_eq_false. intros ->.
      apply Hu, (fresh_data b Hb). cbn in Hr. by destruct (data_ b).
  - destruct Hc as [-> Hn]. by rewrite Hn.
Qed.

Lemma data_before_prefix pos l : data_before pos l `prefix_of` l.
Proof.
  revert pos. induction l as [| r l IH]; intros pos; [done |]. cbn. destruct (0 <? pos); [| apply prefix_nil].
  by apply prefix_cons.
Qed.

(** Taking the last row back; an iterator that has not passed it stays where it
    is. *)
Lemma rollback_ok s rows x :
  store_ok s (rows ++ [x]) -> undoable s rows ->
  exists s', rollback_last_row s = Some (OB_SUCCESS, s') /\ store_ok s' rows /\ rollback_iter_pos_ s' = -1 /\
    reserved_columns_ s' = reserved_columns_ s /\
    forall k, (default 0 k <= length rows)%nat -> cursor_at s k -> cursor_at s' k.
Proof.
  intros Hok (used & h & h2 & spare & Hbl & Hc & Hblock & Hpos & Hback). unfold rollback_last_row.
  destruct (Z.ltb_spec (rollback_iter_pos_ s) 0); [lia |].
  assert (Hall : all_blocks s = used ++ h2 :: spare) by (unfold all_blocks; by rewrite Hbl).
  rewrite Hblock, bind_some, Hall, list_lookup_middle, bind_some by done.
  rewrite take_app_length, drop_app_ge by lia. replace (S (length used) - length used)%nat with 1%nat by lia.
  cbn [drop]. rewrite Hback. eexists. conjs; [reflexivity | | done | done |].
  - destruct Hok as [Hch ? ? ?]. rewrite Hbl in Hch. split; [split; [done | apply Hch] | done | done | done].
  - intros [k |]; [| done]. cbn [default from_option id]. intros Hk.
    intros [? | (Hg & bs1 & b & bs2 & l1 & l2 & Hb & Hd & Hl & Hj & Hp & ->)]; [by left | right]. split; [done |].
    destruct (stands_before s bs1 l1 (used ++ [h2]) spare) as (b' & bs2' & l2' & E & Hd');
      [by rewrite Hall, <- app_assoc | | done | by exists b, bs2, l2 |].
    { destruct Hc as [Hbs _ Hsp _]. apply fresh_no_data; [| done]. by apply Forall_app in Hbs as [_ [_ ?]%Forall_cons]. }
    destruct bs2' as [| y bs2' _] using rev_ind.
    + apply app_inj_tail in E as [<- <-]. exists used, h, spare, l1.
      assert (Hpre : data_ h `prefix_of` data_ h2) by (rewrite <- Hback; apply data_before_prefix).
      assert (Hn : (length (concat (map data_ used)) + length (data_ h) = length rows)%nat).
      { rewrite <- length_app, <- (length_map compact_row), (co_rows used h spare rows Hc). by rewrite length_map. }
      destruct Hpre as [m Hm]. rewrite Hd' in Hm. symmetry in Hm.
      apply app_eq_inv in Hm as [(z & E1 & E2) | (z & E1 & E2)].
      * by exists z.
      * destruct z as [| ? z]; [rewrite app_nil_r in E1; exists []; rewrite app_nil_r; by subst |].
        exfalso. apply (f_equal length) in E1. rewrite length_app in E1. cbn in E1. lia.
    + rewrite app_comm_cons, app_assoc in E. apply app_inj_tail in E as [-> <-].
      exists bs1, b', (bs2' ++ h :: spare), l1, l2'. conjs; try done. unfold all_blocks; cbn. by rewrite <- app_assoc.
Qed.
