(* ===== verification/RowStoreSpec.v ===== *)
(** * The row store as a list of rows

    What [ObRowStore] promises its users, as a machine over the list of the rows
    that have been added and a cursor, and the theorem that any sequence of
    operations on the store ([ObRowStore]) gets the replies of that machine. *)

From S2P Require Import Prelude ObObject ObRowDesc ObRow ObBuffer ObCompactCell ObRowUtil ObRowStore.
Local Open Scope Z_scope.

(** ** The operations and their replies *)

Inductive store_op :=
  | SetBlockSize (block_size : Z)
  | AddReservedColumn (tid cid : Z)
  | AddRow (row : ObRow)
  | GetNextRow (target : ObRow)
  | ResetIterator
  | RollbackLastRow
  | ClearRows
  | Clear
  | Reuse
  | IsEmpty.

(** A code, a row with its cells, or the answer of [is_empty]. *)
Inductive reply :=
  | Done
  | Code (ret : Z)
  | Cells (cells : list ObObj)
  | Answer (b : bool).

(** Two replies that a user cannot tell apart. *)
Definition reply_matches (r1 r2 : reply) : Prop :=
  match r1, r2 with
  | Cells c1, Cells c2 => Forall2 same_cell c1 c2
  | _, _ => r1 = r2
  end.

Section Run.
Context (malloc : Z -> bool).

Definition store_step (op : store_op) (s : ObRowStore) : option (reply * ObRowStore) :=
  match op with
  | SetBlockSize size => Some (Done, set_block_size s size)
  | AddReservedColumn tid cid => let '(ret, s) := add_reserved_column s tid cid in Some (Code ret, s)
  | AddRow row => '(ret, _, s) ← store_add_row malloc None row s ; Some (Code ret, s)
  | GetNextRow target =>
      '(ret, row, s) ← store_get_next_row s target ;
      Some (if ret =? OB_SUCCESS then Cells (row_cells row) else Code ret, s)
  | ResetIterator => Some (Done, reset_iterator s)
  | RollbackLastRow => '(ret, s) ← rollback_last_row s ; Some (Code ret, s)
  | ClearRows => Some (Done, clear_rows s)
  | Clear => Some (Done, clear s)
  | Reuse => Some (Done, reuse s)
  | IsEmpty => b ← is_empty s ; Some (Answer b, s)
  end.

Fixpoint run_store (ops : list store_op) (s : ObRowStore) : option (list reply * ObRowStore) :=
  match ops with
  | [] => Some ([], s)
  | op :: ops' =>
      '(r, s) ← store_step op s ;
      '(rs, s) ← run_store ops' s ;
      Some (r :: rs, s)
  end.
End Run.

(** ** The machine *)

(** [ls_undo]: whether the last row can be taken back; after a row that was too
    big nothing is promised. *)
Record list_store := mkLS {
  ls_columns : list (Z * Z);
  ls_rows : list ObRow;
  ls_cursor : option nat;
  ls_undo : option bool
}.

Definition list_store_new : list_store := mkLS [] [] (Some 0%nat) (Some false).

(** A big block holds the row. *)
Definition row_fits (columns : list (Z * Z)) (row : ObRow) : bool :=
  get_reserved_cells_size (Z.of_nat (length columns)) + Z.of_nat (length (row_bytes row))
    <=? BIG_BLOCK_SIZE - SIZEOF_BLOCK_INFO.

Definition list_step (op : store_op) (a : list_store) : reply * list_store :=
  match op with
  | SetBlockSize _ => (Done, a)
  | AddReservedColumn tid cid =>
      (Code OB_SUCCESS, mkLS (ls_columns a ++ [(tid, cid)]) (ls_rows a) (ls_cursor a) (ls_undo a))
  | AddRow row =>
      if row_fits (ls_columns a) row
      then (Code OB_SUCCESS, mkLS (ls_columns a) (ls_rows a ++ [row]) (ls_cursor a) (Some true))
      else (Code OB_ERR_UNEXPECTED, mkLS (ls_columns a) (ls_rows a) (ls_cursor a) None)
  | GetNextRow _ =>
      match k ← ls_cursor a ; (fun row => (k, row)) <$> ls_rows a !! k with
      | Some (k, row) => (Cells (row_cells row), mkLS (ls_columns a) (ls_rows a) (Some (S k)) (ls_undo a))
      | None => (Code OB_ITER_END, mkLS (ls_columns a) (ls_rows a) None (ls_undo a))
      end
  | ResetIterator => (Done, mkLS (ls_columns a) (ls_rows a) (Some 0%nat) (ls_undo a))
  | RollbackLastRow =>
      match ls_undo a with
      | Some true => (Code OB_SUCCESS, mkLS (ls_columns a) (removelast (ls_rows a)) (ls_cursor a) (Some false))
      | _ => (Code OB_NOT_SUPPORTED, a)
      end
  | ClearRows => (Done, mkLS (ls_columns a) [] (Some 0%nat) (Some false))
  | Clear | Reuse => (Done, mkLS [] [] (Some 0%nat) (Some false))
  | IsEmpty => (Answer (bool_decide (ls_rows a = [])), a)
  end.

Fixpoint run_list (ops : list store_op) (a : list_store) : list reply :=
  match ops with
  | [] => []
  | op :: ops' => let '(r, a) := list_step op a in r :: run_list ops' a
  end.

(** What a user has to see to: rows the format keeps, a target with the columns
    of the row to be read, a rollback only behind the iterator and not after a
    row that was too big, a bounded number of reserved columns, blocks of a size
    between the two the store knows. *)
Definition permitted (op : store_op) (a : list_store) : Prop :=
  match op with
  | SetBlockSize size => NORMAL_BLOCK_SIZE <= size <= BIG_BLOCK_SIZE
  | AddReservedColumn _ _ => SIZEOF_OBJ * (Z.of_nat (length (ls_columns a)) + 1) <= 32 * 1024
  | AddRow row => keepable row
  | GetNextRow target =>
      row_wf target /\ row_desc_ target <> None /\
      forall k row, ls_cursor a = Some k -> ls_rows a !! k = Some row -> row_column_num target = row_column_num row
  | RollbackLastRow => (default 0 (ls_cursor a) < length (ls_rows a))%nat /\ ls_undo a <> None \/ ls_undo a = Some false
  | _ => True
  end.

Fixpoint all_permitted (ops : list store_op) (a : list_store) : Prop :=
  match ops with
  | [] => True
  | op :: ops' => permitted op a /\ all_permitted ops' (list_step op a).2
  end.

(** ** The refinement *)

Record refines (s : ObRowStore) (a : list_store) : Prop := {
  rf_ok : store_ok s (map row_bytes (ls_rows a));
  rf_keepable : Forall keepable (ls_rows a);
  rf_columns : reserved_columns_ s = ls_columns a;
  rf_cursor : cursor_at s (ls_cursor a);
  rf_undo : match ls_undo a with
            | Some true => exists rows row, ls_rows a = rows ++ [row] /\ undoable s (map row_bytes rows)
            | Some false => rollback_iter_pos_ s < 0
            | None => True
            end
}.

Lemma refines_new : refines ObRowStore_new list_store_new.
Proof. split; [| done | done | by left | done]. by split. Qed.

(** A change of the iterator leaves the rest. *)
Lemma refines_iter s a j pos got k :
  refines s a -> cursor_at (with_iter s j pos got) k ->
  refines (with_iter s j pos got) (mkLS (ls_columns a) (ls_rows a) k (ls_undo a)).
Proof. intros [Hok Hk Hc _ Hu] Hcur. split; [by apply store_ok_iter | done | done | done | exact Hu]. Qed.

Lemma convert_kept row target :
  keepable row -> row_wf target -> row_desc_ target <> None -> row_column_num target = row_column_num row ->
  exists target', convert_from_compact (row_bytes row) target = Some (OB_SUCCESS, target') /\
    row_wf target' /\ row_desc_ target' = row_desc_ target /\ Forall2 same_cell (row_cells target') (row_cells row).
Proof.
  intros [Hw Hd Hs _] Ht Htd Hn. destruct (row_desc_ row) as [d |] eqn:Ed; [| done].
  by apply (convert_from_encoded row d target).
Qed.

(** [get_next_row] gives the row under the cursor. *)
Lemma store_get_next_row_ok s rows k target :
  store_ok s (map row_bytes rows) -> cursor_at s k ->
  match k ← k ; (fun row => (k, row)) <$> rows !! k with
  | Some (k', row) =>
      keepable row -> row_wf target -> row_desc_ target <> None -> row_column_num target = row_column_num row ->
      exists target' j pos got, store_get_next_row s target = Some (OB_SUCCESS, target', with_iter s j pos got) /\
        row_wf target' /\ row_desc_ target' = row_desc_ target /\ Forall2 same_cell (row_cells target') (row_cells row) /\
        cursor_at (with_iter s j pos got) (Some (S k'))
  | None => exists j pos got, store_get_next_row s target = Some (OB_ITER_END, target, with_iter s j pos got) /\
      cursor_at (with_iter s j pos got) None
  end.
Proof.
  intros Hok Hcur. unfold store_get_next_row. destruct k as [k |]; cbn [mbind option_bind].
  - destruct (next_stored_spec s _ k Hok Hcur) as (s' & E & _ & (j & pos & got & ->) & Hcur').
    change (map row_bytes rows) with (row_bytes <$> rows) in E, Hcur'.
    rewrite E, list_lookup_fmap in *. destruct (rows !! k) as [row |]; cbn [fmap option_fmap option_map] in *.
    + rewrite bind_some. intros Hk Ht Htd Hn. destruct (convert_kept row target Hk Ht Htd Hn) as (t' & -> & ? & ? & ?).
      rewrite bind_some. by exists t', j, pos, got.
    + by exists j, pos, got.
  - rewrite (next_stored_end s Hcur), bind_some.
    exists (cur_iter_block_ s), (cur_iter_pos_ s), (got_first_next_ s). by destruct s.
Qed.

Section Refinement.
Context (malloc : Z -> bool) (malloc_ok : forall size, malloc size = true).

Lemma add_row_refines s a row :
  refines s a -> keepable row ->
  exists s', store_step malloc (AddRow row) s = Some ((list_step (AddRow row) a).1, s') /\
    refines s' (list_step (AddRow row) a).2.
Proof.
  intros [Hok Hks Hc Hcur Hu] Hk. cbn [store_step list_step]. unfold row_fits. rewrite <- Hc.
  destruct (Z.leb_spec (header_size s + Z.of_nat (length (row_bytes row))) (BIG_BLOCK_SIZE - SIZEOF_BLOCK_INFO)) as [Hle | Hgt].
  - destruct (store_add_row_ok malloc malloc_ok s _ row Hok Hk Hle) as (stored & s' & -> & _ & Hg).
    exists s'. split; [done |]. pose proof (gr_keeps _ _ _ _ Hg) as Hkeep. split; cbn.
    + rewrite map_app. by apply (grown_ok s).
    + apply Forall_app. by split; [| constructor].
    + apply (ks_reserved s s' Hkeep).
    + by apply (keeps_cursor s).
    + exists (ls_rows a), row. split; [done |]. apply Hg.
  - destruct (store_add_row_too_big malloc malloc_ok s _ row Hok Hk) as (s' & -> & Hkeep & Hok'); [lia |].
    exists s'. split; [done |]. split; cbn; [done | done | apply (ks_reserved s s' Hkeep) | by apply (keeps_cursor s) | done].
Qed.

Lemma rollback_refines s a :
  refines s a -> permitted RollbackLastRow a ->
  exists s', store_step malloc RollbackLastRow s = Some ((list_step RollbackLastRow a).1, s') /\
    refines s' (list_step RollbackLastRow a).2.
Proof.
  intros Hr Hp. pose proof Hr as [Hok Hks Hc Hcur Hu]. cbn [store_step list_step].
  destruct (ls_undo a) as [[|] |] eqn:Eu.
  - destruct Hu as (rows & row & Erows & Hundo). rewrite Erows in *. rewrite map_app in Hok.
    destruct (rollback_ok s (map row_bytes rows) (row_bytes row) Hok Hundo) as (s' & -> & Hok' & Hpos & Hres & Hcur').
    rewrite bind_some, removelast_last. exists s'. split; [done |]. cbn in Hp.
    rewrite Erows, length_app in Hp. cbn [length] in Hp. split; cbn; [done | | | | lia].
    + by apply Forall_app in Hks as [? _].
    + congruence.
    + apply Hcur'; [| done]. rewrite length_map. destruct Hp as [? | ?]; [lia | congruence].
  - unfold rollback_last_row. rewrite (proj2 (Z.ltb_lt _ _) Hu). by exists s.
  - cbn in Hp. rewrite Eu in Hp. by destruct Hp as [[_ ?] | ?].
Qed.

Lemma get_next_row_refines s a target :
  refines s a -> permitted (GetNextRow target) a ->
  exists r s', store_step malloc (GetNextRow target) s = Some (r, s') /\
    reply_matches r (list_step (GetNextRow target) a).1 /\ refines s' (list_step (GetNextRow target) a).2.
Proof.
  intros Hr (Ht & Htd & Hn). pose proof (store_get_next_row_ok s (ls_rows a) (ls_cursor a) target (rf_ok s a Hr) (rf_cursor s a Hr)) as H.
  cbn [store_step list_step].
  destruct (ls_cursor a) as [k |] eqn:Ek; cbn [mbind option_bind] in *; [destruct (ls_rows a !! k) as [row |] eqn:Erow |];
    cbn [fmap option_fmap option_map] in *.
  - destruct H as (t' & j & pos & got & -> & _ & _ & Hs & Hcur);
      [by eapply Forall_lookup_1; [apply (rf_keepable s a Hr) |] | done | done | by apply (Hn k) |].
    eexists _, _. split; [done |]. split; [done |]. by apply refines_iter.
  - destruct H as (j & pos & got & -> & Hcur). eexists _, _. split; [done |]. split; [done |]. by apply refines_iter.
  - destruct H as (j & pos & got & -> & Hcur). eexists _, _. split; [done |]. split; [done |]. by apply refines_iter.
Qed.

Lemma step_refines op s a :
  refines s a -> permitted op a ->
  exists r s', store_step malloc op s = Some (r, s') /\ reply_matches r (list_step op a).1 /\
    refines s' (list_step op a).2.
Proof.
  intros Hr Hp. pose proof Hr as [Hok Hks Hc Hcur Hu]. destruct op.
  - eexists _, _. split; [done |]. split; [done |]. split; [| done | done | done | exact Hu].
    destruct Hok as [? ? ? ?]. by split.
  - eexists _, _. split; [done |]. split; [done |]. split; cbn; [| done | by rewrite Hc | done | exact Hu].
    destruct Hok as [? ? ? ?]. split; [done | done | done |]. cbn in Hp |- *. rewrite length_app, Hc. cbn [length]. lia.
  - destruct (add_row_refines s a row Hr Hp) as (s' & E & Hr'). eexists _, _. split; [exact E |].
    split; [| done]. cbn [list_step]. by destruct (row_fits _ _).
  - by apply get_next_row_refines.
  - eexists _, _. split; [done |]. split; [done |]. by apply refines_iter; [| apply (reset_iterator_ok s _ Hok)].
  - destruct (rollback_refines s a Hr Hp) as (s' & E & Hr'). eexists _, _. split; [exact E |].
    split; [| done]. cbn [list_step]. by destruct (ls_undo a) as [[|] |].
  - eexists _, _. split; [done |]. split; [done |]. destruct (clear_rows_ok s _ Hok). by split.
  - eexists _, _. split; [done |]. split; [done |]. destruct (clear_ok s _ Hok). by split.
  - eexists _, _. split; [done |]. split; [done |]. destruct (reuse_ok s _ Hok). by split.
  - cbn [store_step list_step]. rewrite (is_empty_ok s _ Hok), bind_some. eexists _, _. split; [done |].
    split; [| done]. cbn. f_equal. apply bool_decide_ext. by destruct (ls_rows a).
Qed.

Lemma run_refines ops s a :
  refines s a -> all_permitted ops a ->
  exists rs s', run_store malloc ops s = Some (rs, s') /\ Forall2 reply_matches rs (run_list ops a).
Proof.
  revert s a. induction ops as [| op ops IH]; intros s a Hr Hp; [by eexists _, _ |].
  destruct Hp as [Hp Hps]. destruct (step_refines op s a Hr Hp) as (r & s1 & E & Hm & Hr1).
  destruct (IH s1 _ Hr1 Hps) as (rs & s2 & E2 & Hms). exists (r :: rs), s2. cbn [run_store run_list].
  rewrite E, bind_some, E2, bind_some. split; [done |]. destruct (list_step op a) as [r' a']. by constructor.
Qed.
End Refinement.

(** ** Theorem *)

(** C16: any sequence of permitted operations on a new row store, the memory
    being there, gets the replies of the list machine: rows come back in the
    order they were added, each cell as it was, from wherever the iterator
    stands, also when rows are added while it runs; the last row can be taken
    back once; clearing and reusing empty the store; [is_empty] tells so; and a
    row that no block can hold is refused and leaves the rows as they were.
    Permitted are rows of storable cells without the marks of the compact format
    and without a rowkey, targets with the columns of the row read, rollbacks of a
    row the iterator has not passed and not after a refused row, 32 KB of reserved
    columns, and block sizes between the normal and the big one. *)
Theorem row_store_refines_list (malloc : Z -> bool) (ops : list store_op)
    (Hmalloc : forall size, malloc size = true) (Hops : all_permitted ops list_store_new) :
  exists replies s, run_store malloc ops ObRowStore_new = Some (replies, s) /\
    Forall2 reply_matches replies (run_list ops list_store_new).
Proof. apply run_refines; [done | apply refines_new | done]. Qed.

Lemma example_row_keepable : keepable example_row.
Proof.
  split; [apply example_row_wf | by rewrite example_row_desc | apply example_row_storable |].
  unfold no_extend. replace (row_cells example_row)
    with [set_int ObObj_new (-300) true; set_varchar ObObj_new [104; 105]] by (vm_compute; reflexivity).
  by repeat constructor.
Qed.

(** Two rows, one read, the second taken back and a third put in its place. *)
Definition example_ops (row : ObRow) : list store_op :=
  [SetBlockSize BIG_BLOCK_SIZE; IsEmpty; AddRow row; AddRow row; GetNextRow row; RollbackLastRow; RollbackLastRow;
   AddRow row; GetNextRow row; GetNextRow row; Reuse; IsEmpty].

Lemma list_step_add row a :
  row_fits (ls_columns a) row = true ->
  list_step (AddRow row) a = (Code OB_SUCCESS, mkLS (ls_columns a) (ls_rows a ++ [row]) (ls_cursor a) (Some true)).
Proof. intros H. cbn [list_step]. by rewrite H. Qed.

Lemma permitted_cons op ops a r a' :
  permitted op a -> list_step op a = (r, a') -> all_permitted ops a' -> all_permitted (op :: ops) a.
Proof. intros Hp E Hops. cbn [all_permitted]. by rewrite E. Qed.

Lemma run_list_cons op ops a r a' rs :
  list_step op a = (r, a') -> run_list ops a' = rs -> run_list (op :: ops) a = r :: rs.
Proof. intros E <-. cbn [run_list]. by rewrite E. Qed.

Lemma example_ops_permitted row :
  row_fits [] row = true -> keepable row -> all_permitted (example_ops row) list_store_new.
Proof.
  intros Hfit Hk. pose proof (kp_wf row Hk) as Hw. pose proof (kp_desc row Hk) as Hd. unfold example_ops.
  eapply permitted_cons; [by vm_compute | reflexivity |].
  eapply permitted_cons; [exact I | reflexivity |].
  eapply permitted_cons; [exact Hk | by apply list_step_add |].
  eapply permitted_cons; [exact Hk | by apply list_step_add |].
  eapply permitted_cons; [| reflexivity |]; [cbn [permitted]; conjs; [done | done | by intros k r [= <-] [= <-]] |].
  eapply permitted_cons; [left; cbn; split; [lia | done] | reflexivity |].
  eapply permitted_cons; [by right | reflexivity |].
  eapply permitted_cons; [exact Hk | by apply list_step_add |].
  eapply permitted_cons; [| reflexivity |]; [cbn [permitted]; conjs; [done | done | by intros k r [= <-] [= <-]] |].
  eapply permitted_cons; [| reflexivity |]; [cbn [permitted]; conjs; [done | done | by intros k r [= <-] [=]] |].
  eapply permitted_cons; [exact I | reflexivity |].
  by eapply permitted_cons; [exact I | reflexivity |].
Qed.

Lemma example_ops_replies row :
  row_fits [] row = true ->
  run_list (example_ops row) list_store_new =
    [Done; Answer true; Code OB_SUCCESS; Code OB_SUCCESS; Cells (row_cells row); Code OB_SUCCESS;
     Code OB_NOT_SUPPORTED; Code OB_SUCCESS; Cells (row_cells row); Code OB_ITER_END; Done; Answer true].
Proof.
  intros Hfit. unfold example_ops.
  repeat (eapply run_list_cons; [first [apply list_step_add; exact Hfit | reflexivity] |]). done.
Qed.

Lemma example_row_fits : row_fits [] example_row = true.
Proof. vm_compute. reflexivity. Qed.

Lemma row_store_refines_list_witness :
  exists replies s, run_store (fun _ => true) (example_ops example_row) ObRowStore_new = Some (replies, s) /\
    Forall2 reply_matches replies
      [Done; Answer true; Code OB_SUCCESS; Code OB_SUCCESS; Cells (row_cells example_row); Code OB_SUCCESS;
       Code OB_NOT_SUPPORTED; Code OB_SUCCESS; Cells (row_cells example_row); Code OB_ITER_END; Done; Answer true].
Proof.
  destruct (row_store_refines_list (fun _ => true) (example_ops example_row) (fun _ => eq_refl)
              (example_ops_permitted example_row example_row_fits example_row_keepable)) as (rs & s & E & H).
  rewrite (example_ops_replies example_row example_row_fits) in H. exists rs, s. exact (conj E H).
Defined.

(** ** A row that fails half way *)

(** A row of one column whose cell is the NOP flag, which only an [ObUpsRow] may
    have. *)
Definition nop_row : ObRow :=
  (raw_set_cell (row_of_desc (rowdesc_of [mkDesc 1 16])) 0 (set_ext ObObj_new OP_NOP)).2.

(** when writing a row fails with another code than a full block, the header
    of the row stays in the block: the store was empty and is not any more, and
    the next read takes the header for a row, of a size that was never
    written. *)
Theorem failed_add_stays_behind :
  match store_add_row (fun _ => true) None nop_row ObRowStore_new with
  | Some (ret, stored, s) =>
      ret = OB_NOT_SUPPORTED /\ stored = None /\ is_empty s = Some false /\ store_get_next_row s nop_row = None
  | None => False
  end.
Proof. vm_compute. done. Qed.
