(* ===== verification/PhyOperator.v ===== *)
(** * Physical operators: the interface and what the merge operators share

    [src/oceanbase/src/sql/ob_phy_operator.h]: a query is a tree of operators,
    each pulling rows from its children with [get_next_row].  The row comparison
    is [compare] of [ob_merge_union.cpp], which [ob_merge_intersect.cpp] and
    [ob_merge_except.cpp] repeat line by line, and the saved row is
    [ObRowUtil::convert] with an output row ([common/ob_row_util.cpp]).

    A row a child hands out is an object of the child, valid until the next call
    on that child.  The model passes its content by value; [ObMergeUnion] also
    writes to it, through a [const_cast], and the interface has an operation for
    that write.  The loops of the operators over their children's rows take a
    bound [fuel]; a result [None] means that the bound was reached or that the
    code has no defined behaviour.  The theorems give results for every large
    enough bound. *)

From S2P Require Import Prelude ObObject ObExprObj ObBuffer ObRowDesc ObRow ObCompactCell ObRowUtil.
Local Open Scope Z_scope.

(** ** The interface *)

Class ObPhyOperator (St : Type) := {
  op_open : nat -> St -> option (Z * St);
  op_close : St -> option (Z * St);
  op_get_next_row : nat -> St -> option (Z * option ObRow * St);
  op_get_row_desc : St -> Z * option ObRowDesc;
  (** The caller sets the description of the row object it was last handed. *)
  op_row_set_desc : St -> ObRowDesc -> St
}.

Section Runs.
Context {St : Type} `{!ObPhyOperator St}.

(** The calls return, whatever the bound, once it is large enough. *)
Definition opens (s s' : St) : Prop := settles (fun m => op_open m s) (OB_SUCCESS, s').

Definition next (s : St) (ret : Z) (row : option ObRow) (s' : St) : Prop :=
  settles (fun m => op_get_next_row m s) (ret, row, s').

(** The row handed out is an object of the child: its state is a function of
    the row, and a description written to the row is written there. *)
Definition lends (s : St) (row : ObRow) : Prop :=
  exists put, s = put row /\ forall r d, op_row_set_desc (put r) d = put (set_row_desc r d).

(** Calling [get_next_row] from [s] gives the rows and then the code. *)
Inductive runs : St -> list ObRow -> Z -> Prop :=
| runs_stop s ret row s' : ret <> OB_SUCCESS -> next s ret row s' -> runs s [] ret
| runs_row s row s' rows ret :
    next s OB_SUCCESS (Some row) s' -> lends s' row -> runs s' rows ret -> runs s (row :: rows) ret.

Lemma runs_code s rows ret : runs s rows ret -> ret <> OB_SUCCESS.
Proof. by induction 1. Qed.

Lemma runs_first s1 s2 rows ret :
  (forall r row s', next s1 r row s' -> next s2 r row s') -> runs s1 rows ret -> runs s2 rows ret.
Proof. intros H. inversion 1; subst; econstructor; eauto. Qed.

(** What an operator promises its parent: once opened it has the description,
    and it gives rows of that description and then the code. *)
Definition gives (s : St) (d : ObRowDesc) (rows : list ObRow) (ret : Z) : Prop :=
  exists s', opens s s' /\ op_get_row_desc s' = (OB_SUCCESS, Some d) /\
    Forall (fun r => set_row_desc r d = r) rows /\ runs s' rows ret.
End Runs.

(** ** Operators that stay at their end

    After the last row of its left child an outer join calls it again for every
    right row that is left. *)
Section RunsOn.
Context {St : Type} `{!ObPhyOperator St}.

Fixpoint ended (n : nat) (s : St) : Prop :=
  exists row s', next s OB_ITER_END row s' /\ match n with O => True | S n' => ended n' s' end.

Inductive runs_on : St -> list ObRow -> Prop :=
| runs_on_end s : (forall n, ended n s) -> runs_on s []
| runs_on_row s row s' rows :
    next s OB_SUCCESS (Some row) s' -> lends s' row -> runs_on s' rows -> runs_on s (row :: rows).

Lemma settles_unique {A} (f : nat -> option A) x y : settles f x -> settles f y -> x = y.
Proof. intros [n Hn] [m Hm]. specialize (Hn (n `max` m)%nat ltac:(lia)). specialize (Hm (n `max` m)%nat ltac:(lia)). congruence. Qed.

Lemma runs_on_stop s : runs_on s [] -> exists row s', next s OB_ITER_END row s' /\ runs_on s' [].
Proof.
  inversion 1 as [? He |]; subst. destruct (He 0%nat) as (row & s' & Hn & _). exists row, s'. split; [done |].
  constructor. intros n. destruct (He (S n)) as (row2 & s2 & Hn2 & He2).
  by injection (settles_unique _ _ _ Hn Hn2) as -> ->.
Qed.

Lemma runs_on_runs s rows : runs_on s rows -> runs s rows OB_ITER_END.
Proof.
  induction 1 as [s He | s row s' rows Hn Hl _ IH]; [| by eapply runs_row].
  destruct (He 0%nat) as (row & s' & Hn & _). by eapply runs_stop.
Qed.

(** A child that keeps giving [OB_ITER_END] after its last row. *)
Definition gives_on (s : St) (d : ObRowDesc) (rows : list ObRow) : Prop :=
  exists s', opens s s' /\ op_get_row_desc s' = (OB_SUCCESS, Some d) /\ runs_on s' rows.
End RunsOn.

(** ** A child that gives stored rows

    The leaf used in the examples.  Like the scans, it hands out one row object,
    filled with the next cells on each call: a description written to it and not
    put back stays. *)
Record ListScan := mkScan {
  scan_desc : ObRowDesc; scan_row : ObRow; scan_all : list ObRow; scan_rest : list ObRow; scan_end : Z
}.

#[export] Instance ListScan_operator : ObPhyOperator ListScan := {
  op_open := fun _ s =>
    Some (OB_SUCCESS, mkScan (scan_desc s) (row_of_desc (scan_desc s)) (scan_all s) (scan_all s) (scan_end s));
  op_close := fun s => Some (OB_SUCCESS, s);
  op_get_next_row := fun _ s =>
    match scan_rest s with
    | [] => Some (scan_end s, None, s)
    | r :: rest => let row := with_raw (scan_row s) (raw_row_ r) in
        Some (OB_SUCCESS, Some row, mkScan (scan_desc s) row (scan_all s) rest (scan_end s))
    end;
  op_get_row_desc := fun s => (OB_SUCCESS, Some (scan_desc s));
  op_row_set_desc := fun s d =>
    mkScan (scan_desc s) (set_row_desc (scan_row s) d) (scan_all s) (scan_rest s) (scan_end s)
}.

Definition list_scan (d : ObRowDesc) (rows : list ObRow) (ret : Z) : ListScan := mkScan d ObRow_new rows [] ret.

Lemma list_scan_gives d rows ret :
  ret <> OB_SUCCESS -> Forall (fun r => with_raw (row_of_desc d) (raw_row_ r) = r) rows ->
  gives (list_scan d rows ret) d rows ret.
Proof.
  intros Hret Hd. eexists. conjs; [exists 0%nat; intros; reflexivity | done | |].
  - eapply Forall_impl; [exact Hd |]. intros [k raw dr] [= <- <-]. unfold set_row_desc; cbn. by destruct (_ <? _).
  - cbn. generalize rows at 1. intros all.
    assert (H : forall r0, rowkey_ r0 = rowkey_ (row_of_desc d) -> row_desc_ r0 = Some d ->
              runs (mkScan d r0 all rows ret) rows ret); [| by apply H].
    induction Hd as [| r rows Hr _ IH]; intros r0 H1 H2.
    + eapply runs_stop; [done |]. exists 0%nat. intros m _. reflexivity.
    + eapply (runs_row _ _ (mkScan d r all rows ret)).
      * exists 0%nat. intros m _. cbn.
        assert (E : with_raw r0 (raw_row_ r) = r); [| by rewrite E].
        transitivity (with_raw (row_of_desc d) (raw_row_ r)); [unfold with_raw; by rewrite H1, H2 | done].
      * by exists (fun r => mkScan d r all rows ret).
      * apply IH; by rewrite <- Hr.
Qed.

Lemma list_scan_gives_on d rows :
  Forall (fun r => with_raw (row_of_desc d) (raw_row_ r) = r) rows -> gives_on (list_scan d rows OB_ITER_END) d rows.
Proof.
  intros Hd. eexists. conjs; [exists 0%nat; intros; reflexivity | done |]. cbn. generalize rows at 1. intros all.
  assert (H : forall r0, rowkey_ r0 = rowkey_ (row_of_desc d) -> row_desc_ r0 = Some d ->
            runs_on (mkScan d r0 all rows OB_ITER_END) rows); [| by apply H].
  induction Hd as [| r rows Hr _ IH]; intros r0 H1 H2.
  - constructor. intros n. induction n as [| n IH]; cbn [ended]; eexists _, _; (split; [exists 0%nat; intros m _; reflexivity | done]).
  - eapply (runs_on_row _ _ (mkScan d r all rows OB_ITER_END)).
    + exists 0%nat. intros m _. cbn.
      assert (E : with_raw r0 (raw_row_ r) = r); [| by rewrite E].
      transitivity (with_raw (row_of_desc d) (raw_row_ r)); [unfold with_raw; by rewrite H1, H2 | done].
    + by exists (fun r => mkScan d r all rows OB_ITER_END).
    + apply IH; by rewrite <- Hr.
Qed.

(** ** The comparison of rows *)

Section RowCompare.
Context (obj_cast : ObObjType -> ObObjType -> ObExprObj -> option (Z * ObExprObj)).

(** [k] columns are left; [cmp] starts at 0 and is nonzero only when the loop ends. *)
Fixpoint row_compare_loop (k : nat) (row1 row2 : ObRow) (i : Z) : option (Z * Z) :=
  match k with
  | O => Some (OB_SUCCESS, 0)
  | S k' =>
      match raw_get_cell_ids row1 i, raw_get_cell_ids row2 i with
      | (_, Some (cell1, _)), (_, Some (cell2, _)) =>
          e1 ← expr_assign cell1 ;
          e2 ← expr_assign cell2 ;
          '(ret, cmp) ← expr_compare obj_cast e1 e2 ;
          if ret =? OB_SUCCESS then
            if negb (cmp =? 0) then Some (OB_SUCCESS, cmp) else row_compare_loop k' row1 row2 (i + 1)
          else Some (OB_SUCCESS, -1)
      | _, _ => Some (OB_ERR_UNEXPECTED, 0)
      end
  end.

Definition row_compare (row1 row2 : ObRow) : option (Z * Z) :=
  row_compare_loop (Z.to_nat (row_column_num row1)) row1 row2 0.
End RowCompare.

(** ** Saving a row

    [convert(row, compact_row, out_row)]: [out_row] becomes the row, its strings
    the copies in the buffer. *)

Definition OB_ROW_BUF_SIZE : Z := 2 ^ 21 - 512 * 1024.

(** [buf] is the row buffer, [None] when it has not been allocated. *)
Definition save_row (row out : ObRow) (buf : option (list Z)) : option (Z * ObRow) :=
  convert_to_row row out buf OB_ROW_BUF_SIZE.

(** The buffer an operator allocates on [open]. *)
Definition row_buf (allocated : bool) : option (list Z) :=
  if allocated then Some (replicate (Z.to_nat OB_ROW_BUF_SIZE) 0) else None.

Arguments row_compare : simpl never.
Arguments save_row : simpl never.
Arguments row_buf : simpl never.

(** ** What the merge operators need of their rows

    [RowOrder D cmp]: on the rows of [D] the comparison succeeds and is the total
    preorder [cmp], saving a row succeeds and gives a row equal to it, and
    changing the description does not change the row's place in the order. *)

Class RowOrder (obj_cast : ObObjType -> ObObjType -> ObExprObj -> option (Z * ObExprObj))
    (D : ObRow -> Prop) (descs : ObRowDesc -> Prop) (cmp : ObRow -> ObRow -> Z) : Prop := {
  ro_order :: CmpOrder D cmp;
  ro_compare : forall r1 r2, D r1 -> D r2 -> row_compare obj_cast r1 r2 = Some (OB_SUCCESS, cmp r1 r2);
  ro_save : forall r last, D r -> row_wf last ->
    exists last', save_row r last (row_buf true) = Some (OB_SUCCESS, last') /\ D last' /\ cmp last' r = 0;
  ro_desc : forall r d, D r -> descs d -> D (set_row_desc r d) /\ cmp (set_row_desc r d) r = 0;
  ro_wf : forall r, D r -> row_wf r
}.

(** ** Rows of typed, non-null columns *)

Definition typed_cell (k : column_kind * ObObjType) (o : ObObj) : Prop :=
  normal_value k.1 o /\ type_ o = k.2.

Fixpoint cells_compare (l1 l2 : list ObObj) : Z :=
  match l1, l2 with
  | o1 :: l1', o2 :: l2' =>
      let c := default 0 (compare_same_type o1 o2) in if c =? 0 then cells_compare l1' l2' else c
  | _, _ => 0
  end.

Definition rows_compare (r1 r2 : ObRow) : Z := cells_compare (row_cells r1) (row_cells r2).

(** The bytes a row takes when it is saved. *)
Definition cells_size (cells : list ObObj) : Z :=
  foldr (fun o n => Z.of_nat (length (encode_value o)) + 4 + n) 1 cells.

Definition typed_desc (ks : list (column_kind * ObObjType)) (d : ObRowDesc) : Prop :=
  rowdesc_wf d /\ length (columns d) = length ks /\ Forall valid_column_id (map column_id_ (columns d)).

Record typed_row (ks : list (column_kind * ObObjType)) (r : ObRow) : Prop := {
  tr_wf : row_wf r;
  tr_desc : exists d, row_desc_ r = Some d /\ typed_desc ks d;
  tr_cells : Forall2 typed_cell ks (row_cells r);
  tr_storable : Forall storable (row_cells r);
  tr_size : cells_size (row_cells r) <= OB_ROW_BUF_SIZE
}.

Lemma cells_order ks : CmpOrder (Forall2 typed_cell ks) cells_compare.
Proof.
  induction ks as [| k ks IH].
  - apply (cmp_order_key _ _ (fun _ => 0)). intros x y Hx Hy.
    apply Forall2_nil_inv_l in Hx, Hy. by subst.
  - apply (cmp_order_lex _ _
      (fun x y => default 0 (compare_same_type (default ObObj_new (head x)) (default ObObj_new (head y))))
      (fun x y => cells_compare (tail x) (tail y))).
    + apply (cmp_order_preimage _ (normal_value k.1) _ (fun x => default ObObj_new (head x)) (same_type_order k.1)).
      intros x Hx. apply Forall2_cons_inv_l in Hx as (o & x' & [Ho _] & _ & ->). exact Ho.
    + apply (cmp_order_preimage _ (Forall2 typed_cell ks) _ tail IH).
      intros x Hx. apply Forall2_cons_inv_l in Hx as (o & x' & _ & Hx & ->). exact Hx.
    + intros x y Hx Hy. apply Forall2_cons_inv_l in Hx as (o & x' & _ & _ & ->).
      by apply Forall2_cons_inv_l in Hy as (o' & y' & _ & _ & ->).
Qed.

Lemma typed_row_num ks r : typed_row ks r -> row_column_num r = Z.of_nat (length ks).
Proof.
  intros Hr. destruct (tr_desc ks r Hr) as (d & Hd & Hdw & Hl & _). unfold row_column_num. rewrite Hd.
  pose proof (columns_length d Hdw). unfold get_column_num. lia.
Qed.

Lemma typed_row_cell ks r (i : nat) k o :
  typed_row ks r -> row_cells r !! i = Some o -> ks !! i = Some k ->
  typed_cell k o /\ exists ids, raw_get_cell_ids r (Z.of_nat i) = (OB_SUCCESS, Some (o, ids)).
Proof.
  intros Hr Ho Hk. destruct (tr_desc ks r Hr) as (d & Hd & Hdw & Hl & _).
  split; [by eapply Forall2_lookup_lr; [apply Hr | |] |].
  destruct (lookup_lt_is_Some_2 (columns d) i) as [c Hc].
  { apply lookup_lt_Some in Hk. lia. }
  eexists. by apply (raw_get_cell_ids_spec r d i o c (tr_wf ks r Hr)).
Qed.

Lemma row_compare_typed cast ks r1 r2 :
  typed_row ks r1 -> typed_row ks r2 -> row_compare cast r1 r2 = Some (OB_SUCCESS, rows_compare r1 r2).
Proof.
  intros H1 H2. unfold row_compare, rows_compare. rewrite (typed_row_num ks r1 H1), Nat2Z.id.
  pose proof (Forall2_length _ _ _ (tr_cells ks r1 H1)) as L1.
  pose proof (Forall2_length _ _ _ (tr_cells ks r2 H2)) as L2.
  assert (H : forall k i, (i + k = length ks)%nat -> row_compare_loop cast k r1 r2 (Z.of_nat i) =
    Some (OB_SUCCESS, cells_compare (drop i (row_cells r1)) (drop i (row_cells r2)))).
  { induction k as [| k IH]; intros i Hi.
    - cbn [row_compare_loop]. by rewrite drop_ge by lia.
    - destruct (lookup_lt_is_Some_2 (row_cells r1) i) as [o1 Ho1]; [lia |].
      destruct (lookup_lt_is_Some_2 (row_cells r2) i) as [o2 Ho2]; [lia |].
      destruct (lookup_lt_is_Some_2 ks i) as [kt Hkt]; [lia |].
      destruct (typed_row_cell ks r1 i kt o1 H1 Ho1 Hkt) as [[N1 T1] [ids1 E1]].
      destruct (typed_row_cell ks r2 i kt o2 H2 Ho2 Hkt) as [[N2 T2] [ids2 E2]].
      destruct (expr_compare_column cast kt.1 o1 o2) as (e1 & e2 & c & A1 & A2 & C & E);
        [done | done | congruence |].
      cbn [row_compare_loop]. rewrite E1, E2, A1, bind_some, A2, bind_some, E, bind_some.
      change (OB_SUCCESS =? OB_SUCCESS) with true. cbn iota.
      rewrite (drop_S _ _ _ Ho1), (drop_S _ _ _ Ho2). cbn [cells_compare]. rewrite C. cbn [from_option id].
      destruct (c =? 0); cbn [negb]; [| done].
      replace (Z.of_nat i + 1) with (Z.of_nat (S i)) by lia. apply IH. lia. }
  by apply (H (length ks) 0%nat).
Qed.

(** *** Saving a typed row *)

Lemma clone_of_storable o : storable o -> clone_of o = o.
Proof.
  unfold clone_of, storable, type_eqb, get_varchar. destruct o as [t f vs pr sc nw v]; cbn.
  destruct (decide (t = ObVarcharType)) as [-> | Ht]; [| by rewrite bool_decide_eq_false_2].
  rewrite bool_decide_eq_true_2 by done. destruct v; try done. intros [_ ->]. done.
Qed.

Lemma store_cell_wf r i cell : row_wf r -> row_wf (store_cell r i cell).
Proof. intros [H1 H2 H3]. split; cbn; [by rewrite zset_length | done | done]. Qed.

Lemma raw_cell_store r i cell j :
  row_wf r -> 0 <= i < MAX_COLUMNS_COUNT -> 0 <= j ->
  raw_cell (store_cell r i cell) j = if j =? i then cell else raw_cell r j.
Proof.
  intros Hw Hi Hj. unfold raw_cell, store_cell; cbn. pose proof (wf_raw r Hw). unfold MAX_COLUMNS_COUNT in *.
  destruct (Z.eqb_spec j i) as [-> | Hne]; [apply zget_zset_eq; lia | apply zget_zset_ne; lia].
Qed.

Lemma clone_cells_spec k row out d i w w' :
  row_wf row -> row_wf out -> row_desc_ row = Some d -> row_desc_ out = Some d ->
  Forall storable (row_cells row) -> 0 <= i -> i + Z.of_nat k = row_column_num row ->
  append_cells k row i w = Some (OB_SUCCESS, w') ->
  exists out', clone_cells k row out i w = Some (OB_SUCCESS, w', out') /\ row_wf out' /\
    row_desc_ out' = Some d /\
    forall j, 0 <= j < row_column_num row -> raw_cell out' j = if i <=? j then raw_cell row j else raw_cell out j.
Proof.
  intros Hw. revert out i w. induction k as [| k IH]; intros out i w Ho Hd Hdo Hs Hi Hk E.
  - injection E as ->. exists out. conjs; [done | done | done |].
    intros j Hj. destruct (Z.leb_spec i j); [lia | done].
  - cbn [append_cells clone_cells] in *. rewrite (raw_get_cell_ids_at row d i Hw Hd) in E |- * by lia.
    assert (Hno : row_column_num out = row_column_num row) by (unfold row_column_num; by rewrite Hd, Hdo).
    rewrite (raw_get_cell_ids_at out d i Ho Hdo) by lia. unfold andthen in E.
    destruct (append SPARSE (column_id_ (cell_desc d i)) (raw_cell row i) w) as [[ret w1] |] eqn:Ea; [| done].
    cbn [mbind option_bind] in E |- *. destruct (Z.eqb_spec ret OB_SUCCESS) as [-> | Hne]; [| simplify_eq].
    pose proof (row_column_num_range row Hw) as Hr.
    assert (Hst : storable (raw_cell row i)).
    { eapply Forall_lookup_1; [exact Hs |]. rewrite (row_cells_lookup row Hw (Z.to_nat i)).
      rewrite Z2Nat.id by lia. destruct (Z.ltb_spec i (row_column_num row)); [done | lia]. }
    rewrite clone_of_storable by done.
    destruct (IH (store_cell out i (raw_cell row i)) (i + 1) w1) as (out' & -> & Hw' & Hd' & Hc');
      [by apply store_cell_wf | done | done | done | lia | lia | done |].
    exists out'. conjs; [done | done | done |]. intros j Hj. rewrite Hc' by done.
    rewrite raw_cell_store by (try done; lia).
    destruct (Z.leb_spec (i + 1) j), (Z.leb_spec i j), (Z.eqb_spec j i); try lia; congruence || done.
Qed.

Lemma encode_row_size ids cells :
  length ids = length cells -> Z.of_nat (length (encode_row ids cells)) = cells_size cells.
Proof.
  unfold encode_row, cells_size. revert ids. induction cells as [| o cells IH]; intros [| c ids] Hl; try done.
  cbn [zip_with concat foldr length] in *. rewrite <- app_assoc, length_app, Nat2Z.inj_add.
  rewrite IH by lia. unfold encode_cell. rewrite length_app, to_bytes_length. lia.
Qed.

Lemma typed_row_same_cells ks r r' :
  typed_row ks r -> row_wf r' -> (exists d, row_desc_ r' = Some d /\ typed_desc ks d) ->
  row_cells r' = row_cells r -> typed_row ks r' /\ rows_compare r' r = 0.
Proof.
  intros Hr Hw Hd Hc. assert (H' : typed_row ks r') by (split; rewrite ?Hc; try done; apply Hr).
  split; [done |]. unfold rows_compare. rewrite Hc.
  pose proof (cells_order ks) as Ho. apply (cmp_self (Forall2 typed_cell ks) _). apply Hr.
Qed.

Lemma row_cells_eq r1 r2 :
  row_wf r1 -> row_wf r2 -> row_column_num r1 = row_column_num r2 ->
  (forall j, 0 <= j < row_column_num r2 -> raw_cell r1 j = raw_cell r2 j) -> row_cells r1 = row_cells r2.
Proof.
  intros H1 H2 Hn Hc. apply list_eq. intros i. rewrite !row_cells_lookup by done. rewrite Hn.
  destruct (Z.ltb_spec (Z.of_nat i) (row_column_num r2)); [| done]. f_equal. apply Hc. lia.
Qed.

Lemma row_assign_wf r other : row_wf r -> row_wf other -> row_wf (row_assign r other).
Proof.
  intros Hr Ho. split; cbn; [| apply Ho | apply Ho]. unfold raw_row_assign; cbn [cells_].
  rewrite (fold_zset_length (fun _ i => zget ObObj_new (cells_ (raw_row_ other)) i) ObObj_new). apply Hr.
Qed.

Lemma row_buf_allocated : exists buf, row_buf true = Some buf /\ Z.of_nat (length buf) = OB_ROW_BUF_SIZE.
Proof.
  eexists. split; [reflexivity |]. rewrite length_replicate, Z2Nat.id; [done | unfold OB_ROW_BUF_SIZE; lia].
Qed.

Lemma convert_stored_row r d last buf size :
  row_wf r -> row_desc_ r = Some d -> storable_row r -> row_wf last ->
  Z.of_nat (length buf) = size -> cells_size (row_cells r) <= size ->
  exists last', convert_to_row r last (Some buf) size = Some (OB_SUCCESS, last') /\
    row_wf last' /\ row_desc_ last' = row_desc_ r /\ row_cells last' = row_cells r.
Proof.
  intros Hw Hd Hsr Hl Hbuf Hsz.
  destruct (writes_row r d Hw Hd Hsr (mkWriter (Some buf) 0 size) buf)
    as (ret & w & buf' & E & _ & _ & R); [split; cbn; [done | by rewrite Hbuf | lia] |].
  rewrite encode_row_size in R by (by apply (row_ids_length r d)). cbn [w_pos_] in R. rewrite Hbuf in R.
  rewrite (proj2 (Z.leb_le (0 + cells_size (row_cells r)) size)) in R by lia.
  destruct R as (-> & _). unfold andthen in E.
  destruct (append_cells (Z.to_nat (row_column_num r)) r 0 (mkWriter (Some buf) 0 size))
    as [[ret1 w1] |] eqn:E1; [| done].
  rewrite bind_some in E. destruct (Z.eqb_spec ret1 OB_SUCCESS) as [-> | Hne]; [| congruence].
  pose proof (row_num_nonneg r d Hw Hd) as Hnum.
  destruct (clone_cells_spec (Z.to_nat (row_column_num r)) r (row_assign last r) d 0 _ w1 Hw (row_assign_wf last r Hl Hw) Hd Hd
              (proj1 Hsr) ltac:(lia) ltac:(lia) E1) as (out & Eo & Hwo & Hdo & Hco).
  assert (Hcells : row_cells out = row_cells r).
  { apply row_cells_eq; [done | done | unfold row_column_num; by rewrite Hd, Hdo |].
    intros j Hj. rewrite Hco by done. destruct (Z.leb_spec 0 j); [done | lia]. }
  exists out. conjs; [| done | congruence | done].
  unfold convert_to_row. cbn [writer_assign]. rewrite Eo, bind_some.
  change (OB_SUCCESS =? OB_SUCCESS) with true. cbn iota. by rewrite E, bind_some.
Qed.

Lemma save_typed_row ks r last :
  typed_row ks r -> row_wf last ->
  exists last', save_row r last (row_buf true) = Some (OB_SUCCESS, last') /\
    row_wf last' /\ row_desc_ last' = row_desc_ r /\ row_cells last' = row_cells r.
Proof.
  intros Hr Hl. destruct row_buf_allocated as (buf & -> & Hbuf). unfold save_row.
  destruct (tr_desc ks r Hr) as (d & Hd & Htd).
  apply (convert_stored_row r d); [apply Hr | done | | done | done | apply Hr].
  split; [apply Hr |]. unfold row_column_ids. rewrite Hd. apply Htd.
Qed.

#[export] Instance typed_row_order cast ks : RowOrder cast (typed_row ks) (typed_desc ks) rows_compare.
Proof.
  split.
  - pose proof (cells_order ks) as H. unfold rows_compare. apply (cmp_order_preimage _ (Forall2 typed_cell ks)).
    + done.
    + intros r Hr. apply Hr.
  - intros r1 r2. apply row_compare_typed.
  - intros r last Hr Hl. destruct (save_typed_row ks r last Hr Hl) as (last' & Hs & Hw & Hd & Hc).
    exists last'. split; [done |]. apply (typed_row_same_cells ks r); [done | done | rewrite Hd; apply Hr | done].
  - intros r d Hr Hd. pose proof (tr_wf ks r Hr) as Hw. pose proof (typed_row_num ks r Hr) as Hn.
    apply (typed_row_same_cells ks r); [done | | |].
    + split; cbn; [apply Hw | apply Hw |]. intros ? [= <-]. apply Hd.
    + by exists d.
    + unfold row_cells, row_column_num; cbn. f_equal. destruct Hd as (Hdw & Hl & _).
      unfold row_column_num in Hn. rewrite Hn. pose proof (columns_length d Hdw). unfold get_column_num. lia.
  - intros r Hr. apply Hr.
Qed.

(** ** Rows of one int column

    The rows of the examples. *)

Definition int_desc (column_id : Z) : ObRowDesc := rowdesc_of [mkDesc 1 column_id].

Definition int_row (column_id n : Z) : ObRow :=
  (raw_set_cell (row_of_desc (int_desc column_id)) 0 (set_int ObObj_new n false)).2.

Definition int_scan (column_id : Z) (ns : list Z) : ListScan :=
  list_scan (int_desc column_id) (map (int_row column_id) ns) OB_ITER_END.

Definition int_column : list (column_kind * ObObjType) := [(KInt, ObIntType)].

Section IntRows.
Context (column_id : Z) (Hid : valid_column_id column_id).

Lemma int_desc_spec : rowdesc_wf (int_desc column_id) /\ columns (int_desc column_id) = [mkDesc 1 column_id].
Proof. apply rowdesc_of_spec; [apply NoDup_singleton | vm_compute; congruence]. Qed.

Lemma int_desc_num : get_column_num (int_desc column_id) = 1.
Proof. destruct int_desc_spec as [Hw Hc]. pose proof (columns_length _ Hw) as H. rewrite Hc in H. exact (eq_sym H). Qed.

Lemma int_desc_typed : typed_desc int_column (int_desc column_id).
Proof. destruct int_desc_spec as [Hw Hc]. split; [done |]. rewrite Hc. split; [done |]. by constructor. Qed.

Lemma int_row_spec n :
  row_wf (int_row column_id n) /\ row_cells (int_row column_id n) = [set_int ObObj_new n false] /\
  row_desc_ (int_row column_id n) = Some (int_desc column_id) /\
  with_raw (row_of_desc (int_desc column_id)) (raw_row_ (int_row column_id n)) = int_row column_id n.
Proof.
  destruct int_desc_spec as [Hw _]. pose proof (row_of_desc_wf _ Hw) as H0. pose proof int_desc_num as Hn.
  destruct (raw_set_cell_spec _ H0 0 (set_int ObObj_new n false)) as (r & E & Hr & Hk & Hd & Hc & _).
  { change (row_column_num (row_of_desc (int_desc column_id))) with (get_column_num (int_desc column_id)). lia. }
  unfold int_row. rewrite E. cbn [snd]. conjs; [done | | done |].
  - assert (Hnum : row_column_num r = 1) by (unfold row_column_num; rewrite Hd; exact Hn).
    apply list_eq. intros i. rewrite row_cells_lookup, Hnum by done. unfold raw_cell. rewrite Hc.
    destruct (Z.ltb_spec (Z.of_nat i) 1).
    + replace i with 0%nat by lia. rewrite zget_zset_eq; [done |]. split; [done |].
      change (length (cells_ (raw_row_ (row_of_desc (int_desc column_id))))) with (length (replicate (Z.to_nat MAX_COLUMNS_COUNT) ObObj_new)).
      rewrite length_replicate. unfold MAX_COLUMNS_COUNT. lia.
    + destruct i as [| i]; [lia | done].
  - destruct r as [k raw d]. unfold with_raw. cbn in *. by subst.
Qed.

Lemma int_row_typed n : int64_range n -> typed_row int_column (int_row column_id n).
Proof.
  intros Hn. destruct (int_row_spec n) as (Hw & Hc & Hd & _). split; [done | | rewrite Hc .. ].
  - exists (int_desc column_id). split; [done | apply int_desc_typed].
  - by repeat constructor.
  - constructor; [| done]. split; [done |]. by left.
  - unfold cells_size, encode_value, payload, cell_code; cbn -[Z.pow to_bytes get_int_byte].
    rewrite to_bytes_length. unfold get_int_byte, OB_ROW_BUF_SIZE. repeat case_match; lia.
Qed.

Lemma int_scan_gives ns :
  gives (int_scan column_id ns) (int_desc column_id) (map (int_row column_id) ns) OB_ITER_END.
Proof.
  apply list_scan_gives; [done |]. apply Forall_fmap, Forall_true. intros n. apply int_row_spec.
Qed.

Lemma int_rows_typed ns : Forall int64_range ns -> Forall (typed_row int_column) (map (int_row column_id) ns).
Proof. intros H. apply Forall_fmap. eapply Forall_impl; [exact H |]. apply int_row_typed. Qed.
End IntRows.

Lemma int_scan_gives_on c ns : gives_on (int_scan c ns) (int_desc c) (map (int_row c) ns).
Proof. apply list_scan_gives_on, Forall_fmap, Forall_true. intros n. apply int_row_spec. Qed.

Lemma int_row_compare c1 c2 m n : rows_compare (int_row c1 m) (int_row c2 n) = cmp3 m n.
Proof.
  unfold rows_compare. destruct (int_row_spec c1 m) as (_ & -> & _), (int_row_spec c2 n) as (_ & -> & _).
  cbn. by destruct (Z.eqb_spec (cmp3 m n) 0) as [-> |].
Qed.
