(* ===== verification/RowKey.v ===== *)
(** * Keys of rows

    The cells of some columns of a row, as the join compares them and the sort
    keeps them beside the row. *)

From S2P Require Import Prelude ObObject ObExprObj ObRowDesc ObRow ObCompactCell ObRowUtil ObRowStore PhyOperator.
Local Open Scope Z_scope.

Lemma row_length r d : row_wf r -> row_desc_ r = Some d ->
  Z.of_nat (length (row_cells r)) = get_column_num d /\ row_column_num r = get_column_num d /\ 0 <= get_column_num d.
Proof.
  intros Hw Hd. pose proof (row_cells_length r Hw) as H. pose proof (row_num_nonneg r d Hw Hd) as Hn.
  unfold row_column_num in *. rewrite Hd in *. lia.
Qed.

(** ** Rows with a key *)

(** The cells of the columns. *)
Definition row_key (cols : list Desc) (r : ObRow) : list ObObj :=
  map (fun c => default ObObj_new (get_cell r (table_id_ c) (column_id_ c)).2) cols.

(** The columns are of the description, and have identifiers. *)
Definition key_columns (d : ObRowDesc) (cols : list Desc) : Prop :=
  Forall (fun c => c ∈ columns d /\ table_id_ c <> 0 /\ column_id_ c <> 0) cols.

(** A row of a child: it can be saved, and kept in a row store with [n] reserved
    cells. *)
Record kept_row (d : ObRowDesc) (n : nat) (r : ObRow) : Prop := {
  kr_wf : row_wf r;
  kr_desc : row_desc_ r = Some d;
  kr_storable : storable_row r;
  kr_plain : no_extend r;
  kr_size : get_reserved_cells_size (Z.of_nat n) + cells_size (row_cells r) <= BIG_BLOCK_SIZE - SIZEOF_BLOCK_INFO
}.

(** A row whose key is typed and not null. *)
Record keyed_row (ks : list (column_kind * ObObjType)) (d : ObRowDesc) (cols : list Desc) (r : ObRow) : Prop := {
  kr_row : kept_row d 0 r;
  kr_key : Forall2 typed_cell ks (row_key cols r)
}.

Lemma kept_keepable d n r : kept_row d n r -> keepable r /\
  get_reserved_cells_size (Z.of_nat n) + Z.of_nat (length (row_bytes r)) <= BIG_BLOCK_SIZE - SIZEOF_BLOCK_INFO.
Proof.
  intros [Hw Hd Hs Hp Hsz]. split; [split; try done; congruence |].
  unfold row_bytes. by rewrite encode_row_size by (by apply (row_ids_length r d)).
Qed.

(** ** Cells and rows that were kept *)

#[export] Instance same_cell_refl : Reflexive same_cell.
Proof. by unfold same_cell. Qed.

#[export] Instance same_cell_trans : Transitive same_cell.
Proof.
  intros a b c (H1 & H2 & H3 & H4) (J1 & J2 & J3 & J4). unfold same_cell. rewrite H1, H2.
  conjs; [done | done | |]; intros Hc; [rewrite H3, J3; congruence |].
  destruct (H4 ltac:(congruence)) as (-> & -> & -> & ->). by apply J4.
Qed.

(** All of it counts for a decimal, all but the decimal attributes otherwise. *)
Lemma same_cell_cases v o :
  same_cell v o -> type_ o <> ObNullType ->
  v = o \/ (type_ o <> ObDecimalType /\ exists vs p s n, v = mkObj (type_ o) (op_flag_ o) vs p s n (value_ o)).
Proof.
  destruct v as [t f vs p s n x], o as [t' f' vs' p' s' n' x']. intros (H1 & H2 & H3 & H4) Hn. cbn in *. subst.
  rewrite (H3 Hn). destruct (decide (t' = ObDecimalType)) as [-> | Hd]; [left | right].
  - by destruct (H4 eq_refl) as (-> & -> & -> & ->).
  - split; [done |]. by exists vs, p, s, n.
Qed.

Lemma same_storable v o : same_cell v o -> storable o -> storable v /\ encode_value v = encode_value o.
Proof.
  intros H Hs. destruct (decide (type_ o = ObNullType)) as [Hn | Hn].
  - destruct H as (Ht & Hf & _). unfold storable in *. rewrite Ht, Hn in *.
    split; [congruence |]. unfold encode_value, cell_code, payload. by rewrite Ht, Hn.
  - destruct (same_cell_cases v o H Hn) as [-> | (Hd & vs & p & s & n & ->)]; [done |].
    destruct o as [t f vs' p' s' n' x]. cbn in *. split; [| by destruct t].
    by destruct t, x.
Qed.

Lemma same_typed k v o : same_cell v o -> typed_cell k o -> typed_cell k v.
Proof.
  intros H [Hn Ht]. assert (Hnn : type_ o <> ObNullType).
  { destruct (k.1); cbn in Hn; intros E; rewrite E in Hn; try done; by destruct Hn. }
  destruct (same_cell_cases v o H Hnn) as [-> | (Hd & vs & p & s & n & ->)]; [done |].
  split; [| done]. destruct (k.1); try done. by destruct Hn as [Hn _].
Qed.

Lemma same_compare k v o v' o' :
  same_cell v o -> same_cell v' o' -> typed_cell k o -> typed_cell k o' ->
  compare_same_type v v' = compare_same_type o o'.
Proof.
  intros H H' [N T] [N' T']. assert (Hnn : type_ o <> ObNullType /\ type_ o' <> ObNullType).
  { rewrite T, T'. rewrite <- T. destruct (k.1); cbn in N; split; intros E; rewrite E in N; try done; by destruct N. }
  destruct Hnn as [Hn Hn'].
  destruct (same_cell_cases v o H Hn) as [-> | (Hd & vs & p & s & n & ->)],
           (same_cell_cases v' o' H' Hn') as [-> | (Hd' & vs' & p' & s' & n' & ->)]; try done; try congruence;
  rewrite T in *; destruct o, o'; cbn in *; subst; by destruct (k.2).
Qed.

Lemma same_cells_refl l : Forall2 same_cell l l.
Proof. induction l; constructor; [apply same_cell_refl | done]. Qed.

Lemma same_cells_size l' l :
  Forall2 same_cell l' l -> Forall storable l -> Forall storable l' /\ cells_size l' = cells_size l.
Proof.
  induction 1 as [| v o l' l Hv _ IH]; [done |]. intros [Ho Hl]%Forall_cons. destruct (IH Hl) as [Hs Hsz].
  destruct (same_storable v o Hv Ho) as [Hsv Hev]. split; [by constructor |]. unfold cells_size in *. cbn [foldr]. by rewrite Hev, Hsz.
Qed.

Lemma same_cells_typed ks l' l : Forall2 same_cell l' l -> Forall2 typed_cell ks l -> Forall2 typed_cell ks l'.
Proof.
  intros Hs Ht. revert l' Hs. induction Ht as [| k o ks l Ho _ IH]; intros l' Hs.
  - by apply Forall2_nil_inv_r in Hs as ->.
  - apply Forall2_cons_inv_r in Hs as (v & l'' & Hv & Hs & ->). constructor; [by apply (same_typed k v o) | by apply IH].
Qed.

(** A row with the cells of a row that can be kept can be kept. *)
Lemma same_cells_kept d n r row :
  row_wf row -> row_desc_ row = Some d -> Forall2 same_cell (row_cells row) (row_cells r) -> kept_row d n r -> kept_row d 0 row.
Proof.
  intros Hw Hd Hc [Hwr Hdr [Hs Hids] Hp Hsz]. destruct (same_cells_size _ _ Hc Hs) as [Hs' Hsz']. split; try done.
  - split; [done |]. unfold row_column_ids in *. by rewrite Hd, Hdr in *.
  - unfold no_extend in *. apply (Forall2_Forall_l _ _ _ _ Hc). eapply Forall_impl; [exact Hp |]. by intros o Ho v (-> & _).
  - rewrite Hsz'. unfold get_reserved_cells_size, SIZEOF_OBJ in *. lia.
Qed.

(** ** Keys *)

Lemma get_cell_column r d c :
  row_wf r -> row_desc_ r = Some d -> c ∈ columns d -> table_id_ c <> 0 -> column_id_ c <> 0 ->
  exists i o, columns d !! i = Some c /\ row_cells r !! i = Some o /\
    get_cell r (table_id_ c) (column_id_ c) = (OB_SUCCESS, Some o).
Proof.
  intros Hw Hd [i Hi]%list_elem_of_lookup_1 Ht Hc. pose proof (wf_desc r Hw d Hd) as Hdw.
  pose proof (get_idx_present d Hdw (table_id_ c) (column_id_ c) i Ht Hc) as Hidx.
  replace (mkDesc (table_id_ c) (column_id_ c)) with c in Hidx by (by destruct c). specialize (Hidx Hi).
  destruct (lookup_lt_is_Some_2 (row_cells r) i) as [o Ho].
  { pose proof (row_length r d Hw Hd) as (Hl & _). apply lookup_lt_Some in Hi. pose proof (columns_length d Hdw).
    unfold get_column_num in Hl. lia. }
  exists i, o. conjs; [done | done |]. rewrite (get_cell_position r d) by done. unfold column_position. rewrite Hidx.
  destruct (Z.eqb_spec (Z.of_nat i) OB_INVALID_INDEX) as [E | _]; [unfold OB_INVALID_INDEX in E; lia |].
  rewrite raw_get_cell_spec by done. destruct (Z.ltb_spec (Z.of_nat i) 0); [lia |]. by rewrite Nat2Z.id, Ho.
Qed.

(** Rows with the same cells have the same key. *)
Lemma row_key_same cols r r' d :
  row_wf r -> row_wf r' -> row_desc_ r = Some d -> row_desc_ r' = Some d ->
  Forall2 same_cell (row_cells r') (row_cells r) -> key_columns d cols ->
  Forall2 same_cell (row_key cols r') (row_key cols r).
Proof.
  intros Hw Hw' Hd Hd' Hc Hcols. unfold row_key. apply Forall2_fmap, Forall_Forall2_diag, Forall_forall. intros c Hin.
  unfold key_columns in Hcols. rewrite Forall_forall in Hcols. destruct (Hcols c Hin) as (Hm & Ht & Hi).
  destruct (get_cell_column r d c Hw Hd Hm Ht Hi) as (i & o & Hx & Ho & ->).
  destruct (get_cell_column r' d c Hw' Hd' Hm Ht Hi) as (i' & o' & Hx' & Ho' & ->).
  pose proof (NoDup_lookup _ _ _ _ (columns_NoDup d (wf_desc r Hw d Hd)) Hx Hx') as ->. cbn.
  by eapply Forall2_lookup_lr.
Qed.

Lemma row_key_cells cols r r' d :
  row_wf r -> row_wf r' -> row_desc_ r = Some d -> row_desc_ r' = Some d -> row_cells r' = row_cells r ->
  key_columns d cols -> row_key cols r' = row_key cols r.
Proof.
  intros Hw Hw' Hd Hd' Hc Hcols. apply map_ext_in. intros c Hin. unfold key_columns in Hcols. rewrite Forall_forall in Hcols.
  destruct (Hcols c) as (Hm & Ht & Hi); [by apply list_elem_of_In |].
  destruct (get_cell_column r d c Hw Hd Hm Ht Hi) as (i & o & Hx & Ho & ->).
  destruct (get_cell_column r' d c Hw' Hd' Hm Ht Hi) as (i' & o' & Hx' & Ho' & ->).
  pose proof (NoDup_lookup _ _ _ _ (columns_NoDup d (wf_desc r Hw d Hd)) Hx Hx') as ->. rewrite Hc, Ho in Ho'. cbn. congruence.
Qed.

(** ** Reserved cells *)

Definition desc_ids (c : Desc) : Z * Z := (table_id_ c, column_id_ c).

Lemma desc_ids_inj c c' : desc_ids c = desc_ids c' -> c = c'.
Proof. destruct c, c'. cbn. by intros [= -> ->]. Qed.

Lemma reserve_cell_lookup columns ids o cells j c :
  NoDup columns -> columns !! j = Some c -> length cells = length columns ->
  reserve_cell columns ids o cells !! j = if decide (c = ids) then Some (Some o) else cells !! j.
Proof.
  revert cells j. induction columns as [| x columns IH]; intros [| y cells] [| j] Hnd Hj Hl; try done;
    apply NoDup_cons in Hnd as [Hx Hnd]; cbn in *.
  - injection Hj as ->. destruct (Z.eqb_spec c.1 ids.1), (Z.eqb_spec c.2 ids.2), (decide (c = ids)) as [-> | Hne]; cbn; try done.
    destruct Hne. destruct c, ids; cbn in *; congruence.
  - destruct (Z.eqb_spec x.1 ids.1), (Z.eqb_spec x.2 ids.2); cbn; try (apply IH; [done | done | lia]).
    assert (x = ids) as -> by (destruct x, ids; cbn in *; congruence).
    rewrite decide_False; [done |]. intros ->. apply Hx. by apply list_elem_of_lookup_2 in Hj.
Qed.

Lemma reserve_cells_lookup columns ids objs cells j c :
  NoDup columns -> NoDup ids -> columns !! j = Some c -> length cells = length columns ->
  (forall i o, ids !! i = Some c -> objs !! i = Some o ->
     reserve_cells columns ids objs cells !! j = Some (Some (clone_of o))) /\
  (c ∉ ids -> reserve_cells columns ids objs cells !! j = cells !! j).
Proof.
  intros Hnd Hids Hj. revert objs cells. induction ids as [| id ids IH]; intros objs cells Hl; [done |].
  apply NoDup_cons in Hids as [Hid Hids]. destruct objs as [| o' objs]; [by split |]. cbn [reserve_cells].
  destruct (IH Hids objs (reserve_cell columns id (clone_of o') cells)) as [IH1 IH2];
    [by rewrite reserve_cell_length |].
  pose proof (reserve_cell_lookup columns id (clone_of o') cells j c Hnd Hj Hl) as Hr. split.
  - intros [| i] o; cbn.
    + intros [= ->] [= ->]. rewrite IH2, Hr, decide_True by done. done.
    + apply IH1.
  - intros [Hne Hin]%not_elem_of_cons. by rewrite IH2, Hr, decide_False.
Qed.

(** The reserved cells of a row are its key. *)
Lemma stored_key cols r d :
  row_wf r -> row_desc_ r = Some d -> Forall storable (row_cells r) -> key_columns d cols -> NoDup cols ->
  reserved_cells_ (stored_of (map desc_ids cols) r) = map Some (row_key cols r).
Proof.
  intros Hw Hd Hs Hcols Hnd. unfold stored_of. cbn [reserved_cells_]. apply list_eq. intros j.
  unfold row_key. rewrite map_map, list_lookup_fmap. destruct (cols !! j) as [c |] eqn:Hj; cbn.
  - unfold key_columns in Hcols. destruct (Forall_lookup_1 _ _ _ _ Hcols Hj) as (Hm & Ht & Hi).
    destruct (get_cell_column r d c Hw Hd Hm Ht Hi) as (i & o & Hx & Ho & ->). cbn.
    rewrite <- (clone_of_storable o) by (by eapply Forall_lookup_1).
    apply (reserve_cells_lookup _ _ _ _ j (desc_ids c)) with (i := i).
    + by apply NoDup_fmap_2; [intros ? ?; apply desc_ids_inj |].
    + unfold row_ids. rewrite Hd. apply NoDup_fmap_2; [intros ? ?; apply desc_ids_inj |].
      apply columns_NoDup. by apply (wf_desc r).
    + by rewrite list_lookup_fmap, Hj.
    + by rewrite length_replicate.
    + unfold row_ids. by rewrite Hd, list_lookup_fmap, Hx.
    + done.
  - apply lookup_ge_None_2. rewrite reserve_cells_length, length_replicate, length_map. by apply lookup_ge_None_1.
Qed.

(** ** Examples *)

Lemma int_row_key c n : valid_column_id c -> c <> 0 -> row_key [mkDesc 1 c] (int_row c n) = [set_int ObObj_new n false].
Proof.
  intros Hid Hc. destruct (int_row_spec c n) as (Hw & Hcells & Hd & _). destruct (int_desc_spec c) as [_ Hcols].
  destruct (get_cell_column (int_row c n) (int_desc c) (mkDesc 1 c) Hw Hd) as (i & o & Hi & Ho & E); [| done | done |].
  { rewrite Hcols. by left. }
  rewrite Hcols in Hi. rewrite Hcells in Ho. apply list_lookup_singleton_Some in Hi as [-> _].
  injection Ho as <-. cbn in E |- *. by rewrite E.
Qed.

Lemma int_row_kept c n k :
  valid_column_id c -> int64_range n -> SIZEOF_OBJ * Z.of_nat k <= 32 * 1024 -> kept_row (int_desc c) k (int_row c n).
Proof.
  intros Hid Hn Hk. destruct (int_row_spec c n) as (Hw & Hcells & Hd & _).
  pose proof (int_row_typed c Hid n Hn) as [_ _ Ht Hs Hsz]. split; [done | done | | |].
  - split; [done |]. unfold row_column_ids. rewrite Hd, (proj2 (int_desc_spec c)). constructor; [done | constructor].
  - unfold no_extend. rewrite Hcells. constructor; [done | constructor].
  - unfold get_reserved_cells_size, SIZEOF_STORED_ROW, SIZEOF_OBJ, BIG_BLOCK_SIZE, SIZEOF_BLOCK_INFO, OB_ROW_BUF_SIZE in *. lia.
Qed.

Lemma int_row_keyed c n : valid_column_id c -> c <> 0 -> int64_range n -> keyed_row int_column (int_desc c) [mkDesc 1 c] (int_row c n).
Proof.
  intros Hid Hc Hn. split; [by apply int_row_kept |]. rewrite int_row_key by done.
  pose proof (tr_cells _ _ (int_row_typed c Hid n Hn)) as Ht. by rewrite (proj1 (proj2 (int_row_spec c n))) in Ht.
Qed.

Lemma int_key_columns c : valid_column_id c -> c <> 0 -> key_columns (int_desc c) [mkDesc 1 c].
Proof.
  intros Hid Hc. unfold key_columns. rewrite (proj2 (int_desc_spec c)). constructor; [| done]. conjs; [by left | done | done].
Qed.
