(* ===== verification/SetOperator.v ===== *)
(** * Set operators: what UNION, INTERSECT and EXCEPT share

    [ob_double_children_phy_operator.cpp], [ob_set_operator.cpp] and [do_distinct]
    of the three merge operators, with the lemmas on sorted lists of rows.  The
    type [C] stands for the operators a child pointer can point to. *)

From S2P Require Import Prelude ObObject ObExprObj ObRowDesc ObRow ObCompactCell PhyOperator.
From Stdlib Require Import Sorted.
Local Open Scope Z_scope.

(** ** The two children *)

Record ObSetOperator (C : Type) := mkSet {
  left_op_ : option C;
  right_op_ : option C;
  out_desc_ : option ObRowDesc;
  distinct_ : bool
}.
Arguments mkSet {C}.
Arguments left_op_ {C}.
Arguments right_op_ {C}.
Arguments out_desc_ {C}.
Arguments distinct_ {C}.

Section Operations.
Context {C : Type} `{!ObPhyOperator C}.
Context (obj_cast : ObObjType -> ObObjType -> ObExprObj -> option (Z * ObExprObj)).
Implicit Types so : ObSetOperator C.

Definition ObSetOperator_new : ObSetOperator C := mkSet None None None false.

Definition with_left so (c : C) : ObSetOperator C := mkSet (Some c) (right_op_ so) (out_desc_ so) (distinct_ so).
Definition with_right so (c : C) : ObSetOperator C := mkSet (left_op_ so) (Some c) (out_desc_ so) (distinct_ so).
Definition with_desc so (d : option ObRowDesc) : ObSetOperator C := mkSet (left_op_ so) (right_op_ so) d (distinct_ so).

Definition set_child so (child_idx : Z) (child : C) : Z * ObSetOperator C :=
  if child_idx =? 0 then
    match left_op_ so with
    | Some _ => (OB_INIT_TWICE, so)
    | None => (OB_SUCCESS, with_left so child)
    end
  else if child_idx =? 1 then
    match right_op_ so with
    | Some _ => (OB_INIT_TWICE, so)
    | None => (OB_SUCCESS, with_right so child)
    end
  else (OB_INVALID_ARGUMENT, so).

Definition double_open (fuel : nat) so : option (Z * ObSetOperator C) :=
  match left_op_ so, right_op_ so with
  | Some l, Some r =>
      '(ret, l) ← op_open fuel l ;
      if ret =? OB_SUCCESS then
        '(ret, r) ← op_open fuel r ; Some (ret, with_right (with_left so l) r)
      else Some (ret, with_left so l)
  | _, _ => Some (OB_NOT_INIT, so)
  end.

Definition double_close so : option (Z * ObSetOperator C) :=
  match left_op_ so, right_op_ so with
  | Some l, Some r =>
      '(ret, l) ← op_close l ;
      if ret =? OB_SUCCESS then
        '(ret, r) ← op_close r ; Some (ret, with_right (with_left so l) r)
      else Some (ret, with_left so l)
  | _, _ => Some (OB_SUCCESS, so)
  end.

Definition set_reset so : ObSetOperator C := ObSetOperator_new.

Definition set_reuse so : ObSetOperator C := mkSet (left_op_ so) (right_op_ so) None false.

Definition base_set_distinct so (is_distinct : bool) : ObSetOperator C :=
  mkSet (left_op_ so) (right_op_ so) (out_desc_ so) is_distinct.

(** The code, the description of the left child and the one of the right child. *)
Definition cons_row_desc so : option (Z * option (option ObRowDesc * option ObRowDesc)) :=
  l ← left_op_ so ;
  r ← right_op_ so ;
  let '(ret, left_row_desc) := op_get_row_desc l in
  if ret =? OB_SUCCESS then
    let '(ret, right_row_desc) := op_get_row_desc r in
    if ret =? OB_SUCCESS then Some (OB_SUCCESS, Some (left_row_desc, right_row_desc)) else Some (ret, None)
  else Some (ret, None).

Definition set_get_row_desc so : Z * option ObRowDesc :=
  match out_desc_ so with
  | None => (OB_NOT_INIT, None)
  | Some d => if get_column_num d <=? 0 then (OB_NOT_INIT, None) else (OB_SUCCESS, Some d)
  end.

(** [ret = op->get_next_row(row)]: a call that fails may leave [row] as it was. *)
Definition assigned (row old : option ObRow) : option ObRow :=
  match row with Some _ => row | None => old end.

Definition child_next (fuel : nat) (op : C) (row : option ObRow) : option (Z * option ObRow * C) :=
  '(ret, r, op) ← op_get_next_row fuel op ; Some (ret, assigned r row, op).

(** [k] bounds the rounds of the loop, [fuel] each call. *)
Fixpoint do_distinct_loop (k fuel : nat) (op : C) (other : ObRow) (row : option ObRow)
    : option (Z * option ObRow * C) :=
  match k with
  | O => None
  | S k' =>
      '(ret, row, op) ← child_next fuel op row ;
      if ret =? OB_SUCCESS then
        r ← row ;
        '(ret, cmp) ← row_compare obj_cast r other ;
        if ret =? OB_SUCCESS then
          if negb (cmp =? 0) then Some (ret, row, op) else do_distinct_loop k' fuel op other row
        else Some (ret, row, op)
      else Some (ret, row, op)
  end.

Definition do_distinct (fuel : nat) (op : C) (other : ObRow) (row : option ObRow)
    : option (Z * option ObRow * C) :=
  do_distinct_loop fuel fuel op other row.
End Operations.

Lemma double_open_distinct {C} `{!ObPhyOperator C} fuel (so so' : ObSetOperator C) ret :
  double_open fuel so = Some (ret, so') -> distinct_ so' = distinct_ so.
Proof. unfold double_open. intros H. repeat (case_match || simplify_option_eq); done. Qed.

Lemma double_close_distinct {C} `{!ObPhyOperator C} (so so' : ObSetOperator C) ret :
  double_close so = Some (ret, so') -> distinct_ so' = distinct_ so.
Proof. unfold double_close. intros H. repeat (case_match || simplify_option_eq); done. Qed.

(** ** Rows sorted by the comparison *)

Section Sorted.
Context {A : Type} (D : A -> Prop) (cmp : A -> A -> Z) `{!CmpOrder D cmp}.

Definition sorted (l : list A) : Prop := StronglySorted (fun x y => cmp x y <= 0) l.
Definition strictly_sorted (l : list A) : Prop := StronglySorted (fun x y => cmp x y < 0) l.

(** The rows after those equal to [y]. *)
Fixpoint skip (y : A) (l : list A) : list A :=
  match l with
  | [] => []
  | x :: l' => if cmp x y =? 0 then skip y l' else l
  end.

Lemma skip_length y l : (length (skip y l) <= length l)%nat.
Proof. induction l as [| x l IH]; cbn; [done |]. destruct (_ =? _); cbn; lia. Qed.

Lemma skip_Forall P y l : Forall P l -> Forall P (skip y l).
Proof. induction 1 as [| x l Hx Hl IH]; cbn; [done |]. destruct (_ =? _); [done | by constructor]. Qed.

Lemma skip_sorted y l : sorted l -> sorted (skip y l).
Proof. induction 1 as [| x l Hl IH Hx]; cbn; [constructor |]. destruct (_ =? _); [done | by constructor]. Qed.

Lemma skip_elem x y l : x ∈ l -> cmp x y = 0 \/ x ∈ skip y l.
Proof.
  induction l as [| z l IH]; [by intros ?%elem_of_nil |]. cbn. intros [-> | H]%elem_of_cons.
  - destruct (Z.eqb_spec (cmp z y) 0); [by left | right]. by left.
  - destruct (Z.eqb_spec (cmp z y) 0); [by apply IH | right]. by right.
Qed.

Lemma skip_subset x y l : x ∈ skip y l -> x ∈ l.
Proof.
  induction l as [| z l IH]; [done |]. cbn. destruct (_ =? _); [| done]. intros H. right. by apply IH.
Qed.

Lemma skip_equal y y' l : D y -> D y' -> Forall D l -> cmp y y' = 0 -> skip y l = skip y' l.
Proof.
  intros Hy Hy' Hl E. induction Hl as [| x l Hx Hl IH]; cbn; [done |].
  pose proof (cmp_eq_r D cmp y y' x Hy Hy' Hx E).
  destruct (Z.eqb_spec (cmp x y) 0), (Z.eqb_spec (cmp x y') 0); lia || done.
Qed.

Lemma skip_above y l : D y -> Forall D l -> sorted l -> Forall (fun x => cmp y x <= 0) l ->
  Forall (fun x => cmp y x < 0) (skip y l).
Proof.
  intros Hy Hl Hs Hb. induction Hs as [| x l Hs IH Hx]; cbn; [done |].
  apply Forall_cons in Hl as [HDx Hl], Hb as [Hyx Hb].
  destruct (Z.eqb_spec (cmp x y) 0) as [E | E]; [by apply IH |].
  rewrite (cmp_zero_sym D cmp x y) in E by done. assert (Hlt : cmp y x < 0) by lia.
  constructor; [done |]. rewrite Forall_forall in *. intros z Hz. apply (cmp_lt_trans D cmp y x z); auto.
Qed.

Lemma skip_none y l : D y -> Forall D l -> Forall (fun x => cmp y x < 0) l -> skip y l = l.
Proof.
  intros Hy Hl Hb. destruct l as [| x l]; [done |]. cbn.
  apply Forall_cons in Hl as [HDx Hl], Hb as [Hyx Hb].
  pose proof (cmp_zero_sym D cmp x y HDx Hy). destruct (Z.eqb_spec (cmp x y) 0); [lia | done].
Qed.

Lemma skip_head x l : D x -> skip x (x :: l) = skip x l.
Proof. intros Hx. cbn. by rewrite (cmp_self D cmp x). Qed.

(** A row not above the head of a sorted list is not above the others. *)
Lemma sorted_below y x l : D y -> D x -> Forall D l -> sorted (x :: l) -> cmp y x <= 0 ->
  Forall (fun z => cmp y z <= 0) (x :: l).
Proof.
  intros Hy Hx Hl Hs E. apply StronglySorted_inv in Hs as [_ Hs]. constructor; [done |].
  rewrite Forall_forall in *. intros z Hz. apply (cmp_trans y x z); auto.
Qed.

Lemma sorted_strictly_below y x l : D y -> D x -> Forall D l -> sorted (x :: l) -> cmp y x < 0 ->
  Forall (fun z => cmp y z < 0) (x :: l).
Proof.
  intros Hy Hx Hl Hs E. apply StronglySorted_inv in Hs as [_ Hs]. constructor; [done |].
  rewrite Forall_forall in *. intros z Hz. apply (cmp_lt_trans D cmp y x z); auto.
Qed.

(** How many rows of [l] equal [x]. *)
Definition count (x : A) (l : list A) : nat := length (filter (fun z => cmp z x = 0) l).

Lemma count_cons x z l : count x (z :: l) = ((if decide (cmp z x = 0)%Z then 1 else 0) + count x l)%nat.
Proof. unfold count. rewrite filter_cons. by destruct (decide _). Qed.

Lemma count_above x y l : D x -> D y -> Forall D l -> cmp y x = 0 -> Forall (fun z => cmp y z < 0) l -> count x l = 0%nat.
Proof.
  intros Hx Hy Hl E Hb. induction Hl as [| z l Hz Hl IH]; [done |]. apply Forall_cons in Hb as [Hyz Hb].
  rewrite count_cons, IH by done. destruct (decide _) as [Ez |]; [| done].
  pose proof (cmp_eq_r D cmp z x y Hz Hx Hy Ez). lia.
Qed.

Lemma count_skip_other x y l : D x -> D y -> Forall D l -> cmp y x <> 0 -> count x (skip y l) = count x l.
Proof.
  intros Hx Hy Hl E. induction Hl as [| z l Hz Hl IH]; [done |]. cbn [skip].
  destruct (Z.eqb_spec (cmp z y) 0) as [Ez |]; [| done]. rewrite count_cons, IH.
  destruct (decide _) as [Ex |]; [| done]. pose proof (cmp_eq_l D cmp z y x Hz Hy Hx Ez). lia.
Qed.

Lemma count_skip_same x y l : D x -> D y -> Forall D l -> sorted l -> Forall (fun z => cmp y z <= 0) l ->
  cmp y x = 0 -> count x (skip y l) = 0%nat.
Proof. intros Hx Hy Hl Hs Hb E. apply (count_above x y); auto using skip_Forall, skip_above. Qed.

Lemma sublist_Forall P (l1 l2 : list A) : sublist l1 l2 -> Forall P l2 -> Forall P l1.
Proof. induction 1; intros HF; [done | |]; apply Forall_cons in HF as [H1 H2]; auto. Qed.

Lemma skip_sublist y l : sublist (skip y l) l.
Proof.
  induction l as [| z l IH]; [done |]. cbn. destruct (_ =? _); [by apply sublist_cons | done].
Qed.
(** Sorted rows the comparison orders. *)
Definition rows_ok (l : list A) : Prop := Forall D l /\ sorted l.

Lemma rows_ok_skip x y l : rows_ok (x :: l) -> rows_ok (skip y l).
Proof.
  intros [H1 H2]. apply Forall_cons in H1 as [_ H1]. apply StronglySorted_inv in H2 as [H2 _].
  split; auto using skip_Forall, skip_sorted.
Qed.

Lemma rows_ok_tail x l : rows_ok (x :: l) -> rows_ok l.
Proof. intros [H1 H2]. apply Forall_cons in H1 as [_ H1]. by apply StronglySorted_inv in H2 as [H2 _]. Qed.

(** A class of rows is untouched by dropping the class of the head [x], and the
    class of [x] is gone. *)
Lemma count_drop w x l : D w -> rows_ok (x :: l) ->
  count w (skip x l) = if decide (cmp x w = 0) then 0%nat else count w (x :: l).
Proof.
  intros Hw [Hd Hs]. apply Forall_cons in Hd as [Hx Hl]. pose proof (StronglySorted_inv Hs) as [Hs' Hb].
  destruct (decide _) as [E | E].
  - by apply count_skip_same.
  - rewrite count_skip_other, count_cons by done. by destruct (decide _).
Qed.

Lemma count_below w x y l : D w -> D x -> rows_ok (y :: l) -> cmp x y < 0 -> cmp x w = 0 -> count w (y :: l) = 0%nat.
Proof.
  intros Hw Hx [Hd Hs] Hlt E. apply Forall_cons in Hd as Hd'. destruct Hd' as [Hy Hl].
  apply (count_above w x); try done. by apply sorted_strictly_below.
Qed.
End Sorted.

(** ** The children while the operator runs *)

Section Current.
Context {C : Type} `{!ObPhyOperator C}.
Context (obj_cast : ObObjType -> ObObjType -> ObExprObj -> option (Z * ObExprObj)).
Context (D : ObRow -> Prop) (descs : ObRowDesc -> Prop) (cmp : ObRow -> ObRow -> Z) `{!RowOrder obj_cast D descs cmp}.

(** The last call on the child returned [ret] and [row], and [rows] are the
    rows from that one on. *)
Definition current (ret : Z) (row : option ObRow) (op : C) (rows : list ObRow) : Prop :=
  match rows with
  | [] => ret = OB_ITER_END
  | r :: rest => ret = OB_SUCCESS /\ row = Some r /\ lends op r /\ runs op rest OB_ITER_END
  end.

Lemma child_next_runs op row rows ret :
  runs op rows ret ->
  match rows with
  | [] => exists row' op', settles (fun m => child_next m op row) (ret, row', op')
  | r :: rest => exists op', settles (fun m => child_next m op row) (OB_SUCCESS, Some r, op') /\
      lends op' r /\ runs op' rest ret
  end.
Proof.
  inversion 1 as [? ? r op' Hret Hn | ? r op' rest ? Hn Hlend Hr]; subst.
  - exists (assigned r row), op'. unfold child_next. eapply settles_bind; [exact Hn |]. apply settles_ret.
  - exists op'. split; [| done]. unfold child_next. eapply settles_bind; [exact Hn |]. apply settles_ret.
Qed.

Lemma child_next_current op row rows :
  runs op rows OB_ITER_END ->
  exists ret row' op', settles (fun m => child_next m op row) (ret, row', op') /\ current ret row' op' rows.
Proof.
  intros Hr. apply (child_next_runs op row) in Hr. destruct rows as [| r rest].
  - destruct Hr as (row' & op' & Hs). by exists OB_ITER_END, row', op'.
  - destruct Hr as (op' & Hs & Hc). by exists OB_SUCCESS, (Some r), op'.
Qed.

Lemma do_distinct_current op other row rows :
  D other -> Forall D rows -> runs op rows OB_ITER_END ->
  exists ret row' op', settles (fun m => do_distinct obj_cast m op other row) (ret, row', op') /\
    current ret row' op' (skip cmp other rows).
Proof.
  intros Ho Hrows Hr. unfold do_distinct.
  cut (exists ret row' op', (exists n, forall m k, (n <= m)%nat -> (n <= k)%nat ->
    do_distinct_loop obj_cast k m op other row = Some (ret, row', op')) /\
    current ret row' op' (skip cmp other rows)).
  { intros (ret & row' & op' & [n H] & Hc). exists ret, row', op'. split; [| done]. exists n. auto. }
  revert op row Hr. induction Hrows as [| r rows HD Hrows IH]; intros op row Hr;
    destruct (child_next_current op row _ Hr) as (ret & row1 & op1 & [n Hn] & Hc); cbn in Hc.
  - subst ret. exists OB_ITER_END, row1, op1. split; [| done]. exists (S n). intros m k Hm Hk.
    destruct k as [| k]; [lia |]. cbn [do_distinct_loop]. rewrite Hn by lia. done.
  - destruct Hc as (-> & -> & Hlend & Hrest). cbn [skip].
    destruct (Z.eqb_spec (cmp r other) 0) as [E | E].
    + destruct (IH op1 (Some r) Hrest) as (ret2 & row2 & op2 & [n2 H2] & Hc2).
      exists ret2, row2, op2. split; [| done]. exists (S (n `max` n2)). intros m k Hm Hk.
      destruct k as [| k]; [lia |]. cbn [do_distinct_loop]. rewrite Hn by lia. cbn [mbind option_bind].
      change (OB_SUCCESS =? OB_SUCCESS) with true. cbn iota. rewrite ro_compare, bind_some by done.
      change (OB_SUCCESS =? OB_SUCCESS) with true. rewrite E. cbn. apply H2; lia.
    + exists OB_SUCCESS, (Some r), op1. split; [| done]. exists (S n). intros m k Hm Hk.
      destruct k as [| k]; [lia |]. cbn [do_distinct_loop]. rewrite Hn by lia. cbn [mbind option_bind].
      change (OB_SUCCESS =? OB_SUCCESS) with true. cbn iota. rewrite ro_compare, bind_some by done.
      change (OB_SUCCESS =? OB_SUCCESS) with true. apply Z.eqb_neq in E. by rewrite E.
Qed.
End Current.

Lemma int_rows_ordered c ns : StronglySorted Z.le ns -> sorted rows_compare (map (int_row c) ns).
Proof.
  induction 1 as [| n ns Hs IH Hf]; cbn; constructor; [done |].
  apply Forall_fmap. eapply Forall_impl; [exact Hf |]. cbn. intros m Hm. rewrite int_row_compare. unfold cmp3.
  destruct (Z.ltb_spec n m), (Z.eqb_spec n m); lia.
Qed.

Lemma int_rows_ok c ns : valid_column_id c -> Forall int64_range ns -> StronglySorted Z.le ns ->
  rows_ok (typed_row int_column) rows_compare (map (int_row c) ns).
Proof. intros Hc Hn Hs. split; [by apply int_rows_typed | by apply int_rows_ordered]. Qed.
