(* ===== verification/JoinSpec.v ===== *)
(** * Joins of sorted lists

    What a merge join computes, on lists: a reference definition in the order of
    the merge ([merge_join]) and the join of the relational algebra
    ([sql_join]), which for sorted lists has the same rows as often. *)

From S2P Require Import Prelude.
From Stdlib Require Import Sorted Permutation.
Local Open Scope Z_scope.

Section While.
Context {A : Type} (p : A -> bool).

Fixpoint take_while (l : list A) : list A :=
  match l with
  | [] => []
  | x :: l' => if p x then x :: take_while l' else []
  end.

Fixpoint drop_while (l : list A) : list A :=
  match l with
  | [] => []
  | x :: l' => if p x then drop_while l' else l
  end.

Lemma take_drop_while l : take_while l ++ drop_while l = l.
Proof. induction l as [| x l IH]; [done |]. cbn. destruct (p x); cbn; congruence. Qed.

Lemma take_while_all l : Forall (fun x => p x = true) (take_while l).
Proof. induction l as [| x l IH]; [constructor |]. cbn. destruct (p x) eqn:E; by constructor. Qed.

Lemma drop_while_suffix l : drop_while l `suffix_of` l.
Proof.
  induction l as [| x l IH]; [done |]. cbn. destruct (p x); [by apply suffix_cons_r | done].
Qed.
End While.

Lemma filter_all {X} (P : X -> Prop) `{!forall x, Decision (P x)} l : Forall P l -> filter P l = l.
Proof. induction 1 as [| y l Hy _ IH]; [done |]. by rewrite filter_cons, decide_True, IH. Qed.

Lemma filter_none {X} (P : X -> Prop) `{!forall x, Decision (P x)} l : Forall (fun x => ~ P x) l -> filter P l = [].
Proof. induction 1 as [| y l Hy _ IH]; [done |]. by rewrite filter_cons, decide_False. Qed.

Lemma filter_same {X} (P Q : X -> Prop) `{!forall x, Decision (P x), !forall x, Decision (Q x)} l :
  Forall (fun x => P x <-> Q x) l -> filter P l = filter Q l.
Proof.
  induction 1 as [| y l Hy _ IH]; [done |]. rewrite !filter_cons, IH.
  destruct (decide (P y)), (decide (Q y)); tauto || done.
Qed.

Section Join.
(** Left rows, right rows, keys, joined rows. *)
Context {A B K T : Type} (lk : A -> K) (rk : B -> K) (D : K -> Prop) (cmp : K -> K -> Z) `{!CmpOrder D cmp}.
Context (pair : A -> B -> T) (alone_l : A -> T) (alone_r : B -> T) (left_outer right_outer : bool).
Implicit Types (x : A) (y : B) (L : list A) (R : list B).

Definition equals x y : bool := cmp (lk x) (rk y) =? 0.
Definition above x y : bool := 0 <? cmp (lk x) (rk y).

Definition lefts L : list T := if left_outer then map alone_l L else [].
Definition rights R : list T := if right_outer then map alone_r R else [].

(** A left row with the right rows that equal it. *)
Definition partners x R : list T := match R with [] => lefts [x] | _ => map (pair x) R end.

(** The right rows the next left row meets: again those that equal [x], if it
    equals [x] too. *)
Definition rest_for x L R : list B :=
  match L with
  | x' :: _ => if cmp (lk x) (lk x') =? 0 then R else drop_while (equals x) R
  | [] => drop_while (equals x) R
  end.

Fixpoint merge_join L R : list T :=
  match L with
  | [] => rights R
  | x :: L' =>
      let R1 := drop_while (above x) R in
      rights (take_while (above x) R) ++ partners x (take_while (equals x) R1) ++ merge_join L' (rest_for x L' R1)
  end.

(** The join of the relational algebra: the equal pairs, then the rows without
    partner of the outer sides. *)
Definition pairs L R : list T := concat (map (fun x => map (pair x) (filter (fun y => equals x y = true) R)) L).

Definition sql_join L R : list T :=
  pairs L R ++ lefts (filter (fun x => Forall (fun y => equals x y = false) R) L) ++
  rights (filter (fun y => Forall (fun x => equals x y = false) L) R).

Definition left_sorted L : Prop := Forall (fun x => D (lk x)) L /\ StronglySorted (fun x x' => cmp (lk x) (lk x') <= 0) L.
Definition right_sorted R : Prop := Forall (fun y => D (rk y)) R /\ StronglySorted (fun y y' => cmp (rk y) (rk y') <= 0) R.

(** ** A sorted right side as a left row sees it *)

Lemma right_sorted_suffix R R' : R' `suffix_of` R -> right_sorted R -> right_sorted R'.
Proof.
  intros [l ->] [Hd Hs]. split; [by apply Forall_app in Hd as [_ ?] |].
  induction l as [| y l IH]; [done |]. apply Forall_cons in Hd as [_ Hd].
  apply StronglySorted_inv in Hs as [Hs _]. by apply IH.
Qed.

Lemma left_sorted_tail x L : left_sorted (x :: L) ->
  D (lk x) /\ left_sorted L /\ Forall (fun x' => cmp (lk x) (lk x') <= 0) L.
Proof.
  intros [[Hx Hd]%Forall_cons Hs]. apply StronglySorted_inv in Hs as [Hs Hb]. by conjs.
Qed.

Lemma below_all x y R : D (lk x) -> right_sorted (y :: R) -> cmp (lk x) (rk y) <= 0 ->
  Forall (fun y' => cmp (lk x) (rk y') <= 0) (y :: R).
Proof.
  intros Hx [[Hy Hd]%Forall_cons Hs] Hle. apply StronglySorted_inv in Hs as [_ Hb]. constructor; [done |].
  rewrite Forall_forall in *. intros y' Hin. apply (cmp_trans (lk x) (rk y)); auto.
Qed.

Lemma drop_above x R : D (lk x) -> right_sorted R ->
  Forall (fun y => cmp (lk x) (rk y) <= 0) (drop_while (above x) R).
Proof.
  intros Hx. induction R as [| y R IH]; intros Hs; [constructor |]. cbn. unfold above at 1.
  destruct (Z.ltb_spec 0 (cmp (lk x) (rk y))); [| by apply below_all].
  apply IH. eapply right_sorted_suffix; [| exact Hs]. by apply suffix_cons_r.
Qed.

Lemma drop_equal x R : D (lk x) -> right_sorted R -> Forall (fun y => cmp (lk x) (rk y) <= 0) R ->
  Forall (fun y => cmp (lk x) (rk y) < 0) (drop_while (equals x) R).
Proof.
  intros Hx. induction R as [| y R IH]; intros Hs Hb; [constructor |]. cbn. unfold equals at 1.
  apply Forall_cons in Hb as [Hy Hb]. destruct (Z.eqb_spec (cmp (lk x) (rk y)) 0) as [E | E].
  - apply IH; [| done]. eapply right_sorted_suffix; [| exact Hs]. by apply suffix_cons_r.
  - destruct Hs as [[Hdy Hd]%Forall_cons Hs]. apply StronglySorted_inv in Hs as [_ Hs].
    constructor; [lia |]. rewrite Forall_forall in *. intros y' Hin.
    apply (cmp_lt_trans D cmp (lk x) (rk y)); auto; lia.
Qed.

(** Below, equal, above. *)
Lemma right_split x R : D (lk x) -> right_sorted R ->
  exists low same high,
    take_while (above x) R = low /\ drop_while (above x) R = same ++ high /\
    take_while (equals x) (same ++ high) = same /\ drop_while (equals x) (same ++ high) = high /\
    R = low ++ same ++ high /\
    Forall (fun y => 0 < cmp (lk x) (rk y)) low /\ Forall (fun y => cmp (lk x) (rk y) = 0) same /\
    Forall (fun y => cmp (lk x) (rk y) < 0) high.
Proof.
  intros Hx Hs. set (R1 := drop_while (above x) R).
  assert (Hs1 : right_sorted R1) by (eapply right_sorted_suffix; [apply drop_while_suffix | done]).
  exists (take_while (above x) R), (take_while (equals x) R1), (drop_while (equals x) R1).
  rewrite (take_drop_while (equals x) R1).
  conjs; [done | done | done | done | | | |].
  - unfold R1. by rewrite take_drop_while.
  - eapply Forall_impl; [apply take_while_all |]. cbn. unfold above. intros y. apply Z.ltb_lt.
  - eapply Forall_impl; [apply take_while_all |]. cbn. unfold equals. intros y. apply Z.eqb_eq.
  - apply drop_equal; [done | done |]. by apply drop_above.
Qed.

Definition unmatched L y : Prop := Forall (fun x => equals x y = false) L.

(** A right row below [x] equals no later left row, nor does one equal to [x] if
    the next left row is above it. *)
Lemma low_unmatched x L y : left_sorted (x :: L) -> D (rk y) -> 0 < cmp (lk x) (rk y) -> unmatched L y.
Proof.
  intros HL Hy Hlt. destruct (left_sorted_tail x L HL) as (Hx & [HDL _] & Hb). unfold unmatched.
  rewrite Forall_forall in HDL. rewrite Forall_forall in Hb. rewrite Forall_forall. intros x' Hx'.
  unfold equals. apply Z.eqb_neq. apply (cmp_neg D cmp) in Hlt; [| done | done].
  pose proof (cmp_lt_trans D cmp (rk y) (lk x) (lk x') Hy Hx (HDL x' Hx') Hlt (Hb x' Hx')) as H2.
  apply (cmp_neg D cmp) in H2; auto. lia.
Qed.

Lemma passed_unmatched x x1 L y :
  left_sorted (x :: x1 :: L) -> D (rk y) -> cmp (lk x) (lk x1) <> 0 -> cmp (lk x) (rk y) = 0 -> unmatched (x1 :: L) y.
Proof.
  intros HL Hy Hne Heq. destruct (left_sorted_tail x (x1 :: L) HL) as (Hx & [HDL HSL] & Hb). unfold unmatched.
  rewrite Forall_forall in HDL. rewrite Forall_forall in Hb. rewrite Forall_forall. intros x' Hx'.
  assert (Hlt : cmp (lk x) (lk x') < 0).
  { apply StronglySorted_inv in HSL as [_ HSL]. rewrite Forall_forall in HSL.
    pose proof (Hb x1 ltac:(by left)). apply elem_of_cons in Hx' as [-> | Hin]; [lia |].
    apply (cmp_lt_trans D cmp (lk x) (lk x1)); auto; [apply HDL; by left | apply HDL; by right | lia]. }
  unfold equals. apply Z.eqb_neq. pose proof (cmp_eq_l D cmp (lk x) (rk y) (lk x') Hx Hy (HDL x' Hx') Heq) as Hsgn.
  assert (H3 : cmp (rk y) (lk x') < 0) by lia. apply (cmp_neg D cmp) in H3; auto. lia.
Qed.

(** The right rows the following left rows still meet: those above [x] and,
    behind an equal left row, those equal to [x]. *)
Lemma rest_split x L R low same high :
  left_sorted (x :: L) -> right_sorted R -> R = low ++ same ++ high ->
  drop_while (equals x) (same ++ high) = high ->
  Forall (fun y => 0 < cmp (lk x) (rk y)) low -> Forall (fun y => cmp (lk x) (rk y) = 0) same ->
  Forall (unmatched L) low /\
  ((rest_for x L (same ++ high) = high /\ Forall (unmatched L) same) \/
   (rest_for x L (same ++ high) = same ++ high /\ Forall (fun y => ~ unmatched L y) same)).
Proof.
  intros HL [HR _] -> Hhigh Hlow Hsame. rewrite !Forall_app in HR. destruct HR as (HR1 & HR2 & _). split.
  - rewrite Forall_forall in *. intros y Hy. apply (low_unmatched x); auto.
  - unfold rest_for. rewrite Hhigh. destruct L as [| x1 L].
    + left. split; [done |]. rewrite Forall_forall. intros y _. constructor.
    + destruct (Z.eqb_spec (cmp (lk x) (lk x1)) 0) as [E | E]; [right | left]; (split; [done |]).
      * destruct (left_sorted_tail x (x1 :: L) HL) as (Hx & [[Hx1 _]%Forall_cons _] & _).
        rewrite Forall_forall in *. intros y Hy [Hn _]%Forall_cons. unfold equals in Hn. apply Z.eqb_neq in Hn.
        pose proof (cmp_eq_l D cmp (lk x) (lk x1) (rk y) Hx Hx1 (HR2 y Hy) E). pose proof (Hsame y Hy). lia.
      * rewrite Forall_forall in *. intros y Hy. apply (passed_unmatched x); auto.
Qed.

(** ** The merge has the rows of the join *)

Lemma filter_unmatched x L R :
  Forall (unmatched (x :: L)) R -> filter (fun y => equals x y = true) R = [].
Proof.
  induction 1 as [| y R Hy _ IH]; [done |]. apply Forall_cons in Hy as [Hy _]. rewrite filter_cons, decide_False; [done | congruence].
Qed.

Lemma pairs_drop L R1 R2 : Forall (unmatched L) R1 -> pairs L (R1 ++ R2) = pairs L R2.
Proof.
  unfold pairs. induction L as [| x L IH]; intros H; [done |]. cbn [map concat]. f_equal.
  - by rewrite filter_app, (filter_unmatched x L).
  - apply IH. eapply Forall_impl; [exact H |]. by intros y [_ ?]%Forall_cons.
Qed.

Lemma alone_drop L R1 R2 : Forall (unmatched L) R1 ->
  filter (fun x => Forall (fun y => equals x y = false) (R1 ++ R2)) L =
  filter (fun x => Forall (fun y => equals x y = false) R2) L.
Proof.
  induction L as [| x L IH]; intros H; [done |]. rewrite !filter_cons, IH.
  2:{ eapply Forall_impl; [exact H |]. by intros y [_ ?]%Forall_cons. }
  assert (Hx : Forall (fun y => equals x y = false) R1) by (eapply Forall_impl; [exact H |]; by intros y [? _]%Forall_cons).
  destruct (decide _) as [H1 | H1], (decide _) as [H2 | H2]; [done | | | done]; exfalso.
  - apply H2. by apply Forall_app in H1 as [_ ?].
  - apply H1, Forall_app. by split.
Qed.

#[local] Instance unmatched_dec L y : Decision (unmatched L y).
Proof. unfold unmatched. apply _. Defined.

(** The right rows without partner. *)
Lemma rights_step x L low same high rest :
  Forall (fun y => 0 < cmp (lk x) (rk y)) low -> Forall (fun y => cmp (lk x) (rk y) = 0) same ->
  Forall (fun y => cmp (lk x) (rk y) < 0) high -> Forall (unmatched L) low ->
  (rest = high /\ Forall (unmatched L) same) \/ (rest = same ++ high /\ Forall (fun y => ~ unmatched L y) same) ->
  filter (unmatched (x :: L)) (low ++ same ++ high) = low ++ filter (unmatched L) rest.
Proof.
  intros Hlow Hsame Hhigh Hul Hrest. rewrite !filter_app.
  assert (E1 : filter (unmatched (x :: L)) low = low).
  { apply filter_all. rewrite Forall_forall in *. intros y Hy. constructor; [| by apply Hul].
    unfold equals. apply Z.eqb_neq. pose proof (Hlow y Hy). lia. }
  assert (E2 : filter (unmatched (x :: L)) same = []).
  { apply filter_none. rewrite Forall_forall in *. intros y Hy [Hn _]%Forall_cons.
    unfold equals in Hn. apply Z.eqb_neq in Hn. by apply Hn, Hsame. }
  assert (E3 : filter (unmatched (x :: L)) high = filter (unmatched L) high).
  { apply filter_same. rewrite Forall_forall in *. intros y Hy. unfold unmatched. rewrite Forall_cons. split; [tauto |].
    split; [| done]. unfold equals. apply Z.eqb_neq. pose proof (Hhigh y Hy). lia. }
  rewrite E1, E2, E3. cbn [app]. f_equal. destruct Hrest as [[-> _] | [-> Hs]]; [done |].
  by rewrite filter_app, (filter_none (unmatched L) same Hs).
Qed.

Lemma filter_equal x low same high :
  Forall (fun y => 0 < cmp (lk x) (rk y)) low -> Forall (fun y => cmp (lk x) (rk y) = 0) same ->
  Forall (fun y => cmp (lk x) (rk y) < 0) high ->
  filter (fun y => equals x y = true) (low ++ same ++ high) = same.
Proof.
  intros Hlow Hsame Hhigh. rewrite !filter_app. unfold equals.
  rewrite (filter_none _ low), (filter_all _ same), (filter_none _ high), app_nil_r; [done | | |];
    rewrite Forall_forall in *; intros y Hy; rewrite Z.eqb_eq.
  - pose proof (Hhigh y Hy). lia.
  - by apply Hsame.
  - pose proof (Hlow y Hy). lia.
Qed.

Lemma rights_app R1 R2 : rights (R1 ++ R2) = rights R1 ++ rights R2.
Proof. unfold rights. destruct right_outer; [apply map_app | done]. Qed.

Lemma lefts_app L1 L2 : lefts (L1 ++ L2) = lefts L1 ++ lefts L2.
Proof. unfold lefts. destruct left_outer; [apply map_app | done]. Qed.

(** One left row. *)
Lemma sql_join_step x L low same high rest :
  Forall (fun y => 0 < cmp (lk x) (rk y)) low -> Forall (fun y => cmp (lk x) (rk y) = 0) same ->
  Forall (fun y => cmp (lk x) (rk y) < 0) high -> Forall (unmatched L) low ->
  (rest = high /\ Forall (unmatched L) same) \/ (rest = same ++ high /\ Forall (fun y => ~ unmatched L y) same) ->
  sql_join (x :: L) (low ++ same ++ high) ≡ₚ rights low ++ partners x same ++ sql_join L rest.
Proof.
  intros Hlow Hsame Hhigh Hul Hrest. unfold sql_join.
  change (filter (fun y => Forall (fun x => equals x y = false) (x :: L)) (low ++ same ++ high))
    with (filter (unmatched (x :: L)) (low ++ same ++ high)).
  rewrite (rights_step x L low same high rest) by done. rewrite rights_app.
  change (filter (fun y => Forall (fun x => equals x y = false) L) rest) with (filter (unmatched L) rest).
  assert (Hdrop : exists dropped, low ++ same ++ high = dropped ++ rest /\ Forall (unmatched L) dropped).
  { destruct Hrest as [[-> Hs] | [-> _]]; [exists (low ++ same) | by exists low].
    rewrite <- app_assoc. split; [done |]. by apply Forall_app. }
  destruct Hdrop as (dropped & E & Hd).
  assert (Epairs : pairs (x :: L) (low ++ same ++ high) = map (pair x) same ++ pairs L rest).
  { change (pairs (x :: L) (low ++ same ++ high)) with
      (map (pair x) (filter (fun y => equals x y = true) (low ++ same ++ high)) ++ pairs L (low ++ same ++ high)).
    rewrite filter_equal by done. by rewrite E, pairs_drop. }
  assert (Elefts : lefts (filter (fun x => Forall (fun y => equals x y = false) (low ++ same ++ high)) (x :: L)) =
            lefts (match same with [] => [x] | _ => [] end) ++
            lefts (filter (fun x => Forall (fun y => equals x y = false) rest) L)).
  { rewrite filter_cons, E, alone_drop, <- E by done. destruct same as [| y same].
    - rewrite decide_True; [by rewrite <- lefts_app |]. cbn [app]. apply Forall_app.
      unfold equals. rewrite !Forall_forall in *. split; intros y Hy; apply Z.eqb_neq;
        [pose proof (Hlow y Hy) | pose proof (Hhigh y Hy)]; lia.
    - rewrite decide_False; [unfold lefts at 2; by destruct left_outer |].
      rewrite !Forall_app. intros (_ & [Hn _]%Forall_cons & _). apply Forall_cons in Hsame as [Hs _].
      unfold equals in Hn. apply Z.eqb_neq in Hn. lia. }
  rewrite Epairs, Elefts. unfold partners.
  destruct same as [| y same]; [cbn [map app] | rewrite (ltac:(unfold lefts; by destruct left_outer) : lefts [] = []); cbn [app]].
  all: set (P := pairs L rest); set (Lf := lefts (filter _ L)); set (Rr := rights (filter _ rest)); set (Rl := rights low).
  - set (Lx := lefts [x]). rewrite <- app_assoc, (Permutation_app_swap_app P Lx).
    replace (Lx ++ P ++ Lf ++ Rl ++ Rr) with ((Lx ++ P ++ Lf) ++ Rl ++ Rr) by (by rewrite <- !app_assoc).
    rewrite (Permutation_app_swap_app (Lx ++ P ++ Lf)). by rewrite <- !app_assoc.
  - set (Mx := map (pair x) (y :: same)).
    replace ((Mx ++ P) ++ Lf ++ Rl ++ Rr) with ((Mx ++ P ++ Lf) ++ Rl ++ Rr) by (by rewrite <- !app_assoc).
    rewrite (Permutation_app_swap_app (Mx ++ P ++ Lf)). by rewrite <- !app_assoc.
Qed.

(** On sorted lists the merge and the join have the same rows. *)
Lemma merge_join_sql L R : left_sorted L -> right_sorted R -> merge_join L R ≡ₚ sql_join L R.
Proof.
  revert R. induction L as [| x L IH]; intros R HL HR.
  - unfold sql_join, pairs. cbn [map concat app merge_join].
    change (filter _ []) with (@nil A). rewrite (ltac:(unfold lefts; by destruct left_outer) : lefts [] = []). cbn [app].
    rewrite filter_all; [done |]. rewrite Forall_forall. intros y _. constructor.
  - destruct (left_sorted_tail x L HL) as (Hx & HL' & _).
    destruct (right_split x R Hx HR) as (low & same & high & E1 & E2 & E3 & E4 & ER & Hlow & Hsame & Hhigh).
    destruct (rest_split x L R low same high HL HR ER E4 Hlow Hsame) as [Hul Hrest].
    cbn [merge_join]. rewrite E1, E2, E3, IH; [| done |].
    + rewrite ER. symmetry. by apply sql_join_step.
    + eapply right_sorted_suffix; [| exact HR]. rewrite ER.
      destruct Hrest as [[-> _] | [-> _]]; [by apply suffix_app_r, suffix_app_r | by apply suffix_app_r].
Qed.

(** ** The merge, one comparison at a time *)

Lemma merge_join_left_end x L : merge_join (x :: L) [] = lefts [x] ++ merge_join L [].
Proof.
  cbn. assert (E : rest_for x L [] = []) by (destruct L; cbn; [done | by destruct (_ =? _)]).
  rewrite E. unfold rights. by destruct right_outer.
Qed.

Lemma merge_join_below x L y R :
  cmp (lk x) (rk y) < 0 -> merge_join (x :: L) (y :: R) = lefts [x] ++ merge_join L (y :: R).
Proof.
  intros H. assert (Ha : above x y = false) by (apply Z.ltb_ge; lia).
  assert (He : equals x y = false) by (apply Z.eqb_neq; lia).
  cbn [merge_join take_while drop_while]. rewrite Ha. cbn [take_while]. rewrite He. cbn [partners app].
  assert (E : rest_for x L (y :: R) = y :: R).
  { destruct L; cbn [rest_for drop_while]; rewrite He; [done | by destruct (_ =? _)]. }
  rewrite E. unfold rights. by destruct right_outer.
Qed.

Lemma merge_join_above x L y R :
  0 < cmp (lk x) (rk y) -> merge_join (x :: L) (y :: R) = rights [y] ++ merge_join (x :: L) R.
Proof.
  intros H. assert (Ha : above x y = true) by (by apply Z.ltb_lt).
  cbn [merge_join take_while drop_while]. rewrite Ha. unfold rights. by destruct right_outer.
Qed.

(** [x] has met the right rows [Y], which equal it, and meets [R] next. *)
Definition collecting x L (Y R : list B) : list T :=
  map (pair x) (take_while (equals x) R) ++ merge_join L (rest_for x L (Y ++ R)).

Lemma merge_join_equal x L y R :
  cmp (lk x) (rk y) = 0 -> merge_join (x :: L) (y :: R) = collecting x L [] (y :: R).
Proof.
  intros H. assert (Ha : above x y = false) by (apply Z.ltb_ge; lia).
  assert (He : equals x y = true) by (by apply Z.eqb_eq).
  unfold collecting. cbn [merge_join take_while drop_while app]. rewrite Ha. cbn [take_while]. rewrite He.
  cbn [partners]. unfold rights. by destruct right_outer.
Qed.

Lemma collecting_equal x L Y y R :
  cmp (lk x) (rk y) = 0 -> collecting x L Y (y :: R) = pair x y :: collecting x L (Y ++ [y]) R.
Proof.
  intros H. assert (He : equals x y = true) by (by apply Z.eqb_eq).
  unfold collecting. cbn [take_while]. rewrite He. cbn [map app]. by rewrite <- app_assoc.
Qed.

(** The right rows behind those that equal [x]. *)
Definition beyond x R : Prop := match R with [] => True | y :: _ => cmp (lk x) (rk y) < 0 end.

Lemma beyond_take x R : beyond x R -> take_while (equals x) R = [] /\ drop_while (equals x) R = R.
Proof.
  destruct R as [| y R]; [done |]. intros H. assert (He : equals x y = false) by (apply Z.eqb_neq; cbn in H; lia).
  cbn [take_while drop_while]. by rewrite He.
Qed.

Lemma while_app x Y R : Forall (fun y => cmp (lk x) (rk y) = 0) Y -> beyond x R ->
  take_while (equals x) (Y ++ R) = Y /\ drop_while (equals x) (Y ++ R) = R.
Proof.
  intros HY HR. destruct (beyond_take x R HR) as [E1 E2].
  induction HY as [| y Y Hy _ [IH1 IH2]]; [done |]. cbn [take_while drop_while app].
  assert (He : equals x y = true) by (by apply Z.eqb_eq). rewrite He, IH1, IH2. done.
Qed.

(** A left row that meets the right rows kept for [x0], [p] of them passed. *)
Definition rereading x0 x L (Y R : list B) (p : nat) : list T :=
  if cmp (lk x0) (lk x) =? 0 then map (pair x) (drop p Y) ++ merge_join L (rest_for x L (Y ++ R))
  else merge_join (x :: L) R.

(** The next left row behind [x], which has met all its partners [Y]. *)
Definition next_rereading x L (Y R : list B) : list T :=
  match L with
  | [] => rights R
  | x' :: L' => rereading x x' L' Y R 0
  end.

Lemma equal_keys x x' Y : D (lk x) -> D (lk x') -> Forall (fun y => D (rk y)) Y -> cmp (lk x) (lk x') = 0 ->
  Forall (fun y => cmp (lk x) (rk y) = 0) Y -> Forall (fun y => cmp (lk x') (rk y) = 0) Y.
Proof.
  intros Hx Hx' HY E H. rewrite Forall_forall in *. intros y Hy.
  pose proof (cmp_eq_l D cmp (lk x) (lk x') (rk y) Hx Hx' (HY y Hy) E). pose proof (H y Hy). lia.
Qed.

Lemma equal_beyond x x' R : D (lk x) -> D (lk x') -> Forall (fun y => D (rk y)) R -> cmp (lk x) (lk x') = 0 ->
  beyond x R -> beyond x' R.
Proof.
  intros Hx Hx' HR E. destruct R as [| y R]; [done |]. apply Forall_cons in HR as [Hy _]. cbn.
  pose proof (cmp_eq_l D cmp (lk x) (lk x') (rk y) Hx Hx' Hy E). lia.
Qed.

Lemma after_partners x L Y R :
  left_sorted (x :: L) -> Forall (fun y => D (rk y)) (Y ++ R) -> Y <> [] ->
  Forall (fun y => cmp (lk x) (rk y) = 0) Y -> beyond x R ->
  merge_join L (rest_for x L (Y ++ R)) = next_rereading x L Y R.
Proof.
  intros HL HD HYne HY HR. destruct (while_app x Y R HY HR) as [E1 E2].
  destruct L as [| x' L]; cbn [rest_for next_rereading]; [by rewrite E2 |].
  unfold rereading. destruct (Z.eqb_spec (cmp (lk x) (lk x')) 0) as [E | E]; [| by rewrite E2].
  destruct (left_sorted_tail x (x' :: L) HL) as (Hx & [[Hx' _]%Forall_cons _] & _).
  apply Forall_app in HD as [HDY HDR].
  pose proof (equal_keys x x' Y Hx Hx' HDY E HY) as HY'. pose proof (equal_beyond x x' R Hx Hx' HDR E HR) as HR'.
  destruct (while_app x' Y R HY' HR') as [E1' _]. cbn [drop].
  cut (take_while (above x') (Y ++ R) = [] /\ drop_while (above x') (Y ++ R) = Y ++ R).
  { intros [H1 H2]. cbn [merge_join]. rewrite H1, H2, E1'. unfold rights, partners.
    destruct Y; [done |]. by destruct right_outer. }
  destruct Y as [| y Y]; [done |]. apply Forall_cons in HY' as [Hy _]. cbn [app take_while drop_while].
  unfold above. destruct (Z.ltb_spec 0 (cmp (lk x') (rk y))); [lia | done].
Qed.
End Join.

(** ** The join as a relation

    Its rows do not depend on the order of the children's rows, nor on what a
    relation that keeps the keys identifies. *)

Lemma filter_related {X Y} (S : X -> Y -> Prop) (P : X -> Prop) (Q : Y -> Prop)
    `{!forall x, Decision (P x), !forall y, Decision (Q y)} l l' :
  (forall x y, S x y -> P x <-> Q y) -> Forall2 S l l' -> Forall2 S (filter P l) (filter Q l').
Proof.
  intros HPQ. induction 1 as [| x y l l' Hxy _ IH]; [constructor |]. rewrite !filter_cons. pose proof (HPQ x y Hxy).
  destruct (decide (P x)), (decide (Q y)); tauto || by try constructor.
Qed.

Section Relation.
Context {A B K T : Type} (lk : A -> K) (rk : B -> K) (cmp : K -> K -> Z).
Context (pair : A -> B -> T) (alone_l : A -> T) (alone_r : B -> T) (left_outer right_outer : bool).

Abbreviation join := (sql_join lk rk cmp pair alone_l alone_r left_outer right_outer).
Abbreviation eqs := (equals lk rk cmp).

Lemma pairs_permutation L L' R R' : L ≡ₚ L' -> R ≡ₚ R' -> pairs lk rk cmp pair L R ≡ₚ pairs lk rk cmp pair L' R'.
Proof.
  intros HL HR. unfold pairs. rewrite <- !flat_map_concat_map. etrans; [by apply Permutation_flat_map |]. clear HL L.
  induction L' as [| x L IH]; [done |]. cbn. apply Permutation_app; [| done]. apply Permutation_map. by rewrite HR.
Qed.

Lemma sql_join_permutation L L' R R' : L ≡ₚ L' -> R ≡ₚ R' -> join L R ≡ₚ join L' R'.
Proof.
  intros HL HR. unfold sql_join. apply Permutation_app; [by apply pairs_permutation |].
  assert (HfL : filter (fun x => Forall (fun y => eqs x y = false) R) L ≡ₚ filter (fun x => Forall (fun y => eqs x y = false) R') L').
  { etrans; [by apply filter_Permutation |]. erewrite filter_same; [done |]. apply Forall_true. intros x. by rewrite HR. }
  assert (HfR : filter (fun y => Forall (fun x => eqs x y = false) L) R ≡ₚ filter (fun y => Forall (fun x => eqs x y = false) L') R').
  { etrans; [by apply filter_Permutation |]. erewrite filter_same; [done |]. apply Forall_true. intros y. by rewrite HL. }
  apply Permutation_app; unfold lefts, rights; [destruct left_outer | destruct right_outer]; try done; by apply Permutation_map.
Qed.

Context (SA : A -> A -> Prop) (SB : B -> B -> Prop) (ST : T -> T -> Prop).
Context (Hkeys : forall x' x y' y, SA x' x -> SB y' y -> cmp (lk x') (rk y') = cmp (lk x) (rk y)).
Context (Hpair : forall x' x y' y, SA x' x -> SB y' y -> ST (pair x' y') (pair x y)).
Context (Hleft : forall x' x, SA x' x -> ST (alone_l x') (alone_l x)) (Hright : forall y' y, SB y' y -> ST (alone_r y') (alone_r y)).

Lemma sql_join_related L' L R' R : Forall2 SA L' L -> Forall2 SB R' R -> Forall2 ST (join L' R') (join L R).
Proof.
  intros HL HR.
  assert (Heq : forall x' x y' y, SA x' x -> SB y' y -> eqs x' y' = eqs x y)
    by (intros; unfold equals; by erewrite Hkeys).
  unfold sql_join. apply Forall2_app; [| apply Forall2_app].
  - unfold pairs. induction HL as [| x' x L' L Hx _ IH]; [constructor |]. cbn. apply Forall2_app; [| done].
    apply Forall2_fmap, (Forall2_impl SB); [| by intros; apply Hpair].
    apply filter_related; [| done]. intros y' y Hy. by rewrite (Heq x' x y' y).
  - unfold lefts. destruct left_outer; [| constructor]. apply Forall2_fmap, (Forall2_impl SA); [| done].
    apply filter_related; [| done]. intros x' x Hx. clear HL. induction HR as [| y' y R' R Hy _ IH]; [by split; constructor |].
    by rewrite !Forall_cons, IH, (Heq x' x y' y).
  - unfold rights. destruct right_outer; [| constructor]. apply Forall2_fmap, (Forall2_impl SB); [| done].
    apply filter_related; [| done]. intros y' y Hy. clear HR. induction HL as [| x' x L' L Hx _ IH]; [by split; constructor |].
    by rewrite !Forall_cons, IH, (Heq x' x y' y).
Qed.
End Relation.
