(* ===== verification/MergeJoin.v ===== *)
(** * Merge join

    [sql/ob_join.{h,cpp}] and [sql/ob_merge_join.{h,cpp}]: the join of two
    children sorted on the columns of the equality conditions.  The right rows
    equal to a left row are kept in a row store, from which the following equal
    left rows read them again.

    The four functions behind [get_next_row] repeat one loop.  They differ in
    what happens to a row without partner, and the model has that as the flags
    [left_outer] and [right_outer].

    [ObSqlExpression] is not modelled.  An equality condition is the pair of
    columns [is_equijoin_cond] finds in it, [None] when it is not of that form;
    another condition is its value on a row. *)

From S2P Require Import Prelude ObObject ObExprObj ObRowDesc ObRow ObBuffer ObCompactCell ObRowUtil ObRowStore.
From S2P Require Import PhyOperator RowKey SetOperator.
Local Open Scope Z_scope.

Inductive JoinType :=
  | INNER_JOIN | LEFT_OUTER_JOIN | RIGHT_OUTER_JOIN | FULL_OUTER_JOIN
  | LEFT_SEMI_JOIN | RIGHT_SEMI_JOIN | LEFT_ANTI_SEMI_JOIN | RIGHT_ANTI_SEMI_JOIN.

Abbreviation Condition := (option (Desc * Desc)).
Abbreviation Expression := (ObRow -> option (Z * ObObj)).

(** [children_] are the two pointers of [ObDoubleChildrenPhyOperator];
    [get_next_row_func_] is the join type whose function it points to;
    [last_join_left_row_store_] tells whether its buffer is allocated. *)
Record ObMergeJoin (C : Type) := mkJoin {
  children_ : ObSetOperator C;
  get_next_row_func_ : option JoinType;
  equal_join_conds_ : list Condition;
  other_join_conds_ : list Expression;
  last_left_row_ : option ObRow;
  last_right_row_ : option ObRow;
  last_join_left_row_ : ObRow;
  last_join_left_row_store_ : bool;
  right_cache_ : ObRowStore;
  curr_cached_right_row_ : ObRow;
  curr_row_ : ObRow;
  join_row_desc_ : ObRowDesc;
  right_cache_is_valid_ : bool;
  is_right_iter_end_ : bool
}.
Arguments mkJoin {C}.
Arguments children_ {C}.
Arguments get_next_row_func_ {C}.
Arguments equal_join_conds_ {C}.
Arguments other_join_conds_ {C}.
Arguments last_left_row_ {C}.
Arguments last_right_row_ {C}.
Arguments last_join_left_row_ {C}.
Arguments last_join_left_row_store_ {C}.
Arguments right_cache_ {C}.
Arguments curr_cached_right_row_ {C}.
Arguments curr_row_ {C}.
Arguments join_row_desc_ {C}.
Arguments right_cache_is_valid_ {C}.
Arguments is_right_iter_end_ {C}.

(** [MAX_SINGLE_ROW_SIZE = OB_ROW_MAX_COLUMNS_COUNT * (OB_MAX_VARCHAR_LENGTH + 4)] *)
Definition MAX_SINGLE_ROW_SIZE : Z := 512 * (64 * 1024 + 4).

(** ** Comparing and joining rows *)

Section Rows.
Context (obj_cast : ObObjType -> ObObjType -> ObExprObj -> option (Z * ObExprObj)).

(** The loop over the conditions: [pick] is the column of the second row,
    [on_error] the result when the values do not compare, after which the loop
    goes on. *)
Fixpoint compare_conds (pick : Desc * Desc -> Desc) (on_error : ObExprObj -> Z) (conds : list Condition)
    (r1 r2 : ObRow) (cmp : Z) : option (Z * Z) :=
  match conds with
  | [] => Some (OB_SUCCESS, cmp)
  | None :: _ => Some (OB_ERR_UNEXPECTED, cmp)
  | Some (c1, c2) :: conds' =>
      match get_cell r1 (table_id_ c1) (column_id_ c1) with
      | (ret, None) => Some (ret, cmp)
      | (_, Some res1) =>
          match get_cell r2 (table_id_ (pick (c1, c2))) (column_id_ (pick (c1, c2))) with
          | (ret, None) => Some (ret, cmp)
          | (_, Some res2) =>
              obj1 ← expr_assign res1 ;
              obj2 ← expr_assign res2 ;
              '(ret, cmp) ← expr_compare obj_cast obj1 obj2 ;
              if negb (ret =? OB_SUCCESS) then compare_conds pick on_error conds' r1 r2 (on_error obj1)
              else if negb (cmp =? 0) then Some (OB_SUCCESS, cmp)
              else compare_conds pick on_error conds' r1 r2 cmp
          end
      end
  end.

Definition compare_equijoin_cond (conds : list Condition) (r1 r2 : ObRow) : option (Z * Z) :=
  compare_conds snd (fun obj1 => if type_eqb (get_type obj1) ObNullType then -10 else 10) conds r1 r2 0.

Definition left_row_compare_equijoin_cond (conds : list Condition) (r1 r2 : ObRow) : option (Z * Z) :=
  compare_conds fst (fun _ => -10) conds r1 r2 0.
End Rows.

(** A condition that fails does not end the loop, and its code is lost when the
    next one succeeds. *)
Fixpoint qualified (conds : list Expression) (row : ObRow) (ret : Z) : option (Z * bool) :=
  match conds with
  | [] => Some (ret, true)
  | expr :: conds' =>
      '(ret, res) ← expr row ;
      if negb (ret =? OB_SUCCESS) then qualified conds' row ret
      else b ← is_true res ; if (b : bool) then qualified conds' row ret else Some (OB_SUCCESS, false)
  end.

(** Cells of [src] from [i] on to [dst], [off] further. *)
Fixpoint copy_cells (k : nat) (src : ObRow) (i off : Z) (dst : ObRow) : Z * ObRow :=
  match k with
  | O => (OB_SUCCESS, dst)
  | S k' =>
      match raw_get_cell_ids src i with
      | (_, None) => (OB_ERR_UNEXPECTED, dst)
      | (_, Some (cell, _)) =>
          let '(ret, dst) := raw_set_cell dst (off + i) cell in
          if ret =? OB_SUCCESS then copy_cells k' src (i + 1) off dst else (ret, dst)
      end
  end.

Definition null_cell : ObObj := set_null ObObj_new.

Fixpoint null_cells (k : nat) (i : Z) (dst : ObRow) : Z * ObRow :=
  match k with
  | O => (OB_SUCCESS, dst)
  | S k' =>
      let '(ret, dst) := raw_set_cell dst i null_cell in
      if ret =? OB_SUCCESS then null_cells k' (i + 1) dst else (ret, dst)
  end.

(** The index behind the first loop. *)
Definition cells_end (r : ObRow) : Z := Z.max 0 (row_column_num r).

Definition join_cells (r1 r2 curr : ObRow) : Z * ObRow :=
  let '(ret, curr) := copy_cells (Z.to_nat (row_column_num r1)) r1 0 0 curr in
  if ret =? OB_SUCCESS then copy_cells (Z.to_nat (row_column_num r2)) r2 0 (cells_end r1) curr else (ret, curr).

Definition left_join_cells (d : ObRowDesc) (r1 curr : ObRow) : Z * ObRow :=
  let right_row_column_num := get_column_num d - row_column_num r1 in
  let '(ret, curr) := copy_cells (Z.to_nat (row_column_num r1)) r1 0 0 curr in
  if ret =? OB_SUCCESS then null_cells (Z.to_nat right_row_column_num) (cells_end r1) curr else (ret, curr).

Definition right_join_cells (d : ObRowDesc) (r2 curr : ObRow) : Z * ObRow :=
  let left_row_column_num := get_column_num d - row_column_num r2 in
  let '(ret, curr) := null_cells (Z.to_nat left_row_column_num) 0 curr in
  if ret =? OB_SUCCESS then copy_cells (Z.to_nat (row_column_num r2)) r2 0 left_row_column_num curr else (ret, curr).

(** ** The operator *)

Section Operations.
Context {C : Type} `{!ObPhyOperator C}.
Context (obj_cast : ObObjType -> ObObjType -> ObExprObj -> option (Z * ObExprObj)).
(** Whether [ob_tc_malloc] gives a block of this size. *)
Context (malloc : Z -> bool).
Implicit Types j : ObMergeJoin C.

(** The description is built on memory of the object. *)
Definition ObMergeJoin_new (d : ObRowDesc) : ObMergeJoin C :=
  mkJoin ObSetOperator_new None [] [] None None ObRow_new false ObRowStore_new ObRow_new ObRow_new (rowdesc_reset d)
    false false.

Definition with_children j (b : ObSetOperator C) : ObMergeJoin C :=
  mkJoin b (get_next_row_func_ j) (equal_join_conds_ j) (other_join_conds_ j) (last_left_row_ j) (last_right_row_ j)
    (last_join_left_row_ j) (last_join_left_row_store_ j) (right_cache_ j) (curr_cached_right_row_ j) (curr_row_ j)
    (join_row_desc_ j) (right_cache_is_valid_ j) (is_right_iter_end_ j).

Definition with_last_rows j (left right : option ObRow) : ObMergeJoin C :=
  mkJoin (children_ j) (get_next_row_func_ j) (equal_join_conds_ j) (other_join_conds_ j) left right
    (last_join_left_row_ j) (last_join_left_row_store_ j) (right_cache_ j) (curr_cached_right_row_ j) (curr_row_ j)
    (join_row_desc_ j) (right_cache_is_valid_ j) (is_right_iter_end_ j).

Definition with_last_join j (row : ObRow) : ObMergeJoin C :=
  mkJoin (children_ j) (get_next_row_func_ j) (equal_join_conds_ j) (other_join_conds_ j) (last_left_row_ j)
    (last_right_row_ j) row (last_join_left_row_store_ j) (right_cache_ j) (curr_cached_right_row_ j) (curr_row_ j)
    (join_row_desc_ j) (right_cache_is_valid_ j) (is_right_iter_end_ j).

Definition with_cache j (cache : ObRowStore) (cached : ObRow) (valid : bool) : ObMergeJoin C :=
  mkJoin (children_ j) (get_next_row_func_ j) (equal_join_conds_ j) (other_join_conds_ j) (last_left_row_ j)
    (last_right_row_ j) (last_join_left_row_ j) (last_join_left_row_store_ j) cache cached (curr_row_ j)
    (join_row_desc_ j) valid (is_right_iter_end_ j).

Definition with_curr j (row : ObRow) : ObMergeJoin C :=
  mkJoin (children_ j) (get_next_row_func_ j) (equal_join_conds_ j) (other_join_conds_ j) (last_left_row_ j)
    (last_right_row_ j) (last_join_left_row_ j) (last_join_left_row_store_ j) (right_cache_ j)
    (curr_cached_right_row_ j) row (join_row_desc_ j) (right_cache_is_valid_ j) (is_right_iter_end_ j).

Definition with_right_end j : ObMergeJoin C :=
  mkJoin (children_ j) (get_next_row_func_ j) (equal_join_conds_ j) (other_join_conds_ j) (last_left_row_ j)
    (last_right_row_ j) (last_join_left_row_ j) (last_join_left_row_store_ j) (right_cache_ j)
    (curr_cached_right_row_ j) (curr_row_ j) (join_row_desc_ j) (right_cache_is_valid_ j) true.

Definition set_join_type j (join_type : JoinType) : ObMergeJoin C :=
  mkJoin (children_ j) (Some join_type) (equal_join_conds_ j) (other_join_conds_ j) (last_left_row_ j)
    (last_right_row_ j) (last_join_left_row_ j) (last_join_left_row_store_ j) (right_cache_ j)
    (curr_cached_right_row_ j) (curr_row_ j) (join_row_desc_ j) (right_cache_is_valid_ j) (is_right_iter_end_ j).

Definition with_conds j (equal : list Condition) (other : list Expression) : ObMergeJoin C :=
  mkJoin (children_ j) (get_next_row_func_ j) equal other (last_left_row_ j) (last_right_row_ j)
    (last_join_left_row_ j) (last_join_left_row_store_ j) (right_cache_ j) (curr_cached_right_row_ j) (curr_row_ j)
    (join_row_desc_ j) (right_cache_is_valid_ j) (is_right_iter_end_ j).

Definition add_equijoin_condition j (expr : Condition) : Z * ObMergeJoin C :=
  (OB_SUCCESS, with_conds j (equal_join_conds_ j ++ [expr]) (other_join_conds_ j)).

Definition add_other_join_condition j (expr : Expression) : Z * ObMergeJoin C :=
  (OB_SUCCESS, with_conds j (equal_join_conds_ j) (other_join_conds_ j ++ [expr])).

Definition join_set_child j (child_idx : Z) (child : C) : Z * ObMergeJoin C :=
  let '(ret, b) := set_child (children_ j) child_idx child in (ret, with_children j b).

(** [reset] and [reuse] differ in what they do to the cache. *)
Definition join_cleared j (cache : ObRowStore) : ObMergeJoin C :=
  mkJoin ObSetOperator_new None [] [] None None (last_join_left_row_ j) false cache (curr_cached_right_row_ j)
    (curr_row_ j) (rowdesc_reset (join_row_desc_ j)) false false.

Definition join_reset j : ObMergeJoin C := join_cleared j (clear (right_cache_ j)).
Definition join_reuse j : ObMergeJoin C := join_cleared j (reuse (right_cache_ j)).

(** [cons_row_desc]: the columns of both rows, added to what [row_desc_] has. *)
Definition join_cons_row_desc (d rd1 rd2 : ObRowDesc) : Z * ObRowDesc :=
  let '(ret, d) := copy_columns (Z.to_nat (get_column_num rd1)) d rd1 0 OB_SUCCESS in
  if ret =? OB_SUCCESS then copy_columns (Z.to_nat (get_column_num rd2)) d rd2 0 OB_SUCCESS else (ret, d).

(** [buf_ok]: whether [ob_malloc] finds memory for the saved left row. *)
Definition join_open (buf_ok : bool) (fuel : nat) j : option (Z * ObMergeJoin C) :=
  match equal_join_conds_ j with
  | [] => Some (OB_NOT_SUPPORTED, j)
  | _ =>
      '(ret, b) ← double_open fuel (children_ j) ;
      let j := with_children j b in
      if ret =? OB_SUCCESS then
        '(ret, descs) ← cons_row_desc b ;
        match descs with
        | None => Some (ret, j)
        | Some (left_row_desc, right_row_desc) =>
            rd1 ← left_row_desc ;
            rd2 ← right_row_desc ;
            let '(ret, d) := join_cons_row_desc (join_row_desc_ j) rd1 rd2 in
            let opened last_left last_right store cached curr valid right_end :=
              mkJoin (children_ j) (get_next_row_func_ j) (equal_join_conds_ j) (other_join_conds_ j) last_left
                last_right (last_join_left_row_ j) store (right_cache_ j) cached curr d valid right_end in
            let failed := opened (last_left_row_ j) (last_right_row_ j) (last_join_left_row_store_ j)
                            (curr_cached_right_row_ j) (curr_row_ j) (right_cache_is_valid_ j) (is_right_iter_end_ j) in
            if ret =? OB_SUCCESS then
              if buf_ok then
                Some (OB_SUCCESS,
                      opened None None true (set_row_desc (curr_cached_right_row_ j) rd2) (set_row_desc (curr_row_ j) d)
                        false false)
              else Some (OB_ALLOCATE_MEMORY_FAILED, failed)
            else Some (ret, failed)
        end
      else Some (ret, j)
  end.

(** The right cache keeps its rows. *)
Definition join_close j : option (Z * ObMergeJoin C) :=
  '(ret, b) ← double_close (children_ j) ;
  Some (ret, mkJoin b (get_next_row_func_ j) (equal_join_conds_ j) (other_join_conds_ j) None None
               (last_join_left_row_ j) false (right_cache_ j) (curr_cached_right_row_ j) (curr_row_ j)
               (rowdesc_reset (join_row_desc_ j)) false false).

Definition join_get_row_desc j : Z * option ObRowDesc :=
  if get_column_num (join_row_desc_ j) <=? 0 then (OB_NOT_INIT, None) else (OB_SUCCESS, Some (join_row_desc_ j)).

(** The row handed out is [curr_row_]. *)
Definition join_row_set_desc j (d : ObRowDesc) : ObMergeJoin C := with_curr j (set_row_desc (curr_row_ j) d).

(** ** Getting a row *)

Definition join_rows (r1 r2 : ObRow) j : Z * ObMergeJoin C :=
  let '(ret, curr) := join_cells r1 r2 (curr_row_ j) in (ret, with_curr j curr).

Definition left_join_rows (r1 : ObRow) j : Z * ObMergeJoin C :=
  let '(ret, curr) := left_join_cells (join_row_desc_ j) r1 (curr_row_ j) in (ret, with_curr j curr).

Definition right_join_rows (r2 : ObRow) j : Z * ObMergeJoin C :=
  let '(ret, curr) := right_join_cells (join_row_desc_ j) r2 (curr_row_ j) in (ret, with_curr j curr).

Definition curr_row_is_qualified j : option (Z * bool) := qualified (other_join_conds_ j) (curr_row_ j) OB_SUCCESS.

(** [ret = left_op_->get_next_row(left_row)] *)
Definition join_next_left (fuel : nat) (row : option ObRow) j : option (Z * option ObRow * ObMergeJoin C) :=
  l ← left_op_ (children_ j) ;
  '(ret, row, l) ← child_next fuel l row ;
  Some (ret, row, with_children j (with_left (children_ j) l)).

Definition join_next_right (fuel : nat) (row : option ObRow) j : option (Z * option ObRow * ObMergeJoin C) :=
  r ← right_op_ (children_ j) ;
  '(ret, row, r) ← child_next fuel r row ;
  Some (ret, row, with_children j (with_right (children_ j) r)).

(** The buffer of the saved left row. *)
Definition left_row_store (allocated : bool) : option (list Z) :=
  if allocated then Some (replicate (Z.to_nat MAX_SINGLE_ROW_SIZE) 0) else None.

Definition save_join_left (row : ObRow) j : option (Z * ObMergeJoin C) :=
  '(ret, last) ← convert_to_row row (last_join_left_row_ j) (left_row_store (last_join_left_row_store_ j))
                   MAX_SINGLE_ROW_SIZE ;
  Some (ret, with_last_join j last).

Definition is_null {A} (p : option A) : bool := match p with None => true | Some _ => false end.

Definition stop (ret : Z) j : option (Z * option ObRow * ObMergeJoin C) := Some (ret, None, j).

(** A joined row goes out if it is qualified, with the state [keep] leaves;
    otherwise the loop goes on with [skip]. *)
Definition offer (joined : Z * ObMergeJoin C) (keep : ObMergeJoin C -> option (ObMergeJoin C))
    (skip : ObMergeJoin C -> option (Z * option ObRow * ObMergeJoin C))
    (fail : Z -> ObMergeJoin C -> option (Z * option ObRow * ObMergeJoin C))
    : option (Z * option ObRow * ObMergeJoin C) :=
  let '(ret, j) := joined in
  if negb (ret =? OB_SUCCESS) then fail ret j
  else
    '(ret, is_qualified) ← curr_row_is_qualified j ;
    if negb (ret =? OB_SUCCESS) then fail ret j
    else if (is_qualified : bool) then j ← keep j ; Some (OB_SUCCESS, Some (curr_row_ j), j)
    else skip j.

Section Loop.
Context (left_outer right_outer : bool).

(** [next] goes on with another left row, [loop] is the next round. *)
Definition next_left_row (fuel : nat) (loop : ObRow -> option ObRow -> ObMergeJoin C ->
    option (Z * option ObRow * ObMergeJoin C)) (left : ObRow) (right : option ObRow) j
    : option (Z * option ObRow * ObMergeJoin C) :=
  '(ret, row, j) ← join_next_left fuel (Some left) j ;
  if ret =? OB_SUCCESS then row ← row ; loop row right j else stop ret j.

Definition keep_left (left : ObRow) j : option (ObMergeJoin C) := Some (with_last_rows j (Some left) (last_right_row_ j)).

(** The cache is valid: the left row meets the cached right rows, if it equals
    the left row they were kept for. *)
Definition cached_round (fuel : nat) (loop : ObRow -> option ObRow -> ObMergeJoin C ->
    option (Z * option ObRow * ObMergeJoin C)) (left : ObRow) (right : option ObRow) j
    : option (Z * option ObRow * ObMergeJoin C) :=
  empty ← is_empty (right_cache_ j) ;
  ob_assert (negb empty) ;;
  '(ret, cmp) ← left_row_compare_equijoin_cond obj_cast (equal_join_conds_ j) left (last_join_left_row_ j) ;
  if negb (ret =? OB_SUCCESS) then stop ret j
  else if cmp =? 0 then
    '(ret, row, cache) ← store_get_next_row (right_cache_ j) (curr_cached_right_row_ j) ;
    let j := with_cache j cache row true in
    if ret =? OB_SUCCESS then
      offer (join_rows left row j) (keep_left left)
        (fun j => ob_assert (is_null (last_left_row_ j)) ;; loop left right j) stop
    else if ret =? OB_ITER_END then
      next_left_row fuel loop left right (with_cache j (reset_iterator cache) row true)
    else stop ret j
  else loop left right (with_cache j (clear (right_cache_ j)) (curr_cached_right_row_ j) false).

(** A left row and a right row are equal: the right row goes to the cache. *)
Definition equal_round (loop : ObRow -> option ObRow -> ObMergeJoin C -> option (Z * option ObRow * ObMergeJoin C))
    (left y : ObRow) j : option (Z * option ObRow * ObMergeJoin C) :=
  empty ← is_empty (right_cache_ j) ;
  '(ret, j) ← (if (empty : bool) then save_join_left left j else Some (OB_SUCCESS, j)) ;
  if negb (ret =? OB_SUCCESS) then stop ret j
  else
    '(ret, _, cache) ← store_add_row malloc None y (right_cache_ j) ;
    let j := with_cache j cache (curr_cached_right_row_ j) (right_cache_is_valid_ j) in
    if negb (ret =? OB_SUCCESS) then stop ret j
    else
      offer (join_rows left y j)
        (fun j => ob_assert (is_null (last_right_row_ j)) ;; keep_left left j)
        (fun j => ob_assert (is_null (last_left_row_ j) && is_null (last_right_row_ j)) ;; loop left (Some y) j) stop.

(** The left row is below the right row, which waits. *)
Definition below_round (fuel : nat) (loop : ObRow -> option ObRow -> ObMergeJoin C ->
    option (Z * option ObRow * ObMergeJoin C)) (left y : ObRow) j : option (Z * option ObRow * ObMergeJoin C) :=
  empty ← is_empty (right_cache_ j) ;
  let wait j := with_last_rows j (last_left_row_ j) (Some y) in
  if negb empty then
    ob_assert (is_null (last_left_row_ j)) ;;
    next_left_row fuel loop left (Some y) (wait (with_cache j (right_cache_ j) (curr_cached_right_row_ j) true))
  else if left_outer then
    offer (left_join_rows left j)
      (fun j => ob_assert (is_null (last_left_row_ j)) ;; Some (wait j))
      (fun j => ob_assert (is_null (last_left_row_ j)) ;; next_left_row fuel loop left (Some y) (wait j)) stop
  else
    ob_assert (is_null (last_left_row_ j)) ;;
    next_left_row fuel loop left (Some y) (wait j).

(** The left row is above the right row. *)
Definition above_round (loop : ObRow -> option ObRow -> ObMergeJoin C -> option (Z * option ObRow * ObMergeJoin C))
    (left y : ObRow) j : option (Z * option ObRow * ObMergeJoin C) :=
  ob_assert (is_null (last_left_row_ j) && is_null (last_right_row_ j)) ;;
  if right_outer then offer (right_join_rows y j) (keep_left left) (loop left (Some y)) stop
  else loop left (Some y) j.

Definition compare_round (fuel : nat) (loop : ObRow -> option ObRow -> ObMergeJoin C ->
    option (Z * option ObRow * ObMergeJoin C)) (left : ObRow) (right : option ObRow) j
    : option (Z * option ObRow * ObMergeJoin C) :=
  y ← right ;
  '(ret, cmp) ← compare_equijoin_cond obj_cast (equal_join_conds_ j) left y ;
  if negb (ret =? OB_SUCCESS) then stop ret j
  else if cmp =? 0 then equal_round loop left y j
  else if cmp <? 0 then below_round fuel loop left y j
  else above_round loop left y j.

(** The cache is not valid: the left row meets the next right row.  When joining
    a left row with NULLs fails after the last right row, the code goes on to
    the comparison. *)
Definition merge_round (fuel : nat) (loop : ObRow -> option ObRow -> ObMergeJoin C ->
    option (Z * option ObRow * ObMergeJoin C)) (left : ObRow) (right : option ObRow) j
    : option (Z * option ObRow * ObMergeJoin C) :=
  if is_right_iter_end_ j then
    if left_outer then
      offer (left_join_rows left j)
        (fun j => ob_assert (is_null (last_left_row_ j) && is_null (last_right_row_ j)) ;; Some j)
        (fun j => ob_assert (is_null (last_left_row_ j) && is_null (last_right_row_ j)) ;;
                  next_left_row fuel loop left right j)
        (fun _ j => compare_round fuel loop left right j)
    else stop OB_ITER_END j
  else match last_right_row_ j with
  | Some y => compare_round fuel loop left (Some y) (with_last_rows j (last_left_row_ j) None)
  | None =>
      '(ret, right, j) ← join_next_right fuel right j ;
      if ret =? OB_SUCCESS then compare_round fuel loop left right j
      else if ret =? OB_ITER_END then
        let j := with_right_end j in
        empty ← is_empty (right_cache_ j) ;
        if negb empty then
          ob_assert (is_null (last_right_row_ j) && is_null (last_left_row_ j)) ;;
          next_left_row fuel loop left right (with_cache j (right_cache_ j) (curr_cached_right_row_ j) true)
        else if left_outer then loop left right j
        else stop OB_ITER_END j
      else stop ret j
  end.

(** [k] bounds the rounds, [fuel] each call on a child. *)
Fixpoint join_loop (k fuel : nat) (left : ObRow) (right : option ObRow) j
    : option (Z * option ObRow * ObMergeJoin C) :=
  match k with
  | O => None
  | S k' =>
      if right_cache_is_valid_ j then cached_round fuel (join_loop k' fuel) left right j
      else merge_round fuel (join_loop k' fuel) left right j
  end.

(** After the last left row the right rows that are left go out with NULLs. *)
Fixpoint right_tail (k fuel : nat) (right : option ObRow) j : option (Z * option ObRow * ObMergeJoin C) :=
  match k with
  | O => None
  | S k' =>
      '(ret, right, j) ←
        match last_right_row_ j with
        | Some y => Some (OB_SUCCESS, Some y, with_last_rows j (last_left_row_ j) None)
        | None => join_next_right fuel right j
        end ;
      if negb (ret =? OB_SUCCESS) then stop ret j
      else y ← right ; offer (right_join_rows y j) (fun j => Some j) (right_tail k' fuel right) stop
  end.

Definition outer_get_next_row (fuel : nat) j : option (Z * option ObRow * ObMergeJoin C) :=
  '(ret, left_row, j) ←
    match last_left_row_ j with
    | Some x => Some (OB_SUCCESS, Some x, with_last_rows j None (last_right_row_ j))
    | None => join_next_left fuel None j
    end ;
  '(ret, row, j) ← (if ret =? OB_SUCCESS then x ← left_row ; join_loop fuel fuel x None j else stop ret j) ;
  if right_outer && (ret =? OB_ITER_END) && negb (is_right_iter_end_ j) then
    ob_assert (is_null (last_left_row_ j)) ;; right_tail fuel fuel None j
  else Some (ret, row, j).
End Loop.

Definition inner_get_next_row := outer_get_next_row false false.
Definition left_outer_get_next_row := outer_get_next_row true false.
Definition right_outer_get_next_row := outer_get_next_row false true.
Definition full_outer_get_next_row := outer_get_next_row true true.

(** The four semi joins set the row to NULL and report success. *)
Definition semi_get_next_row (fuel : nat) j : option (Z * option ObRow * ObMergeJoin C) := stop OB_SUCCESS j.

Definition join_get_next_row (fuel : nat) j : option (Z * option ObRow * ObMergeJoin C) :=
  join_type ← get_next_row_func_ j ;
  match join_type with
  | INNER_JOIN => inner_get_next_row fuel j
  | LEFT_OUTER_JOIN => left_outer_get_next_row fuel j
  | RIGHT_OUTER_JOIN => right_outer_get_next_row fuel j
  | FULL_OUTER_JOIN => full_outer_get_next_row fuel j
  | LEFT_SEMI_JOIN | RIGHT_SEMI_JOIN | LEFT_ANTI_SEMI_JOIN | RIGHT_ANTI_SEMI_JOIN => semi_get_next_row fuel j
  end.
End Operations.

#[export] Instance join_operator {C} `{!ObPhyOperator C} obj_cast malloc buf_ok : ObPhyOperator (ObMergeJoin C) := {
  op_open := join_open buf_ok;
  op_close := join_close;
  op_get_next_row := join_get_next_row obj_cast malloc;
  op_get_row_desc := join_get_row_desc;
  op_row_set_desc := join_row_set_desc
}.

(** ** The cells of a joined row *)

(** [r'] is [r] with the cells [vs] from position [p] on. *)
Definition puts (r : ObRow) (p : nat) (vs : list ObObj) (r' : ObRow) : Prop :=
  row_wf r' /\ row_desc_ r' = row_desc_ r /\
  row_cells r' = take p (row_cells r) ++ vs ++ drop (p + length vs) (row_cells r).

Lemma puts_nil r p : row_wf r -> puts r p [] r.
Proof. intros Hw. unfold puts. conjs; [done | done |]. cbn [length app]. by rewrite Nat.add_0_r, take_drop. Qed.

(** Setting one cell, and others behind it. *)
Lemma puts_cons r p v :
  row_wf r -> Z.of_nat p < row_column_num r ->
  exists r1, raw_set_cell r (Z.of_nat p) v = (OB_SUCCESS, r1) /\ row_wf r1 /\ row_desc_ r1 = row_desc_ r /\
    forall vs r', puts r1 (S p) vs r' -> puts r p (v :: vs) r'.
Proof.
  intros Hw Hp. destruct (raw_set_cell_spec r Hw (Z.of_nat p) v) as (r1 & E & Hw1 & _ & Hd1 & Hc1 & _); [lia |].
  exists r1. conjs; [done | done | done |]. intros vs r' (Hw' & Hd' & Hc'). unfold puts. conjs; [done | congruence |].
  rewrite Hc', (row_cells_set r r1 (Z.of_nat p) v Hw Hw1 Hd1) by (try done; lia). rewrite Nat2Z.id.
  pose proof (row_cells_length r Hw). cbn [length app].
  rewrite (take_S_r _ _ v) by (apply list_lookup_insert_eq; lia). rewrite take_insert_ge by lia.
  rewrite drop_insert_lt by lia. rewrite <- app_assoc. cbn [app]. do 4 f_equal. lia.
Qed.

Lemma copy_cells_spec k src sd i off dst :
  row_wf src -> row_desc_ src = Some sd -> row_wf dst -> (i + k = length (row_cells src))%nat ->
  (off + length (row_cells src) <= length (row_cells dst))%nat ->
  exists dst', copy_cells k src (Z.of_nat i) (Z.of_nat off) dst = (OB_SUCCESS, dst') /\
    puts dst (off + i) (drop i (row_cells src)) dst'.
Proof.
  intros Hw Hsd. revert i dst. induction k as [| k IH]; intros i dst Hwd Hk Hoff.
  - exists dst. split; [done |]. rewrite drop_ge by lia. by apply puts_nil.
  - cbn [copy_cells]. pose proof (row_cells_length src Hw) as Hl. pose proof (row_cells_length dst Hwd) as Hld.
    rewrite (raw_get_cell_ids_at src sd (Z.of_nat i) Hw Hsd) by lia.
    replace (Z.of_nat off + Z.of_nat i) with (Z.of_nat (off + i)) by lia.
    destruct (puts_cons dst (off + i) (raw_cell src (Z.of_nat i)) Hwd) as (d1 & -> & Hw1 & Hd1 & Hcons); [lia |].
    change (OB_SUCCESS =? OB_SUCCESS) with true. cbn iota. replace (Z.of_nat i + 1) with (Z.of_nat (S i)) by lia.
    destruct (IH (S i) d1 Hw1) as (dst' & -> & Hp); [lia | |].
    { pose proof (row_cells_length d1 Hw1) as Hl1. unfold row_column_num in Hl1, Hld. rewrite Hd1 in Hl1. lia. }
    exists dst'. split; [done |].
    assert (Hi : row_cells src !! i = Some (raw_cell src (Z.of_nat i))).
    { rewrite row_cells_lookup by done. destruct (Z.ltb_spec (Z.of_nat i) (row_column_num src)); [done | lia]. }
    rewrite (drop_S _ _ _ Hi). apply Hcons. by rewrite Nat.add_succ_r in Hp.
Qed.

Lemma null_cells_spec k i dst :
  row_wf dst -> (i + k <= length (row_cells dst))%nat ->
  exists dst', null_cells k (Z.of_nat i) dst = (OB_SUCCESS, dst') /\ puts dst i (replicate k null_cell) dst'.
Proof.
  revert i dst. induction k as [| k IH]; intros i dst Hwd Hk.
  - exists dst. split; [done |]. by apply puts_nil.
  - cbn [null_cells]. pose proof (row_cells_length dst Hwd) as Hld.
    destruct (puts_cons dst i null_cell Hwd) as (d1 & -> & Hw1 & Hd1 & Hcons); [lia |].
    change (OB_SUCCESS =? OB_SUCCESS) with true. cbn iota. replace (Z.of_nat i + 1) with (Z.of_nat (S i)) by lia.
    destruct (IH (S i) d1 Hw1) as (dst' & -> & Hp).
    { pose proof (row_cells_length d1 Hw1) as Hl1. unfold row_column_num in Hl1, Hld. rewrite Hd1 in Hl1. lia. }
    exists dst'. split; [done |]. by apply Hcons.
Qed.

(** Two pieces that fill the row. *)
Lemma puts_both r n vs1 r1 vs2 r2 :
  puts r 0 vs1 r1 -> length vs1 = n -> puts r1 n vs2 r2 -> (n + length vs2 = length (row_cells r))%nat ->
  row_wf r2 /\ row_desc_ r2 = row_desc_ r /\ row_cells r2 = vs1 ++ vs2.
Proof.
  intros (_ & Hd1 & Hc1) <- (Hw2 & Hd2 & Hc2) Hl. conjs; [done | congruence |].
  rewrite Hc2, Hc1. rewrite take_0. cbn [app]. rewrite take_app_length.
  rewrite (drop_ge _ (length vs1 + length vs2)); [by rewrite app_nil_r |].
  rewrite length_app, length_drop. lia.
Qed.

Lemma puts_length r p vs r' : row_wf r -> puts r p vs r' -> length (row_cells r') = length (row_cells r).
Proof.
  intros Hw (Hw' & Hd & _). pose proof (row_cells_length r Hw). pose proof (row_cells_length r' Hw').
  unfold row_column_num in *. rewrite Hd in *. lia.
Qed.

Section Joined.
Context (curr : ObRow) (d d1 d2 : ObRowDesc) (Hw : row_wf curr) (Hd : row_desc_ curr = Some d).
Context (Hnum : get_column_num d = get_column_num d1 + get_column_num d2).
Context (Hn1 : 0 <= get_column_num d1) (Hn2 : 0 <= get_column_num d2).

Lemma join_cells_spec r1 r2 :
  row_wf r1 -> row_desc_ r1 = Some d1 -> row_wf r2 -> row_desc_ r2 = Some d2 ->
  exists curr', join_cells r1 r2 curr = (OB_SUCCESS, curr') /\ row_wf curr' /\ row_desc_ curr' = Some d /\
    row_cells curr' = row_cells r1 ++ row_cells r2.
Proof.
  intros Hw1 Hd1 Hw2 Hd2. destruct (row_length r1 d1 Hw1 Hd1) as (Hl1 & Hc1 & _).
  destruct (row_length r2 d2 Hw2 Hd2) as (Hl2 & Hc2 & _). destruct (row_length curr d Hw Hd) as (Hl & _).
  unfold join_cells, cells_end. rewrite Hc1, Hc2.
  destruct (copy_cells_spec (Z.to_nat (get_column_num d1)) r1 d1 0 0 curr) as (c1 & E1 & Hp1); [done | done | done | lia | lia |].
  change (Z.of_nat 0) with 0 in E1. rewrite E1. change (OB_SUCCESS =? OB_SUCCESS) with true. cbn iota.
  pose proof (puts_length _ _ _ _ Hw Hp1) as Hlc. pose proof Hp1 as (Hwc & _).
  destruct (copy_cells_spec (Z.to_nat (get_column_num d2)) r2 d2 0 (length (row_cells r1)) c1) as (c2 & E2 & Hp2);
    [done | done | done | lia | lia |].
  change (Z.of_nat 0) with 0 in E2. rewrite Hl1 in E2.
  replace (Z.max 0 (get_column_num d1)) with (get_column_num d1) by lia. rewrite E2. exists c2. split; [done |].
  rewrite !drop_0 in *. rewrite Nat.add_0_r in *. rewrite <- Hd.
  apply (puts_both curr (length (row_cells r1)) _ c1); [done | done | done | lia].
Qed.

Lemma left_join_cells_spec r1 :
  row_wf r1 -> row_desc_ r1 = Some d1 ->
  exists curr', left_join_cells d r1 curr = (OB_SUCCESS, curr') /\ row_wf curr' /\ row_desc_ curr' = Some d /\
    row_cells curr' = row_cells r1 ++ replicate (Z.to_nat (get_column_num d2)) null_cell.
Proof.
  intros Hw1 Hd1. destruct (row_length r1 d1 Hw1 Hd1) as (Hl1 & Hc1 & _). destruct (row_length curr d Hw Hd) as (Hl & _).
  unfold left_join_cells, cells_end. rewrite Hc1.
  destruct (copy_cells_spec (Z.to_nat (get_column_num d1)) r1 d1 0 0 curr) as (c1 & E1 & Hp1); [done | done | done | lia | lia |].
  change (Z.of_nat 0) with 0 in E1. rewrite E1. change (OB_SUCCESS =? OB_SUCCESS) with true. cbn iota.
  pose proof (puts_length _ _ _ _ Hw Hp1) as Hlc. pose proof Hp1 as (Hwc & _).
  replace (get_column_num d - get_column_num d1) with (get_column_num d2) by lia.
  destruct (null_cells_spec (Z.to_nat (get_column_num d2)) (length (row_cells r1)) c1) as (c2 & E2 & Hp2); [done | lia |].
  rewrite Hl1 in E2. replace (Z.max 0 (get_column_num d1)) with (get_column_num d1) by lia. rewrite E2.
  exists c2. split; [done |]. rewrite drop_0 in Hp1. rewrite <- Hd.
  apply (puts_both curr (length (row_cells r1)) _ c1); [done | done | done | rewrite length_replicate; lia].
Qed.

Lemma right_join_cells_spec r2 :
  row_wf r2 -> row_desc_ r2 = Some d2 ->
  exists curr', right_join_cells d r2 curr = (OB_SUCCESS, curr') /\ row_wf curr' /\ row_desc_ curr' = Some d /\
    row_cells curr' = replicate (Z.to_nat (get_column_num d1)) null_cell ++ row_cells r2.
Proof.
  intros Hw2 Hd2. destruct (row_length r2 d2 Hw2 Hd2) as (Hl2 & Hc2 & _). destruct (row_length curr d Hw Hd) as (Hl & _).
  unfold right_join_cells. rewrite Hc2. replace (get_column_num d - get_column_num d2) with (get_column_num d1) by lia.
  destruct (null_cells_spec (Z.to_nat (get_column_num d1)) 0 curr) as (c1 & E1 & Hp1); [done | lia |].
  change (Z.of_nat 0) with 0 in E1. rewrite E1. change (OB_SUCCESS =? OB_SUCCESS) with true. cbn iota.
  pose proof (puts_length _ _ _ _ Hw Hp1) as Hlc. pose proof Hp1 as (Hwc & _).
  destruct (copy_cells_spec (Z.to_nat (get_column_num d2)) r2 d2 0 (Z.to_nat (get_column_num d1)) c1) as (c2 & E2 & Hp2);
    [done | done | done | lia | lia |].
  change (Z.of_nat 0) with 0 in E2. rewrite Z2Nat.id in E2 by done. rewrite E2.
  exists c2. split; [done |]. rewrite drop_0, Nat.add_0_r in Hp2. rewrite <- Hd.
  apply (puts_both curr (Z.to_nat (get_column_num d1)) _ c1); [done | by rewrite length_replicate | done | lia].
Qed.
End Joined.
