(* ===== verification/MergeJoinRun.v ===== *)
(** * Merge join: a run

    The rows [ObMergeJoin] gives for sorted children, call by call, are those of
    [merge_join] ([JoinSpec]) that satisfy the other conditions.  The state of
    the operator inside the loop is one of three: a left row meets the next right
    row ([at_merge]), it collects the right rows that equal it ([at_collect]), or
    it reads them again from the cache ([at_cache]). *)

From S2P Require Import Prelude ObObject ObExprObj ObRowDesc ObRow ObBuffer ObCompactCell ObRowUtil ObRowStore.
From S2P Require Import RowStoreSpec PhyOperator RowKey SetOperator JoinSpec MergeJoin.
From Stdlib Require Import Sorted.
Local Open Scope Z_scope.

(** ** What the join needs of its rows

    On the rows of [DL] and [DR] the comparisons of the conditions succeed and
    are those of the keys; a left row can be saved and a right row kept. *)

Class JoinOrder (obj_cast : ObObjType -> ObObjType -> ObExprObj -> option (Z * ObExprObj)) (conds : list Condition)
    (DL DR : ObRow -> Prop) (lk rk : ObRow -> list ObObj) (kD : list ObObj -> Prop) (dl dr : ObRowDesc) : Prop := {
  jo_order :: CmpOrder kD cells_compare;
  jo_left_key : forall x, DL x -> kD (lk x);
  jo_right_key : forall y, DR y -> kD (rk y);
  jo_compare : forall x y, DL x -> DR y ->
    compare_equijoin_cond obj_cast conds x y = Some (OB_SUCCESS, cells_compare (lk x) (rk y));
  jo_left_compare : forall x x', DL x -> DL x' ->
    left_row_compare_equijoin_cond obj_cast conds x x' = Some (OB_SUCCESS, cells_compare (lk x) (lk x'));
  jo_left_row : forall x, DL x -> row_wf x /\ row_desc_ x = Some dl;
  jo_right_row : forall y, DR y -> row_wf y /\ row_desc_ y = Some dr;
  jo_save : forall x last, DL x -> row_wf last ->
    exists last', convert_to_row x last (left_row_store true) MAX_SINGLE_ROW_SIZE = Some (OB_SUCCESS, last') /\
      DL last' /\ row_wf last' /\ lk last' = lk x;
  jo_keep : forall y, DR y -> keepable y /\
    SIZEOF_STORED_ROW + Z.of_nat (length (row_bytes y)) <= BIG_BLOCK_SIZE - SIZEOF_BLOCK_INFO
}.

Arguments store_add_row : simpl never.
Arguments store_get_next_row : simpl never.
Arguments is_empty : simpl never.
Arguments clear : simpl never.
Arguments reset_iterator : simpl never.
Arguments convert_to_row : simpl never.
Arguments join_cells : simpl never.
Arguments left_join_cells : simpl never.
Arguments right_join_cells : simpl never.
Arguments qualified : simpl never.
Arguments compare_equijoin_cond : simpl never.
Arguments left_row_compare_equijoin_cond : simpl never.

(** The sides whose rows go out without a partner; the semi joins are not
    implemented. *)
Definition join_sides (t : JoinType) : option (bool * bool) :=
  match t with
  | INNER_JOIN => Some (false, false)
  | LEFT_OUTER_JOIN => Some (true, false)
  | RIGHT_OUTER_JOIN => Some (false, true)
  | FULL_OUTER_JOIN => Some (true, true)
  | LEFT_SEMI_JOIN | RIGHT_SEMI_JOIN | LEFT_ANTI_SEMI_JOIN | RIGHT_ANTI_SEMI_JOIN => None
  end.

Section Run.
Context {C : Type} `{!ObPhyOperator C}.
Context (obj_cast : ObObjType -> ObObjType -> ObExprObj -> option (Z * ObExprObj)).
Context (malloc : Z -> bool) (malloc_ok : forall size, malloc size = true).
Context (join_type : JoinType) (left_outer right_outer : bool) (Hsides : join_sides join_type = Some (left_outer, right_outer)).
Context (conds : list Condition) (others : list Expression) (dl dr d : ObRowDesc).
Context (DL DR : ObRow -> Prop) (lk rk : ObRow -> list ObObj) (kD : list ObObj -> Prop).
Context `{!JoinOrder obj_cast conds DL DR lk rk kD dl dr}.
Context (Hnum : get_column_num d = get_column_num dl + get_column_num dr).
Context (Hnl : 0 <= get_column_num dl) (Hnr : 0 <= get_column_num dr).
(** The other conditions as a predicate on the cells of the joined row. *)
Context (q : list ObObj -> bool).
Context (Hq : forall row cells, row_wf row -> row_desc_ row = Some d -> Forall2 same_cell (row_cells row) cells ->
  qualified others row OB_SUCCESS = Some (OB_SUCCESS, q cells)).
Implicit Types (j : ObMergeJoin C) (x y : ObRow) (L R Y : list ObRow) (T : list (list ObObj)).

Definition pair_cells x y : list ObObj := row_cells x ++ row_cells y.
Definition left_cells x : list ObObj := row_cells x ++ replicate (Z.to_nat (get_column_num dr)) null_cell.
Definition right_cells y : list ObObj := replicate (Z.to_nat (get_column_num dl)) null_cell ++ row_cells y.

Let merge := merge_join lk rk cells_compare pair_cells left_cells right_cells left_outer right_outer.
Let lefts := lefts left_cells left_outer.
Let rights := rights right_cells right_outer.
Let collecting := collecting lk rk cells_compare pair_cells left_cells right_cells left_outer right_outer.
Let rereading := rereading lk rk cells_compare pair_cells left_cells right_cells left_outer right_outer.

(** ** The state *)

(** What no step changes. *)
Record fixed j : Prop := {
  fx_func : get_next_row_func_ j = Some join_type;
  fx_equal : equal_join_conds_ j = conds;
  fx_other : other_join_conds_ j = others;
  fx_desc : join_row_desc_ j = d;
  fx_store : last_join_left_row_store_ j = true;
  fx_curr : row_wf (curr_row_ j) /\ row_desc_ (curr_row_ j) = Some d;
  fx_cached : row_wf (curr_cached_right_row_ j) /\ row_desc_ (curr_cached_right_row_ j) = Some dr;
  fx_last : row_wf (last_join_left_row_ j);
  fx_reserved : reserved_columns_ (right_cache_ j) = []
}.

Definition left_runs (l : C) L : Prop := if right_outer then runs_on l L else runs l L OB_ITER_END.

Definition left_at j L : Prop := exists l, left_op_ (children_ j) = Some l /\ left_runs l L.

(** The right rows to come, the one that waits in front. *)
Definition right_at j R : Prop :=
  if is_right_iter_end_ j then R = [] /\ last_right_row_ j = None
  else exists r, right_op_ (children_ j) = Some r /\
    match last_right_row_ j with
    | Some y => exists R', R = y :: R' /\ runs r R' OB_ITER_END
    | None => runs r R OB_ITER_END
    end.

Definition cache_at j Y (p : nat) : Prop :=
  store_ok (right_cache_ j) (map row_bytes Y) /\ cursor_at (right_cache_ j) (Some p).

Definition rows_at L R : Prop :=
  Forall DL L /\ Forall DR R /\ left_sorted lk kD cells_compare L /\ right_sorted rk kD cells_compare R.

Record at_merge j x L R : Prop := {
  am_fixed : fixed j;
  am_left : left_at j L;
  am_right : right_at j R;
  am_none : last_left_row_ j = None;
  am_cache : cache_at j [] 0;
  am_valid : right_cache_is_valid_ j = false;
  am_rows : rows_at (x :: L) R
}.

Definition kept x Y : Prop := Y <> [] /\ Forall DR Y /\ Forall (fun y => cells_compare (lk x) (rk y) = 0) Y.

(** The cached rows were kept for [x]. *)
Definition kept_for j x Y : Prop :=
  kept x Y /\ DL (last_join_left_row_ j) /\ cells_compare (lk x) (lk (last_join_left_row_ j)) = 0.

Record at_collect j x L Y R : Prop := {
  ac_fixed : fixed j;
  ac_left : left_at j L;
  ac_right : right_at j R;
  ac_end : is_right_iter_end_ j = false;
  ac_none : last_left_row_ j = None /\ last_right_row_ j = None;
  ac_cache : cache_at j Y 0;
  ac_valid : right_cache_is_valid_ j = false;
  ac_rows : rows_at (x :: L) R;
  ac_kept : kept_for j x Y;
  ac_above : Forall (fun y => cells_compare (lk x) (rk y) <= 0) R
}.

Record at_cache j x0 x L Y (p : nat) R : Prop := {
  ah_fixed : fixed j;
  ah_left : left_at j L;
  ah_right : right_at j R;
  ah_none : last_left_row_ j = None;
  ah_cache : cache_at j Y p;
  ah_valid : right_cache_is_valid_ j = true;
  ah_rows : rows_at (x0 :: x :: L) R;
  ah_kept : kept_for j x0 Y;
  ah_pos : (p <= length Y)%nat;
  ah_beyond : beyond lk rk cells_compare x0 R
}.

(** ** The children *)

Abbreviation left_called j l := (with_children j (with_left (children_ j) l)).
Abbreviation right_called j r := (with_children j (with_right (children_ j) r)).

Lemma left_child_next l L old :
  left_runs l L ->
  match L with
  | [] => exists row l', settles (fun m => child_next m l old) (OB_ITER_END, row, l') /\
      (right_outer = true -> left_runs l' [])
  | x :: L' => exists l', settles (fun m => child_next m l old) (OB_SUCCESS, Some x, l') /\ left_runs l' L'
  end.
Proof.
  unfold left_runs. destruct right_outer.
  - intros Hr. destruct L as [| x L'].
    + destruct (runs_on_stop l Hr) as (row & l' & Hn & Hl'). exists (assigned row old), l'. split; [| done].
      unfold child_next. eapply settles_bind; [exact Hn |]. apply settles_ret.
    + inversion Hr as [| ? ? l' ? Hn _ Hl']; subst. exists l'. split; [| done].
      unfold child_next. eapply settles_bind; [exact Hn |]. apply settles_ret.
  - intros Hr. pose proof (child_next_runs l old L OB_ITER_END Hr) as H. destruct L as [| x L'].
    + destruct H as (row & l' & Hs). by exists row, l'.
    + destruct H as (l' & Hs & _ & Hl'). by exists l'.
Qed.

Lemma next_left_ok j L old :
  left_at j L ->
  match L with
  | [] => exists row l', settles (fun m => join_next_left m old j) (OB_ITER_END, row, left_called j l') /\
      (right_outer = true -> left_at (left_called j l') [])
  | x :: L' => exists l', settles (fun m => join_next_left m old j) (OB_SUCCESS, Some x, left_called j l') /\
      left_at (left_called j l') L'
  end.
Proof.
  intros (l & El & Hl). pose proof (left_child_next l L old Hl) as H. unfold join_next_left. rewrite El.
  destruct L as [| x L'].
  - destruct H as (row & l' & Hs & Hr). exists row, l'. split.
    + cbn [mbind option_bind]. eapply (settles_bind _ (fun _ '(ret, row, l) => Some (ret, row, left_called j l))); [exact Hs |].
      apply settles_ret.
    + intros Ho. exists l'. auto.
  - destruct H as (l' & Hs & Hr). exists l'. split.
    + cbn [mbind option_bind]. eapply (settles_bind _ (fun _ '(ret, row, l) => Some (ret, row, left_called j l))); [exact Hs |].
      apply settles_ret.
    + by exists l'.
Qed.

Lemma next_right_ok j R old :
  right_at j R -> is_right_iter_end_ j = false -> last_right_row_ j = None ->
  match R with
  | [] => exists row r', settles (fun m => join_next_right m old j) (OB_ITER_END, row, right_called j r')
  | y :: R' => exists r', settles (fun m => join_next_right m old j) (OB_SUCCESS, Some y, right_called j r') /\
      right_at (right_called j r') R'
  end.
Proof.
  unfold right_at. intros Hr He Hn. rewrite He in *. destruct Hr as (r & Er & Hr). rewrite Hn in Hr.
  pose proof (child_next_runs r old R OB_ITER_END Hr) as H. unfold join_next_right. rewrite Er.
  destruct R as [| y R'].
  - destruct H as (row & r' & Hs). exists row, r'. cbn [mbind option_bind].
    eapply (settles_bind _ (fun _ '(ret, row, r) => Some (ret, row, right_called j r))); [exact Hs |]. apply settles_ret.
  - destruct H as (r' & Hs & _ & Hr'). exists r'. split.
    + cbn [mbind option_bind].
      eapply (settles_bind _ (fun _ '(ret, row, r) => Some (ret, row, right_called j r))); [exact Hs |]. apply settles_ret.
    + cbn. rewrite He. exists r'. split; [done |]. by rewrite Hn.
Qed.

Lemma left_called_fixed j l : fixed j -> fixed (left_called j l).
Proof. by intros []. Qed.

Lemma right_called_fixed j r : fixed j -> fixed (right_called j r).
Proof. by intros []. Qed.

(** ** A joined row *)

Lemma join_rows_ok x y j c :
  fixed j -> DL x -> row_wf y -> row_desc_ y = Some dr -> Forall2 same_cell (row_cells y) c ->
  exists curr, join_rows x y j = (OB_SUCCESS, with_curr j curr) /\ fixed (with_curr j curr) /\
    Forall2 same_cell (row_cells curr) (row_cells x ++ c).
Proof.
  intros Hf Hx Hwy Hdy Hc. destruct (jo_left_row x Hx) as [Hwx Hdx]. unfold join_rows.
  destruct (join_cells_spec (curr_row_ j) d dl dr (proj1 (fx_curr j Hf)) (proj2 (fx_curr j Hf)) Hnum x y)
    as (c' & E & Hw & Hd & Hcells); [done | done | done | done |].
  rewrite E. eexists. split; [done |]. destruct Hf. split; [by split |].
  cbn. rewrite Hcells. apply Forall2_app; [apply same_cells_refl | done].
Qed.

Lemma left_join_rows_ok x j :
  fixed j -> DL x ->
  exists curr, left_join_rows x j = (OB_SUCCESS, with_curr j curr) /\ fixed (with_curr j curr) /\
    Forall2 same_cell (row_cells curr) (left_cells x).
Proof.
  intros Hf Hx. destruct (jo_left_row x Hx) as [Hwx Hdx]. unfold left_join_rows. rewrite (fx_desc j Hf).
  destruct (left_join_cells_spec (curr_row_ j) d dl dr (proj1 (fx_curr j Hf)) (proj2 (fx_curr j Hf)) Hnum Hnr x)
    as (c' & E & Hw & Hd & Hcells); [done | done |].
  rewrite E. eexists. split; [done |]. destruct Hf. split; [by split |].
  cbn. rewrite Hcells. apply same_cells_refl.
Qed.

Lemma right_join_rows_ok y j :
  fixed j -> DR y ->
  exists curr, right_join_rows y j = (OB_SUCCESS, with_curr j curr) /\ fixed (with_curr j curr) /\
    Forall2 same_cell (row_cells curr) (right_cells y).
Proof.
  intros Hf Hy. destruct (jo_right_row y Hy) as [Hwy Hdy]. unfold right_join_rows. rewrite (fx_desc j Hf).
  destruct (right_join_cells_spec (curr_row_ j) d dl dr (proj1 (fx_curr j Hf)) (proj2 (fx_curr j Hf)) Hnum Hnl y)
    as (c' & E & Hw & Hd & Hcells); [done | done |].
  rewrite E. eexists. split; [done |]. destruct Hf. split; [by split |].
  cbn. rewrite Hcells. apply same_cells_refl.
Qed.

(** A row that was joined goes out or not, as [q] says. *)
Lemma offer_ok j1 c keep skip fail :
  fixed j1 -> Forall2 same_cell (row_cells (curr_row_ j1)) c ->
  offer (OB_SUCCESS, j1) keep skip fail =
    if q c then j ← keep j1 ; Some (OB_SUCCESS, Some (curr_row_ j), j) else skip j1.
Proof.
  intros Hf Hc. unfold offer. change (negb (OB_SUCCESS =? OB_SUCCESS)) with false. cbn iota.
  unfold curr_row_is_qualified. rewrite (fx_other j1 Hf), (Hq _ c), bind_some by (try done; apply Hf).
  change (negb (OB_SUCCESS =? OB_SUCCESS)) with false. cbn iota. by destruct (q c).
Qed.

(** ** What a call leads to *)

Abbreviation taken j := (with_last_rows j None (last_right_row_ j)).

(** Between two calls: the cells of the rows still to come. *)
Inductive waits j : list (list ObObj) -> Prop :=
| waits_merge x L R : last_left_row_ j = Some x -> at_merge (taken j) x L R -> waits j (merge (x :: L) R)
| waits_collect x L Y R :
    last_left_row_ j = Some x -> at_collect (taken j) x L Y R -> waits j (collecting x L Y R)
| waits_cache x0 x L Y p R :
    last_left_row_ j = Some x -> at_cache (taken j) x0 x L Y p R -> waits j (rereading x0 x L Y R p)
| waits_next L R :
    fixed j -> last_left_row_ j = None -> left_at j L -> right_at j R -> cache_at j [] 0 ->
    right_cache_is_valid_ j = false -> rows_at L R -> waits j (merge L R)
| waits_tail R :
    right_outer = true -> fixed j -> last_left_row_ j = None -> left_at j [] -> right_at j R -> Forall DR R ->
    waits j (rights R).

Lemma waits_fixed j T : waits j T -> fixed j.
Proof.
  intros [x L R _ [Hf _ _ _ _ _ _] | x L Y R _ [Hf _ _ _ _ _ _ _ _ _] | x0 x L Y p R _ [Hf _ _ _ _ _ _ _ _ _]
         | L R Hf _ _ _ _ _ _ | R _ Hf _ _ _ _]; [| | | done | done]; by destruct Hf.
Qed.

Definition disqualified T : Prop := Forall (fun c => q c = false) T.

(** The loop of a call either hands out the next qualified row or ends before
    the right rows that are left. *)
Inductive outcome T : Z * option ObRow * ObMergeJoin C -> Prop :=
| out_row T1 c T2 j :
    T = T1 ++ c :: T2 -> disqualified T1 -> q c = true ->
    Forall2 same_cell (row_cells (curr_row_ j)) c -> waits j T2 -> outcome T (OB_SUCCESS, Some (curr_row_ j), j)
| out_end T1 R j :
    T = T1 ++ rights R -> disqualified T1 -> fixed j -> last_left_row_ j = None -> right_at j R -> Forall DR R ->
    (is_right_iter_end_ j = false -> right_outer = true -> left_at j []) -> outcome T (OB_ITER_END, None, j).

(** [f] gets the bounds on the rounds and on the calls. *)
Definition leads (f : nat -> nat -> option (Z * option ObRow * ObMergeJoin C)) T : Prop :=
  exists out, (exists n, forall k m, (n <= k)%nat -> (n <= m)%nat -> f k m = Some out) /\ outcome T out.

Lemma leads_ret out T : outcome T out -> leads (fun _ _ => Some out) T.
Proof. intros H. exists out. split; [by exists 0%nat | done]. Qed.

Lemma leads_skip f T1 T : disqualified T1 -> leads f T -> leads f (T1 ++ T).
Proof.
  intros H1 (out & Hs & Ho). exists out. split; [done |].
  destruct Ho as [T2 c T3 j -> Hd Hc Hcells Hw | T2 R j -> Hd Hf Hl Hr HR He].
  - eapply (out_row _ (T1 ++ T2)); [by rewrite app_assoc | by apply Forall_app | done | done | done].
  - eapply (out_end _ (T1 ++ T2)); [by rewrite app_assoc | by apply Forall_app | done | done | done | done | done].
Qed.

Lemma leads_eventually f g T :
  (exists n, forall k m, (n <= k)%nat -> (n <= m)%nat -> f k m = g k m) -> leads g T -> leads f T.
Proof.
  intros [n Hn] (out & [n' Hn'] & Ho). exists out. split; [| done]. exists (n `max` n')%nat. intros k m Hk Hm.
  rewrite Hn, Hn' by lia. done.
Qed.

(** A call on a child that settles. *)
Lemma leads_bind {A} (g : nat -> option A) v h T :
  settles g v -> leads (fun k m => h k m v) T -> leads (fun k m => a ← g m ; h k m a) T.
Proof.
  intros [n Hn] H. eapply leads_eventually; [| exact H]. exists n. intros k m _ Hm. by rewrite (Hn m Hm), bind_some.
Qed.

Abbreviation loop x right j := (fun k m => join_loop obj_cast malloc left_outer right_outer k m x right j).
Abbreviation rounds := (fun k m => join_loop obj_cast malloc left_outer right_outer k m).

Lemma leads_loop x right j T :
  leads (fun k m => if right_cache_is_valid_ j then cached_round obj_cast m (rounds k m) x right j
                    else merge_round obj_cast malloc left_outer right_outer m (rounds k m) x right j) T ->
  leads (loop x right j) T.
Proof.
  intros (out & [n Hn] & Ho). exists out. split; [| done]. exists (S n). intros [| k] m Hk Hm; [lia |].
  cbn [join_loop]. apply Hn; lia.
Qed.

(** A joined row. *)
Lemma leads_offer joined j1 c j2 keep skip fail T :
  joined = (OB_SUCCESS, j1) -> fixed j1 -> Forall2 same_cell (row_cells (curr_row_ j1)) c ->
  keep j1 = Some j2 -> curr_row_ j2 = curr_row_ j1 -> waits j2 T ->
  leads (fun k m => skip k m j1) T ->
  leads (fun k m => offer joined keep (skip k m) (fail k m)) (c :: T).
Proof.
  intros -> Hf Hc Hk Hcurr Hw Hs.
  apply (leads_eventually _ (fun k m => if q c then Some (OB_SUCCESS, Some (curr_row_ j2), j2) else skip k m j1)).
  { exists 0%nat. intros k m _ _. rewrite (offer_ok j1 c) by done. by rewrite Hk, bind_some. }
  destruct (q c) eqn:E.
  - apply leads_ret. apply (out_row _ [] c T); [done | constructor | done | by rewrite Hcurr | done].
  - apply (leads_skip _ [c]); [by repeat constructor | done].
Qed.

(** The next left row, or the end. *)
Lemma leads_next x right j L R T :
  fixed j -> last_left_row_ j = None -> right_at j R -> Forall DR R -> left_at j L ->
  match L with
  | [] => T = rights R
  | x' :: L' => forall l, left_at (left_called j l) L' -> leads (loop x' right (left_called j l)) T
  end ->
  leads (fun k m => next_left_row m (rounds k m) x right j) T.
Proof.
  intros Hf Hn Hr HR Hl H. pose proof (next_left_ok j L (Some x) Hl) as Hs. unfold next_left_row.
  destruct L as [| x' L'].
  - destruct Hs as (row & l' & Hs & He). eapply leads_bind; [exact Hs |].
    apply leads_ret, (out_end _ [] R); [done | constructor | by apply left_called_fixed | done | done | done | auto].
  - destruct Hs as (l' & Hs & Hl'). eapply leads_bind; [exact Hs |]. by apply H.
Qed.

(** ** Rounds *)

(** What does not change between two states. *)
Ltac state :=
  try done; try (match goal with H : fixed _ |- fixed _ => destruct H; by split end).

#[local] Instance key_order : CmpOrder kD cells_compare := jo_order.

Definition good_merge L : Prop := forall j x right R, at_merge j x L R -> leads (loop x right j) (merge (x :: L) R).

Definition good_cache L : Prop :=
  forall j x0 x right Y p R, at_cache j x0 x L Y p R -> leads (loop x right j) (rereading x0 x L Y R p).

(** The loop is right for the left rows behind the current one. *)
Definition tail_good L : Prop := match L with [] => True | _ :: L' => good_merge L' /\ good_cache L' end.

Lemma rows_at_left x L R : rows_at (x :: L) R -> rows_at L R /\ DL x.
Proof.
  intros ([Hx HL]%Forall_cons & HR & HsL & HsR). split; [| done].
  destruct (left_sorted_tail lk kD cells_compare x L HsL) as (_ & ? & _). unfold rows_at. by conjs.
Qed.

Lemma rows_at_right L y R : rows_at L (y :: R) -> rows_at L R /\ DR y.
Proof.
  intros (HL & [Hy HR]%Forall_cons & HsL & HsR). split; [| done]. unfold rows_at. conjs; [done | done | done |].
  eapply right_sorted_suffix; [| exact HsR]. by apply suffix_cons_r.
Qed.

Lemma rights_keys R : Forall DR R -> Forall (fun y => kD (rk y)) R.
Proof. intros H. eapply Forall_impl; [exact H |]. apply jo_right_key. Qed.

(** [x] has met its partners [Y], which are kept; the next left row rereads them. *)
Lemma partners_done x right j L Y R :
  fixed j -> left_at j L -> right_at j R -> last_left_row_ j = None -> cache_at j Y 0 -> right_cache_is_valid_ j = true ->
  rows_at (x :: L) R -> kept_for j x Y -> beyond lk rk cells_compare x R -> tail_good L ->
  leads (fun k m => next_left_row m (rounds k m) x right j) (merge L (rest_for lk rk cells_compare x L (Y ++ R))).
Proof.
  intros Hf Hl Hr Hn Hc Hv Hrows Hk Hb Hgood. pose proof Hrows as (HL & HR & HsL & HsR). pose proof Hk as [(HY & HDY & HeY) _].
  unfold merge. rewrite (after_partners lk rk kD cells_compare) by (try done; apply Forall_app; auto using rights_keys).
  apply (leads_next x right j L R); try done. destruct L as [| x' L']; [done |].
  intros l Hl'. destruct Hgood as [_ Hg]. apply Hg.
  split; state. lia.
Qed.

Lemma leads_if (b : bool) f g T :
  (b = true -> leads f T) -> (b = false -> leads g T) -> leads (fun k m => if b then f k m else g k m) T.
Proof. destruct b; auto. Qed.

Lemma leads_assert (b : bool) f T : b = true -> leads f T -> leads (fun k m => ob_assert b ;; f k m) T.
Proof. by intros ->. Qed.

Lemma lefts_one x : left_outer = true -> lefts [x] = [left_cells x].
Proof. unfold lefts, JoinSpec.lefts. by intros ->. Qed.

Lemma lefts_inner L : left_outer = false -> lefts L = [].
Proof. unfold lefts, JoinSpec.lefts. by intros ->. Qed.

Lemma rights_nil : rights [] = [].
Proof. unfold rights, JoinSpec.rights. by case right_outer. Qed.

Lemma merge_inner_end L : left_outer = false -> merge L [] = [].
Proof.
  intros El. unfold merge. induction L as [| x L IH]; [exact rights_nil |].
  rewrite merge_join_left_end, IH, app_nil_r. by apply lefts_inner.
Qed.

(** The left row finds no right row any more. *)
Lemma merge_at_end x right j L :
  at_merge j x L [] -> is_right_iter_end_ j = true -> tail_good L ->
  leads (fun k m => merge_round obj_cast malloc left_outer right_outer m (rounds k m) x right j) (merge (x :: L) []).
Proof.
  intros [Hf Hl Hr Hn Hc Hv Hrows] He Hgood. destruct (rows_at_left x L [] Hrows) as [Hrows' Hx].
  assert (Hlast : last_right_row_ j = None) by (unfold right_at in Hr; rewrite He in Hr; by destruct Hr).
  unfold merge_round. rewrite He. apply leads_if; intros El.
  - replace (merge (x :: L) []) with (left_cells x :: merge L [])
      by (unfold merge; rewrite merge_join_left_end; by rewrite (lefts_one x El : JoinSpec.lefts _ _ _ = _)).
    destruct (left_join_rows_ok x j Hf Hx) as (curr & Ej & Hf1 & Hcells).
    apply (leads_offer _ (with_curr j curr) _ (with_curr j curr));
      [done | done | done | by cbn; rewrite Hn, Hlast | done | by apply waits_next |].
    apply leads_assert; [by cbn; rewrite Hn, Hlast |]. apply (leads_next x right _ L []); try done.
    destruct L as [| x' L']; [done |]. intros l Hl'. apply Hgood. split; state.
  - rewrite merge_inner_end by done.
    apply leads_ret, (out_end _ [] []); [by rewrite rights_nil | constructor | done | done | done | constructor | congruence].
Qed.

(** The left row the cache is kept for is saved before the first right row. *)
Lemma save_first j x Y :
  fixed j -> DL x -> cache_at j Y 0 -> Y = [] \/ kept_for j x Y ->
  exists last, (empty ← is_empty (right_cache_ j) ; if (empty : bool) then save_join_left x j else Some (OB_SUCCESS, j)) =
      Some (OB_SUCCESS, with_last_join j last) /\
    row_wf last /\ DL last /\ cells_compare (lk x) (lk last) = 0.
Proof.
  intros Hf Hx [Hc _] HY. rewrite (is_empty_ok _ _ Hc), bind_some. destruct HY as [-> | [(HY & _) (Hlast & Heq)]].
  - change (bool_decide (map row_bytes [] = [])) with true. cbn iota. unfold save_join_left. rewrite (fx_store j Hf).
    destruct (jo_save x (last_join_left_row_ j) Hx (fx_last j Hf)) as (last & -> & Hd & Hw & Hk). rewrite bind_some.
    exists last. conjs; [done | done | done |]. rewrite Hk. by apply (cmp_self kD cells_compare), jo_left_key.
  - rewrite bool_decide_eq_false_2 by (by destruct Y). exists (last_join_left_row_ j).
    conjs; [by destruct j | apply Hf | done | done].
Qed.

Lemma keep_right j Y y :
  fixed j -> DR y -> cache_at j Y 0 ->
  exists stored cache, store_add_row malloc None y (right_cache_ j) = Some (OB_SUCCESS, stored, cache) /\
    store_ok cache (map row_bytes (Y ++ [y])) /\ cursor_at cache (Some 0%nat) /\ reserved_columns_ cache = [].
Proof.
  intros Hf Hy [Hc Hcur]. destruct (jo_keep y Hy) as [Hk Hsz].
  destruct (store_add_row_ok malloc malloc_ok (right_cache_ j) (map row_bytes Y) y Hc Hk) as (stored & cache & E & _ & Hg).
  { unfold header_size, get_reserved_cells_size. rewrite (fx_reserved j Hf). cbn [length]. lia. }
  exists (Some stored), cache. conjs; [done | | |].
  - rewrite map_app. by apply (grown_ok (right_cache_ j)).
  - by apply (keeps_cursor (right_cache_ j)), Hcur; destruct Hg.
  - rewrite (ks_reserved (right_cache_ j) cache); [apply Hf | by destruct Hg].
Qed.

(** The loop is right for the right rows behind the current one. *)
Definition good_right x L R : Prop :=
  (forall j right, at_merge j x L R -> leads (loop x right j) (merge (x :: L) R)) /\
  (forall j right Y, at_collect j x L Y R -> leads (loop x right j) (collecting x L Y R)).

Lemma last_rows_same j l r : last_left_row_ j = l -> last_right_row_ j = r -> with_last_rows j l r = j.
Proof. by destruct j; cbn; intros -> ->. Qed.

Lemma curr_same j : with_curr j (curr_row_ j) = j.
Proof. by destruct j. Qed.

(** A right row was read: what both phases know. *)
Record fetched j x L Y y R : Prop := {
  fe_fixed : fixed j;
  fe_left : left_at j L;
  fe_right : right_at j R;
  fe_end : is_right_iter_end_ j = false;
  fe_none : last_left_row_ j = None /\ last_right_row_ j = None;
  fe_cache : cache_at j Y 0;
  fe_valid : right_cache_is_valid_ j = false;
  fe_rows : rows_at (x :: L) (y :: R);
  fe_kept : Y = [] \/ kept_for j x Y
}.

Lemma equal_round_ok x j L Y y R :
  fetched j x L Y y R -> cells_compare (lk x) (rk y) = 0 -> good_right x L R ->
  leads (fun k m => equal_round malloc (rounds k m) x y j) (pair_cells x y :: collecting x L (Y ++ [y]) R).
Proof.
  intros [Hf Hl Hr He [Hn1 Hn2] Hc Hv Hrows HY] Heq [_ Hgood].
  destruct (rows_at_left x L _ Hrows) as [_ Hx]. destruct (rows_at_right _ y R Hrows) as [Hrows' Hy].
  destruct (save_first j x Y Hf Hx Hc HY) as (last & E & Hwl & Hdl & Hkl).
  set (j1 := with_last_join j last) in E. assert (Hf1 : fixed j1) by (destruct Hf; by split).
  destruct (keep_right j1 Y y Hf1 Hy Hc) as (stored & cache & Ea & Hcache & Hcur & Hres).
  set (j2 := with_cache j1 cache (curr_cached_right_row_ j1) (right_cache_is_valid_ j1)).
  assert (Hf2 : fixed j2) by (destruct Hf1; by split). destruct (jo_right_row y Hy) as [Hwy Hdy].
  destruct (join_rows_ok x y j2 (row_cells y) Hf2 Hx Hwy Hdy (same_cells_refl _)) as (curr & Ej & Hf3 & Hcells).
  assert (Hnext : at_collect (with_curr j2 curr) x L (Y ++ [y]) R).
  { split; state.
    - split; [| done]. unfold kept. conjs.
      + by destruct Y.
      + apply Forall_app. split; [| by repeat constructor]. destruct HY as [-> | [(_ & ? & _) _]]; [constructor | done].
      + apply Forall_app. split; [| by repeat constructor]. destruct HY as [-> | [(_ & _ & ?) _]]; [constructor | done].
    - destruct Hrows as (_ & _ & [HkL _] & HsR). apply Forall_cons in HkL as [Hkx _].
      pose proof (below_all lk rk kD cells_compare x y R Hkx HsR ltac:(lia)) as Hb. by apply Forall_cons in Hb as [_ Hb]. }
  apply (leads_eventually _ (fun k m => offer (join_rows x y j2)
    (fun j => ob_assert (is_null (last_right_row_ j)) ;; keep_left x j)
    (fun j => ob_assert (is_null (last_left_row_ j) && is_null (last_right_row_ j)) ;; rounds k m x (Some y) j) stop)).
  { exists 0%nat. intros k m _ _. unfold equal_round. destruct (is_empty (right_cache_ j)) as [b |]; [| done].
    rewrite bind_some in E. rewrite bind_some, E, bind_some. change (negb (OB_SUCCESS =? OB_SUCCESS)) with false. cbn iota.
    rewrite Ea, bind_some. done. }
  apply (leads_offer _ (with_curr j2 curr) _ (with_last_rows (with_curr j2 curr) (Some x) None));
    [done | done | done | unfold keep_left; cbn; by rewrite Hn2 | done | |].
  - apply waits_collect; [done |]. change (at_collect (with_last_rows (with_curr j2 curr) None None) x L (Y ++ [y]) R).
    by rewrite last_rows_same.
  - apply leads_assert; [by cbn; rewrite Hn1, Hn2 |]. by apply Hgood.
Qed.

(** The right row waits for the next left row. *)
Abbreviation waiting j y := (with_last_rows j (last_left_row_ j) (Some y)).

Lemma waiting_right j R y :
  right_at j R -> is_right_iter_end_ j = false -> last_right_row_ j = None -> right_at (waiting j y) (y :: R).
Proof.
  unfold right_at. cbn. intros Hr He Hn. rewrite He in *. destruct Hr as (r & Er & Hr). rewrite Hn in Hr.
  exists r. split; [done |]. by exists R.
Qed.

Lemma below_alone_ok x j L y R :
  fetched j x L [] y R -> cells_compare (lk x) (rk y) < 0 -> tail_good L ->
  leads (fun k m => below_round left_outer m (rounds k m) x y j) (merge (x :: L) (y :: R)).
Proof.
  intros [Hf Hl Hr He [Hn1 Hn2] Hc Hv Hrows _] Hlt Hgood. destruct (rows_at_left x L _ Hrows) as [Hrows' Hx].
  pose proof (waiting_right j R y Hr He Hn2) as Hw. unfold merge. rewrite merge_join_below by done.
  unfold below_round. rewrite (is_empty_ok _ _ (proj1 Hc)). cbn [map bool_decide decide].
  change (bool_decide (@nil (list Z) = [])) with true. cbn [mbind option_bind negb].
  assert (Hnext : forall curr, fixed (with_curr j curr) ->
    leads (fun k m => next_left_row m (rounds k m) x (Some y) (waiting (with_curr j curr) y)) (merge L (y :: R))).
  { intros curr Hf1. apply (leads_next x (Some y) _ L (y :: R)); state; [apply Hrows |].
    destruct L as [| x' L']; [done |]. intros l Hl'. apply Hgood. split; state. }
  apply leads_if; intros El.
  - rewrite (lefts_one x El : JoinSpec.lefts _ _ _ = _). cbn [app].
    destruct (left_join_rows_ok x j Hf Hx) as (curr & Ej & Hf1 & Hcells).
    apply (leads_offer _ (with_curr j curr) _ (waiting (with_curr j curr) y));
      [done | done | done | by cbn; rewrite Hn1 | done | |].
    + apply waits_next; state.
    + apply leads_assert; [by cbn; rewrite Hn1 |]. by apply Hnext.
  - rewrite (lefts_inner [x] El : JoinSpec.lefts _ _ _ = _). apply leads_assert; [by rewrite Hn1 |].
    rewrite <- (curr_same j). apply Hnext. by rewrite curr_same.
Qed.

Lemma below_partners_ok x j L Y y R :
  fetched j x L Y y R -> kept_for j x Y -> cells_compare (lk x) (rk y) < 0 -> tail_good L ->
  leads (fun k m => below_round left_outer m (rounds k m) x y j) (collecting x L Y (y :: R)).
Proof.
  intros [Hf Hl Hr He [Hn1 Hn2] Hc Hv Hrows _] Hk Hlt Hgood. pose proof (waiting_right j R y Hr He Hn2) as Hw.
  unfold collecting, JoinSpec.collecting. rewrite (proj1 (beyond_take lk rk cells_compare x (y :: R) Hlt)). cbn [map app].
  unfold below_round. rewrite (is_empty_ok _ _ (proj1 Hc)).
  rewrite bool_decide_eq_false_2 by (destruct Hk as [(HY & _) _]; by destruct Y). cbn [mbind option_bind negb].
  apply leads_assert; [by rewrite Hn1 |]. apply partners_done; state.
Qed.

Lemma rights_one y : right_outer = true -> rights [y] = [right_cells y].
Proof. unfold rights, JoinSpec.rights. by intros ->. Qed.

Lemma rights_left R : right_outer = false -> rights R = [].
Proof. unfold rights, JoinSpec.rights. by intros ->. Qed.

Lemma above_round_ok x j L y R :
  fetched j x L [] y R -> 0 < cells_compare (lk x) (rk y) -> good_right x L R ->
  leads (fun k m => above_round right_outer (rounds k m) x y j) (merge (x :: L) (y :: R)).
Proof.
  intros [Hf Hl Hr He [Hn1 Hn2] Hc Hv Hrows _] Hlt [Hgood _]. destruct (rows_at_right _ y R Hrows) as [Hrows' Hy].
  unfold merge. rewrite merge_join_above by done. unfold above_round. apply leads_assert; [by rewrite Hn1, Hn2 |].
  apply leads_if; intros Eo.
  - rewrite (rights_one y Eo : JoinSpec.rights _ _ _ = _). cbn [app].
    destruct (right_join_rows_ok y j Hf Hy) as (curr & Ej & Hf1 & Hcells).
    assert (Hnext : at_merge (with_curr j curr) x L R) by (split; state).
    apply (leads_offer _ (with_curr j curr) _ (with_last_rows (with_curr j curr) (Some x) (last_right_row_ j)));
      [done | done | done | done | done | | by apply Hgood].
    apply waits_merge; [done |].
    change (at_merge (with_last_rows (with_curr j curr) None (last_right_row_ j)) x L R). by rewrite last_rows_same.
  - rewrite (rights_left [y] Eo : JoinSpec.rights _ _ _ = _). apply Hgood. split; state.
Qed.

(** The comparison, with no partner met yet and with some. *)
Lemma compare_alone_ok x j L y R :
  fetched j x L [] y R -> tail_good L -> good_right x L R ->
  leads (fun k m => compare_round obj_cast malloc left_outer right_outer m (rounds k m) x (Some y) j) (merge (x :: L) (y :: R)).
Proof.
  intros Hfe Hgood Hright. destruct (rows_at_left x L _ (fe_rows _ _ _ _ _ _ Hfe)) as [_ Hx].
  destruct (rows_at_right _ y R (fe_rows _ _ _ _ _ _ Hfe)) as [_ Hy]. unfold compare_round.
  cbn [mbind option_bind]. rewrite (fx_equal j (fe_fixed _ _ _ _ _ _ Hfe)), (jo_compare x y Hx Hy).
  cbn [mbind option_bind]. change (negb (OB_SUCCESS =? OB_SUCCESS)) with false. cbn iota.
  apply leads_if; intros E1; [apply Z.eqb_eq in E1 | apply Z.eqb_neq in E1].
  - unfold merge. rewrite merge_join_equal, collecting_equal by done. by apply (equal_round_ok x j L [] y R).
  - apply leads_if; intros E2; [apply Z.ltb_lt in E2 | apply Z.ltb_ge in E2].
    + by apply below_alone_ok.
    + apply above_round_ok; [done | lia | done].
Qed.

Lemma compare_partners_ok x j L Y y R :
  fetched j x L Y y R -> kept_for j x Y -> cells_compare (lk x) (rk y) <= 0 -> tail_good L -> good_right x L R ->
  leads (fun k m => compare_round obj_cast malloc left_outer right_outer m (rounds k m) x (Some y) j) (collecting x L Y (y :: R)).
Proof.
  intros Hfe Hk Hle Hgood Hright. destruct (rows_at_left x L _ (fe_rows _ _ _ _ _ _ Hfe)) as [_ Hx].
  destruct (rows_at_right _ y R (fe_rows _ _ _ _ _ _ Hfe)) as [_ Hy]. unfold compare_round.
  cbn [mbind option_bind]. rewrite (fx_equal j (fe_fixed _ _ _ _ _ _ Hfe)), (jo_compare x y Hx Hy).
  cbn [mbind option_bind]. change (negb (OB_SUCCESS =? OB_SUCCESS)) with false. cbn iota.
  apply leads_if; intros E1; [apply Z.eqb_eq in E1 | apply Z.eqb_neq in E1].
  - unfold collecting. rewrite collecting_equal by done. by apply (equal_round_ok x j L Y y R).
  - apply leads_if; intros E2; [| apply Z.ltb_ge in E2; lia]. apply below_partners_ok; try done. lia.
Qed.

(** The loop, phase by phase. *)
Lemma merge_loop_end x right j L :
  at_merge j x L [] -> is_right_iter_end_ j = true -> tail_good L -> leads (loop x right j) (merge (x :: L) []).
Proof. intros Hm He Hgood. apply leads_loop. rewrite (am_valid _ _ _ _ Hm). by apply merge_at_end. Qed.

Lemma merge_loop_ok x right j L R :
  at_merge j x L R -> tail_good L -> match R with [] => True | _ :: R' => good_right x L R' end ->
  leads (loop x right j) (merge (x :: L) R).
Proof.
  intros Hm Hgood Hright. destruct (is_right_iter_end_ j) eqn:He.
  { assert (R = []) as -> by (pose proof (am_right _ _ _ _ Hm) as Hr; unfold right_at in Hr; rewrite He in Hr; by destruct Hr).
    by apply merge_loop_end. }
  apply leads_loop. pose proof Hm as [Hf Hl Hr Hn Hc Hv Hrows]. rewrite Hv. unfold merge_round. rewrite He.
  destruct (last_right_row_ j) as [y |] eqn:Ey.
  - unfold right_at in Hr. rewrite He, Ey in Hr. destruct Hr as (r & Er & R' & -> & Hr).
    apply compare_alone_ok; [| done | done]. split; state; [| by left]. unfold right_at. cbn. rewrite He. by exists r.
  - pose proof (next_right_ok j R right Hr He Ey) as Hs. destruct R as [| y R'].
    + destruct Hs as (row & r' & Hs). eapply leads_bind; [exact Hs |]. cbn beta iota.
      change (OB_ITER_END =? OB_SUCCESS) with false. change (OB_ITER_END =? OB_ITER_END) with true. cbn iota zeta.
      rewrite (is_empty_ok (right_cache_ (with_right_end (right_called j r'))) [] (proj1 Hc)). cbn [mbind option_bind].
      change (negb (bool_decide (@nil (list Z) = []))) with false. cbn iota.
      assert (Hend : right_at (with_right_end (right_called j r')) []) by (unfold right_at; by cbn).
      apply leads_if; intros El.
      * apply merge_loop_end; [| done | done]. split; state.
      * rewrite merge_inner_end by done.
        apply leads_ret, (out_end _ [] []); [by rewrite rights_nil | constructor | state | done | done | constructor | done].
    + destruct Hs as (r' & Hs & Hr'). eapply leads_bind; [exact Hs |].
      change (OB_SUCCESS =? OB_SUCCESS) with true. cbn iota. apply compare_alone_ok; [| done | done].
      split; state. by left.
Qed.

Lemma collect_loop_ok x right j L Y R :
  at_collect j x L Y R -> tail_good L -> match R with [] => True | _ :: R' => good_right x L R' end ->
  leads (loop x right j) (collecting x L Y R).
Proof.
  intros [Hf Hl Hr He [Hn1 Hn2] Hc Hv Hrows Hk Ha] Hgood Hright. apply leads_loop. rewrite Hv. unfold merge_round.
  rewrite He, Hn2. pose proof (next_right_ok j R right Hr He Hn2) as Hs. destruct R as [| y R'].
  - destruct Hs as (row & r' & Hs). eapply leads_bind; [exact Hs |]. cbn beta iota.
    change (OB_ITER_END =? OB_SUCCESS) with false. change (OB_ITER_END =? OB_ITER_END) with true. cbn iota zeta.
    rewrite (is_empty_ok (right_cache_ (with_right_end (right_called j r'))) _ (proj1 Hc)). cbn [mbind option_bind].
    rewrite bool_decide_eq_false_2 by (destruct Hk as [(HY & _) _]; by destruct Y). cbn [negb].
    apply leads_assert; [by cbn; rewrite Hn1, Hn2 |].
    unfold collecting, JoinSpec.collecting. cbn [take_while map app]. apply partners_done; state.
  - destruct Hs as (r' & Hs & Hr'). eapply leads_bind; [exact Hs |].
    change (OB_SUCCESS =? OB_SUCCESS) with true. cbn iota. apply Forall_cons in Ha as [Hle _].
    apply compare_partners_ok; [| done | done | done | done]. split; state. by right.
Qed.

Lemma good_right_ok x L R : tail_good L -> good_right x L R.
Proof.
  intros Hgood. induction R as [| y R IH].
  - split; intros; [by apply merge_loop_ok | by apply collect_loop_ok].
  - split; intros; [by apply merge_loop_ok | by apply collect_loop_ok].
Qed.

Lemma read_cached j Y p y :
  fixed j -> cache_at j Y p -> Forall DR Y -> Y !! p = Some y ->
  exists row cache, store_get_next_row (right_cache_ j) (curr_cached_right_row_ j) = Some (OB_SUCCESS, row, cache) /\
    fixed (with_cache j cache row true) /\ cache_at (with_cache j cache row true) Y (S p) /\
    row_wf row /\ row_desc_ row = Some dr /\ Forall2 same_cell (row_cells row) (row_cells y).
Proof.
  intros Hf [Hc Hcur] HY Ey. pose proof (store_get_next_row_ok _ Y (Some p) (curr_cached_right_row_ j) Hc Hcur) as H.
  cbn in H. rewrite Ey in H. cbn in H. destruct (fx_cached j Hf) as [Hw Hd].
  assert (Hy : DR y) by (eapply Forall_lookup_1; [exact HY | exact Ey]). destruct (jo_right_row y Hy) as [Hwy Hdy].
  destruct H as (row & b & pos & got & -> & Hw' & Hd' & Hcells & Hcur');
    [apply jo_keep, Hy | done | congruence | unfold row_column_num; by rewrite Hd, Hdy |].
  rewrite Hd in Hd'. eexists row, _. conjs; [done | | | done | done | done].
  - destruct Hf; by split.
  - split; [by apply store_ok_iter | done].
Qed.

Lemma read_cached_end j Y :
  fixed j -> cache_at j Y (length Y) ->
  exists cache, store_get_next_row (right_cache_ j) (curr_cached_right_row_ j) = Some (OB_ITER_END, curr_cached_right_row_ j, cache) /\
    let j' := with_cache j (reset_iterator cache) (curr_cached_right_row_ j) true in fixed j' /\ cache_at j' Y 0.
Proof.
  intros Hf [Hc Hcur]. pose proof (store_get_next_row_ok _ Y (Some (length Y)) (curr_cached_right_row_ j) Hc Hcur) as H.
  cbn in H. rewrite lookup_ge_None_2 in H by lia. cbn in H. destruct H as (b & pos & got & -> & _).
  eexists. split; [done |]. split; [destruct Hf; by split |]. apply (reset_iterator_ok _ (map row_bytes Y)). by apply store_ok_iter.
Qed.

(** The left row equals the one the cache is kept for. *)
Lemma same_left j x0 x L Y p R :
  at_cache j x0 x L Y p R ->
  cells_compare (lk x) (lk (last_join_left_row_ j)) = 0 <-> cells_compare (lk x0) (lk x) = 0.
Proof.
  intros H. destruct (rows_at_left _ _ _ (ah_rows _ _ _ _ _ _ _ H)) as [Hrows H0].
  destruct (rows_at_left _ _ _ Hrows) as [_ Hx]. destruct (ah_kept _ _ _ _ _ _ _ H) as [_ (Hlast & Heq)].
  pose proof (cmp_eq_l kD cells_compare (lk x0) (lk (last_join_left_row_ j)) (lk x)) as Hs.
  rewrite (cmp_zero_sym kD cells_compare (lk x) (lk (last_join_left_row_ j))) by (by apply jo_left_key).
  rewrite <- (Z.sgn_null_iff (cells_compare (lk x0) _)), Hs, Z.sgn_null_iff; try done; by apply jo_left_key.
Qed.

(** The keys of [x0] and [x] are equal: the kept rows are those of [x] as well. *)
Lemma kept_same j x0 x L Y p R :
  at_cache j x0 x L Y p R -> cells_compare (lk x0) (lk x) = 0 ->
  kept_for j x Y /\ beyond lk rk cells_compare x R.
Proof.
  intros H Heq. pose proof (proj2 (same_left _ _ _ _ _ _ _ H) Heq) as Hlast.
  destruct (rows_at_left _ _ _ (ah_rows _ _ _ _ _ _ _ H)) as [Hrows H0].
  destruct (rows_at_left _ _ _ Hrows) as [(_ & HR & _) Hx]. destruct (ah_kept _ _ _ _ _ _ _ H) as [(HY & HDY & HeY) (Hd & _)].
  pose proof (jo_left_key x0 H0). pose proof (jo_left_key x Hx). split.
  - split; [| done]. unfold kept. conjs; [done | done |].
    apply (equal_keys lk rk kD cells_compare x0); try done. by apply rights_keys.
  - apply (equal_beyond lk rk kD cells_compare x0); try done; [by apply rights_keys | by destruct H].
Qed.

Lemma cached_loop_ok j x0 x right L Y p R :
  at_cache j x0 x L Y p R -> tail_good L -> good_merge L ->
  (forall j right, at_cache j x0 x L Y (S p) R -> leads (loop x right j) (rereading x0 x L Y R (S p))) ->
  leads (loop x right j) (rereading x0 x L Y R p).
Proof.
  intros H Hgood Hmerge IH. pose proof (same_left _ _ _ _ _ _ _ H) as Hsame. pose proof (kept_same _ _ _ _ _ _ _ H) as Hkept.
  pose proof H as [Hf Hl Hr Hn Hc Hv Hrows Hk Hp Hb]. destruct (rows_at_left _ _ _ Hrows) as [Hrows' _].
  destruct (rows_at_left _ _ _ Hrows') as [_ Hx]. destruct Hk as [(HY & HDY & HeY) (Hd & Heq)].
  apply leads_loop. rewrite Hv. unfold cached_round. rewrite (is_empty_ok _ _ (proj1 Hc)). cbn [mbind option_bind].
  apply leads_assert; [rewrite bool_decide_eq_false_2 by (by destruct Y); done |].
  rewrite (fx_equal j Hf), (jo_left_compare x _ Hx Hd). cbn [mbind option_bind].
  change (negb (OB_SUCCESS =? OB_SUCCESS)) with false. cbn iota. unfold rereading, JoinSpec.rereading.
  apply leads_if; intros E; [apply Z.eqb_eq, Hsame in E | apply Z.eqb_neq in E; rewrite Hsame in E].
  - rewrite (proj2 (Z.eqb_eq _ _) E). destruct (Hkept E) as [Hk' Hb'].
    destruct (decide (p < length Y)%nat) as [Hlt | Hge].
    + destruct (lookup_lt_is_Some_2 Y p Hlt) as [y Ey].
      destruct (read_cached j Y p y Hf Hc HDY Ey) as (row & cache & -> & Hf1 & Hc1 & Hwr & Hdr & Hsc).
      cbn [mbind option_bind]. change (OB_SUCCESS =? OB_SUCCESS) with true. cbn iota.
      destruct (join_rows_ok x row _ (row_cells y) Hf1 Hx Hwr Hdr Hsc) as (curr & Ej & Hf2 & Hcells).
      set (j1 := with_curr (with_cache j cache row true) curr) in *.
      assert (Hnext : at_cache j1 x0 x L Y (S p) R) by (split; state).
      rewrite (drop_S Y y p Ey). cbn [map app].
      assert (ET : map (pair_cells x) (drop (S p) Y) ++ merge L (rest_for lk rk cells_compare x L (Y ++ R)) =
                rereading x0 x L Y R (S p)).
      { unfold rereading, JoinSpec.rereading. by rewrite (proj2 (Z.eqb_eq _ _) E). }
      change (merge_join lk rk cells_compare pair_cells left_cells right_cells left_outer right_outer) with merge.
      rewrite ET. apply (leads_offer _ j1 _ (with_last_rows j1 (Some x) (last_right_row_ j)));
        [done | done | done | done | done | |].
      * apply waits_cache; [done |].
        change (at_cache (with_last_rows j1 None (last_right_row_ j)) x0 x L Y (S p) R). by rewrite last_rows_same.
      * apply leads_assert; [by cbn; rewrite Hn |]. by apply IH.
    + replace p with (length Y) in * by lia. destruct (read_cached_end j Y Hf Hc) as (cache & -> & Hf1 & Hc1).
      cbn [mbind option_bind]. change (OB_ITER_END =? OB_SUCCESS) with false. change (OB_ITER_END =? OB_ITER_END) with true.
      cbn iota. rewrite drop_ge by lia. cbn [map app]. apply partners_done; state.
  - rewrite (proj2 (Z.eqb_neq _ _) E). apply Hmerge. destruct (clear_ok _ _ (proj1 Hc)). split; state.
Qed.

Lemma good_cache_ok L : tail_good L -> good_merge L -> good_cache L.
Proof.
  intros Hgood Hmerge j x0 x right Y p R. remember (length Y - p)%nat as n eqn:En. revert j right p En.
  induction n as [n IH] using lt_wf_ind. intros j right p En H. apply cached_loop_ok; try done.
  intros j' right' H'. pose proof (ah_pos _ _ _ _ _ _ _ H'). eapply IH; [| done | done]. lia.
Qed.

(** The loop is right from every state. *)
Lemma loop_ok L : tail_good L /\ good_merge L /\ good_cache L.
Proof.
  induction L as [| x L (Ht & Hm & Hc)].
  all: match goal with |- tail_good ?L /\ _ => assert (Ht' : tail_good L) by done end.
  all: assert (Hm' : good_merge _) by (intros j x' right R; apply (good_right_ok x' _ R Ht')).
  all: split; [done |]; split; [exact Hm' |]; by apply good_cache_ok.
Qed.

(** ** A call *)

Inductive call_outcome T : Z * option ObRow * ObMergeJoin C -> Prop :=
| call_row T1 c T2 j :
    T = T1 ++ c :: T2 -> disqualified T1 -> q c = true ->
    Forall2 same_cell (row_cells (curr_row_ j)) c -> waits j T2 -> call_outcome T (OB_SUCCESS, Some (curr_row_ j), j)
| call_end j : disqualified T -> call_outcome T (OB_ITER_END, None, j).

Lemma call_skip T1 T out : disqualified T1 -> call_outcome T out -> call_outcome (T1 ++ T) out.
Proof.
  intros H1 [T2 c T3 j -> Hd Hc Hcells Hw | j Hd].
  - eapply (call_row _ (T1 ++ T2)); [by rewrite app_assoc | by apply Forall_app | done | done | done].
  - apply call_end. by apply Forall_app.
Qed.

(** After the last left row. *)
Lemma tail_read j y R right :
  fixed j -> last_left_row_ j = None -> left_at j [] -> right_at j (y :: R) -> is_right_iter_end_ j = false ->
  exists j1 n, fixed j1 /\ last_left_row_ j1 = None /\ left_at j1 [] /\ right_at j1 R /\
    is_right_iter_end_ j1 = false /\ forall m, (n <= m)%nat ->
    match last_right_row_ j with
    | Some y => Some (OB_SUCCESS, Some y, with_last_rows j (last_left_row_ j) None)
    | None => join_next_right m right j
    end = Some (OB_SUCCESS, Some y, j1).
Proof.
  intros Hf Hn Hl Hr He. destruct (last_right_row_ j) as [y' |] eqn:Ey.
  - unfold right_at in Hr. rewrite He, Ey in Hr. destruct Hr as (r & Er & R' & [= <- <-] & Hr).
    exists (with_last_rows j (last_left_row_ j) None), 0%nat. conjs; state. unfold right_at. cbn. rewrite He. by exists r.
  - destruct (next_right_ok j (y :: R) right Hr He Ey) as (r' & [n Hs] & Hr').
    exists (right_called j r'), n. conjs; state.
Qed.

Lemma right_tail_ok j R right :
  right_outer = true -> fixed j -> last_left_row_ j = None -> left_at j [] -> right_at j R ->
  is_right_iter_end_ j = false -> Forall DR R ->
  exists out n, (forall k m, (n <= k)%nat -> (n <= m)%nat -> right_tail k m right j = Some out) /\ call_outcome (rights R) out.
Proof.
  intros Ho. revert j right. induction R as [| y R IH]; intros j right Hf Hn Hl Hr He HR.
  - assert (Hlast : last_right_row_ j = None).
    { unfold right_at in Hr. rewrite He in Hr. destruct Hr as (r & _ & Hr). by destruct (last_right_row_ j) as [y |];
        [destruct Hr as (R' & ? & _) |]. }
    destruct (next_right_ok j [] right Hr He Hlast) as (row & r' & [n Hs]).
    exists (OB_ITER_END, None, right_called j r'), (S n). split.
    + intros [| k] m Hk Hm; [lia |]. cbn [right_tail]. by rewrite Hlast, Hs, bind_some by lia.
    + rewrite rights_nil. apply call_end. constructor.
  - apply Forall_cons in HR as [Hy HR].
    destruct (tail_read j y R right Hf Hn Hl Hr He) as (j1 & n & Hf1 & Hn1 & Hl1 & Hr1 & He1 & Hread).
    destruct (right_join_rows_ok y j1 Hf1 Hy) as (curr & Ej & Hf2 & Hcells).
    change (rights (y :: R)) with (JoinSpec.rights right_cells right_outer ([y] ++ R)).
    rewrite rights_app, (rights_one y Ho : JoinSpec.rights _ _ _ = _).
    destruct (IH (with_curr j1 curr) (Some y)) as (out & n' & Hs & Hout); try done.
    exists (if q (right_cells y) then (OB_SUCCESS, Some curr, with_curr j1 curr) else out), (S (n `max` n')). split.
    + intros [| k] m Hk Hm; [lia |]. cbn [right_tail]. rewrite Hread, bind_some by lia.
      change (negb (OB_SUCCESS =? OB_SUCCESS)) with false. cbn iota. rewrite bind_some, Ej.
      rewrite (offer_ok (with_curr j1 curr) (right_cells y)) by done. destruct (q (right_cells y)); [done |]. apply Hs; lia.
    + destruct (q (right_cells y)) eqn:E; [| apply call_skip; [by repeat constructor | done]].
      apply (call_row _ [] (right_cells y) (rights R) (with_curr j1 curr)); [done | constructor | done | done |].
      by apply waits_tail.
Qed.

(** The loop, and after it the right rows that are left. *)
Lemma loop_then_tail f T :
  leads f T ->
  exists out, settles (fun n => '(ret, row, j) ← f n n ;
      if right_outer && (ret =? OB_ITER_END) && negb (is_right_iter_end_ j) then
        ob_assert (is_null (last_left_row_ j)) ;; right_tail n n None j
      else Some (ret, row, j)) out /\ call_outcome T out.
Proof.
  intros (out & [n Hn] & Ho). destruct Ho as [T1 c T2 j -> Hd Hc Hcells Hw | T1 R j -> Hd Hf Hl Hr HR He].
  - exists (OB_SUCCESS, Some (curr_row_ j), j). split; [| by eapply call_row]. exists n. intros m Hm.
    rewrite Hn, bind_some by lia. change (OB_SUCCESS =? OB_ITER_END) with false. by rewrite andb_false_r.
  - destruct (right_outer && negb (is_right_iter_end_ j)) eqn:Etail.
    + apply andb_true_iff in Etail as [Eo Ee]. apply negb_true_iff in Ee.
      destruct (right_tail_ok j R None Eo Hf Hl (He Ee Eo) Hr Ee HR) as (out & n' & Hs & Hout).
      exists out. split; [| by apply call_skip]. exists (n `max` n')%nat. intros m Hm.
      rewrite Hn, bind_some by lia. change (OB_ITER_END =? OB_ITER_END) with true.
      rewrite andb_true_r, Eo, Ee, Hl. cbn. apply Hs; lia.
    + exists (OB_ITER_END, None, j). split.
      * exists n. intros m Hm. rewrite Hn, bind_some by lia. change (OB_ITER_END =? OB_ITER_END) with true.
        by rewrite andb_true_r, Etail.
      * apply call_skip; [done |]. apply call_end. apply andb_false_iff in Etail as [Eo | Ee].
        -- rewrite rights_left by done. constructor.
        -- apply negb_false_iff in Ee. unfold right_at in Hr. rewrite Ee in Hr. destruct Hr as [-> _].
           rewrite rights_nil. constructor.
Qed.

Definition calls j T : Prop :=
  exists out, settles (fun n => outer_get_next_row obj_cast malloc left_outer right_outer n j) out /\ call_outcome T out.

Lemma call_saved j x T : last_left_row_ j = Some x -> leads (loop x None (taken j)) T -> calls j T.
Proof.
  intros Ex Hlead. unfold calls, outer_get_next_row. rewrite Ex. cbn [mbind option_bind].
  change (OB_SUCCESS =? OB_SUCCESS) with true. cbn [mbind option_bind]. exact (loop_then_tail _ _ Hlead).
Qed.

Lemma call_left j L R T :
  fixed j -> last_left_row_ j = None -> left_at j L -> right_at j R -> Forall DR R ->
  match L with
  | [] => T = rights R
  | x :: L' => forall l, left_at (left_called j l) L' -> leads (loop x None (left_called j l)) T
  end -> calls j T.
Proof.
  intros Hf Hn Hl Hr HR H. unfold calls, outer_get_next_row. rewrite Hn. pose proof (next_left_ok j L None Hl) as Hs.
  destruct L as [| x L'].
  - destruct Hs as (row & l' & [n Hs] & He).
    destruct (loop_then_tail (fun _ _ => stop OB_ITER_END (left_called j l')) T) as (out & [n' Hset] & Hout).
    { apply leads_ret, (out_end _ [] R); [done | constructor | state | done | done | done | auto]. }
    exists out. split; [| done]. exists (n `max` n')%nat. intros m Hm. rewrite Hs, bind_some by lia. apply Hset. lia.
  - destruct Hs as (l' & [n Hs] & Hl'). destruct (loop_then_tail _ T (H l' Hl')) as (out & [n' Hset] & Hout).
    exists out. split; [| done]. exists (n `max` n')%nat. intros m Hm. rewrite Hs, bind_some by lia. apply Hset. lia.
Qed.

Lemma call_ok j T : waits j T -> calls j T.
Proof.
  intros [x L R Ex Hm | x L Y R Ex Hm | x0 x L Y p R Ex Hm | L R Hf Hn Hl Hr Hc Hv Hrows | R Ho Hf Hn Hl Hr HR].
  - apply (call_saved j x); [done |]. by apply (loop_ok L).
  - apply (call_saved j x); [done |]. apply (good_right_ok x L R); [apply loop_ok | done].
  - apply (call_saved j x); [done |]. by apply (loop_ok L).
  - apply (call_left j L R); try done; [apply Hrows |]. destruct L as [| x L']; [done |]. intros l Hl'.
    apply (loop_ok L'). split; state.
  - by apply (call_left j [] R).
Qed.

(** ** The run *)

Lemma join_next j out :
  fixed j -> settles (fun n => outer_get_next_row obj_cast malloc left_outer right_outer n j) out ->
  settles (fun n => join_get_next_row obj_cast malloc n j) out.
Proof.
  intros Hf [n Hn]. exists n. intros m Hm. rewrite <- (Hn m Hm). unfold join_get_next_row. rewrite (fx_func j Hf), bind_some.
  clear - Hsides. destruct join_type; try discriminate Hsides; by injection Hsides as <- <-.
Qed.

Lemma join_lends buf_ok j : lends (ObPhyOperator0 := join_operator obj_cast malloc buf_ok) j (curr_row_ j).
Proof. exists (with_curr j). split; [by destruct j | done]. Qed.

Lemma waits_runs buf_ok j T :
  waits j T ->
  exists rows, runs (ObPhyOperator0 := join_operator obj_cast malloc buf_ok) j rows OB_ITER_END /\
    Forall (fun row => row_wf row /\ row_desc_ row = Some d) rows /\
    Forall2 (fun row c => Forall2 same_cell (row_cells row) c) rows (filter (fun c => q c = true) T).
Proof.
  remember (length T) as n eqn:En. revert j T En. induction n as [n IH] using lt_wf_ind. intros j T En Hw.
  pose proof (waits_fixed j T Hw) as Hf. destruct (call_ok j T Hw) as (out & Hs & Hout). apply (join_next j out Hf) in Hs.
  destruct Hout as [T1 c T2 j' -> Hd Hc Hcells Hw' | j' Hd].
  - destruct (IH (length T2)) with (j := j') (T := T2) as (rows & Hr & Hrows & Hsame); [| done | done |].
    { rewrite En, length_app. cbn. lia. }
    exists (curr_row_ j' :: rows). conjs.
    + eapply (runs_row (ObPhyOperator0 := join_operator obj_cast malloc buf_ok)); [exact Hs | apply join_lends | done].
    + constructor; [| done]. apply (waits_fixed j' T2 Hw').
    + rewrite filter_app, filter_none, filter_cons, decide_True; [by constructor | done |].
      eapply Forall_impl; [exact Hd |]. cbn. congruence.
  - exists []. conjs.
    + eapply (runs_stop (ObPhyOperator0 := join_operator obj_cast malloc buf_ok)); [done | exact Hs].
    + constructor.
    + rewrite filter_none; [constructor |]. eapply Forall_impl; [exact Hd |]. cbn. congruence.
Qed.

(** The state after opening. *)
Lemma opened_runs buf_ok l r L R :
  rowdesc_wf d -> rowdesc_wf dr -> left_runs l L -> runs r R OB_ITER_END -> rows_at L R ->
  exists rows, runs (ObPhyOperator0 := join_operator obj_cast malloc buf_ok)
      (mkJoin (with_right (with_left ObSetOperator_new l) r) (Some join_type) conds others None None ObRow_new true
         ObRowStore_new (row_of_desc dr) (row_of_desc d) d false false) rows OB_ITER_END /\
    Forall (fun row => row_wf row /\ row_desc_ row = Some d) rows /\
    Forall2 (fun row c => Forall2 same_cell (row_cells row) c) rows (filter (fun c => q c = true) (merge L R)).
Proof.
  intros Hd Hdr Hl Hr Hrows. apply waits_runs, waits_next; try done.
  - split; try done; split; try done; by apply row_of_desc_wf.
  - by exists l.
  - unfold right_at. cbn. by exists r.
  - split; [by split | by left].
Qed.
End Run.
