(* ===== verification/MergeJoinRows.v ===== *)
(** * Merge join: the rows it gives

    Rows whose key columns are typed and not null meet what the run asks of them
    ([JoinOrder]); opening builds the description of the joined rows.  Together:
    over sorted children the operator gives the rows of the join. *)

From S2P Require Import Prelude ObObject ObExprObj ObRowDesc ObRow ObBuffer ObCompactCell ObRowUtil ObRowStore.
From S2P Require Import RowStoreSpec PhyOperator RowKey SetOperator JoinSpec MergeJoin MergeJoinRun.
From Stdlib Require Import Sorted Permutation.
Local Open Scope Z_scope.

(** ** Rows with a key *)

Section Typed.
Context (obj_cast : ObObjType -> ObObjType -> ObExprObj -> option (Z * ObExprObj)).
Context (ks : list (column_kind * ObObjType)).

(** The loop over the conditions compares the keys. *)
Lemma compare_keys pick on_error (cs : list (Desc * Desc)) d1 d2 r1 r2 kinds :
  row_wf r1 -> row_desc_ r1 = Some d1 -> key_columns d1 (map fst cs) ->
  row_wf r2 -> row_desc_ r2 = Some d2 -> key_columns d2 (map pick cs) ->
  Forall2 typed_cell kinds (row_key (map fst cs) r1) -> Forall2 typed_cell kinds (row_key (map pick cs) r2) ->
  compare_conds obj_cast pick on_error (map Some cs) r1 r2 0 =
    Some (OB_SUCCESS, cells_compare (row_key (map fst cs) r1) (row_key (map pick cs) r2)).
Proof.
  intros Hw1 Hd1 Hc1 Hw2 Hd2 Hc2. revert kinds. induction cs as [| [c1 c2] cs IH]; intros kinds; [done |].
  unfold key_columns in Hc1, Hc2. cbn [map fst] in *.
  apply Forall_cons in Hc1 as [(Hm1 & Ht1 & Hi1) Hc1]. apply Forall_cons in Hc2 as [(Hm2 & Ht2 & Hi2) Hc2].
  destruct (get_cell_column r1 d1 c1 Hw1 Hd1 Hm1 Ht1 Hi1) as (_ & o1 & _ & _ & E1).
  destruct (get_cell_column r2 d2 (pick (c1, c2)) Hw2 Hd2 Hm2 Ht2 Hi2) as (_ & o2 & _ & _ & E2).
  cbn [compare_conds row_key map]. rewrite E1, E2. cbn [snd from_option id].
  intros (k & kinds' & [N1 T1] & Hk1 & ->)%Forall2_cons_inv_r ([N2 T2] & Hk2)%Forall2_cons_1.
  destruct (expr_compare_column obj_cast k.1 o1 o2) as (e1 & e2 & c & A1 & A2 & C & E); [done | done | congruence |].
  rewrite A1, bind_some, A2, bind_some, E, bind_some. change (negb (OB_SUCCESS =? OB_SUCCESS)) with false. cbn iota.
  cbn [cells_compare]. rewrite C. cbn [from_option id]. destruct (Z.eqb_spec c 0) as [-> | _]; cbn [negb]; [| done].
  by apply (IH Hc1 Hc2 kinds').
Qed.

Context (cs : list (Desc * Desc)) (dl dr : ObRowDesc).
Context (Hcl : key_columns dl (map fst cs)) (Hcr : key_columns dr (map snd cs)).

Abbreviation left_row := (keyed_row ks dl (map fst cs)).
Abbreviation right_row := (keyed_row ks dr (map snd cs)).

Lemma save_keyed x last :
  left_row x -> row_wf last ->
  exists last', convert_to_row x last (left_row_store true) MAX_SINGLE_ROW_SIZE = Some (OB_SUCCESS, last') /\
    left_row last' /\ row_wf last' /\ row_key (map fst cs) last' = row_key (map fst cs) x.
Proof.
  intros [[Hw Hd Hs Hp Hsz] Hk] Hl.
  destruct (convert_stored_row x dl last (replicate (Z.to_nat MAX_SINGLE_ROW_SIZE) 0) MAX_SINGLE_ROW_SIZE)
    as (last' & E & Hw' & Hd' & Hc'); [done | done | done | done | | |].
  { rewrite length_replicate, Z2Nat.id; [done |]. unfold MAX_SINGLE_ROW_SIZE. lia. }
  { unfold get_reserved_cells_size, SIZEOF_STORED_ROW, BIG_BLOCK_SIZE, SIZEOF_BLOCK_INFO, MAX_SINGLE_ROW_SIZE in *. lia. }
  exists last'. rewrite Hd in Hd'. pose proof (row_key_cells (map fst cs) x last' dl Hw Hw' Hd Hd' Hc' Hcl) as Hkey.
  conjs; [done | | done | done]. split; [split |]; rewrite ?Hc', ?Hkey; try done.
  - unfold storable_row, row_column_ids in *. rewrite Hc', Hd'. by rewrite Hd in Hs.
  - unfold no_extend. by rewrite Hc'.
Qed.

#[export] Instance keyed_join_order :
  JoinOrder obj_cast (map Some cs) left_row right_row (row_key (map fst cs)) (row_key (map snd cs))
    (Forall2 typed_cell ks) dl dr.
Proof.
  split.
  - apply cells_order.
  - by intros x [].
  - by intros y [].
  - intros x y [[] ?] [[] ?]. by apply (compare_keys _ _ _ dl dr _ _ ks).
  - intros x x' [[] ?] [[] ?]. by apply (compare_keys _ _ _ dl dl _ _ ks).
  - by intros x [[] _].
  - by intros y [[] _].
  - intros x last. apply save_keyed.
  - intros y [Hy _]. by apply (kept_keepable dr 0).
Qed.
End Typed.

(** ** Opening *)

Lemma join_desc_spec d0 dl dr :
  rowdesc_wf d0 -> rowdesc_wf dl -> rowdesc_wf dr -> NoDup (columns dl ++ columns dr) ->
  get_column_num dl + get_column_num dr <= MAX_COLUMNS_COUNT ->
  exists d, join_cons_row_desc (rowdesc_reset d0) dl dr = (OB_SUCCESS, d) /\ rowdesc_wf d /\
    columns d = columns dl ++ columns dr /\ rowkey_cell_count_ d = 0.
Proof.
  intros H0 Hl Hr Hnd Hmax. destruct (cleared_wf d0 0 H0) as [Hw Hc].
  pose proof (columns_length dl Hl). pose proof (columns_length dr Hr). unfold get_column_num in *.
  pose proof (proj1 (NoDup_app _ _) Hnd) as (Hndl & _). unfold join_cons_row_desc.
  destruct (copy_columns_append (Z.to_nat (cells_desc_count_ dl)) (rowdesc_reset d0) dl 0 Hw Hl)
    as (d1 & E1 & Hw1 & Hc1 & Hk1); [lia | lia | | |].
  { unfold rowdesc_reset. by rewrite Hc. }
  { unfold rowdesc_reset. rewrite Hc. cbn [length]. lia. }
  unfold get_column_num. rewrite E1. change (OB_SUCCESS =? OB_SUCCESS) with true. cbn iota.
  unfold rowdesc_reset in Hc1. rewrite Hc in Hc1. cbn [app] in Hc1. change (Z.to_nat 0) with 0%nat in Hc1. rewrite drop_0 in Hc1.
  destruct (copy_columns_append (Z.to_nat (cells_desc_count_ dr)) d1 dr 0 Hw1 Hr) as (d & E & Hwd & Hcd & Hkd); [lia | lia | | |].
  { by rewrite Hc1. }
  { rewrite Hc1. lia. }
  exists d. conjs; [done | done | by rewrite Hcd, Hc1 | by rewrite Hkd, Hk1].
Qed.

(** The description of the joined rows. *)
Definition joined_desc (d0 dl dr : ObRowDesc) : ObRowDesc := (join_cons_row_desc (rowdesc_reset d0) dl dr).2.

(** The operator as the plan builds it. *)
Definition join_over {C} (d0 : ObRowDesc) (l r : C) (t : JoinType) (conds : list Condition) (others : list Expression)
    : ObMergeJoin C :=
  let j := (join_set_child (join_set_child (set_join_type (ObMergeJoin_new d0) t) 0 l).2 1 r).2 in
  let j := fold_left (fun j c => (add_equijoin_condition j c).2) conds j in
  fold_left (fun j c => (add_other_join_condition j c).2) others j.

Lemma join_over_state {C} d0 (l r : C) t conds others :
  join_over d0 l r t conds others =
    mkJoin (with_right (with_left ObSetOperator_new l) r) (Some t) conds others None None ObRow_new false ObRowStore_new
      ObRow_new ObRow_new (rowdesc_reset d0) false false.
Proof.
  unfold join_over.
  assert (H1 : forall cs (j : ObMergeJoin C), fold_left (fun j c => (add_equijoin_condition j c).2) cs j =
            with_conds j (equal_join_conds_ j ++ cs) (other_join_conds_ j)).
  { induction cs as [| c cs IH]; intros j; cbn; [rewrite app_nil_r; by destruct j |]. rewrite IH. cbn. by rewrite <- app_assoc. }
  assert (H2 : forall cs (j : ObMergeJoin C), fold_left (fun j c => (add_other_join_condition j c).2) cs j =
            with_conds j (equal_join_conds_ j) (other_join_conds_ j ++ cs)).
  { induction cs as [| c cs IH]; intros j; cbn; [rewrite app_nil_r; by destruct j |]. rewrite IH. cbn. by rewrite <- app_assoc. }
  by rewrite H1, H2.
Qed.

Section Open.
Context {C : Type} `{!ObPhyOperator C}.

Lemma join_opens d0 (l r l1 r1 : C) t conds others dl dr d :
  opens l l1 -> opens r r1 ->
  op_get_row_desc l1 = (OB_SUCCESS, Some dl) -> op_get_row_desc r1 = (OB_SUCCESS, Some dr) -> conds <> [] ->
  join_cons_row_desc (rowdesc_reset d0) dl dr = (OB_SUCCESS, d) ->
  settles (fun m => join_open true m (join_over d0 l r t conds others)) (OB_SUCCESS,
    mkJoin (with_right (with_left ObSetOperator_new l1) r1) (Some t) conds others None None ObRow_new true ObRowStore_new
      (row_of_desc dr) (row_of_desc d) d false false).
Proof.
  intros Hl Hr Dl Dr Hc Hd. rewrite join_over_state. unfold join_open, double_open. cbn [equal_join_conds_ children_].
  destruct conds as [| c conds]; [done |]. cbn.
  eapply settles_bind; [eapply settles_bind; [exact Hl |]; cbn; eapply settles_bind; [exact Hr |]; apply settles_ret |].
  cbn. unfold cons_row_desc; cbn. rewrite Dl, Dr. cbn. rewrite Hd. cbn. apply settles_ret.
Qed.

(** What the join asks of its left child. *)
Definition left_gives (right_outer : bool) (s : C) (d : ObRowDesc) (rows : list ObRow) : Prop :=
  if right_outer then gives_on s d rows else gives s d rows OB_ITER_END.
End Open.

(** ** Theorems *)

(** Children that are sorted on typed key columns, with no column in common. *)
Record join_input (ks : list (column_kind * ObObjType)) (cs : list (Desc * Desc)) (dl dr : ObRowDesc)
    (L R : list ObRow) : Prop := {
  ji_conds : cs <> [];
  ji_left_columns : key_columns dl (map fst cs);
  ji_right_columns : key_columns dr (map snd cs);
  ji_descs : rowdesc_wf dl /\ rowdesc_wf dr;
  ji_distinct : NoDup (columns dl ++ columns dr);
  ji_count : get_column_num dl + get_column_num dr <= MAX_COLUMNS_COUNT;
  ji_left : Forall (keyed_row ks dl (map fst cs)) L;
  ji_right : Forall (keyed_row ks dr (map snd cs)) R;
  ji_left_sorted : StronglySorted (fun x x' => cells_compare (row_key (map fst cs) x) (row_key (map fst cs) x') <= 0) L;
  ji_right_sorted : StronglySorted (fun y y' => cells_compare (row_key (map snd cs) y) (row_key (map snd cs) y') <= 0) R
}.

(** The other conditions decide [q] on the cells of a joined row. *)
Definition conditions_decide (others : list Expression) (d : ObRowDesc) (q : list ObObj -> bool) : Prop :=
  forall row cells, row_wf row -> row_desc_ row = Some d -> Forall2 same_cell (row_cells row) cells ->
  qualified others row OB_SUCCESS = Some (OB_SUCCESS, q cells).

Definition rows_are (out : list ObRow) (cells : list (list ObObj)) : Prop :=
  Forall2 (fun row c => Forall2 same_cell (row_cells row) c) out cells.

Section Gives.
Context {C : Type} `{!ObPhyOperator C}.
Context (obj_cast : ObObjType -> ObObjType -> ObExprObj -> option (Z * ObExprObj)).
Context (malloc : Z -> bool) (malloc_ok : forall size, malloc size = true).
Context (t : JoinType) (left_outer right_outer : bool) (Hsides : join_sides t = Some (left_outer, right_outer)).
Context (ks : list (column_kind * ObObjType)) (cs : list (Desc * Desc)) (dl dr d0 : ObRowDesc) (L R : list ObRow).
Context (Hd0 : rowdesc_wf d0) (Hin : join_input ks cs dl dr L R).
Context (others : list Expression) (q : list ObObj -> bool) (Hq : conditions_decide others (joined_desc d0 dl dr) q).

Lemma join_gives (l r : C) :
  left_gives right_outer l dl L -> gives r dr R OB_ITER_END ->
  exists out, gives (ObPhyOperator0 := join_operator obj_cast malloc true) (join_over d0 l r t (map Some cs) others)
      (joined_desc d0 dl dr) out OB_ITER_END /\
    rows_are out (filter (fun c => q c = true)
      (merge_join (row_key (map fst cs)) (row_key (map snd cs)) cells_compare pair_cells (left_cells dr) (right_cells dl)
         left_outer right_outer L R)).
Proof.
  intros Hl (r1 & Or & Dr & _ & Rr). destruct Hin as [Hcs Hcl Hcr [Hwl Hwr] Hnd Hmax HL HR HsL HsR].
  destruct (join_desc_spec d0 dl dr Hd0 Hwl Hwr Hnd Hmax) as (d & Ed & Hwd & Hcd & Hkd).
  assert (Ejd : joined_desc d0 dl dr = d) by (unfold joined_desc; by rewrite Ed). rewrite Ejd in *.
  assert (Hl' : exists l1, opens l l1 /\ op_get_row_desc l1 = (OB_SUCCESS, Some dl) /\ left_runs right_outer l1 L).
  { unfold left_gives, left_runs in *. destruct right_outer; [done |]. destruct Hl as (l1 & ? & ? & _ & ?). by exists l1. }
  destruct Hl' as (l1 & Ol & Dl & Rl). clear Hl.
  assert (Hcs' : map Some cs <> []) by (by destruct cs).
  pose proof (join_opens d0 l r l1 r1 t (map Some cs) others dl dr d Ol Or Dl Dr Hcs' Ed) as Hopen.
  pose proof (columns_length d Hwd) as Hlen. rewrite Hcd, length_app in Hlen.
  pose proof (columns_length dl Hwl) as Hlenl. pose proof (columns_length dr Hwr) as Hlenr.
  pose proof (keyed_join_order obj_cast ks cs dl dr Hcl Hcr) as Hjo.
  destruct (opened_runs obj_cast malloc malloc_ok t left_outer right_outer Hsides (map Some cs) others dl dr d
    (keyed_row ks dl (map fst cs)) (keyed_row ks dr (map snd cs)) (row_key (map fst cs)) (row_key (map snd cs))
    (Forall2 typed_cell ks) ltac:(unfold get_column_num; lia) ltac:(unfold get_column_num; lia)
    ltac:(unfold get_column_num; lia) q Hq true l1 r1 L R Hwd Hwr Rl Rr) as (out & Hruns & Hout & Hsame).
  { split; [exact HL |]. split; [exact HR |]. split; (split; [| done]).
    - eapply Forall_impl; [exact HL |]. by intros x [].
    - eapply Forall_impl; [exact HR |]. by intros x []. }
  exists out. split; [| done]. eexists. conjs; [exact Hopen | | | exact Hruns].
  - cbn. unfold join_get_row_desc. cbn. destruct (Z.leb_spec (get_column_num d) 0); [| done]. exfalso.
    destruct cs as [| c cs']; [done |]. apply Forall_cons in Hcl as [[Hc _] _]. unfold get_column_num in *.
    destruct (columns dl); [by apply not_elem_of_nil in Hc |]. cbn in Hlen. lia.
  - eapply Forall_impl; [exact Hout |]. intros row [_ Hd]. unfold set_row_desc. rewrite Hkd. cbn. destruct row; cbn in *; by subst.
Qed.
End Gives.

(** The joined rows in the order of the merge, and as the join of the relational
    algebra. *)
Definition merged (cs : list (Desc * Desc)) (dl dr : ObRowDesc) (left_outer right_outer : bool) (L R : list ObRow)
    : list (list ObObj) :=
  merge_join (row_key (map fst cs)) (row_key (map snd cs)) cells_compare pair_cells (left_cells dr) (right_cells dl)
    left_outer right_outer L R.

Definition joined (cs : list (Desc * Desc)) (dl dr : ObRowDesc) (left_outer right_outer : bool) (L R : list ObRow)
    : list (list ObObj) :=
  sql_join (row_key (map fst cs)) (row_key (map snd cs)) cells_compare pair_cells (left_cells dr) (right_cells dl)
    left_outer right_outer L R.

Lemma merged_joined ks cs dl dr left_outer right_outer L R :
  join_input ks cs dl dr L R -> merged cs dl dr left_outer right_outer L R ≡ₚ joined cs dl dr left_outer right_outer L R.
Proof.
  intros [_ _ _ _ _ _ HL HR HsL HsR]. pose proof (cells_order ks).
  apply (merge_join_sql _ _ (Forall2 typed_cell ks) cells_compare); split; try done.
  - eapply Forall_impl; [exact HL |]. by intros x [].
  - eapply Forall_impl; [exact HR |]. by intros x [].
Qed.

(** ** Examples *)

Definition int_cs : list (Desc * Desc) := [(mkDesc 1 16, mkDesc 1 17)].

Lemma int_rows_keyed c ns :
  valid_column_id c -> c <> 0 -> Forall int64_range ns -> StronglySorted Z.le ns ->
  Forall (keyed_row int_column (int_desc c) [mkDesc 1 c]) (map (int_row c) ns) /\
  StronglySorted (fun x x' => cells_compare (row_key [mkDesc 1 c] x) (row_key [mkDesc 1 c] x') <= 0) (map (int_row c) ns).
Proof.
  intros Hid Hc Hl Hs. induction Hs as [| n l Hs IH Hb]; [split; constructor |].
  apply Forall_cons in Hl as [Hn Hl]. destruct (IH Hl) as [H1 H2]. cbn [map].
  split; constructor; [by apply int_row_keyed | done | done |].
  apply Forall_fmap. eapply Forall_impl; [exact Hb |]. intros m Hle.
  change (cells_compare (row_key [mkDesc 1 c] (int_row c n)) (row_key [mkDesc 1 c] (int_row c m)) <= 0).
  rewrite !int_row_key by done. cbn. unfold cmp3. repeat case_match; lia.
Qed.

Lemma int_join_input ns ms :
  Forall int64_range ns -> Forall int64_range ms -> StronglySorted Z.le ns -> StronglySorted Z.le ms ->
  join_input int_column int_cs (int_desc 16) (int_desc 17) (map (int_row 16) ns) (map (int_row 17) ms).
Proof.
  intros Hns Hms Sns Sms. destruct (int_desc_spec 16) as [Hw1 Hc1], (int_desc_spec 17) as [Hw2 Hc2].
  destruct (int_rows_keyed 16 ns ltac:(vm_compute; intuition congruence) ltac:(done) Hns Sns) as [HL SL].
  destruct (int_rows_keyed 17 ms ltac:(vm_compute; intuition congruence) ltac:(done) Hms Sms) as [HR SR].
  split; [done | | | done | | | done | done | done | done].
  - by apply (int_key_columns 16).
  - by apply (int_key_columns 17).
  - rewrite Hc1, Hc2. apply (bool_decide_eq_true_1 _). by vm_compute.
  - rewrite !int_desc_num. by vm_compute.
Qed.

Lemma example_input : join_input int_column int_cs (int_desc 16) (int_desc 17) (map (int_row 16) [1; 2; 2; 4]) (map (int_row 17) [2; 2; 3]).
Proof.
  apply int_join_input; repeat constructor; try (vm_compute; congruence).
Qed.

Abbreviation int n := (set_int ObObj_new n false).

(** C6: The merge join.  Over two children sorted on key columns that are typed
    and not null, with no column in common, the operator opens, has the columns
    of both children, and gives, for each of the four join types it implements,
    the rows of the join of the relational algebra that satisfy the other
    conditions, each as often as the join has it, and then [OB_ITER_END].  They
    come in the order of the merge: left row by left row, each with its partners
    in the order of the right child, and a right row without partner before the
    first left row above it. *)
Theorem merge_join_correct {C} `{!ObPhyOperator C} obj_cast (malloc : Z -> bool) (d0 : ObRowDesc) (l r : C)
    (t : JoinType) (left_outer right_outer : bool) ks cs others dl dr L R (q : list ObObj -> bool)
    (Hm : forall size, malloc size = true) (Hd0 : rowdesc_wf d0)
    (Hsides : join_sides t = Some (left_outer, right_outer)) (Hin : join_input ks cs dl dr L R)
    (Hq : conditions_decide others (joined_desc d0 dl dr) q)
    (Hl : left_gives right_outer l dl L) (Hr : gives r dr R OB_ITER_END) :
  columns (joined_desc d0 dl dr) = columns dl ++ columns dr /\
  merged cs dl dr left_outer right_outer L R ≡ₚ joined cs dl dr left_outer right_outer L R /\
  exists out,
    gives (ObPhyOperator0 := join_operator obj_cast malloc true) (join_over d0 l r t (map Some cs) others)
      (joined_desc d0 dl dr) out OB_ITER_END /\
    rows_are out (filter (fun c => q c = true) (merged cs dl dr left_outer right_outer L R)).
Proof.
  conjs.
  - destruct Hin as [_ _ _ [Hwl Hwr] Hnd Hmax _ _ _ _].
    destruct (join_desc_spec d0 dl dr Hd0 Hwl Hwr Hnd Hmax) as (d & Ed & _ & Hcd & _). unfold joined_desc. by rewrite Ed.
  - by apply (merged_joined ks).
  - by apply (join_gives obj_cast malloc Hm t left_outer right_outer Hsides ks cs dl dr d0 L R).
Qed.

Lemma merge_join_correct_witness :
  exists out,
    gives (ObPhyOperator0 := join_operator (fun _ _ _ => None) (fun _ => true) true)
      (join_over (rowdesc_of []) (int_scan 16 [1; 2; 2; 4]) (int_scan 17 [2; 2; 3]) FULL_OUTER_JOIN (map Some int_cs) [])
      (joined_desc (rowdesc_of []) (int_desc 16) (int_desc 17)) out OB_ITER_END /\
    rows_are out [[int 1; null_cell]; [int 2; int 2]; [int 2; int 2]; [int 2; int 2]; [int 2; int 2]; [null_cell; int 3];
                  [int 4; null_cell]].
Proof.
  destruct (merge_join_correct (fun _ _ _ => None) (fun _ => true) (rowdesc_of []) (int_scan 16 [1; 2; 2; 4])
    (int_scan 17 [2; 2; 3]) FULL_OUTER_JOIN true true int_column int_cs [] (int_desc 16) (int_desc 17)
    (map (int_row 16) [1; 2; 2; 4]) (map (int_row 17) [2; 2; 3]) (fun _ => true)) as (_ & _ & out & H1 & H2).
  - done.
  - apply rowdesc_of_spec; [constructor | vm_compute; congruence].
  - done.
  - apply example_input.
  - done.
  - apply int_scan_gives_on.
  - apply int_scan_gives.
  - exists out. split; [done |].
    assert (E : filter (fun _ : list ObObj => true = true) (merged int_cs (int_desc 16) (int_desc 17) true true
      (map (int_row 16) [1; 2; 2; 4]) (map (int_row 17) [2; 2; 3])) =
      [[int 1; null_cell]; [int 2; int 2]; [int 2; int 2]; [int 2; int 2]; [int 2; int 2]; [null_cell; int 3];
                  [int 4; null_cell]]) by (vm_compute; reflexivity).
    by rewrite E in H2.
Defined.
