(* ===== verification/MergeJoinReopen.v ===== *)
(** * Merge join: opened again

    [close] leaves the rows in the cache of right rows.  A join that ran to its
    end, closed and opened again meets the old rows there and gives rows again. *)

From S2P Require Import Prelude ObObject ObExprObj ObRowDesc ObRow ObBuffer ObCompactCell ObRowUtil ObRowStore.
From S2P Require Import PhyOperator RowKey SetOperator MergeJoin MergeJoinRun MergeJoinRows.
Local Open Scope Z_scope.

(** Calls until one does not succeed: the cells of the rows, the code, the state. *)
Fixpoint drain {St} `{!ObPhyOperator St} (n fuel : nat) (s : St) : option (list (list ObObj) * Z * St) :=
  match n with
  | O => None
  | S n' =>
      '(ret, row, s) ← op_get_next_row fuel s ;
      if ret =? OB_SUCCESS then
        row ← row ; '(rows, ret, s) ← drain n' fuel s ; Some (row_cells row :: rows, ret, s)
      else Some ([], ret, s)
  end.

(** The saved row does not depend on the buffer. *)
Lemma clone_cells_out k row out i w1 w2 w1' w2' out1 out2 :
  clone_cells k row out i w1 = Some (OB_SUCCESS, w1', out1) ->
  clone_cells k row out i w2 = Some (OB_SUCCESS, w2', out2) -> out1 = out2.
Proof.
  revert out i w1 w2. induction k as [| k IH]; intros out i w1 w2; cbn [clone_cells]; [congruence |].
  destruct (raw_get_cell_ids row i) as [ret [[cell ids] |]]; [| congruence].
  destruct (raw_get_cell_ids out i) as [ret' [[cell' [tid cid]] |]]; [| congruence].
  destruct (append SPARSE cid cell w1) as [[r1 v1] |]; [| done].
  destruct (append SPARSE cid cell w2) as [[r2 v2] |]; [| done]. rewrite !bind_some.
  destruct (Z.eqb_spec r1 OB_SUCCESS), (Z.eqb_spec r2 OB_SUCCESS); try congruence. apply IH.
Qed.

Lemma convert_to_row_out row out b1 b2 s1 s2 out1 out2 :
  convert_to_row row out (Some b1) s1 = Some (OB_SUCCESS, out1) ->
  convert_to_row row out (Some b2) s2 = Some (OB_SUCCESS, out2) -> out1 = out2.
Proof.
  unfold convert_to_row. cbn [writer_assign].
  destruct (clone_cells _ _ _ _ (mkWriter (Some b1) 0 s1)) as [[[r1 w1] o1] |] eqn:E1; [| done].
  destruct (clone_cells _ _ _ _ (mkWriter (Some b2) 0 s2)) as [[[r2 w2] o2] |] eqn:E2; [| done].
  rewrite !bind_some. destruct (Z.eqb_spec r1 OB_SUCCESS) as [-> | ]; [| congruence].
  destruct (Z.eqb_spec r2 OB_SUCCESS) as [-> | ]; [| congruence].
  rewrite (clone_cells_out _ _ _ _ _ _ _ _ _ _ E1 E2).
  destruct (row_finish w1) as [[? ?] |], (row_finish w2) as [[? ?] |]; cbn; congruence.
Qed.

(** ** The example: [2, 2] joined with [2] *)

Abbreviation cast := (fun (_ _ : ObObjType) (_ : ObExprObj) => @None (Z * ObExprObj)).
Abbreviation alloc := (fun _ : Z => true).

#[local] Instance example_operator : ObPhyOperator (ObMergeJoin ListScan) := join_operator cast alloc true.

Definition example_join : ObMergeJoin ListScan :=
  join_over (rowdesc_of []) (int_scan 16 [2; 2]) (int_scan 17 [2]) INNER_JOIN (map Some int_cs) [].

(** The left row 2, saved through a small buffer. *)
Definition example_saved : ObRow :=
  match convert_to_row (int_row 16 2) ObRow_new (Some (replicate 64 0)) 64 with
  | Some (_, row) => row
  | None => ObRow_new
  end.

Lemma example_save :
  convert_to_row (int_row 16 2) ObRow_new (left_row_store true) MAX_SINGLE_ROW_SIZE = Some (OB_SUCCESS, example_saved).
Proof.
  assert (Hx : keyed_row int_column (int_desc 16) [mkDesc 1 16] (int_row 16 2)).
  { apply int_row_keyed; [vm_compute; intuition congruence | done | split; vm_compute; congruence]. }
  destruct (save_keyed int_column int_cs (int_desc 16)) with (x := int_row 16 2) (last := ObRow_new) as (last & E & _).
  - apply (ji_left_columns _ _ _ _ _ _ (int_join_input [] [] ltac:(constructor) ltac:(constructor) ltac:(constructor) ltac:(constructor))).
  - done.
  - apply row_new_wf.
  - assert (E' : convert_to_row (int_row 16 2) ObRow_new (Some (replicate 64 0)) 64 = Some (OB_SUCCESS, example_saved))
      by (vm_compute; reflexivity).
    unfold left_row_store in *. rewrite E. by rewrite (convert_to_row_out _ _ _ _ _ _ _ _ E E').
Qed.

(** After opening, and after the first row. *)
Definition example_opened : ObMergeJoin ListScan :=
  match join_open true 9 example_join with Some (_, j) => j | None => example_join end.

Definition example_left : ObMergeJoin ListScan :=
  match join_next_left 9 None example_opened with Some (_, _, j) => j | None => example_opened end.

Definition example_fetched : ObMergeJoin ListScan :=
  match join_next_right 9 None example_left with Some (_, _, j) => j | None => example_left end.

Definition example_first : ObMergeJoin ListScan :=
  let j := with_last_join example_fetched example_saved in
  match store_add_row alloc None (int_row 17 2) (right_cache_ j) with
  | Some (_, _, cache) =>
      with_last_rows (join_rows (int_row 16 2) (int_row 17 2) (with_cache j cache (curr_cached_right_row_ j) false)).2
        (Some (int_row 16 2)) None
  | None => j
  end.

Lemma join_loop_S {C} `{!ObPhyOperator C} k m x right (j : ObMergeJoin C) :
  join_loop cast alloc false false (S k) m x right j =
    if right_cache_is_valid_ j then cached_round cast m (join_loop cast alloc false false k m) x right j
    else merge_round cast alloc false false m (join_loop cast alloc false false k m) x right j.
Proof. done. Qed.

(** The first row: the left row is saved, the right row kept. *)
Lemma example_first_call :
  join_get_next_row cast alloc 9 example_opened = Some (OB_SUCCESS, Some (curr_row_ example_first), example_first).
Proof.
  change (join_get_next_row cast alloc 9 example_opened) with (outer_get_next_row cast alloc false false 9 example_opened).
  assert (E1 : join_next_left 9 None example_opened = Some (OB_SUCCESS, Some (int_row 16 2), example_left))
    by (vm_compute; reflexivity).
  assert (E2 : join_next_right 9 None example_left = Some (OB_SUCCESS, Some (int_row 17 2), example_fetched))
    by (vm_compute; reflexivity).
  assert (E3 : last_left_row_ example_opened = None /\ right_cache_is_valid_ example_left = false /\
            is_right_iter_end_ example_left = false /\ last_right_row_ example_left = None)
    by (conjs; vm_compute; reflexivity). destruct E3 as (N1 & N2 & N3 & N4).
  assert (E4 : compare_equijoin_cond cast (equal_join_conds_ example_fetched) (int_row 16 2) (int_row 17 2) = Some (OB_SUCCESS, 0))
    by (vm_compute; reflexivity).
  assert (E5 : is_empty (right_cache_ example_fetched) = Some true /\ last_join_left_row_ example_fetched = ObRow_new /\
            last_join_left_row_store_ example_fetched = true) by (conjs; vm_compute; reflexivity). destruct E5 as (N5 & N6 & N7).
  assert (E6 : save_join_left (int_row 16 2) example_fetched = Some (OB_SUCCESS, with_last_join example_fetched example_saved)).
  { unfold save_join_left. by rewrite N6, N7, example_save, bind_some. }
  unfold outer_get_next_row. rewrite N1, E1, bind_some. change (OB_SUCCESS =? OB_SUCCESS) with true. cbn iota.
  rewrite bind_some, (join_loop_S 8), N2. unfold merge_round. rewrite N3, N4, E2, bind_some.
  change (OB_SUCCESS =? OB_SUCCESS) with true. cbn iota. unfold compare_round. rewrite bind_some, E4, bind_some.
  change (negb (OB_SUCCESS =? OB_SUCCESS)) with false. change (0 =? 0) with true. cbn iota.
  unfold equal_round. rewrite N5, bind_some, E6, bind_some. vm_compute. reflexivity.
Qed.

(** A join that is run to its end, closed and opened again repeats rows.  The
    right rows kept for the last left row are still in the cache, and an equal
    left row is joined with them as well: [2, 2] joined with [2] gives two rows
    at first and three after reopening.  The interface says that an operator
    closed successfully can be opened and used again. *)
Theorem reopened_join_repeats_rows :
  exists j1 j2 j3 j4 j5,
    op_open 9 example_join = Some (OB_SUCCESS, j1) /\
    drain 9 9 j1 = Some ([[int 2; int 2]; [int 2; int 2]], OB_ITER_END, j2) /\
    op_close j2 = Some (OB_SUCCESS, j3) /\ op_open 9 j3 = Some (OB_SUCCESS, j4) /\
    drain 9 9 j4 = Some ([[int 2; int 2]; [int 2; int 2]; [int 2; int 2]], OB_ITER_END, j5).
Proof.
  set (j2 := match drain 8 9 example_first with Some (_, _, j) => j | None => example_first end).
  set (j3 := match join_close j2 with Some (_, j) => j | None => j2 end).
  set (j4 := match join_open true 9 j3 with Some (_, j) => j | None => j3 end).
  set (j5 := match drain 9 9 j4 with Some (_, _, j) => j | None => j4 end).
  exists example_opened, j2, j3, j4, j5. conjs.
  - vm_compute. reflexivity.
  - change (drain 9 9 example_opened) with
      ('(ret, row, s) ← join_get_next_row cast alloc 9 example_opened ;
       if ret =? OB_SUCCESS then
         row ← row ; '(rows, ret, s) ← drain 8 9 s ; Some (row_cells row :: rows, ret, s)
       else Some ([], ret, s)).
    rewrite example_first_call, bind_some. vm_compute. reflexivity.
  - vm_compute. reflexivity.
  - vm_compute. reflexivity.
  - vm_compute. reflexivity.
Qed.
