(* ===== verification/MergeUnion.v ===== *)
(** * UNION: [sql/ob_merge_union.{h,cpp}]

    [ObMergeUnion] over two children.  UNION ALL gives the rows of the left child
    and then those of the right child; UNION DISTINCT merges two sorted children
    and gives each row once.  Rows of the right child get the description of the
    left child for as long as the caller holds them. *)

From S2P Require Import Prelude ObObject ObExprObj ObRowDesc ObRow ObCompactCell PhyOperator SetOperator.
From Stdlib Require Import Sorted.
Local Open Scope Z_scope.

(** [get_next_row_func_] is the choice [set_distinct] made.  [last_output_row_]
    can only point to the row object of the right child, so a flag says whether
    it does; [last_row_buf_] is whether the buffer is allocated. *)
Record ObMergeUnion (C : Type) := mkUnion {
  base_ : ObSetOperator C;
  get_next_row_func_ : option bool;
  cur_first_query_row_ : option ObRow;
  cur_second_query_row_ : option ObRow;
  last_row_buf_ : bool;
  left_ret_ : Z;
  right_ret_ : Z;
  last_cmp_ : Z;
  got_first_row_ : bool;
  last_output_row_ : bool;
  right_row_desc_ : option ObRowDesc;
  last_row_ : ObRow
}.
Arguments mkUnion {C}.
Arguments base_ {C}.
Arguments get_next_row_func_ {C}.
Arguments cur_first_query_row_ {C}.
Arguments cur_second_query_row_ {C}.
Arguments last_row_buf_ {C}.
Arguments left_ret_ {C}.
Arguments right_ret_ {C}.
Arguments last_cmp_ {C}.
Arguments got_first_row_ {C}.
Arguments last_output_row_ {C}.
Arguments right_row_desc_ {C}.
Arguments last_row_ {C}.

Section Operations.
Context {C : Type} `{!ObPhyOperator C}.
Context (obj_cast : ObObjType -> ObObjType -> ObExprObj -> option (Z * ObExprObj)).
(** Whether [ob_malloc] finds memory for the row buffer. *)
Context (malloc_ok : bool).
Implicit Types u : ObMergeUnion C.

Definition ObMergeUnion_new : ObMergeUnion C :=
  mkUnion ObSetOperator_new None None None false OB_SUCCESS OB_SUCCESS (-1) false false None ObRow_new.

Definition union_reset u : ObMergeUnion C :=
  mkUnion (set_reset (base_ u)) None None None false OB_SUCCESS OB_SUCCESS (-1) false false None (last_row_ u).

Definition union_reuse u : ObMergeUnion C :=
  mkUnion (set_reuse (base_ u)) None None None false OB_SUCCESS OB_SUCCESS (-1) false false None (last_row_ u).

Definition with_base u (b : ObSetOperator C) : ObMergeUnion C :=
  mkUnion b (get_next_row_func_ u) (cur_first_query_row_ u) (cur_second_query_row_ u) (last_row_buf_ u)
    (left_ret_ u) (right_ret_ u) (last_cmp_ u) (got_first_row_ u) (last_output_row_ u) (right_row_desc_ u) (last_row_ u).

Definition union_set_child u (child_idx : Z) (child : C) : Z * ObMergeUnion C :=
  let '(ret, b) := set_child (base_ u) child_idx child in (ret, with_base u b).

Definition union_set_distinct u (is_distinct : bool) : ObMergeUnion C :=
  let b := base_set_distinct (base_ u) is_distinct in
  mkUnion b (Some is_distinct) (cur_first_query_row_ u) (cur_second_query_row_ u) (last_row_buf_ u)
    (left_ret_ u) (right_ret_ u) (last_cmp_ u) (got_first_row_ u) (last_output_row_ u) (right_row_desc_ u) (last_row_ u).

(** The left child answered [ret] and [row]. *)
Definition left_called u (ret : Z) (row : option ObRow) (l : C) : ObMergeUnion C :=
  mkUnion (with_left (base_ u) l) (get_next_row_func_ u) row (cur_second_query_row_ u) (last_row_buf_ u)
    ret (right_ret_ u) (last_cmp_ u) (got_first_row_ u) (last_output_row_ u) (right_row_desc_ u) (last_row_ u).

(** The right child answered [ret] and [row]. *)
Definition right_called u (ret : Z) (row : option ObRow) (r : C) : ObMergeUnion C :=
  mkUnion (with_right (base_ u) r) (get_next_row_func_ u) (cur_first_query_row_ u) row (last_row_buf_ u)
    (left_ret_ u) ret (last_cmp_ u) (got_first_row_ u) (last_output_row_ u) (right_row_desc_ u) (last_row_ u).

Definition with_cmp u (cmp : Z) : ObMergeUnion C :=
  mkUnion (base_ u) (get_next_row_func_ u) (cur_first_query_row_ u) (cur_second_query_row_ u) (last_row_buf_ u)
    (left_ret_ u) (right_ret_ u) cmp (got_first_row_ u) (last_output_row_ u) (right_row_desc_ u) (last_row_ u).

(** [set_row_desc] on the row object of the right child, to which
    [cur_second_query_row_] points. *)
Definition describe_right u (d : ObRowDesc) (flag : bool) : option (ObMergeUnion C) :=
  r ← right_op_ (base_ u) ;
  Some (mkUnion (with_right (base_ u) (op_row_set_desc r d)) (get_next_row_func_ u) (cur_first_query_row_ u)
    (option_map (fun row => set_row_desc row d) (cur_second_query_row_ u)) (last_row_buf_ u)
    (left_ret_ u) (right_ret_ u) (last_cmp_ u) (got_first_row_ u) flag (right_row_desc_ u) (last_row_ u)).

(** The first lines of both [get_next_row] functions. *)
Definition restore_desc u : option (ObMergeUnion C) :=
  if last_output_row_ u then d ← right_row_desc_ u ; describe_right u d false else Some u.

Definition union_open (fuel : nat) u : option (Z * ObMergeUnion C) :=
  '(ret, b) ← double_open fuel (base_ u) ;
  let u := with_base u b in
  if ret =? OB_SUCCESS then
    '(ret, descs) ← cons_row_desc b ;
    match descs with
    | None => Some (ret, u)
    | Some (left_row_desc, right_row_desc) =>
        let u := mkUnion (with_desc b left_row_desc) (get_next_row_func_ u) (cur_first_query_row_ u)
          (cur_second_query_row_ u) (last_row_buf_ u) (left_ret_ u) (right_ret_ u) (last_cmp_ u) false
          (last_output_row_ u) right_row_desc (last_row_ u) in
        if distinct_ b then
          let u := mkUnion (base_ u) (get_next_row_func_ u) (cur_first_query_row_ u) (cur_second_query_row_ u)
            malloc_ok (left_ret_ u) (right_ret_ u) (last_cmp_ u) (got_first_row_ u) (last_output_row_ u)
            (right_row_desc_ u) (last_row_ u) in
          if malloc_ok then
            l ← left_op_ (base_ u) ;
            '(lret, row, l) ← child_next fuel l (cur_first_query_row_ u) ;
            let u := left_called u lret row l in
            r ← right_op_ (base_ u) ;
            '(rret, row, r) ← child_next fuel r (cur_second_query_row_ u) ;
            Some (OB_SUCCESS, right_called u rret row r)
          else Some (OB_ALLOCATE_MEMORY_FAILED, u)
        else Some (OB_SUCCESS, u)
    end
  else Some (ret, u).

Definition union_close u : option (Z * ObMergeUnion C) :=
  '(ret, b) ← double_close (base_ u) ;
  Some (ret, mkUnion b (get_next_row_func_ u) (cur_first_query_row_ u) (cur_second_query_row_ u) false
    (left_ret_ u) (right_ret_ u) (last_cmp_ u) false (last_output_row_ u) (right_row_desc_ u) (last_row_ u)).

(** The call on the right child in [all_get_next_row]. *)
Definition all_from_right (fuel : nat) u (row : option ObRow) : option (Z * option ObRow * ObMergeUnion C) :=
  r ← right_op_ (base_ u) ;
  '(ret, row, r) ← child_next fuel r row ;
  let u := right_called u ret (cur_second_query_row_ u) r in
  if ret =? OB_SUCCESS then
    d ← out_desc_ (base_ u) ;
    x ← row ;
    u ← describe_right u d true ;
    Some (OB_SUCCESS, Some (set_row_desc x d), u)
  else Some (ret, row, u).

Definition all_get_next_row (fuel : nat) u : option (Z * option ObRow * ObMergeUnion C) :=
  u ← restore_desc u ;
  if left_ret_ u =? OB_SUCCESS then
    l ← left_op_ (base_ u) ;
    '(ret, row, l) ← child_next fuel l None ;
    let u := left_called u ret (cur_first_query_row_ u) l in
    if ret =? OB_SUCCESS then Some (OB_SUCCESS, row, u)
    else if ret =? OB_ITER_END then all_from_right fuel u row
    else Some (ret, row, u)
  else if left_ret_ u =? OB_ITER_END then
    if right_ret_ u =? OB_SUCCESS then all_from_right fuel u None
    else Some (right_ret_ u, None, u)
  else Some (left_ret_ u, None, u).

(** [left_ret_ = do_distinct(left_op_, cur_first_query_row_)] *)
Definition advance_left (fuel : nat) u : option (ObMergeUnion C) :=
  l ← left_op_ (base_ u) ;
  '(ret, row, l) ← do_distinct obj_cast fuel l (last_row_ u) (cur_first_query_row_ u) ;
  Some (left_called u ret row l).

(** [right_ret_ = do_distinct(right_op_, cur_second_query_row_)] *)
Definition advance_right (fuel : nat) u : option (ObMergeUnion C) :=
  r ← right_op_ (base_ u) ;
  '(ret, row, r) ← do_distinct obj_cast fuel r (last_row_ u) (cur_second_query_row_ u) ;
  Some (right_called u ret row r).

(** The rows of the last output are skipped.  The code [ret] that the source
    sets here is overwritten on every branch that follows. *)
Definition advance (fuel : nat) u : option (ObMergeUnion C) :=
  if got_first_row_ u then
    if last_cmp_ u <? 0 then advance_left fuel u
    else if last_cmp_ u =? 0 then u ← advance_left fuel u ; advance_right fuel u
    else advance_right fuel u
  else Some u.

(** [convert(row, compact_row, last_row_)] after [got_first_row_ = true]. *)
Definition save_output u (row : ObRow) : option (Z * option ObRow * ObMergeUnion C) :=
  '(ret, last) ← save_row row (last_row_ u) (row_buf (last_row_buf_ u)) ;
  Some (ret, Some row,
    mkUnion (base_ u) (get_next_row_func_ u) (cur_first_query_row_ u) (cur_second_query_row_ u) (last_row_buf_ u)
      (left_ret_ u) (right_ret_ u) (last_cmp_ u) true (last_output_row_ u) (right_row_desc_ u) last).

Definition output_first u : option (Z * option ObRow * ObMergeUnion C) :=
  row ← cur_first_query_row_ u ; save_output u row.

Definition output_second u : option (Z * option ObRow * ObMergeUnion C) :=
  d ← out_desc_ (base_ u) ;
  u ← describe_right u d true ;
  row ← cur_second_query_row_ u ;
  save_output u row.

Definition emit u : option (Z * option ObRow * ObMergeUnion C) :=
  if (left_ret_ u =? OB_SUCCESS) && (right_ret_ u =? OB_SUCCESS) then
    row1 ← cur_first_query_row_ u ;
    row2 ← cur_second_query_row_ u ;
    '(ret, cmp) ← row_compare obj_cast row1 row2 ;
    let u := with_cmp u cmp in
    if ret =? OB_SUCCESS then
      if cmp <? 0 then output_first u
      else if cmp =? 0 then output_first u
      else output_second u
    else Some (ret, None, u)
  else if (left_ret_ u =? OB_ITER_END) && (right_ret_ u =? OB_SUCCESS) then
    '(ret, row, u) ← output_second u ; Some (ret, row, with_cmp u 1)
  else if (left_ret_ u =? OB_SUCCESS) && (right_ret_ u =? OB_ITER_END) then
    '(ret, row, u) ← output_first u ; Some (ret, row, with_cmp u (-1))
  else if (left_ret_ u =? OB_ITER_END) && (right_ret_ u =? OB_ITER_END) then
    Some (OB_ITER_END, None, with_cmp u (-1))
  else
    let ret := if negb (left_ret_ u =? OB_SUCCESS) && negb (left_ret_ u =? OB_ITER_END)
               then left_ret_ u else right_ret_ u in
    Some (ret, None, u).

Definition distinct_get_next_row (fuel : nat) u : option (Z * option ObRow * ObMergeUnion C) :=
  u ← restore_desc u ;
  u ← advance fuel u ;
  emit u.

(** [OB_ASSERT(get_next_row_func_)] *)
Definition union_get_next_row (fuel : nat) u : option (Z * option ObRow * ObMergeUnion C) :=
  is_distinct ← get_next_row_func_ u ;
  if (is_distinct : bool) then distinct_get_next_row fuel u else all_get_next_row fuel u.

Definition union_get_row_desc u : Z * option ObRowDesc := set_get_row_desc (base_ u).

(** The row handed out last is an object of the right child when
    [last_output_row_] points to it, and of the left child otherwise. *)
Definition union_row_set_desc u (d : ObRowDesc) : ObMergeUnion C :=
  if last_output_row_ u then default u (describe_right u d true)
  else
    match left_op_ (base_ u) with
    | None => u
    | Some l => left_called u (left_ret_ u) (option_map (fun row => set_row_desc row d) (cur_first_query_row_ u))
                  (op_row_set_desc l d)
    end.
End Operations.

#[export] Instance union_operator {C} `{!ObPhyOperator C} obj_cast malloc_ok : ObPhyOperator (ObMergeUnion C) := {
  op_open := union_open malloc_ok;
  op_close := union_close;
  op_get_next_row := union_get_next_row obj_cast;
  op_get_row_desc := union_get_row_desc;
  op_row_set_desc := union_row_set_desc
}.

(** ** UNION DISTINCT *)

Section Distinct.
Context {C : Type} `{!ObPhyOperator C}.
Context (obj_cast : ObObjType -> ObObjType -> ObExprObj -> option (Z * ObExprObj)).
Context (D : ObRow -> Prop) (descs : ObRowDesc -> Prop) (cmp : ObRow -> ObRow -> Z) `{!RowOrder obj_cast D descs cmp}.
Context (dl dr : ObRowDesc) (Hdl : descs dl).
(** [set_row_desc] resizes the rowkey of a row only for a description with rowkey columns. *)
Context (Hrestore : 0 < rowkey_cell_count_ dl -> 0 < rowkey_cell_count_ dr).
Implicit Types (u : ObMergeUnion C) (L R : list ObRow).

Let merge := union_operator (C := C) obj_cast true.

Lemma restore_described row : set_row_desc row dr = row -> set_row_desc (set_row_desc row dl) dr = row.
Proof.
  intros <-. unfold set_row_desc; cbn. f_equal.
  destruct (Z.ltb_spec 0 (rowkey_cell_count_ dl)), (Z.ltb_spec 0 (rowkey_cell_count_ dr)); auto. lia.
Qed.

(** The left rows, and the right rows that have no equal left row, once each. *)
Record union_spec L R (out : list ObRow) : Prop := {
  us_sorted : strictly_sorted cmp out;
  us_sound : forall y, y ∈ out ->
    y ∈ L \/ exists r, r ∈ R /\ y = set_row_desc r dl /\ forall x, x ∈ L -> cmp x r <> 0;
  us_complete : forall x, x ∈ L \/ x ∈ R -> exists y, y ∈ out /\ cmp x y = 0
}.

Lemma union_spec_nil : union_spec [] [] [].
Proof. split; [constructor | by intros ? ?%elem_of_nil |]. intros x [H | H]; by apply elem_of_nil in H. Qed.

Lemma union_spec_above L R out y y1 :
  D y -> Forall D L -> Forall D R ->
  Forall (fun x => cmp y x < 0) L -> Forall (fun x => cmp y x < 0) R -> union_spec L R out ->
  y1 ∈ out -> D y1 /\ cmp y y1 < 0.
Proof.
  intros Hy HL HR BL BR H H1. rewrite Forall_forall in *. destruct (us_sound _ _ _ H y1 H1) as [Hx | (r & Hr & -> & _)].
  - auto.
  - destruct (ro_desc r dl (HR r Hr) Hdl) as [HD E]. split; [done |].
    apply (cmp_lt_trans D cmp y r); auto. rewrite (cmp_zero_sym D cmp) in E by auto. lia.
Qed.

Lemma union_spec_step L R out y :
  D y -> Forall D L -> Forall D R -> sorted cmp L -> sorted cmp R ->
  Forall (fun x => cmp y x <= 0) L -> Forall (fun x => cmp y x <= 0) R ->
  (y ∈ L \/ exists r, r ∈ R /\ y = set_row_desc r dl /\ forall x, x ∈ L -> cmp x r <> 0) ->
  union_spec (skip cmp y L) (skip cmp y R) out -> union_spec L R (y :: out).
Proof.
  intros Hy HL HR SL SR BL BR Hin H.
  assert (Hab : forall y1, y1 ∈ out -> D y1 /\ cmp y y1 < 0).
  { intros y1. apply (union_spec_above (skip cmp y L) (skip cmp y R)); auto using skip_Forall;
      by apply (skip_above D cmp). }
  split.
  - constructor; [apply H |]. apply Forall_forall. intros z Hz. by apply Hab.
  - intros y1 [-> | H1]%elem_of_cons; [done |].
    destruct (us_sound _ _ _ H y1 H1) as [Hx | (r & Hr & E & Hne)].
    + left. by eapply skip_subset.
    + right. exists r. apply skip_subset in Hr as HrR. conjs; [done | done |]. intros x Hx Heq.
      destruct (skip_elem cmp x y L Hx) as [Exy | Hx']; [| by apply (Hne x)].
      rewrite Forall_forall in HL, HR. specialize (HL x Hx). specialize (HR r HrR).
      destruct (ro_desc r dl HR Hdl) as [HD' E']. rewrite <- E in HD', E'.
      destruct (Hab y1 H1) as [_ Hlt].
      pose proof (cmp_eq_l D cmp x y y1 HL Hy HD' Exy). pose proof (cmp_eq_r D cmp y1 r x HD' HR HL E'). lia.
  - intros x Hx.
    assert (Hx' : cmp x y = 0 \/ x ∈ skip cmp y L \/ x ∈ skip cmp y R).
    { destruct Hx as [Hx | Hx]; destruct (skip_elem cmp x y _ Hx); auto. }
    destruct Hx' as [E | Hx']; [exists y; split; [by left | done] |].
    destruct (us_complete _ _ _ H x Hx') as (z & Hz & E). exists z. split; [by right | done].
Qed.

(** *** The operator between two calls *)

(** The rows from the current ones on are [L] and [R]. *)
Record stands u L R : Prop := {
  st_func : get_next_row_func_ u = Some true;
  st_desc : out_desc_ (base_ u) = Some dl;
  st_right_desc : right_row_desc_ u = Some dr;
  st_buf : last_row_buf_ u = true;
  st_last : row_wf (last_row_ u);
  st_output : last_output_row_ u = false;
  st_left : exists l, left_op_ (base_ u) = Some l /\ current (left_ret_ u) (cur_first_query_row_ u) l L;
  st_right : exists r, right_op_ (base_ u) = Some r /\ current (right_ret_ u) (cur_second_query_row_ u) r R
}.

(** The next call first moves to [L] and [R]. *)
Definition ready u L R : Prop :=
  get_next_row_func_ u = Some true /\
  exists u', settles (fun m => u1 ← restore_desc u ; advance obj_cast m u1) u' /\ stands u' L R.

(** [u] after the output of a row, saved as [last]. *)
Definition saved u (c : Z) (last : ObRow) : ObMergeUnion C :=
  mkUnion (base_ u) (get_next_row_func_ u) (cur_first_query_row_ u) (cur_second_query_row_ u) (last_row_buf_ u)
    (left_ret_ u) (right_ret_ u) c true (last_output_row_ u) (right_row_desc_ u) last.

Lemma advance_left_stands u x L R :
  stands u (x :: L) R -> D (last_row_ u) -> Forall D L ->
  exists u', settles (fun m => advance_left obj_cast m u) u' /\
    stands u' (skip cmp (last_row_ u) L) R /\ last_row_ u' = last_row_ u.
Proof.
  intros [H1 H2 H3 H4 H5 H6 (l & Hl & _ & _ & _ & Hr) H8] Hlast HL.
  destruct (do_distinct_current obj_cast D descs cmp l (last_row_ u) (cur_first_query_row_ u) L Hlast HL Hr)
    as (ret & row & l' & Hs & Hc).
  exists (left_called u ret row l'). conjs; [| | done].
  - unfold advance_left. rewrite Hl. cbn. eapply settles_bind; [exact Hs |]. apply settles_ret.
  - split; try done. by exists l'.
Qed.

Lemma advance_right_stands u y L R :
  stands u L (y :: R) -> D (last_row_ u) -> Forall D R ->
  exists u', settles (fun m => advance_right obj_cast m u) u' /\ stands u' L (skip cmp (last_row_ u) R).
Proof.
  intros [H1 H2 H3 H4 H5 H6 H7 (r & Hr & _ & _ & _ & Hrun)] Hlast HR.
  destruct (do_distinct_current obj_cast D descs cmp r (last_row_ u) (cur_second_query_row_ u) R Hlast HR Hrun)
    as (ret & row & r' & Hs & Hc).
  exists (right_called u ret row r'). split.
  - unfold advance_right. rewrite Hr. cbn. eapply settles_bind; [exact Hs |]. apply settles_ret.
  - split; try done. by exists r'.
Qed.

Lemma ready_first u x L R c last :
  stands u (x :: L) R -> c < 0 -> D last -> Forall D L -> ready (saved u c last) (skip cmp last L) R.
Proof.
  intros H Hc Hlast HL. split; [apply H |].
  destruct (advance_left_stands (saved u c last) x L R) as (u' & Hs & Hst & _); [| done | done |].
  { destruct H. split; try done. by apply (ro_wf last). }
  exists u'. split; [| done]. unfold restore_desc, advance. cbn. rewrite (st_output _ _ _ H). cbn.
  destruct (Z.ltb_spec c 0); [done | lia].
Qed.

Lemma ready_both u x y L R last :
  stands u (x :: L) (y :: R) -> D last -> Forall D L -> Forall D R ->
  ready (saved u 0 last) (skip cmp last L) (skip cmp last R).
Proof.
  intros H Hlast HL HR. split; [apply H |].
  destruct (advance_left_stands (saved u 0 last) x L (y :: R)) as (u1 & Hs1 & Hst1 & E1); [| done | done |].
  { destruct H. split; try done. by apply (ro_wf last). }
  destruct (advance_right_stands u1 y (skip cmp last L) R) as (u2 & Hs2 & Hst2); [done | by rewrite E1 | done |].
  rewrite E1 in Hst2. exists u2. split; [| done]. unfold restore_desc, advance. cbn. rewrite (st_output _ _ _ H). cbn.
  by eapply settles_bind.
Qed.

(** [u] after the description of the right child's row [y] was changed. *)
Lemma ready_second u y L R c last :
  stands u L (y :: R) -> set_row_desc y dr = y -> 0 < c -> D last -> Forall D R ->
  exists u1, describe_right u dl true = Some u1 /\ cur_second_query_row_ u1 = Some (set_row_desc y dl) /\
    last_row_ u1 = last_row_ u /\ last_row_buf_ u1 = true /\
    ready (saved u1 c last) L (skip cmp last R) /\ lends (ObPhyOperator0 := merge) (saved u1 c last) (set_row_desc y dl).
Proof.
  intros H Hy Hc Hlast HR. destruct (st_right _ _ _ H) as (r & Hr & Hret & Hrow & (put & -> & Hput) & Hrun).
  eexists. unfold describe_right. rewrite Hr. cbn. rewrite Hrow. conjs; [done | done | done | apply H | |].
  - split; [apply H |].
    destruct (advance_right_stands (saved u c last) y L R) as (u' & Hs & Hst); [| done | done |].
    { destruct H. split; try done. by apply (ro_wf last). }
    exists u'. split; [| done]. unfold restore_desc. cbn. rewrite (st_right_desc _ _ _ H). cbn.
    rewrite !Hput, restore_described by done. unfold advance; cbn.
    destruct (Z.ltb_spec c 0), (Z.eqb_spec c 0); try lia. cbn in Hs.
    eapply settles_eq; [| exact Hs]. intros m. unfold advance_right; cbn. rewrite Hr; cbn. rewrite Hrow.
    unfold right_called, with_right; cbn. by rewrite (st_output _ _ _ H), (st_right_desc _ _ _ H).
  - exists (fun row => saved (mkUnion (with_right (base_ u) (put row)) (get_next_row_func_ u) (cur_first_query_row_ u)
      (Some row) (last_row_buf_ u) (left_ret_ u) (right_ret_ u) (last_cmp_ u) (got_first_row_ u) true
      (right_row_desc_ u) (last_row_ u)) c last).
    split; [by rewrite Hput |]. intros row d. cbn. unfold saved, union_row_set_desc, with_right; cbn. by rewrite Hput.
Qed.

(** *** One call *)

(** What a call that gives the row [y] does. *)
Record yields u L R (y : ObRow) u' : Prop := {
  yi_lends : lends (ObPhyOperator0 := merge) u' y;
  yi_desc : set_row_desc y dl = y;
  yi_ready : ready u' (skip cmp y L) (skip cmp y R);
  yi_less : (length (skip cmp y L) + length (skip cmp y R) < length L + length R)%nat;
  yi_row : D y;
  yi_left : Forall (fun x => cmp y x <= 0) L;
  yi_right : Forall (fun x => cmp y x <= 0) R;
  yi_from : y ∈ L \/ exists r, r ∈ R /\ y = set_row_desc r dl /\ forall x, x ∈ L -> cmp x r <> 0
}.

Lemma output_first_saved u x L R :
  stands u (x :: L) R -> D x ->
  exists last, D last /\ cmp last x = 0 /\ forall c,
    output_first (with_cmp u c) = Some (OB_SUCCESS, Some x, saved u c last) /\
    lends (ObPhyOperator0 := merge) (saved u c last) x.
Proof.
  intros H Hx. destruct (ro_save x (last_row_ u) Hx (st_last _ _ _ H)) as (last & Hs & Hl & E).
  exists last. conjs; [done | done |]. intros c.
  destruct (st_left _ _ _ H) as (l & Hop & _ & Hrow & (put & -> & Hput) & _). split.
  - unfold output_first, save_output. cbn. rewrite Hrow. cbn. rewrite (st_buf _ _ _ H), Hs. cbn.
    unfold saved; cbn. by rewrite Hrow, (st_buf _ _ _ H).
  - exists (fun row => saved (left_called u (left_ret_ u) (Some row) (put row)) c last). split.
    + unfold saved, left_called, with_left; cbn. rewrite Hrow, <- Hop. by destruct u as [[]].
    + intros row d. cbn. unfold union_row_set_desc; cbn. rewrite (st_output _ _ _ H).
      unfold saved, left_called, with_left; cbn. by rewrite Hput.
Qed.

Lemma output_second_saved u y L R :
  stands u L (y :: R) -> set_row_desc y dr = y -> D y -> Forall D R ->
  exists last u1, D last /\ cmp last y = 0 /\ forall c,
    output_second (with_cmp u c) = Some (OB_SUCCESS, Some (set_row_desc y dl), saved u1 c last) /\
    (0 < c -> ready (saved u1 c last) L (skip cmp last R) /\
      lends (ObPhyOperator0 := merge) (saved u1 c last) (set_row_desc y dl)).
Proof.
  intros H Hd Hy HR. destruct (ro_desc y dl Hy Hdl) as [Hy' E'].
  destruct (ro_save (set_row_desc y dl) (last_row_ u) Hy' (st_last _ _ _ H)) as (last & Hs & Hl & E).
  assert (El : cmp last y = 0).
  { pose proof (cmp_eq_l D cmp last (set_row_desc y dl) y Hl Hy' Hy E). lia. }
  destruct (ready_second u y L R 1 last H Hd) as (u1 & Hd1 & Hc1 & Hl1 & Hb1 & _); [lia | done | done |].
  exists last, u1. conjs; [done | done |]. intros c. split.
  - unfold output_second, save_output. cbn [base_ with_cmp]. rewrite (st_desc _ _ _ H). cbn.
    unfold describe_right in *. cbn. destruct (right_op_ (base_ u)) as [r |]; [| done]. cbn in Hd1 |- *.
    injection Hd1 as <-. cbn in *. rewrite Hc1. cbn. by rewrite (st_buf _ _ _ H), Hs.
  - intros Hc. destruct (ready_second u y L R c last H Hd) as (u1' & Hd1' & _ & _ & _ & Hr); [done | done | done |].
    rewrite Hd1 in Hd1'. by injection Hd1' as <-.
Qed.

(** The left row goes out: [c] is negative, or 0 and the right row is equal. *)
Lemma yields_first u x L R c last :
  stands u (x :: L) R -> D x -> Forall D L -> Forall D R -> sorted cmp (x :: L) -> set_row_desc x dl = x ->
  D last -> cmp last x = 0 -> lends (ObPhyOperator0 := merge) (saved u c last) x ->
  (c < 0 /\ Forall (fun z => cmp x z < 0) R) \/
  (c = 0 /\ exists y R', R = y :: R' /\ cmp x y = 0 /\ Forall (fun z => cmp x z <= 0) R) ->
  yields u (x :: L) R x (saved u c last).
Proof.
  intros H Hx HL HR SL Hd Hlast E Hlend Hc.
  assert (Hbx : Forall (fun z => cmp x z <= 0) (x :: L)).
  { apply (sorted_below D cmp); auto. rewrite (cmp_self D cmp) by done. lia. }
  split; [done | done | | | done | done | |].
  2: { rewrite (skip_head D cmp) by done. pose proof (skip_length cmp x L). pose proof (skip_length cmp x R). cbn. lia. }
  - rewrite (skip_head D cmp) by done. rewrite <- (skip_equal D cmp last x L) by done.
    destruct Hc as [[Hc Hab] | (-> & y & R' & -> & Exy & _)].
    + rewrite (skip_none D cmp x R) by done. by apply (ready_first u x).
    + apply Forall_cons in HR as [Hy HR]. rewrite <- (skip_equal D cmp last x (y :: R')) by (auto using Forall_cons_2).
      cbn [skip]. pose proof (cmp_eq_l D cmp last x y Hlast Hx Hy E) as E1.
      pose proof (cmp_zero_sym D cmp last y Hlast Hy) as E2. rewrite (proj2 (Z.eqb_eq (cmp y last) 0)) by lia.
      by apply (ready_both u x y).
  - destruct Hc as [[_ Hab] | (_ & y & R' & _ & _ & Hab)]; [| done]. eapply Forall_impl; [exact Hab |]. cbn. lia.
  - left. by left.
Qed.

Lemma yields_second u y L R c last u1 :
  stands u L (y :: R) -> D y -> Forall D L -> Forall D R -> sorted cmp (y :: R) ->
  D last -> cmp last y = 0 -> Forall (fun z => cmp y z < 0) L ->
  ready (saved u1 c last) L (skip cmp last R) ->
  lends (ObPhyOperator0 := merge) (saved u1 c last) (set_row_desc y dl) ->
  yields u L (y :: R) (set_row_desc y dl) (saved u1 c last).
Proof.
  intros H Hy HL HR SR Hlast E HbL Hr Hlend. destruct (ro_desc y dl Hy Hdl) as [Hy' E'].
  assert (Hle : forall z, D z -> Z.sgn (cmp (set_row_desc y dl) z) = Z.sgn (cmp y z)).
  { intros z Hz. by apply (cmp_eq_l D cmp). }
  rewrite Forall_forall in HbL. split; [done | | | | done | | |].
  3: { rewrite (skip_equal D cmp _ y (y :: R)), (skip_head D cmp) by auto using Forall_cons_2.
       pose proof (skip_length cmp (set_row_desc y dl) L). pose proof (skip_length cmp y R). cbn. lia. }
  - unfold set_row_desc; cbn. by destruct (_ <? _).
  - rewrite (skip_none D cmp _ L), (skip_equal D cmp _ y (y :: R)), (skip_head D cmp) by
      (auto using Forall_cons_2 || (rewrite Forall_forall in *; intros z Hz; specialize (HbL z Hz);
        specialize (HL z Hz); specialize (Hle z HL); lia)).
    by rewrite <- (skip_equal D cmp last y R).
  - rewrite Forall_forall in *. intros z Hz. specialize (HbL z Hz). specialize (Hle z (HL z Hz)). lia.
  - assert (Hb : Forall (fun z => cmp y z <= 0) (y :: R)).
    { apply (sorted_below D cmp); auto. rewrite (cmp_self D cmp) by done. lia. }
    apply Forall_cons_2 with (x := y) in HR; [| done]. rewrite Forall_forall in *. intros z Hz.
    specialize (Hb z Hz). specialize (Hle z (HR z Hz)). lia.
  - right. exists y. conjs; [by left | done |]. intros x Hx.
    rewrite Forall_forall in HL. specialize (HbL x Hx). specialize (HL x Hx).
    pose proof (cmp_zero_sym D cmp x y HL Hy). lia.
Qed.

Lemma with_cmp_same u : with_cmp u (last_cmp_ u) = u.
Proof. by destruct u. Qed.

Lemma emit_spec u L R :
  stands u L R -> Forall D L -> Forall D R -> sorted cmp L -> sorted cmp R ->
  Forall (fun r => set_row_desc r dl = r) L -> Forall (fun r => set_row_desc r dr = r) R ->
  (L = [] /\ R = [] /\ exists u', emit obj_cast u = Some (OB_ITER_END, None, u')) \/
  exists y u', emit obj_cast u = Some (OB_SUCCESS, Some y, u') /\ yields u L R y u'.
Proof.
  intros H HL HR SL SR DL DR. destruct (st_left _ _ _ H) as (l & Hl & Cl), (st_right _ _ _ H) as (r & Hr & Cr).
  unfold emit. destruct L as [| x L], R as [| y R]; cbn in Cl, Cr.
  - left. rewrite Cl, Cr. cbn -[output_first output_second with_cmp]. eauto.
  - right. destruct Cr as (-> & _). apply Forall_cons in HR as [Hy HR], DR as [Dy DR]. rewrite Cl. cbn -[output_first output_second with_cmp].
    destruct (output_second_saved u y [] R H Dy Hy HR) as (last & u1 & Hlast & E & Ho).
    destruct (Ho (last_cmp_ u)) as [Eo _], (Ho 1) as [_ Hq]. rewrite with_cmp_same in Eo. rewrite Eo. cbn -[output_first output_second with_cmp].
    destruct Hq as [Hrd Hlend]; [lia |]. eexists _, _. split; [done |].
    by apply yields_second.
  - right. destruct Cl as (-> & _). apply Forall_cons in HL as [Hx HL], DL as [Dx DL]. rewrite Cr. cbn -[output_first output_second with_cmp].
    destruct (output_first_saved u x L [] H Hx) as (last & Hlast & E & Ho).
    destruct (Ho (last_cmp_ u)) as [Eo _], (Ho (-1)) as [_ Hlend]. rewrite with_cmp_same in Eo. rewrite Eo. cbn -[output_first output_second with_cmp].
    exists x, (saved u (-1) last). split; [done |]. apply yields_first; auto. left. by split.
  - right. destruct Cl as (-> & Rl & _), Cr as (-> & Rr & _). rewrite Rl, Rr. cbn -[output_first output_second with_cmp].
    apply Forall_cons in HL as [Hx HL], DL as [Dx DL], HR as [Hy HR], DR as [Dy DR].
    rewrite ro_compare by done. cbn -[output_first output_second with_cmp].
    destruct (output_first_saved u x L (y :: R) H Hx) as (last1 & Hlast1 & E1 & Ho1).
    destruct (output_second_saved u y (x :: L) R H Dy Hy HR) as (last2 & u2 & Hlast2 & E2 & Ho2).
    pose proof (cmp_neg D cmp y x Hy Hx) as Hneg.
    destruct (Z.ltb_spec (cmp x y) 0) as [Hlt | Hge]; [| destruct (Z.eqb_spec (cmp x y) 0) as [Heq | Hne]].
    + destruct (Ho1 (cmp x y)) as [-> Hlend]. eexists _, _. split; [done |].
      apply yields_first; auto using Forall_cons_2. left. split; [done |]. by apply (sorted_strictly_below D cmp).
    + rewrite Heq. destruct (Ho1 0) as [-> Hlend]. eexists _, _. split; [done |].
      apply yields_first; auto using Forall_cons_2. right. split; [done |]. exists y, R. conjs; [done | done |].
      apply (sorted_below D cmp); auto. lia.
    + destruct (Ho2 (cmp x y)) as [-> Hq]. destruct Hq as [Hrd Hlend]; [lia |]. eexists _, _. split; [done |].
      apply yields_second; auto using Forall_cons_2. apply (sorted_strictly_below D cmp); auto. lia.
Qed.

Lemma ready_next u u' res :
  get_next_row_func_ u = Some true -> settles (fun m => u1 ← restore_desc u ; advance obj_cast m u1) u' ->
  emit obj_cast u' = Some res -> settles (fun m => union_get_next_row obj_cast m u) res.
Proof.
  intros Hf Hs He. eapply settles_eq; [| eapply (settles_bind _ (fun _ => emit obj_cast)); [exact Hs |]].
  - intros m. unfold union_get_next_row, distinct_get_next_row. rewrite Hf. cbn. by destruct (restore_desc u).
  - rewrite He. apply settles_ret.
Qed.

Lemma union_runs n u L R :
  (length L + length R <= n)%nat ->
  ready u L R -> Forall D L -> Forall D R -> sorted cmp L -> sorted cmp R ->
  Forall (fun r => set_row_desc r dl = r) L -> Forall (fun r => set_row_desc r dr = r) R ->
  exists out, runs (ObPhyOperator0 := merge) u out OB_ITER_END /\
    Forall (fun r => set_row_desc r dl = r) out /\ union_spec L R out.
Proof.
  revert u L R. induction n as [| n IH]; intros u L R Hn [Hf (u' & Hs & Hst)] HL HR SL SR DL DR;
    destruct (emit_spec u' L R Hst HL HR SL SR DL DR) as [(-> & -> & u2 & He) | (y & u2 & He & Hy)].
  1, 3: exists []; conjs; [| done | by apply union_spec_nil]; eapply runs_stop; [done |]; by eapply ready_next.
  - pose proof (yi_less _ _ _ _ _ Hy). lia.
  - pose proof (yi_less _ _ _ _ _ Hy) as Hless.
    destruct (IH u2 (skip cmp y L) (skip cmp y R)) as (out & Hr & Hd & Hu);
      [lia | apply Hy | auto using skip_Forall, skip_sorted .. |].
    exists (y :: out). conjs; [| constructor; [apply Hy | done] |].
    + eapply runs_row; [| apply Hy | exact Hr]. by eapply ready_next.
    + destruct Hy. by apply union_spec_step.
Qed.
End Distinct.

(** ** Opening the operator *)

Section Open.
Context {C : Type} `{!ObPhyOperator C}.

(** The operator as the plan builds it. *)
Definition union_over (l r : C) (is_distinct : bool) : ObMergeUnion C :=
  union_set_distinct (union_set_child (union_set_child ObMergeUnion_new 0 l).2 1 r).2 is_distinct.

(** The operator after the children were opened and their descriptions taken. *)
Definition union_opened (l r : C) (dl dr : ObRowDesc) (is_distinct buf : bool) : ObMergeUnion C :=
  mkUnion (mkSet (Some l) (Some r) (Some dl) is_distinct) (Some is_distinct) None None buf OB_SUCCESS OB_SUCCESS
    (-1) false false (Some dr) ObRow_new.

Lemma union_open_all l r l1 r1 dl dr ok :
  opens l l1 -> opens r r1 ->
  op_get_row_desc l1 = (OB_SUCCESS, Some dl) -> op_get_row_desc r1 = (OB_SUCCESS, Some dr) ->
  settles (fun m => union_open ok m (union_over l r false)) (OB_SUCCESS, union_opened l1 r1 dl dr false false).
Proof.
  intros Hl Hr Dl Dr. unfold union_open, double_open. cbn.
  eapply settles_bind; [eapply settles_bind; [exact Hl |]; cbn; eapply settles_bind; [exact Hr |]; apply settles_ret |].
  cbn. unfold cons_row_desc; cbn. rewrite Dl, Dr. cbn. apply settles_ret.
Qed.

Lemma union_open_distinct l r l1 r1 dl dr L R :
  opens l l1 -> opens r r1 ->
  op_get_row_desc l1 = (OB_SUCCESS, Some dl) -> op_get_row_desc r1 = (OB_SUCCESS, Some dr) ->
  runs l1 L OB_ITER_END -> runs r1 R OB_ITER_END ->
  exists u, settles (fun m => union_open true m (union_over l r true)) (OB_SUCCESS, u) /\
    got_first_row_ u = false /\ stands dl dr u L R.
Proof.
  intros Hl Hr Dl Dr RL RR.
  destruct (child_next_current l1 None L RL) as (lret & lrow & l2 & Hl2 & Cl).
  destruct (child_next_current r1 None R RR) as (rret & rrow & r2 & Hr2 & Cr).
  exists (right_called (left_called (union_opened l1 r1 dl dr true true) lret lrow l2) rret rrow r2). split.
  - unfold union_open, double_open. cbn.
    eapply settles_bind; [eapply settles_bind; [exact Hl |]; cbn; eapply settles_bind; [exact Hr |]; apply settles_ret |].
    cbn. unfold cons_row_desc; cbn. rewrite Dl, Dr. cbn.
    eapply settles_bind; [exact Hl2 |]. cbn. eapply settles_bind; [exact Hr2 |]. apply settles_ret.
  - split; [done |]. split; try done; cbn; [by exists l2 | by exists r2].
Qed.
End Open.

(** ** UNION ALL *)

Section All.
Context {C : Type} `{!ObPhyOperator C}.
Context (obj_cast : ObObjType -> ObObjType -> ObExprObj -> option (Z * ObExprObj)) (malloc_ok : bool).
Context (dl dr : ObRowDesc) (Hrestore : 0 < rowkey_cell_count_ dl -> 0 < rowkey_cell_count_ dr).
Implicit Types u : ObMergeUnion C.

Let both := union_operator (C := C) obj_cast malloc_ok.

(** The operator in UNION ALL, apart from the right child's row object. *)
Definition all_state (l r : C) (left_ret right_ret : Z) (last_output : bool) : ObMergeUnion C :=
  mkUnion (mkSet (Some l) (Some r) (Some dl) false) (Some false) None None false left_ret right_ret (-1) false
    last_output (Some dr) ObRow_new.

Lemma all_right_runs l r rows ret u row0 :
  runs r rows ret -> Forall (fun row => set_row_desc row dr = row) rows ->
  (forall res, settles (fun m => all_from_right m (all_state l r OB_ITER_END OB_SUCCESS false) row0) res ->
     settles (fun m => union_get_next_row obj_cast m u) res) ->
  runs (ObPhyOperator0 := both) u (map (fun row => set_row_desc row dl) rows) ret.
Proof.
  intros Hr Hd. revert r u row0 Hr. induction Hd as [| y rows Hy Hd IH]; intros r u row0 Hr Hu;
    pose proof (runs_code _ _ _ Hr) as Hret; apply (child_next_runs r row0) in Hr.
  - destruct Hr as (row' & r' & Hs). eapply runs_stop; [done |]. apply Hu. unfold all_from_right; cbn.
    eapply settles_bind; [exact Hs |]. cbn. apply Z.eqb_neq in Hret. rewrite Hret. apply settles_ret.
  - destruct Hr as (r' & Hs & (put & -> & Hput) & Hr). cbn [map].
    eapply (runs_row _ _ (all_state l (put (set_row_desc y dl)) OB_ITER_END OB_SUCCESS true)).
    + apply Hu. unfold all_from_right; cbn. eapply settles_bind; [exact Hs |]. cbn. rewrite Hput. apply settles_ret.
    + exists (fun row => all_state l (put row) OB_ITER_END OB_SUCCESS true). split; [done |].
      intros row d. cbn. unfold union_row_set_desc; cbn. by rewrite Hput.
    + apply (IH (put y) _ None Hr). intros res Hres. eapply settles_eq; [| exact Hres]. intros m.
      cbn. unfold all_get_next_row, restore_desc; cbn. rewrite Hput, (restore_described dl dr) by done. done.
Qed.

Lemma all_runs l r L R eL eR :
  runs l L eL -> runs r R eR -> Forall (fun row => set_row_desc row dr = row) R ->
  runs (ObPhyOperator0 := both) (all_state l r OB_SUCCESS OB_SUCCESS false)
    (if eL =? OB_ITER_END then L ++ map (fun row => set_row_desc row dl) R else L)
    (if eL =? OB_ITER_END then eR else eL).
Proof.
  intros Hl Hr Hd. pose proof (runs_code _ _ _ Hl) as HeL. revert l Hl.
  induction L as [| x L IH]; intros l Hl; apply (child_next_runs l None) in Hl.
  - destruct Hl as (row & l' & Hs). apply Z.eqb_neq in HeL as HeL'. destruct (Z.eqb_spec eL OB_ITER_END) as [-> | Hne].
    + apply (all_right_runs l' r R eR _ row Hr Hd). intros res Hres. cbn. unfold all_get_next_row; cbn.
      eapply settles_bind; [exact Hs |]. exact Hres.
    + eapply runs_stop; [done |]. cbn. unfold all_get_next_row, next; cbn. eapply settles_bind; [exact Hs |]. cbn.
      rewrite HeL'. apply Z.eqb_neq in Hne. rewrite Hne. apply settles_ret.
  - destruct Hl as (l' & Hs & (put & -> & Hput) & Hl).
    cut (forall rows ret, runs (ObPhyOperator0 := both) (all_state (put x) r OB_SUCCESS OB_SUCCESS false) rows ret ->
      runs (ObPhyOperator0 := both) (all_state l r OB_SUCCESS OB_SUCCESS false) (x :: rows) ret).
    { intros Hc. specialize (IH _ Hl). destruct (eL =? OB_ITER_END); by apply Hc. }
    intros rows ret Hrows. eapply runs_row; [| | exact Hrows].
    + cbn. unfold all_get_next_row, next; cbn. eapply settles_bind; [exact Hs |]. apply settles_ret.
    + exists (fun row => all_state (put row) r OB_SUCCESS OB_SUCCESS false). split; [done |].
      intros row d. cbn. unfold union_row_set_desc; cbn. by rewrite Hput.
Qed.
End All.

(** ** Theorems *)

(** UNION DISTINCT over rows the comparison orders. *)
Lemma union_distinct_ordered {C} `{!ObPhyOperator C} obj_cast D descs cmp (l r : C) dl dr L R
    (Hord : RowOrder obj_cast D descs cmp)
    (Hl : gives l dl L OB_ITER_END) (Hr : gives r dr R OB_ITER_END)
    (Hdl : descs dl) (Hcols : 0 < get_column_num dl)
    (Hkey : 0 < rowkey_cell_count_ dl -> 0 < rowkey_cell_count_ dr)
    (HL : Forall D L) (HR : Forall D R) (SL : sorted cmp L) (SR : sorted cmp R) :
  exists out, gives (ObPhyOperator0 := union_operator obj_cast true) (union_over l r true) dl out OB_ITER_END /\
    union_spec cmp dl L R out.
Proof.
  destruct Hl as (l1 & Ol & Dl & DL & RL), Hr as (r1 & Or & Dr & DR & RR).
  destruct (union_open_distinct l r l1 r1 dl dr L R Ol Or Dl Dr RL RR) as (u & Hu & Hgot & Hst).
  destruct (union_runs obj_cast D descs cmp dl dr Hdl Hkey (length L + length R) u L R)
    as (out & Hrun & Hdesc & Hspec); try done.
  { split; [apply Hst |]. exists u. split; [| done]. unfold restore_desc, advance.
    rewrite (st_output _ _ _ _ _ Hst). cbn. rewrite Hgot. apply settles_ret. }
  exists out. split; [| done]. exists u. conjs; [exact Hu | | done | done].
  cbn. unfold union_get_row_desc, set_get_row_desc. rewrite (st_desc _ _ _ _ _ Hst).
  destruct (Z.leb_spec (get_column_num dl) 0); [lia | done].
Qed.

(** C22: UNION DISTINCT.  Over two children that give sorted rows of the same
    typed, non-null columns ([typed_row]: integers, strings, booleans, times and
    decimals of one scale, in at most as many bytes as the buffer for a saved row
    has), the opened operator gives, in order and each once, the rows of the left
    child and those of the right child that equal no left row, under the
    description of the left child, and then [OB_ITER_END]. *)
Theorem union_distinct {C} `{!ObPhyOperator C} obj_cast ks (l r : C) dl dr L R
    (Hl : gives l dl L OB_ITER_END) (Hr : gives r dr R OB_ITER_END)
    (Hdl : typed_desc ks dl) (Hcols : 0 < get_column_num dl)
    (Hkey : 0 < rowkey_cell_count_ dl -> 0 < rowkey_cell_count_ dr)
    (HL : rows_ok (typed_row ks) rows_compare L) (HR : rows_ok (typed_row ks) rows_compare R) :
  exists out, gives (ObPhyOperator0 := union_operator obj_cast true) (union_over l r true) dl out OB_ITER_END /\
    union_spec rows_compare dl L R out.
Proof.
  destruct HL as [HL SL], HR as [HR SR].
  by apply (union_distinct_ordered obj_cast (typed_row ks) (typed_desc ks) rows_compare l r dl dr L R _).
Qed.

(** {1, 1, 3} union {1, 2}. *)
Lemma union_distinct_witness :
  exists out, gives (ObPhyOperator0 := union_operator (fun _ _ _ => None) true)
      (union_over (int_scan 16 [1; 1; 3]) (int_scan 17 [1; 2]) true) (int_desc 16) out OB_ITER_END /\
    union_spec rows_compare (int_desc 16) (map (int_row 16) [1; 1; 3]) (map (int_row 17) [1; 2]) out.
Proof.
  assert (H16 : valid_column_id 16) by (split; vm_compute; intuition congruence).
  assert (H17 : valid_column_id 17) by (split; vm_compute; intuition congruence).
  apply (union_distinct _ int_column _ _ _ (int_desc 17) _ _
    (int_scan_gives 16 [1; 1; 3]) (int_scan_gives 17 [1; 2]) (int_desc_typed 16 H16)).
  - rewrite int_desc_num. lia.
  - vm_compute. congruence.
  - apply int_rows_ok; [done | | ]; repeat constructor; vm_compute; congruence.
  - apply int_rows_ok; [done | | ]; repeat constructor; vm_compute; congruence.
Defined.

(** UNION ALL.  The operator gives the rows of the left child and, when that
    child ends with [OB_ITER_END], the rows of the right child under the
    description of the left child; the code of the child that stopped last ends
    it.  The row objects of the right child have their own description back
    whenever that child is called. *)
Theorem union_all {C} `{!ObPhyOperator C} obj_cast malloc_ok (l r : C) dl dr L R eL eR
    (Hl : gives l dl L eL) (Hr : gives r dr R eR) (Hcols : 0 < get_column_num dl)
    (Hkey : 0 < rowkey_cell_count_ dl -> 0 < rowkey_cell_count_ dr) :
  gives (ObPhyOperator0 := union_operator obj_cast malloc_ok) (union_over l r false) dl
    (if eL =? OB_ITER_END then L ++ map (fun row => set_row_desc row dl) R else L)
    (if eL =? OB_ITER_END then eR else eL).
Proof.
  destruct Hl as (l1 & Ol & Dl & DL & RL), Hr as (r1 & Or & Dr & DR & RR).
  exists (union_opened l1 r1 dl dr false false). conjs.
  - by apply union_open_all.
  - cbn. unfold union_get_row_desc, set_get_row_desc; cbn. destruct (Z.leb_spec (get_column_num dl) 0); [lia | done].
  - destruct (eL =? OB_ITER_END); [| done]. apply Forall_app. split; [done |].
    apply Forall_fmap, Forall_true. intros row. unfold set_row_desc; cbn. by destruct (_ <? _).
  - by apply all_runs.
Qed.

Lemma union_all_witness :
  gives (ObPhyOperator0 := union_operator (fun _ _ _ => None) true)
    (union_over (int_scan 16 [4; 1]) (int_scan 17 [1; 2]) false) (int_desc 16)
    (map (int_row 16) [4; 1] ++ map (fun row => set_row_desc row (int_desc 16)) (map (int_row 17) [1; 2])) OB_ITER_END.
Proof.
  apply (union_all (fun _ _ _ => None) true _ _ _ (int_desc 17) _ _ OB_ITER_END OB_ITER_END
    (int_scan_gives 16 [4; 1]) (int_scan_gives 17 [1; 2])).
  - rewrite int_desc_num. lia.
  - vm_compute. congruence.
Defined.

(** A UNION ALL that reached the end, closed and opened again, gives no row:
    neither [close] nor [open] sets [left_ret_] and [right_ret_] back, and the
    next call returns [OB_ITER_END] without a call on a child.  The interface
    says that an operator closed successfully can be opened and used again. *)
Theorem union_all_reopened {C} `{!ObPhyOperator C} obj_cast malloc_ok (u u1 u2 : ObMergeUnion C) (fuel m : nat)
    (Hfunc : get_next_row_func_ u = Some false) (Hall : distinct_ (base_ u) = false)
    (Hleft : left_ret_ u = OB_ITER_END) (Hright : right_ret_ u = OB_ITER_END) (Hout : last_output_row_ u = false)
    (Hclose : union_close u = Some (OB_SUCCESS, u1)) (Hopen : union_open malloc_ok fuel u1 = Some (OB_SUCCESS, u2)) :
  union_get_next_row obj_cast m u2 = Some (OB_ITER_END, None, u2).
Proof.
  unfold union_close in Hclose. destruct (double_close (base_ u)) as [[ret b] |] eqn:Ec; [| done].
  injection Hclose as -> <-.
  assert (Hb : distinct_ b = false) by (by rewrite (double_close_distinct _ _ _ Ec)).
  unfold union_open in Hopen; cbn in Hopen.
  destruct (double_open fuel b) as [[ret b2] |] eqn:Eo; [| done]. cbn in Hopen.
  assert (Hb2 : distinct_ b2 = false) by (by rewrite (double_open_distinct _ _ _ _ Eo)).
  cut (left_ret_ u2 = OB_ITER_END /\ right_ret_ u2 = OB_ITER_END /\ last_output_row_ u2 = false /\
       get_next_row_func_ u2 = Some false).
  { intros (E1 & E2 & E3 & E4). unfold union_get_next_row. rewrite E4. cbn. unfold all_get_next_row, restore_desc.
    rewrite E3. cbn. by rewrite E1, E2. }
  destruct (ret =? OB_SUCCESS); [| by injection Hopen as -> <-].
  destruct (cons_row_desc b2) as [[ret' [[ld rd] |]] |]; [| | done]; cbn in Hopen.
  - rewrite Hb2 in Hopen. by injection Hopen as <-.
  - by injection Hopen as -> <-.
Qed.

Lemma union_all_reopened_witness :
  let l := int_scan 16 [4; 1] in let r := int_scan 17 [1; 2] in
  exists u1 u2, union_close (all_state (int_desc 16) (int_desc 17) l r OB_ITER_END OB_ITER_END false)
      = Some (OB_SUCCESS, u1) /\
    union_open true 0 u1 = Some (OB_SUCCESS, u2) /\
    union_get_next_row (fun _ _ _ => None) 0 u2 = Some (OB_ITER_END, None, u2).
Proof.
  intros l r. eexists _, _. split; [reflexivity |]. split; [reflexivity |].
  by eapply (union_all_reopened _ true (all_state (int_desc 16) (int_desc 17) l r OB_ITER_END OB_ITER_END false) _ _ 0 0).
Defined.
