(* ===== verification/MergePair.v ===== *)
(** * INTERSECT and EXCEPT: the shared state and operations

    [ObMergeIntersect] and [ObMergeExcept] ([sql/ob_merge_intersect.{h,cpp}],
    [sql/ob_merge_except.{h,cpp}]) declare the same members, and their [reset],
    [reuse], [set_distinct], [close] and [get_row_desc] are the same lines.  Both
    remember the last row they took from each child and hand out rows of the left
    child. *)

From S2P Require Import Prelude ObObject ObExprObj ObRowDesc ObRow ObCompactCell PhyOperator SetOperator.
From Stdlib Require Import Sorted.
Local Open Scope Z_scope.

Record ObMergePair (C : Type) := mkPair {
  base_ : ObSetOperator C;
  get_next_row_func_ : option bool;
  left_last_row_ : ObRow;
  right_last_row_ : ObRow;
  cur_first_query_row_ : option ObRow;
  cur_second_query_row_ : option ObRow;
  left_ret_ : Z;
  right_ret_ : Z;
  last_cmp_ : Z;
  got_first_row_ : bool;
  left_last_row_buf_ : bool;
  right_last_row_buf_ : bool
}.
Arguments mkPair {C}.
Arguments base_ {C}.
Arguments get_next_row_func_ {C}.
Arguments left_last_row_ {C}.
Arguments right_last_row_ {C}.
Arguments cur_first_query_row_ {C}.
Arguments cur_second_query_row_ {C}.
Arguments left_ret_ {C}.
Arguments right_ret_ {C}.
Arguments last_cmp_ {C}.
Arguments got_first_row_ {C}.
Arguments left_last_row_buf_ {C}.
Arguments right_last_row_buf_ {C}.

Section Operations.
Context {C : Type} `{!ObPhyOperator C}.
Context (obj_cast : ObObjType -> ObObjType -> ObExprObj -> option (Z * ObExprObj)).
Implicit Types u : ObMergePair C.

(** The constructors leave [get_next_row_func_] uninitialised: [None] is the
    pointer before [set_distinct]. *)
Definition ObMergePair_new : ObMergePair C :=
  mkPair ObSetOperator_new None ObRow_new ObRow_new None None OB_SUCCESS OB_SUCCESS (-1) false false false.

Definition pair_reset u : ObMergePair C :=
  mkPair (set_reset (base_ u)) None (left_last_row_ u) (right_last_row_ u) None None OB_SUCCESS OB_SUCCESS (-1)
    false false false.

Definition pair_reuse u : ObMergePair C :=
  mkPair (set_reuse (base_ u)) None (left_last_row_ u) (right_last_row_ u) None None OB_SUCCESS OB_SUCCESS (-1)
    false false false.

Definition pair_with_base u (b : ObSetOperator C) : ObMergePair C :=
  mkPair b (get_next_row_func_ u) (left_last_row_ u) (right_last_row_ u) (cur_first_query_row_ u)
    (cur_second_query_row_ u) (left_ret_ u) (right_ret_ u) (last_cmp_ u) (got_first_row_ u) (left_last_row_buf_ u)
    (right_last_row_buf_ u).

Definition pair_set_child u (child_idx : Z) (child : C) : Z * ObMergePair C :=
  let '(ret, b) := set_child (base_ u) child_idx child in (ret, pair_with_base u b).

Definition pair_set_distinct u (is_distinct : bool) : ObMergePair C :=
  mkPair (base_set_distinct (base_ u) is_distinct) (Some is_distinct) (left_last_row_ u) (right_last_row_ u)
    (cur_first_query_row_ u) (cur_second_query_row_ u) (left_ret_ u) (right_ret_ u) (last_cmp_ u) (got_first_row_ u)
    (left_last_row_buf_ u) (right_last_row_buf_ u).

Definition pair_called_left u (ret : Z) (row : option ObRow) (l : C) : ObMergePair C :=
  mkPair (with_left (base_ u) l) (get_next_row_func_ u) (left_last_row_ u) (right_last_row_ u) row
    (cur_second_query_row_ u) ret (right_ret_ u) (last_cmp_ u) (got_first_row_ u) (left_last_row_buf_ u)
    (right_last_row_buf_ u).

Definition pair_called_right u (ret : Z) (row : option ObRow) (r : C) : ObMergePair C :=
  mkPair (with_right (base_ u) r) (get_next_row_func_ u) (left_last_row_ u) (right_last_row_ u)
    (cur_first_query_row_ u) row (left_ret_ u) ret (last_cmp_ u) (got_first_row_ u) (left_last_row_buf_ u)
    (right_last_row_buf_ u).

(** The rows saved and whether a first row was given. *)
Definition with_last u (left_last right_last : ObRow) (got : bool) : ObMergePair C :=
  mkPair (base_ u) (get_next_row_func_ u) left_last right_last (cur_first_query_row_ u) (cur_second_query_row_ u)
    (left_ret_ u) (right_ret_ u) (last_cmp_ u) got (left_last_row_buf_ u) (right_last_row_buf_ u).

(** [left_ret_ = left_op_->get_next_row(cur_first_query_row_)] *)
Definition next_left (fuel : nat) u : option (ObMergePair C) :=
  l ← left_op_ (base_ u) ;
  '(ret, row, l) ← child_next fuel l (cur_first_query_row_ u) ;
  Some (pair_called_left u ret row l).

Definition next_right (fuel : nat) u : option (ObMergePair C) :=
  r ← right_op_ (base_ u) ;
  '(ret, row, r) ← child_next fuel r (cur_second_query_row_ u) ;
  Some (pair_called_right u ret row r).

(** [left_ret_ = do_distinct(left_op_, &left_last_row_, cur_first_query_row_)] *)
Definition distinct_left (fuel : nat) u : option (ObMergePair C) :=
  l ← left_op_ (base_ u) ;
  '(ret, row, l) ← do_distinct obj_cast fuel l (left_last_row_ u) (cur_first_query_row_ u) ;
  Some (pair_called_left u ret row l).

Definition distinct_right (fuel : nat) u : option (ObMergePair C) :=
  r ← right_op_ (base_ u) ;
  '(ret, row, r) ← do_distinct obj_cast fuel r (right_last_row_ u) (cur_second_query_row_ u) ;
  Some (pair_called_right u ret row r).

(** [ObRowUtil::convert] of the current row to the last row of its side. *)
Definition save_left u : option (Z * ObMergePair C) :=
  row ← cur_first_query_row_ u ;
  '(ret, last) ← save_row row (left_last_row_ u) (row_buf (left_last_row_buf_ u)) ;
  Some (ret, with_last u last (right_last_row_ u) (got_first_row_ u)).

Definition save_right u : option (Z * ObMergePair C) :=
  row ← cur_second_query_row_ u ;
  '(ret, last) ← save_row row (right_last_row_ u) (row_buf (right_last_row_buf_ u)) ;
  Some (ret, with_last u (left_last_row_ u) last (got_first_row_ u)).

Definition set_got u : ObMergePair C := with_last u (left_last_row_ u) (right_last_row_ u) true.

(** [left_ok] and [right_ok]: whether [ob_malloc] finds memory for each buffer. *)
Definition pair_open (left_ok right_ok : bool) (fuel : nat) u : option (Z * ObMergePair C) :=
  '(ret, b) ← double_open fuel (base_ u) ;
  let u := pair_with_base u b in
  if ret =? OB_SUCCESS then
    '(ret, descs) ← cons_row_desc b ;
    match descs with
    | None => Some (ret, u)
    | Some (left_row_desc, _) =>
        let buffers lb rb got :=
          mkPair (with_desc b left_row_desc) (get_next_row_func_ u) (left_last_row_ u) (right_last_row_ u)
            (cur_first_query_row_ u) (cur_second_query_row_ u) (left_ret_ u) (right_ret_ u) (last_cmp_ u) got lb rb in
        if left_ok then
          if right_ok then Some (OB_SUCCESS, buffers true true false)
          else Some (OB_ALLOCATE_MEMORY_FAILED, buffers true false (got_first_row_ u))
        else Some (OB_ALLOCATE_MEMORY_FAILED, buffers false (right_last_row_buf_ u) (got_first_row_ u))
    end
  else Some (ret, u).

Definition pair_close u : option (Z * ObMergePair C) :=
  '(ret, b) ← double_close (base_ u) ;
  Some (ret, mkPair (with_desc b None) (get_next_row_func_ u) (left_last_row_ u) (right_last_row_ u) None None
    OB_SUCCESS OB_SUCCESS (-1) false false false).

Definition pair_get_row_desc u : Z * option ObRowDesc := set_get_row_desc (base_ u).

(** The row handed out is the row object of the left child. *)
Definition pair_row_set_desc u (d : ObRowDesc) : ObMergePair C :=
  match left_op_ (base_ u) with
  | None => u
  | Some l => pair_called_left u (left_ret_ u) (option_map (fun row => set_row_desc row d) (cur_first_query_row_ u))
                (op_row_set_desc l d)
  end.

(** The operator as the plan builds it. *)
Definition pair_over (l r : C) (is_distinct : bool) : ObMergePair C :=
  pair_set_distinct (pair_set_child (pair_set_child ObMergePair_new 0 l).2 1 r).2 is_distinct.
End Operations.

(** ** The operator between two rows *)

Section Stands.
Context {C : Type} `{!ObPhyOperator C}.
Context (obj_cast : ObObjType -> ObObjType -> ObExprObj -> option (Z * ObExprObj)).
Context (D : ObRow -> Prop) (descs : ObRowDesc -> Prop) (cmp : ObRow -> ObRow -> Z) `{!RowOrder obj_cast D descs cmp}.
Context (is_distinct : bool) (dl : ObRowDesc).
Implicit Types (u : ObMergePair C) (L R : list ObRow).

Record pair_inv u : Prop := {
  pi_func : get_next_row_func_ u = Some is_distinct;
  pi_desc : out_desc_ (base_ u) = Some dl;
  pi_left_buf : left_last_row_buf_ u = true;
  pi_right_buf : right_last_row_buf_ u = true;
  pi_left_last : row_wf (left_last_row_ u);
  pi_right_last : row_wf (right_last_row_ u)
}.

Definition left_at u L : Prop :=
  exists l, left_op_ (base_ u) = Some l /\ current (left_ret_ u) (cur_first_query_row_ u) l L.
Definition right_at u R : Prop :=
  exists r, right_op_ (base_ u) = Some r /\ current (right_ret_ u) (cur_second_query_row_ u) r R.

(** The rows from the current ones on are [L] and [R]. *)
Definition pair_stands u L R : Prop := pair_inv u /\ left_at u L /\ right_at u R.

Lemma next_left_stands u L :
  pair_inv u -> (exists l, left_op_ (base_ u) = Some l /\ runs l L OB_ITER_END) ->
  exists u', settles (fun m => next_left m u) u' /\ pair_inv u' /\ left_at u' L /\
    got_first_row_ u' = got_first_row_ u /\ right_op_ (base_ u') = right_op_ (base_ u) /\
    forall R, right_at u R -> right_at u' R.
Proof.
  intros [] (l & Hl & Hr). destruct (child_next_current l (cur_first_query_row_ u) L Hr) as (ret & row & l' & Hs & Hc).
  exists (pair_called_left u ret row l'). conjs; try done.
  - unfold next_left. rewrite Hl. cbn. eapply settles_bind; [exact Hs |]. apply settles_ret.
  - by exists l'.
Qed.

Lemma next_right_stands u R :
  pair_inv u -> (exists r, right_op_ (base_ u) = Some r /\ runs r R OB_ITER_END) ->
  exists u', settles (fun m => next_right m u) u' /\ pair_inv u' /\ right_at u' R /\
    (forall L, left_at u L -> left_at u' L) /\ got_first_row_ u' = got_first_row_ u.
Proof.
  intros [] (r & Hl & Hr). destruct (child_next_current r (cur_second_query_row_ u) R Hr) as (ret & row & r' & Hs & Hc).
  exists (pair_called_right u ret row r'). conjs; try done.
  - unfold next_right. rewrite Hl. cbn. eapply settles_bind; [exact Hs |]. apply settles_ret.
  - by exists r'.
Qed.

Lemma distinct_left_stands u x L R :
  pair_stands u (x :: L) R -> D x -> D (left_last_row_ u) -> cmp (left_last_row_ u) x = 0 -> Forall D L ->
  exists u', settles (fun m => distinct_left obj_cast m u) u' /\ pair_stands u' (skip cmp x L) R /\
    right_last_row_ u' = right_last_row_ u.
Proof.
  intros ([] & (l & Hl & _ & _ & _ & Hrun) & Hright) Hx Hlast E HL.
  destruct (do_distinct_current obj_cast D descs cmp l (left_last_row_ u) (cur_first_query_row_ u) L Hlast HL Hrun)
    as (ret & row & l' & Hs & Hc). rewrite (skip_equal D cmp _ x) in Hc by done.
  exists (pair_called_left u ret row l'). conjs; [| | done].
  - unfold distinct_left. rewrite Hl. cbn. eapply settles_bind; [exact Hs |]. apply settles_ret.
  - split; [done |]. split; [by exists l' | done].
Qed.

Lemma distinct_right_stands u y L R :
  pair_stands u L (y :: R) -> D y -> D (right_last_row_ u) -> cmp (right_last_row_ u) y = 0 -> Forall D R ->
  exists u', settles (fun m => distinct_right obj_cast m u) u' /\ pair_stands u' L (skip cmp y R).
Proof.
  intros ([] & Hleft & (r & Hr & _ & _ & _ & Hrun)) Hy Hlast E HR.
  destruct (do_distinct_current obj_cast D descs cmp r (right_last_row_ u) (cur_second_query_row_ u) R Hlast HR Hrun)
    as (ret & row & r' & Hs & Hc). rewrite (skip_equal D cmp _ y) in Hc by done.
  exists (pair_called_right u ret row r'). split.
  - unfold distinct_right. rewrite Hr. cbn. eapply settles_bind; [exact Hs |]. apply settles_ret.
  - split; [done |]. split; [done | by exists r'].
Qed.

Lemma save_left_stands u x L R :
  pair_stands u (x :: L) R -> D x ->
  exists u', save_left u = Some (OB_SUCCESS, u') /\ pair_stands u' (x :: L) R /\
    D (left_last_row_ u') /\ cmp (left_last_row_ u') x = 0 /\
    right_last_row_ u' = right_last_row_ u /\ got_first_row_ u' = got_first_row_ u.
Proof.
  intros ([] & (l & Hl & Hret & Hrow & Hrest) & Hright) Hx.
  destruct (ro_save x (left_last_row_ u) Hx pi_left_last0) as (last & Hs & Hd & E).
  exists (with_last u last (right_last_row_ u) (got_first_row_ u)).
  conjs; [| | done | done | done | done].
  - unfold save_left. rewrite Hrow. cbn. rewrite pi_left_buf0, Hs. done.
  - split; [| split; [by exists l | done]]. split; try done. by apply (ro_wf last).
Qed.

Lemma save_right_stands u y L R :
  pair_stands u L (y :: R) -> D y ->
  exists u', save_right u = Some (OB_SUCCESS, u') /\ pair_stands u' L (y :: R) /\
    D (right_last_row_ u') /\ cmp (right_last_row_ u') y = 0 /\
    left_last_row_ u' = left_last_row_ u /\ got_first_row_ u' = got_first_row_ u.
Proof.
  intros ([] & Hleft & (r & Hr & Hret & Hrow & Hrest)) Hy.
  destruct (ro_save y (right_last_row_ u) Hy pi_right_last0) as (last & Hs & Hd & E).
  exists (with_last u (left_last_row_ u) last (got_first_row_ u)).
  conjs; [| | done | done | done | done].
  - unfold save_right. rewrite Hrow. cbn. rewrite pi_right_buf0, Hs. done.
  - split; [| split; [done | by exists r]]. split; try done. by apply (ro_wf last).
Qed.

(** Saving the current row and skipping the rows equal to it. *)
Lemma drop_left u x L R :
  pair_stands u (x :: L) R -> D x -> Forall D L ->
  exists u1 u', save_left u = Some (OB_SUCCESS, u1) /\ settles (fun m => distinct_left obj_cast m u1) u' /\
    pair_stands u' (skip cmp x L) R.
Proof.
  intros H Hx HL. destruct (save_left_stands u x L R H Hx) as (u1 & Hs & H1 & Hd & E & _).
  destruct (distinct_left_stands u1 x L R H1 Hx Hd E HL) as (u' & Hs' & H' & _). by exists u1, u'.
Qed.

Lemma drop_right u y L R :
  pair_stands u L (y :: R) -> D y -> Forall D R ->
  exists u1 u', save_right u = Some (OB_SUCCESS, u1) /\ settles (fun m => distinct_right obj_cast m u1) u' /\
    pair_stands u' L (skip cmp y R).
Proof.
  intros H Hy HR. destruct (save_right_stands u y L R H Hy) as (u1 & Hs & H1 & Hd & E & _).
  destruct (distinct_right_stands u1 y L R H1 Hy Hd E HR) as (u' & Hs' & H'). by exists u1, u'.
Qed.

Lemma save_both u x y L R :
  pair_stands u (x :: L) (y :: R) -> D x -> D y ->
  exists u1 u', save_left u = Some (OB_SUCCESS, u1) /\ save_right u1 = Some (OB_SUCCESS, u') /\
    pair_stands u' (x :: L) (y :: R) /\ D (left_last_row_ u') /\ cmp (left_last_row_ u') x = 0 /\
    D (right_last_row_ u') /\ cmp (right_last_row_ u') y = 0 /\ got_first_row_ u' = got_first_row_ u.
Proof.
  intros H Hx Hy. destruct (save_left_stands u x L (y :: R) H Hx) as (u1 & Hs & H1 & Hd & E & _ & G1).
  destruct (save_right_stands u1 y (x :: L) R H1 Hy) as (u' & Hs' & H' & Hd' & E' & El & G2).
  exists u1, u'. rewrite El. conjs; try done. congruence.
Qed.

(** Skipping on both sides. *)
Lemma distinct_both u x y L R :
  pair_stands u (x :: L) (y :: R) -> D x -> D y -> D (left_last_row_ u) -> cmp (left_last_row_ u) x = 0 ->
  D (right_last_row_ u) -> cmp (right_last_row_ u) y = 0 -> Forall D L -> Forall D R ->
  exists u1 u', settles (fun m => distinct_left obj_cast m u) u1 /\ settles (fun m => distinct_right obj_cast m u1) u' /\
    pair_stands u' (skip cmp x L) (skip cmp y R).
Proof.
  intros H Hx Hy D1 E1 D2 E2 HL HR.
  destruct (distinct_left_stands u x L (y :: R) H Hx D1 E1 HL) as (u1 & Hs1 & H1 & El).
  destruct (distinct_right_stands u1 y (skip cmp x L) R H1 Hy) as (u' & Hs' & H'); [by rewrite El | by rewrite El | done |].
  by exists u1, u'.
Qed.

(** The left child's row is the one handed out. *)
Lemma pair_lends u x L R :
  pair_stands u (x :: L) R ->
  exists put, u = put x /\ forall row d, pair_row_set_desc (put row) d = put (set_row_desc row d).
Proof.
  intros (_ & (l & Hl & _ & Hrow & (put & -> & Hput) & _) & _).
  exists (fun row => pair_called_left u (left_ret_ u) (Some row) (put row)). split.
  - unfold pair_called_left, with_left. rewrite <- Hl, <- Hrow. by destruct u as [[]].
  - intros row d. unfold pair_row_set_desc, pair_called_left, with_left; cbn. by rewrite Hput.
Qed.

Lemma pair_open_spec l r l1 r1 dr :
  opens l l1 -> opens r r1 ->
  op_get_row_desc l1 = (OB_SUCCESS, Some dl) -> op_get_row_desc r1 = (OB_SUCCESS, Some dr) ->
  exists u, settles (fun m => pair_open true true m (pair_over l r is_distinct)) (OB_SUCCESS, u) /\
    pair_inv u /\ got_first_row_ u = false /\ left_op_ (base_ u) = Some l1 /\ right_op_ (base_ u) = Some r1.
Proof.
  intros Hl Hr Dl Dr. eexists. split.
  - unfold pair_open, double_open. cbn.
    eapply settles_bind; [eapply settles_bind; [exact Hl |]; cbn; eapply settles_bind; [exact Hr |]; apply settles_ret |].
    cbn. unfold cons_row_desc; cbn. rewrite Dl, Dr. cbn. apply settles_ret.
  - cbn. by conjs.
Qed.

Lemma pair_row_desc u : pair_inv u -> 0 < get_column_num dl -> pair_get_row_desc u = (OB_SUCCESS, Some dl).
Proof.
  intros Hi Hc. unfold pair_get_row_desc, set_get_row_desc. rewrite (pi_desc u Hi).
  destruct (Z.leb_spec (get_column_num dl) 0); [lia | done].
Qed.
End Stands.
