(* ===== verification/MergeIntersect.v ===== *)
(** * INTERSECT: [sql/ob_merge_intersect.{h,cpp}]

    Over two sorted children, INTERSECT DISTINCT gives each left row that has an
    equal right row once; INTERSECT ALL gives it as often as it occurs on both
    sides. *)

From S2P Require Import Prelude ObObject ObExprObj ObRowDesc ObRow ObCompactCell PhyOperator SetOperator MergePair.
From Stdlib Require Import Sorted.
Local Open Scope Z_scope.

Section Operations.
Context {C : Type} `{!ObPhyOperator C}.
Context (obj_cast : ObObjType -> ObObjType -> ObExprObj -> option (Z * ObExprObj)).
Implicit Types u : ObMergePair C.

(** The loops of the two functions differ in what they do with equal rows,
    [on_equal].  [k] bounds the rounds, [fuel] each call on a child. *)
Fixpoint intersect_loop (on_equal : ObMergePair C -> option (Z * option ObRow * ObMergePair C)) (k fuel : nat) u
    : option (Z * option ObRow * ObMergePair C) :=
  match k with
  | O => None
  | S k' =>
      if (left_ret_ u =? OB_SUCCESS) && (right_ret_ u =? OB_SUCCESS) then
        row1 ← cur_first_query_row_ u ;
        row2 ← cur_second_query_row_ u ;
        '(ret, cmp) ← row_compare obj_cast row1 row2 ;
        if ret =? OB_SUCCESS then
          if cmp <? 0 then
            '(ret, u) ← save_left u ;
            if ret =? OB_SUCCESS then u ← distinct_left obj_cast fuel u ; intersect_loop on_equal k' fuel u
            else Some (ret, None, u)
          else if cmp =? 0 then on_equal u
          else
            '(ret, u) ← save_right u ;
            if ret =? OB_SUCCESS then u ← distinct_right obj_cast fuel u ; intersect_loop on_equal k' fuel u
            else Some (ret, None, u)
        else Some (ret, None, u)
      else if (left_ret_ u =? OB_ITER_END) || (right_ret_ u =? OB_ITER_END) then Some (OB_ITER_END, None, u)
      else Some (OB_ERR_UNEXPECTED, None, u)
  end.

(** [cmp == 0] in [distinct_get_next_row]. *)
Definition output_equal u : option (Z * option ObRow * ObMergePair C) :=
  let row := cur_first_query_row_ u in
  let u := set_got u in
  '(ret, u) ← save_left u ;
  if ret =? OB_SUCCESS then '(ret, u) ← save_right u ; Some (ret, row, u) else Some (ret, row, u).

(** The code after the calls on both children: the right child's error wins. *)
Definition children_ret u : Z :=
  if negb (right_ret_ u =? OB_SUCCESS) && negb (right_ret_ u =? OB_ITER_END) then right_ret_ u
  else if negb (left_ret_ u =? OB_SUCCESS) && negb (left_ret_ u =? OB_ITER_END) then left_ret_ u
  else OB_SUCCESS.

Definition fetch (fuel : nat) u : option (ObMergePair C) :=
  u ← next_left fuel u ;
  next_right fuel u.

Definition fetch_distinct (fuel : nat) u : option (ObMergePair C) :=
  if got_first_row_ u then u ← distinct_left obj_cast fuel u ; distinct_right obj_cast fuel u else fetch fuel u.

Definition distinct_get_next_row (fuel : nat) u : option (Z * option ObRow * ObMergePair C) :=
  u ← fetch_distinct fuel u ;
  if children_ret u =? OB_SUCCESS then intersect_loop output_equal fuel fuel u
  else Some (children_ret u, None, u).

Definition all_get_next_row (fuel : nat) u : option (Z * option ObRow * ObMergePair C) :=
  u ← fetch fuel u ;
  if children_ret u =? OB_SUCCESS then
    intersect_loop (fun u => Some (OB_SUCCESS, cur_first_query_row_ u, u)) fuel fuel u
  else Some (children_ret u, None, u).

Definition intersect_get_next_row (fuel : nat) u : option (Z * option ObRow * ObMergePair C) :=
  is_distinct ← get_next_row_func_ u ;
  if (is_distinct : bool) then distinct_get_next_row fuel u else all_get_next_row fuel u.
End Operations.

#[export] Instance intersect_operator {C} `{!ObPhyOperator C} obj_cast left_ok right_ok
    : ObPhyOperator (ObMergePair C) := {
  op_open := pair_open left_ok right_ok;
  op_close := pair_close;
  op_get_next_row := intersect_get_next_row obj_cast;
  op_get_row_desc := pair_get_row_desc;
  op_row_set_desc := pair_row_set_desc
}.

(** ** The search for equal rows *)

Section Seek.
Context (D : ObRow -> Prop) (cmp : ObRow -> ObRow -> Z) `{!CmpOrder D cmp}.
Implicit Types L R : list ObRow.

(** Dropping the rows below the head of the other side. *)
Inductive seek : list ObRow -> list ObRow -> list ObRow -> list ObRow -> Prop :=
| seek_end L R : L = [] \/ R = [] -> seek L R L R
| seek_equal x L y R : cmp x y = 0 -> seek (x :: L) (y :: R) (x :: L) (y :: R)
| seek_left x L y R L' R' : cmp x y < 0 -> seek (skip cmp x L) (y :: R) L' R' -> seek (x :: L) (y :: R) L' R'
| seek_right x L y R L' R' : 0 < cmp x y -> seek (x :: L) (skip cmp y R) L' R' -> seek (x :: L) (y :: R) L' R'.

Lemma seek_keeps (P : list ObRow -> Prop) L R L' R' :
  (forall x y l, P (x :: l) -> P (skip cmp y l)) -> seek L R L' R' -> P L -> P R -> P L' /\ P R'.
Proof. intros HP. induction 1; intros HL HR; eauto. Qed.

Lemma seek_sublist L R L' R' : seek L R L' R' -> sublist L' L.
Proof.
  induction 1 as [| | x L y R L' R' _ _ IH | x L y R L' R' _ _ IH]; [done | done | | done].
  etrans; [exact IH |]. etrans; [apply skip_sublist |]. by apply sublist_cons.
Qed.

Lemma seek_count w L R L' R' : D w -> rows_ok D cmp L -> rows_ok D cmp R -> seek L R L' R' ->
  (count cmp w L `min` count cmp w R = count cmp w L' `min` count cmp w R')%nat.
Proof.
  intros Hw HL HR H. revert HL HR.
  induction H as [| | x L y R L' R' Hlt _ IH | x L y R L' R' Hlt _ IH]; intros HL HR; [done | done | |];
    rewrite <- IH by eauto using rows_ok_skip; rewrite (count_drop D) by done;
    (destruct (decide _) as [E |]; [| done]); destruct HL as [[Hx HL']%Forall_cons SL], HR as [[Hy HR']%Forall_cons SR].
  - rewrite (count_below D cmp w x y R) by (done || split; auto using Forall_cons_2). lia.
  - pose proof (cmp_neg D cmp y x Hy Hx).
    rewrite (count_below D cmp w y x L) by (lia || done || split; auto using Forall_cons_2). lia.
Qed.
End Seek.

Section Loop.
Context {C : Type} `{!ObPhyOperator C}.
Context (obj_cast : ObObjType -> ObObjType -> ObExprObj -> option (Z * ObExprObj)).
Context (D : ObRow -> Prop) (descs : ObRowDesc -> Prop) (cmp : ObRow -> ObRow -> Z) `{!RowOrder obj_cast D descs cmp}.
Context (is_distinct : bool) (dl : ObRowDesc).
Implicit Types (u : ObMergePair C) (L R : list ObRow).

(** What the loop returns when it stands at [L] and [R]. *)
Definition loop_result (on_equal : ObMergePair C -> option (Z * option ObRow * ObMergePair C)) u L R
    : option (Z * option ObRow * ObMergePair C) :=
  match L, R with
  | _ :: _, _ :: _ => on_equal u
  | _, _ => Some (OB_ITER_END, None, u)
  end.

Lemma intersect_stop on_equal k fuel u L R :
  pair_stands is_distinct dl u L R -> L = [] \/ R = [] ->
  intersect_loop obj_cast on_equal (S k) fuel u = Some (OB_ITER_END, None, u).
Proof.
  intros (_ & (l & _ & Cl) & (r & _ & Cr)) H. cbn [intersect_loop].
  destruct L as [| x L], R as [| y R]; [| | | by destruct H]; cbn in Cl, Cr.
  - by rewrite Cl, Cr.
  - destruct Cr as (-> & _). by rewrite Cl.
  - destruct Cl as (-> & _). by rewrite Cr.
Qed.

Lemma intersect_compare on_equal k fuel u x y L R :
  pair_stands is_distinct dl u (x :: L) (y :: R) -> D x -> D y ->
  intersect_loop obj_cast on_equal (S k) fuel u =
  if cmp x y <? 0 then
    '(ret, u) ← save_left u ;
    if ret =? OB_SUCCESS then u ← distinct_left obj_cast fuel u ; intersect_loop obj_cast on_equal k fuel u
    else Some (ret, None, u)
  else if cmp x y =? 0 then on_equal u
  else
    '(ret, u) ← save_right u ;
    if ret =? OB_SUCCESS then u ← distinct_right obj_cast fuel u ; intersect_loop obj_cast on_equal k fuel u
    else Some (ret, None, u).
Proof.
  intros (_ & (l & _ & El & Rl & _) & (r & _ & Er & Rr & _)) Hx Hy. cbn [intersect_loop].
  rewrite El, Er, Rl, Rr. cbn [andb Z.eqb]. rewrite !bind_some, ro_compare, bind_some by done. done.
Qed.

Lemma loop_seek n on_equal u L R :
  (length L + length R <= n)%nat ->
  pair_stands is_distinct dl u L R -> rows_ok D cmp L -> rows_ok D cmp R ->
  exists L' R' u', seek cmp L R L' R' /\ pair_stands is_distinct dl u' L' R' /\
    exists N, forall k m, (N <= k)%nat -> (N <= m)%nat ->
      intersect_loop obj_cast on_equal k m u = loop_result on_equal u' L' R'.
Proof.
  revert u L R. induction n as [| n IH]; intros u L R Hn H HL HR.
  1: exists L, R, u; destruct L, R; try (cbn in Hn; lia);
    (split; [constructor; by left | split; [done |]]); exists 1%nat; intros [| k] m Hk Hm; [lia |];
    apply (intersect_stop _ _ _ _ [] []); auto.
  destruct (decide (L = [] \/ R = [])) as [Hend | Hend].
  { exists L, R, u. split; [by constructor | split; [done |]]. exists 1%nat. intros [| k] m Hk Hm; [lia |].
    rewrite (intersect_stop _ _ _ _ L R) by done. by destruct L, R, Hend. }
  destruct L as [| x L]; [tauto |]. destruct R as [| y R]; [tauto |].
  pose proof HL as [[Hx HL']%Forall_cons _]. pose proof HR as [[Hy HR']%Forall_cons _].
  destruct (Z.lt_total (cmp x y) 0) as [Hlt | [Heq | Hgt]].
  - destruct (drop_left obj_cast D descs cmp _ dl u x L (y :: R) H Hx HL') as (u1 & u2 & Hs & [N1 H1] & H2).
    destruct (IH u2 (skip cmp x L) (y :: R)) as (L' & R' & u' & Hsk & Hst & N & HN);
      [pose proof (skip_length cmp x L); cbn in *; lia | done | by eapply rows_ok_skip | done |].
    exists L', R', u'. split; [by apply seek_left | split; [done |]]. exists (S (N `max` N1)). intros [| k] m Hk Hm; [lia |].
    rewrite (intersect_compare _ _ _ _ x y L R) by done. rewrite (proj2 (Z.ltb_lt _ _) Hlt), Hs. cbn.
    rewrite H1 by lia. cbn. apply HN; lia.
  - exists (x :: L), (y :: R), u. split; [by apply seek_equal | split; [done |]]. exists 1%nat. intros [| k] m Hk Hm; [lia |].
    rewrite (intersect_compare _ _ _ _ x y L R) by done. by rewrite Heq.
  - destruct (drop_right obj_cast D descs cmp _ dl u y (x :: L) R H Hy HR') as (u1 & u2 & Hs & [N1 H1] & H2).
    destruct (IH u2 (x :: L) (skip cmp y R)) as (L' & R' & u' & Hsk & Hst & N & HN);
      [pose proof (skip_length cmp y R); cbn in *; lia | done | done | by eapply rows_ok_skip |].
    exists L', R', u'. split; [by apply seek_right | split; [done |]]. exists (S (N `max` N1)). intros [| k] m Hk Hm; [lia |].
    rewrite (intersect_compare _ _ _ _ x y L R) by done. rewrite (proj2 (Z.ltb_ge _ _)), (proj2 (Z.eqb_neq _ _)), Hs by lia.
    cbn. rewrite H1 by lia. cbn. apply HN; lia.
Qed.

Lemma stands_children_ret u L R : pair_stands is_distinct dl u L R -> children_ret u = OB_SUCCESS.
Proof.
  intros (_ & (l & _ & Cl) & (r & _ & Cr)). unfold children_ret.
  destruct L as [| x L], R as [| y R]; cbn in Cl, Cr; destruct_and?; simplify_eq;
    repeat match goal with H : left_ret_ u = _ |- _ => rewrite H; clear H
                         | H : right_ret_ u = _ |- _ => rewrite H; clear H end; done.
Qed.

(** Rows given again as they are fetched: the call stands at [L] and [R], and
    returns what the loop finds. *)
Lemma loop_settles (fetch : nat -> ObMergePair C -> option (ObMergePair C)) on_equal u u1 L R :
  settles (fun m => fetch m u) u1 -> pair_stands is_distinct dl u1 L R -> rows_ok D cmp L -> rows_ok D cmp R ->
  exists L' R' u', seek cmp L R L' R' /\ pair_stands is_distinct dl u' L' R' /\
    forall res, loop_result on_equal u' L' R' = Some res ->
      settles (fun m => u ← fetch m u ;
        if children_ret u =? OB_SUCCESS then intersect_loop obj_cast on_equal m m u else Some (children_ret u, None, u)) res.
Proof.
  intros Hf Hst HL HR. destruct (loop_seek _ on_equal u1 L R (le_n _) Hst HL HR) as (L' & R' & u' & Hsk & Hst' & N & HN).
  exists L', R', u'. split; [done | split; [done |]]. intros res Hres. eapply settles_bind; [exact Hf |].
  rewrite (stands_children_ret u1 L R) by done. cbn. exists N. intros m Hm. by rewrite HN.
Qed.

Lemma fetch_stands u L R :
  pair_inv is_distinct dl u -> (exists l, left_op_ (base_ u) = Some l /\ runs l L OB_ITER_END) ->
  (exists r, right_op_ (base_ u) = Some r /\ runs r R OB_ITER_END) ->
  exists u', settles (fun m => fetch m u) u' /\ pair_stands is_distinct dl u' L R.
Proof.
  intros Hi Hl Hr. destruct (next_left_stands _ dl u L Hi Hl) as (u1 & H1 & Hi1 & Hl1 & _ & Er & _).
  destruct (next_right_stands is_distinct dl u1 R Hi1) as (u2 & H2 & Hi2 & Hr2 & Hl2 & _); [by rewrite Er |].
  exists u2. split; [by eapply settles_bind |]. split; auto.
Qed.

Lemma seek_rows_ok L R L' R' :
  seek cmp L R L' R' -> rows_ok D cmp L -> rows_ok D cmp R -> rows_ok D cmp L' /\ rows_ok D cmp R'.
Proof. intros Hs. apply (seek_keeps cmp); [apply rows_ok_skip | done]. Qed.

Lemma seek_length L R L' R' : seek cmp L R L' R' -> (length L' + length R' <= length L + length R)%nat.
Proof.
  induction 1 as [| | x L y R L' R' _ _ IH | x L y R L' R' _ _ IH]; [done | done | |];
    [pose proof (skip_length cmp x L) | pose proof (skip_length cmp y R)]; cbn in *; lia.
Qed.

(** At the end of the search either a side is empty or the heads are equal. *)
Lemma seek_done L R L' R' :
  seek cmp L R L' R' -> (L' = [] \/ R' = []) \/
  exists x L1 y R1, L' = x :: L1 /\ R' = y :: R1 /\ cmp x y = 0.
Proof. induction 1; eauto 10. Qed.
End Loop.

(** ** The rows given *)

Section Rows.
Context {C : Type} `{!ObPhyOperator C}.
Context (obj_cast : ObObjType -> ObObjType -> ObExprObj -> option (Z * ObExprObj)).
Context (D : ObRow -> Prop) (descs : ObRowDesc -> Prop) (cmp : ObRow -> ObRow -> Z) `{!RowOrder obj_cast D descs cmp}.
Context (dl : ObRowDesc).
Implicit Types (u : ObMergePair C) (L R : list ObRow).

Let intersect := intersect_operator (C := C) obj_cast true true.

(** The left rows with an equal right row, each class once: [copies] of the
    occurrences on both sides. *)
Definition intersect_spec (copies : nat -> nat) L R (out : list ObRow) : Prop :=
  sublist out L /\ forall x, D x -> count cmp x out = copies (count cmp x L `min` count cmp x R)%nat.

Lemma intersect_spec_nil copies L R L' R' :
  copies 0%nat = 0%nat -> rows_ok D cmp L -> rows_ok D cmp R -> seek cmp L R L' R' -> L' = [] \/ R' = [] ->
  intersect_spec copies L R [].
Proof.
  intros H0 HL HR Hs Hend. split; [apply sublist_nil_l |]. intros x Hx.
  rewrite (seek_count D cmp x L R L' R') by done. destruct Hend as [-> | ->]; cbn; by rewrite ?Nat.min_0_r.
Qed.

Lemma output_equal_ready u x y L R :
  pair_stands true dl u (x :: L) (y :: R) -> rows_ok D cmp (x :: L) -> rows_ok D cmp (y :: R) ->
  exists u' u2, output_equal u = Some (OB_SUCCESS, Some x, u') /\ lends (ObPhyOperator0 := intersect) u' x /\
    get_next_row_func_ u' = Some true /\
    settles (fun m => fetch_distinct obj_cast m u') u2 /\ pair_stands true dl u2 (skip cmp x L) (skip cmp y R).
Proof.
  intros H [[Hx HL]%Forall_cons _] [[Hy HR]%Forall_cons _].
  destruct (save_both obj_cast D descs cmp true dl (set_got u) x y L R)
    as (u1 & u' & Hs1 & Hs2 & Hst & D1 & E1 & D2 & E2 & Hgot); [| done | done |].
  { destruct H as ([] & Hl & Hr). split; [done | split; done]. }
  destruct (distinct_both obj_cast D descs cmp true dl u' x y L R Hst) as (v1 & v2 & Hv1 & Hv2 & Hv); try done.
  exists u', v2. conjs; [| by eapply pair_lends | apply Hst | | done].
  - unfold output_equal. rewrite Hs1. cbn. rewrite Hs2. cbn.
    destruct H as (_ & (l & _ & _ & -> & _) & _). done.
  - unfold fetch_distinct. rewrite Hgot. cbn. by eapply settles_bind.
Qed.

(** One class of rows goes out: the head's. *)
Lemma distinct_spec_step x y L R out :
  rows_ok D cmp (x :: L) -> rows_ok D cmp (y :: R) -> cmp x y = 0 ->
  intersect_spec (Nat.min 1) (skip cmp x L) (skip cmp y R) out -> intersect_spec (Nat.min 1) (x :: L) (y :: R) (x :: out).
Proof.
  intros HL HR Exy [Hsub Hc]. split.
  - apply sublist_skip. etrans; [exact Hsub | apply skip_sublist].
  - intros w Hw. pose proof HL as [[Hx _]%Forall_cons _]. pose proof HR as [[Hy _]%Forall_cons _].
    rewrite count_cons, Hc, (count_drop D cmp w x), (count_drop D cmp w y) by done. pose proof (cmp_eq_l D cmp x y w Hx Hy Hw Exy).
    rewrite !count_cons. destruct (decide (cmp x w = 0)), (decide (cmp y w = 0)); lia.
Qed.

Lemma all_spec_step x y L R out :
  rows_ok D cmp (x :: L) -> rows_ok D cmp (y :: R) -> cmp x y = 0 ->
  intersect_spec id L R out -> intersect_spec id (x :: L) (y :: R) (x :: out).
Proof.
  intros HL HR Exy [Hsub Hc]. split; [by apply sublist_skip |].
  intros w Hw. pose proof HL as [[Hx _]%Forall_cons _]. pose proof HR as [[Hy _]%Forall_cons _].
  rewrite !count_cons, Hc by done. pose proof (cmp_eq_l D cmp x y w Hx Hy Hw Exy). unfold id.
  destruct (decide (cmp x w = 0)), (decide (cmp y w = 0)); lia.
Qed.

Lemma intersect_spec_seek copies L R L' R' out :
  rows_ok D cmp L -> rows_ok D cmp R -> seek cmp L R L' R' -> intersect_spec copies L' R' out ->
  intersect_spec copies L R out.
Proof.
  intros HL HR Hs [Hsub Hc]. split; [etrans; [exact Hsub | by eapply seek_sublist] |].
  intros x Hx. by rewrite Hc, (seek_count D cmp x L R L' R').
Qed.

Lemma intersect_distinct_runs n u u1 L R :
  (length L + length R <= n)%nat -> get_next_row_func_ u = Some true ->
  settles (fun m => fetch_distinct obj_cast m u) u1 -> pair_stands true dl u1 L R ->
  rows_ok D cmp L -> rows_ok D cmp R ->
  exists out, runs (ObPhyOperator0 := intersect) u out OB_ITER_END /\ intersect_spec (Nat.min 1) L R out.
Proof.
  revert u u1 L R. induction n as [| n IH]; intros u u1 L R Hn Hf Hs Hst HL HR;
    destruct (loop_settles obj_cast D descs cmp true dl (fetch_distinct obj_cast) output_equal u u1 L R Hs Hst HL HR)
      as (L' & R' & u2 & Hsk & Hst2 & Hres);
    destruct (seek_rows_ok D cmp L R L' R' Hsk HL HR) as [HL' HR'];
    pose proof (seek_length cmp L R L' R' Hsk) as Hlen;
    destruct (seek_done cmp L R L' R' Hsk) as [Hend | (x & L1 & y & R1 & -> & -> & Exy)].
  2: cbn in Hlen; lia.
  1, 2: exists []; split; [| by eapply intersect_spec_nil]; eapply runs_stop; [done |];
    unfold next; cbn; unfold intersect_get_next_row; rewrite Hf; apply Hres; by destruct L', R', Hend.
  destruct (output_equal_ready u2 x y L1 R1 Hst2 HL' HR') as (u3 & u4 & Ho & Hlend & Hf3 & Hs4 & Hst4).
  destruct (IH u3 u4 (skip cmp x L1) (skip cmp y R1)) as (out & Hr & Hspec);
    [pose proof (skip_length cmp x L1); pose proof (skip_length cmp y R1); cbn in Hlen; lia | done .. | | |];
    [by eapply rows_ok_skip .. |].
  exists (x :: out). split.
  - eapply runs_row; [| exact Hlend | exact Hr]. unfold next; cbn. unfold intersect_get_next_row. rewrite Hf. by apply Hres.
  - eapply intersect_spec_seek; [done | done | exact Hsk |]. by apply distinct_spec_step.
Qed.

Lemma intersect_all_runs n u L R :
  (length L + length R <= n)%nat -> pair_inv false dl u ->
  (exists l, left_op_ (base_ u) = Some l /\ runs l L OB_ITER_END) ->
  (exists r, right_op_ (base_ u) = Some r /\ runs r R OB_ITER_END) ->
  rows_ok D cmp L -> rows_ok D cmp R ->
  exists out, runs (ObPhyOperator0 := intersect) u out OB_ITER_END /\ intersect_spec id L R out.
Proof.
  revert u L R. induction n as [| n IH]; intros u L R Hn Hi Hl Hr HL HR;
    destruct (fetch_stands false dl u L R Hi Hl Hr) as (u1 & Hs & Hst);
    destruct (loop_settles obj_cast D descs cmp false dl fetch (fun u => Some (OB_SUCCESS, cur_first_query_row_ u, u))
      u u1 L R Hs Hst HL HR) as (L' & R' & u2 & Hsk & Hst2 & Hres);
    destruct (seek_rows_ok D cmp L R L' R' Hsk HL HR) as [HL' HR'];
    pose proof (seek_length cmp L R L' R' Hsk) as Hlen;
    destruct (seek_done cmp L R L' R' Hsk) as [Hend | (x & L1 & y & R1 & -> & -> & Exy)].
  2: cbn in Hlen; lia.
  1, 2: exists []; split; [| by eapply intersect_spec_nil]; eapply runs_stop; [done |];
    unfold next; cbn; unfold intersect_get_next_row; rewrite (pi_func _ _ _ Hi); apply Hres; by destruct L', R', Hend.
  pose proof Hst2 as (Hi2 & (l2 & El2 & _ & Hrow & _ & Rl2) & (r2 & Er2 & _ & _ & _ & Rr2)).
  destruct (IH u2 L1 R1) as (out & Hout & Hspec);
    [cbn in Hlen; lia | done | by exists l2 | by exists r2 | by eapply rows_ok_tail | by eapply rows_ok_tail |].
  exists (x :: out). split.
  - eapply runs_row; [| | exact Hout].
    + unfold next; cbn. unfold intersect_get_next_row. rewrite (pi_func _ _ _ Hi). apply Hres. cbn. by rewrite Hrow.
    + by eapply pair_lends.
  - eapply intersect_spec_seek; [done | done | exact Hsk |]. by apply all_spec_step.
Qed.
End Rows.

(** ** Theorems *)

(** INTERSECT DISTINCT over rows the comparison orders. *)
Lemma intersect_distinct_ordered {C} `{!ObPhyOperator C} obj_cast D descs cmp (l r : C) dl dr L R
    (Hord : RowOrder obj_cast D descs cmp)
    (Hl : gives l dl L OB_ITER_END) (Hr : gives r dr R OB_ITER_END) (Hcols : 0 < get_column_num dl)
    (HL : rows_ok D cmp L) (HR : rows_ok D cmp R) :
  exists out,
    gives (ObPhyOperator0 := intersect_operator obj_cast true true) (pair_over l r true) dl out OB_ITER_END /\
    sublist out L /\
    forall x, D x -> count cmp x out = (1 `min` (count cmp x L `min` count cmp x R))%nat.
Proof.
  destruct Hl as (l1 & Ol & Dl & DL & RL), Hr as (r1 & Or & Dr & DR & RR).
  destruct (pair_open_spec true dl l r l1 r1 dr Ol Or Dl Dr) as (u & Hu & Hi & Hgot & El & Er).
  destruct (fetch_stands true dl u L R Hi) as (u1 & Hs & Hst); [by exists l1 | by exists r1 |].
  destruct (intersect_distinct_runs obj_cast D descs cmp dl (length L + length R) u u1 L R)
    as (out & Hrun & Hsub & Hc); try done.
  - apply Hi.
  - unfold fetch_distinct. by rewrite Hgot.
  - exists out. split; [| done]. exists u. conjs; [exact Hu | by apply (pair_row_desc true) | | done].
    by eapply sublist_Forall.
Qed.

(** C23: INTERSECT DISTINCT.  Over two children that give sorted rows of the same
    typed, non-null columns, the opened operator gives, in the order of the left
    child and under its description, one row of each class of equal rows that
    both children have, and no other, and then [OB_ITER_END]. *)
Theorem intersect_distinct {C} `{!ObPhyOperator C} obj_cast ks (l r : C) dl dr L R
    (Hl : gives l dl L OB_ITER_END) (Hr : gives r dr R OB_ITER_END) (Hcols : 0 < get_column_num dl)
    (HL : rows_ok (typed_row ks) rows_compare L) (HR : rows_ok (typed_row ks) rows_compare R) :
  exists out,
    gives (ObPhyOperator0 := intersect_operator obj_cast true true) (pair_over l r true) dl out OB_ITER_END /\
    sublist out L /\
    forall x, typed_row ks x -> count rows_compare x out = (1 `min` (count rows_compare x L `min` count rows_compare x R))%nat.
Proof. by apply (intersect_distinct_ordered obj_cast (typed_row ks) (typed_desc ks) rows_compare l r dl dr L R _). Qed.

Lemma intersect_distinct_witness :
  exists out, gives (ObPhyOperator0 := intersect_operator (fun _ _ _ => None) true true)
      (pair_over (int_scan 16 [1; 1; 2; 3]) (int_scan 17 [1; 1; 3; 4]) true) (int_desc 16) out OB_ITER_END /\
    sublist out (map (int_row 16) [1; 1; 2; 3]) /\ count rows_compare (int_row 16 1) out = 1%nat.
Proof.
  assert (H16 : valid_column_id 16) by (split; vm_compute; intuition congruence).
  assert (H17 : valid_column_id 17) by (split; vm_compute; intuition congruence).
  destruct (intersect_distinct (fun _ _ _ => None) int_column _ _ _ (int_desc 17) _ _ (int_scan_gives 16 [1; 1; 2; 3])
    (int_scan_gives 17 [1; 1; 3; 4])) as (out & H & Hsub & Hc).
  - rewrite int_desc_num. lia.
  - apply int_rows_ok; [done | | ]; repeat constructor; vm_compute; congruence.
  - apply int_rows_ok; [done | | ]; repeat constructor; vm_compute; congruence.
  - exists out. conjs; [done | done |]. rewrite Hc by (apply int_row_typed; [done | split; vm_compute; congruence]).
    cbn [map]. rewrite !count_cons, !int_row_compare. reflexivity.
Defined.

(** INTERSECT ALL over rows the comparison orders. *)
Lemma intersect_all_ordered {C} `{!ObPhyOperator C} obj_cast D descs cmp (l r : C) dl dr L R
    (Hord : RowOrder obj_cast D descs cmp)
    (Hl : gives l dl L OB_ITER_END) (Hr : gives r dr R OB_ITER_END) (Hcols : 0 < get_column_num dl)
    (HL : rows_ok D cmp L) (HR : rows_ok D cmp R) :
  exists out,
    gives (ObPhyOperator0 := intersect_operator obj_cast true true) (pair_over l r false) dl out OB_ITER_END /\
    sublist out L /\
    forall x, D x -> count cmp x out = (count cmp x L `min` count cmp x R)%nat.
Proof.
  destruct Hl as (l1 & Ol & Dl & DL & RL), Hr as (r1 & Or & Dr & DR & RR).
  destruct (pair_open_spec false dl l r l1 r1 dr Ol Or Dl Dr) as (u & Hu & Hi & _ & El & Er).
  destruct (intersect_all_runs obj_cast D descs cmp dl (length L + length R) u L R) as (out & Hrun & Hsub & Hc); try done.
  - by exists l1.
  - by exists r1.
  - exists out. split; [| done]. exists u. conjs; [exact Hu | by apply (pair_row_desc false) | | done].
    by eapply sublist_Forall.
Qed.

(** C26: INTERSECT ALL.  Over such children the operator gives a sub-sequence of the
    left rows, in which a class of equal rows occurs as often as it occurs in both
    children, the smaller of the two numbers of occurrences. *)
Theorem intersect_all {C} `{!ObPhyOperator C} obj_cast ks (l r : C) dl dr L R
    (Hl : gives l dl L OB_ITER_END) (Hr : gives r dr R OB_ITER_END) (Hcols : 0 < get_column_num dl)
    (HL : rows_ok (typed_row ks) rows_compare L) (HR : rows_ok (typed_row ks) rows_compare R) :
  exists out,
    gives (ObPhyOperator0 := intersect_operator obj_cast true true) (pair_over l r false) dl out OB_ITER_END /\
    sublist out L /\
    forall x, typed_row ks x -> count rows_compare x out = (count rows_compare x L `min` count rows_compare x R)%nat.
Proof. by apply (intersect_all_ordered obj_cast (typed_row ks) (typed_desc ks) rows_compare l r dl dr L R _). Qed.

Lemma intersect_all_witness :
  exists out, gives (ObPhyOperator0 := intersect_operator (fun _ _ _ => None) true true)
      (pair_over (int_scan 16 [1; 1; 2; 3]) (int_scan 17 [1; 1; 3; 4]) false) (int_desc 16) out OB_ITER_END /\
    sublist out (map (int_row 16) [1; 1; 2; 3]) /\ count rows_compare (int_row 16 1) out = 2%nat.
Proof.
  assert (H16 : valid_column_id 16) by (split; vm_compute; intuition congruence).
  assert (H17 : valid_column_id 17) by (split; vm_compute; intuition congruence).
  destruct (intersect_all (fun _ _ _ => None) int_column _ _ _ (int_desc 17) _ _ (int_scan_gives 16 [1; 1; 2; 3])
    (int_scan_gives 17 [1; 1; 3; 4])) as (out & H & Hsub & Hc).
  - rewrite int_desc_num. lia.
  - apply int_rows_ok; [done | | ]; repeat constructor; vm_compute; congruence.
  - apply int_rows_ok; [done | | ]; repeat constructor; vm_compute; congruence.
  - exists out. conjs; [done | done |]. rewrite Hc by (apply int_row_typed; [done | split; vm_compute; congruence]).
    cbn [map]. rewrite !count_cons, !int_row_compare. reflexivity.
Defined.
