(* ===== verification/MergeExcept.v ===== *)
(** * EXCEPT: [sql/ob_merge_except.{h,cpp}]

    Over two sorted children, EXCEPT DISTINCT gives each left row that has no
    equal right row once; EXCEPT ALL takes one left row away for each equal right
    row.  [open] fetches the first row of both children. *)

From S2P Require Import Prelude ObObject ObExprObj ObRowDesc ObRow ObCompactCell PhyOperator SetOperator MergePair.
From Stdlib Require Import Sorted.
Local Open Scope Z_scope.

Section Operations.
Context {C : Type} `{!ObPhyOperator C}.
Context (obj_cast : ObObjType -> ObObjType -> ObExprObj -> option (Z * ObExprObj)).
Implicit Types u : ObMergePair C.

Definition except_open (left_ok right_ok : bool) (fuel : nat) u : option (Z * ObMergePair C) :=
  '(ret, u) ← pair_open left_ok right_ok fuel u ;
  if ret =? OB_SUCCESS then
    u ← next_left fuel u ;
    u ← next_right fuel u ;
    Some (OB_SUCCESS, u)
  else Some (ret, u).

(** The loops of the two functions differ in what they do when a left row goes
    out, [output], and with equal rows, [equal_rows]: a code, and the state to
    go on with when it is a success. *)
Fixpoint except_loop (output : ObMergePair C -> option (Z * option ObRow * ObMergePair C))
    (equal_rows : nat -> ObMergePair C -> option (Z * ObMergePair C)) (k fuel : nat) u
    : option (Z * option ObRow * ObMergePair C) :=
  match k with
  | O => None
  | S k' =>
      if (left_ret_ u =? OB_SUCCESS) && (right_ret_ u =? OB_SUCCESS) then
        row1 ← cur_first_query_row_ u ;
        row2 ← cur_second_query_row_ u ;
        '(ret, cmp) ← row_compare obj_cast row1 row2 ;
        if ret =? OB_SUCCESS then
          if cmp <? 0 then output u
          else if cmp =? 0 then
            '(ret, u) ← equal_rows fuel u ;
            if ret =? OB_SUCCESS then except_loop output equal_rows k' fuel u else Some (ret, None, u)
          else
            '(ret, u) ← save_right u ;
            if ret =? OB_SUCCESS then u ← distinct_right obj_cast fuel u ; except_loop output equal_rows k' fuel u
            else Some (ret, None, u)
        else Some (ret, None, u)
      else if (left_ret_ u =? OB_SUCCESS) && (right_ret_ u =? OB_ITER_END) then output u
      else if (left_ret_ u =? OB_ITER_END) && ((right_ret_ u =? OB_SUCCESS) || (right_ret_ u =? OB_ITER_END)) then
        Some (OB_ITER_END, None, u)
      else Some (OB_ERR_UNEXPECTED, None, u)
  end.

(** [distinct_get_next_row]: the row is saved when it goes out, ... *)
Definition distinct_output u : option (Z * option ObRow * ObMergePair C) :=
  let row := cur_first_query_row_ u in
  '(ret, u) ← save_left (set_got u) ;
  Some (ret, row, u).

(** ... and equal rows are saved and skipped on both sides. *)
Definition distinct_equal (fuel : nat) u : option (Z * ObMergePair C) :=
  '(ret, u) ← save_left u ;
  if ret =? OB_SUCCESS then
    '(ret, u) ← save_right u ;
    if ret =? OB_SUCCESS then
      u ← distinct_left obj_cast fuel u ;
      u ← distinct_right obj_cast fuel u ;
      Some (OB_SUCCESS, u)
    else Some (ret, u)
  else Some (ret, u).

(** [all_get_next_row]: no row is saved, ... *)
Definition all_output u : option (Z * option ObRow * ObMergePair C) :=
  Some (OB_SUCCESS, cur_first_query_row_ u, set_got u).

(** ... and one row of each side is passed over. *)
Definition all_equal (fuel : nat) u : option (Z * ObMergePair C) :=
  u ← next_left fuel u ;
  u ← next_right fuel u ;
  Some (OB_SUCCESS, u).

Definition left_failed u : bool := negb (left_ret_ u =? OB_SUCCESS) && negb (left_ret_ u =? OB_ITER_END).

Definition distinct_get_next_row (fuel : nat) u : option (Z * option ObRow * ObMergePair C) :=
  u ← (if got_first_row_ u then distinct_left obj_cast fuel u else Some u) ;
  if got_first_row_ u && left_failed u then Some (left_ret_ u, None, u)
  else except_loop distinct_output distinct_equal fuel fuel u.

Definition all_get_next_row (fuel : nat) u : option (Z * option ObRow * ObMergePair C) :=
  u ← (if got_first_row_ u then next_left fuel u else Some u) ;
  if got_first_row_ u && left_failed u then Some (left_ret_ u, None, u)
  else except_loop all_output all_equal fuel fuel u.

Definition except_get_next_row (fuel : nat) u : option (Z * option ObRow * ObMergePair C) :=
  is_distinct ← get_next_row_func_ u ;
  if (is_distinct : bool) then distinct_get_next_row fuel u else all_get_next_row fuel u.
End Operations.

#[export] Instance except_operator {C} `{!ObPhyOperator C} obj_cast left_ok right_ok
    : ObPhyOperator (ObMergePair C) := {
  op_open := except_open left_ok right_ok;
  op_close := pair_close;
  op_get_next_row := except_get_next_row obj_cast;
  op_get_row_desc := pair_get_row_desc;
  op_row_set_desc := pair_row_set_desc
}.

(** ** Passing over the right rows *)

Section Pass.
Context (D : ObRow -> Prop) (cmp : ObRow -> ObRow -> Z) `{!CmpOrder D cmp} (is_distinct : bool).
Implicit Types L R : list ObRow.

(** The rows of a side after its head [x] was taken. *)
Definition after (x : ObRow) (l : list ObRow) : list ObRow := if is_distinct then skip cmp x l else l.

Inductive pass : list ObRow -> list ObRow -> list ObRow -> list ObRow -> Prop :=
| pass_end L R : L = [] \/ R = [] -> pass L R L R
| pass_below x L y R : cmp x y < 0 -> pass (x :: L) (y :: R) (x :: L) (y :: R)
| pass_equal x L y R L' R' : cmp x y = 0 -> pass (after x L) (after y R) L' R' -> pass (x :: L) (y :: R) L' R'
| pass_above x L y R L' R' : 0 < cmp x y -> pass (x :: L) (skip cmp y R) L' R' -> pass (x :: L) (y :: R) L' R'.

(** How many of [a] equal left rows are left by [b] equal right rows. *)
Definition remaining (a b : nat) : nat :=
  if is_distinct then if decide (b = 0%nat) then (1 `min` a)%nat else 0%nat else (a - b)%nat.

Lemma after_rows_ok x y l : rows_ok D cmp (x :: l) -> rows_ok D cmp (after y l).
Proof. unfold after. destruct is_distinct; [apply rows_ok_skip | apply rows_ok_tail]. Qed.

Lemma after_length x l : (length (after x l) <= length l)%nat.
Proof. unfold after. destruct is_distinct; [apply skip_length | done]. Qed.

Lemma after_sublist x l : sublist (after x l) l.
Proof. unfold after. destruct is_distinct; [apply skip_sublist | done]. Qed.

Lemma pass_rows_ok L R L' R' :
  pass L R L' R' -> rows_ok D cmp L -> rows_ok D cmp R -> rows_ok D cmp L' /\ rows_ok D cmp R'.
Proof. induction 1; intros HL HR; eauto using rows_ok_skip, after_rows_ok. Qed.

Lemma pass_length L R L' R' : pass L R L' R' -> (length L' + length R' <= length L + length R)%nat.
Proof.
  induction 1 as [| | x L y R L' R' _ _ IH | x L y R L' R' _ _ IH]; [done | done | |].
  - pose proof (after_length x L). pose proof (after_length y R). cbn in *. lia.
  - pose proof (skip_length cmp y R). cbn in *. lia.
Qed.

Lemma pass_sublist L R L' R' : pass L R L' R' -> sublist L' L.
Proof.
  induction 1 as [| | x L y R L' R' _ _ IH | x L y R L' R' _ _ IH]; [done | done | | done].
  etrans; [exact IH |]. apply sublist_cons, after_sublist.
Qed.

(** Where it stops, the right rows are above the left head. *)
Lemma pass_done x L R L' R' :
  pass L R (x :: L') R' -> rows_ok D cmp L -> rows_ok D cmp R -> Forall (fun z => cmp x z < 0) R'.
Proof.
  remember (x :: L') as X eqn:EX. induction 1 as [L R Hend | x0 L y R Hlt | | ];
    intros HL HR; eauto using rows_ok_skip, after_rows_ok; subst.
  - by destruct Hend as [? | ->].
  - injection EX as -> ->. destruct HL as [[Hx _]%Forall_cons _], HR as [[Hy HR]%Forall_cons SR].
    by apply (sorted_strictly_below D cmp).
Qed.

(** The class of [x] is taken once or, in DISTINCT, as a whole. *)
Lemma count_after w x l : D w -> rows_ok D cmp (x :: l) ->
  count cmp w (after x l) =
  if decide (cmp x w = 0) then if is_distinct then 0%nat else pred (count cmp w (x :: l)) else count cmp w (x :: l).
Proof.
  intros Hw Hl. unfold after. destruct is_distinct; [by apply (count_drop D) |].
  rewrite count_cons. by destruct (decide _).
Qed.

Lemma count_head w x l : cmp x w = 0 -> (0 < count cmp w (x :: l))%nat.
Proof. intros E. rewrite count_cons. destruct (decide _); [lia | done]. Qed.

Lemma pass_count w L R L' R' : D w -> rows_ok D cmp L -> rows_ok D cmp R -> pass L R L' R' ->
  remaining (count cmp w L) (count cmp w R) = remaining (count cmp w L') (count cmp w R').
Proof.
  intros Hw HL HR H. revert HL HR.
  induction H as [| | x L y R L' R' Heq _ IH | x L y R L' R' Hgt _ IH]; intros HL HR; [done | done | |].
  - rewrite <- IH by eauto using after_rows_ok. rewrite !count_after by done.
    pose proof HL as [[Hx _]%Forall_cons _]. pose proof HR as [[Hy _]%Forall_cons _].
    pose proof (cmp_eq_l D cmp x y w Hx Hy Hw Heq). destruct (decide (cmp x w = 0)) as [E |], (decide (cmp y w = 0)) as [E' |];
      try (done || lia).
    pose proof (count_head w x L E). pose proof (count_head w y R E'). unfold remaining.
    destruct is_distinct; [| lia]. destruct (decide _); [lia | done].
  - rewrite <- IH by eauto using rows_ok_skip. rewrite (count_drop D) by done.
    destruct (decide _) as [E |]; [| done]. pose proof HR as [[Hy _]%Forall_cons _]. pose proof HL as [[Hx _]%Forall_cons _].
    rewrite (count_below D cmp w y x L) by (try done; by apply (cmp_neg D cmp)). unfold remaining.
    destruct is_distinct; [| done]. by destruct (decide (count cmp w (y :: R) = 0%nat)).
Qed.

Lemma remaining_head w x L R : D w -> rows_ok D cmp (x :: L) -> rows_ok D cmp R -> Forall (fun z => cmp x z < 0) R ->
  remaining (count cmp w (x :: L)) (count cmp w R) =
  ((if decide (cmp x w = 0)%Z then 1 else 0) + remaining (count cmp w (after x L)) (count cmp w R))%nat.
Proof.
  intros Hw HL [HR _] Hab. rewrite count_after by done. destruct (decide _) as [E |]; [| done].
  pose proof HL as [[Hx _]%Forall_cons _]. rewrite (count_above D cmp w x R) by done.
  pose proof (count_head w x L E). unfold remaining.
  destruct is_distinct; [| lia]. destruct (decide (0%nat = 0%nat)); [lia | done].
Qed.
End Pass.

Section Loop.
Context {C : Type} `{!ObPhyOperator C}.
Context (obj_cast : ObObjType -> ObObjType -> ObExprObj -> option (Z * ObExprObj)).
Context (D : ObRow -> Prop) (descs : ObRowDesc -> Prop) (cmp : ObRow -> ObRow -> Z) `{!RowOrder obj_cast D descs cmp}.
Context (is_distinct : bool) (dl : ObRowDesc).
Implicit Types (u : ObMergePair C) (L R : list ObRow).

Let except := except_operator (C := C) obj_cast true true.

Definition output_of u : option (Z * option ObRow * ObMergePair C) :=
  if is_distinct then distinct_output u else all_output u.
Definition equal_of (fuel : nat) u : option (Z * ObMergePair C) :=
  if is_distinct then distinct_equal obj_cast fuel u else all_equal fuel u.
Definition advance_of (fuel : nat) u : option (ObMergePair C) :=
  if got_first_row_ u then if is_distinct then distinct_left obj_cast fuel u else next_left fuel u else Some u.

Lemma equal_stands u x y L R :
  pair_stands is_distinct dl u (x :: L) (y :: R) -> D x -> D y -> Forall D L -> Forall D R ->
  exists u', settles (fun m => equal_of m u) (OB_SUCCESS, u') /\
    pair_stands is_distinct dl u' (after cmp is_distinct x L) (after cmp is_distinct y R).
Proof.
  intros H Hx Hy HL HR. unfold equal_of, after. destruct is_distinct.
  - destruct (save_both obj_cast D descs cmp true dl u x y L R H Hx Hy) as (u1 & u2 & Hs1 & Hs2 & H2 & D1 & E1 & D2 & E2 & _).
    destruct (distinct_both obj_cast D descs cmp true dl u2 x y L R H2) as (u3 & u4 & Hs3 & Hs4 & H4); try done.
    exists u4. split; [| done]. unfold distinct_equal. rewrite Hs1. cbn. rewrite Hs2. cbn.
    eapply settles_bind; [exact Hs3 |]. eapply settles_bind; [exact Hs4 |]. apply settles_ret.
  - destruct H as (Hi & (l & El & _ & _ & _ & Rl) & (r & Er & _ & _ & _ & Rr)).
    destruct (next_left_stands false dl u L Hi) as (u1 & Hs1 & Hi1 & Hl1 & _ & Eq & _); [by exists l |].
    destruct (next_right_stands false dl u1 R Hi1) as (u2 & Hs2 & Hi2 & Hr2 & Hl2 & _); [exists r; by rewrite Eq |].
    exists u2. split; [| split; auto]. unfold all_equal.
    eapply settles_bind; [exact Hs1 |]. eapply settles_bind; [exact Hs2 |]. apply settles_ret.
Qed.

Lemma output_stands u x L R :
  pair_stands is_distinct dl u (x :: L) R -> D x -> Forall D L ->
  exists u' u2, output_of u = Some (OB_SUCCESS, Some x, u') /\ pair_stands is_distinct dl u' (x :: L) R /\
    settles (fun m => advance_of m u') u2 /\ pair_stands is_distinct dl u2 (after cmp is_distinct x L) R.
Proof.
  intros H Hx HL. unfold output_of, advance_of, after.
  assert (Hrow : cur_first_query_row_ u = Some x) by (by destruct H as (_ & (l & _ & _ & -> & _) & _)).
  assert (Hg : pair_stands is_distinct dl (set_got u) (x :: L) R) by (by destruct H as ([] & ? & ?)).
  destruct is_distinct.
  - destruct (save_left_stands obj_cast D descs cmp true dl (set_got u) x L R Hg Hx) as (u1 & Hs & H1 & D1 & E1 & _ & G1).
    destruct (distinct_left_stands obj_cast D descs cmp true dl u1 x L R H1 Hx D1 E1 HL) as (u2 & Hs2 & H2 & _).
    exists u1, u2. conjs; [| done | | done].
    + unfold distinct_output. rewrite Hs. cbn. by rewrite Hrow.
    + by rewrite G1.
  - destruct Hg as (Hi & (l & El & El' & Er' & Hlend & Rl) & Hr).
    destruct (next_left_stands false dl (set_got u) L Hi) as (u2 & Hs2 & Hi2 & Hl2 & _ & _ & Hr2); [by exists l |].
    exists (set_got u), u2. conjs; [| | done | split; auto].
    + unfold all_output. by rewrite Hrow.
    + split; [done |]. split; [by exists l | done].
Qed.

(** What the loop returns when it stands at [L]. *)
Definition loop_result u L : option (Z * option ObRow * ObMergePair C) :=
  match L with
  | [] => Some (OB_ITER_END, None, u)
  | _ :: _ => output_of u
  end.

Lemma except_stop k fuel u L R :
  pair_stands is_distinct dl u L R -> L = [] \/ R = [] ->
  except_loop obj_cast output_of equal_of (S k) fuel u = loop_result u L.
Proof.
  intros (_ & (l & _ & Cl) & (r & _ & Cr)) H. cbn [except_loop].
  destruct L as [| x L], R as [| y R]; [| | | by destruct H]; cbn in Cl, Cr.
  - by rewrite Cl, Cr.
  - destruct Cr as (-> & _). by rewrite Cl.
  - destruct Cl as (-> & _). by rewrite Cr.
Qed.

Lemma except_compare k fuel u x y L R :
  pair_stands is_distinct dl u (x :: L) (y :: R) -> D x -> D y ->
  except_loop obj_cast output_of equal_of (S k) fuel u =
  if cmp x y <? 0 then output_of u
  else if cmp x y =? 0 then
    '(ret, u) ← equal_of fuel u ;
    if ret =? OB_SUCCESS then except_loop obj_cast output_of equal_of k fuel u else Some (ret, None, u)
  else
    '(ret, u) ← save_right u ;
    if ret =? OB_SUCCESS then u ← distinct_right obj_cast fuel u ; except_loop obj_cast output_of equal_of k fuel u
    else Some (ret, None, u).
Proof.
  intros (_ & (l & _ & El & Rl & _) & (r & _ & Er & Rr & _)) Hx Hy. cbn [except_loop].
  rewrite El, Er, Rl, Rr. cbn [andb Z.eqb]. rewrite !bind_some, ro_compare, bind_some by done. done.
Qed.

Lemma loop_pass n u L R :
  (length L + length R <= n)%nat ->
  pair_stands is_distinct dl u L R -> rows_ok D cmp L -> rows_ok D cmp R ->
  exists L' R' u', pass cmp is_distinct L R L' R' /\ pair_stands is_distinct dl u' L' R' /\
    exists N, forall k m, (N <= k)%nat -> (N <= m)%nat ->
      except_loop obj_cast output_of equal_of k m u = loop_result u' L'.
Proof.
  revert u L R. induction n as [| n IH]; intros u L R Hn H HL HR; destruct (decide (L = [] \/ R = [])) as [Hend | Hend].
  1, 3: exists L, R, u; split; [by constructor | split; [done |]]; exists 1%nat; intros [| k] m Hk Hm; [lia |];
    by apply (except_stop k m u L R).
  { destruct L; [tauto |]. cbn in Hn. lia. }
  destruct L as [| x L]; [tauto |]. destruct R as [| y R]; [tauto |].
  pose proof HL as [[Hx HL']%Forall_cons _]. pose proof HR as [[Hy HR']%Forall_cons _].
  destruct (Z.lt_total (cmp x y) 0) as [Hlt | [Heq | Hgt]].
  - exists (x :: L), (y :: R), u. split; [by apply pass_below | split; [done |]]. exists 1%nat.
    intros [| k] m Hk Hm; [lia |]. rewrite (except_compare _ _ _ x y L R) by done. by rewrite (proj2 (Z.ltb_lt _ _) Hlt).
  - destruct (equal_stands u x y L R H Hx Hy HL' HR') as (u1 & [N1 H1] & Hst1).
    destruct (IH u1 (after cmp is_distinct x L) (after cmp is_distinct y R)) as (L' & R' & u' & Hp & Hst & N & HN);
      [pose proof (after_length cmp is_distinct x L); pose proof (after_length cmp is_distinct y R); cbn in *; lia
      | done | by eapply after_rows_ok .. |].
    exists L', R', u'. split; [by apply pass_equal | split; [done |]]. exists (S (N `max` N1)).
    intros [| k] m Hk Hm; [lia |]. rewrite (except_compare _ _ _ x y L R), Heq by done. cbn [Z.ltb Z.compare Z.eqb].
    rewrite H1 by lia. cbn. apply HN; lia.
  - destruct (drop_right obj_cast D descs cmp _ dl u y (x :: L) R H Hy HR') as (u1 & u2 & Hs & [N1 H1] & H2).
    destruct (IH u2 (x :: L) (skip cmp y R)) as (L' & R' & u' & Hp & Hst & N & HN);
      [pose proof (skip_length cmp y R); cbn in *; lia | done | done | by eapply rows_ok_skip |].
    exists L', R', u'. split; [by apply pass_above | split; [done |]]. exists (S (N `max` N1)).
    intros [| k] m Hk Hm; [lia |]. rewrite (except_compare _ _ _ x y L R) by done.
    rewrite (proj2 (Z.ltb_ge _ _)), (proj2 (Z.eqb_neq _ _)), Hs by lia. cbn. rewrite H1 by lia. cbn. apply HN; lia.
Qed.

Lemma stands_left_ok u L R : pair_stands is_distinct dl u L R -> left_failed u = false.
Proof.
  intros (_ & (l & _ & Cl) & _). unfold left_failed. destruct L; cbn in Cl; [by rewrite Cl | by destruct Cl as (-> & _)].
Qed.

Lemma except_call_settles u u1 L R :
  get_next_row_func_ u = Some is_distinct ->
  settles (fun m => advance_of m u) u1 -> pair_stands is_distinct dl u1 L R -> rows_ok D cmp L -> rows_ok D cmp R ->
  exists L' R' u', pass cmp is_distinct L R L' R' /\ pair_stands is_distinct dl u' L' R' /\
    forall res, loop_result u' L' = Some res -> settles (fun m => except_get_next_row obj_cast m u) res.
Proof.
  intros Hf Hs Hst HL HR. destruct (loop_pass _ u1 L R (le_n _) Hst HL HR) as (L' & R' & u' & Hp & Hst' & N & HN).
  exists L', R', u'. split; [done | split; [done |]]. intros res Hres.
  assert (Hl : settles (fun m => u ← advance_of m u ;
    if got_first_row_ u && left_failed u then Some (left_ret_ u, None, u)
    else except_loop obj_cast output_of equal_of m m u) res).
  { eapply settles_bind; [exact Hs |]. rewrite (stands_left_ok u1 L R), andb_false_r by done.
    exists N. intros m Hm. by rewrite HN. }
  eapply settles_eq; [| exact Hl]. intros m. unfold except_get_next_row, distinct_get_next_row, all_get_next_row,
    advance_of, output_of, equal_of. rewrite Hf. cbn. by destruct is_distinct.
Qed.

Definition except_spec L R (out : list ObRow) : Prop :=
  sublist out L /\
  forall x, D x -> count cmp x out = remaining is_distinct (count cmp x L) (count cmp x R).

Lemma except_runs n u u1 L R :
  (length L + length R <= n)%nat -> get_next_row_func_ u = Some is_distinct ->
  settles (fun m => advance_of m u) u1 -> pair_stands is_distinct dl u1 L R -> rows_ok D cmp L -> rows_ok D cmp R ->
  exists out, runs (ObPhyOperator0 := except) u out OB_ITER_END /\ except_spec L R out.
Proof.
  revert u u1 L R. induction n as [| n IH]; intros u u1 L R Hn Hf Hs Hst HL HR;
    destruct (except_call_settles u u1 L R Hf Hs Hst HL HR) as (L' & R' & u2 & Hp & Hst2 & Hres);
    destruct (pass_rows_ok D cmp is_distinct L R L' R' Hp HL HR) as [HL' HR'];
    pose proof (pass_length cmp is_distinct L R L' R' Hp) as Hlen; destruct L' as [| x L'].
  2: cbn in Hlen; lia.
  1, 2: exists []; split; [eapply runs_stop; [done |]; by apply Hres |]; split; [apply sublist_nil_l |];
    intros w Hw; rewrite (pass_count D cmp is_distinct w L R [] R') by done; unfold remaining;
    destruct is_distinct; [destruct (decide (count cmp w R' = 0%nat)) |]; done.
  pose proof HL' as [[Hx HL1]%Forall_cons _].
  destruct (output_stands u2 x L' R' Hst2 Hx HL1) as (u3 & u4 & Ho & Hst3 & Hs4 & Hst4).
  destruct (IH u3 u4 (after cmp is_distinct x L') R') as (out & Hr & Hsub & Hc);
    [pose proof (after_length cmp is_distinct x L'); cbn in Hlen; lia | apply Hst3 | done | done
    | by eapply after_rows_ok | done |].
  exists (x :: out). split; [| split].
  - eapply runs_row; [by apply Hres | by eapply pair_lends | exact Hr].
  - etrans; [| by eapply pass_sublist]. apply sublist_skip. etrans; [exact Hsub | apply after_sublist].
  - intros w Hw. rewrite (pass_count D cmp is_distinct w L R (x :: L') R') by done.
    rewrite (remaining_head D cmp), count_cons, Hc by (done || by eapply (pass_done D cmp)). done.
Qed.

Lemma except_opened l r l1 r1 dr L R :
  opens l l1 -> opens r r1 ->
  op_get_row_desc l1 = (OB_SUCCESS, Some dl) -> op_get_row_desc r1 = (OB_SUCCESS, Some dr) ->
  runs l1 L OB_ITER_END -> runs r1 R OB_ITER_END ->
  exists u, settles (fun m => except_open true true m (pair_over l r is_distinct)) (OB_SUCCESS, u) /\
    got_first_row_ u = false /\ pair_stands is_distinct dl u L R.
Proof.
  intros Ol Or Dl Dr RL RR.
  destruct (pair_open_spec is_distinct dl l r l1 r1 dr Ol Or Dl Dr) as (u & Hu & Hi & Hgot & El & Er).
  destruct (next_left_stands is_distinct dl u L Hi) as (u1 & Hs1 & Hi1 & Hl1 & G1 & Eq & _); [by exists l1 |].
  destruct (next_right_stands is_distinct dl u1 R Hi1) as (u2 & Hs2 & Hi2 & Hr2 & Hl2 & G2); [exists r1; by rewrite Eq |].
  exists u2. conjs; [| congruence | split; auto].
  unfold except_open. eapply settles_bind; [exact Hu |]. cbn. eapply settles_bind; [exact Hs1 |].
  eapply settles_bind; [exact Hs2 |]. apply settles_ret.
Qed.

Lemma except_gives l r dr L R :
  gives l dl L OB_ITER_END -> gives r dr R OB_ITER_END -> 0 < get_column_num dl ->
  rows_ok D cmp L -> rows_ok D cmp R ->
  exists out, gives (ObPhyOperator0 := except) (pair_over l r is_distinct) dl out OB_ITER_END /\ except_spec L R out.
Proof.
  intros (l1 & Ol & Dl & DL & RL) (r1 & Or & Dr & DR & RR) Hcols HL HR.
  destruct (except_opened l r l1 r1 dr L R Ol Or Dl Dr RL RR) as (u & Hu & Hgot & Hst).
  destruct (except_runs (length L + length R) u u L R) as (out & Hrun & Hsub & Hc); try done.
  - apply Hst.
  - unfold advance_of. rewrite Hgot. apply settles_ret.
  - exists out. split; [| done]. exists u. conjs; [exact Hu | | by eapply sublist_Forall | done].
    apply (pair_row_desc is_distinct); [apply Hst | done].
Qed.
End Loop.

(** ** Theorems *)

(** EXCEPT DISTINCT.  Over two children that give sorted rows of the same typed,
    non-null columns, the opened operator gives, in the order of the left child
    and under its description, one row of each class of equal left rows that has
    no equal right row, and no other, and then [OB_ITER_END]. *)
Theorem except_distinct {C} `{!ObPhyOperator C} obj_cast ks (l r : C) dl dr L R
    (Hl : gives l dl L OB_ITER_END) (Hr : gives r dr R OB_ITER_END) (Hcols : 0 < get_column_num dl)
    (HL : rows_ok (typed_row ks) rows_compare L) (HR : rows_ok (typed_row ks) rows_compare R) :
  exists out,
    gives (ObPhyOperator0 := except_operator obj_cast true true) (pair_over l r true) dl out OB_ITER_END /\
    sublist out L /\
    forall x, typed_row ks x -> count rows_compare x out = if decide (count rows_compare x R = 0%nat) then (1 `min` count rows_compare x L)%nat else 0%nat.
Proof. exact (except_gives obj_cast (typed_row ks) (typed_desc ks) rows_compare true dl l r dr L R Hl Hr Hcols HL HR). Qed.

Lemma except_distinct_witness :
  exists out, gives (ObPhyOperator0 := except_operator (fun _ _ _ => None) true true)
      (pair_over (int_scan 16 [1; 1; 2; 2]) (int_scan 17 [1; 3]) true) (int_desc 16) out OB_ITER_END /\
    sublist out (map (int_row 16) [1; 1; 2; 2]) /\ count rows_compare (int_row 16 2) out = 1%nat.
Proof.
  assert (H16 : valid_column_id 16) by (split; vm_compute; intuition congruence).
  assert (H17 : valid_column_id 17) by (split; vm_compute; intuition congruence).
  destruct (except_distinct (fun _ _ _ => None) int_column _ _ _ (int_desc 17) _ _ (int_scan_gives 16 [1; 1; 2; 2])
    (int_scan_gives 17 [1; 3])) as (out & H & Hsub & Hc).
  - rewrite int_desc_num. lia.
  - apply int_rows_ok; [done | | ]; repeat constructor; vm_compute; congruence.
  - apply int_rows_ok; [done | | ]; repeat constructor; vm_compute; congruence.
  - exists out. conjs; [done | done |]. rewrite Hc by (apply int_row_typed; [done | split; vm_compute; congruence]).
    cbn [map]. rewrite !count_cons, !int_row_compare. reflexivity.
Defined.

(** C24: EXCEPT ALL.  Over two children that give sorted rows of the same typed,
    non-null columns, the operator gives a sub-sequence of the left rows, in which
    each equal right row has taken one left row of a class away. *)
Theorem except_all {C} `{!ObPhyOperator C} obj_cast ks (l r : C) dl dr L R
    (Hl : gives l dl L OB_ITER_END) (Hr : gives r dr R OB_ITER_END) (Hcols : 0 < get_column_num dl)
    (HL : rows_ok (typed_row ks) rows_compare L) (HR : rows_ok (typed_row ks) rows_compare R) :
  exists out,
    gives (ObPhyOperator0 := except_operator obj_cast true true) (pair_over l r false) dl out OB_ITER_END /\
    sublist out L /\
    forall x, typed_row ks x -> count rows_compare x out = (count rows_compare x L - count rows_compare x R)%nat.
Proof. exact (except_gives obj_cast (typed_row ks) (typed_desc ks) rows_compare false dl l r dr L R Hl Hr Hcols HL HR). Qed.

Lemma except_all_witness :
  exists out, gives (ObPhyOperator0 := except_operator (fun _ _ _ => None) true true)
      (pair_over (int_scan 16 [1; 1; 2; 2]) (int_scan 17 [1; 3]) false) (int_desc 16) out OB_ITER_END /\
    sublist out (map (int_row 16) [1; 1; 2; 2]) /\ count rows_compare (int_row 16 1) out = 1%nat.
Proof.
  assert (H16 : valid_column_id 16) by (split; vm_compute; intuition congruence).
  assert (H17 : valid_column_id 17) by (split; vm_compute; intuition congruence).
  destruct (except_all (fun _ _ _ => None) int_column _ _ _ (int_desc 17) _ _ (int_scan_gives 16 [1; 1; 2; 2])
    (int_scan_gives 17 [1; 3])) as (out & H & Hsub & Hc).
  - rewrite int_desc_num. lia.
  - apply int_rows_ok; [done | | ]; repeat constructor; vm_compute; congruence.
  - apply int_rows_ok; [done | | ]; repeat constructor; vm_compute; congruence.
  - exists out. conjs; [done | done |]. rewrite Hc by (apply int_row_typed; [done | split; vm_compute; congruence]).
    cbn [map]. rewrite !count_cons, !int_row_compare. reflexivity.
Defined.
