(* ===== verification/SingleChild.v ===== *)
(** * Operators with one child: [sql/ob_single_child_phy_operator.cpp] *)

From S2P Require Import Prelude ObRow PhyOperator.
Local Open Scope Z_scope.

Section SingleChild.
Context {C : Type} `{!ObPhyOperator C}.

(** The code and [child_op_]. *)
Definition single_set_child (child_op : option C) (child_idx : Z) (child : C) : Z * option C :=
  match child_op with
  | Some _ => (OB_INIT_TWICE, child_op)
  | None => if child_idx =? 0 then (OB_SUCCESS, Some child) else (OB_INVALID_ARGUMENT, child_op)
  end.

Definition single_open (fuel : nat) (child_op : option C) : option (Z * option C) :=
  match child_op with
  | None => Some (OB_NOT_INIT, None)
  | Some c => '(ret, c) ← op_open fuel c ; Some (ret, Some c)
  end.

Definition single_close (child_op : option C) : option (Z * option C) :=
  match child_op with
  | None => Some (OB_SUCCESS, None)
  | Some c => '(ret, c) ← op_close c ; Some (ret, Some c)
  end.
End SingleChild.
