(* ===== verification/Limit.v ===== *)
(** * LIMIT: [sql/ob_limit.{h,cpp}]

    The operator skips the first [offset_] rows of its child and gives at most
    [limit_] of the others; [limit_ = -1] is no limit.  Both are the values of
    SQL expressions, evaluated by [open]. *)

From S2P Require Import Prelude ObObject ObRowDesc ObRow PhyOperator SetOperator SingleChild.
Local Open Scope Z_scope.

Record ObLimit (C : Type) := mkLimit {
  child_op_ : option C;
  org_limit_ : option (Z * ObObj);
  org_offset_ : option (Z * ObObj);
  is_instantiated_ : bool;
  limit_ : Z;
  offset_ : Z;
  input_count_ : Z;
  output_count_ : Z
}.
Arguments mkLimit {C}.
Arguments child_op_ {C}.
Arguments org_limit_ {C}.
Arguments org_offset_ {C}.
Arguments is_instantiated_ {C}.
Arguments limit_ {C}.
Arguments offset_ {C}.
Arguments input_count_ {C}.
Arguments output_count_ {C}.

Section Operations.
Context {C : Type} `{!ObPhyOperator C}.
(** [obj_cast] of an object to an int. *)
Context (cast_to_int : ObObj -> Z * ObObj).
Implicit Types u : ObLimit C.

Definition ObLimit_new : ObLimit C := mkLimit None None None false (-1) 0 0 0.

Definition limit_reset u : ObLimit C := ObLimit_new.

Definition limit_set_child u (child_idx : Z) (child : C) : Z * ObLimit C :=
  let '(ret, c) := single_set_child (child_op_ u) child_idx child in
  (ret, mkLimit c (org_limit_ u) (org_offset_ u) (is_instantiated_ u) (limit_ u) (offset_ u) (input_count_ u)
          (output_count_ u)).

(** An expression is [None] when it is empty, and otherwise the code and the
    object [calc] returns for it. *)
Definition set_limit u (limit offset : option (Z * ObObj)) : ObLimit C :=
  mkLimit (child_op_ u) limit offset (is_instantiated_ u) (limit_ u) (offset_ u) (input_count_ u) (output_count_ u).

(** The code and [out_val], which keeps its value for an empty expression. *)
Definition get_int_value (in_val : option (Z * ObObj)) (out_val : Z) : Z * Z :=
  match in_val with
  | None => (OB_SUCCESS, out_val)
  | Some (ret, result) =>
      if negb (ret =? OB_SUCCESS) then (ret, out_val)
      else
        let '(ret, result) := if type_eqb (type_ result) ObIntType then (OB_SUCCESS, result) else cast_to_int result in
        if ret =? OB_SUCCESS then
          match get_int result with
          | Some (v, _) => (OB_SUCCESS, v)
          | None => (OB_OBJ_TYPE_ERROR, out_val)
          end
        else (ret, out_val)
  end.

(** The code, [limit] and [offset]. *)
Definition get_limit u : Z * (Z * Z) :=
  let checked limit offset :=
    if (limit <? -1) || (offset <? 0) then (OB_INVALID_ARGUMENT, (limit, offset)) else (OB_SUCCESS, (limit, offset)) in
  if is_instantiated_ u then checked (-1) 0
  else
    let '(ret, limit) := get_int_value (org_limit_ u) (-1) in
    if ret =? OB_SUCCESS then
      let '(ret, offset) := get_int_value (org_offset_ u) 0 in
      if ret =? OB_SUCCESS then checked limit offset else (ret, (limit, offset))
    else (ret, (limit, 0)).

Definition limit_open (fuel : nat) u : option (Z * ObLimit C) :=
  '(ret, c) ← single_open fuel (child_op_ u) ;
  let u := mkLimit c (org_limit_ u) (org_offset_ u) (is_instantiated_ u) (limit_ u) (offset_ u) 0 0 in
  if ret =? OB_SUCCESS then
    let '(ret, (limit, offset)) := get_limit u in
    Some (ret, mkLimit (child_op_ u) (org_limit_ u) (org_offset_ u)
      (if ret =? OB_SUCCESS then true else is_instantiated_ u) limit offset (input_count_ u) (output_count_ u))
  else Some (ret, u).

Definition limit_close u : option (Z * ObLimit C) :=
  '(ret, c) ← single_close (child_op_ u) ;
  Some (ret, mkLimit c (org_limit_ u) (org_offset_ u) false (limit_ u) (offset_ u) (input_count_ u) (output_count_ u)).

Definition limit_get_row_desc u : Z * option ObRowDesc :=
  match child_op_ u with
  | Some c => if offset_ u <? 0 then (OB_NOT_INIT, None) else op_get_row_desc c
  | None => (OB_NOT_INIT, None)
  end.

Definition with_child u (c : C) (input_count output_count : Z) : ObLimit C :=
  mkLimit (Some c) (org_limit_ u) (org_offset_ u) (is_instantiated_ u) (limit_ u) (offset_ u) input_count output_count.

(** The loop over the rows before the offset; [k] bounds its rounds. *)
Fixpoint skip_loop (k fuel : nat) u : option (Z * ObLimit C) :=
  match k with
  | O => None
  | S k' =>
      if input_count_ u <? offset_ u then
        c ← child_op_ u ;
        '(ret, _, c) ← child_next fuel c None ;
        if ret =? OB_SUCCESS then skip_loop k' fuel (with_child u c (input_count_ u + 1) (output_count_ u))
        else Some (ret, with_child u c (input_count_ u) (output_count_ u))
      else Some (OB_SUCCESS, u)
  end.

Definition limit_get_next_row (fuel : nat) u : option (Z * option ObRow * ObLimit C) :=
  match child_op_ u with
  | None => Some (OB_NOT_INIT, None, u)
  | Some _ =>
      if offset_ u <? 0 then Some (OB_NOT_INIT, None, u)
      else
        '(ret, u) ← skip_loop fuel fuel u ;
        if ret =? OB_SUCCESS then
          if (output_count_ u <? limit_ u) || (limit_ u <? 0) then
            c ← child_op_ u ;
            '(ret, input_row, c) ← child_next fuel c None ;
            if ret =? OB_SUCCESS then
              Some (OB_SUCCESS, input_row, with_child u c (input_count_ u) (output_count_ u + 1))
            else Some (ret, None, with_child u c (input_count_ u) (output_count_ u))
          else Some (OB_ITER_END, None, u)
        else Some (ret, None, u)
  end.

Definition limit_row_set_desc u (d : ObRowDesc) : ObLimit C :=
  match child_op_ u with
  | None => u
  | Some c => with_child u (op_row_set_desc c d) (input_count_ u) (output_count_ u)
  end.
End Operations.

#[export] Instance limit_operator {C} `{!ObPhyOperator C} cast_to_int : ObPhyOperator (ObLimit C) := {
  op_open := limit_open cast_to_int;
  op_close := limit_close;
  op_get_next_row := limit_get_next_row;
  op_get_row_desc := limit_get_row_desc;
  op_row_set_desc := limit_row_set_desc
}.

Section Rows.
Context {C : Type} `{!ObPhyOperator C} (cast_to_int : ObObj -> Z * ObObj).
Implicit Types u : ObLimit C.

Let limiter := limit_operator (C := C) cast_to_int.

(** [skip_loop] on a state whose rows run out, and whose rows do not. *)

Lemma skip_stop u k m : offset_ u <= input_count_ u -> skip_loop (S k) m u = Some (OB_SUCCESS, u).
Proof. intros H. cbn [skip_loop]. by rewrite (proj2 (Z.ltb_ge _ _)) by lia. Qed.

Lemma skip_step u c x rows ret :
  child_op_ u = Some c -> runs c (x :: rows) ret -> input_count_ u < offset_ u ->
  exists c1 n, runs c1 rows ret /\ forall k m, (n <= m)%nat ->
    skip_loop (S k) m u = skip_loop k m (with_child u c1 (input_count_ u + 1) (output_count_ u)).
Proof.
  intros Hc Hr Hi. destruct (child_next_runs c None (x :: rows) ret Hr) as (c1 & [n Hn] & _ & Hr1).
  exists c1, n. split; [done |]. intros k m Hm. cbn [skip_loop]. rewrite (proj2 (Z.ltb_lt _ _)), Hc by lia. cbn.
  by rewrite Hn by lia.
Qed.

Lemma skip_within rows u c ret :
  child_op_ u = Some c -> runs c rows ret -> 0 <= offset_ u - input_count_ u <= Z.of_nat (length rows) ->
  exists c', runs c' (drop (Z.to_nat (offset_ u - input_count_ u)) rows) ret /\
    exists n, forall k m, (n <= k)%nat -> (n <= m)%nat ->
      skip_loop k m u = Some (OB_SUCCESS, with_child u c' (offset_ u) (output_count_ u)).
Proof.
  revert u c. induction rows as [| x rows IH]; intros u c Hc Hr Hi;
    destruct (Z.eq_dec (input_count_ u) (offset_ u)) as [E | E]; try (cbn in Hi; lia).
  1, 2: exists c; split; [by replace (Z.to_nat (offset_ u - input_count_ u)) with 0%nat by lia |]; exists 1%nat;
    intros [| k] m Hk Hm; [lia |]; rewrite skip_stop by lia; rewrite <- E; unfold with_child; rewrite <- Hc; by destruct u.
  destruct (skip_step u c x rows ret Hc Hr) as (c1 & n1 & Hr1 & H1); [lia |].
  destruct (IH (with_child u c1 (input_count_ u + 1) (output_count_ u)) c1) as (c' & Hr' & n & Hn);
    [done | done | cbn in *; lia |].
  exists c'. split.
  - replace (Z.to_nat (offset_ u - input_count_ u)) with (S (Z.to_nat (offset_ u - (input_count_ u + 1)))) by lia. exact Hr'.
  - exists (S (n `max` n1)). intros [| k] m Hk Hm; [lia |]. rewrite H1 by lia. by rewrite Hn by lia.
Qed.

Lemma skip_short rows u c ret :
  child_op_ u = Some c -> runs c rows ret -> Z.of_nat (length rows) < offset_ u - input_count_ u ->
  exists u' n, forall k m, (n <= k)%nat -> (n <= m)%nat -> skip_loop k m u = Some (ret, u').
Proof.
  revert u c. induction rows as [| x rows IH]; intros u c Hc Hr Hi; cbn [length] in Hi.
  - pose proof (runs_code _ _ _ Hr) as Hret. destruct (child_next_runs c None [] ret Hr) as (row' & c1 & [n Hn]).
    eexists _, (S n). intros [| k] m Hk Hm; [lia |]. cbn [skip_loop]. rewrite (proj2 (Z.ltb_lt _ _)), Hc by lia. cbn.
    rewrite Hn by lia. cbn. apply Z.eqb_neq in Hret. rewrite Hret. reflexivity.
  - destruct (skip_step u c x rows ret Hc Hr) as (c1 & n1 & Hr1 & H1); [lia |].
    destruct (IH (with_child u c1 (input_count_ u + 1) (output_count_ u)) c1) as (u' & n & Hn); [done | done | cbn; lia |].
    exists u', (S (n `max` n1)). intros [| k] m Hk Hm; [lia |]. rewrite H1 by lia. by rewrite Hn by lia.
Qed.

(** The rows and the last code of a limit of [q] rows, none for a negative [q]. *)
Definition limited_rows (q : Z) (rows : list ObRow) : list ObRow := if q <? 0 then rows else take (Z.to_nat q) rows.
Definition limited_end (q : Z) (rows : list ObRow) (ret : Z) : Z :=
  if (0 <=? q) && (q <=? Z.of_nat (length rows)) then OB_ITER_END else ret.

(** What is left of the limit. *)
Definition quota u : Z := if limit_ u <? 0 then -1 else limit_ u - output_count_ u.

Lemma limit_call_at u c m :
  child_op_ u = Some c -> input_count_ u = offset_ u -> 0 <= offset_ u ->
  output_count_ u <= limit_ u \/ limit_ u < 0 -> (1 <= m)%nat ->
  limit_get_next_row m u =
  if quota u =? 0 then Some (OB_ITER_END, None, u)
  else
    '(ret, row, c) ← child_next m c None ;
    if ret =? OB_SUCCESS then Some (OB_SUCCESS, row, with_child u c (input_count_ u) (output_count_ u + 1))
    else Some (ret, None, with_child u c (input_count_ u) (output_count_ u)).
Proof.
  intros Hc Hi Ho Hq Hm. unfold limit_get_next_row. rewrite Hc, (proj2 (Z.ltb_ge _ _)) by lia.
  destruct m as [| m]; [lia |]. rewrite skip_stop, bind_some by lia. rewrite Hc. unfold quota. cbn [mbind option_bind].
  change (OB_SUCCESS =? OB_SUCCESS) with true. cbn iota.
  destruct (Z.ltb_spec (limit_ u) 0), (Z.ltb_spec (output_count_ u) (limit_ u)); cbn [orb]; try done.
  - by rewrite (proj2 (Z.eqb_neq _ _)) by lia.
  - by rewrite (proj2 (Z.eqb_eq _ _)) by lia.
Qed.

Lemma limit_runs_at rows u c ret :
  child_op_ u = Some c -> runs c rows ret -> input_count_ u = offset_ u -> 0 <= offset_ u ->
  output_count_ u <= limit_ u \/ limit_ u < 0 ->
  runs (ObPhyOperator0 := limiter) u (limited_rows (quota u) rows) (limited_end (quota u) rows ret).
Proof.
  revert u c. induction rows as [| x rows IH]; intros u c Hc Hr Hi Ho Hq; pose proof (runs_code _ _ _ Hr) as Hret;
    (destruct (Z.eq_dec (quota u) 0) as [E | E];
      [rewrite E; apply runs_stop with (row := None) (s' := u); [done |]; exists 1%nat; intros m Hm; cbn;
       by rewrite (limit_call_at u c), E |]).
  - destruct (child_next_runs c None [] ret Hr) as (row' & c1 & [n Hn]).
    replace (limited_rows (quota u) []) with ([] : list ObRow) by (unfold limited_rows; rewrite take_nil; by destruct (quota u <? 0)).
    replace (limited_end (quota u) [] ret) with ret.
    2: { unfold limited_end. cbn [length]. change (Z.of_nat 0) with 0. destruct (Z.leb_spec 0 (quota u)), (Z.leb_spec (quota u) 0); try (done || lia). }
    eapply runs_stop; [done |]. exists (S n). intros m Hm. cbn. rewrite (limit_call_at u c) by (done || lia).
    rewrite (proj2 (Z.eqb_neq _ _) E), Hn by lia. cbn. rewrite (proj2 (Z.eqb_neq _ _) Hret). reflexivity.
  - destruct (child_next_runs c None (x :: rows) ret Hr) as (c1 & [n Hn] & (put & -> & Hput) & Hr1).
    set (u1 := with_child u (put x) (input_count_ u) (output_count_ u + 1)).
    assert (Hnext : next (ObPhyOperator0 := limiter) u OB_SUCCESS (Some x) u1).
    { exists (S n). intros m Hm. cbn. rewrite (limit_call_at u c) by (done || lia).
      by rewrite (proj2 (Z.eqb_neq _ _) E), Hn by lia. }
    assert (Hlend : lends (ObPhyOperator0 := limiter) u1 x).
    { exists (fun row => with_child u (put row) (input_count_ u) (output_count_ u + 1)). split; [done |].
      intros row d. cbn. unfold limit_row_set_desc; cbn. by rewrite Hput. }
    pose proof (IH u1 (put x) eq_refl Hr1 Hi Ho) as Hrun. unfold quota in *. cbn [limit_ output_count_ u1 with_child] in Hrun.
    destruct (Z.ltb_spec (limit_ u) 0) as [Hneg | Hpos].
    + eapply runs_row; [exact Hnext | exact Hlend |]. by apply Hrun; right.
    + specialize (Hrun ltac:(left; cbn; lia)). eapply runs_row in Hrun; [| exact Hnext | exact Hlend].
      unfold limited_rows, limited_end in *. rewrite (proj2 (Z.ltb_ge (limit_ u - (output_count_ u + 1)) 0)) in Hrun by lia.
      rewrite (proj2 (Z.ltb_ge (limit_ u - output_count_ u) 0)) by lia.
      replace (Z.to_nat (limit_ u - output_count_ u)) with (S (Z.to_nat (limit_ u - (output_count_ u + 1)))) by lia.
      cbn [take length]. rewrite (proj2 (Z.leb_le 0 (limit_ u - (output_count_ u + 1)))) in Hrun by lia.
      rewrite (proj2 (Z.leb_le 0 (limit_ u - output_count_ u))) by lia.
      replace (limit_ u - output_count_ u <=? Z.of_nat (S (length rows)))
        with (limit_ u - (output_count_ u + 1) <=? Z.of_nat (length rows)); [exact Hrun |].
      destruct (Z.leb_spec (limit_ u - (output_count_ u + 1)) (Z.of_nat (length rows))),
        (Z.leb_spec (limit_ u - output_count_ u) (Z.of_nat (S (length rows)))); lia.
Qed.

(** From any number of skipped rows on. *)
Lemma limit_runs rows u c ret :
  child_op_ u = Some c -> runs c rows ret -> 0 <= input_count_ u <= offset_ u ->
  output_count_ u <= limit_ u \/ limit_ u < 0 ->
  let rest := drop (Z.to_nat (offset_ u - input_count_ u)) rows in
  runs (ObPhyOperator0 := limiter) u
    (if offset_ u - input_count_ u <=? Z.of_nat (length rows) then limited_rows (quota u) rest else [])
    (if offset_ u - input_count_ u <=? Z.of_nat (length rows) then limited_end (quota u) rest ret else ret).
Proof.
  intros Hc Hr Hi Hq rest. pose proof (runs_code _ _ _ Hr) as Hret. destruct (Z.leb_spec (offset_ u - input_count_ u) (Z.of_nat (length rows))) as [Hle | Hgt].
  - destruct (skip_within rows u c ret Hc Hr) as (c' & Hr' & n & Hn); [lia |].
    eapply (runs_first (with_child u c' (offset_ u) (output_count_ u)));
      [| by apply (limit_runs_at rest (with_child u c' (offset_ u) (output_count_ u)) c' ret); cbn; try lia].
    intros r row s' [n' Hn']. exists (S (n `max` n')). intros m Hm. cbn in *. rewrite <- (Hn' m) by lia.
    unfold limit_get_next_row. cbn [child_op_ offset_ with_child]. rewrite Hc, (proj2 (Z.ltb_ge _ _)) by lia.
    rewrite Hn by lia. destruct m as [| m]; [lia |]. by rewrite skip_stop by (cbn; lia).
  - destruct (skip_short rows u c ret Hc Hr) as (u' & n & Hn); [lia |].
    eapply runs_stop; [done |]. exists n. intros m Hm. cbn. unfold limit_get_next_row.
    rewrite Hc, (proj2 (Z.ltb_ge _ _)), Hn by lia. cbn. by rewrite (proj2 (Z.eqb_neq _ _) Hret).
Qed.

(** Limit and offset against all the rows. *)
Lemma limited_all limit offset rows ret :
  -1 <= limit -> 0 <= offset -> let rest := drop (Z.to_nat offset) rows in
  let q := if limit <? 0 then -1 else limit - 0 in
  (if offset <=? Z.of_nat (length rows) then limited_rows q rest else []) =
    (if limit <? 0 then rest else take (Z.to_nat limit) rest) /\
  (if offset <=? Z.of_nat (length rows) then limited_end q rest ret else ret) =
    (if (0 <=? limit) && (offset + limit <=? Z.of_nat (length rows)) then OB_ITER_END else ret).
Proof.
  intros Hl Ho rest q. unfold q, limited_rows, limited_end, rest. rewrite length_drop, Z.sub_0_r.
  destruct (Z.leb_spec offset (Z.of_nat (length rows))) as [Hle | Hgt].
  - destruct (Z.ltb_spec limit 0), (Z.leb_spec 0 limit), (Z.leb_spec (offset + limit) (Z.of_nat (length rows))),
      (Z.leb_spec limit (Z.of_nat (length rows - Z.to_nat offset))); try lia; cbn [andb Z.leb Z.ltb Z.compare];
      rewrite ?(proj2 (Z.ltb_ge limit 0)) by lia; done.
  - rewrite drop_ge by lia. rewrite take_nil. destruct (Z.ltb_spec limit 0), (Z.leb_spec 0 limit); try lia; [done |].
    rewrite (proj2 (Z.leb_gt _ _)) by lia. done.
Qed.

(** The operator as the plan builds it. *)
Definition limit_over (c : C) (limit offset : option (Z * ObObj)) : ObLimit C :=
  set_limit (limit_set_child ObLimit_new 0 c).2 limit offset.
End Rows.

(** ** Theorems *)

(** C36: LIMIT.  When the limit and offset expressions have values, a limit of at
    least -1 and an offset of at least 0, the opened operator gives the child's
    rows from the offset on, at most as many as the limit when it is not
    negative.  It ends with [OB_ITER_END] when the limit is reached, without a
    further call on the child, and otherwise with the code that ended the child. *)
Theorem limit_rows {C} `{!ObPhyOperator C} cast_to_int (c : C) d rows ret limit_expr offset_expr limit offset
    (Hc : gives c d rows ret)
    (Hlimit : get_int_value cast_to_int limit_expr (-1) = (OB_SUCCESS, limit))
    (Hoffset : get_int_value cast_to_int offset_expr 0 = (OB_SUCCESS, offset))
    (Hl : -1 <= limit) (Ho : 0 <= offset) :
  let rest := drop (Z.to_nat offset) rows in
  gives (ObPhyOperator0 := limit_operator cast_to_int) (limit_over c limit_expr offset_expr) d
    (if limit <? 0 then rest else take (Z.to_nat limit) rest)
    (if (0 <=? limit) && (offset + limit <=? Z.of_nat (length rows)) then OB_ITER_END else ret).
Proof.
  intros rest. destruct Hc as (c1 & Oc & Dc & Hd & Hr).
  exists (mkLimit (Some c1) limit_expr offset_expr true limit offset 0 0). conjs.
  - unfold opens; cbn. unfold limit_open; cbn. eapply settles_bind; [eapply settles_bind; [exact Oc | apply settles_ret] |].
    cbn. unfold get_limit; cbn. rewrite Hlimit, Hoffset. cbn.
    rewrite (proj2 (Z.ltb_ge limit (-1))), (proj2 (Z.ltb_ge offset 0)) by lia. apply settles_ret.
  - cbn. unfold limit_get_row_desc; cbn. by rewrite (proj2 (Z.ltb_ge offset 0)) by lia.
  - assert (Hrest : Forall (fun r => set_row_desc r d = r) rest) by (by apply Forall_drop).
    destruct (limit <? 0); [done | by apply Forall_take].
  - pose proof (limit_runs cast_to_int rows (mkLimit (Some c1) limit_expr offset_expr true limit offset 0 0) c1 ret
      eq_refl Hr) as H. cbn [input_count_ offset_ output_count_ limit_] in H. specialize (H ltac:(lia) ltac:(lia)).
    rewrite Z.sub_0_r in H. destruct (limited_all limit offset rows ret Hl Ho) as [E1 E2].
    unfold quota in H; cbn [limit_ output_count_] in H. rewrite E1, E2 in H. exact H.
Qed.

(** LIMIT 2 OFFSET 1 over {4, 1, 3, 2}. *)
Lemma limit_rows_witness :
  gives (ObPhyOperator0 := limit_operator (fun o => (OB_SUCCESS, o)))
    (limit_over (int_scan 16 [4; 1; 3; 2]) (Some (OB_SUCCESS, set_int ObObj_new 2 false))
       (Some (OB_SUCCESS, set_int ObObj_new 1 false)))
    (int_desc 16) (map (int_row 16) [1; 3]) OB_ITER_END.
Proof.
  apply (limit_rows (fun o => (OB_SUCCESS, o)) _ _ _ OB_ITER_END (Some (OB_SUCCESS, set_int ObObj_new 2 false))
    (Some (OB_SUCCESS, set_int ObObj_new 1 false)) 2 1 (int_scan_gives 16 [4; 1; 3; 2])); [reflexivity | reflexivity | lia | lia].
Defined.
