(* ===== verification/MergeDistinct.v ===== *)
(** * DISTINCT: [sql/ob_merge_distinct.{h,cpp}]

    The operator gives the rows of its child whose distinct columns differ from
    those of the row given before. *)

From S2P Require Import Prelude ObObject ObExprObj ObRowDesc ObRow ObCompactCell PhyOperator SetOperator SingleChild.
From Stdlib Require Import Sorted.
Local Open Scope Z_scope.

Record ObMergeDistinct (C : Type) := mkDistinct {
  child_op_ : option C;
  distinct_columns_ : list (Z * Z);
  got_first_row_ : bool;
  last_row_ : ObRow;
  last_row_buf_ : bool
}.
Arguments mkDistinct {C}.
Arguments child_op_ {C}.
Arguments distinct_columns_ {C}.
Arguments got_first_row_ {C}.
Arguments last_row_ {C}.
Arguments last_row_buf_ {C}.

(** The loop of [compare_equal]; [cmp_val] is the result of the columns before,
    the code and the result are returned. *)
Fixpoint compare_columns (columns : list (Z * Z)) (this_row last_row : ObRow) (cmp_val : bool) : option (Z * bool) :=
  match columns with
  | [] => Some (OB_SUCCESS, cmp_val)
  | (table_id, column_id) :: columns =>
      match get_cell this_row table_id column_id with
      | (ret, None) => Some (ret, false)
      | (_, Some this_obj) =>
          match get_cell last_row table_id column_id with
          | (ret, None) => Some (ret, false)
          | (_, Some last_obj) =>
              cmp ← compare this_obj last_obj ;
              if cmp =? 0 then compare_columns columns this_row last_row true else Some (OB_SUCCESS, false)
          end
      end
  end.

Definition compare_equal (columns : list (Z * Z)) (this_row last_row : ObRow) : option (Z * bool) :=
  compare_columns columns this_row last_row false.
Arguments compare_equal : simpl never.

Section Operations.
Context {C : Type} `{!ObPhyOperator C}.
(** Whether [ob_malloc] finds memory for the row buffer. *)
Context (malloc_ok : bool).
Implicit Types u : ObMergeDistinct C.

Definition ObMergeDistinct_new : ObMergeDistinct C := mkDistinct None [] false ObRow_new false.

Definition distinct_reset u : ObMergeDistinct C := mkDistinct None [] false (last_row_ u) false.

Definition distinct_set_child u (child_idx : Z) (child : C) : Z * ObMergeDistinct C :=
  let '(ret, c) := single_set_child (child_op_ u) child_idx child in
  (ret, mkDistinct c (distinct_columns_ u) (got_first_row_ u) (last_row_ u) (last_row_buf_ u)).

Definition add_distinct_column u (tid cid : Z) : ObMergeDistinct C :=
  mkDistinct (child_op_ u) (distinct_columns_ u ++ [(tid, cid)]) (got_first_row_ u) (last_row_ u) (last_row_buf_ u).

Definition distinct_open (fuel : nat) u : option (Z * ObMergeDistinct C) :=
  '(ret, c) ← single_open fuel (child_op_ u) ;
  let opened got buf := mkDistinct c (distinct_columns_ u) got (last_row_ u) buf in
  if ret =? OB_SUCCESS then
    if malloc_ok then Some (OB_SUCCESS, opened false true)
    else Some (OB_ALLOCATE_MEMORY_FAILED, opened (got_first_row_ u) false)
  else Some (ret, opened (got_first_row_ u) (last_row_buf_ u)).

Definition distinct_close u : option (Z * ObMergeDistinct C) :=
  '(ret, c) ← single_close (child_op_ u) ;
  Some (ret, mkDistinct c (distinct_columns_ u) false (last_row_ u) false).

Definition distinct_get_row_desc u : Z * option ObRowDesc :=
  match child_op_ u with
  | None => (OB_NOT_INIT, None)
  | Some c => op_get_row_desc c
  end.

Definition with_child u (c : C) : ObMergeDistinct C :=
  mkDistinct (Some c) (distinct_columns_ u) (got_first_row_ u) (last_row_ u) (last_row_buf_ u).

(** [convert(row, compact_row, last_row_)] *)
Definition save u (row : ObRow) : option (Z * ObMergeDistinct C) :=
  '(ret, last) ← save_row row (last_row_ u) (row_buf (last_row_buf_ u)) ;
  Some (ret, mkDistinct (child_op_ u) (distinct_columns_ u) true last (last_row_buf_ u)).

(** The loop after the first row; [k] bounds its rounds. *)
Fixpoint distinct_loop (k fuel : nat) u : option (Z * option ObRow * ObMergeDistinct C) :=
  match k with
  | O => None
  | S k' =>
      c ← child_op_ u ;
      '(ret, this_row, c) ← child_next fuel c None ;
      let u := with_child u c in
      if ret =? OB_SUCCESS then
        match this_row with
        | None => Some (OB_INVALID_ARGUMENT, None, u)
        | Some row =>
            '(ret, equal) ← compare_equal (distinct_columns_ u) row (last_row_ u) ;
            if ret =? OB_SUCCESS then
              if (equal : bool) then distinct_loop k' fuel u
              else '(ret, u) ← save u row ; Some (ret, Some row, u)
            else Some (ret, None, u)
        end
      else Some (ret, None, u)
  end.

Definition distinct_get_next_row (fuel : nat) u : option (Z * option ObRow * ObMergeDistinct C) :=
  match child_op_ u with
  | None => Some (OB_INVALID_ARGUMENT, None, u)
  | Some c =>
      if got_first_row_ u then distinct_loop fuel fuel u
      else
        '(ret, row, c) ← child_next fuel c None ;
        let u := with_child u c in
        if ret =? OB_SUCCESS then
          match row with
          | None => Some (OB_SUCCESS, None, u)
          | Some r => '(ret, u) ← save u r ; Some (ret, row, u)
          end
        else Some (ret, row, u)
  end.

Definition distinct_row_set_desc u (d : ObRowDesc) : ObMergeDistinct C :=
  match child_op_ u with
  | None => u
  | Some c => with_child u (op_row_set_desc c d)
  end.
End Operations.

#[export] Instance distinct_operator {C} `{!ObPhyOperator C} malloc_ok : ObPhyOperator (ObMergeDistinct C) := {
  op_open := distinct_open malloc_ok;
  op_close := distinct_close;
  op_get_next_row := distinct_get_next_row;
  op_get_row_desc := distinct_get_row_desc;
  op_row_set_desc := distinct_row_set_desc
}.

(** ** What the operator needs of its rows *)

(** On the rows of [D] the comparison of the distinct columns succeeds and tells
    whether [cmp] does, and saving a row keeps its columns. *)
Class KeyOrder (cols : list (Z * Z)) (D : ObRow -> Prop) (cmp : ObRow -> ObRow -> Z) : Prop := {
  ko_order :: CmpOrder D cmp;
  ko_equal : forall r1 r2, D r1 -> D r2 -> compare_equal cols r1 r2 = Some (OB_SUCCESS, cmp r1 r2 =? 0);
  ko_save : forall r last, D r -> row_wf last ->
    exists last', save_row r last (row_buf true) = Some (OB_SUCCESS, last') /\ D last' /\ cmp last' r = 0;
  ko_wf : forall r, D r -> row_wf r
}.

(** ** Rows of one description, by some of its columns *)

Section Keys.
Context (ks : list (column_kind * ObObjType)) (d : ObRowDesc) (cols : list (Z * Z)).

(** The kinds of the columns in the description. *)
Context (keys : list (column_kind * ObObjType)).
Context (Hkeys : Forall2 (fun k tc => exists i : nat, column_position d tc.1 tc.2 = Some (Z.of_nat i) /\ ks !! i = Some k)
                   keys cols).

Definition described_row (r : ObRow) : Prop := typed_row ks r /\ row_desc_ r = Some d.

Definition key_cells (r : ObRow) : list ObObj := map (fun tc => default ObObj_new (get_cell r tc.1 tc.2).2) cols.
Definition keys_compare (r1 r2 : ObRow) : Z := cells_compare (key_cells r1) (key_cells r2).

Lemma described_cell r t c (i : nat) k :
  described_row r -> column_position d t c = Some (Z.of_nat i) -> ks !! i = Some k ->
  exists o, get_cell r t c = (OB_SUCCESS, Some o) /\ row_cells r !! i = Some o /\ typed_cell k o.
Proof.
  intros [Hr Hd] Hp Hk. pose proof (Forall2_length _ _ _ (tr_cells ks r Hr)) as Hl.
  destruct (lookup_lt_is_Some_2 (row_cells r) i) as [o Ho]; [apply lookup_lt_Some in Hk; lia |].
  exists o. split; [| split; [done | by eapply Forall2_lookup_lr; [apply Hr | |]]].
  rewrite (get_cell_position r d), Hp by (done || apply Hr).
  rewrite (raw_get_cell_spec r (tr_wf ks r Hr)), Nat2Z.id, Ho. destruct (Z.ltb_spec (Z.of_nat i) 0); [lia | done].
Qed.

Lemma key_cells_typed r : described_row r -> Forall2 typed_cell keys (key_cells r).
Proof.
  intros Hr. unfold key_cells. apply Forall2_fmap_r. eapply Forall2_impl; [exact Hkeys |].
  intros k [t c] (i & Hp & Hk). destruct (described_cell r t c i k Hr Hp Hk) as (o & E & _ & Ho). cbn in *. by rewrite E.
Qed.

Lemma compare_typed k o1 o2 : typed_cell k o1 -> typed_cell k o2 ->
  compare o1 o2 = Some (default 0 (compare_same_type o1 o2)).
Proof.
  intros [N1 T1] [N2 T2]. rewrite (compare_levels k.1) by (by repeat right).
  rewrite (level_normal k.1 o1), (level_normal k.1 o2) by done. cbn.
  destruct (expr_compare_column (fun _ _ _ => None) k.1 o1 o2) as (e1 & e2 & c & _ & _ & C & _);
    [done | done | congruence |]. by rewrite C.
Qed.

(** With no column the loop leaves [cmp_val] as it was. *)
Lemma compare_columns_typed r1 r2 cmp_val :
  described_row r1 -> described_row r2 ->
  compare_columns cols r1 r2 cmp_val =
  Some (OB_SUCCESS, match cols with [] => cmp_val | _ => keys_compare r1 r2 =? 0 end).
Proof.
  intros H1 H2. unfold keys_compare, key_cells. revert cmp_val. pose proof Hkeys as Hall. clear Hkeys.
  induction Hall as [| k [t c] keys' cols' (i & Hp & Hk) _ IH]; intros cmp_val; [done |].
  destruct (described_cell r1 t c i k H1 Hp Hk) as (o1 & E1 & _ & T1).
  destruct (described_cell r2 t c i k H2 Hp Hk) as (o2 & E2 & _ & T2).
  cbn [compare_columns map fst snd]. rewrite E1, E2, (compare_typed k), bind_some by done.
  change (default ObObj_new (OB_SUCCESS, Some o1).2) with o1. change (default ObObj_new (OB_SUCCESS, Some o2).2) with o2.
  cbn [cells_compare]. destruct (Z.eqb_spec (default 0 (compare_same_type o1 o2)) 0) as [E | E].
  - rewrite IH by done. by destruct cols'.
  - by rewrite (proj2 (Z.eqb_neq _ _) E).
Qed.

Lemma key_cells_same r r' :
  described_row r -> described_row r' -> row_cells r' = row_cells r -> key_cells r' = key_cells r.
Proof.
  intros [Hr Hd] [Hr' Hd'] Hc. unfold key_cells. apply map_ext. intros [t c]. cbn.
  rewrite (get_cell_position r d), (get_cell_position r' d) by (done || apply Hr || apply Hr').
  destruct (column_position d t c) as [i |]; [| done].
  rewrite (raw_get_cell_spec r (tr_wf ks r Hr)), (raw_get_cell_spec r' (tr_wf ks r' Hr')). by rewrite Hc.
Qed.

Lemma keys_order : cols <> [] -> KeyOrder cols described_row keys_compare.
Proof.
  intros Hne. split.
  - pose proof (cells_order keys) as H. apply (cmp_order_preimage _ (Forall2 typed_cell keys)); [done |].
    apply key_cells_typed.
  - intros r1 r2 H1 H2. unfold compare_equal. rewrite compare_columns_typed by done. by destruct cols.
  - intros r last [Hr Hd] Hl. destruct (save_typed_row ks r last Hr Hl) as (last' & Hs & Hw & Hd' & Hc).
    assert (Hdr : described_row last').
    { split; [| congruence]. apply (typed_row_same_cells ks r); [done | done | rewrite Hd'; apply Hr | done]. }
    exists last'. conjs; [done | done |]. unfold keys_compare. rewrite (key_cells_same r last') by done.
    pose proof (cells_order keys) as Ho. apply (cmp_self (Forall2 typed_cell keys) _). by apply key_cells_typed.
  - intros r Hr. apply Hr.
Qed.
End Keys.

(** ** The rows given *)

Section Rows.
Context {C : Type} `{!ObPhyOperator C}.
Context (cols : list (Z * Z)) (D : ObRow -> Prop) (cmp : ObRow -> ObRow -> Z) `{!KeyOrder cols D cmp}.
Implicit Types u : ObMergeDistinct C.

Let distinct := distinct_operator (C := C) true.

(** Each row is followed by the first one after it that differs. *)
Inductive dedup : list ObRow -> list ObRow -> Prop :=
| dedup_nil : dedup [] []
| dedup_cons x l out : dedup (skip cmp x l) out -> dedup (x :: l) (x :: out).

Lemma dedup_sublist l out : dedup l out -> sublist out l.
Proof. induction 1; [done |]. apply sublist_skip. etrans; [done | apply skip_sublist]. Qed.

Lemma dedup_count w l out : dedup l out -> rows_ok D cmp l -> D w -> count cmp w out = (1 `min` count cmp w l)%nat.
Proof.
  intros H Hl Hw. induction H as [| x l out _ IH]; [done |].
  rewrite count_cons, IH by (by eapply rows_ok_skip). rewrite (count_drop D cmp) by done.
  rewrite count_cons. destruct (decide (cmp x w = 0)); lia.
Qed.

Definition distinct_state (c : C) (got : bool) (last : ObRow) : ObMergeDistinct C := mkDistinct (Some c) cols got last true.

Lemma save_spec c got last x :
  D x -> row_wf last ->
  exists last', save (distinct_state c got last) x = Some (OB_SUCCESS, distinct_state c true last') /\
    D last' /\ cmp last' x = 0.
Proof.
  intros Hx Hl. destruct (ko_save x last Hx Hl) as (last' & Hs & Hd & E). exists last'. split; [| done].
  unfold save; cbn. by rewrite Hs.
Qed.

Lemma loop_step c last x rows ret :
  D last -> D x -> runs c (x :: rows) ret ->
  exists c1 n, lends c1 x /\ runs c1 rows ret /\ forall k m, (n <= m)%nat ->
    distinct_loop (S k) m (distinct_state c true last) =
    if cmp x last =? 0 then distinct_loop k m (distinct_state c1 true last)
    else '(ret, u) ← save (distinct_state c1 true last) x ; Some (ret, Some x, u).
Proof.
  intros Hlast Hx Hr. destruct (child_next_runs c None (x :: rows) ret Hr) as (c1 & [n Hn] & Hlend & Hr1).
  exists c1, n. conjs; [done | done |]. intros k m Hm. cbn. rewrite Hn by lia. cbn. by rewrite ko_equal by done.
Qed.

(** The loop passes over the rows equal to [last]. *)
Lemma distinct_loop_spec c last rows ret :
  D last -> Forall D rows -> runs c rows ret ->
  match skip cmp last rows with
  | [] => exists u', settles (fun m => distinct_loop m m (distinct_state c true last)) (ret, None, u')
  | x :: rest => exists c' last', D last' /\ cmp last' x = 0 /\ lends c' x /\ runs c' rest ret /\
      settles (fun m => distinct_loop m m (distinct_state c true last)) (OB_SUCCESS, Some x, distinct_state c' true last')
  end.
Proof.
  intros Hlast Hrows Hr.
  cut (match skip cmp last rows with
  | [] => exists u' n, forall k m, (n <= k)%nat -> (n <= m)%nat ->
      distinct_loop k m (distinct_state c true last) = Some (ret, None, u')
  | x :: rest => exists c' last', D last' /\ cmp last' x = 0 /\ lends c' x /\ runs c' rest ret /\
      exists n, forall k m, (n <= k)%nat -> (n <= m)%nat ->
        distinct_loop k m (distinct_state c true last) = Some (OB_SUCCESS, Some x, distinct_state c' true last')
  end).
  { destruct (skip cmp last rows).
    - intros (u' & n & H). exists u', n. auto.
    - intros (c' & last' & ? & ? & ? & ? & n & H). exists c', last'. conjs; try done. exists n. auto. }
  revert c Hr. induction Hrows as [| x rows HD Hrows IH]; intros c Hr.
  - pose proof (runs_code _ _ _ Hr) as Hret. destruct (child_next_runs c None [] ret Hr) as (row & c1 & [n Hn]). cbn.
    eexists _, (S n). intros [| k] m Hk Hm; [lia |]. cbn. rewrite Hn by lia. cbn.
    rewrite (proj2 (Z.eqb_neq _ _) Hret). reflexivity.
  - destruct (loop_step c last x rows ret Hlast HD Hr) as (c1 & n & Hlend & Hr1 & Hstep).
    cbn [skip]. destruct (Z.eqb_spec (cmp x last) 0) as [E | E].
    + specialize (IH c1 Hr1). destruct (skip cmp last rows) as [| y rest].
      * destruct IH as (u' & n' & H). exists u', (S (n `max` n')). intros [| k] m Hk Hm; [lia |].
        rewrite Hstep by lia. apply H; lia.
      * destruct IH as (c' & last' & H1 & H2 & H3 & H4 & n' & H). exists c', last'. conjs; try done.
        exists (S (n `max` n')). intros [| k] m Hk Hm; [lia |]. rewrite Hstep by lia. apply H; lia.
    + destruct (save_spec c1 true last x HD (ko_wf last Hlast)) as (last' & Hs & Hd & E').
      exists c1, last'. conjs; try done. exists (S n). intros [| k] m Hk Hm; [lia |].
      by rewrite Hstep, Hs by lia.
Qed.

Lemma distinct_lends c x last :
  lends c x -> lends (ObPhyOperator0 := distinct) (distinct_state c true last) x.
Proof.
  intros (put & -> & Hput). exists (fun row => distinct_state (put row) true last). split; [done |].
  intros row d. cbn. unfold distinct_row_set_desc; cbn. by rewrite Hput.
Qed.

(** After a row, saved as [last]. *)
Lemma distinct_runs_after n c last rows ret :
  (length rows <= n)%nat -> D last -> Forall D rows -> runs c rows ret ->
  exists out, runs (ObPhyOperator0 := distinct) (distinct_state c true last) out ret /\ dedup (skip cmp last rows) out.
Proof.
  revert c last rows. induction n as [| n IH]; intros c last rows Hn Hlast Hrows Hr;
    pose proof (runs_code _ _ _ Hr) as Hret; pose proof (distinct_loop_spec c last rows ret Hlast Hrows Hr) as Hl;
    pose proof (skip_length cmp last rows) as Hlen; pose proof (skip_Forall cmp D last rows Hrows) as Hsk;
    destruct (skip cmp last rows) as [| x rest].
  2: cbn in Hlen; lia.
  1, 2: destruct Hl as [u' Hu]; exists []; split; [by eapply runs_stop | constructor].
  destruct Hl as (c' & last' & Hd & E & Hlend & Hr' & Hs). apply Forall_cons in Hsk as [Hx Hrest].
  destruct (IH c' last' rest) as (out & Hout & Hdd); [cbn in Hlen; lia | done | done | done |].
  exists (x :: out). split.
  - eapply runs_row; [exact Hs | by apply distinct_lends | exact Hout].
  - constructor. by rewrite <- (skip_equal D cmp last' x).
Qed.

Lemma distinct_runs c last rows ret :
  row_wf last -> Forall D rows -> runs c rows ret ->
  exists out, runs (ObPhyOperator0 := distinct) (distinct_state c false last) out ret /\ dedup rows out.
Proof.
  intros Hlast Hrows Hr. pose proof (runs_code _ _ _ Hr) as Hret. destruct rows as [| x rows].
  - destruct (child_next_runs c None [] ret Hr) as (row & c1 & Hn). exists []. split; [| constructor].
    eapply runs_stop; [done |]. unfold next; cbn. eapply settles_bind; [exact Hn |]. cbn.
    rewrite (proj2 (Z.eqb_neq _ _) Hret). apply settles_ret.
  - destruct (child_next_runs c None (x :: rows) ret Hr) as (c1 & Hn & Hlend & Hr1).
    apply Forall_cons in Hrows as [Hx Hrows].
    destruct (save_spec c1 false last x Hx Hlast) as (last' & Hs & Hd & E).
    destruct (distinct_runs_after (length rows) c1 last' rows ret) as (out & Hout & Hdd); try done.
    exists (x :: out). split.
    + eapply runs_row; [| by apply distinct_lends | exact Hout]. unfold next; cbn.
      eapply settles_bind; [exact Hn |]. cbn. change (with_child (distinct_state c false last) c1) with (distinct_state c1 false last).
      rewrite Hs. apply settles_ret.
    + constructor. by rewrite <- (skip_equal D cmp last' x).
Qed.

(** The operator as the plan builds it. *)
Definition distinct_over (c : C) : ObMergeDistinct C :=
  fold_left (fun u tc => add_distinct_column u tc.1 tc.2) cols (distinct_set_child ObMergeDistinct_new 0 c).2.

Lemma distinct_over_state c : distinct_over c = mkDistinct (Some c) cols false ObRow_new false.
Proof.
  assert (H : forall cs l, fold_left (fun u tc => add_distinct_column u tc.1 tc.2) cs
    (mkDistinct (Some c) l false ObRow_new false) = mkDistinct (Some c) (l ++ cs) false ObRow_new false).
  { intros cs. induction cs as [| tc cs IH]; intros l; cbn [fold_left]; [by rewrite app_nil_r |].
    unfold add_distinct_column at 2; cbn. rewrite IH. by destruct tc; rewrite <- app_assoc. }
  exact (H cols []).
Qed.
End Rows.

Lemma distinct_gives {C} `{!ObPhyOperator C} cols D cmp (c : C) d rows ret
    (Hkeys : KeyOrder cols D cmp) (Hc : gives c d rows ret) (Hrows : Forall D rows) :
  exists out, gives (ObPhyOperator0 := distinct_operator true) (distinct_over cols c) d out ret /\
    dedup cmp rows out /\ sublist out rows /\
    (sorted cmp rows -> forall x, D x -> count cmp x out = (1 `min` count cmp x rows)%nat).
Proof.
  destruct Hc as (c1 & Oc & Dc & Hd & Hr).
  destruct (distinct_runs cols D cmp c1 ObRow_new rows ret row_new_wf Hrows Hr) as (out & Hout & Hdd).
  pose proof (dedup_sublist cmp rows out Hdd) as Hsub. exists out. conjs; [| done | done |].
  - exists (distinct_state cols c1 false ObRow_new). conjs; [| done | by eapply sublist_Forall | done].
    unfold opens; cbn. rewrite distinct_over_state. unfold distinct_open; cbn.
    eapply settles_bind; [eapply settles_bind; [exact Oc | apply settles_ret] |]. apply settles_ret.
  - intros Hs x Hx. by apply (dedup_count cols D cmp).
Qed.

Lemma int_rows_described c ns :
  valid_column_id c -> Forall int64_range ns ->
  Forall (described_row int_column (int_desc c)) (map (int_row c) ns).
Proof.
  intros Hc Hn. apply Forall_fmap. eapply Forall_impl; [exact Hn |]. intros n Hr.
  split; [by apply int_row_typed | apply int_row_spec].
Qed.

(** ** Theorems *)

(** DISTINCT.  Over rows whose distinct columns the comparison orders, the
    opened operator gives the first row and then, each time, the next row that
    differs from the last one given in a distinct column; it ends with the
    child's code.  When the child is sorted on the distinct columns, each class
    of rows equal in them is given once. *)
Theorem merge_distinct {C} `{!ObPhyOperator C} cols D cmp (c : C) d rows ret
    (Hkeys : KeyOrder cols D cmp) (Hc : gives c d rows ret) (Hrows : Forall D rows) :
  exists out, gives (ObPhyOperator0 := distinct_operator true) (distinct_over cols c) d out ret /\
    dedup cmp rows out /\ sublist out rows /\
    (sorted cmp rows -> forall x, D x -> count cmp x out = (1 `min` count cmp x rows)%nat).
Proof. by apply distinct_gives. Qed.

(** {1, 1, 2} *)
Lemma merge_distinct_witness :
  exists out, gives (ObPhyOperator0 := distinct_operator true) (distinct_over [(1, 16)] (int_scan 16 [1; 1; 2]))
      (int_desc 16) out OB_ITER_END /\ sublist out (map (int_row 16) [1; 1; 2]).
Proof.
  assert (H16 : valid_column_id 16) by (split; vm_compute; intuition congruence).
  assert (Hp : column_position (int_desc 16) 1 16 = Some (Z.of_nat 0)) by (vm_compute; reflexivity).
  destruct (merge_distinct [(1, 16)] (described_row int_column (int_desc 16)) (keys_compare [(1, 16)])
    (int_scan 16 [1; 1; 2]) (int_desc 16) (map (int_row 16) [1; 1; 2]) OB_ITER_END) as (out & H & _ & Hsub & _).
  - apply (keys_order _ _ _ [(KInt, ObIntType)]); [| done]. constructor; [| done]. exists 0%nat. split; [exact Hp | done].
  - apply int_scan_gives.
  - apply int_rows_described; [done |]. repeat constructor; vm_compute; congruence.
  - exists out. split; [exact H | exact Hsub].
Defined.
