(* ===== verification/InMemorySort.v ===== *)
(** * The in-memory sort: [sql/ob_in_memory_sort.{h,cpp}]

    Rows are kept in a row store, which reserves a copy of the sort columns beside
    each row; an array of the stored rows is sorted and read back. *)

From S2P Require Import Prelude ObObject ObRowDesc ObRow ObCompactCell ObRowUtil ObRowStore RowStoreSpec PhyOperator RowKey.
From Stdlib Require Import Sorted Permutation.
Local Open Scope Z_scope.

(** ** [std::sort]

    The comparison may fail, which here stands for undefined behaviour.  The
    standard asks for a strict weak ordering and leaves the order of equivalent
    elements open. *)

Record strict_weak {A} (lt : A -> A -> bool) (l : list A) : Prop := {
  sw_irrefl : forall x, x ∈ l -> lt x x = false;
  sw_trans : forall x y z, x ∈ l -> y ∈ l -> z ∈ l -> lt x y = true -> lt y z = true -> lt x z = true;
  sw_equiv : forall x y z, x ∈ l -> y ∈ l -> z ∈ l ->
    lt x y = false /\ lt y x = false -> lt y z = false /\ lt z y = false -> lt x z = false /\ lt z x = false
}.

Class StdSort := {
  std_sort : forall {A}, (A -> A -> option bool) -> list A -> option (list A);
  std_sort_ok : forall {A} comp (lt : A -> A -> bool) l,
    (forall x y, x ∈ l -> y ∈ l -> comp x y = Some (lt x y)) -> strict_weak lt l ->
    exists l', std_sort comp l = Some l' /\ l' ≡ₚ l /\ StronglySorted (fun x y => lt y x = false) l'
}.

(** ** A sort

    Insertion sort is one of the algorithms [std::sort] may be. *)

Section Insertion.
Context {A : Type} (comp : A -> A -> option bool).

Fixpoint insert_sorted (x : A) (l : list A) : option (list A) :=
  match l with
  | [] => Some [x]
  | y :: l' =>
      before ← comp y x ;
      if (before : bool) then (cons y) <$> insert_sorted x l' else Some (x :: l)
  end.

Fixpoint insertion_sort (l : list A) : option (list A) :=
  match l with
  | [] => Some []
  | x :: l' => sorted ← insertion_sort l' ; insert_sorted x sorted
  end.

Context (lt : A -> A -> bool) (all : list A).
Context (Hcomp : forall x y, x ∈ all -> y ∈ all -> comp x y = Some (lt x y)) (Hsw : strict_weak lt all).

Abbreviation in_order := (fun x y => lt y x = false).

Lemma in_order_trans x y z : x ∈ all -> y ∈ all -> z ∈ all -> lt y x = false -> lt z y = false -> lt z x = false.
Proof.
  destruct Hsw as [_ Htrans Hequiv]. intros Hx Hy Hz Hyx Hzy. destruct (lt z x) eqn:Hzx; [| done].
  destruct (lt x y) eqn:Hxy; [by rewrite (Htrans z x y) in Hzy |].
  destruct (lt y z) eqn:Hyz; [by rewrite (Htrans y z x) in Hyx |].
  destruct (Hequiv x y z Hx Hy Hz) as [_ H]; [done | done | congruence].
Qed.

Lemma insert_sorted_ok x l :
  x ∈ all -> Forall (fun y => y ∈ all) l -> StronglySorted in_order l ->
  exists l', insert_sorted x l = Some l' /\ l' ≡ₚ x :: l /\ StronglySorted in_order l'.
Proof.
  intros Hx Hl. induction 1 as [| y l Hs IH Hb]; cbn [insert_sorted].
  - exists [x]. conjs; [done | done |]. repeat constructor.
  - apply Forall_cons in Hl as [Hy Hl]. rewrite Hcomp, bind_some by done. destruct (lt y x) eqn:E.
    + destruct (IH Hl) as (l' & -> & Hp & Hs'). exists (y :: l'). conjs; [done | by rewrite Hp; constructor |].
      constructor; [done |]. rewrite Hp. constructor; [| done]. destruct (lt x y) eqn:E'; [| done].
      destruct Hsw as [Hirr Htrans _]. by rewrite <- (Hirr x Hx), (Htrans x y x).
    + exists (x :: y :: l). conjs; [done | done |]. constructor; [by constructor |]. constructor; [done |].
      rewrite Forall_forall in *. intros z Hz. apply (in_order_trans x y z); auto.
Qed.

Lemma insertion_sort_ok l :
  Forall (fun y => y ∈ all) l -> exists l', insertion_sort l = Some l' /\ l' ≡ₚ l /\ StronglySorted in_order l'.
Proof.
  induction l as [| x l IH]; cbn; [intros _; exists []; conjs; [done | done | constructor] |].
  intros [Hx Hl]%Forall_cons. destruct (IH Hl) as (l1 & -> & Hp & Hs). cbn.
  destruct (insert_sorted_ok x l1 Hx) as (l2 & E & Hp2 & Hs2); [by rewrite Hp | done |].
  exists l2. conjs; [done | by rewrite Hp2, Hp | done].
Qed.
End Insertion.

Definition insertion : StdSort := {|
  std_sort := @insertion_sort;
  std_sort_ok := fun A comp lt l Hcomp Hsw => insertion_sort_ok comp lt l Hcomp Hsw l (proj2 (Forall_forall _ _) (fun x H => H))
|}.

(** ** The operations *)

Record ObSortColumn := mkSortColumn { sort_table_id_ : Z; sort_column_id_ : Z; is_ascending_ : bool }.

(** [sort_columns_] points to the columns of the operator the sort belongs to. *)
Record ObInMemorySort := mkInMemorySort {
  sort_columns_ : option (list ObSortColumn);
  row_store_ : ObRowStore;
  sort_array_ : list StoredRow;
  sort_array_get_pos_ : nat;
  isort_curr_row_ : ObRow;
  isort_row_desc_ : option ObRowDesc
}.

Definition ObInMemorySort_new : ObInMemorySort := mkInMemorySort None ObRowStore_new [] 0 ObRow_new None.

(** [reset] and [reuse] *)
Definition isort_reset (s : ObInMemorySort) : ObInMemorySort :=
  mkInMemorySort (sort_columns_ s) (clear (row_store_ s)) [] 0 (isort_curr_row_ s) None.

Definition set_sort_columns (s : ObInMemorySort) (cols : list ObSortColumn) : Z * ObInMemorySort :=
  (OB_SUCCESS,
   mkInMemorySort (Some cols)
     (fold_left (fun st c => (add_reserved_column st (sort_table_id_ c) (sort_column_id_ c)).2) cols (row_store_ s))
     (sort_array_ s) (sort_array_get_pos_ s) (isort_curr_row_ s) (isort_row_desc_ s)).

Definition isort_add_row (malloc : Z -> bool) (s : ObInMemorySort) (row : ObRow) : option (Z * ObInMemorySort) :=
  _ ← sort_columns_ s ;
  '(ret, stored_row, store) ← store_add_row malloc None row (row_store_ s) ;
  let keep array desc :=
    mkInMemorySort (sort_columns_ s) store array (sort_array_get_pos_ s) (isort_curr_row_ s) desc in
  if ret =? OB_SUCCESS then
    stored_row ← stored_row ;
    Some (OB_SUCCESS, keep (sort_array_ s ++ [stored_row])
            (match isort_row_desc_ s with None => row_desc_ row | Some d => Some d end))
  else Some (ret, keep (sort_array_ s) (isort_row_desc_ s)).

(** [Comparer]: a reserved cell that is not there or was not set is outside the
    row. *)
Fixpoint comparer (cols : list ObSortColumn) (cells1 cells2 : list (option ObObj)) : option bool :=
  match cols with
  | [] => Some false
  | col :: cols' =>
      match cells1, cells2 with
      | Some o1 :: cells1', Some o2 :: cells2' =>
          c ← compare o1 o2 ;
          if c <? 0 then Some (is_ascending_ col)
          else if 0 <? c then Some (negb (is_ascending_ col))
          else comparer cols' cells1' cells2'
      | _, _ => None
      end
  end.

Definition sort_rows `{!StdSort} (s : ObInMemorySort) : option (Z * ObInMemorySort) :=
  cols ← sort_columns_ s ;
  array ← (if (0 <? length (sort_array_ s))%nat
           then std_sort (fun r1 r2 => comparer cols (reserved_cells_ r1) (reserved_cells_ r2)) (sort_array_ s)
           else Some (sort_array_ s)) ;
  Some (OB_SUCCESS,
        mkInMemorySort (Some cols) (row_store_ s) array (sort_array_get_pos_ s) (isort_curr_row_ s) (isort_row_desc_ s)).

(** Into the caller's row: the code, the row and the sort. *)
Definition isort_get_next (s : ObInMemorySort) (row : ObRow) : option (Z * ObRow * ObInMemorySort) :=
  match sort_array_ s !! sort_array_get_pos_ s with
  | None => Some (OB_ITER_END, row, s)
  | Some stored_row =>
      d ← isort_row_desc_ s ;
      bytes ← compact_row stored_row ;
      '(ret, row) ← convert_from_compact bytes (set_row_desc row d) ;
      Some (ret, row,
            if ret =? OB_SUCCESS
            then mkInMemorySort (sort_columns_ s) (row_store_ s) (sort_array_ s) (S (sort_array_get_pos_ s))
                   (isort_curr_row_ s) (isort_row_desc_ s)
            else s)
  end.

Definition with_isort_row (s : ObInMemorySort) (row : ObRow) : ObInMemorySort :=
  mkInMemorySort (sort_columns_ s) (row_store_ s) (sort_array_ s) (sort_array_get_pos_ s) row (isort_row_desc_ s).

(** The row goes to [curr_row_]. *)
Definition isort_get_next_row (s : ObInMemorySort) : option (Z * option ObRow * ObInMemorySort) :=
  '(ret, row, s) ← isort_get_next s (isort_curr_row_ s) ;
  Some (ret, if ret =? OB_SUCCESS then Some row else None, with_isort_row s row).

Definition get_next_compact_row (s : ObInMemorySort) : option (Z * option (list Z) * ObInMemorySort) :=
  match sort_array_ s !! sort_array_get_pos_ s with
  | None => Some (OB_ITER_END, None, s)
  | Some stored_row =>
      Some (OB_SUCCESS, compact_row stored_row,
            mkInMemorySort (sort_columns_ s) (row_store_ s) (sort_array_ s) (S (sort_array_get_pos_ s))
              (isort_curr_row_ s) (isort_row_desc_ s))
  end.

Definition get_row_count (s : ObInMemorySort) : Z := Z.of_nat (length (sort_array_ s)).

Definition isort_used_mem_size (s : ObInMemorySort) : Z :=
  get_used_mem_size (row_store_ s) + Z.of_nat (length (sort_array_ s)) * 8.

(** ** The order of the comparison *)

Lemma cmp_order_opp {A} (D : A -> Prop) (cmp : A -> A -> Z) : CmpOrder D cmp -> CmpOrder D (fun x y => - cmp x y).
Proof.
  intros H. split.
  - intros x y Hx Hy. pose proof (cmp_opp x y Hx Hy). lia.
  - intros x y z Hx Hy Hz H1 H2.
    pose proof (cmp_opp x y Hx Hy). pose proof (cmp_opp y z Hy Hz). pose proof (cmp_opp x z Hx Hz).
    pose proof (cmp_trans z y x Hz Hy Hx). lia.
Qed.

(** Column by column, each in its direction. *)
Fixpoint sort_compare (cols : list ObSortColumn) (l1 l2 : list ObObj) : Z :=
  match cols, l1, l2 with
  | col :: cols', o1 :: l1', o2 :: l2' =>
      let c := if is_ascending_ col then compare_value o1 o2 else - compare_value o1 o2 in
      if c =? 0 then sort_compare cols' l1' l2' else c
  | _, _, _ => 0
  end.

Lemma sort_compare_order cols ks : length cols = length ks -> CmpOrder (Forall2 column_value ks) (sort_compare cols).
Proof.
  revert ks. induction cols as [| col cols IH]; intros [| k ks] Hl; try done.
  injection Hl as Hl. set (hd := fun x : list ObObj => default ObObj_new (head x)).
    apply (cmp_order_lex _ _
      (fun x y => if is_ascending_ col then compare_value (hd x) (hd y) else - compare_value (hd x) (hd y))
      (fun x y => sort_compare cols (tail x) (tail y))).
    + assert (Hd : forall x, Forall2 column_value (k :: ks) x -> column_value k (hd x)).
      { intros x Hx. by apply Forall2_cons_inv_l in Hx as (o & x' & Ho & _ & ->). }
      destruct (is_ascending_ col).
      * by apply (cmp_order_preimage _ (column_value k) _ hd (compare_value_order k)).
      * by apply (cmp_order_preimage _ (column_value k) _ hd (cmp_order_opp _ _ (compare_value_order k))).
    + apply (cmp_order_preimage _ (Forall2 column_value ks) _ tail (IH ks Hl)).
      intros x Hx. by apply Forall2_cons_inv_l in Hx as (o & x' & _ & Hx & ->).
    + intros x y Hx Hy. apply Forall2_cons_inv_l in Hx as (o & x' & _ & _ & ->).
      by apply Forall2_cons_inv_l in Hy as (o' & y' & _ & _ & ->).
Qed.

Lemma comparer_spec cols ks l1 l2 :
  length cols = length ks -> Forall2 column_value ks l1 -> Forall2 column_value ks l2 ->
  comparer cols (map Some l1) (map Some l2) = Some (sort_compare cols l1 l2 <? 0).
Proof.
  revert ks l1 l2. induction cols as [| col cols IH]; intros [| k ks] l1 l2 Hl H1 H2; try done.
  apply Forall2_cons_inv_l in H1 as (o1 & l1' & Ho1 & H1 & ->). apply Forall2_cons_inv_l in H2 as (o2 & l2' & Ho2 & H2 & ->).
  injection Hl as Hl. cbn [comparer map sort_compare]. pose proof (compare_defined k o1 o2 Ho1 Ho2) as Hc.
  unfold compare_value. destruct (compare o1 o2) as [c |]; [| done]. cbn [mbind option_bind default from_option id].
  rewrite (IH ks l1' l2') by done. cbn zeta.
  destruct (is_ascending_ col), (Z.ltb_spec c 0), (Z.ltb_spec 0 c), (Z.eqb_spec c 0), (Z.eqb_spec (- c) 0);
    try lia; try done; cbn [negb]; f_equal; symmetry; first [apply Z.ltb_lt; lia | apply Z.ltb_ge; lia].
Qed.

Lemma order_strict_weak {A B} (D : B -> Prop) (cmp : B -> B -> Z) (f : A -> B) l :
  CmpOrder D cmp -> Forall (fun x => D (f x)) l -> strict_weak (fun x y => cmp (f x) (f y) <? 0) l.
Proof.
  intros Ho Hl. rewrite Forall_forall in Hl. split.
  - intros x Hx. apply Z.ltb_ge. rewrite (cmp_self D cmp); auto. lia.
  - intros x y z Hx Hy Hz. rewrite !Z.ltb_lt. intros H1 H2. apply (cmp_lt_trans D cmp _ (f y)); auto. lia.
  - intros x y z Hx Hy Hz. rewrite !Z.ltb_ge. intros [H1 H2] [H3 H4].
    pose proof (cmp_opp (f x) (f y) (Hl x Hx) (Hl y Hy)). pose proof (cmp_opp (f y) (f z) (Hl y Hy) (Hl z Hz)).
    pose proof (cmp_opp (f x) (f z) (Hl x Hx) (Hl z Hz)).
    pose proof (cmp_trans (f x) (f y) (f z) (Hl x Hx) (Hl y Hy) (Hl z Hz)).
    pose proof (cmp_trans (f z) (f y) (f x) (Hl z Hz) (Hl y Hy) (Hl x Hx)). lia.
Qed.

(** ** The rows of the sort *)

Lemma StronglySorted_map {A B} (f : A -> B) (R : B -> B -> Prop) l :
  StronglySorted R (map f l) -> StronglySorted (fun x y => R (f x) (f y)) l.
Proof.
  induction l as [| x l IH]; cbn; [constructor |]. intros [Hs Hf]%StronglySorted_inv. constructor; [by apply IH |].
  eapply Forall_impl; [exact (proj1 (Forall_fmap _ _ _) Hf) | done].
Qed.

Lemma StronglySorted_weaken {A} (P : A -> Prop) (R R' : A -> A -> Prop) l :
  (forall x y, P x -> P y -> R x y -> R' x y) -> Forall P l -> StronglySorted R l -> StronglySorted R' l.
Proof.
  intros H Hp. induction 1 as [| x l Hs IH Hf]; constructor; apply Forall_cons in Hp as [Hx Hp]; [by apply IH |].
  rewrite Forall_forall in *. intros y Hy. apply H; auto.
Qed.

(** What comes back of a row that was kept. *)
Record read_back (d : ObRowDesc) (row r : ObRow) : Prop := {
  rb_wf : row_wf row;
  rb_desc : row_desc_ row = Some d;
  rb_cells : Forall2 same_cell (row_cells row) (row_cells r);
  rb_set_desc : set_row_desc row d = row
}.

(** A sort with no rows and no reserved columns: new, or reset. *)
Record isort_idle (s : ObInMemorySort) : Prop := {
  id_reserved : reserved_columns_ (row_store_ s) = [];
  id_store : store_ok (row_store_ s) [];
  id_array : sort_array_ s = [];
  id_pos : sort_array_get_pos_ s = 0%nat;
  id_row : row_wf (isort_curr_row_ s);
  id_desc : isort_row_desc_ s = None
}.

Section Rows.
Context (cols : list ObSortColumn) (ks : list column_kind) (d : ObRowDesc).

Definition sort_descs : list Desc := map (fun c => mkDesc (sort_table_id_ c) (sort_column_id_ c)) cols.
Definition sort_ids : list (Z * Z) := map desc_ids sort_descs.

(** What is asked of a row: its sort columns can be compared, it can be kept. *)
Definition sortable (r : ObRow) : Prop :=
  kept_row d (length cols) r /\ Forall2 column_value ks (row_key sort_descs r).

Definition in_order (x y : ObRow) : Prop := sort_compare cols (row_key sort_descs x) (row_key sort_descs y) <= 0.

Context (Hcols : key_columns d sort_descs) (Hnd : NoDup sort_descs) (Hlen : length cols = length ks).
Context (Hmany : SIZEOF_OBJ * Z.of_nat (length cols) <= 32 * 1024).

(** Rows were added; [array] are the rows of the array, sorted or not, and [p] of
    them were read. *)
Record holds (s : ObInMemorySort) (rows array : list ObRow) (p : nat) : Prop := {
  ho_columns : sort_columns_ s = Some cols;
  ho_reserved : reserved_columns_ (row_store_ s) = sort_ids;
  ho_store : store_ok (row_store_ s) (map row_bytes rows);
  ho_array : sort_array_ s = map (stored_of sort_ids) array;
  ho_pos : sort_array_get_pos_ s = p;
  ho_row : row_wf (isort_curr_row_ s);
  ho_desc : isort_row_desc_ s = match rows with [] => None | _ => Some d end;
  ho_rows : Forall sortable rows
}.

Lemma set_sort_columns_ok s : isort_idle s -> exists s', set_sort_columns s cols = (OB_SUCCESS, s') /\ holds s' [] [] 0.
Proof.
  intros [Hst Hok Ha Hp Hr Hd]. eexists. split; [done |].
  assert (H : forall l st, fold_left (fun st c => (add_reserved_column st (sort_table_id_ c) (sort_column_id_ c)).2) l st =
            with_reserved st (reserved_columns_ st ++ map (fun c => (sort_table_id_ c, sort_column_id_ c)) l)).
  { induction l as [| c l IH]; intros st; cbn; [rewrite app_nil_r; by destruct st |]. rewrite IH. cbn. by rewrite <- app_assoc. }
  assert (Hids : sort_ids = map (fun c => (sort_table_id_ c, sort_column_id_ c)) cols)
    by (unfold sort_ids, sort_descs; by rewrite map_map).
  split; cbn; rewrite ?H; try done.
  - by rewrite Hids; cbn; rewrite Hst.
  - destruct Hok as [H1 H2 H3 _]. split; [done | done | done |]. cbn. rewrite Hst. cbn. by rewrite length_map.
Qed.

Lemma isort_reset_idle s rows array p : holds s rows array p -> isort_idle (isort_reset s).
Proof. intros [_ _ H _ _ Hr _ _]. split; cbn; try done. by apply (clear_ok _ _ H). Qed.

Lemma isort_add_row_ok malloc s rows array row :
  (forall size, malloc size = true) -> holds s rows array 0 -> sortable row ->
  exists s', isort_add_row malloc s row = Some (OB_SUCCESS, s') /\ holds s' (rows ++ [row]) (array ++ [row]) 0.
Proof.
  intros Hm [H1 H2 H3 H4 H5 H6 H7 H8] Hrow. pose proof Hrow as [Hk _].
  destruct (kept_keepable d (length cols) row Hk) as [Hkeep Hsz].
  destruct (store_add_row_ok malloc Hm (row_store_ s) (map row_bytes rows) row H3 Hkeep) as (stored & st & E & Hst & Hg).
  { rewrite H2. unfold sort_ids, sort_descs. by rewrite !length_map. }
  unfold isort_add_row. rewrite H1, bind_some, E, bind_some. change (OB_SUCCESS =? OB_SUCCESS) with true. cbn iota.
  rewrite bind_some. eexists. split; [done |]. split; cbn; try done.
  - destruct Hg as [Hk' _ _ _]. by rewrite (ks_reserved _ _ Hk').
  - rewrite map_app. by apply (grown_ok (row_store_ s)).
  - by rewrite H4, map_app, Hst, H2.
  - rewrite H7. destruct rows; [| done]. apply Hk.
  - apply Forall_app. split; [done | by constructor].
Qed.

Lemma sortable_key r :
  sortable r -> reserved_cells_ (stored_of sort_ids r) = map Some (row_key sort_descs r).
Proof. intros [[Hw Hd Hs _ _] _]. by apply (stored_key sort_descs r d); [| | apply Hs | |]. Qed.

(** The key as the comparison reads it. *)
Definition read_key (r : StoredRow) : list ObObj := map (default ObObj_new) (reserved_cells_ r).

Lemma read_key_stored r : sortable r -> read_key (stored_of sort_ids r) = row_key sort_descs r.
Proof. intros Hr. unfold read_key. rewrite sortable_key, map_map by done. apply map_id. Qed.

Lemma sort_rows_ok `{!StdSort} s rows :
  holds s rows rows 0 ->
  exists s' array, sort_rows s = Some (OB_SUCCESS, s') /\ holds s' rows array 0 /\ array ≡ₚ rows /\
    StronglySorted in_order array.
Proof.
  intros [H1 H2 H3 H4 H5 H6 H7 H8]. pose proof (sort_compare_order cols ks Hlen) as Hord. unfold sort_rows.
  rewrite H1, bind_some, H4, length_map. destruct (Nat.ltb_spec 0 (length rows)) as [Hpos | Hz].
  - assert (Hin : forall x, x ∈ map (stored_of sort_ids) rows -> exists r, x = stored_of sort_ids r /\ sortable r).
    { intros x (r & -> & Hr)%list_elem_of_fmap. exists r. split; [done |]. by eapply Forall_forall in H8. }
    destruct (std_sort_ok (fun r1 r2 => comparer cols (reserved_cells_ r1) (reserved_cells_ r2))
                (fun r1 r2 => sort_compare cols (read_key r1) (read_key r2) <? 0) (map (stored_of sort_ids) rows))
      as (l' & -> & Hp & Hs).
    + intros x y (r1 & -> & Hr1)%Hin (r2 & -> & Hr2)%Hin. rewrite !read_key_stored, !sortable_key by done.
      apply (comparer_spec cols ks); [done | apply Hr1 | apply Hr2].
    + apply (order_strict_weak _ _ _ _ Hord). apply Forall_forall. intros x (r & -> & Hr)%Hin.
      rewrite read_key_stored by done. apply Hr.
    + destruct (Permutation_map_inv _ _ Hp) as (array & -> & Hp').
      eexists _, array. conjs; [done | by split | by symmetry |]. apply StronglySorted_map in Hs.
      eapply (StronglySorted_weaken sortable); [| by rewrite <- Hp' | exact Hs]. intros x y Hx Hy.
      cbn beta. rewrite !read_key_stored, Z.ltb_ge by done. intros Hge. unfold in_order.
      pose proof (cmp_opp (row_key sort_descs x) (row_key sort_descs y) (proj2 Hx) (proj2 Hy)). lia.
  - destruct rows; [| cbn in Hz; lia]. eexists _, []. conjs; [done | by split | done | constructor].
Qed.

Lemma isort_next_ok s rows array p :
  array ≡ₚ rows -> holds s rows array p ->
  match array !! p with
  | None => isort_get_next_row s = Some (OB_ITER_END, None, s)
  | Some r => exists row s', isort_get_next_row s = Some (OB_SUCCESS, Some row, s') /\ holds s' rows array (S p) /\
      isort_curr_row_ s' = row /\ read_back d row r
  end.
Proof.
  intros Hperm [H1 H2 H3 H4 H5 H6 H7 H8]. unfold isort_get_next_row, isort_get_next.
  change (map (stored_of sort_ids) array) with (stored_of sort_ids <$> array) in H4.
  rewrite H4, H5, list_lookup_fmap. destruct (array !! p) as [r |] eqn:Hr; cbn [fmap option_fmap option_map].
  - assert (Hin : r ∈ rows) by (rewrite <- Hperm; by eapply list_elem_of_lookup_2).
    assert (Hs : sortable r) by (by eapply Forall_forall in H8). destruct Hs as [Hk _].
    assert (Hdesc : isort_row_desc_ s = Some d) by (rewrite H7; destruct rows; [by apply not_elem_of_nil in Hin | done]).
    rewrite Hdesc, bind_some. change (compact_row (stored_of sort_ids r)) with (Some (row_bytes r)). rewrite bind_some.
    pose proof (kr_wf _ _ _ Hk) as Hw. pose proof (kr_desc _ _ _ Hk) as Hd.
    destruct (convert_kept r (set_row_desc (isort_curr_row_ s) d)) as (row & E & Hw' & Hd' & Hc).
    + by apply (kept_keepable d (length cols)).
    + apply set_row_desc_wf; [done |]. by apply (wf_desc r).
    + done.
    + unfold row_column_num. by rewrite Hd.
    + rewrite E, bind_some. change (OB_SUCCESS =? OB_SUCCESS) with true. cbn iota. rewrite bind_some.
      eexists row, _. conjs; [done | | done |].
      * split; cbn; try done. by rewrite <- H7, Hdesc.
      * apply convert_rowkey in E as [Hkey _]. split; [done | done | done |].
        unfold set_row_desc in *. cbn in Hkey. destruct row as [k raw dr]. cbn in *. subst. by destruct (0 <? _).
  - rewrite bind_some. by destruct s.
Qed.
End Rows.

(** ** What goes wrong *)

(** A column listed twice: only the first of its reserved cells is written. *)
Lemma reserve_twice c ids objs x y : reserve_cells [c; c] ids objs [x; y] = reserve_cells [c] ids objs [x] ++ [y].
Proof.
  revert objs x. induction ids as [| id ids IH]; intros [| o objs] x; try done. cbn [reserve_cells reserve_cell].
  destruct ((c.1 =? id.1) && (c.2 =? id.2)); apply IH.
Qed.

Lemma reserved_twice c d n r o :
  kept_row d n r -> key_columns d [c] -> row_key [c] r = [o] ->
  reserved_cells_ (stored_of [desc_ids c; desc_ids c] r) = [Some o; None].
Proof.
  intros [Hw Hd Hs _ _] Hc Hk. pose proof (stored_key [c] r d Hw Hd (proj1 Hs) Hc (NoDup_singleton c)) as Hr.
  rewrite Hk in Hr. unfold stored_of in *. cbn in *. rewrite reserve_twice. by rewrite Hr.
Qed.

(** C39: A sort by a column that is listed twice compares cells that were never
    written, as soon as two rows have the same value in the column: the row store
    fills only the first reserved cell of the column. *)
Theorem duplicate_sort_column (malloc : Z -> bool) (c : Desc) (a1 a2 : bool) d k (r1 r2 : ObRow) o1 o2
    (Hm : forall size, malloc size = true) (H1 : kept_row d 2 r1) (H2 : kept_row d 2 r2) (Hc : key_columns d [c])
    (Hk1 : row_key [c] r1 = [o1]) (Hk2 : row_key [c] r2 = [o2]) (Hv : column_value k o1 /\ column_value k o2)
    (Heq : compare o1 o2 = Some 0) :
  let cols := [mkSortColumn (table_id_ c) (column_id_ c) a1; mkSortColumn (table_id_ c) (column_id_ c) a2] in
  exists s0 s1 s2 x1 x2, set_sort_columns ObInMemorySort_new cols = (OB_SUCCESS, s0) /\
    isort_add_row malloc s0 r1 = Some (OB_SUCCESS, s1) /\ isort_add_row malloc s1 r2 = Some (OB_SUCCESS, s2) /\
    sort_array_ s2 = [x1; x2] /\ comparer cols (reserved_cells_ x1) (reserved_cells_ x2) = None.
Proof.
  intros cols. destruct Hv as [Hv1 Hv2]. assert (Hid : mkDesc (table_id_ c) (column_id_ c) = c) by (by destruct c).
  assert (Hs : forall r o, kept_row d 2 r -> row_key [c] r = [o] -> column_value k o -> sortable cols [k; k] d r).
  { intros r o Hr Hk Ho. split; [done |]. injection Hk as Hk. cbn. rewrite Hk. constructor; [done | by constructor]. }
  destruct (set_sort_columns_ok cols [k; k] d ltac:(done) ObInMemorySort_new) as (s0 & E0 & Hs0); [by split |].
  destruct (isort_add_row_ok cols [k; k] d malloc s0 [] [] r1 Hm Hs0) as (s1 & E1 & Hs1); [by apply (Hs r1 o1) |].
  destruct (isort_add_row_ok cols [k; k] d malloc s1 [r1] [r1] r2 Hm Hs1) as (s2 & E2 & Hs2); [by apply (Hs r2 o2) |].
  exists s0, s1, s2. eexists _, _. conjs; [done | done | done | apply (ho_array _ _ _ _ _ _ _ Hs2) |].
  change (sort_ids cols) with [desc_ids (mkDesc (table_id_ c) (column_id_ c)); desc_ids (mkDesc (table_id_ c) (column_id_ c))].
  rewrite Hid, (reserved_twice c d 2 r1 o1), (reserved_twice c d 2 r2 o2) by done. cbn. by rewrite Heq.
Qed.

Lemma duplicate_sort_column_witness :
  let cols := [mkSortColumn 1 16 true; mkSortColumn 1 16 true] in
  exists s0 s1 s2 x1 x2, set_sort_columns ObInMemorySort_new cols = (OB_SUCCESS, s0) /\
    isort_add_row (fun _ => true) s0 (int_row 16 7) = Some (OB_SUCCESS, s1) /\
    isort_add_row (fun _ => true) s1 (int_row 16 7) = Some (OB_SUCCESS, s2) /\
    sort_array_ s2 = [x1; x2] /\ comparer cols (reserved_cells_ x1) (reserved_cells_ x2) = None.
Proof.
  assert (Hid : valid_column_id 16) by (vm_compute; intuition congruence).
  assert (Hn : kept_row (int_desc 16) 2 (int_row 16 7)) by (apply int_row_kept; [done | vm_compute; intuition congruence | done]).
  apply (duplicate_sort_column (fun _ => true) (mkDesc 1 16) true true (int_desc 16) KInt (int_row 16 7) (int_row 16 7)
    (set_int ObObj_new 7 false) (set_int ObObj_new 7 false) ltac:(done) Hn Hn).
  - by apply int_key_columns.
  - by apply int_row_key.
  - by apply int_row_key.
  - split; by repeat right.
  - by vm_compute.
Defined.

(** [reset], which [ObSort] also calls between two runs, forgets the reserved
    columns: the rows added after it have no cells to compare. *)
Lemma add_unreserved malloc cols d s bytes row :
  (forall size, malloc size = true) -> sort_columns_ s = Some cols -> reserved_columns_ (row_store_ s) = [] ->
  store_ok (row_store_ s) bytes -> kept_row d 0 row ->
  exists s', isort_add_row malloc s row = Some (OB_SUCCESS, s') /\ sort_columns_ s' = Some cols /\
    reserved_columns_ (row_store_ s') = [] /\ store_ok (row_store_ s') (bytes ++ [row_bytes row]) /\
    sort_array_ s' = sort_array_ s ++ [stored_of [] row].
Proof.
  intros Hm Hc Hr Hok Hrow. destruct (kept_keepable d 0 row Hrow) as [Hkeep Hsz].
  destruct (store_add_row_ok malloc Hm (row_store_ s) bytes row Hok Hkeep) as (stored & st & E & Hst & Hg); [by rewrite Hr |].
  eexists. unfold isort_add_row. rewrite Hc, bind_some, E, bind_some. change (OB_SUCCESS =? OB_SUCCESS) with true. cbn iota.
  rewrite bind_some. cbn. conjs; [done | done | | by apply (grown_ok (row_store_ s)) | by rewrite Hst, Hr].
  destruct Hg as [Hk _ _ _]. cbn. by rewrite (ks_reserved _ _ Hk).
Qed.

Lemma reset_forgets_columns malloc cols ks d s rows array p r1 r2 :
  (forall size, malloc size = true) -> cols <> [] -> holds cols ks d s rows array p -> kept_row d 0 r1 -> kept_row d 0 r2 ->
  exists s1 s2, isort_add_row malloc (isort_reset s) r1 = Some (OB_SUCCESS, s1) /\
    isort_add_row malloc s1 r2 = Some (OB_SUCCESS, s2) /\ length (sort_array_ s2) = 2%nat /\
    forall x y, x ∈ sort_array_ s2 -> y ∈ sort_array_ s2 -> comparer cols (reserved_cells_ x) (reserved_cells_ y) = None.
Proof.
  intros Hm Hcols [H1 _ H3 _ _ _ _ _] Hr1 Hr2. destruct (clear_ok _ _ H3) as [Hok _].
  destruct (add_unreserved malloc cols d (isort_reset s) [] r1) as (s1 & E1 & Hc1 & Hres1 & Hok1 & Ha1); try done.
  destruct (add_unreserved malloc cols d s1 _ r2 Hm Hc1 Hres1 Hok1 Hr2) as (s2 & E2 & _ & _ & _ & Ha2).
  exists s1, s2. rewrite Ha2, Ha1. conjs; [done | done | done |].
  assert (Hnone : forall r, reserved_cells_ (stored_of [] r) = []).
  { intros r. apply nil_length_inv. cbn. by rewrite reserve_cells_length. }
  assert (Hall : Forall (fun x => reserved_cells_ x = []) ((sort_array_ (isort_reset s) ++ [stored_of [] r1]) ++ [stored_of [] r2]))
    by (repeat constructor; apply Hnone).
  rewrite Forall_forall in Hall. intros x y Hx Hy. rewrite (Hall x Hx), (Hall y Hy). by destruct cols.
Qed.
