(* ===== verification/Sort.v ===== *)
(** * ORDER BY: [sql/ob_sort.{h,cpp}]

    Opening the operator reads all rows of the child into the in-memory sort and
    sorts them; with a memory limit the rows go to a run file in sorted runs,
    which are merged.  The merge sort on disk ([ob_merge_sort.cpp]) is a
    parameter. *)

From S2P Require Import Prelude ObObject ObExprObj ObRowDesc ObRow ObCompactCell ObRowUtil ObRowStore RowStoreSpec PhyOperator RowKey.
From S2P Require Import SetOperator SingleChild InMemorySort.
From Stdlib Require Import Sorted Permutation.
From stdpp Require Import sorting.
Local Open Scope Z_scope.

(** ** The operations *)

(** What the operator calls of [ObMergeSort], which reads and writes the
    in-memory sort it is handed; [set_final_run] keeps a pointer to it. *)
Class MergeSortOps (M : Type) := {
  merge_set_sort_columns : M -> list ObSortColumn -> M;
  dump_run : M -> ObInMemorySort -> option (Z * M * ObInMemorySort);
  set_final_run : M -> M;
  build_merge_heap : M -> ObInMemorySort -> option (Z * M * ObInMemorySort);
  merge_get_next_row : M -> ObInMemorySort -> option (Z * option ObRow * M * ObInMemorySort);
  merge_reset : M -> M;
  merge_row_set_desc : M -> ObRowDesc -> M
}.

(** [reads_merge_]: [sort_reader_] is the merge sort.  [plan_checks_]: what the
    physical plan says at the calls of [get_next_row] to come, [OB_SUCCESS] to go
    on; without plan it is empty. *)
Record ObSort (C M : Type) := mkSort {
  sort_child_ : option C;
  op_sort_columns_ : list ObSortColumn;
  mem_size_limit_ : Z;
  in_mem_sort_ : ObInMemorySort;
  merge_sort_ : M;
  reads_merge_ : bool;
  plan_checks_ : list Z
}.
Arguments mkSort {C M}.
Arguments sort_child_ {C M}.
Arguments op_sort_columns_ {C M}.
Arguments mem_size_limit_ {C M}.
Arguments in_mem_sort_ {C M}.
Arguments merge_sort_ {C M}.
Arguments reads_merge_ {C M}.
Arguments plan_checks_ {C M}.

Section Operations.
Context {C M : Type} `{!ObPhyOperator C, !MergeSortOps M} {std : StdSort} (malloc : Z -> bool).
Implicit Types s : ObSort C M.

Definition ObSort_new (m : M) (plan : list Z) : ObSort C M := mkSort None [] 0 ObInMemorySort_new m false plan.

Definition with_sort_child s (c : option C) : ObSort C M :=
  mkSort c (op_sort_columns_ s) (mem_size_limit_ s) (in_mem_sort_ s) (merge_sort_ s) (reads_merge_ s) (plan_checks_ s).
Definition with_sorts s (i : ObInMemorySort) (m : M) (reads : bool) : ObSort C M :=
  mkSort (sort_child_ s) (op_sort_columns_ s) (mem_size_limit_ s) i m reads (plan_checks_ s).
Definition with_in_mem s (i : ObInMemorySort) : ObSort C M := with_sorts s i (merge_sort_ s) (reads_merge_ s).

(** The in-memory sort has a pointer to the columns. *)
Definition with_columns s (cols : list ObSortColumn) : ObSort C M :=
  let i := in_mem_sort_ s in
  mkSort (sort_child_ s) cols (mem_size_limit_ s)
    (mkInMemorySort ((fun _ => cols) <$> sort_columns_ i) (row_store_ i) (sort_array_ i) (sort_array_get_pos_ i) (isort_curr_row_ i)
       (isort_row_desc_ i))
    (merge_sort_ s) (reads_merge_ s) (plan_checks_ s).

Definition set_mem_size_limit s (limit : Z) : ObSort C M :=
  mkSort (sort_child_ s) (op_sort_columns_ s) limit (in_mem_sort_ s) (merge_sort_ s) (reads_merge_ s) (plan_checks_ s).

(** [in_mem_sort_.reset(); merge_sort_.reset(); sort_reader_ = &in_mem_sort_] *)
Definition reset_sorts s : ObSort C M := with_sorts s (isort_reset (in_mem_sort_ s)) (merge_reset (merge_sort_ s)) false.

Definition sort_reset s : ObSort C M := with_sort_child (reset_sorts (set_mem_size_limit (with_columns s []) 0)) None.

Definition sort_set_child s (child_idx : Z) (child : C) : Z * ObSort C M :=
  let '(ret, c) := single_set_child (sort_child_ s) child_idx child in (ret, with_sort_child s c).

Definition add_sort_column s (tid cid : Z) (is_ascending : bool) : Z * ObSort C M :=
  (OB_SUCCESS, with_columns s (op_sort_columns_ s ++ [mkSortColumn tid cid is_ascending])).

Definition need_dump s : bool :=
  if mem_size_limit_ s <=? 0 then false else mem_size_limit_ s <=? isort_used_mem_size (in_mem_sort_ s).

(** The loop of [do_sort] over the rows of the child, [k] bounds its rounds:
    the code, [need_merge] and the operator. *)
Fixpoint sort_loop (k fuel : nat) s (need_merge : bool) (input_row : option ObRow) : option (Z * bool * ObSort C M) :=
  match k with
  | O => None
  | S k' =>
      c ← sort_child_ s ;
      '(ret, input_row, c) ← child_next fuel c input_row ;
      let s := with_sort_child s (Some c) in
      if ret =? OB_SUCCESS then
        row ← input_row ;
        '(ret, i) ← isort_add_row malloc (in_mem_sort_ s) row ;
        let s := with_in_mem s i in
        if negb (ret =? OB_SUCCESS) then Some (ret, need_merge, s)
        else if need_dump s then
          '(ret, i) ← sort_rows (in_mem_sort_ s) ;
          if negb (ret =? OB_SUCCESS) then Some (ret, need_merge, with_in_mem s i)
          else
            '(ret, m, i) ← dump_run (merge_sort_ s) i ;
            if negb (ret =? OB_SUCCESS) then Some (ret, need_merge, with_sorts s i m (reads_merge_ s))
            else sort_loop k' fuel (with_sorts s (isort_reset i) m true) true input_row
        else sort_loop k' fuel s need_merge input_row
      else Some (ret, need_merge, s)
  end.

Definition do_sort (fuel : nat) s : option (Z * ObSort C M) :=
  let '(ret, i) := set_sort_columns (in_mem_sort_ s) (op_sort_columns_ s) in
  if negb (ret =? OB_SUCCESS) then Some (ret, with_in_mem s i)
  else
    let m := merge_set_sort_columns (merge_sort_ s) (op_sort_columns_ s) in
    '(ret, need_merge, s) ← sort_loop fuel fuel (with_sorts s i m (reads_merge_ s)) false None ;
    let ret := if ret =? OB_ITER_END then OB_SUCCESS else ret in
    if negb (ret =? OB_SUCCESS) then Some (ret, s)
    else
      '(ret, i) ← sort_rows (in_mem_sort_ s) ;
      if negb (ret =? OB_SUCCESS) then Some (ret, with_in_mem s i)
      else if (need_merge : bool) && (0 <? get_row_count i) then
        '(ret, m, i) ← build_merge_heap (set_final_run (merge_sort_ s)) i ;
        Some (ret, with_sorts s i m (reads_merge_ s))
      else Some (ret, with_in_mem s i).

Definition sort_open (fuel : nat) s : option (Z * ObSort C M) :=
  '(ret, c) ← single_open fuel (sort_child_ s) ;
  let s := with_sort_child s c in
  if ret =? OB_SUCCESS then do_sort fuel s else Some (ret, s).

Definition sort_close s : option (Z * ObSort C M) :=
  '(ret, c) ← single_close (sort_child_ s) ;
  Some (ret, with_sort_child (reset_sorts s) c).

Definition sort_get_row_desc s : Z * option ObRowDesc :=
  match sort_child_ s with
  | None => (OB_NOT_INIT, None)
  | Some c => op_get_row_desc c
  end.

(** [my_phy_plan_->is_timeout()] and [is_terminate(ret)] *)
Definition check_plan s : Z * ObSort C M :=
  match plan_checks_ s with
  | [] => (OB_SUCCESS, s)
  | code :: rest =>
      (code, mkSort (sort_child_ s) (op_sort_columns_ s) (mem_size_limit_ s) (in_mem_sort_ s) (merge_sort_ s)
               (reads_merge_ s) rest)
  end.

Definition sort_get_next_row (fuel : nat) s : option (Z * option ObRow * ObSort C M) :=
  let '(ret, s) := check_plan s in
  if negb (ret =? OB_SUCCESS) then Some (ret, None, s)
  else if reads_merge_ s then
    '(ret, row, m, i) ← merge_get_next_row (merge_sort_ s) (in_mem_sort_ s) ;
    Some (ret, row, with_sorts s i m true)
  else '(ret, row, i) ← isort_get_next_row (in_mem_sort_ s) ; Some (ret, row, with_in_mem s i).

Definition sort_row_set_desc s (d : ObRowDesc) : ObSort C M :=
  if reads_merge_ s then with_sorts s (in_mem_sort_ s) (merge_row_set_desc (merge_sort_ s) d) true
  else with_in_mem s (with_isort_row (in_mem_sort_ s) (set_row_desc (isort_curr_row_ (in_mem_sort_ s)) d)).

(** [operator=]: the columns and the limit of another sort. *)
Definition sort_assign s (other : ObSort C M) : ObSort C M :=
  set_mem_size_limit (with_columns (sort_reset s) (op_sort_columns_ other)) (mem_size_limit_ other).
End Operations.

#[export] Instance sort_operator {C M} `{!ObPhyOperator C, !MergeSortOps M} {std : StdSort} malloc : ObPhyOperator (ObSort C M) := {
  op_open := sort_open malloc;
  op_close := sort_close;
  op_get_next_row := sort_get_next_row;
  op_get_row_desc := sort_get_row_desc;
  op_row_set_desc := sort_row_set_desc
}.

(** ** What the child must promise

    The description is asked of the child when its rows have been read: it must
    not change on the way. *)

Section Reached.
Context {St : Type} `{!ObPhyOperator St}.

Inductive reached : St -> St -> Prop :=
| reached_here s : reached s s
| reached_next m s ret row s1 s2 : op_get_next_row m s = Some (ret, row, s1) -> reached s1 s2 -> reached s s2.

Definition keeps_desc (s : St) (d : ObRowDesc) : Prop :=
  forall s', reached s s' -> op_get_row_desc s' = (OB_SUCCESS, Some d).

(** [gives], with a description that stays. *)
Definition gives_always (s : St) (d : ObRowDesc) (rows : list ObRow) (ret : Z) : Prop :=
  exists s', opens s s' /\ keeps_desc s' d /\ Forall (fun r => set_row_desc r d = r) rows /\ runs s' rows ret.
End Reached.

(** ** The rows given *)

Section Rows.
Context {C M : Type} `{!ObPhyOperator C, !MergeSortOps M} {std : StdSort}.
Context (malloc : Z -> bool) (malloc_ok : forall size, malloc size = true).
Context (cols : list ObSortColumn) (ks : list column_kind) (d : ObRowDesc).

(** The sort columns are columns of the rows, none twice. *)
Record sort_setup : Prop := {
  ss_columns : key_columns d (sort_descs cols);
  ss_distinct : NoDup (sort_descs cols);
  ss_kinds : length cols = length ks;
  ss_many : SIZEOF_OBJ * Z.of_nat (length cols) <= 32 * 1024
}.
Context (Hset : sort_setup).

Let sort := sort_operator (C := C) (M := M) malloc.

(** The state while the operator reads and gives rows, without memory limit. *)
Definition sorting (c : C) (limit : Z) (i : ObInMemorySort) (m : M) (plan : list Z) : ObSort C M :=
  mkSort (Some c) cols limit i m false plan.

Lemma sort_loop_ok c limit i m plan kept rows ret row :
  limit <= 0 -> runs c rows ret -> holds cols ks d i kept kept 0 -> Forall (sortable cols ks d) rows ->
  exists c' i' n, reached c c' /\ holds cols ks d i' (kept ++ rows) (kept ++ rows) 0 /\
    forall k f, (n <= k)%nat -> (n <= f)%nat ->
      sort_loop malloc k f (sorting c limit i m plan) false row = Some (ret, false, sorting c' limit i' m plan).
Proof.
  intros Hlim Hr. revert i kept row. induction Hr as [c ret r c' Hret Hn | c r c' rows ret Hn Hlend Hr IH]; intros i kept row Hi Hs.
  - destruct Hn as [n Hn]. exists c', i, (S n). conjs.
    + eapply reached_next; [exact (Hn n ltac:(lia)) | constructor].
    + by rewrite app_nil_r.
    + intros [| k] f Hk Hf; [lia |]. cbn. unfold child_next. rewrite Hn by lia. cbn.
      by rewrite (proj2 (Z.eqb_neq _ _) Hret).
  - apply Forall_cons in Hs as [Hx Hs]. destruct Hset as [Hcols Hnd Hlen Hmany]. destruct Hn as [n Hn].
    destruct (isort_add_row_ok cols ks d malloc i kept kept r) as (i1 & E & Hi1); [done | done | done |].
    destruct (IH i1 (kept ++ [r]) (Some r)) as (c2 & i2 & n2 & Hc2 & Hi2 & Hloop); [done | done |].
    rewrite <- !app_assoc in Hi2. exists c2, i2, (S (n `max` n2)). conjs.
    + eapply reached_next; [exact (Hn n ltac:(lia)) | done].
    + done.
    + intros [| k] f Hk Hf; [lia |]. cbn [sort_loop sorting sort_child_]. rewrite bind_some. unfold child_next.
      rewrite Hn by lia. cbn. rewrite E. cbn. unfold need_dump. cbn.
      destruct (Z.leb_spec limit 0); [| lia]. apply (Hloop k f); lia.
Qed.

(** The operator as the plan builds it, new or closed after an earlier run. *)
Definition before_open (c : C) (limit : Z) (s : ObSort C M) : Prop :=
  exists i m plan, s = sorting c limit i m plan /\ isort_idle i /\ Forall (eq OB_SUCCESS) plan.

Lemma sort_open_reads c c1 limit i m plan rows ret :
  limit <= 0 -> isort_idle i -> opens c c1 -> runs c1 rows ret -> Forall (sortable cols ks d) rows ->
  exists c' i' n, reached c1 c' /\ holds cols ks d i' rows rows 0 /\ forall f, (n <= f)%nat ->
    sort_open malloc f (sorting c limit i m plan) =
      (let s i := sorting c' limit i (merge_set_sort_columns m cols) plan in
       if ret =? OB_ITER_END then '(ret, i) ← sort_rows i' ; Some (ret, s i) else Some (ret, s i')).
Proof.
  intros Hlim Hi [n0 Ho] Hr Hs. pose proof (runs_code _ _ _ Hr) as Hret. destruct Hset as [Hcols Hnd Hlen Hmany].
  destruct (set_sort_columns_ok cols ks d Hmany i Hi) as (i0 & E0 & Hi0).
  destruct (sort_loop_ok c1 limit i0 (merge_set_sort_columns m cols) plan [] rows ret None Hlim Hr Hi0 Hs)
    as (c' & i' & n & Hc' & Hi' & Hloop).
  exists c', i', (n0 `max` n)%nat. conjs; [done | done |]. intros f Hf. unfold sort_open, single_open.
  cbn [sorting sort_child_]. rewrite Ho, !bind_some by lia. change (OB_SUCCESS =? OB_SUCCESS) with true. cbn iota.
  unfold do_sort, with_sort_child, sorting. cbn [op_sort_columns_ in_mem_sort_]. rewrite E0.
  change (negb (OB_SUCCESS =? OB_SUCCESS)) with false. cbn iota zeta. specialize (Hloop f f ltac:(lia) ltac:(lia)).
  unfold with_sorts, sorting in *. cbn [sort_child_ op_sort_columns_ mem_size_limit_ merge_sort_ reads_merge_ plan_checks_].
  rewrite Hloop, bind_some. destruct (Z.eqb_spec ret OB_ITER_END) as [-> | Hne].
  - change (negb (OB_SUCCESS =? OB_SUCCESS)) with false. cbn iota. cbn [in_mem_sort_].
    destruct (sort_rows i') as [[r i2] |]; [| done]. rewrite !bind_some. by destruct (negb _).
  - rewrite (proj2 (Z.eqb_neq _ _) Hret). done.
Qed.

Lemma sort_open_ok c c1 limit i m plan rows :
  limit <= 0 -> isort_idle i -> opens c c1 -> runs c1 rows OB_ITER_END -> Forall (sortable cols ks d) rows ->
  exists c' i' array, reached c1 c' /\ holds cols ks d i' rows array 0 /\ array ≡ₚ rows /\
    StronglySorted (in_order cols) array /\
    settles (fun f => sort_open malloc f (sorting c limit i m plan))
      (OB_SUCCESS, sorting c' limit i' (merge_set_sort_columns m cols) plan).
Proof.
  intros Hlim Hi Ho Hr Hs.
  destruct (sort_open_reads c c1 limit i m plan rows OB_ITER_END Hlim Hi Ho Hr Hs) as (c' & i' & n & Hc' & Hi' & E).
  destruct (sort_rows_ok cols ks d (ss_columns Hset) (ss_distinct Hset) (ss_kinds Hset) i' rows Hi')
    as (i2 & array & E2 & Hi2 & Hp & Hsort).
  exists c', i2, array. conjs; [done | done | done | done |]. exists n. intros f Hf. by rewrite (E f Hf), E2.
Qed.

(** *** Reading *)

Lemma check_plan_ok c limit i m plan :
  Forall (eq OB_SUCCESS) plan ->
  exists plan', check_plan (sorting c limit i m plan) = (OB_SUCCESS, sorting c limit i m plan') /\
    Forall (eq OB_SUCCESS) plan'.
Proof. intros [| code plan' <- Hp]; [by exists [] | by exists plan']. Qed.

Lemma sort_next_ok c limit i m plan rows array p :
  Forall (eq OB_SUCCESS) plan -> array ≡ₚ rows -> holds cols ks d i rows array p ->
  exists plan', Forall (eq OB_SUCCESS) plan' /\
  match array !! p with
  | None => next (ObPhyOperator0 := sort) (sorting c limit i m plan) OB_ITER_END None (sorting c limit i m plan')
  | Some r => exists row i', holds cols ks d i' rows array (S p) /\ read_back d row r /\
      next (ObPhyOperator0 := sort) (sorting c limit i m plan) OB_SUCCESS (Some row) (sorting c limit i' m plan') /\
      lends (ObPhyOperator0 := sort) (sorting c limit i' m plan') row
  end.
Proof.
  intros Hplan Hp Hi. destruct (check_plan_ok c limit i m plan Hplan) as (plan' & Ec & Hplan').
  pose proof (isort_next_ok cols ks d i rows array p Hp Hi) as Hn. exists plan'. split; [done |].
  destruct (array !! p) as [r |].
  - destruct Hn as (row & i' & E & Hi' & Hrow & Hback). exists row, i'. conjs; [done | done | |].
    + exists 0%nat. intros f _. cbn. unfold sort_get_next_row. rewrite Ec. cbn. by rewrite E.
    + exists (fun row => sorting c limit (with_isort_row i' row) m plan'). split; [| done].
      rewrite <- Hrow. by destruct i'.
  - exists 0%nat. intros f _. cbn. unfold sort_get_next_row. rewrite Ec. cbn. by rewrite Hn.
Qed.

Lemma sort_runs c limit i m plan rows array p :
  Forall (eq OB_SUCCESS) plan -> array ≡ₚ rows -> holds cols ks d i rows array p ->
  exists out, runs_on (ObPhyOperator0 := sort) (sorting c limit i m plan) out /\ Forall2 (read_back d) out (drop p array).
Proof.
  intros Hplan Hp. remember (length array - p)%nat as n eqn:Hn. revert i plan p Hplan Hn.
  induction n as [| n IH]; intros i plan p Hplan Hn Hi.
  - exists []. rewrite drop_ge by lia. split; [| constructor]. constructor. intros k. revert plan Hplan.
    induction k as [| k IHk]; intros plan Hplan; cbn [ended];
      destruct (sort_next_ok c limit i m plan rows array p Hplan Hp Hi) as (plan' & Hplan' & Hnext);
      rewrite lookup_ge_None_2 in Hnext by lia; eexists _, _; (split; [exact Hnext |]); [done | by apply IHk].
  - destruct (lookup_lt_is_Some_2 array p) as [r Hr]; [lia |].
    destruct (sort_next_ok c limit i m plan rows array p Hplan Hp Hi) as (plan' & Hplan' & Hnext).
    rewrite Hr in Hnext. destruct Hnext as (row & i' & Hi' & Hback & Hnext & Hlend).
    destruct (IH i' plan' (S p) Hplan' ltac:(lia) Hi') as (out & Hruns & Hout). exists (row :: out).
    split; [by eapply runs_on_row |]. rewrite (drop_S _ _ _ Hr). by constructor.
Qed.

(** *** Invariants of the opened operator *)

Lemma sort_next_state c limit i m plan rows array p f ret row s' :
  Forall (eq OB_SUCCESS) plan -> array ≡ₚ rows -> holds cols ks d i rows array p ->
  sort_get_next_row f (sorting c limit i m plan) = Some (ret, row, s') ->
  exists i' plan' p', s' = sorting c limit i' m plan' /\ holds cols ks d i' rows array p' /\ Forall (eq OB_SUCCESS) plan'.
Proof.
  intros Hplan Hp Hi E. destruct (sort_next_ok c limit i m plan rows array p Hplan Hp Hi) as (plan' & Hplan' & Hn).
  assert (Heq : forall r o x, next (ObPhyOperator0 := sort) (sorting c limit i m plan) r o x -> s' = x).
  { intros r o x [n Hx]. specialize (Hx n ltac:(lia)). cbn in Hx.
    change (sort_get_next_row n) with (sort_get_next_row (M := M) (C := C) f) in Hx. congruence. }
  destruct (array !! p).
  - destruct Hn as (r' & i' & Hi' & _ & Hn & _). exists i', plan', (S p). by rewrite (Heq _ _ _ Hn).
  - exists i, plan', p. by rewrite (Heq _ _ _ Hn).
Qed.

Lemma sort_reached c limit i m plan rows array p s' :
  Forall (eq OB_SUCCESS) plan -> array ≡ₚ rows -> holds cols ks d i rows array p ->
  reached (ObPhyOperator0 := sort) (sorting c limit i m plan) s' ->
  exists i' plan' p', s' = sorting c limit i' m plan' /\ holds cols ks d i' rows array p' /\ Forall (eq OB_SUCCESS) plan'.
Proof.
  intros Hplan Hp Hi Hr. remember (sorting c limit i m plan) as s eqn:Es. revert i plan p Hplan Hi Es.
  induction Hr as [s | f s ret row s1 s2 E _ IH]; intros i plan p Hplan Hi ->; [by exists i, plan, p |].
  destruct (sort_next_state c limit i m plan rows array p f ret row s1 Hplan Hp Hi E) as (i' & plan' & p' & -> & Hi' & Hplan').
  by apply (IH i' plan' p').
Qed.

(** What the opened operator does: it gives the rows, keeps the description, and
    closed it can be opened again. *)
Record gives_sorted (c c1 : C) (limit : Z) (s s1 : ObSort C M) (rows array out : list ObRow) : Prop := {
  gs_permutation : array ≡ₚ rows;
  gs_sorted : StronglySorted (in_order cols) array;
  gs_opens : opens (ObPhyOperator0 := sort) s s1;
  gs_desc : keeps_desc (ObPhyOperator0 := sort) s1 d;
  gs_runs : runs_on (ObPhyOperator0 := sort) s1 out;
  gs_rows : Forall2 (read_back d) out array;
  gs_close : forall s2, reached (ObPhyOperator0 := sort) s1 s2 -> exists c2, sort_child_ s2 = Some c2 /\ reached c1 c2 /\
    forall ret c3, op_close c2 = Some (ret, c3) -> exists s3, sort_close s2 = Some (ret, s3) /\ before_open c3 limit s3
}.

Lemma sort_gives_sorted c c1 limit s rows :
  limit <= 0 -> before_open c limit s -> opens c c1 -> keeps_desc c1 d -> runs c1 rows OB_ITER_END ->
  Forall (sortable cols ks d) rows ->
  exists s1 array out, gives_sorted c c1 limit s s1 rows array out.
Proof.
  intros Hlim (i & m & plan & -> & Hi & Hplan) Ho Hd Hr Hs.
  destruct (sort_open_ok c c1 limit i m plan rows Hlim Hi Ho Hr Hs) as (c' & i' & array & Hc' & Hi' & Hp & Hsort & Hopen).
  destruct (sort_runs c' limit i' (merge_set_sort_columns m cols) plan rows array 0 Hplan Hp Hi') as (out & Hruns & Hout).
  rewrite drop_0 in Hout. eexists _, array, out. split; [done | done | exact Hopen | | done | done |].
  - intros s2 Hs2. destruct (sort_reached _ _ _ _ _ _ _ _ _ Hplan Hp Hi' Hs2) as (i2 & plan2 & p2 & -> & _). by apply Hd.
  - intros s2 Hs2. destruct (sort_reached _ _ _ _ _ _ _ _ _ Hplan Hp Hi' Hs2) as (i2 & plan2 & p2 & -> & Hi2 & Hp2).
    exists c'. conjs; [done | done |]. intros ret c3 Ec. eexists. unfold sort_close, single_close. cbn [sorting sort_child_].
    rewrite Ec, !bind_some. split; [done |]. eexists _, _, _. conjs; [done | | done].
    by apply (isort_reset_idle cols ks d i2 rows array p2).
Qed.
End Rows.

(** ** Building the operator *)

Definition sort_over {C M} (m : M) (plan : list Z) (c : C) (cols : list ObSortColumn) : ObSort C M :=
  fold_left (fun s col => (add_sort_column s (sort_table_id_ col) (sort_column_id_ col) (is_ascending_ col)).2) cols
    (sort_set_child (ObSort_new m plan) 0 c).2.

Lemma sort_over_ready {C M} (m : M) plan (c : C) cols :
  Forall (eq OB_SUCCESS) plan -> before_open cols c 0 (sort_over m plan c cols).
Proof.
  intros Hp. exists ObInMemorySort_new, m, plan. conjs; [| | done].
  - unfold sort_over. cbn.
    assert (Hf : forall l l0, fold_left (fun s col => (add_sort_column s (sort_table_id_ col) (sort_column_id_ col) (is_ascending_ col)).2) l
              (sorting l0 c 0 ObInMemorySort_new m plan) = sorting (l0 ++ l) c 0 ObInMemorySort_new m plan).
    { induction l as [| [t k a] l IH]; intros l0; [by rewrite app_nil_r |]. specialize (IH (l0 ++ [mkSortColumn t k a])).
      rewrite <- app_assoc in IH. exact IH. }
    apply (Hf cols []).
  - by split.
Qed.

(** ** Examples *)

(** No merge sort: the examples have no memory limit. *)
Definition no_merge : MergeSortOps unit := {|
  merge_set_sort_columns := fun m _ => m;
  dump_run := fun _ _ => None;
  set_final_run := fun m => m;
  build_merge_heap := fun _ _ => None;
  merge_get_next_row := fun _ _ => None;
  merge_reset := fun m => m;
  merge_row_set_desc := fun m _ => m
|}.

Lemma list_scan_keeps_desc s : keeps_desc (St := ListScan) s (scan_desc s).
Proof.
  intros s' Hr. assert (H : scan_desc s' = scan_desc s); [| cbn; by rewrite H].
  induction Hr as [| m s ret row s1 s2 E _ IH]; [done |]. rewrite IH. cbn in E. destruct (scan_rest s); by simplify_eq.
Qed.

Lemma int_scan_gives_always c ns : gives_always (int_scan c ns) (int_desc c) (map (int_row c) ns) OB_ITER_END.
Proof.
  destruct (int_scan_gives c ns) as (c1 & Ho & Hd & Hr). exists c1. conjs; [done | | apply Hr | apply Hr].
  injection Hd as <-. apply list_scan_keeps_desc.
Qed.

Definition int_sort (c : Z) (ascending : bool) : list ObSortColumn := [mkSortColumn 1 c ascending].

Section IntRows.
Context (c : Z) (Hid : valid_column_id c) (Hc : c <> 0).

Lemma int_sort_setup ascending : sort_setup (int_sort c ascending) [KInt] (int_desc c).
Proof. split; [by apply int_key_columns | apply NoDup_singleton | done | done]. Qed.

Lemma int_rows_sortable ascending ns :
  Forall int64_range ns -> Forall (sortable (int_sort c ascending) [KInt] (int_desc c)) (map (int_row c) ns).
Proof.
  intros Hns. apply Forall_fmap. eapply Forall_impl; [exact Hns |]. intros n Hn. split; [by apply int_row_kept |].
  cbn [sort_descs int_sort map sort_table_id_ sort_column_id_]. rewrite int_row_key by done.
  constructor; [by repeat right | constructor].
Qed.

(** The sorted ints are determined. *)
Lemma int_rows_sorted ns ns' array :
  array ≡ₚ map (int_row c) ns -> StronglySorted (in_order (int_sort c true)) array ->
  ns ≡ₚ ns' -> StronglySorted Z.le ns' -> array = map (int_row c) ns'.
Proof.
  intros Hp Hs Hn Hs'. destruct (Permutation_map_inv _ _ Hp) as (l & -> & Hl). f_equal.
  apply (StronglySorted_unique Z.le); [| done | by rewrite <- Hl].
  apply StronglySorted_map in Hs. eapply (StronglySorted_weaken (fun _ => True)); [| by apply Forall_true | exact Hs].
  intros x y _ _. unfold in_order. cbn [sort_descs int_sort map sort_table_id_ sort_column_id_]. rewrite !int_row_key by done.
  cbn. unfold compare_value.
  change (compare (set_int ObObj_new x false) (set_int ObObj_new y false)) with (Some (cmp3 x y)).
  cbn. unfold cmp3. repeat case_match; lia.
Qed.
End IntRows.

(** ** Theorems *)

(** C8: ORDER BY.  Without memory limit the operator opens over a child that
    ends, and then gives the rows of the child, each cell as it was, in the order
    of the sort columns, each in its direction, and [OB_ITER_END] from then on;
    it has the child's description, and closed at any moment it is ready to be
    opened again.  When the child fails, opening returns its code. *)
Theorem sort_correct {C M} `{!ObPhyOperator C, !MergeSortOps M} {std : StdSort} (malloc : Z -> bool)
    cols ks d (c c1 : C) limit (s : ObSort C M) rows ret
    (Hm : forall size, malloc size = true) (Hset : sort_setup cols ks d) (Hlim : limit <= 0)
    (Hs : before_open cols c limit s) (Ho : opens c c1) (Hd : keeps_desc c1 d) (Hr : runs c1 rows ret)
    (Hrows : Forall (sortable cols ks d) rows) :
  if ret =? OB_ITER_END then exists s1 array out, gives_sorted malloc cols d c c1 limit s s1 rows array out
  else exists s1, settles (fun f => sort_open malloc f s) (ret, s1).
Proof.
  destruct (Z.eqb_spec ret OB_ITER_END) as [-> | Hne]; [by apply (sort_gives_sorted malloc Hm cols ks d Hset) |].
  destruct Hs as (i & m & plan & -> & Hi & _).
  destruct (sort_open_reads malloc Hm cols ks d Hset c c1 limit i m plan rows ret Hlim Hi Ho Hr Hrows)
    as (c' & i' & n & _ & _ & E).
  eexists. exists n. intros f Hf. rewrite (E f Hf), (proj2 (Z.eqb_neq _ _) Hne). done.
Qed.

Lemma sort_correct_witness :
  exists s1 out, opens (ObPhyOperator0 := sort_operator (MergeSortOps0 := no_merge) (std := insertion) (fun _ => true))
      (sort_over tt [] (int_scan 16 [3; 1; 2]) (int_sort 16 true)) s1 /\
    runs_on (ObPhyOperator0 := sort_operator (MergeSortOps0 := no_merge) (std := insertion) (fun _ => true)) s1 out /\
    Forall2 (read_back (int_desc 16)) out (map (int_row 16) [1; 2; 3]).
Proof.
  assert (Hid : valid_column_id 16) by (vm_compute; intuition congruence).
  destruct (int_scan_gives_always 16 [3; 1; 2]) as (c1 & Ho & Hk & _ & Hr).
  destruct (sort_correct (MergeSortOps0 := no_merge) (std := insertion) (fun _ => true) (int_sort 16 true) [KInt]
    (int_desc 16) (int_scan 16 [3; 1; 2]) c1 0 (sort_over tt [] (int_scan 16 [3; 1; 2]) (int_sort 16 true))
    (map (int_row 16) [3; 1; 2]) OB_ITER_END) as (s1 & array & out & [Hp Hs Hopen _ Hruns Hout _]).
  - done.
  - by apply int_sort_setup.
  - done.
  - by apply sort_over_ready.
  - exact Ho.
  - exact Hk.
  - exact Hr.
  - apply int_rows_sortable; [done | done |]. repeat constructor; vm_compute; congruence.
  - exists s1, out. conjs; [done | done |].
    rewrite (int_rows_sorted 16 Hid ltac:(done) [3; 1; 2] [1; 2; 3] array Hp Hs) in Hout; [done | |].
    + apply (bool_decide_eq_true_1 _). by vm_compute.
    + repeat constructor; lia.
Defined.
