(* ===== verification/SortJoin.v ===== *)
(** * A merge join over two sorts

    The plan puts a sort on the join columns under each side of a merge join
    ([ob_transformer.cpp]).  Together they give the join of the relational algebra
    whatever the order of the children's rows. *)

From S2P Require Import Prelude ObObject ObExprObj ObRowDesc ObRow ObCompactCell ObRowUtil ObRowStore RowStoreSpec.
From S2P Require Import PhyOperator RowKey SetOperator JoinSpec MergeJoin MergeJoinRun MergeJoinRows MergeDistinct.
From S2P Require Import InMemorySort Sort.
From Stdlib Require Import Sorted Permutation.
Local Open Scope Z_scope.

(** ** Sorting by the join columns *)

Definition join_sort (cols : list Desc) : list ObSortColumn :=
  map (fun c => mkSortColumn (table_id_ c) (column_id_ c) true) cols.

Lemma join_sort_descs cols : sort_descs (join_sort cols) = cols.
Proof. unfold sort_descs, join_sort. rewrite map_map. rewrite <- (map_id cols) at 2. apply map_ext. by intros []. Qed.

Lemma typed_column k o : typed_cell k o -> column_value k.1 o.
Proof. intros [Ho _]. by repeat right. Qed.

Lemma typed_columns ks l : Forall2 typed_cell ks l -> Forall2 column_value (map fst ks) l.
Proof. induction 1; constructor; [by apply typed_column | done]. Qed.

Lemma join_sort_compare cols ks l1 l2 :
  length cols = length ks -> Forall2 typed_cell ks l1 -> Forall2 typed_cell ks l2 ->
  sort_compare (join_sort cols) l1 l2 = cells_compare l1 l2.
Proof.
  intros Hl H1. revert cols l2 Hl. induction H1 as [| k o1 ks l1 Ho1 _ IH]; intros [| c cols] l2 Hl H2; try done.
  apply Forall2_cons_inv_l in H2 as (o2 & l2' & Ho2 & H2 & ->). cbn [join_sort map sort_compare is_ascending_ cells_compare].
  unfold compare_value. rewrite (compare_typed k o1 o2) by done. cbn [from_option id].
  destruct (_ =? 0); [| done]. apply IH; [by injection Hl | done].
Qed.

Lemma same_cells_compare ks l1' l1 l2' l2 :
  Forall2 same_cell l1' l1 -> Forall2 same_cell l2' l2 -> Forall2 typed_cell ks l1 -> Forall2 typed_cell ks l2 ->
  cells_compare l1' l2' = cells_compare l1 l2.
Proof.
  intros H1 H2 T1. revert l1' l2' l2 H1 H2. induction T1 as [| k o1 ks l1 Ho1 _ IH]; intros l1' l2' l2 H1 H2 T2.
  - by apply Forall2_nil_inv_r in H1 as ->.
  - apply Forall2_cons_inv_r in H1 as (v1 & l1'' & Hv1 & H1 & ->). apply Forall2_cons_inv_l in T2 as (o2 & l2'' & Ho2 & T2 & ->).
    apply Forall2_cons_inv_r in H2 as (v2 & l2''' & Hv2 & H2 & ->). cbn [cells_compare].
    rewrite (same_compare k v1 o1 v2 o2) by done. destruct (_ =? 0); [| done]. by apply IH.
Qed.

Lemma StronglySorted_related {A B} (S : A -> B -> Prop) (R : B -> B -> Prop) (R' : A -> A -> Prop) l' l :
  (forall x' x y' y, S x' x -> S y' y -> R x y -> R' x' y') -> Forall2 S l' l -> StronglySorted R l -> StronglySorted R' l'.
Proof.
  intros HS. induction 1 as [| x' x l' l Hx Hl IH]; [constructor |]. intros [Hs Hb]%StronglySorted_inv.
  constructor; [by apply IH |]. clear IH Hs. induction Hl as [| y' y l' l Hy _ IH]; [constructor |].
  apply Forall_cons in Hb as [Hy' Hb]. constructor; [by apply (HS x' x y' y) | by apply IH].
Qed.

(** ** One side *)

Section Side.
Context {C M : Type} `{!ObPhyOperator C, !MergeSortOps M} {std : StdSort}.
Context (malloc : Z -> bool) (malloc_ok : forall size, malloc size = true).
Context (ks : list (column_kind * ObObjType)) (cols : list Desc) (d : ObRowDesc).

(** The rows of a side: they can be kept, their join columns are typed and not
    null. *)
Definition side_row (r : ObRow) : Prop := kept_row d (length cols) r /\ Forall2 typed_cell ks (row_key cols r).

(** No join column is used twice on a side. *)
Record side_setup : Prop := {
  sd_columns : key_columns d cols;
  sd_once : NoDup cols;
  sd_kinds : length cols = length ks;
  sd_many : SIZEOF_OBJ * Z.of_nat (length cols) <= 32 * 1024
}.
Context (Hset : side_setup).

Lemma side_sort_setup : sort_setup (join_sort cols) (map fst ks) d.
Proof. destruct Hset. split; rewrite ?join_sort_descs; [done | done | |]; unfold join_sort; by rewrite !length_map. Qed.

Lemma side_sortable r : side_row r -> sortable (join_sort cols) (map fst ks) d r.
Proof.
  intros [Hk Ht]. split; [unfold join_sort; by rewrite length_map |]. rewrite join_sort_descs. by apply typed_columns.
Qed.

(** A sorted row and the row it was. *)
Definition sorted_from (row r : ObRow) : Prop := read_back d row r /\ side_row r.

Lemma sorted_from_key row r : sorted_from row r -> Forall2 same_cell (row_key cols row) (row_key cols r).
Proof. intros [[Hw Hd Hc _] [[Hwr Hdr _ _ _] _]]. destruct Hset. by apply (row_key_same cols r row d). Qed.

Lemma sorted_from_keyed row r : sorted_from row r -> keyed_row ks d cols row.
Proof.
  intros H. pose proof (sorted_from_key row r H) as Hkey. destruct H as [[Hw Hd Hc _] [Hk Ht]].
  split; [by apply (same_cells_kept d (length cols) r) | by apply (same_cells_typed ks _ (row_key cols r))].
Qed.

Lemma sorted_from_compare x' x y' y :
  sorted_from x' x -> sorted_from y' y -> in_order (join_sort cols) x y -> cells_compare (row_key cols x') (row_key cols y') <= 0.
Proof.
  intros Hx Hy. unfold in_order. rewrite join_sort_descs, (join_sort_compare cols ks) by (apply Hset || apply Hx || apply Hy).
  rewrite (same_cells_compare ks (row_key cols x') (row_key cols x) (row_key cols y') (row_key cols y));
    [done | by apply sorted_from_key | by apply sorted_from_key | apply Hx | apply Hy].
Qed.

Lemma side_gives c m plan rows :
  Forall (eq OB_SUCCESS) plan -> gives_always c d rows OB_ITER_END -> Forall side_row rows ->
  let s := sort_over m plan c (join_sort cols) in
  exists array out, array ≡ₚ rows /\ Forall2 sorted_from out array /\
    gives (ObPhyOperator0 := sort_operator (C := C) (M := M) malloc) s d out OB_ITER_END /\
    gives_on (ObPhyOperator0 := sort_operator (C := C) (M := M) malloc) s d out /\
    Forall (keyed_row ks d cols) out /\
    StronglySorted (fun x y => cells_compare (row_key cols x) (row_key cols y) <= 0) out.
Proof.
  intros Hplan (c1 & Ho & Hd & _ & Hr) Hrows s.
  destruct (sort_gives_sorted malloc malloc_ok (join_sort cols) (map fst ks) d side_sort_setup c c1 0 s rows)
    as (s1 & array & out & [Hp Hs Hopen Hdesc Hruns Hout _]); [done | by apply sort_over_ready | done | done | done | |].
  { eapply Forall_impl; [exact Hrows |]. apply side_sortable. }
  assert (Hfrom : Forall2 sorted_from out array).
  { rewrite <- Hp in Hrows. clear -Hout Hrows. induction Hout as [| x' x out array Hx _ IH]; [constructor |].
    apply Forall_cons in Hrows as [H1 H2]. constructor; [done | by apply IH]. }
  exists array, out. conjs; [done | done | | | |].
  - exists s1. conjs; [done | apply Hdesc; constructor | | by apply runs_on_runs].
    clear -Hout. induction Hout as [| x' x out array Hx _ IH]; constructor; [apply Hx | done].
  - exists s1. conjs; [done | apply Hdesc; constructor | done].
  - clear -Hfrom Hset. induction Hfrom; constructor; [by eapply sorted_from_keyed | done].
  - eapply (StronglySorted_related sorted_from); [| exact Hfrom | exact Hs]. intros. by eapply sorted_from_compare.
Qed.
End Side.

(** ** Both sides *)

Record unsorted_input (ks : list (column_kind * ObObjType)) (cs : list (Desc * Desc)) (dl dr : ObRowDesc)
    (L R : list ObRow) : Prop := {
  ui_conds : cs <> [];
  ui_left : side_setup ks (map fst cs) dl;
  ui_right : side_setup ks (map snd cs) dr;
  ui_descs : rowdesc_wf dl /\ rowdesc_wf dr;
  ui_distinct : NoDup (columns dl ++ columns dr);
  ui_count : get_column_num dl + get_column_num dr <= MAX_COLUMNS_COUNT;
  ui_left_rows : Forall (side_row ks (map fst cs) dl) L;
  ui_right_rows : Forall (side_row ks (map snd cs) dr) R
}.

(** What the other conditions decide does not depend on leftovers in the cells. *)
Definition respects_cells (q : list ObObj -> bool) : Prop := forall c c', Forall2 same_cell c c' -> q c = q c'.

Lemma rows_are_same out cells cells' : rows_are out cells -> Forall2 (Forall2 same_cell) cells cells' -> rows_are out cells'.
Proof.
  intros Hr. revert cells'. induction Hr as [| row c out cells Hrow _ IH]; intros cells' Hs.
  - apply Forall2_nil_inv_l in Hs as ->. constructor.
  - apply Forall2_cons_inv_l in Hs as (c' & cells2 & Hc & Hs & ->). constructor; [by transitivity c | by apply IH].
Qed.

Lemma rows_are_related out c1 c2 c3 c4 :
  rows_are out c1 -> c1 ≡ₚ c2 -> Forall2 (Forall2 same_cell) c2 c3 -> c3 ≡ₚ c4 -> exists c, rows_are out c /\ c ≡ₚ c4.
Proof.
  intros Hr Hp Hs Hp'. destruct (Permutation_Forall2 (Permutation_sym Hp) Hs) as (c & Hc & Hs').
  exists c. split; [by apply (rows_are_same out c1) | by rewrite <- Hc].
Qed.

Section Both.
Context (ks : list (column_kind * ObObjType)) (cs : list (Desc * Desc)) (dl dr : ObRowDesc) (left_outer right_outer : bool).
Context (Hl : side_setup ks (map fst cs) dl) (Hr : side_setup ks (map snd cs) dr).

Lemma joined_related L' L R' R :
  Forall2 (sorted_from ks (map fst cs) dl) L' L -> Forall2 (sorted_from ks (map snd cs) dr) R' R ->
  Forall2 (Forall2 same_cell) (joined cs dl dr left_outer right_outer L' R') (joined cs dl dr left_outer right_outer L R).
Proof.
  apply sql_join_related.
  - intros x' x y' y Hx Hy. apply (same_cells_compare ks); [by apply (sorted_from_key ks _ dl Hl) |
      by apply (sorted_from_key ks _ dr Hr) | apply Hx | apply Hy].
  - intros x' x y' y [[_ _ Hx _] _] [[_ _ Hy _] _]. by apply Forall2_app.
  - intros x' x [[_ _ Hx _] _]. apply Forall2_app; [done | apply same_cells_refl].
  - intros y' y [[_ _ Hy _] _]. apply Forall2_app; [apply same_cells_refl | done].
Qed.
End Both.

Abbreviation int n := (set_int ObObj_new n false).

(** ** Theorems *)

(** C4: A join query end to end.  A merge join over two sorts on the join columns,
    as the plan builds it, gives for each join type the rows of the join of the
    relational algebra of the children's rows that satisfy the other conditions,
    each as often as the join has it, and then [OB_ITER_END]: nothing is asked of
    the order of the children's rows.  The join columns are typed and not null,
    and none is used twice on a side. *)
Theorem sorted_join_correct {C M} `{!ObPhyOperator C, !MergeSortOps M} {std : StdSort} obj_cast (malloc : Z -> bool)
    (d0 : ObRowDesc) (l r : C) (m1 m2 : M) plan1 plan2 (t : JoinType) (left_outer right_outer : bool)
    ks cs others dl dr L R (q : list ObObj -> bool)
    (Hm : forall size, malloc size = true) (Hd0 : rowdesc_wf d0)
    (Hsides : join_sides t = Some (left_outer, right_outer)) (Hin : unsorted_input ks cs dl dr L R)
    (Hq : conditions_decide others (joined_desc d0 dl dr) q) (Hrespects : respects_cells q)
    (Hplan1 : Forall (eq OB_SUCCESS) plan1) (Hplan2 : Forall (eq OB_SUCCESS) plan2)
    (Hl : gives_always l dl L OB_ITER_END) (Hr : gives_always r dr R OB_ITER_END) :
  exists out cells,
    gives (ObPhyOperator0 := join_operator (ObPhyOperator0 := sort_operator malloc) obj_cast malloc true)
      (join_over d0 (sort_over m1 plan1 l (join_sort (map fst cs))) (sort_over m2 plan2 r (join_sort (map snd cs))) t
         (map Some cs) others)
      (joined_desc d0 dl dr) out OB_ITER_END /\
    rows_are out cells /\
    cells ≡ₚ filter (fun c => q c = true) (joined cs dl dr left_outer right_outer L R).
Proof.
  destruct Hin as [Hcs Hsl Hsr Hdescs Hdist Hcount HL HR].
  destruct (side_gives malloc Hm ks (map fst cs) dl Hsl l m1 plan1 L Hplan1 Hl HL) as (La & Lo & HpL & HfL & HgL & HonL & HkL & HsL).
  destruct (side_gives malloc Hm ks (map snd cs) dr Hsr r m2 plan2 R Hplan2 Hr HR) as (Ra & Ro & HpR & HfR & HgR & _ & HkR & HsR).
  assert (Hin' : join_input ks cs dl dr Lo Ro) by (split; try done; [apply Hsl | apply Hsr]).
  destruct (join_gives (ObPhyOperator0 := sort_operator malloc) obj_cast malloc Hm t left_outer right_outer Hsides ks cs dl dr d0
    Lo Ro Hd0 Hin' others q Hq (sort_over m1 plan1 l (join_sort (map fst cs))) (sort_over m2 plan2 r (join_sort (map snd cs))))
    as (out & Hg & Hout); [unfold left_gives; by destruct right_outer | done |].
  set (kept L R := filter (fun c => q c = true) (joined cs dl dr left_outer right_outer L R)).
  destruct (rows_are_related out _ (kept Lo Ro) (kept La Ra) (kept L R) Hout) as (cells & Hcells & Hp).
  - apply filter_Permutation. by apply (merged_joined ks cs dl dr left_outer right_outer Lo Ro).
  - apply filter_related; [| by apply (joined_related ks cs dl dr left_outer right_outer Hsl Hsr Lo La Ro Ra)].
    intros c c' Hc. by rewrite (Hrespects c c' Hc).
  - apply filter_Permutation. by apply sql_join_permutation.
  - by exists out, cells.
Qed.

Lemma int_side c ns :
  valid_column_id c -> c <> 0 -> Forall int64_range ns ->
  side_setup int_column [mkDesc 1 c] (int_desc c) /\ Forall (side_row int_column [mkDesc 1 c] (int_desc c)) (map (int_row c) ns).
Proof.
  intros Hid Hc Hns. split; [split; [by apply int_key_columns | apply NoDup_singleton | done | done] |].
  apply Forall_fmap. eapply Forall_impl; [exact Hns |]. intros n Hn. split; [by apply int_row_kept | by apply int_row_keyed].
Qed.

Lemma sorted_join_correct_witness :
  exists out cells,
    gives (ObPhyOperator0 := join_operator
        (ObPhyOperator0 := sort_operator (MergeSortOps0 := no_merge) (std := insertion) (fun _ => true))
        (fun _ _ _ => None) (fun _ => true) true)
      (join_over (rowdesc_of []) (sort_over tt [] (int_scan 16 [4; 2; 1; 2]) (join_sort [mkDesc 1 16]))
         (sort_over tt [] (int_scan 17 [3; 2]) (join_sort [mkDesc 1 17])) LEFT_OUTER_JOIN (map Some int_cs) [])
      (joined_desc (rowdesc_of []) (int_desc 16) (int_desc 17)) out OB_ITER_END /\
    rows_are out cells /\ cells ≡ₚ [[int 2; int 2]; [int 2; int 2]; [int 4; null_cell]; [int 1; null_cell]].
Proof.
  assert (Hid : valid_column_id 16 /\ valid_column_id 17) by (vm_compute; intuition congruence). destruct Hid as [Hid1 Hid2].
  destruct (int_side 16 [4; 2; 1; 2] Hid1 ltac:(done)) as [Hs1 Hr1]; [repeat constructor; vm_compute; congruence |].
  destruct (int_side 17 [3; 2] Hid2 ltac:(done)) as [Hs2 Hr2]; [repeat constructor; vm_compute; congruence |].
  destruct (sorted_join_correct (MergeSortOps0 := no_merge) (std := insertion) (fun _ _ _ => None) (fun _ => true) (rowdesc_of [])
    (int_scan 16 [4; 2; 1; 2]) (int_scan 17 [3; 2]) tt tt [] [] LEFT_OUTER_JOIN true false int_column int_cs []
    (int_desc 16) (int_desc 17) (map (int_row 16) [4; 2; 1; 2]) (map (int_row 17) [3; 2]) (fun _ => true))
    as (out & cells & H1 & H2 & H3).
  - done.
  - apply rowdesc_of_spec; [constructor | vm_compute; congruence].
  - done.
  - split; [done | exact Hs1 | exact Hs2 | split; apply int_desc_spec | | | exact Hr1 | exact Hr2].
    + rewrite (proj2 (int_desc_spec 16)), (proj2 (int_desc_spec 17)). apply (bool_decide_eq_true_1 _). by vm_compute.
    + rewrite !int_desc_num. by vm_compute.
  - done.
  - done.
  - done.
  - done.
  - apply int_scan_gives_always.
  - apply int_scan_gives_always.
  - exists out, cells. conjs; [exact H1 | done |].
    assert (E : filter (fun _ : list ObObj => true = true) (joined int_cs (int_desc 16) (int_desc 17) true false
      (map (int_row 16) [4; 2; 1; 2]) (map (int_row 17) [3; 2])) =
      [[int 2; int 2]; [int 2; int 2]; [int 4; null_cell]; [int 1; null_cell]]) by (vm_compute; reflexivity).
    by rewrite E in H3.
Defined.
