(* ===== verification/SortDistinct.v ===== *)
(** * DISTINCT over a sort

    The plan of SELECT DISTINCT is [ObMergeDistinct] over a sort on the same
    columns ([ob_transformer.cpp], [gen_phy_distinct]). *)

From S2P Require Import Prelude ObObject ObExprObj ObRowDesc ObRow ObCompactCell ObRowUtil ObRowStore RowStoreSpec.
From S2P Require Import PhyOperator RowKey SetOperator JoinSpec MergeDistinct InMemorySort Sort SortJoin.
From Stdlib Require Import Sorted Permutation.
Local Open Scope Z_scope.

Section Distinct.
Context (ks keys : list (column_kind * ObObjType)) (d : ObRowDesc) (cols : list Desc).

(** The kinds of the distinct columns are those of the description. *)
Record distinct_setup : Prop := {
  ds_desc : typed_desc ks d;
  ds_side : side_setup keys cols d;
  ds_kinds : Forall2 (fun k tc => exists i : nat, column_position d tc.1 tc.2 = Some (Z.of_nat i) /\ ks !! i = Some k)
               keys (map desc_ids cols);
  ds_some : cols <> []
}.
Context (Hset : distinct_setup).

Abbreviation distinct_row := (described_row ks d).
Abbreviation distinct_compare := (keys_compare (map desc_ids cols)).

Lemma key_cells_row_key r : key_cells (map desc_ids cols) r = row_key cols r.
Proof. unfold key_cells, row_key. by rewrite map_map. Qed.

Lemma distinct_row_key r : distinct_row r -> Forall2 typed_cell keys (row_key cols r).
Proof. rewrite <- key_cells_row_key. apply key_cells_typed, (ds_kinds Hset). Qed.

Lemma typed_not_extend k o : typed_cell k o -> type_ o <> ObExtendType.
Proof. intros [Ho _] E. destruct (k.1); cbn in Ho; rewrite E in Ho; try done; by destruct Ho. Qed.

Lemma distinct_side_row r : distinct_row r -> side_row keys cols d r.
Proof.
  intros Hr. pose proof (distinct_row_key r Hr) as Hk. destruct Hr as [[Hw _ Ht Hs Hsz] Hd]. split; [| done].
  split; [done | done | | |].
  - split; [done |]. unfold row_column_ids. rewrite Hd. apply (ds_desc Hset).
  - unfold no_extend. apply (Forall2_Forall_r _ _ _ _ Ht), Forall_true. intros k o. apply typed_not_extend.
  - pose proof (sd_many _ _ _ (ds_side Hset)).
    unfold get_reserved_cells_size, SIZEOF_STORED_ROW, SIZEOF_OBJ, BIG_BLOCK_SIZE, SIZEOF_BLOCK_INFO, OB_ROW_BUF_SIZE in *. lia.
Qed.

Lemma sorted_from_described row r : sorted_from keys cols d row r -> distinct_row r -> distinct_row row.
Proof.
  intros [[Hw Hd Hc _] _] [[_ _ Ht Hs Hsz] _]. destruct (same_cells_size _ _ Hc Hs) as [Hs' Hsz'].
  split; [| done]. split; [done | | by apply (same_cells_typed ks _ (row_cells r)) | done | by rewrite Hsz'].
  exists d. split; [done | apply (ds_desc Hset)].
Qed.

Lemma sorted_from_distinct row r x :
  sorted_from keys cols d row r -> distinct_row r -> distinct_row x -> distinct_compare row x = distinct_compare r x.
Proof.
  intros Hf Hr Hx. unfold keys_compare. rewrite !key_cells_row_key. apply (same_cells_compare keys);
    [by apply (sorted_from_key keys cols d (ds_side Hset)) | apply same_cells_refl | by apply distinct_row_key | by apply distinct_row_key].
Qed.

Lemma count_sorted array out rows x :
  array ≡ₚ rows -> Forall2 (sorted_from keys cols d) out array -> Forall distinct_row rows -> distinct_row x ->
  count distinct_compare x out = count distinct_compare x rows.
Proof.
  intros Hp Hf Hr Hx. unfold count. rewrite <- Hp in Hr. transitivity (length (filter (fun z => distinct_compare z x = 0) array)).
  - clear Hp. induction Hf as [| row r out array Hrow _ IH]; [done |]. apply Forall_cons in Hr as [Hr1 Hr].
    rewrite !filter_cons, (sorted_from_distinct row r x) by done. destruct (decide _); cbn [length]; by rewrite IH.
  - apply Permutation_length, filter_Permutation, Hp.
Qed.
End Distinct.

(** ** Theorems *)

(** C20: SELECT DISTINCT end to end.  Over a child whose rows come in any order,
    the merge distinct over a sort on the distinct columns, as the plan builds it,
    gives rows of the child, exactly one of each class of rows that agree on the
    distinct columns, and then [OB_ITER_END].  The columns are typed and not
    null. *)
Theorem select_distinct {C M} `{!ObPhyOperator C, !MergeSortOps M} {std : StdSort} (malloc : Z -> bool)
    (c : C) (m : M) plan ks keys d cols rows
    (Hm : forall size, malloc size = true) (Hset : distinct_setup ks keys d cols) (Hplan : Forall (eq OB_SUCCESS) plan)
    (Hc : gives_always c d rows OB_ITER_END) (Hrows : Forall (described_row ks d) rows) :
  exists out,
    gives (ObPhyOperator0 := distinct_operator (ObPhyOperator0 := sort_operator malloc) true)
      (distinct_over (map desc_ids cols) (sort_over m plan c (join_sort cols))) d out OB_ITER_END /\
    Forall (fun row => exists r, r ∈ rows /\ Forall2 same_cell (row_cells row) (row_cells r)) out /\
    forall x, described_row ks d x ->
      count (keys_compare (map desc_ids cols)) x out = (1 `min` count (keys_compare (map desc_ids cols)) x rows)%nat.
Proof.
  destruct (side_gives malloc Hm keys cols d (ds_side _ _ _ _ Hset) c m plan rows Hplan Hc) as (array & sorted_rows & Hp & Hf & Hg & _ & _ & Hs).
  { eapply Forall_impl; [exact Hrows |]. intros r. by apply (distinct_side_row ks). }
  assert (Hd : Forall (described_row ks d) sorted_rows).
  { rewrite <- Hp in Hrows. clear -Hf Hrows Hset. induction Hf as [| row r out array Hrow _ IH]; [constructor |].
    apply Forall_cons in Hrows as [H1 H2]. constructor; [by eapply sorted_from_described | by apply IH]. }
  pose proof (keys_order ks d (map desc_ids cols) keys (ds_kinds _ _ _ _ Hset)) as Hkeys.
  destruct (distinct_gives (ObPhyOperator0 := sort_operator malloc) (map desc_ids cols) (described_row ks d)
    (keys_compare (map desc_ids cols)) (sort_over m plan c (join_sort cols)) d sorted_rows OB_ITER_END)
    as (out & Hout & _ & Hsub & Hcount); [apply Hkeys; intros E%map_eq_nil; by apply (ds_some _ _ _ _ Hset) | done | done |].
  exists out. conjs; [done | |].
  - eapply sublist_Forall; [exact Hsub |]. rewrite Forall_forall. intros row Hrow.
    apply list_elem_of_lookup_1 in Hrow as [i Hi]. destruct (Forall2_lookup_l _ _ _ _ _ Hf Hi) as (r & Hr & [Hback _]).
    exists r. split; [rewrite <- Hp; by eapply list_elem_of_lookup_2 | apply Hback].
  - intros x Hx. rewrite Hcount, (count_sorted ks keys d cols Hset array sorted_rows rows x Hp Hf Hrows Hx); [done | | done].
    unfold sorted. eapply (StronglySorted_weaken (fun _ => True)); [| by apply Forall_true | exact Hs]. intros y z _ _ H.
    unfold keys_compare. by rewrite !key_cells_row_key.
Qed.

Lemma select_distinct_witness :
  exists out,
    gives (ObPhyOperator0 := distinct_operator
        (ObPhyOperator0 := sort_operator (MergeSortOps0 := no_merge) (std := insertion) (fun _ => true)) true)
      (distinct_over [(1, 16)] (sort_over tt [] (int_scan 16 [2; 1; 2]) (join_sort [mkDesc 1 16]))) (int_desc 16) out OB_ITER_END /\
    count (keys_compare [(1, 16)]) (int_row 16 2) out = 1%nat.
Proof.
  assert (Hid : valid_column_id 16) by (vm_compute; intuition congruence).
  assert (Hns : Forall int64_range [2; 1; 2]) by (repeat constructor; vm_compute; congruence).
  destruct (int_side 16 [2; 1; 2] Hid ltac:(done) Hns) as [Hs _].
  assert (Hp : column_position (int_desc 16) 1 16 = Some (Z.of_nat 0)) by (vm_compute; reflexivity).
  destruct (select_distinct (MergeSortOps0 := no_merge) (std := insertion) (fun _ => true) (int_scan 16 [2; 1; 2]) tt []
    int_column int_column (int_desc 16) [mkDesc 1 16] (map (int_row 16) [2; 1; 2])) as (out & Hg & _ & Hcount).
  - done.
  - split; [by apply int_desc_typed | done | | done]. constructor; [| constructor]. by exists 0%nat.
  - done.
  - apply int_scan_gives_always.
  - by apply int_rows_described.
  - exists out. split; [exact Hg |]. etrans; [apply (Hcount (int_row 16 2)) | by vm_compute].
    pose proof (int_rows_described 16 [2] Hid ltac:(repeat constructor; vm_compute; congruence)) as H. by apply Forall_cons in H as [H _].
Defined.
