(* ===== verification/SortSerialize.v ===== *)
(** * SortSerialize: the sort operator on the wire

    [serialize], [deserialize] and [get_serialize_size] of [ObSortColumn]
    ([sql/ob_in_memory_sort.cpp]) and of [ObSort] ([sql/ob_sort.cpp]): the columns
    with their directions and the memory limit. *)

From S2P Require Import Prelude ObBuffer Serialization SerializationLaws InMemorySort.
Local Open Scope Z_scope.

Definition sort_column_serialize (c : ObSortColumn) : Writing :=
  (encode_vi64 (int64 (sort_table_id_ c)) ;;; encode_vi64 (int64 (sort_column_id_ c)) ;;;
   encode_bool (is_ascending_ c))%writing.

(** What a failed call leaves in the column is not used. *)
Definition sort_column_deserialize (old : ObSortColumn) : Reading ObSortColumn :=
  rthen old decode_vi64 (fun table_id =>
  rthen old decode_vi64 (fun column_id =>
  rthen old decode_bool (fun is_ascending => rret (mkSortColumn (u64 table_id) (u64 column_id) is_ascending)))).

Definition sort_column_serialize_size (c : ObSortColumn) : Z :=
  encoded_length_vi64 (int64 (sort_table_id_ c)) + encoded_length_vi64 (int64 (sort_column_id_ c)) + encoded_length_bool.

Fixpoint serialize_sort_columns (cols : list ObSortColumn) : Writing :=
  match cols with
  | [] => finish OB_SUCCESS
  | c :: cols => (sort_column_serialize c ;;; serialize_sort_columns cols)%writing
  end.

Definition sort_serialize (cols : list ObSortColumn) (limit : Z) : Writing :=
  (encode_vi64 (Z.of_nat (length cols)) ;;; serialize_sort_columns cols ;;; encode_vi64 limit)%writing.

(** The loop over [count] columns, [i] of them read into [cols]; [out] is the
    result when [fuel] is not enough. *)
Fixpoint deserialize_sort_columns (out : Reading (list ObSortColumn)) (fuel : nat) (i count : Z) (cols : list ObSortColumn)
    : Reading (list ObSortColumn) :=
  if i <? count then
    match fuel with
    | O => out
    | S fuel =>
        rthen cols (sort_column_deserialize (mkSortColumn 0 0 true)) (fun c =>
          deserialize_sort_columns out fuel (i + 1) count (cols ++ [c]))
    end
  else rret cols.

(** The columns and the limit afterwards, also when it fails; every column takes a
    byte at least, so the loop has at most as many rounds as there are bytes. *)
Definition sort_deserialize_with (out : Reading (list ObSortColumn)) (old : list ObSortColumn * Z)
    : Reading (list ObSortColumn * Z) := fun r =>
  rthen old decode_vi64 (fun count r =>
    '(ret, cols, r) ← deserialize_sort_columns out (Z.to_nat (r_buf_size_ r - r_pos_ r) + 1) 0 count [] r ;
    if ret =? OB_SUCCESS then rthen (cols, old.2) decode_vi64 (fun limit => rret (cols, limit)) r
    else Some (ret, (cols, old.2), r)) r.

Definition sort_deserialize : list ObSortColumn * Z -> Reading (list ObSortColumn * Z) := sort_deserialize_with (fun _ => None).

Definition sort_serialize_size (cols : list ObSortColumn) (limit : Z) : Z :=
  encoded_length_vi64 (Z.of_nat (length cols)) +
  foldr (fun c n => sort_column_serialize_size c + n) 0 cols + encoded_length_vi64 limit.

(** ** The bytes *)

Definition sort_column_bytes (c : ObSortColumn) : list Z :=
  vi64 (int64 (sort_table_id_ c)) ++ vi64 (int64 (sort_column_id_ c)) ++ [if is_ascending_ c then 1 else 0].

Definition sort_bytes (cols : list ObSortColumn) (limit : Z) : list Z :=
  vi64 (Z.of_nat (length cols)) ++ concat (map sort_column_bytes cols) ++ vi64 limit.

(** Ids are [uint64_t]. *)
Definition sort_ids_ok (c : ObSortColumn) : Prop := 0 <= sort_table_id_ c < 2 ^ 64 /\ 0 <= sort_column_id_ c < 2 ^ 64.

Lemma sort_encodes cols limit : encodes (sort_serialize cols limit) (sort_bytes cols limit).
Proof.
  apply encodes_andthen; [apply encodes_vi64 |]. apply encodes_andthen; [| apply encodes_vi64].
  induction cols as [| c cols IH]; [apply emits_finish |]. apply encodes_andthen; [| exact IH].
  apply encodes_andthen; [apply encodes_vi64 |]. apply encodes_andthen; [apply encodes_vi64 | apply encodes_bool].
Qed.

Lemma sort_bytes_size cols limit : Z.of_nat (length (sort_bytes cols limit)) = sort_serialize_size cols limit.
Proof.
  unfold sort_bytes, sort_serialize_size. rewrite !length_app, !encoded_length_vi64_length, !Nat2Z.inj_add, Z.add_assoc.
  f_equal. f_equal. induction cols as [| c cols IH]; [done |]. cbn [map concat foldr]. rewrite length_app, Nat2Z.inj_add, IH.
  f_equal. unfold sort_column_bytes, sort_column_serialize_size, encoded_length_bool.
  rewrite !length_app, !encoded_length_vi64_length. cbn [length]. lia.
Qed.

Lemma decodes_sort_column old c : sort_ids_ok c -> decodes (sort_column_deserialize old) (sort_column_bytes c) c.
Proof.
  intros [Ht Hc]. unfold sort_column_bytes, sort_column_deserialize.
  eapply decodes_rthen; [apply decodes_vi64, (wraps_range 64); lia |].
  eapply decodes_rthen; [apply decodes_vi64, (wraps_range 64); lia |].
  eapply decodes_rmap; [apply decodes_bool |]. intros r. unfold wrapu. rewrite !mod_wraps, !Z.mod_small by lia. by destruct c.
Qed.

Lemma decodes_sort_columns out fuel cols old :
  Forall sort_ids_ok cols -> (length cols <= fuel)%nat ->
  decodes (deserialize_sort_columns out fuel (Z.of_nat (length old)) (Z.of_nat (length old + length cols)) old)
    (concat (map sort_column_bytes cols)) (old ++ cols).
Proof.
  intros Hids. revert fuel old. induction Hids as [| c cols Hc _ IH]; intros fuel old Hf.
  - rewrite app_nil_r. destruct fuel; cbn; rewrite Nat.add_0_r, Z.ltb_irrefl; apply decodes_rret.
  - destruct fuel as [| fuel]; [cbn in Hf; lia |]. cbn [deserialize_sort_columns].
    destruct (Z.ltb_spec (Z.of_nat (length old)) (Z.of_nat (length old + length (c :: cols)))); [| cbn in *; lia].
    eapply decodes_rthen; [by apply decodes_sort_column |].
    specialize (IH fuel (old ++ [c]) ltac:(cbn in Hf; lia)). rewrite <- app_assoc, length_app in IH. cbn [length app] in *.
    replace (Z.of_nat (length old) + 1) with (Z.of_nat (length old + 1)) by lia.
    by replace (length old + S (length cols))%nat with (length old + 1 + length cols)%nat by lia.
Qed.

Lemma sort_bytes_many cols : (length cols <= length (concat (map sort_column_bytes cols)))%nat.
Proof.
  induction cols as [| c cols IH]; [done |]. cbn [map concat length]. rewrite length_app.
  assert (1 <= length (sort_column_bytes c))%nat by (unfold sort_column_bytes; rewrite !length_app; cbn [length]; lia). lia.
Qed.

Lemma sort_decodes out old cols limit :
  Forall sort_ids_ok cols -> - 2 ^ 63 <= limit < 2 ^ 63 -> Z.of_nat (length cols) < 2 ^ 63 ->
  decodes (sort_deserialize_with out old) (sort_bytes cols limit) (cols, limit).
Proof.
  intros Hids Hlim Hn r buf rest. unfold sort_bytes. rewrite <- app_assoc. intros Hu. unfold sort_deserialize_with.
  destruct (decodes_vi64 (Z.of_nat (length cols)) ltac:(lia) r buf _ Hu) as (r1 & E1 & Hu1).
  unfold rthen at 1. rewrite E1, bind_some. change (OB_SUCCESS =? OB_SUCCESS) with true. cbn iota.
  rewrite <- app_assoc in Hu1. set (fuel := (Z.to_nat (r_buf_size_ r1 - r_pos_ r1) + 1)%nat).
  assert (Hf : (length cols <= fuel)%nat).
  { pose proof (sort_bytes_many cols). destruct Hu1 as [_ Hsz Hpos Hrest].
    apply (f_equal length) in Hrest. rewrite length_drop, length_app in Hrest. unfold fuel. lia. }
  destruct (decodes_sort_columns out fuel cols [] Hids Hf r1 buf _ Hu1) as (r2 & E2 & Hu2). cbn [length app Nat.add] in E2.
  change (Z.of_nat 0) with 0 in E2. rewrite E2, bind_some. change (OB_SUCCESS =? OB_SUCCESS) with true. cbn iota.
  eapply decodes_rmap; [by apply decodes_vi64 | done | done].
Qed.

(** ** The loop ends *)

Definition advances (r r' : ObBufferReader) (n : Z) : Prop :=
  r_pos_ r + n <= r_pos_ r' <= r_buf_size_ r' /\ r_buf_size_ r' = r_buf_size_ r.

Lemma vi_loop_advances width bs avail v shift n ret v' n' :
  decode_vi_loop width bs avail v shift n = Some (ret, v', n') -> ret = OB_SUCCESS -> n <= n' <= n + avail.
Proof.
  revert avail v shift n. induction bs as [| b bs IH]; intros avail v shift n; cbn [decode_vi_loop]; [done |].
  destruct (Z.ltb_spec avail 1); [by intros [= <- _ _] |]. destruct (width <=? shift); [done |].
  destruct (_ =? 0); [intros [= <- _ <-] _; lia |]. intros H1 H2. pose proof (IH _ _ _ _ H1 H2). lia.
Qed.

Lemma decode_vi64_advances r v r' : decode_vi64 r = Some (OB_SUCCESS, v, r') -> advances r r' 0.
Proof.
  unfold decode_vi64, decode_vi. destruct (r_buf_ r) as [buf |]; cbn [mbind option_bind]; [| done].
  destruct (r_pos_ r <? 0); [done |]. destruct (decode_vi_loop _ _ _ _ _ _) as [[[ret x] n] |] eqn:E; cbn [mbind option_bind]; [| done].
  destruct (Z.eqb_spec ret OB_SUCCESS) as [-> | Hne]; [| by intros [= ? _ _]].
  intros [= _ <-]. pose proof (vi_loop_advances _ _ _ _ _ _ _ _ _ E eq_refl). unfold advances. cbn. lia.
Qed.

Lemma decode_bool_advances r b r' : decode_bool r = Some (OB_SUCCESS, b, r') -> advances r r' 1.
Proof.
  unfold decode_bool, decode_i8, rthen, rguard, remains, loads. destruct (r_buf_ r) as [buf |]; [| done].
  destruct (Z.leb_spec 1 (r_buf_size_ r - r_pos_ r)); [| done]. cbn. destruct (bytes_at buf (r_pos_ r) 1); [| done].
  cbn. intros [= _ <-]. unfold advances. cbn. lia.
Qed.

Lemma sort_column_advances old r c r' : sort_column_deserialize old r = Some (OB_SUCCESS, c, r') -> advances r r' 1.
Proof.
  unfold sort_column_deserialize, rthen. destruct (decode_vi64 r) as [[[ret1 t] r1] |] eqn:E1; cbn [mbind option_bind]; [| done].
  destruct (Z.eqb_spec ret1 OB_SUCCESS) as [-> | H1]; [| by intros [= ? _ _]].
  destruct (decode_vi64 r1) as [[[ret2 k] r2] |] eqn:E2; cbn [mbind option_bind]; [| done].
  destruct (Z.eqb_spec ret2 OB_SUCCESS) as [-> | H2]; [| by intros [= ? _ _]].
  destruct (decode_bool r2) as [[[ret3 b] r3] |] eqn:E3; cbn [mbind option_bind]; [| done].
  destruct (Z.eqb_spec ret3 OB_SUCCESS) as [-> | H3]; [| by intros [= ? _ _]]. intros [= _ <-].
  apply decode_vi64_advances in E1, E2. apply decode_bool_advances in E3. unfold advances in *. lia.
Qed.

Lemma deserialize_sort_columns_out out out' fuel i count cols r :
  (Z.to_nat (r_buf_size_ r - r_pos_ r) < fuel)%nat ->
  deserialize_sort_columns out fuel i count cols r = deserialize_sort_columns out' fuel i count cols r.
Proof.
  revert i cols r. induction fuel as [| fuel IH]; intros i cols r Hf; [lia |]. cbn [deserialize_sort_columns].
  destruct (i <? count); [| done]. unfold rthen. destruct (sort_column_deserialize _ r) as [[[ret c] r1] |] eqn:E; [| done].
  cbn [mbind option_bind]. destruct (Z.eqb_spec ret OB_SUCCESS) as [-> | Hne]; [| done].
  apply IH. apply sort_column_advances in E as [H1 H2]. lia.
Qed.

(** ** Theorems *)

(** The operator survives the wire: [serialize] takes exactly
    [get_serialize_size] bytes and [deserialize] gives the columns in their order
    with their directions, and the limit, whatever the operator held before. *)
Theorem sort_wire_roundtrip cols limit old :
  Forall sort_ids_ok cols -> - 2 ^ 63 <= limit < 2 ^ 63 -> Z.of_nat (length cols) < 2 ^ 63 ->
  roundtrips (sort_serialize cols limit) (sort_serialize_size cols limit) (sort_deserialize old) (cols, limit).
Proof.
  intros Hids Hlim Hn. rewrite <- sort_bytes_size. apply encodes_decodes; [apply sort_encodes | by apply sort_decodes].
Qed.

(** [deserialize] stops on every input, whatever column count it announces. *)
Theorem sort_deserialize_terminates out old r : sort_deserialize_with out old r = sort_deserialize old r.
Proof.
  unfold sort_deserialize, sort_deserialize_with, rthen. destruct (decode_vi64 r) as [[[ret count] r1] |]; [| done].
  cbn [mbind option_bind]. destruct (ret =? OB_SUCCESS); [| done].
  by rewrite (deserialize_sort_columns_out out (fun _ => None)) by lia.
Qed.
