(* ===== verification/PostfixExpr.v ===== *)
(** * PostfixExpr: evaluation of SQL expressions, sql/ob_postfix_expression.{h,cpp}

    An expression is an array [expr_] of cells: for every operand or operator its kind
    and then its arguments, up to an end mark.  [calc] runs it on a row with a stack of
    512 values that belongs to the thread.

    The array of the stack is split where [idx_i] points: [live_] is the part below, the
    top first, and [above_] the part from [idx_i] on, with what earlier calculations
    left there.  [vec_] is the vector of the IN operator, which belongs to the thread as
    well, and [result] the variable of [calc] that the operators assign.  [None] is an
    aborted assertion, or the use of a result that an operator has not set.  The member
    [did_int_div_as_double_] is left out: division does not use it. *)

From S2P Require Import Prelude ObNumber ObObject ObRowDesc ObRow ObExprObj Format ObObjCast StringSearch Like ExprArith ExprFunc.
Local Open Scope Z_scope.

Definition OB_ARRAY_OUT_OF_RANGE : Z := -3.
Definition OB_NO_RESULT : Z := -84.
Definition OB_ERR_UNKNOWN_SYS_FUNC : Z := -5004.
Definition OB_ERR_ILLEGAL_INDEX : Z := -5028.
Definition OB_ERR_VARIABLE_UNKNOWN : Z := -5044.
Definition OB_ERR_FUNCTION_UNKNOWN : Z := -5055.

(** ** Kinds of items *)

(** The kinds of cells; [BEGIN_TYPE] is 0 and [END_TYPE] 10. *)
Inductive ObPostExprNodeType :=
  | COLUMN_IDX | CONST_OBJ | PARAM_IDX | SYSTEM_VAR | TEMP_VAR | OP | CUR_TIME_OP | UPS_TIME_OP | END_MARK.
Definition node_types : list ObPostExprNodeType :=
  [COLUMN_IDX; CONST_OBJ; PARAM_IDX; SYSTEM_VAR; TEMP_VAR; OP; CUR_TIME_OP; UPS_TIME_OP; END_MARK].
Definition node_code (t : ObPostExprNodeType) : Z :=
  match t with
  | COLUMN_IDX => 1 | CONST_OBJ => 2 | PARAM_IDX => 3 | SYSTEM_VAR => 4 | TEMP_VAR => 5 | OP => 6 | CUR_TIME_OP => 7
  | UPS_TIME_OP => 8 | END_MARK => 9
  end.
Definition node_of (type : Z) : option ObPostExprNodeType :=
  if (type <=? 0) || (10 <=? type) then None else node_types !! Z.to_nat (type - 1).

#[export] Instance node_type_eq_dec : EqDecision ObPostExprNodeType.
Proof. solve_decision. Defined.

(** [ObItemType] up to the tags of parse trees *)
Inductive ObItemType :=
  | T_INVALID | T_INT | T_STRING | T_BINARY | T_DATE | T_FLOAT | T_DOUBLE | T_DECIMAL | T_BOOL | T_NULL
   | T_QUESTIONMARK | T_UNKNOWN | T_REF_COLUMN | T_REF_EXPR | T_REF_QUERY | T_HINT | T_IDENT | T_STAR
   | T_SYSTEM_VARIABLE | T_TEMP_VARIABLE | T_TYPE_INTEGER | T_TYPE_FLOAT | T_TYPE_DOUBLE | T_TYPE_DECIMAL
   | T_TYPE_BOOLEAN | T_TYPE_DATE | T_TYPE_TIME | T_TYPE_DATETIME | T_TYPE_TIMESTAMP | T_TYPE_CHARACTER
   | T_TYPE_VARCHAR | T_TYPE_CREATETIME | T_TYPE_MODIFYTIME | T_MIN_OP | T_OP_NEG | T_OP_POS | T_OP_ADD
   | T_OP_MINUS | T_OP_MUL | T_OP_DIV | T_OP_POW | T_OP_REM | T_OP_MOD | T_OP_EQ | T_OP_LE | T_OP_LT | T_OP_GE
   | T_OP_GT | T_OP_NE | T_OP_IS | T_OP_IS_NOT | T_OP_BTW | T_OP_NOT_BTW | T_OP_LIKE | T_OP_NOT_LIKE | T_OP_NOT
   | T_OP_AND | T_OP_OR | T_OP_IN | T_OP_NOT_IN | T_OP_ARG_CASE | T_OP_CASE | T_OP_ROW | T_OP_EXISTS | T_OP_CNN
   | T_FUN_SYS | T_OP_LEFT_PARAM_END | T_MAX_OP | T_CUR_TIME | T_CUR_TIME_UPS | T_CUR_TIME_OP | T_ROW_COUNT
   | T_FUN_SYS_CAST | T_OP_NAME_FIELD | T_FUN_MAX | T_FUN_MIN | T_FUN_SUM | T_FUN_COUNT | T_FUN_AVG.

Definition item_code (t : ObItemType) : Z :=
  match t with
  | T_INVALID => 0 | T_INT => 1 | T_STRING => 2 | T_BINARY => 3 | T_DATE => 4 | T_FLOAT => 5 | T_DOUBLE => 6
   | T_DECIMAL => 7 | T_BOOL => 8 | T_NULL => 9 | T_QUESTIONMARK => 10 | T_UNKNOWN => 11 | T_REF_COLUMN => 12
   | T_REF_EXPR => 13 | T_REF_QUERY => 14 | T_HINT => 15 | T_IDENT => 16 | T_STAR => 17
   | T_SYSTEM_VARIABLE => 18 | T_TEMP_VARIABLE => 19 | T_TYPE_INTEGER => 20 | T_TYPE_FLOAT => 21
   | T_TYPE_DOUBLE => 22 | T_TYPE_DECIMAL => 23 | T_TYPE_BOOLEAN => 24 | T_TYPE_DATE => 25 | T_TYPE_TIME => 26
   | T_TYPE_DATETIME => 27 | T_TYPE_TIMESTAMP => 28 | T_TYPE_CHARACTER => 29 | T_TYPE_VARCHAR => 30
   | T_TYPE_CREATETIME => 31 | T_TYPE_MODIFYTIME => 32 | T_MIN_OP => 100 | T_OP_NEG => 101 | T_OP_POS => 102
   | T_OP_ADD => 103 | T_OP_MINUS => 104 | T_OP_MUL => 105 | T_OP_DIV => 106 | T_OP_POW => 107 | T_OP_REM => 108
   | T_OP_MOD => 109 | T_OP_EQ => 110 | T_OP_LE => 111 | T_OP_LT => 112 | T_OP_GE => 113 | T_OP_GT => 114
   | T_OP_NE => 115 | T_OP_IS => 116 | T_OP_IS_NOT => 117 | T_OP_BTW => 118 | T_OP_NOT_BTW => 119
   | T_OP_LIKE => 120 | T_OP_NOT_LIKE => 121 | T_OP_NOT => 122 | T_OP_AND => 123 | T_OP_OR => 124
   | T_OP_IN => 125 | T_OP_NOT_IN => 126 | T_OP_ARG_CASE => 127 | T_OP_CASE => 128 | T_OP_ROW => 129
   | T_OP_EXISTS => 130 | T_OP_CNN => 131 | T_FUN_SYS => 132 | T_OP_LEFT_PARAM_END => 133 | T_MAX_OP => 134
   | T_CUR_TIME => 135 | T_CUR_TIME_UPS => 136 | T_CUR_TIME_OP => 137 | T_ROW_COUNT => 138
   | T_FUN_SYS_CAST => 139 | T_OP_NAME_FIELD => 140 | T_FUN_MAX => 141 | T_FUN_MIN => 142 | T_FUN_SUM => 143
   | T_FUN_COUNT => 144 | T_FUN_AVG => 145
  end.

Definition item_is (t u : ObItemType) : bool := item_code t =? item_code u.

(** [convert_item_type_to_obj_type] on any number: T_TYPE_INTEGER is 20 and
    T_TYPE_MODIFYTIME 32. *)
Definition convert_item_type_to_obj_type (item_type : Z) : ObObjType :=
  if (item_type <? item_code T_TYPE_INTEGER) || (item_code T_TYPE_MODIFYTIME <? item_type) then ObNullType
  else
    zget ObNullType
      [ObIntType; ObFloatType; ObDoubleType; ObDecimalType; ObBoolType; ObDateTimeType; ObDateTimeType;
       ObDateTimeType; ObPreciseDateTimeType; ObVarcharType; ObVarcharType; ObCreateTimeType; ObModifyTimeType]
      (item_type - item_code T_TYPE_INTEGER).

(** [SYS_FUNCS_NAME] and [SYS_FUNCS_ARGS_NUM]; the number of a function is its place, and
    -3 stands for two or three arguments, -1 for one or more. *)
Definition SYS_FUNCS_NAME : list (list Z) :=
  [ [108; 101; 110; 103; 116; 104];
    [115; 117; 98; 115; 116; 114];
    [99; 97; 115; 116];
    [99; 117; 114; 114; 101; 110; 116; 95; 117; 115; 101; 114];
    [116; 114; 105; 109];
    [108; 111; 119; 101; 114];
    [117; 112; 112; 101; 114];
    [99; 111; 97; 108; 101; 115; 99; 101];
    [104; 101; 120];
    [117; 110; 104; 101; 120];
    [105; 112; 50; 105; 110; 116];
    [105; 110; 116; 50; 105; 112];
    [103; 114; 101; 97; 116; 101; 115; 116];
    [108; 101; 97; 115; 116] ].
Definition SYS_FUNCS_ARGS_NUM : list Z := [1; -3; 2; 0; 3; 1; 1; -1; 1; 1; 1; 1; -1; -1].
Definition SYS_FUNC_NUM : Z := 14.

Fixpoint find_name (i : Z) (names : list (list Z)) (name : list Z) : option Z :=
  match names with
  | [] => None
  | n :: names' => if bool_decide (n = map lower name) then Some i else find_name (i + 1) names' name
  end.
Definition get_sys_func (name : list Z) : option Z := find_name 0 SYS_FUNCS_NAME name.

Definition get_sys_func_param_num (name : list Z) : Z * option Z :=
  match get_sys_func name with
  | Some i => (OB_SUCCESS, Some (zget 0 SYS_FUNCS_ARGS_NUM i))
  | None => (OB_ERR_FUNCTION_UNKNOWN, None)
  end.

(** The union of an item: the integer member is also the date. *)
Inductive ItemValue := VNone | VInt (v : Z) | VBool (b : bool) | VFloat (bits : Z) | VDouble (bits : Z) | VCell (tid cid : Z).
Record ExprItem := mkItem { item_type_ : ObItemType; item_value_ : ItemValue; item_string_ : list Z }.

(** The members of the union. *)
Definition item_int (v : ItemValue) : option Z := match v with VInt v => Some v | _ => None end.
Definition item_bool (v : ItemValue) : option bool := match v with VBool v => Some v | _ => None end.
Definition item_float (v : ItemValue) : option Z := match v with VFloat v => Some v | _ => None end.
Definition item_double (v : ItemValue) : option Z := match v with VDouble v => Some v | _ => None end.
Definition item_cell (v : ItemValue) : option (Z * Z) := match v with VCell t c => Some (t, c) | _ => None end.

(** [ExprItem::assign] *)
Definition item_assign (item : ExprItem) (obj : ObObj) : Z * ExprItem :=
  let string := item_string_ item in
  let typed t v := (OB_SUCCESS, mkItem t v string) in
  match type_ obj with
  | ObNullType => typed T_NULL (item_value_ item)
  | ObIntType => typed T_INT (VInt (int_val obj))
  | ObFloatType => typed T_FLOAT (VFloat (default 0 (fst <$> get_float obj)))
  | ObDoubleType => typed T_DOUBLE (VDouble (default 0 (fst <$> get_double obj)))
  | ObPreciseDateTimeType => typed T_DATE (VInt (int_val obj))
  | ObVarcharType => (OB_SUCCESS, mkItem T_STRING (item_value_ item) (default [] (get_varchar obj)))
  | ObBoolType => typed T_BOOL (VBool (default false (ObObject.get_bool obj)))
  | ObDecimalType => (OB_NOT_SUPPORTED, item)
  | _ => (OB_ERR_UNEXPECTED, item)
  end.

(** What the statement of the expression has: its parameters, the system variables and
    the variables of its session, and the time it began. *)
Record ResultSet := mkResultSet {
  params_ : list ObObj;
  session_ : option ((list Z -> option ObObj) * (list Z -> option ObObj));
  cur_time_place_ : option ObObj
}.

Definition int_obj (v : Z) : ObObj := set_int ObObj_new v false.
Definition node_obj (t : ObPostExprNodeType) : ObObj := int_obj (node_code t).
Definition obj_int (o : ObObj) : option Z := fst <$> get_int o.

Section Postfix.
Context (scan_float scan_double : list Z -> option Z) (localtime : Z -> tm) (mktime : tm -> Z).
Context {Mem : Type} (alloc : Mem -> Z -> option Mem) (inet_aton : list Z -> option Z) (outside : Z -> Z).
(** [ObStringBuf::reuse], [clear] and [reset], and the clock, which is read when a number
    of cells is left. *)
Context (reuse clear : Mem -> Mem) (reset_buf : Mem -> Z * Mem) (clock : nat -> Z).

#[local] Abbreviation cast := (cast_new scan_float scan_double localtime mktime).

Record ObPostfixExpression := mkPostfix {
  expr_ : list ObObj;
  result_obj_ : ObObj;
  str_buf_ : Mem;
  calc_buf_ : Mem;
  owner_op_ : option ResultSet
}.

(** ** Building *)

Definition with_expr (p : ObPostfixExpression) (e : list ObObj) : ObPostfixExpression :=
  mkPostfix e (result_obj_ p) (str_buf_ p) (calc_buf_ p) (owner_op_ p).
Definition with_str_buf (p : ObPostfixExpression) (m : Mem) : ObPostfixExpression :=
  mkPostfix (expr_ p) (result_obj_ p) m (calc_buf_ p) (owner_op_ p).
Definition append_objs (p : ObPostfixExpression) (os : list ObObj) : ObPostfixExpression := with_expr p (expr_ p ++ os).

(** [ObStringBuf::write_obj]: the memory, the code and the copy. *)
Definition write_obj (m : Mem) (obj : ObObj) : Mem * Z * ObObj :=
  match get_varchar obj with
  | Some s => let '(m, ret, s) := write_string alloc m s in (m, ret, if ret =? OB_SUCCESS then set_varchar obj s else obj)
  | None => (m, OB_SUCCESS, obj)
  end.

Definition add_expr_obj (p : ObPostfixExpression) (obj : ObObj) : Z * ObPostfixExpression :=
  let '(m, ret, obj2) := write_obj (str_buf_ p) obj in
  let p := with_str_buf p m in
  (ret, if ret =? OB_SUCCESS then append_objs p [obj2] else p).

(** A kind and a string that is copied first. *)
Definition append_string (p : ObPostfixExpression) (kind : ObPostExprNodeType) (s : list Z) : Z * ObPostfixExpression :=
  let '(m, ret, obj2) := write_obj (str_buf_ p) (set_varchar ObObj_new s) in
  let p := with_str_buf p m in
  (ret, if ret =? OB_SUCCESS then append_objs p [node_obj kind; obj2] else p).

(** [None] when the item has another member of the union. *)
Definition add_expr_item (p : ObPostfixExpression) (item : ExprItem) : option (Z * ObPostfixExpression) :=
  let v := item_value_ item in
  let t := item_code (item_type_ item) in
  let add os := Some (OB_SUCCESS, append_objs p os) in
  match item_type_ item with
  | T_STRING | T_BINARY => Some (append_string p CONST_OBJ (item_string_ item))
  | T_FLOAT => v ← item_float v ; add [node_obj CONST_OBJ; set_float ObObj_new v false]
  | T_DOUBLE => v ← item_double v ; add [node_obj CONST_OBJ; set_double ObObj_new v false]
  | T_DECIMAL | T_REF_QUERY => Some (OB_NOT_SUPPORTED, p)
  | T_INT => v ← item_int v ; add [node_obj CONST_OBJ; int_obj v]
  | T_BOOL => v ← item_bool v ; add [node_obj CONST_OBJ; set_bool ObObj_new v]
  | T_DATE => v ← item_int v ; add [node_obj CONST_OBJ; set_precise_datetime ObObj_new v false]
  | T_CUR_TIME => v ← item_int v ; add [node_obj CUR_TIME_OP; int_obj v]
  | T_QUESTIONMARK => v ← item_int v ; add [node_obj PARAM_IDX; int_obj v]
  | T_SYSTEM_VARIABLE => Some (append_string p SYSTEM_VAR (item_string_ item))
  | T_TEMP_VARIABLE => Some (append_string p TEMP_VAR (item_string_ item))
  | T_NULL => add [node_obj CONST_OBJ; set_null ObObj_new]
  | T_REF_COLUMN => '(tid, cid) ← item_cell v ; add [node_obj COLUMN_IDX; int_obj (int64 tid); int_obj (int64 cid)]
  | T_OP_EXISTS | T_OP_POS | T_OP_NEG | T_OP_ADD | T_OP_MINUS | T_OP_MUL | T_OP_DIV | T_OP_REM | T_OP_POW | T_OP_MOD
  | T_OP_LE | T_OP_LT | T_OP_EQ | T_OP_GE | T_OP_GT | T_OP_NE | T_OP_LIKE | T_OP_NOT_LIKE | T_OP_AND | T_OP_OR
  | T_OP_NOT | T_OP_IS | T_OP_IS_NOT | T_OP_BTW | T_OP_NOT_BTW | T_OP_CNN | T_OP_IN | T_OP_NOT_IN | T_OP_ARG_CASE
  | T_OP_CASE | T_OP_ROW | T_OP_LEFT_PARAM_END =>
      n ← item_int v ; add [node_obj OP; int_obj t; int_obj n]
  | T_CUR_TIME_OP => add [node_obj UPS_TIME_OP]
  | T_FUN_SYS =>
      n ← item_int v ;
      match get_sys_func (item_string_ item) with
      | None => Some (OB_ERR_UNKNOWN_SYS_FUNC, p)
      | Some f => add [node_obj OP; int_obj t; int_obj n; int_obj f]
      end
  | _ => Some (OB_INVALID_ARGUMENT, p)
  end.

Definition add_expr_item_end (p : ObPostfixExpression) : Z * ObPostfixExpression :=
  (OB_SUCCESS, append_objs p [node_obj END_MARK]).

Definition merge_expr (p expr1 expr2 : ObPostfixExpression) (op : ExprItem) : option (Z * ObPostfixExpression) :=
  let body e := take (length (expr_ e) - 1) (expr_ e) in
  '(ret, p) ← add_expr_item (append_objs (append_objs p (body expr1)) (body expr2)) op ;
  Some (if negb (ret =? OB_SUCCESS) then (ret, p) else add_expr_item_end p).

Definition postfix_is_empty (p : ObPostfixExpression) : bool :=
  match expr_ p with
  | [] => true
  | [o] => bool_decide (obj_int o = Some (node_code END_MARK))
  | _ => false
  end.

Definition postfix_reset (p : ObPostfixExpression) : ObPostfixExpression :=
  mkPostfix [] (result_obj_ p) (clear (str_buf_ p)) (clear (calc_buf_ p)) None.

(** The loop of [operator=]: a string that is not copied is left out. *)
Fixpoint copy_objs (p : ObPostfixExpression) (os : list ObObj) : ObPostfixExpression :=
  match os with
  | [] => p
  | o :: os' => copy_objs (snd (add_expr_obj p o)) os'
  end.

(** [operator=] with another expression; with itself the result is empty. *)
Definition postfix_assign (p other : ObPostfixExpression) : ObPostfixExpression :=
  let '(ret, m) := reset_buf (str_buf_ p) in
  if negb (ret =? OB_SUCCESS) then mkPostfix [] (result_obj_ p) m (clear (calc_buf_ p)) (owner_op_ p)
  else copy_objs (mkPostfix [] (result_obj_ p) m (clear (calc_buf_ p)) (owner_op_ other)) (expr_ other).
Definition postfix_self_assign (p : ObPostfixExpression) : ObPostfixExpression :=
  mkPostfix [] (result_obj_ p) (snd (reset_buf (str_buf_ p))) (clear (calc_buf_ p)) (owner_op_ p).

(** ** Variables *)

(** [get_var_obj]: the code and the cell. *)
Definition get_var_obj (owner : option ResultSet) (type : ObPostExprNodeType) (expr_node : ObObj) : Z * option ObObj :=
  let found missing o := match o with Some v => (OB_SUCCESS, Some v) | None => (missing, None) end in
  let with_result_set (f : ResultSet -> Z * option ObObj) :=
    match owner with Some rs => f rs | None => (OB_ERR_UNEXPECTED, None) end in
  let variable which :=
    with_result_set (fun rs =>
      match session_ rs with
      | None => (OB_ERR_UNEXPECTED, None)
      | Some session =>
          match get_varchar expr_node with
          | None => (OB_OBJ_TYPE_ERROR, None)
          | Some name => found OB_ERR_VARIABLE_UNKNOWN (which session name)
          end
      end) in
  match type with
  | PARAM_IDX =>
      with_result_set (fun rs =>
        match obj_int expr_node with
        | None => (OB_OBJ_TYPE_ERROR, None)
        | Some i =>
            if (i <? 0) || (Z.of_nat (length (params_ rs)) <=? i) then (OB_ERR_ILLEGAL_INDEX, None)
            else (OB_SUCCESS, params_ rs !! Z.to_nat i)
        end)
  | SYSTEM_VAR => variable fst
  | TEMP_VAR => variable snd
  | CUR_TIME_OP => with_result_set (fun rs => found OB_ERR_UNEXPECTED (cur_time_place_ rs))
  | _ => (OB_SUCCESS, Some expr_node)
  end.

(** ** The stack *)

Definition STACK_SIZE : Z := 512.

Record Calc := mkCalc {
  live_ : list ObExprObj;
  above_ : list ObExprObj;
  vec_ : list ObExprObj;
  buf_ : Mem;
  result_ : ObExprObj
}.

Definition idx_i (c : Calc) : Z := Z.of_nat (length (live_ c)).

(** The last [n] values, the deepest first, and the state without them. *)
Definition operands (n : nat) (c : Calc) : list ObExprObj := rev (take n (live_ c)).
Definition popped (n : nat) (c : Calc) : Calc :=
  mkCalc (drop n (live_ c)) (operands n c ++ above_ c) (vec_ c) (buf_ c) (result_ c).
Definition with_result (c : Calc) (m : Mem) (r : ObExprObj) : Calc := mkCalc (live_ c) (above_ c) (vec_ c) m r.
Definition with_set (c : Calc) (r : ObExprObj) : Calc := with_result c (buf_ c) r.

(** [stack_[idx_i++] = e] *)
Definition push (c : Calc) (e : ObExprObj) : Calc :=
  mkCalc (e :: live_ c) (tail (above_ c)) (vec_ c) (buf_ c) (result_ c).

(** ** Operators *)

(** What an operator makes of the memory, the variable [result] and its operands: the
    code, the memory and the result. *)
Definition op_value : Type := Mem -> ObExprObj -> list ObExprObj -> option (Z * Mem * ObExprObj).

(** The functions of the tables: the operand count and the state. *)
Definition op_call_func_t : Type := Z -> Calc -> option (Z * Calc).

(** An operator that needs [n] values and takes them. *)
Definition taking (n : Z) (f : op_value) (c : Calc) : option (Z * Calc) :=
  if n <? 0 then None
  else if idx_i c <? n then Some (OB_INVALID_ARGUMENT, c)
  else
    let n := Z.to_nat n in
    '(ret, m, r) ← f (buf_ c) (result_ c) (operands n c) ;
    Some (ret, with_result (popped n c) m r).

(** A result that is used whatever the code: after an error only a null has been set. *)
Definition set_value (r : Z * ObExprObj) : option ObExprObj :=
  if (fst r =? OB_SUCCESS) || bool_decide (snd r = XNull) then Some (snd r) else None.

Definition unary (f : ObExprObj -> option (Z * ObExprObj)) : op_value := fun m _ ops =>
  match ops with [a] => r ← f a ; e ← set_value r ; Some (OB_SUCCESS, m, e) | _ => None end.
Definition binary (f : ObExprObj -> ObExprObj -> option (Z * ObExprObj)) : op_value := fun m _ ops =>
  match ops with [a; b] => r ← f a b ; e ← set_value r ; Some (OB_SUCCESS, m, e) | _ => None end.
Definition ternary (f : ObExprObj -> ObExprObj -> ObExprObj -> option (Z * ObExprObj)) : op_value := fun m _ ops =>
  match ops with [a; b; d] => r ← f a b d ; e ← set_value r ; Some (OB_SUCCESS, m, e) | _ => None end.

Definition unary_func f : op_call_func_t := fun _ => taking 1 (unary f).
Definition binary_func f : op_call_func_t := fun _ => taking 2 (binary f).
Definition ternary_func f : op_call_func_t := fun _ => taking 3 (ternary f).

Definition minus_func := unary_func expr_negate.
Definition plus_func := unary_func (fun a => Some (OB_SUCCESS, a)).
Definition not_func := unary_func (fun a => Some (OB_SUCCESS, expr_lnot a)).
Definition gt_func := binary_func (expr_gt cast).
Definition ge_func := binary_func (expr_ge cast).
Definition le_func := binary_func (expr_le cast).
Definition lt_func := binary_func (expr_lt cast).
Definition eq_func := binary_func (expr_eq cast).
Definition neq_func := binary_func (expr_ne cast).
Definition is_not_func := binary_func (fun a b => Some (expr_is_not a b)).
Definition is_func := binary_func (fun a b => Some (expr_is a b)).
Definition add_func := binary_func (expr_add cast).
Definition sub_func := binary_func (expr_sub cast).
Definition mul_func := binary_func (expr_mul cast).
Definition div_func := binary_func (expr_div scan_float scan_double localtime mktime).
Definition mod_func := binary_func (expr_mod scan_float scan_double localtime mktime).
Definition and_func := binary_func (fun a b => Some (OB_SUCCESS, expr_land a b)).
Definition or_func := binary_func (fun a b => Some (OB_SUCCESS, expr_lor a b)).
Definition not_like_func := binary_func (expr_not_like outside).
Definition btw_func := ternary_func (expr_btw cast).
Definition not_btw_func := ternary_func (expr_not_btw cast).

(** The code of LIKE is returned. *)
Definition like_value : op_value := fun m _ ops =>
  match ops with [a; b] => '(ret, e) ← expr_like outside a b ; Some (ret, m, e) | _ => None end.
Definition like_func : op_call_func_t := fun _ => taking 2 like_value.

Definition concat_value : op_value := fun m _ ops =>
  match ops with
  | [a; b] =>
      '(m, ret, e) ← concat scan_float scan_double localtime mktime alloc m a b ;
      Some (OB_SUCCESS, m, if ret =? OB_SUCCESS then e else XNull)
  | _ => None
  end.
Definition concat_func : op_call_func_t := fun _ => taking 2 concat_value.

Definition nop_func : op_call_func_t := fun _ c => Some (OB_NOT_IMPLEMENT, c).

(** *** CASE *)

Definition expr_is_true (e : ObExprObj) : bool := match e with XBool b => b | _ => false end.

(** The loop of [case_func] over the values [s] from the first operand on, [i] of them
    left: the value after the first one that is true.  It goes in steps of two and looks
    at the value of ELSE, too. *)
Fixpoint case_loop (i : Z) (s : list ObExprObj) : option (option ObExprObj) :=
  if i <=? 0 then Some None
  else match s with
  | [] => None
  | w :: s =>
      if expr_is_true w then t ← head s ; Some (Some t)
      else if i =? 1 then Some None
      else match s with [] => None | _ :: s => case_loop (i - 2) s end
  end.

(** [above] is what lies behind the operands. *)
Definition case_value (above : list ObExprObj) : op_value := fun m _ ops =>
  let n := Z.of_nat (length ops) in
  matched ← case_loop n (ops ++ above) ;
  Some (OB_SUCCESS, m,
        match matched with
        | Some e => e
        | None => if negb (n mod 2 =? 0) then List.last ops XNull else XNull
        end).
Definition case_func : op_call_func_t := fun n c =>
  if (n <? 3) || (idx_i c <? n) then Some (OB_INVALID_ARGUMENT, c) else taking n (case_value (above_ c)) c.

(** The loop of [arg_case_func]: it ends before the last value, so that it does not look
    at ELSE. *)
Fixpoint arg_case_loop (arg : ObExprObj) (s : list ObExprObj) : option (option ObExprObj) :=
  match s with
  | w :: t :: s' =>
      r ← expr_eq cast arg w ;
      cmp ← set_value r ;
      if expr_is_true cmp then Some (Some t) else arg_case_loop arg s'
  | _ => Some None
  end.

Definition arg_case_value : op_value := fun m _ ops =>
  match ops with
  | [] => None
  | arg :: s =>
      matched ← arg_case_loop arg s ;
      Some (OB_SUCCESS, m,
            match matched with
            | Some e => e
            | None => if Z.of_nat (length ops) mod 2 =? 0 then List.last ops XNull else XNull
            end)
  end.
Definition arg_case_func : op_call_func_t := fun n c =>
  if (n <? 3) || (idx_i c <? n) then Some (OB_INVALID_ARGUMENT, c) else taking n arg_case_value c.

(** *** IN *)

(** [ObInRowOperator::push_row] *)
Definition push_row (n : Z) (c : Calc) : Z * Calc :=
  if idx_i c <? n then (OB_INVALID_ARGUMENT, c)
  else
    let n := Z.to_nat n in
    let c' := popped n c in
    (OB_SUCCESS, mkCalc (live_ c') (above_ c') (vec_ c ++ take n (live_ c)) (buf_ c) (result_ c)).

(** [k] columns of two rows of the vector, from [left] and [right] on: the code, and the
    comparison of the first column that differs. *)
Fixpoint in_columns (k : nat) (vec : list ObExprObj) (left right : nat) : option (Z * option ObExprObj) :=
  match k with
  | O => Some (OB_SUCCESS, None)
  | S k' =>
      match vec !! left, vec !! right with
      | Some l, Some r =>
          cmp ← expr_eq cast l r ;
          cmp ← set_value cmp ;
          if expr_is_true cmp || (bool_decide (l = XNull) && bool_decide (r = XNull))
          then in_columns k' vec (S left) (S right)
          else Some (OB_SUCCESS, Some cmp)
      | _, _ => Some (OB_ARRAY_OUT_OF_RANGE, None)
      end
  end.

(** [n] rows from [right] on: the code, whether one is equal, and whether a comparison
    was null. *)
Fixpoint in_rows (n : nat) (vec : list ObExprObj) (left right width : nat) (has_null : bool) : option (Z * bool * bool) :=
  match n with
  | O => Some (OB_SUCCESS, false, has_null)
  | S n' =>
      '(ret, differs) ← in_columns width vec left right ;
      match differs with
      | Some cmp => in_rows n' vec left (right + width) width (has_null || bool_decide (cmp = XNull))
      | None => Some (ret, true, has_null)
      end
  end.

Definition in_result (is_in has_null : bool) : ObExprObj :=
  if is_in then XBool true else if has_null then XNull else XBool false.

(** [check_is_in_row]; places before the vector are out of range as well. *)
Definition check_is_in_row (vec : list ObExprObj) (left_start_idx right_start_idx right_elem_count width : Z)
    : option (Z * ObExprObj) :=
  if right_elem_count * width <=? 0 then Some (OB_SUCCESS, XBool false)
  else if width <? 0 then Some (OB_SUCCESS, XBool true)
  else if (left_start_idx <? 0) || (right_start_idx <? 0) then Some (OB_ARRAY_OUT_OF_RANGE, XBool true)
  else
    '(ret, is_in, has_null) ←
      in_rows (Z.to_nat right_elem_count) vec (Z.to_nat left_start_idx) (Z.to_nat right_start_idx) (Z.to_nat width) false ;
    Some (ret, in_result is_in has_null).

(** The last element of the vector as a number. *)
Definition width_obj (vec : list ObExprObj) : option (Z * Z) :=
  match last vec with
  | None => Some (OB_ARRAY_OUT_OF_RANGE, 0)
  | Some e => expr_get_int e
  end.

(** [ObInRowOperator::get_result] *)
Definition get_result (c : Calc) : option (Z * Calc) :=
  match live_ c with
  | right_obj :: dim_obj :: _ =>
      '(ret, right_elem_count) ← expr_get_int right_obj ;
      if negb (ret =? OB_SUCCESS) then Some (ret, popped 1 c)
      else
        '(ret, dim) ← expr_get_int dim_obj ;
        let c := popped 2 c in
        let vec_top := Z.of_nat (length (vec_ c)) in
        let check left right width :=
          '(ret, r) ← check_is_in_row (vec_ c) left right right_elem_count width ;
          let vec := if ret =? OB_SUCCESS then take (Z.to_nat left) (vec_ c) else vec_ c in
          Some (ret, mkCalc (live_ c) (above_ c) vec (buf_ c) r) in
        if negb (ret =? OB_SUCCESS) then Some (ret, c)
        else if dim =? 1 then
          let right := vec_top - right_elem_count in check (right - 1) right 1
        else if dim =? 2 then
          '(ret, width) ← width_obj (vec_ c) ;
          if negb (ret =? OB_SUCCESS) then Some (ret, c)
          else
            let right := vec_top - right_elem_count - right_elem_count * width in
            check (right - 1 - width) right width
        else Some (OB_ERR_UNEXPECTED, c)
  | _ => None
  end.

Definition left_param_end_func : op_call_func_t := fun dim c =>
  let '(ret, c) := push_row 1 c in
  Some (ret, if ret =? OB_SUCCESS then with_set c (XInt dim) else c).

Definition row_func : op_call_func_t := fun row_count c =>
  let '(ret, c) := push_row row_count c in
  Some (ret, if ret =? OB_SUCCESS then with_set c (XInt row_count) else c).

Definition in_func : op_call_func_t := fun _ c =>
  if idx_i c <? 2 then Some (OB_INVALID_ARGUMENT, c) else get_result c.

Definition not_in_func : op_call_func_t := fun n c =>
  '(ret, c) ← in_func n c ; Some (ret, with_set c (expr_lnot (result_ c))).

(** *** System functions *)

Definition sys_func_length : op_call_func_t := unary_func (fun a => Some (varchar_length a)).

Definition substr_value : op_value := fun m _ ops =>
  let sub r := '(m, ret, e) ← r ; Some (ret, m, e) in
  match ops with
  | [a; b] => sub (substr_from scan_float scan_double localtime mktime alloc m a b)
  | [a; b; d] => sub (substr scan_float scan_double localtime mktime alloc m a b d)
  | _ => None
  end.
Definition sys_func_substr : op_call_func_t := fun n c =>
  if idx_i c <? n then Some (OB_INVALID_ARGUMENT, c)
  else if (n =? 2) || (n =? 3) then taking n substr_value c
  else Some (OB_ERR_UNEXPECTED, popped (Z.to_nat n) c).

(** [cast_to] gets the variable of [calc] as its output. *)
Definition cast_value : op_value := fun m result ops =>
  match ops with
  | [a; t] =>
      '(err, literal_type) ← expr_get_int t ;
      if negb (err =? OB_SUCCESS) then Some (err, m, result)
      else
        let dest_type := type_code (convert_item_type_to_obj_type (int32 literal_type)) in
        '(m, err, r) ← cast_to scan_float scan_double localtime mktime alloc m a dest_type result ;
        Some (err, m, r)
  | _ => None
  end.
Definition sys_func_cast : op_call_func_t := fun _ => taking 2 cast_value.

Definition sys_func_cur_user : op_call_func_t := fun _ c => Some (OB_NOT_SUPPORTED, c).

Definition trim_value : op_value := fun m _ ops =>
  match ops with
  | [type; pattern; a] =>
      '(m, err, r) ← trim scan_float scan_double localtime mktime alloc m a type pattern ; Some (err, m, r)
  | _ => None
  end.
Definition sys_func_trim : op_call_func_t := fun _ => taking 3 trim_value.

(** A function of one value that takes memory, and returns its code; for the others the
    code is not returned. *)
Definition coded (f : Mem -> ObExprObj -> option (Mem * Z * ObExprObj)) : op_value := fun m _ ops =>
  match ops with [a] => '(m, err, r) ← f m a ; Some (err, m, r) | _ => None end.
Definition uncoded (f : Mem -> ObExprObj -> Mem * Z * ObExprObj) : op_value := fun m _ ops =>
  match ops with
  | [a] => let '(m, err, r) := f m a in r ← set_value (err, r) ; Some (OB_SUCCESS, m, r)
  | _ => None
  end.
Definition sys_func_lower : op_call_func_t := fun _ =>
  taking 1 (coded (lower_case scan_float scan_double localtime mktime alloc)).
Definition sys_func_upper : op_call_func_t := fun _ =>
  taking 1 (coded (upper_case scan_float scan_double localtime mktime alloc)).
Definition sys_func_hex : op_call_func_t := fun _ => taking 1 (uncoded (hex alloc)).
Definition sys_func_unhex : op_call_func_t := fun _ => taking 1 (uncoded (unhex alloc)).
Definition sys_func_int_to_ip : op_call_func_t := fun _ => taking 1 (uncoded (int_to_ip alloc)).
Definition sys_func_ip_to_int := unary_func (fun a => Some (ip_to_int inet_aton a)).

(** Through a cell: the code of [to], and what [assign] gives. *)
Definition through_obj (e : ObExprObj) : option (Z * ObExprObj) :=
  '(err, obj) ← expr_to e ObObj_new ;
  e ← expr_assign obj ;
  Some (err, e).

Fixpoint first_value (ops : list ObExprObj) : option ObExprObj :=
  match ops with [] => None | XNull :: ops' => first_value ops' | e :: _ => Some e end.

Definition coalesce_value : op_value := fun m _ ops =>
  match first_value ops with
  | None => Some (OB_SUCCESS, m, XNull)
  | Some e => '(err, r) ← through_obj e ; Some (err, m, if err =? OB_SUCCESS then r else XNull)
  end.
Definition sys_func_coalesce : op_call_func_t := fun n => taking n coalesce_value.

(** The loop of [sys_func_greatest] and [sys_func_least]: [None] when a comparison is
    unknown. *)
Fixpoint best (better : Z -> bool) (b : ObExprObj) (ops : list ObExprObj) : option (option ObExprObj) :=
  match ops with
  | [] => Some (Some b)
  | e :: ops' =>
      '(err, cmp) ← expr_compare cast e b ;
      if negb (err =? OB_SUCCESS) then Some None else best better (if better cmp then e else b) ops'
  end.

Definition best_value (better : Z -> bool) : op_value := fun m _ ops =>
  match ops with
  | [] => Some (OB_INVALID_ARGUMENT, m, XNull)
  | b :: ops' =>
      r ← best better b ops' ;
      match r with
      | None => Some (OB_SUCCESS, m, XNull)
      | Some e => '(_, r) ← through_obj e ; Some (OB_SUCCESS, m, r)
      end
  end.
Definition sys_func_greatest : op_call_func_t := fun n => taking (Z.max 0 n) (best_value (fun cmp => 0 <? cmp)).
Definition sys_func_least : op_call_func_t := fun n => taking (Z.max 0 n) (best_value (fun cmp => cmp <? 0)).

(** ** The tables *)

Definition call_func : list op_call_func_t :=
  [ minus_func; plus_func; add_func; sub_func; mul_func; div_func; nop_func; mod_func; mod_func; eq_func; le_func;
    lt_func; ge_func; gt_func; neq_func; is_func; is_not_func; btw_func; not_btw_func; like_func; not_like_func;
    not_func; and_func; or_func; in_func; not_in_func; arg_case_func; case_func; row_func; nop_func; concat_func;
    nop_func; left_param_end_func ].

Definition SYS_FUNCS_TAB : list op_call_func_t :=
  [ sys_func_length; sys_func_substr; sys_func_cast; sys_func_cur_user; sys_func_trim; sys_func_lower; sys_func_upper;
    sys_func_coalesce; sys_func_hex; sys_func_unhex; sys_func_ip_to_int; sys_func_int_to_ip; sys_func_greatest;
    sys_func_least ].

(** ** Calculation *)

Definition push_obj (c : Calc) (o : ObObj) : option Calc := push c <$> expr_assign o.

Section Loop.
Context (row : ObRow) (owner : option ResultSet) (result_obj : ObObj) (count : nat).

(** The code, the cell [composite_val] points to, the member [result_] and the state. *)
Definition CalcEnd : Type := Z * option ObObj * ObObj * Calc.
Definition fails (ret : Z) (c : Calc) : option CalcEnd := Some (ret, None, result_obj, c).

(** The loop over the cells; [count] is their number in all. *)
Fixpoint calc_loop (rest : list ObObj) (c : Calc) : option CalcEnd :=
  match rest with
  | [] => None
  | o :: rest =>
      match o' ← obj_int o ; node_of o' with
      | None => fails OB_ERR_UNEXPECTED c
      | Some END_MARK =>
          match live_ c with
          | [e] =>
              '(ret, o) ← expr_to e result_obj ;
              Some (ret, if ret =? OB_SUCCESS then Some o else None, o, popped 1 c)
          | _ => fails OB_ERR_UNEXPECTED c
          end
      | Some type =>
          if STACK_SIZE <=? idx_i c then fails OB_ERR_UNEXPECTED c
          else match type with
          | COLUMN_IDX =>
              match rest with
              | o1 :: rest' =>
                  match obj_int o1 with
                  | None => fails OB_OBJ_TYPE_ERROR c
                  | Some tid =>
                      match rest' with
                      | o2 :: rest'' =>
                          match obj_int o2 with
                          | None => fails OB_OBJ_TYPE_ERROR c
                          | Some cid =>
                              let '(ret, cell) := get_cell row (u64 tid) (u64 cid) in
                              if (count =? 4)%nat then Some (ret, cell, result_obj, c)
                              else if negb (ret =? OB_SUCCESS) then fails ret c
                              else cell ← cell ; c ← push_obj c cell ; calc_loop rest'' c
                          end
                      | [] => None
                      end
                  end
              | [] => None
              end
          | CONST_OBJ =>
              match rest with o :: rest' => c ← push_obj c o ; calc_loop rest' c | [] => None end
          | UPS_TIME_OP =>
              let time := XPreciseDateTime (clock (length rest)) in
              calc_loop rest (push (with_set c time) time)
          | OP =>
              match rest with
              | o1 :: rest' =>
                  match obj_int o1 with
                  | None => fails OB_OBJ_TYPE_ERROR c
                  | Some op =>
                      if (op <=? item_code T_MIN_OP) || (item_code T_MAX_OP <=? op) then fails OB_ERR_UNEXPECTED c
                      else match rest' with
                      | o2 :: rest'' =>
                          match obj_int o2 with
                          | None => fails OB_OBJ_TYPE_ERROR c
                          | Some operand_count =>
                              if op =? item_code T_FUN_SYS then
                                match rest'' with
                                | o3 :: rest''' =>
                                    match obj_int o3 with
                                    | None => fails OB_OBJ_TYPE_ERROR c
                                    | Some sys_func =>
                                        if (sys_func <? 0) || (SYS_FUNC_NUM <=? sys_func) then fails OB_ERR_UNEXPECTED c
                                        else
                                          '(ret, c) ← zget nop_func SYS_FUNCS_TAB sys_func (int32 operand_count) c ;
                                          if ret =? OB_SUCCESS then calc_loop rest''' (push c (result_ c)) else fails ret c
                                    end
                                | [] => None
                                end
                              else
                                '(ret, c) ← zget nop_func call_func (op - item_code T_MIN_OP - 1) (int32 operand_count) c ;
                                if ret =? OB_SUCCESS then calc_loop rest'' (push c (result_ c))
                                else if ret =? OB_NO_RESULT then calc_loop rest'' c
                                else fails ret c
                          end
                      | [] => None
                      end
                  end
              | [] => None
              end
          | _ =>
              match rest with
              | o :: rest' =>
                  let '(ret, var) := get_var_obj owner type o in
                  if negb (ret =? OB_SUCCESS) then fails ret c
                  else var ← var ; c ← push_obj c var ; calc_loop rest' c
              | [] => None
              end
          end
      end
  end.
End Loop.

(** The stack and the vector of a thread between calculations. *)
Record CalcThread := mkCalcThread { thread_stack_ : list ObExprObj; thread_vec_ : list ObExprObj }.

(** The code, the cell, the expression and the thread. *)
Definition calc (p : ObPostfixExpression) (row : ObRow) (t : CalcThread)
    : option (Z * option ObObj * ObPostfixExpression * CalcThread) :=
  '(ret, value, result_obj, c) ←
    calc_loop row (owner_op_ p) (result_obj_ p) (length (expr_ p)) (expr_ p)
      (mkCalc [] (thread_stack_ t) (thread_vec_ t) (reuse (calc_buf_ p)) XNull) ;
  Some (ret, value, mkPostfix (expr_ p) result_obj (str_buf_ p) (buf_ c) (owner_op_ p),
        mkCalcThread (rev (live_ c) ++ above_ c) (vec_ c)).

(** ** What an expression is *)

Definition check_expr_type (p : ObPostfixExpression) (type_val : ObPostExprNodeType) (stack_size : nat) : bool :=
  (length (expr_ p) =? stack_size)%nat && bool_decide (obj_int (zget ObObj_new (expr_ p) 0) = Some (node_code type_val)).
Definition is_const_expr (p : ObPostfixExpression) : bool := check_expr_type p CONST_OBJ 3.
Definition is_column_index_expr (p : ObPostfixExpression) : bool := check_expr_type p COLUMN_IDX 4.

(** The code, and the table and the column. *)
Definition get_column_index_expr (p : ObPostfixExpression) : Z * option (Z * Z) :=
  if is_column_index_expr p then
    match obj_int (zget ObObj_new (expr_ p) 1), obj_int (zget ObObj_new (expr_ p) 2) with
    | Some tid, Some cid => (OB_SUCCESS, Some (u64 tid, u64 cid))
    | _, _ => (OB_OBJ_TYPE_ERROR, None)
    end
  else (OB_SUCCESS, None).

(** The columns, when the expression compares two of them for equality. *)
Definition is_equijoin_cond (p : ObPostfixExpression) : option ((Z * Z) * (Z * Z)) :=
  match map obj_int (expr_ p) with
  | [Some k1; Some tid1; Some cid1; Some k2; Some tid2; Some cid2; Some k3; Some op; Some n; _] =>
      if (k1 =? node_code COLUMN_IDX) && (k2 =? node_code COLUMN_IDX) && (k3 =? node_code OP) &&
         (op =? item_code T_OP_EQ) && (n =? 2)
      then Some ((u64 tid1, u64 cid1), (u64 tid2, u64 cid2)) else None
  | _ => None
  end.

(** Kinds that stand for a value: CONST_OBJ, PARAM_IDX, SYSTEM_VAR, TEMP_VAR, CUR_TIME_OP. *)
Definition value_kind (o : ObObj) : option ObPostExprNodeType :=
  type ← obj_int o ;
  t ← node_of type ;
  match t with CONST_OBJ | PARAM_IDX | SYSTEM_VAR | TEMP_VAR | CUR_TIME_OP => Some t | _ => None end.
Definition real_value (p : ObPostfixExpression) (real_val : bool) (t : ObPostExprNodeType) (o : ObObj) : option ObObj :=
  if real_val then let '(err, var) := get_var_obj (owner_op_ p) t o in if err =? OB_SUCCESS then var else None
  else Some o.

(** The column, the operator, the value and its kind of [column op value]. *)
Definition is_simple_condition (p : ObPostfixExpression) (real_val : bool) : option (Z * Z * ObObj * ObPostExprNodeType) :=
  match expr_ p with
  | [k1; _; c; k2; v; k3; o; _; _] =>
      if bool_decide (obj_int k1 = Some (node_code COLUMN_IDX)) then
        cid ← obj_int c ;
        t ← value_kind k2 ;
        if bool_decide (obj_int k3 = Some (node_code OP)) then
          op ← obj_int o ;
          if ((op <? item_code T_OP_EQ) || (item_code T_OP_NE <=? op)) && negb (op =? item_code T_OP_IS) then None
          else v ← real_value p real_val t v ; Some (u64 cid, op, v, t)
        else None
      else None
  | _ => None
  end.

(** The column and the bounds of [column BETWEEN value AND value]. *)
Definition is_simple_between (p : ObPostfixExpression) (real_val : bool) : option (Z * ObObj * ObObj) :=
  match expr_ p with
  | [k1; _; c; k2; v; k3; w; k4; o; _; _] =>
      if bool_decide (obj_int k1 = Some (node_code COLUMN_IDX)) then
        cid ← obj_int c ;
        t1 ← value_kind k2 ;
        t2 ← value_kind k3 ;
        cond_start ← real_value p real_val t1 v ;
        cond_end ← real_value p real_val t2 w ;
        if bool_decide (obj_int k4 = Some (node_code OP)) && bool_decide (obj_int o = Some (item_code T_OP_BTW))
        then Some (u64 cid, cond_start, cond_end) else None
      else None
  | _ => None
  end.
End Postfix.
