(* ===== verification/SqlExpr.v ===== *)
(** * SqlExpr: expressions of the plan, sql/ob_sql_expression.{h,cpp}

    An [ObSqlExpression] is a postfix expression with the column it computes and, for an
    aggregate, its function.  [calc] points COUNT over all rows to a constant. *)

From S2P Require Import Prelude ObObject ObRow ObExprObj Format ObObjCast ExprFunc PostfixExpr.
Local Open Scope Z_scope.

Section SqlExpression.
Context (scan_float scan_double : list Z -> option Z) (localtime : Z -> tm) (mktime : tm -> Z).
Context {Mem : Type} (alloc : Mem -> Z -> option Mem) (inet_aton : list Z -> option Z) (outside : Z -> Z).
Context (reuse clear : Mem -> Mem) (reset_buf : Mem -> Z * Mem) (clock : nat -> Z).

Record ObSqlExpression := mkSqlExpr {
  post_expr_ : ObPostfixExpression (Mem := Mem);
  column_id_ : Z;
  table_id_ : Z;
  is_aggr_func_ : bool;
  is_distinct_ : bool;
  aggr_func_ : Z
}.

Definition with_post (s : ObSqlExpression) (p : ObPostfixExpression) : ObSqlExpression :=
  mkSqlExpr p (column_id_ s) (table_id_ s) (is_aggr_func_ s) (is_distinct_ s) (aggr_func_ s).

(** A new expression with its empty buffers. *)
Definition ObSqlExpression_new (str_buf calc_buf : Mem) : ObSqlExpression :=
  mkSqlExpr (mkPostfix [] ObObj_new str_buf calc_buf None) 0 0 false false (item_code T_INVALID).

Definition sql_assign (s other : ObSqlExpression) : ObSqlExpression :=
  mkSqlExpr (postfix_assign alloc clear reset_buf (post_expr_ s) (post_expr_ other))
    (column_id_ other) (table_id_ other) (is_aggr_func_ other) (is_distinct_ other) (aggr_func_ other).

Definition sql_reset (s : ObSqlExpression) : ObSqlExpression :=
  mkSqlExpr (postfix_reset clear (post_expr_ s)) OB_INVALID_ID OB_INVALID_ID false false (aggr_func_ s).

Definition set_tid_cid (s : ObSqlExpression) (tid cid : Z) : ObSqlExpression :=
  mkSqlExpr (post_expr_ s) cid tid (is_aggr_func_ s) (is_distinct_ s) (aggr_func_ s).

Definition set_aggr_func (s : ObSqlExpression) (aggr_func : Z) (is_distinct : bool) : option ObSqlExpression :=
  ob_assert ((item_code T_FUN_MAX <=? aggr_func) && (aggr_func <=? item_code T_FUN_AVG)) ;;
  Some (mkSqlExpr (post_expr_ s) (column_id_ s) (table_id_ s) true is_distinct aggr_func).

Definition get_aggr_column (s : ObSqlExpression) : Z * option (Z * bool) :=
  if negb (is_aggr_func_ s) then (OB_ERR_UNEXPECTED, None) else (OB_SUCCESS, Some (aggr_func_ s, is_distinct_ s)).

Definition set_owner_op (s : ObSqlExpression) (owner : option ResultSet) : ObSqlExpression :=
  let p := post_expr_ s in
  with_post s (mkPostfix (expr_ p) (result_obj_ p) (str_buf_ p) (calc_buf_ p) owner).

Definition sql_add_expr_item (s : ObSqlExpression) (item : ExprItem) : option (Z * ObSqlExpression) :=
  '(ret, p) ← add_expr_item alloc (post_expr_ s) item ; Some (ret, with_post s p).
Definition sql_add_expr_item_end (s : ObSqlExpression) : Z * ObSqlExpression :=
  let '(ret, p) := add_expr_item_end (post_expr_ s) in (ret, with_post s p).

(** [ObSqlExpressionUtil::make_column_expr] *)
Definition make_column_expr (tid cid : Z) (s : ObSqlExpression) : option (Z * ObSqlExpression) :=
  '(ret, s) ← sql_add_expr_item s (mkItem T_REF_COLUMN (VCell tid cid) []) ;
  Some (if negb (ret =? OB_SUCCESS) then (ret, s) else sql_add_expr_item_end s).

Definition sql_merge_expr (s expr1 expr2 : ObSqlExpression) (op : ExprItem) : option (Z * ObSqlExpression) :=
  let s := sql_reset s in
  '(ret, p) ← merge_expr alloc (post_expr_ s) (post_expr_ expr1) (post_expr_ expr2) op ; Some (ret, with_post s p).

Definition OBJ_ZERO : ObObj := int_obj 0.

Definition sql_calc (s : ObSqlExpression) (row : ObRow) (t : CalcThread)
    : option (Z * option ObObj * ObSqlExpression * CalcThread) :=
  if is_aggr_func_ s && (aggr_func_ s =? item_code T_FUN_COUNT) && postfix_is_empty (post_expr_ s)
  then Some (OB_SUCCESS, Some OBJ_ZERO, s, t)
  else
    '(ret, value, p, t) ← calc scan_float scan_double localtime mktime alloc inet_aton outside reuse clock (post_expr_ s) row t ;
    Some (ret, value, with_post s p, t).
End SqlExpression.
