(* ===== verification/RawExpr.v ===== *)
(** * RawExpr: from the expressions of the resolver to postfix expressions,
    sql/ob_raw_expr.{h,cpp}

    [fill_sql_expression] appends the items of a tree to an expression of the plan. *)

From S2P Require Import Prelude ObNumber ObObject ObRowDesc ObRow ObExprObj Format ObObjCast StringSearch Like ExprArith ExprFunc PostfixExpr SqlExpr.
Local Open Scope Z_scope.

Definition OB_ERR_EXPR_UNKNOWN : Z := -5022.

Unset Elimination Schemes.
(** The classes of raw expressions; the type is the member [type_], which the class
    of the current time fixes.  NULL pointers are [None]. *)
Inductive ObRawExpr :=
  | ObConstRawExpr (type : ObItemType) (value : ObObj)
  | ObCurTimeExpr
  | ObUnaryRefRawExpr (type : ObItemType) (id : Z)
  | ObBinaryRefRawExpr (type : ObItemType) (first_id second_id : Z)
  | ObUnaryOpRawExpr (type : ObItemType) (expr : ObRawExpr)
  | ObBinaryOpRawExpr (type : ObItemType) (first_expr second_expr : ObRawExpr)
  | ObTripleOpRawExpr (type : ObItemType) (first_expr second_expr third_expr : ObRawExpr)
  | ObMultiOpRawExpr (type : ObItemType) (exprs : list ObRawExpr)
  | ObCaseOpRawExpr (type : ObItemType) (arg_expr : option ObRawExpr) (when_exprs then_exprs : list ObRawExpr)
      (default_expr : option ObRawExpr)
  | ObAggFunRawExpr (type : ObItemType) (param_expr : option ObRawExpr) (distinct : bool)
  | ObSysFunRawExpr (type : ObItemType) (func_name : list Z) (exprs : list ObRawExpr).
Set Elimination Schemes.

Definition get_expr_type (e : ObRawExpr) : ObItemType :=
  match e with
  | ObConstRawExpr t _ | ObUnaryRefRawExpr t _ | ObBinaryRefRawExpr t _ _ | ObUnaryOpRawExpr t _
  | ObBinaryOpRawExpr t _ _ | ObTripleOpRawExpr t _ _ _ | ObMultiOpRawExpr t _ | ObCaseOpRawExpr t _ _ _ _
  | ObAggFunRawExpr t _ _ | ObSysFunRawExpr t _ _ => t
  | ObCurTimeExpr => T_CUR_TIME
  end.

Definition raw_is_const (e : ObRawExpr) : bool :=
  let t := item_code (get_expr_type e) in (item_code T_INT <=? t) && (t <=? item_code T_NULL).
Definition raw_is_column (e : ObRawExpr) : bool := item_is (get_expr_type e) T_REF_COLUMN.

(** [ObConstRawExpr::set_value_and_type]: the code and the new expression. *)
Definition set_value_and_type (val : ObObj) : Z * option ObRawExpr :=
  let const t := (OB_SUCCESS, Some (ObConstRawExpr t val)) in
  match type_ val with
  | ObNullType => const T_NULL
  | ObIntType => const T_INT
  | ObFloatType => const T_FLOAT
  | ObDoubleType => const T_DOUBLE
  | ObPreciseDateTimeType | ObCreateTimeType | ObModifyTimeType => const T_DATE
  | ObVarcharType => const T_STRING
  | ObBoolType => const T_BOOL
  | _ => (OB_NOT_SUPPORTED, None)
  end.

(** [ObBinaryOpRawExpr::set_op_exprs]: a comparison of a constant with a column is
    turned round. *)
Definition exchange_type (t : ObItemType) : option ObItemType :=
  match t with
  | T_OP_LE => Some T_OP_GE
  | T_OP_LT => Some T_OP_GT
  | T_OP_GE => Some T_OP_LE
  | T_OP_GT => Some T_OP_LT
  | T_OP_EQ | T_OP_NE => Some t
  | _ => None
  end.
Definition set_op_exprs (t : ObItemType) (first_expr second_expr : ObRawExpr) : ObRawExpr :=
  match exchange_type t with
  | Some t' =>
      if raw_is_const first_expr && raw_is_column second_expr then ObBinaryOpRawExpr t' second_expr first_expr
      else ObBinaryOpRawExpr t first_expr second_expr
  | None => ObBinaryOpRawExpr t first_expr second_expr
  end.

Fixpoint interleave {A} (l k : list A) : list A :=
  match l, k with
  | x :: l, y :: k => x :: y :: interleave l k
  | _, _ => []
  end.

Section Fill.
Context {Mem : Type} (alloc : Mem -> Z -> option Mem).
(** The plans that are built: the kind of current time, and the generation of a
    sub-query, which gives a code and an index. *)
Context (plan : option (Z * (Z -> Z * Z))).

#[local] Abbreviation SqlExpression := (ObSqlExpression (Mem := Mem)).

Definition Step : Type := SqlExpression -> option (Z * SqlExpression).

(** Steps until one fails. *)
Fixpoint fill_seq (steps : list Step) : Step := fun s =>
  match steps with
  | [] => Some (OB_SUCCESS, s)
  | step :: steps' => '(ret, s) ← step s ; if ret =? OB_SUCCESS then fill_seq steps' s else Some (ret, s)
  end.

Definition add_item (t : ObItemType) (v : ItemValue) (string : list Z) : Step := fun s =>
  sql_add_expr_item alloc s (mkItem t v string).
Definition add_op (t : ObItemType) (n : nat) : Step := add_item t (VInt (Z.of_nat n)) [].

Definition fill_const (t : ObItemType) (value : ObObj) : Step := fun s =>
  let filled {A} (v : option A) (item : A -> Step) :=
    match v with Some v => item v s | None => Some (OB_OBJ_TYPE_ERROR, s) end in
  match t with
  | T_STRING | T_BINARY | T_DECIMAL | T_SYSTEM_VARIABLE | T_TEMP_VARIABLE =>
      filled (get_varchar value) (fun v => add_item t VNone v)
  | T_FLOAT => filled (fst <$> get_float value) (fun v => add_item t (VFloat v) [])
  | T_DOUBLE => filled (fst <$> get_double value) (fun v => add_item t (VDouble v) [])
  | T_INT | T_QUESTIONMARK => filled (obj_int value) (fun v => add_item t (VInt v) [])
  | T_BOOL => filled (ObObject.get_bool value) (fun v => add_item t (VBool v) [])
  | T_DATE => filled (fst <$> get_precise_datetime value) (fun v => add_item t (VInt v) [])
  | T_NULL => add_item t VNone [] s
  | _ => Some (OB_ERR_EXPR_UNKNOWN, s)
  end.

Definition fill_cur_time : Step := fun s =>
  '(cur_time, _) ← plan ; add_item T_CUR_TIME (VInt cur_time) [] s.

Definition fill_unary_ref (t : ObItemType) (id : Z) : Step := fun s =>
  match plan with
  | None => Some (OB_ERROR, s)
  | Some (_, gen_physical_select) =>
      let '(ret, index) := gen_physical_select id in
      if negb (ret =? OB_SUCCESS) then Some (ret, s)
      else if index =? OB_INVALID_INDEX then Some (OB_ERROR, s)
      else add_item t (VInt index) [] s
  end.

Definition fill_binary_ref (t : ObItemType) (first_id second_id : Z) : Step := fun s =>
  if item_is t T_REF_COLUMN then add_item t (VCell first_id second_id) [] s else Some (OB_ERROR, s).

Definition is_in_op (t : ObItemType) : bool := item_is t T_OP_IN || item_is t T_OP_NOT_IN.

(** The left side of IN is made a row when the right side is a list of values. *)
Definition dem_1_to_2 (first_type second_type : ObItemType) : bool :=
  negb (item_is first_type T_OP_ROW) && negb (item_is first_type T_REF_QUERY) && item_is second_type T_OP_ROW.

(** What follows the left side of IN. *)
Definition fill_left_end (first_type second_type : ObItemType) : list Step :=
  let dem := dem_1_to_2 first_type second_type in
  (if dem then [add_op T_OP_ROW 1] else []) ++
  [add_op T_OP_LEFT_PARAM_END
     (if dem || item_is first_type T_OP_ROW || item_is first_type T_REF_QUERY then 2 else 1)].

Definition opt_list {A} (o : option A) : list A := match o with Some x => [x] | None => [] end.

(** The classes, over the steps of their operands. *)

Definition fill_unary (t : ObItemType) (expr : Step) : Step := fill_seq [expr; add_op t 1].

(** [row_exprs] are the operands of a right side that is a list. *)
Definition fill_binary (t first_type second_type : ObItemType) (first_expr second_expr : Step)
    (row_exprs : option (list Step)) : Step :=
  fill_seq ([first_expr] ++
    (if is_in_op t then fill_left_end first_type second_type else []) ++
    (if is_in_op t && dem_1_to_2 first_type second_type then
       match row_exprs with
       | Some exprs => map (fun expr => fill_seq [expr; add_op T_OP_ROW 1]) exprs ++ [add_op second_type (length exprs)]
       | None => [fun s => Some (OB_ERR_EXPR_UNKNOWN, s)]
       end
     else [second_expr]) ++
    [add_op t 2]).

Definition fill_triple (t : ObItemType) (first_expr second_expr third_expr : Step) : Step :=
  fill_seq [first_expr; second_expr; third_expr; add_op t 3].

Definition fill_multi (t : ObItemType) (exprs : list Step) : Step := fill_seq (exprs ++ [add_op t (length exprs)]).

Definition fill_case (arg_expr : option Step) (when_exprs then_exprs : list Step) (default_expr : option Step) : Step :=
  fill_seq
    (opt_list arg_expr ++ interleave when_exprs then_exprs ++ opt_list default_expr ++
     [add_op (match arg_expr with None => T_OP_CASE | Some _ => T_OP_ARG_CASE end)
        ((match arg_expr with None => 0 | Some _ => 1 end) + length when_exprs + length then_exprs +
         (match default_expr with None => 0 | Some _ => 1 end))]).

Definition fill_agg_fun (t : ObItemType) (param_expr : option Step) (distinct : bool) : Step := fun s =>
  s ← set_aggr_func s (item_code t) distinct ;
  fill_seq (opt_list param_expr) s.

Definition fill_sys_fun (func_name : list Z) (exprs : list Step) : Step :=
  fill_seq (exprs ++ [add_item T_FUN_SYS (VInt (Z.of_nat (length exprs))) func_name]).

Fixpoint fill_sql_expression (e : ObRawExpr) : Step :=
  match e with
  | ObConstRawExpr t value => fill_const t value
  | ObCurTimeExpr => fill_cur_time
  | ObUnaryRefRawExpr t id => fill_unary_ref t id
  | ObBinaryRefRawExpr t first_id second_id => fill_binary_ref t first_id second_id
  | ObUnaryOpRawExpr t expr => fill_unary t (fill_sql_expression expr)
  | ObBinaryOpRawExpr t first_expr second_expr =>
      fill_binary t (get_expr_type first_expr) (get_expr_type second_expr)
        (fill_sql_expression first_expr) (fill_sql_expression second_expr)
        (match second_expr with ObMultiOpRawExpr _ exprs => Some (map fill_sql_expression exprs) | _ => None end)
  | ObTripleOpRawExpr t first_expr second_expr third_expr =>
      fill_triple t (fill_sql_expression first_expr) (fill_sql_expression second_expr) (fill_sql_expression third_expr)
  | ObMultiOpRawExpr t exprs => fill_multi t (map fill_sql_expression exprs)
  | ObCaseOpRawExpr _ arg_expr when_exprs then_exprs default_expr =>
      fill_case (option_map fill_sql_expression arg_expr) (map fill_sql_expression when_exprs)
        (map fill_sql_expression then_exprs) (option_map fill_sql_expression default_expr)
  | ObAggFunRawExpr t param_expr distinct => fill_agg_fun t (option_map fill_sql_expression param_expr) distinct
  | ObSysFunRawExpr _ func_name exprs => fill_sys_fun func_name (map fill_sql_expression exprs)
  end.

(** [ObSqlRawExpr::fill_sql_expression] *)
Definition fill_sql_raw_expr (table_id column_id : Z) (expr : ObRawExpr) : Step := fun s =>
  fill_seq [fill_sql_expression expr; fun s => Some (sql_add_expr_item_end s)] (set_tid_cid s table_id column_id).
End Fill.

(** ** Induction over raw expressions *)

Definition children (e : ObRawExpr) : list ObRawExpr :=
  match e with
  | ObConstRawExpr _ _ | ObCurTimeExpr | ObUnaryRefRawExpr _ _ | ObBinaryRefRawExpr _ _ _ => []
  | ObUnaryOpRawExpr _ e => [e]
  | ObBinaryOpRawExpr _ e1 e2 => [e1; e2]
  | ObTripleOpRawExpr _ e1 e2 e3 => [e1; e2; e3]
  | ObMultiOpRawExpr _ es | ObSysFunRawExpr _ _ es => es
  | ObCaseOpRawExpr _ arg ws ts d => opt_list arg ++ ws ++ ts ++ opt_list d
  | ObAggFunRawExpr _ param _ => opt_list param
  end.

Fixpoint raw_size (e : ObRawExpr) : nat :=
  S (match e with
     | ObConstRawExpr _ _ | ObCurTimeExpr | ObUnaryRefRawExpr _ _ | ObBinaryRefRawExpr _ _ _ => 0
     | ObUnaryOpRawExpr _ e => raw_size e
     | ObBinaryOpRawExpr _ e1 e2 => raw_size e1 + raw_size e2
     | ObTripleOpRawExpr _ e1 e2 e3 => raw_size e1 + raw_size e2 + raw_size e3
     | ObMultiOpRawExpr _ es | ObSysFunRawExpr _ _ es => list_sum (map raw_size es)
     | ObCaseOpRawExpr _ arg ws ts d =>
         from_option raw_size 0 arg + list_sum (map raw_size ws) + list_sum (map raw_size ts) + from_option raw_size 0 d
     | ObAggFunRawExpr _ param _ => from_option raw_size 0 param
     end)%nat.

Lemma raw_size_in es e : e ∈ es -> (raw_size e <= list_sum (map raw_size es))%nat.
Proof. induction 1 as [| ???? IH]; cbn [map list_sum]; cbn [list_sum fold_right]; [lia |]. fold (list_sum (map raw_size l)). lia. Qed.

Lemma raw_size_child e e' : e' ∈ children e -> (raw_size e' < raw_size e)%nat.
Proof.
  intros H. apply raw_size_in in H. eapply Nat.le_lt_trans; [exact H |].
  destruct e as [| | | | | | | | t arg ws ts d | t param |]; cbn [children raw_size]; rewrite ?map_app, ?list_sum_app; cbn; try lia.
  - destruct arg, d; cbn; lia.
  - destruct param; cbn; lia.
Qed.

(** What holds of a tree when it holds of all trees in it holds of every tree. *)
Inductive below : ObRawExpr -> ObRawExpr -> Prop :=
  | below_child e e' : e' ∈ children e -> below e' e
  | below_step e e' e'' : e'' ∈ children e' -> below e' e -> below e'' e.
Create HintDb raw.
#[export] Hint Constructors below : raw.

Lemma raw_expr_ind (P : ObRawExpr -> Prop) : (forall e, (forall e', below e' e -> P e') -> P e) -> forall e, P e.
Proof.
  intros step e. remember (raw_size e) as n eqn:En. revert e En.
  induction (lt_wf n) as [n _ IH]. intros e ->. apply step. intros e' Hb. eapply IH; [| done].
  induction Hb as [e e' Hc | e e' e'' Hc Hb IHb]; [by apply raw_size_child |].
  apply raw_size_child in Hc. pose proof (IHb IH). lia.
Qed.
