(* ===== verification/RawEval.v ===== *)
(** * RawEval: the value of a raw expression, and that the postfix expression computes it

    [eval] evaluates a tree of sql/ob_raw_expr.h directly: the operands from left to right,
    then the operator.  It threads the memory of the calculation and the variable
    [result], which CAST reads.  [None] is an expression without a meaning: an operator
    with the wrong number of operands, a row outside of IN, a CASE without a match whose
    ELSE value is true.

    The theorem is that the items [fill_sql_expression] appends make [calc] give this
    value or fail with this code, whatever earlier calculations have left in the stack
    and in the vector of the thread, when the stack is deep enough. *)

From S2P Require Import Prelude ObNumber ObObject ObRowDesc ObRow ObExprObj Format ObObjCast StringSearch Like ExprArith ExprFunc PostfixExpr SqlExpr RawExpr.
Local Open Scope Z_scope.

(** ** How deep the stack gets *)

(** Operands one after the other: each finds the values of those before it. *)
Definition need_seq (ns : list nat) : nat := foldr (fun n acc => Nat.max n (S acc)) 0%nat ns.
Definition need_op (ns : list nat) : nat := Nat.max (need_seq ns) (S (length ns)).
Definition need_in (lhs : list nat) (rows : list (list nat)) : nat :=
  Nat.max (need_op lhs) (S (Nat.max (need_seq (map need_op rows)) (Nat.max (S (length rows)) 2))).

(** The operands of the sides of IN. *)
Definition row_of {A} (f : ObRawExpr -> A) (e : ObRawExpr) : option (list A) :=
  match e with ObMultiOpRawExpr T_OP_ROW es => Some (map f es) | _ => None end.

Definition in_sides {A} (f : ObRawExpr -> A) (e1 e2 : ObRawExpr) : option (list A * list (list A)) :=
  match e2 with
  | ObMultiOpRawExpr T_OP_ROW rows =>
      if item_is (get_expr_type e1) T_OP_ROW then
        lhs ← row_of f e1 ;
        rows ← mapM (row_of f) rows ;
        Some (lhs, rows)
      else if item_is (get_expr_type e1) T_REF_QUERY then None
      else Some ([f e1], map (fun r => [f r]) rows)
  | _ => None
  end.

Fixpoint need (e : ObRawExpr) : nat :=
  match e with
  | ObConstRawExpr _ _ | ObCurTimeExpr | ObUnaryRefRawExpr _ _ | ObBinaryRefRawExpr _ _ _ => 1%nat
  | ObUnaryOpRawExpr _ e => need_op [need e]
  | ObBinaryOpRawExpr t e1 e2 =>
      if is_in_op t then match in_sides need e1 e2 with Some (lhs, rows) => need_in lhs rows | None => 0%nat end
      else need_op [need e1; need e2]
  | ObTripleOpRawExpr _ e1 e2 e3 => need_op [need e1; need e2; need e3]
  | ObMultiOpRawExpr _ es | ObSysFunRawExpr _ _ es => need_op (map need es)
  | ObCaseOpRawExpr _ arg ws ts d =>
      need_op (opt_list (option_map need arg) ++ interleave (map need ws) (map need ts) ++ opt_list (option_map need d))
  | ObAggFunRawExpr _ param _ => need_seq (opt_list (option_map need param))
  end.

Lemma u64_int64 z : u64 (int64 z) = u64 z.
Proof. unfold wrapu. by apply mod_wraps. Qed.

(** ** Lists of operands *)

Lemma map_opt_list {X Y} (f : X -> Y) o : opt_list (option_map f o) = map f (opt_list o).
Proof. by destruct o. Qed.
Lemma map_interleave {X Y} (f : X -> Y) l k : interleave (map f l) (map f k) = map f (interleave l k).
Proof. revert k. induction l as [| x l IH]; intros [| y k]; cbn; [done.. |]. by rewrite IH. Qed.
Lemma interleave_in {X} (x : X) l k : x ∈ interleave l k -> x ∈ l ++ k.
Proof.
  revert k. induction l as [| y l IH]; intros [| z k]; cbn; try (by intros ?%not_elem_of_nil).
  rewrite !elem_of_cons, elem_of_app, elem_of_cons. intros [-> | [-> | H]]; [tauto.. |].
  apply IH, elem_of_app in H. tauto.
Qed.

Lemma interleave_length {X} (l k : list X) : length l = length k -> length (interleave l k) = (length l + length k)%nat.
Proof. revert k. induction l as [| x l IH]; intros [| y k] H; try done. cbn in *. rewrite IH by lia. lia. Qed.

(** The operands of CASE. *)
Definition case_exprs (arg : option ObRawExpr) (ws ts : list ObRawExpr) (d : option ObRawExpr) : list ObRawExpr :=
  opt_list arg ++ interleave ws ts ++ opt_list d.
Lemma map_case_exprs {Y} (f : ObRawExpr -> Y) arg ws ts d :
  opt_list (option_map f arg) ++ interleave (map f ws) (map f ts) ++ opt_list (option_map f d) =
  map f (case_exprs arg ws ts d).
Proof. unfold case_exprs. by rewrite !map_opt_list, map_interleave, !map_app. Qed.
Lemma case_exprs_children t arg ws ts d e : e ∈ case_exprs arg ws ts d -> e ∈ children (ObCaseOpRawExpr t arg ws ts d).
Proof.
  unfold case_exprs. cbn [children]. rewrite !elem_of_app. intros [H | [H | H]]; [auto | | auto].
  apply interleave_in, elem_of_app in H. tauto.
Qed.

Section Eval.
Context (scan_float scan_double : list Z -> option Z) (localtime : Z -> tm) (mktime : tm -> Z).
Context {Mem : Type} (alloc : Mem -> Z -> option Mem) (inet_aton : list Z -> option Z) (outside : Z -> Z).
Context (row : ObRow) (owner : option ResultSet).

#[local] Abbreviation OpValue := (op_value (Mem := Mem)).
#[local] Abbreviation Step := (Step (Mem := Mem)).
#[local] Abbreviation cast := (cast_new scan_float scan_double localtime mktime).

(** ** Evaluation *)

(** A step of the evaluation: from the memory and [result] to an error code, or to these
    and a value. *)
Definition Ev (A : Type) : Type := Mem * ObExprObj -> option (Z + (Mem * ObExprObj) * A).

Definition ev_ret {A} (x : A) : Ev A := fun st => Some (inr (st, x)).
Definition ev_none {A} : Ev A := fun _ => None.
Definition ev_bind {A B} (a : Ev A) (f : A -> Ev B) : Ev B := fun st =>
  r ← a st ; match r with inl code => Some (inl code) | inr (st, x) => f x st end.
Definition ev_opt {A} (o : option (Ev A)) : Ev A := default ev_none o.
(** The variable [result] gets [r]. *)
Definition ev_result (r : ObExprObj) : Ev unit := fun st => Some (inr ((fst st, r), ())).

Fixpoint ev_all {A} (evs : list (Ev A)) : Ev (list A) :=
  match evs with
  | [] => ev_ret []
  | ev :: evs' => ev_bind ev (fun v => ev_bind (ev_all evs') (fun vs => ev_ret (v :: vs)))
  end.

(** A leaf, the code and its cell. *)
Definition ev_obj (r : Z * option ObObj) : Ev ObExprObj := fun st =>
  let '(ret, o) := r in
  if negb (ret =? OB_SUCCESS) then Some (inl ret)
  else o ← o ; v ← expr_assign o ; Some (inr (st, v)).

Definition eval_const (t : ObItemType) (value : ObObj) : Ev ObExprObj :=
  let literal (b : bool) := if b then ev_obj (OB_SUCCESS, Some value) else ev_none in
  match t with
  | T_STRING | T_BINARY => literal (type_eqb (type_ value) ObVarcharType)
  | T_FLOAT => literal (type_eqb (type_ value) ObFloatType)
  | T_DOUBLE => literal (type_eqb (type_ value) ObDoubleType)
  | T_INT => literal (type_eqb (type_ value) ObIntType)
  | T_BOOL => literal (type_eqb (type_ value) ObBoolType)
  | T_DATE => literal (type_eqb (type_ value) ObPreciseDateTimeType)
  | T_NULL => ev_obj (OB_SUCCESS, Some ObObj_new)
  | T_QUESTIONMARK => ev_obj (get_var_obj owner PARAM_IDX value)
  | T_SYSTEM_VARIABLE => ev_obj (get_var_obj owner SYSTEM_VAR value)
  | T_TEMP_VARIABLE => ev_obj (get_var_obj owner TEMP_VAR value)
  | _ => ev_none
  end.

(** An operator on its operands; no operator gives OB_NO_RESULT. *)
Definition apply_op (f : OpValue) (vs : list ObExprObj) : Ev ObExprObj := fun st =>
  '(ret, m, v) ← f (fst st) (snd st) vs ;
  if ret =? OB_SUCCESS then Some (inr ((m, v), v))
  else if ret =? OB_NO_RESULT then None else Some (inl ret).

Definition failing (code : Z) : OpValue := fun m r _ => Some (code, m, r).

(** What an operator means for [n] operands. *)
Definition denote_op (t : ObItemType) (n : nat) : option OpValue :=
  let fixed k (f : OpValue) := if (n =? k)%nat then Some f else None in
  match t with
  | T_OP_NEG => fixed 1%nat (unary expr_negate)
  | T_OP_POS => fixed 1%nat (unary (fun a => Some (OB_SUCCESS, a)))
  | T_OP_NOT => fixed 1%nat (unary (fun a => Some (OB_SUCCESS, expr_lnot a)))
  | T_OP_ADD => fixed 2%nat (binary (expr_add cast))
  | T_OP_MINUS => fixed 2%nat (binary (expr_sub cast))
  | T_OP_MUL => fixed 2%nat (binary (expr_mul cast))
  | T_OP_DIV => fixed 2%nat (binary (expr_div scan_float scan_double localtime mktime))
  | T_OP_REM | T_OP_MOD => fixed 2%nat (binary (expr_mod scan_float scan_double localtime mktime))
  | T_OP_EQ => fixed 2%nat (binary (expr_eq cast))
  | T_OP_LE => fixed 2%nat (binary (expr_le cast))
  | T_OP_LT => fixed 2%nat (binary (expr_lt cast))
  | T_OP_GE => fixed 2%nat (binary (expr_ge cast))
  | T_OP_GT => fixed 2%nat (binary (expr_gt cast))
  | T_OP_NE => fixed 2%nat (binary (expr_ne cast))
  | T_OP_IS => fixed 2%nat (binary (fun a b => Some (expr_is a b)))
  | T_OP_IS_NOT => fixed 2%nat (binary (fun a b => Some (expr_is_not a b)))
  | T_OP_LIKE => fixed 2%nat (like_value outside)
  | T_OP_NOT_LIKE => fixed 2%nat (binary (expr_not_like outside))
  | T_OP_AND => fixed 2%nat (binary (fun a b => Some (OB_SUCCESS, expr_land a b)))
  | T_OP_OR => fixed 2%nat (binary (fun a b => Some (OB_SUCCESS, expr_lor a b)))
  | T_OP_CNN => fixed 2%nat (concat_value scan_float scan_double localtime mktime alloc)
  | T_OP_BTW => fixed 3%nat (ternary (expr_btw cast))
  | T_OP_NOT_BTW => fixed 3%nat (ternary (expr_not_btw cast))
  | T_OP_CASE => Some (if (n <? 3)%nat then failing OB_INVALID_ARGUMENT else case_value [])
  | T_OP_ARG_CASE =>
      Some (if (n <? 3)%nat then failing OB_INVALID_ARGUMENT
            else arg_case_value scan_float scan_double localtime mktime)
  | T_OP_POW | T_OP_EXISTS => Some (failing OB_NOT_IMPLEMENT)
  | _ => None
  end.

(** What the system function of number [f] means for [n] operands. *)
Definition denote_sys (f : Z) (n : nat) : option OpValue :=
  let fixed k (f : OpValue) := if (n =? k)%nat then Some f else None in
  zget None
    [ fixed 1%nat (unary (fun a => Some (varchar_length a)));
      Some (if (n =? 2)%nat || (n =? 3)%nat then substr_value scan_float scan_double localtime mktime alloc
            else failing OB_ERR_UNEXPECTED);
      fixed 2%nat (cast_value scan_float scan_double localtime mktime alloc);
      Some (failing OB_NOT_SUPPORTED);
      fixed 3%nat (trim_value scan_float scan_double localtime mktime alloc);
      fixed 1%nat (coded (lower_case scan_float scan_double localtime mktime alloc));
      fixed 1%nat (coded (upper_case scan_float scan_double localtime mktime alloc));
      Some coalesce_value;
      fixed 1%nat (uncoded (hex alloc));
      fixed 1%nat (uncoded (unhex alloc));
      fixed 1%nat (unary (fun a => Some (ip_to_int inet_aton a)));
      fixed 1%nat (uncoded (int_to_ip alloc));
      Some (best_value scan_float scan_double localtime mktime (fun cmp => 0 <? cmp));
      Some (best_value scan_float scan_double localtime mktime (fun cmp => cmp <? 0)) ] f.

Definition ev_apply (f : option OpValue) (evs : list (Ev ObExprObj)) : Ev ObExprObj :=
  match f with Some f => ev_bind (ev_all evs) (apply_op f) | None => ev_none end.

(** *** IN *)

(** The comparison of the first columns that differ, from the last column on. *)
Fixpoint row_differs (l r : list ObExprObj) : option (option ObExprObj) :=
  match l, r with
  | x :: l', y :: r' =>
      cmp ← expr_eq cast x y ;
      cmp ← set_value cmp ;
      if expr_is_true cmp || (bool_decide (x = XNull) && bool_decide (y = XNull)) then row_differs l' r'
      else Some (Some cmp)
  | _, _ => Some None
  end.

(** Whether a row is equal to [lhs], and whether a comparison was null. *)
Fixpoint in_list (lhs : list ObExprObj) (rows : list (list ObExprObj)) (has_null : bool) : option (bool * bool) :=
  match rows with
  | [] => Some (false, has_null)
  | r :: rows' =>
      differs ← row_differs (rev lhs) (rev r) ;
      match differs with
      | None => Some (true, has_null)
      | Some cmp => in_list lhs rows' (has_null || bool_decide (cmp = XNull))
      end
  end.

Definition in_value (negated : bool) (lhs : list ObExprObj) (rows : list (list ObExprObj)) : option ObExprObj :=
  '(is_in, has_null) ← in_list lhs rows false ;
  let r := in_result is_in has_null in
  Some (if negated then expr_lnot r else r).

(** The operands of a row; then [result] is their number. *)
Definition ev_row (evs : list (Ev ObExprObj)) : Ev (list ObExprObj) :=
  ev_bind (ev_all evs) (fun vs => ev_bind (ev_result (XInt (Z.of_nat (length evs)))) (fun _ => ev_ret vs)).

(** Rows of one width. *)
Definition ev_in (negated : bool) (lhs : list (Ev ObExprObj)) (rows : list (list (Ev ObExprObj))) : Ev ObExprObj :=
  if negb ((0 <? length lhs)%nat && forallb (fun r => (length r =? length lhs)%nat) rows) then ev_none
  else
    ev_bind (ev_row lhs) (fun l =>
    ev_bind (ev_result (XInt 2)) (fun _ =>
    ev_bind (ev_all (map ev_row rows)) (fun rs =>
    ev_opt (v ← in_value negated l rs ; Some (ev_bind (ev_result v) (fun _ => ev_ret v)))))).

Fixpoint eval (e : ObRawExpr) : Ev ObExprObj :=
  match e with
  | ObConstRawExpr t value => eval_const t value
  | ObCurTimeExpr => ev_obj (get_var_obj owner CUR_TIME_OP ObObj_new)
  | ObUnaryRefRawExpr _ _ => ev_none
  | ObBinaryRefRawExpr _ tid cid => ev_obj (get_cell row (u64 tid) (u64 cid))
  | ObUnaryOpRawExpr t e => ev_apply (denote_op t 1) [eval e]
  | ObBinaryOpRawExpr t e1 e2 =>
      if is_in_op t then
        match in_sides eval e1 e2 with
        | Some (lhs, rows) => ev_in (item_is t T_OP_NOT_IN) lhs rows
        | None => ev_none
        end
      else ev_apply (denote_op t 2) [eval e1; eval e2]
  | ObTripleOpRawExpr t e1 e2 e3 => ev_apply (denote_op t 3) [eval e1; eval e2; eval e3]
  | ObMultiOpRawExpr t es => ev_apply (denote_op t (length es)) (map eval es)
  | ObCaseOpRawExpr _ arg ws ts d =>
      if negb (length ws =? length ts)%nat then ev_none
      else
        let evs := opt_list (option_map eval arg) ++ interleave (map eval ws) (map eval ts) ++ opt_list (option_map eval d) in
        ev_apply (denote_op (match arg with None => T_OP_CASE | Some _ => T_OP_ARG_CASE end) (length evs)) evs
  | ObAggFunRawExpr _ param _ => match param with Some e => eval e | None => ev_none end
  | ObSysFunRawExpr _ name es =>
      match get_sys_func name with
      | Some f => ev_apply (denote_sys f (length es)) (map eval es)
      | None => ev_none
      end
  end.

(** ** The operands of a call, and those of CASE *)

Lemma taking_spec (f : OpValue) vs L A V m r :
  taking (Z.of_nat (length vs)) f (mkCalc (rev vs ++ L) A V m r) =
  ('(ret, m', v) ← f m r vs ; Some (ret, mkCalc L (vs ++ A) V m' v)).
Proof.
  unfold taking, idx_i. cbn [live_]. rewrite length_app, length_rev.
  destruct (Z.ltb_spec (Z.of_nat (length vs)) 0); [lia |].
  destruct (Z.ltb_spec (Z.of_nat (length vs + length L)) (Z.of_nat (length vs))); [lia |].
  rewrite Nat2Z.id. unfold operands, with_result, popped, operands. cbn.
  rewrite take_app_length', drop_app_length' by (by rewrite length_rev). by rewrite rev_involutive.
Qed.

Lemma case_loop_app i s a x : case_loop i s = Some x -> case_loop i (s ++ a) = Some x.
Proof.
  revert i. induction s as [s IH] using (induction_ltof1 _ (@length _)); unfold ltof in IH. intros i.
  destruct s as [| w s]; cbn; [by destruct a; cbn; destruct (i <=? 0) |].
  destruct (i <=? 0); [done |]. destruct (expr_is_true w).
  - by destruct s.
  - destruct (i =? 1); [done |]. destruct s as [| y s]; [done |]. cbn. apply IH. cbn. lia.
Qed.

Lemma case_value_above (vs A : list ObExprObj) (m : Mem) r x : case_value [] m r vs = Some x -> case_value A m r vs = Some x.
Proof.
  unfold case_value. rewrite app_nil_r. intros E. apply bind_Some in E as (y & Hy & E).
  by rewrite (case_loop_app _ _ _ _ Hy).
Qed.

Lemma case_loop_else (ws ts A : list ObExprObj) e x :
  length ws = length ts -> Forall (fun w => expr_is_true w = false) ws -> expr_is_true e = true ->
  case_loop (2 * Z.of_nat (length ws) + 1) (interleave ws ts ++ e :: x :: A) = Some (Some x).
Proof.
  intros Hl Hw He. revert ts Hl. induction Hw as [| w ws Hw _ IH]; intros [| y ts] Hl; try done.
  - cbn. by rewrite He.
  - cbn [interleave app case_loop length].
    destruct (Z.leb_spec (2 * Z.of_nat (S (length ws)) + 1) 0); [lia |]. rewrite Hw.
    destruct (Z.eqb_spec (2 * Z.of_nat (S (length ws)) + 1) 1); [lia |].
    replace (2 * Z.of_nat (S (length ws)) + 1 - 2) with (2 * Z.of_nat (length ws) + 1) by lia. apply IH. by injection Hl.
Qed.

(** ** Items that compute *)

Context (clock : nat -> Z) (result_obj : ObObj) (count : nat) (plan : option (Z * (Z -> Z * Z))).
Context (count_ok : count <> 4%nat).

#[local] Abbreviation loop :=
  (calc_loop scan_float scan_double localtime mktime alloc inet_aton outside clock row owner result_obj count).

(** Cells that compute what [ev] does: its error, or its values on top of the stack. *)
Definition computes (cells : list ObObj) (n : nat) (ev : Ev (list ObExprObj)) : Prop :=
  forall L A V m r rest, (length L + n <= 512)%nat ->
  match ev (m, r) with
  | None => True
  | Some (inl code) => exists c, loop (cells ++ rest) (mkCalc L A V m r) = Some (code, None, result_obj, c)
  | Some (inr ((m', r'), vs)) =>
      exists A', loop (cells ++ rest) (mkCalc L A V m r) = loop rest (mkCalc (rev vs ++ L) A' V m' r')
  end.

Definition single (ev : Ev ObExprObj) : Ev (list ObExprObj) := ev_bind ev (fun v => ev_ret [v]).

Lemma computes_nil n : computes [] n (ev_all []).
Proof. intros L A V m r rest _. cbn. by exists A. Qed.

Lemma computes_none {cells n} : computes cells n ev_none.
Proof. by intros L A V m r rest _. Qed.

Lemma computes_weaken cells n n' ev : (n <= n')%nat -> computes cells n ev -> computes cells n' ev.
Proof. intros Hn H L A V m r rest HL. apply H. lia. Qed.

Lemma ev_all_length {B} (evs : list (Ev B)) st st' vs : ev_all evs st = Some (inr (st', vs)) -> length vs = length evs.
Proof.
  revert st vs. induction evs as [| ev evs IH]; intros st vs; cbn [ev_all]; [by intros [= _ <-] |].
  unfold ev_bind at 1. destruct (ev st) as [[code | [st1 v]] |]; cbn [mbind option_bind]; [done | | done].
  unfold ev_bind. destruct (ev_all evs st1) as [[code | [st2 vs']] |] eqn:E; cbn; [done | | done].
  intros [= -> <-]. cbn. by rewrite (IH _ _ E).
Qed.

(** One operand more in front. *)
Lemma computes_cons c1 c2 n1 n2 ev evs :
  computes c1 n1 (single ev) -> computes c2 n2 (ev_all evs) ->
  computes (c1 ++ c2) (Nat.max n1 (S n2)) (ev_all (ev :: evs)).
Proof.
  intros H1 H2 L A V m r rest HL. cbn [ev_all]. unfold ev_bind at 1.
  specialize (H1 L A V m r (c2 ++ rest) ltac:(lia)). unfold single, ev_bind in H1. rewrite <- app_assoc.
  destruct (ev (m, r)) as [[code | [[m1 r1] v]] |]; cbn [mbind option_bind] in H1 |- *; [done | | done].
  destruct H1 as [A1 ->]. specialize (H2 (v :: L) A1 V m1 r1 rest ltac:(cbn; lia)). unfold ev_bind.
  cbn [rev app]. destruct (ev_all evs (m1, r1)) as [[code | [[m2 r2] vs]] |]; cbn [mbind option_bind ev_ret] in H2 |- *; [done | | done].
  destruct H2 as [A2 ->]. exists A2. cbn [rev]. by rewrite <- app_assoc.
Qed.

(** *** Operators *)

(** A call that does what [f] does. *)
Definition calls (g : op_call_func_t) (f : OpValue) (n : nat) : Prop :=
  forall vs L A V m r ret m' v, length vs = n -> f m r vs = Some (ret, m', v) ->
  exists c, g (Z.of_nat n) (mkCalc (rev vs ++ L) A V m r) = Some (ret, c) /\
    (ret = OB_SUCCESS -> c = mkCalc L (vs ++ A) V m' v).

Lemma calls_taking f k : calls (fun _ => taking (Z.of_nat k) f) f k.
Proof. intros vs L A V m r ret m' v <- E. rewrite taking_spec, E. cbn. eauto. Qed.

Lemma calls_failing code f : code <> OB_SUCCESS -> (forall n c, f n c = Some (code, c)) -> forall n, calls f (failing code) n.
Proof. intros Hc Hf n vs L A V m r ret m' v _ [= <- _ _]. rewrite Hf. by eexists. Qed.

Lemma calls_case (g : op_call_func_t) (f : list ObExprObj -> OpValue) n :
  (forall n c, g n c = if (n <? 3) || (idx_i c <? n) then Some (OB_INVALID_ARGUMENT, c) else taking n (f (above_ c)) c) ->
  (forall vs A m r x, f [] m r vs = Some x -> f A m r vs = Some x) ->
  calls g (if (n <? 3)%nat then failing OB_INVALID_ARGUMENT else f []) n.
Proof.
  intros Hg Hf vs L A V m r ret m' v Hn. rewrite Hg. unfold idx_i. cbn [live_ above_].
  rewrite length_app, length_rev, Hn. destruct (Nat.ltb_spec n 3).
  - destruct (Z.ltb_spec (Z.of_nat n) 3); [| lia]. intros [= <- _ _]. cbn. by eexists.
  - destruct (Z.ltb_spec (Z.of_nat n) 3); [lia |].
    destruct (Z.ltb_spec (Z.of_nat (n + length L)) (Z.of_nat n)); [lia |]. cbn [orb].
    intros E. apply (calls_taking (f A) n); [done |]. by apply Hf.
Qed.

Lemma call_denoted t n f :
  denote_op t n = Some f ->
  item_code T_MIN_OP < item_code t < item_code T_MAX_OP /\ item_code t <> item_code T_FUN_SYS /\
  calls (zget nop_func (call_func scan_float scan_double localtime mktime alloc outside) (item_code t - item_code T_MIN_OP - 1)) f n.
Proof.
  destruct t; try discriminate; cbn [denote_op item_code]; intros E;
    (split; [lia | split; [lia |]]);
    first
      [ match type of E with (if (n =? ?k)%nat then _ else _) = _ =>
          destruct (Nat.eqb_spec n k) as [-> |]; [| discriminate]; injection E as <-; apply calls_taking
        end
      | injection E as <-; by apply calls_failing
      | injection E as <-; apply (calls_case _ case_value); [done | apply case_value_above]
      | injection E as <-; by apply (calls_case _ (fun _ => arg_case_value scan_float scan_double localtime mktime)) ].
Qed.

Lemma sys_denoted k n f :
  0 <= k < SYS_FUNC_NUM -> denote_sys k n = Some f ->
  calls (zget nop_func (SYS_FUNCS_TAB scan_float scan_double localtime mktime alloc inet_aton) k) f n.
Proof.
  unfold SYS_FUNC_NUM. intros Hk E.
  assert (Hmax : forall g, calls (fun n => taking (Z.max 0 n) g) g n).
  { intros g. unfold calls. replace (Z.max 0 (Z.of_nat n)) with (Z.of_nat n) by lia. apply (calls_taking g n). }
  assert (k = 0 \/ k = 1 \/ k = 2 \/ k = 3 \/ k = 4 \/ k = 5 \/ k = 6 \/ k = 7 \/ k = 8 \/ k = 9 \/ k = 10 \/
          k = 11 \/ k = 12 \/ k = 13) as Hc by lia.
  destruct Hc as [-> | [-> | [-> | [-> | [-> | [-> | [-> | [-> | [-> | [-> | [-> | [-> | [-> | ->]]]]]]]]]]]]]; unfold denote_sys, zget in E; simpl in E;
    first
      [ match type of E with (if (n =? ?k)%nat then _ else _) = _ =>
          destruct (Nat.eqb_spec n k) as [-> |]; [| discriminate]; injection E as <-; apply calls_taking
        end
      | injection E as <-; by apply calls_failing
      | injection E as <-; apply Hmax
      | injection E as <-; apply (calls_taking _ n)
      | idtac ].
  injection E as <-. intros vs L A V m r ret m' v Hn E.
  change (zget _ _ 1) with (sys_func_substr scan_float scan_double localtime mktime alloc).
  unfold sys_func_substr, idx_i. cbn [live_].
  rewrite length_app, length_rev, Hn. destruct (Z.ltb_spec (Z.of_nat (n + length L)) (Z.of_nat n)); [lia |].
  assert (Heq : forall k, (Z.of_nat n =? Z.of_nat k) = (n =? k)%nat)
    by (intros k'; destruct (Z.eqb_spec (Z.of_nat n) (Z.of_nat k')), (Nat.eqb_spec n k'); lia).
  change (Z.of_nat n =? 2) with (Z.of_nat n =? Z.of_nat 2). change (Z.of_nat n =? 3) with (Z.of_nat n =? Z.of_nat 3).
  rewrite !Heq. destruct ((n =? 2)%nat || (n =? 3)%nat).
  - by apply (calls_taking _ n).
  - injection E as <- _ _. by eexists.
Qed.

(** *** Steps of the loop *)

Definition op_cells (t : ObItemType) (n : nat) : list ObObj :=
  [node_obj OP; int_obj (item_code t); int_obj (Z.of_nat n)].

Lemma loop_op t n rest c :
  item_code T_MIN_OP < item_code t < item_code T_MAX_OP -> item_code t <> item_code T_FUN_SYS ->
  (length (live_ c) < 512)%nat -> (n < 512)%nat ->
  loop (op_cells t n ++ rest) c =
  ('(ret, c) ← zget nop_func (call_func scan_float scan_double localtime mktime alloc outside)
                 (item_code t - item_code T_MIN_OP - 1) (Z.of_nat n) c ;
   if ret =? OB_SUCCESS then loop rest (push c (result_ c))
   else if ret =? OB_NO_RESULT then loop rest c else Some (ret, None, result_obj, c)).
Proof.
  intros Ht Hs Hc Hn. cbn [op_cells app calc_loop].
  change (o' ← obj_int (node_obj OP) ; node_of o') with (Some OP). unfold STACK_SIZE, idx_i. cbv iota.
  change (obj_int (int_obj ?v)) with (Some v). cbv iota.
  destruct (Z.leb_spec 512 (Z.of_nat (length (live_ c)))); [lia |].
  destruct (Z.leb_spec (item_code t) (item_code T_MIN_OP)); [lia |].
  destruct (Z.leb_spec (item_code T_MAX_OP) (item_code t)); [lia |].
  destruct (Z.eqb_spec (item_code t) (item_code T_FUN_SYS)); [lia |]. cbn [orb].
  by rewrite (wraps_small 32) by lia.
Qed.

(** Cells that call [g] for [n] operands. *)
Definition steps_to (cells : list ObObj) (g : op_call_func_t) (n : nat) : Prop :=
  forall rest c ret c', (length (live_ c) < 512)%nat -> g (Z.of_nat n) c = Some (ret, c') ->
  (ret = OB_SUCCESS -> loop (cells ++ rest) c = loop rest (push c' (result_ c'))) /\
  (ret <> OB_SUCCESS -> ret <> OB_NO_RESULT -> loop (cells ++ rest) c = Some (ret, None, result_obj, c')).

Lemma steps_to_op t n :
  item_code T_MIN_OP < item_code t < item_code T_MAX_OP -> item_code t <> item_code T_FUN_SYS -> (n < 512)%nat ->
  steps_to (op_cells t n)
    (zget nop_func (call_func scan_float scan_double localtime mktime alloc outside) (item_code t - item_code T_MIN_OP - 1)) n.
Proof.
  intros Ht Hs Hn rest c ret c' Hc E. rewrite loop_op by done. rewrite E. cbn [mbind option_bind].
  split; [by intros -> |]. intros H1 H2. by destruct (Z.eqb_spec ret OB_SUCCESS), (Z.eqb_spec ret OB_NO_RESULT).
Qed.

Definition sys_cells (n : nat) (k : Z) : list ObObj := op_cells T_FUN_SYS n ++ [int_obj k].

Lemma steps_to_sys k n :
  0 <= k < SYS_FUNC_NUM -> (n < 512)%nat ->
  steps_to (sys_cells n k) (zget nop_func (SYS_FUNCS_TAB scan_float scan_double localtime mktime alloc inet_aton) k) n.
Proof.
  intros Hk Hn rest c ret c' Hc E. cbn [sys_cells op_cells app].
  remember (int_obj (item_code T_FUN_SYS) :: int_obj (Z.of_nat n) :: int_obj k :: rest) as tl eqn:Etl. cbn [calc_loop].
  change (o' ← obj_int (node_obj OP) ; node_of o') with (Some OP). unfold STACK_SIZE, idx_i. cbv iota. subst tl. cbv iota.
  change (obj_int (int_obj ?v)) with (Some v). cbv iota.
  destruct (Z.leb_spec 512 (Z.of_nat (length (live_ c)))); [lia |].
  change (item_code T_FUN_SYS <=? item_code T_MIN_OP) with false. change (item_code T_MAX_OP <=? item_code T_FUN_SYS) with false.
  cbn [orb]. rewrite Z.eqb_refl.
  destruct (Z.ltb_spec k 0); [lia |]. destruct (Z.leb_spec SYS_FUNC_NUM k); [lia |]. cbn [orb].
  rewrite (wraps_small 32), E by lia. cbn [mbind option_bind].
  split; [by intros -> |]. intros Hr _. by destruct (Z.eqb_spec ret OB_SUCCESS).
Qed.

Lemma computes_call cells call g f k n evs :
  computes cells n (ev_all evs) -> length evs = k -> ((k < 512)%nat -> steps_to call g k) -> calls g f k ->
  computes (cells ++ call) (Nat.max n (S k)) (single (ev_apply (Some f) evs)).
Proof.
  intros Hcells Hk Hsteps Hcalls L A V m r rest HL. specialize (Hcells L A V m r (call ++ rest) ltac:(lia)).
  rewrite <- app_assoc. unfold single, ev_apply, ev_bind.
  destruct (ev_all evs (m, r)) as [[code | [[m1 r1] vs]] |] eqn:E; cbn [mbind option_bind]; [done | | done].
  destruct Hcells as [A1 ->]. apply ev_all_length in E. rewrite Hk in E. unfold apply_op.
  destruct (f m1 r1 vs) as [[[ret m2] v] |] eqn:Ef; cbn [mbind option_bind fst snd]; rewrite Ef; [| done].
  cbn [mbind option_bind]. destruct (Hcalls vs L A1 V _ _ _ _ _ E Ef) as (c & Hg & Hok).
  assert (Hlen : (length (rev vs ++ L) < 512)%nat) by (rewrite length_app, length_rev; lia).
  destruct (Hsteps ltac:(lia) rest (mkCalc (rev vs ++ L) A1 V m1 r1) _ _ Hlen Hg) as [Hs Hf].
  destruct (Z.eqb_spec ret OB_SUCCESS) as [Hret |]; [| destruct (Z.eqb_spec ret OB_NO_RESULT)]; cbn; [| done |].
  - rewrite (Hs Hret), (Hok Hret). cbn. by eexists.
  - rewrite Hf by done. by eexists.
Qed.

(** *** Leaves *)

Lemma computes_leaf cells res :
  (forall rest c, (length (live_ c) < 512)%nat ->
   loop (cells ++ rest) c =
   let '(ret, o) := res in
   if negb (ret =? OB_SUCCESS) then Some (ret, None, result_obj, c)
   else o ← o ; c ← push_obj c o ; loop rest c) ->
  computes cells 1 (single (ev_obj res)).
Proof.
  intros H L A V m r rest HL. specialize (H rest (mkCalc L A V m r) ltac:(cbn; lia)). rewrite H.
  unfold single, ev_bind, ev_obj. destruct res as [ret [o |]]; destruct (ret =? OB_SUCCESS); cbn; try done; try by eexists.
  unfold push_obj. destruct (expr_assign o); cbn; [by eexists | done].
Qed.

Lemma computes_const o : computes [node_obj CONST_OBJ; o] 1 (single (ev_obj (OB_SUCCESS, Some o))).
Proof.
  apply computes_leaf. intros rest c Hc. cbn [app calc_loop].
  change (o' ← obj_int (node_obj CONST_OBJ) ; node_of o') with (Some CONST_OBJ). cbv iota. unfold STACK_SIZE, idx_i.
  by destruct (Z.leb_spec 512 (Z.of_nat (length (live_ c)))); [lia |].
Qed.

Lemma computes_column tid cid :
  computes [node_obj COLUMN_IDX; int_obj tid; int_obj cid] 1 (single (ev_obj (get_cell row (u64 tid) (u64 cid)))).
Proof.
  apply computes_leaf. intros rest c Hc. cbn [app calc_loop].
  change (o' ← obj_int (node_obj COLUMN_IDX) ; node_of o') with (Some COLUMN_IDX). cbv iota. unfold STACK_SIZE, idx_i.
  change (obj_int (int_obj ?v)) with (Some v). cbv iota.
  destruct (Z.leb_spec 512 (Z.of_nat (length (live_ c)))); [lia |].
  destruct (get_cell _ _ _). by destruct (Nat.eqb_spec count 4).
Qed.

Lemma computes_variable t o :
  t = PARAM_IDX \/ t = SYSTEM_VAR \/ t = TEMP_VAR \/ t = CUR_TIME_OP ->
  computes [node_obj t; o] 1 (single (ev_obj (get_var_obj owner t o))).
Proof.
  intros Ht. apply computes_leaf. intros rest c Hc. cbn [app calc_loop]. unfold STACK_SIZE, idx_i.
  destruct Ht as [-> | [-> | [-> | ->]]];
    match goal with |- context [o' ← obj_int (node_obj ?k) ; node_of o'] =>
      change (o' ← obj_int (node_obj k) ; node_of o') with (Some k) end; cbv iota;
    by destruct (Z.leb_spec 512 (Z.of_nat (length (live_ c)))); [lia |].
Qed.

(** *** Steps that append such cells *)

Definition appended (s s' : ObSqlExpression (Mem := Mem)) (cells : list ObObj) : Prop :=
  expr_ (post_expr_ s') = expr_ (post_expr_ s) ++ cells.

Definition compiles (step : Step) (n : nat) (ev : Ev (list ObExprObj)) : Prop :=
  forall s s', step s = Some (OB_SUCCESS, s') -> exists cells, appended s s' cells /\ computes cells n ev.

Lemma write_string_content (m m' : Mem) s s' : write_string alloc m s = (m', OB_SUCCESS, s') -> s' = s.
Proof. unfold write_string. destruct s; [by intros [= _ <-] |]. by destruct (alloc m _); intros [= _ <-]. Qed.

Lemma append_string_cells p p' kind s :
  append_string alloc p kind s = (OB_SUCCESS, p') -> expr_ p' = expr_ p ++ [node_obj kind; set_varchar ObObj_new s].
Proof.
  unfold append_string, write_obj. change (get_varchar (set_varchar ObObj_new s)) with (Some s). cbv iota.
  destruct (write_string alloc (str_buf_ p) s) as [[m ret] s'] eqn:E.
  destruct (Z.eqb_spec ret OB_SUCCESS) as [-> | Hr]; [intros [= <-] | by intros [= ? _]].
  by rewrite (write_string_content _ _ _ _ E).
Qed.

Lemma add_string_cells t kind string s s' :
  (forall p, add_expr_item alloc p (mkItem t VNone string) = Some (append_string alloc p kind string)) ->
  add_item alloc t VNone string s = Some (OB_SUCCESS, s') -> appended s s' [node_obj kind; set_varchar ObObj_new string].
Proof.
  unfold add_item, sql_add_expr_item. intros -> E. cbn [mbind option_bind] in E.
  destruct (append_string alloc (post_expr_ s) kind string) as [ret p] eqn:Ep. injection E as -> <-.
  by apply append_string_cells.
Qed.

Lemma computes_literal o o' :
  expr_assign o = expr_assign o' -> computes [node_obj CONST_OBJ; o] 1 (single (ev_obj (OB_SUCCESS, Some o'))).
Proof.
  intros E L A V m r rest HL. pose proof (computes_const o L A V m r rest HL) as H. revert H.
  unfold single, ev_bind, ev_obj. rewrite Z.eqb_refl. cbn [negb mbind option_bind]. rewrite E. exact id.
Qed.

(** The literals: a getter succeeds on one type only. *)
Lemma compiles_literal {B} t (get : ObObj -> option B) (ty : ObObjType) (item : B -> ItemValue) (cell : B -> ObObj) value :
  (forall v s, add_item alloc t (item v) [] s =
     Some (OB_SUCCESS, with_post s (append_objs (post_expr_ s) [node_obj CONST_OBJ; cell v]))) ->
  (forall v, get value = Some v -> type_ value = ty /\ expr_assign (cell v) = expr_assign value) ->
  compiles (fun s => match get value with Some v => add_item alloc t (item v) [] s | None => Some (OB_OBJ_TYPE_ERROR, s) end)
    1 (single (if type_eqb (type_ value) ty then ev_obj (OB_SUCCESS, Some value) else ev_none)).
Proof.
  intros Hadd Hget s s'. destruct (get value) as [v |]; [| done]. destruct (Hget v eq_refl) as [-> Hv].
  rewrite Hadd. intros [= <-]. exists [node_obj CONST_OBJ; cell v]. split; [done |].
  replace (type_eqb ty ty) with true by (by destruct ty). by apply computes_literal.
Qed.

Lemma compiles_string t value :
  t = T_STRING \/ t = T_BINARY ->
  compiles (fun s => match get_varchar value with Some v => add_item alloc t VNone v s | None => Some (OB_OBJ_TYPE_ERROR, s) end)
    1 (single (if type_eqb (type_ value) ObVarcharType then ev_obj (OB_SUCCESS, Some value) else ev_none)).
Proof.
  intros Ht s s'. unfold get_varchar. destruct (type_eqb _ _) eqn:E; [| done].
  intros H. apply (add_string_cells t CONST_OBJ) in H; [| by destruct Ht as [-> | ->]].
  eexists. split; [exact H |]. apply computes_literal.
  unfold expr_assign at 2. destruct (type_ value) eqn:Ev; try done. unfold get_varchar. rewrite Ev. done.
Qed.

Lemma compiles_variable_name t kind value :
  (forall p string, add_expr_item alloc p (mkItem t VNone string) = Some (append_string alloc p kind string)) ->
  kind = SYSTEM_VAR \/ kind = TEMP_VAR ->
  compiles (fun s => match get_varchar value with Some v => add_item alloc t VNone v s | None => Some (OB_OBJ_TYPE_ERROR, s) end)
    1 (single (ev_obj (get_var_obj owner kind value))).
Proof.
  intros Hadd Hk s s'. destruct (get_varchar value) as [name |] eqn:E; [| done].
  intros H. apply (add_string_cells t kind) in H; [| done]. eexists. split; [exact H |].
  replace (get_var_obj owner kind value) with (get_var_obj owner kind (set_varchar ObObj_new name))
    by (by destruct Hk as [-> | ->]; cbn; rewrite E).
  apply computes_variable. destruct Hk; auto.
Qed.

Lemma compiles_const t value : compiles (fill_const alloc t value) 1 (single (eval_const t value)).
Proof.
  destruct t; try (by intros s s' H); cbn [fill_const eval_const].
  - apply (compiles_literal T_INT obj_int ObIntType VInt int_obj); [done |]. unfold obj_int, get_int, get_typed_int.
    intros v. destruct (type_ value) eqn:E; try done. intros [= <-]. unfold expr_assign. by rewrite E.
  - apply compiles_string. auto.
  - apply compiles_string. auto.
  - apply (compiles_literal T_DATE (fun o => fst <$> get_precise_datetime o) ObPreciseDateTimeType VInt
             (fun v => set_precise_datetime ObObj_new v false)); [done |]. unfold get_precise_datetime, get_typed_int.
    intros v. destruct (type_ value) eqn:E; try done. intros [= <-]. unfold expr_assign. by rewrite E.
  - apply (compiles_literal T_FLOAT (fun o => fst <$> get_float o) ObFloatType VFloat (fun v => set_float ObObj_new v false)); [done |].
    intros v. unfold expr_assign, get_float. destruct (type_ value) eqn:E; try done. by intros [= <-].
  - apply (compiles_literal T_DOUBLE (fun o => fst <$> get_double o) ObDoubleType VDouble (fun v => set_double ObObj_new v false)); [done |].
    intros v. unfold expr_assign, get_double. destruct (type_ value) eqn:E; try done. by intros [= <-].
  - intros s s' H. unfold fill_const, add_item, sql_add_expr_item in H. cbn in H. by destruct (get_varchar value).
  - apply (compiles_literal T_BOOL ObObject.get_bool ObBoolType VBool (fun v => set_bool ObObj_new v)); [done |].
    intros v. unfold expr_assign, ObObject.get_bool. destruct (type_ value) eqn:E; try done. by intros [= <-].
  - intros s s' [= <-]. eexists. split; [done |]. by apply computes_literal.
  - intros s s' H. unfold fill_const in H. destruct (obj_int value) as [v |] eqn:E; [| done]. injection H as <-. eexists. split; [done |].
    replace (get_var_obj owner PARAM_IDX value) with (get_var_obj owner PARAM_IDX (int_obj v)) by (cbn; by rewrite E).
    apply computes_variable. auto.
  - apply compiles_variable_name; auto.
  - apply compiles_variable_name; auto.
Qed.

(** *** Sequences of steps *)

Lemma fill_seq_app (a b : list Step) s s' :
  fill_seq (a ++ b) s = Some (OB_SUCCESS, s') ->
  exists s1, fill_seq a s = Some (OB_SUCCESS, s1) /\ fill_seq b s1 = Some (OB_SUCCESS, s').
Proof.
  revert s. induction a as [| x a IH]; intros s; cbn [app fill_seq]; [by eauto |].
  destruct (x s) as [[ret s1] |]; cbn [mbind option_bind]; [| done].
  destruct (Z.eqb_spec ret OB_SUCCESS); [apply IH | by intros [= -> _]].
Qed.

Lemma fill_seq_one (x : Step) s s' : fill_seq [x] s = Some (OB_SUCCESS, s') -> x s = Some (OB_SUCCESS, s').
Proof.
  cbn. destruct (x s) as [[ret s1] |]; cbn; [| done]. by destruct (Z.eqb_spec ret OB_SUCCESS) as [-> |].
Qed.

Lemma appended_trans s s1 s' c1 c2 : appended s s1 c1 -> appended s1 s' c2 -> appended s s' (c1 ++ c2).
Proof. unfold appended. intros H1 ->. rewrite H1. by rewrite app_assoc. Qed.

Definition appends (step : Step) : Prop :=
  forall s s', step s = Some (OB_SUCCESS, s') -> exists cells, appended s s' cells.

Lemma appends_seq steps : Forall appends steps -> appends (fill_seq steps).
Proof.
  induction 1 as [| x steps Hx _ IH]; intros s s' E; [injection E as <-; exists []; unfold appended; by rewrite app_nil_r |].
  apply (fill_seq_app [x]) in E as (s1 & E1 & E2). apply fill_seq_one in E1.
  destruct (Hx _ _ E1) as [c1 H1], (IH _ _ E2) as [c2 H2]. exists (c1 ++ c2). by eapply appended_trans.
Qed.

Lemma appends_item t v string : appends (add_item alloc t v string).
Proof.
  intros s s' E. unfold add_item, sql_add_expr_item in E.
  apply bind_Some in E as ([ret p] & E & [= -> <-]). unfold appended. cbn [post_expr_ with_post].
  assert (Hs : forall kind, append_string alloc (post_expr_ s) kind string = (OB_SUCCESS, p) ->
     exists cells, expr_ p = expr_ (post_expr_ s) ++ cells)
    by (intros kind Ek; eexists; by apply append_string_cells).
  unfold add_expr_item in E. cbn [item_type_ item_value_ item_string_] in E.
  destruct t; try discriminate; try (injection E as E; by eapply Hs);
    repeat (apply bind_Some in E as (? & _ & E)); try (injection E as <-; by eexists).
  - destruct x. injection E as <-. by eexists.
  - destruct (get_sys_func string); [| discriminate]. injection E as <-. by eexists.
Qed.

#[local] Abbreviation fill := (fill_sql_expression alloc plan).

#[local] Ltac fills :=
  cbn [fill_sql_expression];
  unfold fill_unary, fill_binary, fill_triple, fill_multi, fill_case, fill_agg_fun, fill_sys_fun; rewrite ?length_map.
#[local] Ltac fills_in E :=
  cbn [fill_sql_expression] in E;
  unfold fill_unary, fill_binary, fill_triple, fill_multi, fill_case, fill_agg_fun, fill_sys_fun in E; rewrite ?length_map in E.

Lemma opt_list_count {X Y} (f : X -> Y) o :
  (match option_map f o with None => 0 | Some _ => 1 end)%nat = length (opt_list o).
Proof. by destruct o. Qed.
Lemma case_op {X Y} (f : X -> Y) o :
  (match option_map f o with None => T_OP_CASE | Some _ => T_OP_ARG_CASE end) =
  (match o with None => T_OP_CASE | Some _ => T_OP_ARG_CASE end).
Proof. by destruct o. Qed.

Lemma appends_map (es : list ObRawExpr) (f : ObRawExpr -> Step) : (forall e, e ∈ es -> appends (f e)) -> Forall appends (map f es).
Proof. intros H. apply Forall_map, Forall_forall. exact H. Qed.

Lemma appends_fill e : appends (fill e).
Proof.
  induction e as [e IH] using raw_expr_ind.
  assert (Hc : forall e', e' ∈ children e -> appends (fill e')) by (intros e' H; apply IH; by constructor).
  destruct e as [t v | | t i | t a b | t e | t e1 e2 | t e1 e2 e3 | t es | t arg ws ts d | t param di | t nm es];
    cbn [children] in Hc; fills.
  - intros s s' E. destruct (compiles_const t v s s' E) as (cells & H & _). eauto.
  - intros s s' E. apply bind_Some in E as ([time ?] & _ & E). by apply appends_item in E.
  - intros s s' E. unfold fill_unary_ref in E. destruct plan as [[? gen] |]; [| done]. destruct (gen i) as [ret index].
    destruct (Z.eqb_spec ret OB_SUCCESS); [| by injection E]. cbn in E. destruct (index =? OB_INVALID_INDEX); [done |].
    by apply appends_item in E.
  - intros s s' E. unfold fill_binary_ref in E. destruct (item_is _ _); [by apply appends_item in E | done].
  - apply appends_seq. repeat constructor; [apply Hc; set_solver | apply appends_item].
  - assert (appends (fill e1) /\ appends (fill e2)) as [H1 H2] by (split; apply Hc; set_solver).
    apply appends_seq. rewrite !Forall_app. split_and!; [by repeat constructor | | | repeat constructor; apply appends_item].
    { destruct (is_in_op t); [| done].
      unfold fill_left_end. destruct (dem_1_to_2 _ _); repeat constructor; apply appends_item. }
    destruct (is_in_op t && dem_1_to_2 _ _); [| by repeat constructor].
    destruct e2 as [| | | | | | | t2 rows | | |]; try (repeat constructor; by intros s s' [=]).
    apply Forall_app. split; [| repeat constructor; apply appends_item]. rewrite map_map.
    apply appends_map. intros r Hr. apply appends_seq. repeat constructor; [| apply appends_item].
    apply IH. apply (below_step _ (ObMultiOpRawExpr t2 rows)); [done |]. constructor. set_solver.
  - apply appends_seq. repeat constructor; try (apply Hc; set_solver). apply appends_item.
  - apply appends_seq, Forall_app. split; [by apply appends_map | repeat constructor; apply appends_item].
  - rewrite 2 app_assoc, <- (app_assoc (opt_list _)), map_case_exprs. apply appends_seq, Forall_app.
    split; [| repeat constructor; apply appends_item].
    apply appends_map. intros e He. by apply Hc, (case_exprs_children t).
  - intros s s' E. apply bind_Some in E as (s1 & E1 & E).
    apply appends_seq in E as [cells H]; [| rewrite map_opt_list; by apply appends_map].
    exists cells. unfold appended in *. rewrite H. f_equal.
    unfold set_aggr_func, ob_assert in E1. destruct (_ && _); cbn in E1; [by injection E1 as <- | done].
  - apply appends_seq, Forall_app. split; [by apply appends_map | repeat constructor; apply appends_item].
Qed.

(** *** Operators on compiled operands *)

Definition compiled (e : ObRawExpr) : Prop := compiles (fill e) (need e) (single (eval e)).

Lemma compiles_seq es :
  (forall e, e ∈ es -> compiled e) ->
  compiles (fill_seq (map fill es)) (need_seq (map need es)) (ev_all (map eval es)).
Proof.
  induction es as [| e es IH]; intros H s s' E.
  - injection E as <-. exists []. split; [unfold appended; by rewrite app_nil_r | apply computes_nil].
  - apply (fill_seq_app [fill e]) in E as (s1 & E1 & E2). apply fill_seq_one in E1.
    destruct (H e ltac:(set_solver) _ _ E1) as (c1 & A1 & C1).
    destruct (IH ltac:(set_solver) _ _ E2) as (c2 & A2 & C2).
    exists (c1 ++ c2). split; [by eapply appended_trans |]. by apply computes_cons.
Qed.

Lemma add_op_cells t n f s s' :
  denote_op t n = Some f -> add_op alloc t n s = Some (OB_SUCCESS, s') -> appended s s' (op_cells t n).
Proof. destruct t; try discriminate; intros _ [= <-]; done. Qed.

(** Operands and then an operator, or a system function. *)
Lemma compiles_operator es step g f cells :
  (forall e, e ∈ es -> compiled e) -> appends step ->
  (forall f', f = Some f' -> (forall s s', step s = Some (OB_SUCCESS, s') -> appended s s' cells) /\
     calls g f' (length es) /\ ((length es < 512)%nat -> steps_to cells g (length es))) ->
  compiles (fill_seq (map fill es ++ [step])) (need_op (map need es)) (single (ev_apply f (map eval es))).
Proof.
  intros H Happ Hf s s' E. apply fill_seq_app in E as (s1 & E1 & E2). apply fill_seq_one in E2.
  destruct (compiles_seq es H _ _ E1) as (c1 & A1 & C1). destruct f as [f |].
  - destruct (Hf f eq_refl) as (Ha & Hcalls & Hsteps). specialize (Ha _ _ E2).
    exists (c1 ++ cells). split; [by eapply appended_trans |].
    unfold need_op. rewrite length_map. eapply computes_call; [done | by rewrite length_map | done | done].
  - destruct (Happ _ _ E2) as [c2 A2]. exists (c1 ++ c2). split; [by eapply appended_trans | apply computes_none].
Qed.

Lemma compiles_op es t :
  (forall e, e ∈ es -> compiled e) ->
  compiles (fill_seq (map fill es ++ [add_op alloc t (length es)])) (need_op (map need es))
    (single (ev_apply (denote_op t (length es)) (map eval es))).
Proof.
  intros H. eapply (compiles_operator es _ _ _ (op_cells t (length es))); [done | apply appends_item |].
  intros f Hf. destruct (call_denoted _ _ _ Hf) as (Ht & Hs & Hc). split_and!; [| exact Hc |].
  - intros s s'. by eapply add_op_cells.
  - intros Hn. by apply steps_to_op.
Qed.

Lemma get_sys_func_range name k : get_sys_func name = Some k -> 0 <= k < SYS_FUNC_NUM.
Proof.
  assert (H : forall names i k, find_name i names name = Some k -> i <= k < i + Z.of_nat (length names)).
  { induction names as [| n names IH]; intros i k'; cbn [find_name length]; [done |].
    destruct (bool_decide _); [intros [= <-]; lia |]. intros E%IH. lia. }
  intros E%H. unfold SYS_FUNC_NUM. cbn in E. lia.
Qed.

Lemma compiles_sys es name :
  (forall e, e ∈ es -> compiled e) ->
  compiles (fill_seq (map fill es ++ [add_item alloc T_FUN_SYS (VInt (Z.of_nat (length es))) name])) (need_op (map need es))
    (single (ev_apply (k ← get_sys_func name ; denote_sys k (length es)) (map eval es))).
Proof.
  intros H. destruct (get_sys_func name) as [k |] eqn:Ek.
  - eapply (compiles_operator es _ _ _ (sys_cells (length es) k)); [done | apply appends_item |].
    apply get_sys_func_range in Ek as Hk. intros f Hf. cbn in Hf. split_and!; [| by eapply sys_denoted | by apply steps_to_sys].
    intros s s' E. unfold add_item, sql_add_expr_item, add_expr_item in E.
    cbn [item_type_ item_value_ item_string_ item_int mbind option_bind] in E. rewrite Ek in E. by injection E as <-.
  - eapply (compiles_operator es _ nop_func _ []); [done | apply appends_item | done].
Qed.

(** *** IN *)

(** [x] stands in [vec] from [a] on. *)
Definition stands_at (vec : list ObExprObj) (a : nat) (x : list ObExprObj) : Prop :=
  forall i, (i < length x)%nat -> vec !! (a + i)%nat = x !! i.

Lemma stands_at_app P x S : stands_at (P ++ x ++ S) (length P) x.
Proof. intros i Hi. rewrite lookup_app_r by lia. rewrite lookup_app_l by lia. f_equal. lia. Qed.

Lemma stands_at_cons vec a v x : stands_at vec a (v :: x) -> vec !! a = Some v /\ stands_at vec (S a) x.
Proof.
  intros H. split.
  - rewrite <- (Nat.add_0_r a). apply (H 0%nat). cbn. lia.
  - intros i Hi. replace (S a + i)%nat with (a + S i)%nat by lia. apply (H (S i)). cbn. lia.
Qed.

Lemma stands_at_app_inv vec a x y : stands_at vec a (x ++ y) -> stands_at vec a x /\ stands_at vec (a + length x) y.
Proof.
  intros H. split; intros i Hi.
  - rewrite (H i) by (rewrite length_app; lia). by rewrite lookup_app_l.
  - rewrite <- Nat.add_assoc, H by (rewrite length_app; lia). rewrite lookup_app_r by lia. f_equal. lia.
Qed.

Lemma in_columns_spec vec x y a b :
  length x = length y -> stands_at vec a x -> stands_at vec b y ->
  in_columns scan_float scan_double localtime mktime (length x) vec a b =
  (d ← row_differs x y ; Some (OB_SUCCESS, d)).
Proof.
  revert y a b. induction x as [| v x IH]; intros [| w y] a b Hl Hx Hy; try discriminate; [done |].
  apply stands_at_cons in Hx as [Ea Hx], Hy as [Eb Hy]. cbn [in_columns row_differs length]. rewrite Ea, Eb.
  destruct (expr_eq cast v w) as [cmp |]; cbn [mbind option_bind]; [| done].
  destruct (set_value cmp) as [e |]; cbn [mbind option_bind]; [| done].
  destruct (_ || _); [| done]. apply IH; [by injection Hl | done | done].
Qed.

Lemma in_rows_spec vec l (rs : list (list ObExprObj)) a b has_null :
  Forall (fun r => length r = length l) rs -> stands_at vec a (rev l) ->
  stands_at vec b (List.concat (map (@rev ObExprObj) rs)) ->
  in_rows scan_float scan_double localtime mktime (length rs) vec a b (length l) has_null =
  ('(is_in, n) ← in_list l rs has_null ; Some (OB_SUCCESS, is_in, n)).
Proof.
  intros Hw Ha. revert b has_null. induction Hw as [| r rs Hr _ IH]; intros b has_null Hb; [done |].
  cbn [map List.concat] in Hb. apply stands_at_app_inv in Hb as [Hb1 Hb2]. cbn [in_rows in_list length].
  rewrite <- (length_rev l) at 1. rewrite (in_columns_spec vec (rev l) (rev r)) by (rewrite ?length_rev; done).
  destruct (row_differs (rev l) (rev r)) as [[cmp |] |]; cbn [mbind option_bind]; [| done | done].
  rewrite length_rev, Hr in Hb2. apply IH; done.
Qed.

Lemma concat_rev_length (l : list ObExprObj) rs :
  Forall (fun r => length r = length l) rs ->
  length (List.concat (map (@rev ObExprObj) rs)) = (length rs * length l)%nat.
Proof. induction 1 as [| r rs Hr _ IH]; [done |]. cbn. rewrite length_app, length_rev. lia. Qed.

(** The vector when IN is reached: the rows, and their widths. *)
Definition in_vec (V l : list ObExprObj) (rs : list (list ObExprObj)) : list ObExprObj :=
  V ++ rev l ++ XInt (Z.of_nat (length l)) :: List.concat (map (@rev ObExprObj) rs) ++
  replicate (length rs) (XInt (Z.of_nat (length l))).

Lemma in_vec_last V l rs : last (in_vec V l rs) = Some (XInt (Z.of_nat (length l))).
Proof.
  unfold in_vec. rewrite app_assoc, last_app. cbn [last].
  destruct (length rs) as [| n] eqn:En.
  - destruct rs; [done | discriminate].
  - rewrite replicate_S_end, app_comm_cons, !app_assoc, last_snoc. done.
Qed.

Lemma check_is_in_row_spec V l rs :
  (0 < length l)%nat -> Forall (fun r => length r = length l) rs ->
  check_is_in_row scan_float scan_double localtime mktime (in_vec V l rs) (Z.of_nat (length V))
    (Z.of_nat (length V + length l + 1)) (Z.of_nat (length rs)) (Z.of_nat (length l)) =
  (v ← in_value false l rs ; Some (OB_SUCCESS, v)).
Proof.
  intros Hl Hw. unfold check_is_in_row, in_value. destruct rs as [| r rs]; [done |].
  destruct (Z.leb_spec (Z.of_nat (length (r :: rs)) * Z.of_nat (length l)) 0); [cbn [length] in *; lia |].
  destruct (Z.ltb_spec (Z.of_nat (length l)) 0); [lia |].
  destruct (Z.ltb_spec (Z.of_nat (length V)) 0); [lia |].
  destruct (Z.ltb_spec (Z.of_nat (length V + length l + 1)) 0); [lia |]. cbn [orb]. rewrite !Nat2Z.id.
  rewrite in_rows_spec; [| done | |].
  - destruct (in_list l (r :: rs) false) as [[is_in n] |]; done.
  - unfold in_vec. apply stands_at_app.
  - unfold in_vec.
    replace (length V + length l + 1)%nat with (length (V ++ rev l ++ [XInt (Z.of_nat (length l))]))
      by (rewrite !length_app, length_rev; cbn; lia).
    pose proof (stands_at_app (V ++ rev l ++ [XInt (Z.of_nat (length l))]) (List.concat (map (@rev ObExprObj) (r :: rs)))
      (replicate (length (r :: rs)) (XInt (Z.of_nat (length l))))) as H'.
    rewrite <- !app_assoc in H'. exact H'.
Qed.

Lemma in_func_spec V l rs L A (m : Mem) r v n :
  (0 < length l)%nat -> Forall (fun r => length r = length l) rs -> in_value false l rs = Some v ->
  exists A', in_func scan_float scan_double localtime mktime n
    (mkCalc (XInt (Z.of_nat (length rs)) :: XInt 2 :: L) A (in_vec V l rs) m r) =
  Some (OB_SUCCESS, mkCalc L A' V m v).
Proof.
  intros Hl Hw Hv. unfold in_func, idx_i. cbn [live_ length].
  destruct (Z.ltb_spec (Z.of_nat (S (S (length L)))) 2); [lia |]. unfold get_result. cbn [live_].
  assert (Hint : forall v, expr_get_int (XInt v) = Some (OB_SUCCESS, v)) by done.
  rewrite (Hint (Z.of_nat (length rs))), bind_some. cbv beta iota.
  change (negb (OB_SUCCESS =? OB_SUCCESS)) with false. cbv iota.
  rewrite (Hint 2), bind_some. cbv beta iota zeta. change (negb (OB_SUCCESS =? OB_SUCCESS)) with false.
  change (2 =? 1) with false. change (2 =? 2) with true. cbv iota.
  unfold popped. cbn [live_ vec_ buf_ above_]. unfold width_obj. rewrite in_vec_last, Hint, bind_some.
  cbv beta iota. change (negb (OB_SUCCESS =? OB_SUCCESS)) with false. cbv iota.
  assert (Htop : length (in_vec V l rs) = (length V + length l + 1 + length rs * length l + length rs)%nat).
  { unfold in_vec. rewrite !length_app, length_rev. cbn [length]. rewrite length_app, (concat_rev_length l), length_replicate by done. lia. }
  replace (Z.of_nat (length (in_vec V l rs)) - Z.of_nat (length rs) - Z.of_nat (length rs) * Z.of_nat (length l))
    with (Z.of_nat (length V + length l + 1)) by lia.
  replace (Z.of_nat (length V + length l + 1) - 1 - Z.of_nat (length l)) with (Z.of_nat (length V)) by lia.
  rewrite check_is_in_row_spec, Hv by done. cbn [mbind option_bind]. change (OB_SUCCESS =? OB_SUCCESS) with true. cbv iota.
  rewrite Nat2Z.id. unfold in_vec. rewrite take_app_length. by eexists.
Qed.

(** *** Rows *)

Lemma push_row_spec (vs L A V : list ObExprObj) (m : Mem) r :
  push_row (Z.of_nat (length vs)) (mkCalc (rev vs ++ L) A V m r) = (OB_SUCCESS, mkCalc L (vs ++ A) (V ++ rev vs) m r).
Proof.
  unfold push_row, idx_i. cbn [live_ vec_ buf_ result_]. rewrite length_app, length_rev.
  destruct (Z.ltb_spec (Z.of_nat (length vs + length L)) (Z.of_nat (length vs))); [lia |].
  rewrite Nat2Z.id. unfold popped, operands. cbn [live_ above_].
  rewrite take_app_length', drop_app_length' by (by rewrite length_rev). by rewrite rev_involutive.
Qed.

Lemma loop_row (vs L A V : list ObExprObj) m r rest :
  (length vs + length L < 512)%nat ->
  exists A', loop (op_cells T_OP_ROW (length vs) ++ rest) (mkCalc (rev vs ++ L) A V m r) =
    loop rest (mkCalc (XInt (Z.of_nat (length vs)) :: L) A' (V ++ rev vs) m (XInt (Z.of_nat (length vs)))).
Proof.
  intros Hl. rewrite loop_op; [| done | done | cbn [live_]; rewrite length_app, length_rev; lia | lia].
  change (zget nop_func _ _) with (@row_func Mem). unfold row_func. rewrite push_row_spec. cbn. by eexists.
Qed.

Lemma loop_left_end x (L A V : list ObExprObj) m r rest :
  (S (length L) < 512)%nat ->
  exists A', loop (op_cells T_OP_LEFT_PARAM_END 2 ++ rest) (mkCalc (x :: L) A V m r) =
    loop rest (mkCalc (XInt 2 :: L) A' (V ++ [x]) m (XInt 2)).
Proof.
  intros Hl. rewrite loop_op; [| done | done | cbn [live_ length]; lia | lia].
  change (zget nop_func _ _) with (@left_param_end_func Mem). unfold left_param_end_func.
  change 1 with (Z.of_nat (length [x])). change (x :: L) with (rev [x] ++ L). rewrite push_row_spec. cbn. by eexists.
Qed.

(** Cells that put the values of [evs] in the vector and their number on the stack. *)
Definition fills_row (cells : list ObObj) (n : nat) (evs : list (Ev ObExprObj)) : Prop :=
  forall L A V m r rest, (length L + n <= 512)%nat ->
  match ev_row evs (m, r) with
  | None => True
  | Some (inl code) => exists c, loop (cells ++ rest) (mkCalc L A V m r) = Some (code, None, result_obj, c)
  | Some (inr ((m', r'), vs)) =>
      exists A', loop (cells ++ rest) (mkCalc L A V m r) =
        loop rest (mkCalc (XInt (Z.of_nat (length evs)) :: L) A' (V ++ rev vs) m' r')
  end.

Lemma computes_row cells n evs :
  computes cells n (ev_all evs) ->
  fills_row (cells ++ op_cells T_OP_ROW (length evs)) (Nat.max n (S (length evs))) evs.
Proof.
  intros H L A V m r rest HL. specialize (H L A V m r (op_cells T_OP_ROW (length evs) ++ rest) ltac:(lia)).
  rewrite <- app_assoc. unfold ev_row, ev_bind.
  destruct (ev_all evs (m, r)) as [[code | [[m1 r1] vs]] |] eqn:E; cbn [mbind option_bind]; [done | | done].
  apply ev_all_length in E. destruct H as [A1 ->].
  unfold ev_result, ev_ret. cbn [mbind option_bind fst]. rewrite <- E. apply loop_row. lia.
Qed.

Definition fills_rows (cells : list ObObj) (n : nat) (rows : list (list (Ev ObExprObj))) : Prop :=
  forall L A V m r rest, (length L + n <= 512)%nat ->
  match ev_all (map ev_row rows) (m, r) with
  | None => True
  | Some (inl code) => exists c, loop (cells ++ rest) (mkCalc L A V m r) = Some (code, None, result_obj, c)
  | Some (inr ((m', r'), rs)) =>
      exists A', loop (cells ++ rest) (mkCalc L A V m r) =
        loop rest (mkCalc (rev (map (fun evs => XInt (Z.of_nat (length evs))) rows) ++ L) A'
          (V ++ List.concat (map (@rev ObExprObj) rs)) m' r')
  end.

Lemma fills_rows_nil n : fills_rows [] n [].
Proof. intros L A V m r rest _. cbn. rewrite app_nil_r. by exists A. Qed.

Lemma fills_rows_cons c1 c2 n1 n2 evs rows :
  fills_row c1 n1 evs -> fills_rows c2 n2 rows -> fills_rows (c1 ++ c2) (Nat.max n1 (S n2)) (evs :: rows).
Proof.
  intros H1 H2 L A V m r rest HL. cbn [map ev_all]. unfold ev_bind at 1.
  specialize (H1 L A V m r (c2 ++ rest) ltac:(lia)). rewrite <- app_assoc.
  destruct (ev_row evs (m, r)) as [[code | [[m1 r1] vs]] |]; cbn [mbind option_bind]; [done | | done].
  destruct H1 as [A1 ->].
  specialize (H2 (XInt (Z.of_nat (length evs)) :: L) A1 (V ++ rev vs) m1 r1 rest ltac:(cbn; lia)). unfold ev_bind.
  destruct (ev_all (map ev_row rows) (m1, r1)) as [[code | [[m2 r2] rs]] |]; cbn [mbind option_bind ev_ret]; [done | | done].
  destruct H2 as [A2 ->]. exists A2. cbn [map rev List.concat]. by rewrite <- !app_assoc.
Qed.

Lemma loop_in negated (L A V l : list ObExprObj) rs m r v rest :
  (0 < length l)%nat -> Forall (fun r => length r = length l) rs -> in_value negated l rs = Some v ->
  (length L + 2 < 512)%nat ->
  exists A', loop (op_cells (if negated then T_OP_NOT_IN else T_OP_IN) 2 ++ rest)
      (mkCalc (XInt (Z.of_nat (length rs)) :: XInt 2 :: L) A (in_vec V l rs) m r) =
    loop rest (mkCalc (v :: L) A' V m v).
Proof.
  intros Hl Hw Hv HL. unfold in_value in Hv. apply bind_Some in Hv as ([is_in has_null] & Ein & [= <-]).
  assert (Hf : in_value false l rs = Some (in_result is_in has_null)) by (unfold in_value; by rewrite Ein).
  destruct (in_func_spec V l rs L A m r _ (Z.of_nat 2) Hl Hw Hf) as [A' E].
  rewrite loop_op; [| by destruct negated | by destruct negated | cbn [live_ length]; lia | lia].
  destruct negated.
  - change (zget nop_func _ _) with (@not_in_func scan_float scan_double localtime mktime Mem). unfold not_in_func.
    rewrite E. cbn. by eexists.
  - change (zget nop_func _ _) with (@in_func scan_float scan_double localtime mktime Mem).
    rewrite E. cbn. by eexists.
Qed.

(** The cells of IN: the left row, its end, the rows of the right side and the operator. *)
Definition in_cells (negated : bool) (left_cells row_cells : list ObObj) (n : nat) : list ObObj :=
  left_cells ++ op_cells T_OP_LEFT_PARAM_END 2 ++ row_cells ++ op_cells T_OP_ROW n ++
  op_cells (if negated then T_OP_NOT_IN else T_OP_IN) 2.

Lemma ev_row_length evs st st' vs : ev_row evs st = Some (inr (st', vs)) -> length vs = length evs.
Proof.
  unfold ev_row, ev_bind, ev_result, ev_ret.
  destruct (ev_all evs st) as [[code | [st1 vs']] |] eqn:E; cbn; [done | | done]. intros [= _ <-]. by apply ev_all_length in E.
Qed.

Lemma ev_rows_widths w rows st st' rs :
  Forall (fun evs : list (Ev ObExprObj) => length evs = w) rows -> ev_all (map ev_row rows) st = Some (inr (st', rs)) ->
  Forall (fun r => length r = w) rs.
Proof.
  intros Hw. revert st rs. induction Hw as [| evs rows Hr _ IH]; intros st rs; cbn [map ev_all].
  - intros [= _ <-]. constructor.
  - unfold ev_bind at 1. destruct (ev_row evs st) as [[code | [st1 vs]] |] eqn:E; cbn [mbind option_bind]; [done | | done].
    unfold ev_bind. destruct (ev_all (map ev_row rows) st1) as [[code | [st2 rs']] |] eqn:E2; cbn; [done | | done].
    intros [= -> <-]. constructor; [apply ev_row_length in E; lia | by eapply IH].
Qed.

Lemma rev_widths w (rows : list (list (Ev ObExprObj))) :
  Forall (fun evs => length evs = w) rows ->
  rev (map (fun evs => XInt (Z.of_nat (length evs))) rows) = replicate (length rows) (XInt (Z.of_nat w)).
Proof.
  induction 1 as [| evs rows Hr _ IH]; [done |]. cbn [map rev length]. rewrite IH, Hr. by rewrite <- replicate_S_end.
Qed.

Lemma computes_in negated lc rc nl nr lhs rows :
  fills_row lc nl lhs -> fills_rows rc nr rows ->
  computes (in_cells negated lc rc (length rows)) (Nat.max nl (S (Nat.max nr (Nat.max (S (length rows)) 2))))
    (single (ev_in negated lhs rows)).
Proof.
  intros H1 H2 L A V m r rest HL. unfold single, ev_in.
  destruct ((0 <? length lhs)%nat && _) eqn:Hc; cbn [negb]; [| done].
  apply andb_true_iff in Hc as [Hl Hw]. apply Nat.ltb_lt in Hl.
  assert (Hrows : Forall (fun evs => length evs = length lhs) rows).
  { apply Forall_forall. intros evs Hin. apply list_elem_of_In in Hin.
    rewrite forallb_forall in Hw. by apply Nat.eqb_eq, Hw. }
  unfold in_cells. rewrite <- !app_assoc. unfold ev_bind at 1 2.
  specialize (H1 L A V m r (op_cells T_OP_LEFT_PARAM_END 2 ++ rc ++ op_cells T_OP_ROW (length rows) ++
    op_cells (if negated then T_OP_NOT_IN else T_OP_IN) 2 ++ rest) ltac:(lia)).
  destruct (ev_row lhs (m, r)) as [[code | [[m1 r1] l]] |] eqn:El; cbn [mbind option_bind]; [done | | done].
  apply ev_row_length in El. destruct H1 as [A1 ->].
  edestruct (loop_left_end (XInt (Z.of_nat (length lhs))) L A1 (V ++ rev l) m1 r1) as [A2 ->]; [lia |].
  unfold ev_bind at 1 2. change (ev_result (XInt 2) (m1, r1)) with (Some (inr (A := Z) ((m1, XInt 2), ()))).
  cbn [mbind option_bind].
  specialize (H2 (XInt 2 :: L) A2 ((V ++ rev l) ++ [XInt (Z.of_nat (length lhs))]) m1 (XInt 2)
    (op_cells T_OP_ROW (length rows) ++ op_cells (if negated then T_OP_NOT_IN else T_OP_IN) 2 ++ rest) ltac:(cbn [length]; lia)).
  destruct (ev_all (map ev_row rows) (m1, XInt 2)) as [[code | [[m2 r2] rs]] |] eqn:Er; cbn [mbind option_bind]; [done | | done].
  destruct H2 as [A3 ->]. pose proof (ev_all_length _ _ _ _ Er) as Hn. rewrite length_map in Hn.
  pose proof (ev_rows_widths _ _ _ _ _ Hrows Er) as Hrs.
  destruct (in_value negated l rs) as [v |] eqn:Ev; [| done].
  set (ws := map (fun evs => XInt (Z.of_nat (length evs))) rows).
  assert (Hws : length ws = length rows) by (unfold ws; by rewrite length_map).
  rewrite <- Hws. edestruct (loop_row ws (XInt 2 :: L) A3) as [A4 ->]; [cbn [length]; lia |].
  replace ((((V ++ rev l) ++ [XInt (Z.of_nat (length lhs))]) ++ List.concat (map (@rev ObExprObj) rs)) ++ rev ws)
    with (in_vec V l rs) by (unfold ws; rewrite (rev_widths (length lhs)) by done; unfold in_vec; rewrite El, Hn, <- !app_assoc; done).
  rewrite Hws, <- Hn. cbn [ev_opt default mbind option_bind]. unfold ev_bind, ev_result, ev_ret. cbn [mbind option_bind fst].
  rewrite <- El in Hl. rewrite <- El in Hrs. cbn [rev app]. apply loop_in; try done. lia.
Qed.

(** *** The steps of IN *)

Definition fill_row (es : list ObRawExpr) : Step := fill_seq (map fill es ++ [add_op alloc T_OP_ROW (length es)]).

Lemma add_op_appended t n s s' :
  item_is t T_OP_ROW || item_is t T_OP_LEFT_PARAM_END || is_in_op t = true ->
  add_op alloc t n s = Some (OB_SUCCESS, s') -> appended s s' (op_cells t n).
Proof. destruct t; try discriminate; intros _ [= <-]; done. Qed.

Lemma compiles_row es s s' :
  (forall e, e ∈ es -> compiled e) -> fill_row es s = Some (OB_SUCCESS, s') ->
  exists cells, appended s s' cells /\ fills_row cells (need_op (map need es)) (map eval es).
Proof.
  intros H E. apply fill_seq_app in E as (s1 & E1 & E2). apply fill_seq_one, add_op_appended in E2; [| done].
  destruct (compiles_seq es H _ _ E1) as (c1 & A1 & C1). exists (c1 ++ op_cells T_OP_ROW (length es)).
  split; [by eapply appended_trans |]. apply computes_row in C1. unfold need_op. by rewrite !length_map in *.
Qed.

Lemma compiles_rows ess s s' :
  (forall es e, es ∈ ess -> e ∈ es -> compiled e) -> fill_seq (map fill_row ess) s = Some (OB_SUCCESS, s') ->
  exists cells, appended s s' cells /\
    fills_rows cells (need_seq (map need_op (map (map need) ess))) (map (map eval) ess).
Proof.
  revert s. induction ess as [| es ess IH]; intros s H E.
  - injection E as <-. exists []. split; [unfold appended; by rewrite app_nil_r | apply fills_rows_nil].
  - apply (fill_seq_app [fill_row es]) in E as (s1 & E1 & E2). apply fill_seq_one in E1.
    apply compiles_row in E1 as (c1 & A1 & C1); [| intros e; apply H; apply list_elem_of_here].
    destruct (IH s1) as (c2 & A2 & C2); [intros es' e Hes; apply H; by apply list_elem_of_further | done |].
    exists (c1 ++ c2). split; [by eapply appended_trans |]. by apply fills_rows_cons.
Qed.

Lemma compiles_in t les ess s s1 s2 s3 s4 s' :
  is_in_op t = true -> (forall e, e ∈ les -> compiled e) -> (forall es e, es ∈ ess -> e ∈ es -> compiled e) ->
  fill_row les s = Some (OB_SUCCESS, s1) -> add_op alloc T_OP_LEFT_PARAM_END 2 s1 = Some (OB_SUCCESS, s2) ->
  fill_seq (map fill_row ess) s2 = Some (OB_SUCCESS, s3) ->
  add_op alloc T_OP_ROW (length ess) s3 = Some (OB_SUCCESS, s4) -> add_op alloc t 2 s4 = Some (OB_SUCCESS, s') ->
  exists cells, appended s s' cells /\
    computes cells (need_in (map need les) (map (map need) ess))
      (single (ev_in (item_is t T_OP_NOT_IN) (map eval les) (map (map eval) ess))).
Proof.
  intros Ht Hl Hr E1 E2 E3 E4 E5. apply compiles_row in E1 as (c1 & A1 & C1); [| done].
  apply compiles_rows in E3 as (c3 & A3 & C3); [| done].
  apply add_op_appended in E2; [| done]. apply add_op_appended in E4; [| done].
  apply add_op_appended in E5; [| rewrite Ht; apply orb_true_r].
  exists (in_cells (item_is t T_OP_NOT_IN) c1 c3 (length ess)). split.
  - unfold in_cells. eapply appended_trans; [exact A1 |]. eapply appended_trans; [exact E2 |].
    eapply appended_trans; [exact A3 |]. eapply appended_trans; [exact E4 |].
    by destruct t.
  - pose proof (computes_in (item_is t T_OP_NOT_IN) _ _ _ _ _ _ C1 C3) as H. unfold need_in. by rewrite !length_map in *.
Qed.

Lemma in_sides_map {B} (f : ObRawExpr -> B) e1 e2 :
  in_sides f e1 e2 = ('(les, ess) ← in_sides (fun e => e) e1 e2 ; Some (map f les, map (map f) ess)).
Proof.
  assert (Hrow : forall e, row_of f e = map f <$> row_of (fun e => e) e).
  { intros []; try done. cbn. destruct type; try done. cbn. by rewrite map_id. }
  assert (Hrows : forall rows, mapM (row_of f) rows = map (map f) <$> mapM (row_of (fun e => e)) rows).
  { induction rows as [| e rows IH]; [done |]. cbn. rewrite Hrow, IH. destruct (row_of _ e); [| done]. cbn.
    by destruct (mapM (row_of (fun e => e)) rows). }
  destruct e2; try done. cbn. destruct type; try done. destruct (item_is _ T_OP_ROW).
  - rewrite Hrow, Hrows. destruct (row_of _ e1); [| done]. cbn. by destruct (mapM _ exprs).
  - destruct (item_is _ _); [done |]. cbn. by rewrite !map_map.
Qed.

Lemma row_of_below e es x : row_of (fun e => e) e = Some es -> x ∈ es -> below x e.
Proof.
  destruct e; try done. cbn. destruct type; try done. rewrite map_id. intros [= <-] Hx. by constructor.
Qed.

Lemma below_trans e1 e2 e3 : below e1 e2 -> below e2 e3 -> below e1 e3.
Proof. induction 1 as [e e' Hc | e e' e'' Hc Hb IH]; intros H; [by apply (below_step _ e) | apply (below_step _ e'); auto]. Qed.

Lemma in_sides_below t e1 e2 les ess :
  in_sides (fun e => e) e1 e2 = Some (les, ess) ->
  (forall e, e ∈ les -> below e (ObBinaryOpRawExpr t e1 e2)) /\
  (forall es e, es ∈ ess -> e ∈ es -> below e (ObBinaryOpRawExpr t e1 e2)).
Proof.
  assert (H1 : below e1 (ObBinaryOpRawExpr t e1 e2)) by (constructor; cbn; set_solver).
  assert (H2 : below e2 (ObBinaryOpRawExpr t e1 e2)) by (constructor; cbn; set_solver).
  destruct e2 as [| | | | | | | t2 rows | | |]; try done. cbn. destruct t2; try done.
  assert (Hrow : forall r, r ∈ rows -> below r (ObBinaryOpRawExpr t e1 (ObMultiOpRawExpr T_OP_ROW rows)))
    by (intros r Hr; eapply below_trans; [| exact H2]; by constructor).
  destruct (item_is _ T_OP_ROW).
  - intros E. apply bind_Some in E as (les' & El & E). apply bind_Some in E as (ess' & Er & [= <- <-]). split.
    + intros e He. eapply below_trans; [by eapply row_of_below | exact H1].
    + intros es e Hes He. apply mapM_Some in Er. apply list_elem_of_lookup in Hes as [i Hi].
      destruct (Forall2_lookup_r _ _ _ _ _ Er Hi) as (r & Hr & Hre).
      eapply below_trans; [by eapply row_of_below | apply Hrow; by eapply list_elem_of_lookup_2].
  - destruct (item_is _ _); [done |]. intros [= <- <-]. split.
    + intros e ->%list_elem_of_singleton. exact H1.
    + intros es e Hes He. apply list_elem_of_In, in_map_iff in Hes as (r & <- & Hr).
      apply list_elem_of_singleton in He as ->. by apply Hrow, list_elem_of_In.
Qed.

Lemma map_id_rows (rows : list ObRawExpr) ess s s' :
  mapM (row_of (fun e => e)) rows = Some ess ->
  fill_seq (map fill rows) s = Some (OB_SUCCESS, s') -> fill_seq (map fill_row ess) s = Some (OB_SUCCESS, s').
Proof.
  intros E%mapM_Some. replace (map fill_row ess) with (map fill rows); [done |].
  induction E as [| r es rows ess Hr _ IH]; [done |]. cbn [map]. f_equal; [| exact IH].
  destruct r as [| | | | | | | t es' | | |]; try done. destruct t; try done. cbn in Hr. rewrite map_id in Hr. injection Hr as ->. by fills.
Qed.

(** The left side and the rows, whatever they look like in the tree. *)
Lemma fill_in_steps t e1 e2 les ess s s' :
  is_in_op t = true -> in_sides (fun e => e) e1 e2 = Some (les, ess) ->
  fill (ObBinaryOpRawExpr t e1 e2) s = Some (OB_SUCCESS, s') ->
  exists s1 s2 s3 s4, fill_row les s = Some (OB_SUCCESS, s1) /\
    add_op alloc T_OP_LEFT_PARAM_END 2 s1 = Some (OB_SUCCESS, s2) /\
    fill_seq (map fill_row ess) s2 = Some (OB_SUCCESS, s3) /\
    add_op alloc T_OP_ROW (length ess) s3 = Some (OB_SUCCESS, s4) /\ add_op alloc t 2 s4 = Some (OB_SUCCESS, s').
Proof.
  intros Ht Hsides. fills. rewrite Ht.
  destruct e2 as [| | | | | | | t2 rows | | |]; try done. destruct t2; try done.
  cbn [in_sides] in Hsides. unfold fill_left_end, dem_1_to_2. cbn [get_expr_type].
  change (item_is T_OP_ROW T_OP_ROW) with true. destruct (item_is (get_expr_type e1) T_OP_ROW) eqn:E1.
  - apply bind_Some in Hsides as (les' & El & Hsides). apply bind_Some in Hsides as (ess' & Er & [= <- <-]).
    cbn [negb andb orb app]. intros E. apply (fill_seq_app [_]) in E as (s1 & F1 & E). apply fill_seq_one in F1.
    apply (fill_seq_app [_]) in E as (s2 & F2 & E). apply fill_seq_one in F2.
    apply (fill_seq_app [_]) in E as (s4 & F4 & F5). apply fill_seq_one in F4, F5.
    fills_in F4. apply fill_seq_app in F4 as (s3 & F3 & F4). apply fill_seq_one in F4.
    exists s1, s2, s3, s4. split_and!; [| done | by eapply map_id_rows | | done].
    + destruct e1 as [| | | | | | | t1 es1 | | |]; try done. destruct t1; try done. cbn in El. rewrite map_id in El. injection El as <-. by fills_in F1.
    + apply mapM_Some, Forall2_length in Er. by rewrite <- Er.
  - destruct (item_is (get_expr_type e1) T_REF_QUERY); [done |]. injection Hsides as <- <-.
    cbn [negb andb orb app]. intros E. apply (fill_seq_app [_; _]) in E as (s1 & F1 & E).
    apply (fill_seq_app [_]) in E as (s2 & F2 & E). apply fill_seq_one in F2.
    rewrite <- app_assoc in E. apply fill_seq_app in E as (s3 & F3 & E).
    apply (fill_seq_app [_]) in E as (s4 & F4 & F5). apply fill_seq_one in F4, F5.
    exists s1, s2, s3, s4. rewrite length_map in *. rewrite map_map in *. by split_and!.
Qed.

Lemma compiles_case t arg ws ts d :
  (forall e, e ∈ opt_list arg ++ ws ++ ts ++ opt_list d -> compiled e) -> compiled (ObCaseOpRawExpr t arg ws ts d).
Proof.
  intros H. unfold compiled. cbn [need eval]. rewrite !map_case_exprs.
  assert (Hcase : forall e, e ∈ case_exprs arg ws ts d -> compiled e)
    by (intros e He; by apply H, (case_exprs_children t)).
  destruct (Nat.eqb_spec (length ws) (length ts)) as [Hl |]; cbn [negb].
  - fills. rewrite 2 app_assoc, <- (app_assoc (opt_list _)), map_case_exprs, !opt_list_count, case_op.
    assert (Hn : (length (opt_list arg) + length ws + length ts + length (opt_list d))%nat = length (case_exprs arg ws ts d))
      by (unfold case_exprs; rewrite !length_app, interleave_length by done; lia).
    rewrite Hn. by apply compiles_op.
  - intros s s' E. destruct (appends_fill _ _ _ E) as [cells A]. exists cells. split; [done | apply computes_none].
Qed.

Lemma compiled_all e : compiled e.
Proof.
  induction e as [e IH] using raw_expr_ind.
  assert (Hc : forall e', e' ∈ children e -> compiled e') by (intros e' H; apply IH; by constructor).
  destruct e as [t v | | t i | t a b | t e | t e1 e2 | t e1 e2 e3 | t es | t arg ws ts d | t param di | t nm es];
    unfold compiled; cbn [need eval children] in Hc |- *.
  - apply compiles_const.
  - intros s s' E. cbn [fill_sql_expression] in E. apply bind_Some in E as ([time gen] & _ & [= <-]).
    eexists. split; [done |].
    replace (get_var_obj owner CUR_TIME_OP ObObj_new) with (get_var_obj owner CUR_TIME_OP (int_obj time)) by done.
    apply computes_variable. auto.
  - intros s s' E. destruct (appends_fill _ _ _ E) as [cells H]. exists cells. split; [done | apply computes_none].
  - intros s s' E. cbn [fill_sql_expression] in E. unfold fill_binary_ref in E. destruct (item_is t T_REF_COLUMN) eqn:Et; [| done].
    destruct t; try discriminate Et. injection E as <-. eexists. split; [done |].
    rewrite <- (u64_int64 a), <- (u64_int64 b). apply computes_column.
  - fills. apply (compiles_op [e] t). intros e' ->%list_elem_of_singleton. apply Hc. set_solver.
  - destruct (is_in_op t) eqn:Ht.
    + intros s s' E. rewrite (in_sides_map need), (in_sides_map eval). destruct (in_sides (fun e => e) e1 e2) as [[les ess] |] eqn:Es; cbn [mbind option_bind].
      * destruct (in_sides_below t _ _ _ _ Es) as [Hl Hr].
        destruct (fill_in_steps t e1 e2 les ess s s' Ht Es E) as (s1 & s2 & s3 & s4 & F1 & F2 & F3 & F4 & F5).
        eapply compiles_in; eauto.
      * destruct (appends_fill _ _ _ E) as [cells H]. exists cells. split; [done | apply computes_none].
    + fills. rewrite Ht. apply (compiles_op [e1; e2] t). intros e' He. apply Hc. set_solver.
  - fills. apply (compiles_op [e1; e2; e3] t). intros e' He. apply Hc. set_solver.
  - fills. by apply compiles_op.
  - by apply compiles_case.
  - intros s s' E. fills_in E. apply bind_Some in E as (s1 & E1 & E).
    destruct param as [e |]; cbn [opt_list option_map] in E |- *.
    + apply fill_seq_one in E. destruct (Hc e ltac:(set_solver) _ _ E) as (cells & H & C). exists cells.
      split; [| eapply computes_weaken; [| exact C]; cbn; lia]. unfold appended in *. rewrite H. f_equal.
      unfold set_aggr_func, ob_assert in E1. destruct (_ && _); cbn in E1; [by injection E1 as <- | done].
    + destruct (appends_fill (ObAggFunRawExpr t None di) s s') as [cells H].
      { fills. by rewrite E1. }
      exists cells. split; [done | apply computes_none].
  - fills. pose proof (compiles_sys es nm Hc) as H.
    by destruct (get_sys_func nm).
Qed.

End Eval.

(** ** Theorem *)

Section Compile.
Context (scan_float scan_double : list Z -> option Z) (localtime : Z -> tm) (mktime : tm -> Z).
Context {Mem : Type} (alloc : Mem -> Z -> option Mem) (inet_aton : list Z -> option Z) (outside : Z -> Z).
Context (reuse : Mem -> Mem) (clock : nat -> Z) (plan : option (Z * (Z -> Z * Z))).

#[local] Abbreviation calc := (calc scan_float scan_double localtime mktime alloc inet_aton outside reuse clock).
#[local] Abbreviation eval row owner := (eval scan_float scan_double localtime mktime alloc inet_aton outside row owner).

(** The items of the tree and the end mark. *)
Lemma fill_raw_cells (e : ObRawExpr) tid cid (s s' : ObSqlExpression (Mem := Mem)) :
  expr_ (post_expr_ s) = [] -> fill_sql_raw_expr alloc plan tid cid e s = Some (OB_SUCCESS, s') ->
  exists s1, fill_sql_expression alloc plan e (set_tid_cid s tid cid) = Some (OB_SUCCESS, s1) /\
    expr_ (post_expr_ s') = expr_ (post_expr_ s1) ++ [node_obj END_MARK].
Proof.
  intros Hs E. unfold fill_sql_raw_expr in E. apply (fill_seq_app [_]) in E as (s1 & E1 & E2).
  apply fill_seq_one in E1, E2. exists s1. split; [done |]. by injection E2 as <-.
Qed.

Lemma loop_end row owner result_obj count v A V (m : Mem) r ret o :
  expr_to v result_obj = Some (ret, o) ->
  calc_loop scan_float scan_double localtime mktime alloc inet_aton outside clock row owner result_obj count
    [node_obj END_MARK] (mkCalc [v] A V m r) =
  Some (ret, if ret =? OB_SUCCESS then Some o else None, o, mkCalc [] (v :: A) V m r).
Proof.
  intros E. cbn [calc_loop]. change (o' ← obj_int (node_obj END_MARK) ; node_of o') with (Some END_MARK). cbv iota.
  cbn [live_]. by rewrite E.
Qed.

Lemma loop_column row owner result_obj x y A V (m : Mem) r :
  calc_loop scan_float scan_double localtime mktime alloc inet_aton outside clock row owner result_obj 4
    [node_obj COLUMN_IDX; int_obj x; int_obj y; node_obj END_MARK] (mkCalc [] A V m r) =
  let '(ret, cell) := get_cell row (u64 x) (u64 y) in Some (ret, cell, result_obj, mkCalc [] A V m r).
Proof.
  remember [int_obj x; int_obj y; node_obj END_MARK] as tl eqn:Etl. cbn [calc_loop].
  change (o' ← obj_int (node_obj COLUMN_IDX) ; node_of o') with (Some COLUMN_IDX). cbv iota. subst tl. cbv iota.
  change (obj_int (int_obj ?v)) with (Some v). cbv iota. done.
Qed.


(** A CASE without an operand whose ELSE value is true.  When no WHEN is true, the loop
    of [case_func], which goes on to the ELSE value, takes that value for a condition, and
    the result is the value behind it: what an earlier calculation of the thread has left
    above the top of the stack. *)
Theorem case_else_true_reads_above (ws ts L A V : list ObExprObj) (e x r : ObExprObj) (m : Mem)
    (Hlen : length ws = length ts) (Hws : ws <> []) (Hfalse : Forall (fun w => expr_is_true w = false) ws)
    (Htrue : expr_is_true e = true) :
  case_func (Z.of_nat (length (interleave ws ts ++ [e])))
    (mkCalc (rev (interleave ws ts ++ [e]) ++ L) (x :: A) V m r) =
  Some (OB_SUCCESS, mkCalc L ((interleave ws ts ++ [e]) ++ x :: A) V m x).
Proof.
  assert (Hn : length (interleave ws ts ++ [e]) = (2 * length ws + 1)%nat)
    by (rewrite length_app, interleave_length by done; cbn; lia).
  assert (0 < length ws)%nat by (destruct ws; [done | cbn; lia]).
  set (vs := interleave ws ts ++ [e]) in *.
  unfold case_func, idx_i. cbn [live_ above_]. rewrite length_app, length_rev.
  destruct (Z.ltb_spec (Z.of_nat (length vs)) 3); [lia |].
  destruct (Z.ltb_spec (Z.of_nat (length vs + length L)) (Z.of_nat (length vs))); [lia |].
  cbn [orb]. rewrite taking_spec. unfold case_value. rewrite Hn.
  replace (Z.of_nat (2 * length ws + 1)) with (2 * Z.of_nat (length ws) + 1) by lia.
  replace (vs ++ x :: A) with (interleave ws ts ++ e :: x :: A) by (unfold vs; by rewrite <- app_assoc).
  by rewrite case_loop_else by done.
Qed.
End Compile.

(** *** Examples *)

Definition int_const (v : Z) : ObRawExpr := ObConstRawExpr T_INT (int_obj v).

(** [1 + 2 IN (4, 3)] *)
Definition example_expr : ObRawExpr :=
  ObBinaryOpRawExpr T_OP_IN (ObBinaryOpRawExpr T_OP_ADD (int_const 1) (int_const 2))
    (ObMultiOpRawExpr T_OP_ROW [int_const 4; int_const 3]).

Definition example_filled : ObSqlExpression (Mem := unit) :=
  match fill_sql_raw_expr always None 1 16 example_expr (ObSqlExpression_new tt tt) with
  | Some (_, s) => s
  | None => ObSqlExpression_new tt tt
  end.

